(* ===== verification/_CoqProject ===== *)
-Q . S2P
Prelude.v
Net.v
Allocator.v
Wire.v
Rib.v
RibFacts.v
RibView.v
RibTheorems.v
RibGlobal.v
Queue.v
Server.v
Desired.v
Dataplane.v
Bus.v
BusFacts.v
BusTheorems.v
BusConverge.v
BusGlobal.v
EdgeLb.v
Agent.v
AgentView.v
Shadow.v
Firewall.v
FirewallTheorems.v
FwClass.v
FwClassFacts.v
FwClassTheorems.v
FwControl.v
FwControlFacts.v
FwControlTheorems.v
FwControlPackets.v
FwPath.v
FwPathFacts.v
FwPathTheorems.v
Reconciler.v
ReconcilerTheorems.v
Meter.v
MeterTheorems.v
Packet.v
PacketFacts.v
Conntrack.v
Nat.v
Nat64.v
Checksum.v
Datapath.v
NatTable.v
NatTrace.v
Sample.v
NatTheorems.v
Stateful.v
GuestLocal.v
GuestLocalTheorems.v
Maglev.v
LbControl.v
LbControlFacts.v
LbAdopt.v
LbControlTheorems.v
Interact.v
Dispatch.v
Scheduler.v
SchedulerTheorems.v
Fence.v
FenceName.v
FenceSystem.v
FenceTheorems.v
Failover.v
FailoverTheorems.v
