(* ===== verification/Prelude.v ===== *)
(** * ectobase: the control planes and the node datapath

    ectobase is a network virtualisation platform.  Its parts, as the sources under
    src/ divide them:

    - the controllers (src/mesh/controllers, src/mesh/allocator) compile the API
      objects of a cluster into one CompiledNIC per interface: addresses, NAT port
      blocks, firewall rules;
    - the reflector (src/mesh/reflector) is the route bus: the agents of all nodes hold
      sessions with it, announce routes, NAT blocks and public prefixes, and learn those
      of the others;
    - the agent of a node (src/mesh/agent) reconciles the CompiledNICs of its node,
      announces what the node has, and programs what it learns and what is compiled on
      the node's dataplane;
    - the node service (src/flowplane/flowplane, src/flowplane/flowplane-control) takes
      the agent's requests and writes the maps of the datapath;
    - the datapath (src/flowplane/flowplane-core, -common, -ebpf) handles every packet:
      stateful firewall, routing and tunnels, NAT, NAT64, load balancing, metering, and
      the answers of the virtual gateway (ARP, neighbour discovery, DHCPv4);
    - the dispatch (src/dispatch) places workloads on the clusters of a fleet, its
      pools, and moves them off a lost pool: it fences the pool's prefix in the storage
      and at the reflector, binds its machines elsewhere, and lifts the fences when the
      pool is back and drained.

    ** Files

    An operation is a function of the same name, on records with the fields of the
    source; a method that changes its receiver returns the new state, an error is a
    value, a fallible read an [option].  Integers are [Z] with the wrap-around written
    out ([u8], [u16], [u32], [u64]).

    This file: widths, iteration over Go maps in any order ([RangeOrder]), state with
    output ([SW]), notations, tactics and hints, and lemmas on maps and lists.

    [Net]: the parsers, printers and prefix tests of Go's net and net/netip.

    [Allocator]: portblock.go, ipam.go and mac.go of mesh/allocator.  Over a pool
    without duplicates blocks are disjoint and stay, allocation is lowest-first,
    exhaustion is an error.

    [Wire]: the messages of the route bus.  [Rib], with [RibFacts], [RibView],
    [RibTheorems] and [RibGlobal]: rib.go, nattable.go and publictable.go.  The table is
    well formed in every reachable state; a subscriber that replays what it is sent
    holds exactly what the reflector advertises, a global sink exactly the global
    tables; a fence hides a prefix and nothing else; the end of a session removes what
    the node announced, the end of a superseded session nothing.  [Queue]: queue.go and
    the drain of a session as a transition system; no wake-up is lost, delivery is in
    order, a delta is dropped only behind 1024 others, the queue drains.  [Server]: server.go, underlayauthz.go, authz.go and
    admin.go; what a session changes its certificate allows.

    [Desired]: desired.go, and the delta the agent sends.  [Dataplane]: the interface
    the agent programs (a class with laws, and a scripted instance that fails its
    calls).  [Bus], with [BusFacts], [BusTheorems] and [BusConverge]: the route half of
    bus.go on a node ([node_step]) whose dataplane and whose agent restart; the agent's
    record of the dataplane is true whatever calls fail, and a bounded number of ticks
    makes the dataplane hold exactly the wanted routes, and beside them only what it
    already held when the running agent started.  [BusGlobal], [EdgeLb]: the NAT
    neighbours and load balancers of an edge; exact where the dataplane can store the
    blocks the feed carries ([storable]), and but for the load balancers of an earlier
    agent on addresses nobody announces.  [Agent], [AgentView]: the whole client, the
    convergence latch, and the reflector and an agent end to end.  [Reconciler], with
    [ReconcilerTheorems]: reconcile.go and its siblings; what a tick announces.

    [Shadow], [Firewall], with [FirewallTheorems]: admission and compilation of firewall
    policies.  [FwClass], with [FwClassFacts] and [FwClassTheorems]: the classifier of
    the datapath and its compiler (fwclass.rs, ports.rs, firewall.rs); it decides like
    first match.  [FwControl], with [FwControlFacts], [FwControlTheorems] and
    [FwControlPackets]: the programming of scopes and bindings over maps whose writes
    fail.  [FwPath], with [FwPathFacts] and [FwPathTheorems]: from the compiled rules
    through the request to the maps; end to end, a packet meets the verdict of the
    policies.

    [Meter], with [MeterTheorems]: meter.rs; the lanes are token buckets and pacers.
    [Packet], with [PacketFacts]: packets, checksums and hashes.  [Conntrack]:
    conntrack.rs and the aging sweep.  [Nat], [Nat64]: nat.rs and nat64.rs.  [Datapath]:
    the handlers of guest egress, fabric ingress and the WAN edge, and the IPv4 egress of
    the eBPF program.  [Checksum]: every rewrite keeps the checksums valid.  [NatTable],
    [NatTrace], [NatTheorems]: what the handlers do to the conntrack table; ports are
    exclusive, and a reply reaches the guest that asked.  [Stateful]: what passes was
    accepted by a policy, itself or through its flow, but for the kinds no policy is
    asked about, which the theorems name (NAT64, the source 0.0.0.0, ICMP errors of a
    balanced flow).  [Sample]: a node to evaluate on.  [GuestLocal], with
    [GuestLocalTheorems]: arp_nd.rs, dhcp.rs and guest_local.rs, and the gateway's part
    of the guest classifier of the eBPF program (tc.rs); the gateway answers what is for
    it and nothing else, and a guest reads its lease out of the reply.

    [Maglev]: maglev.rs; the table is built, whole and balanced.  [LbControl], with
    [LbControlFacts], [LbAdopt] and [LbControlTheorems]: lb.rs; after any run of calls
    and restarts the datapath selects a backend of the load balancer that has the
    service, and a restart finds every load balancer again in the maps.

    [Interact]: programs of calls whose answers are open, their traces, and a logic for
    what holds before every call.  [Dispatch]: the objects and calls of the dispatch, and
    the health of a pool (dispatch/pkg/clusterpool).  [Scheduler], with
    [SchedulerTheorems]: dispatch/pkg/scheduler; the best pool is chosen, and a batch
    over-commits none.  [Fence], [FenceName]: dispatch/pkg/fence; distinct valid prefixes
    have distinct fence names.  [FenceSystem], with [FenceTheorems]: the storage fencer beside
    the API server and csi-addons, whose documented behaviour is a relation on the world
    ([csi_step], [api]); a confirmed fence blocks, a confirmed release does not.
    [Failover], with [FailoverTheorems]: dispatch/pkg/failover; whatever the answers, no
    machine leaves a pool that is not fenced in full, no fence is lifted early, and in
    the world of [FenceSystem] no machine moves while its old pool can write.

    ** Interfaces

    Components meet through classes: [RangeOrder] (the order Go leaves open),
    [Dataplane] and [DataplaneLaws] (what the agent asks of the node service),
    [FwWriter], [FwWriterLaws] and [FwWriterReliable] (what the control core asks of the
    maps; instances for the in-memory writer and for kernel maps whose system calls fail
    by an oracle), [LbWriter], [LbWriterLaws], [LbWriterReliable] and [LbWriterReads]
    (the same for load balancers), [Lpm] (what the datapath asks of a
    longest-prefix-match trie; instance: the simulator's table), [Quantity],
    [QuantityLaws] and [Conditions] (what the dispatch uses of the Kubernetes
    libraries).  The Kubernetes label selectors, the API server's answers and the clock
    are arguments.

    ** Fuel

    Recursion that is not structural has fuel.  The IPv6 parser of [Net] has a unit for
    each group that still fits, as the code counts them.  The fold of a checksum has
    three rounds, one more than any sum of the code needs.  The port loops of [FwClass]
    have a unit for each port of the range and each bit of a block
    ([port_prefixes_exact]).  [find_port] has the code's own bound of 64 probes.  The
    loops of [Maglev] have a unit for each slot, proved enough
    ([maglev_build_terminates]).  The cutting of route keys into batches in [Failover]
    has a round for each key.  The option scan of [GuestLocal] has the code's own bound
    of 128 bytes, and the walks of [LbControl] its three tries.  The budgets and tick
    counts of [BusConverge] are the code's.

    ** Not modelled

    The eBPF glue (tail calls, raw pointers, the verifier's bounds), the resize of a
    frame by the kernel (a parameter of [tc_guest_gateway]) and the DHCPv6 responder, the capacity of kernel maps and the eviction of their entries, the devices
    and netlink, the loader, hardware offload; the programming of routes, NAT bindings
    and interfaces in the control core; the reconcilers of the controllers and the broker
    of the dispatch, which are sequences of Kubernetes API calls around the functions
    modelled here; the watches that start a pass of a controller; TLS and certificates;
    generated code; packaging.  The conntrack table is proved consistent under fixed NAT
    bindings, and under sweeps that spare the reverse entries of the flows they spare:
    the code's sweep does not always, as [nat_return_expires] shows.  Load balancers are
    proved under writes of changed tables and removals that succeed: the code ignores or
    does not retry their errors.  A batch is proved not to over-commit a pool with what it
    places: the code does not count what already runs there. *)

From Stdlib Require Export ZArith Lia Ascii String.
From stdpp Require Export base gmap strings list sorting fin_maps relations.

Declare Scope go_scope.
Delimit Scope go_scope with go.

(** ** Go's fixed-width integers

    A Go integer of width [w] is a [Z]; the operations that can leave the range
    are followed by the wrap-around the language defines. *)

Definition u32 (z : Z) : Z := z `mod` 2 ^ 32.

Definition u64 (z : Z) : Z := z `mod` 2 ^ 64.

Definition i32 (z : Z) : Z := (z + 2 ^ 31) `mod` 2 ^ 32 - 2 ^ 31.

Arguments u32 : simpl never.
Arguments u64 : simpl never.
Arguments i32 : simpl never.

Notation "x +u32 y" := (u32 (x + y)) (at level 50, left associativity) : go_scope.
Notation "x +u64 y" := (u64 (x + y)) (at level 50, left associativity) : go_scope.

(** ** Iteration over a Go map

    [for k, v := range m] visits the entries in an order the language leaves
    unspecified.  A definition that iterates takes the order as an argument of
    this class, and a theorem about it holds for every order. *)

Class RangeOrder := {
  range_map {K : Type} {eqK : EqDecision K} {cntK : Countable K} {A : Type} :
    gmap K A → list (K * A);
  range_map_perm {K : Type} {eqK : EqDecision K} {cntK : Countable K} {A : Type}
    (m : gmap K A) : range_map m ≡ₚ map_to_list m
}.

(** A [map[K]struct{}] is a [gset K]. *)
Definition range_set {ro : RangeOrder} {K : Type} {eqK : EqDecision K} {cntK : Countable K}
    (s : gset K) : list K :=
  (range_map (gset_to_gmap tt s)).*1.

(** One concrete order, for evaluation. *)
Definition canonical_order : RangeOrder :=
  {| range_map K eqK cntK A m := map_to_list m;
     range_map_perm K eqK cntK A m := Permutation_refl (map_to_list m) |}.

(** [sort.Strings]: the byte-wise order on strings. *)
Definition sort_strings (l : list string) : list string := merge_sort String.le l.

(** ** State with output

    A method that changes its receiver and sends messages is a function from
    the state to the new state and the messages, in order. *)

Abbreviation SW S O := (S → S * list O) (only parsing).

Definition sw_seq {S O : Type} (f g : SW S O) : SW S O := fun s =>
  let '(s1, o1) := f s in let '(s2, o2) := g s1 in (s2, o1 ++ o2).

(** [for _, x := range l { f(x) }] *)
Fixpoint sw_loop {S O X : Type} (f : X → SW S O) (l : list X) : SW S O :=
  match l with
  | [] => fun s => (s, [])
  | x :: l => sw_seq (f x) (sw_loop f l)
  end.

(** Does a boolean function hold of some element: [slices.ContainsFunc]. *)
Definition any {A : Type} (f : A → bool) (l : list A) : bool := existsb f l.

(** ** Automation *)

Create HintDb ecto.

(** Split every conjunction and existential of the context. *)
Ltac break :=
  repeat match goal with
  | H : _ ∧ _ |- _ => destruct H
  | H : ∃ _, _ |- _ => destruct H
  | H : (_, _) = (_, _) |- _ => injection H as ? ?
  end.

(** Case analysis on the innermost match or decision of the goal. *)
Ltac cases := repeat (case_match || case_decide || case_bool_decide); simplify_eq/=.

Ltac go := break; simplify_map_eq; eauto with ecto; try (done || lia || congruence).

(** ** Lemmas on integers *)

Lemma u32_small (z : Z) : (0 ≤ z < 2 ^ 32)%Z → u32 z = z.
Proof. apply Z.mod_small. Qed.

Lemma u32_range (z : Z) : (0 ≤ u32 z < 2 ^ 32)%Z.
Proof. by apply Z.mod_pos_bound. Qed.

Lemma u64_small (z : Z) : (0 ≤ z < 2 ^ 64)%Z → u64 z = z.
Proof. apply Z.mod_small. Qed.

Lemma i32_small (z : Z) : (- 2 ^ 31 ≤ z < 2 ^ 31)%Z → i32 z = z.
Proof. intros H. unfold i32. rewrite Z.mod_small; lia. Qed.

Lemma i32_range (z : Z) : (- 2 ^ 31 ≤ i32 z < 2 ^ 31)%Z.
Proof. unfold i32. pose proof (Z.mod_pos_bound (z + 2 ^ 31) (2 ^ 32)). lia. Qed.

(** A number with its low bits clear and one below that power of two. *)
Lemma lor_low (x h m : Z) : (0 ≤ h → 0 ≤ m < 2 ^ h → Z.lor (x * 2 ^ h) m = x * 2 ^ h + m)%Z.
Proof.
  intros Hh Hm. assert (Hl : Z.land (x * 2 ^ h) m = 0%Z).
  { apply Z.bits_inj'. intros i Hi. rewrite Z.land_spec, Z.bits_0.
    destruct (Z.lt_ge_cases i h) as [Hlt|Hge]; [by rewrite Z.mul_pow2_bits_low|].
    rewrite <-(Z.mod_small m (2 ^ h)) by done. rewrite Z.mod_pow2_bits_high by lia. apply andb_false_r. }
  rewrite <-Z.lxor_lor, <-Z.add_nocarry_lxor by done. done.
Qed.

#[export] Hint Resolve u32_range i32_range : ecto.

(** ** Lemmas on iteration *)

Section range.
Context {ro : RangeOrder} {K : Type} `{Countable K}.

Lemma elem_of_range_map {A : Type} (m : gmap K A) (k : K) (x : A) :
  (k, x) ∈ range_map m ↔ m !! k = Some x.
Proof. rewrite range_map_perm. apply elem_of_map_to_list. Qed.

Lemma NoDup_range_map_fst {A : Type} (m : gmap K A) : NoDup (range_map m).*1.
Proof. rewrite range_map_perm. apply NoDup_fst_map_to_list. Qed.

Lemma length_range_map {A : Type} (m : gmap K A) : length (range_map m) = size m.
Proof. rewrite range_map_perm. apply length_map_to_list. Qed.

Lemma elem_of_range_set (s : gset K) (k : K) : k ∈ range_set s ↔ k ∈ s.
Proof.
  unfold range_set. rewrite list_elem_of_fmap. split.
  - intros ([k' []] & -> & Hk%elem_of_range_map). by apply lookup_gset_to_gmap_Some in Hk as [? _].
  - intros Hk. exists (k, tt). split; [done|]. apply elem_of_range_map.
    by rewrite lookup_gset_to_gmap_Some.
Qed.

Lemma NoDup_range_set (s : gset K) : NoDup (range_set s).
Proof. apply NoDup_range_map_fst. Qed.

End range.

#[export] Hint Resolve NoDup_range_map_fst NoDup_range_set : ecto.

(** ** Lemmas on lists *)

Lemma filter_all {A : Type} (P : A → Prop) `{∀ x, Decision (P x)} (l : list A) :
  (∀ x, x ∈ l → P x) → filter P l = l.
Proof.
  intros Hl. induction l as [|x l IH]; [done|].
  rewrite filter_cons_True by (apply Hl; left). f_equal. apply IH. intros y Hy. apply Hl. by right.
Qed.

(** Elements of a list that a function tells apart. *)
Lemma NoDup_fmap_eq {A B : Type} (f : A → B) l x y : NoDup (f <$> l) → x ∈ l → y ∈ l → f x = f y → x = y.
Proof.
  induction l as [|z l IH]; intros Hnd Hx Hy Hf; [by apply not_elem_of_nil in Hx|]. apply NoDup_cons in Hnd as [Hz Hnd].
  apply elem_of_cons in Hx as [->|Hx]; apply elem_of_cons in Hy as [->|Hy]; [done| | |by apply IH].
  - destruct Hz. rewrite Hf. by apply list_elem_of_fmap_2.
  - destruct Hz. rewrite <- Hf. by apply list_elem_of_fmap_2.
Qed.

(** ** Lemmas on sorted strings *)

Lemma sort_strings_perm (l : list string) : sort_strings l ≡ₚ l.
Proof. apply merge_sort_Permutation. Qed.

Lemma sort_strings_sorted (l : list string) : Sorted String.le (sort_strings l).
Proof. apply (Sorted_merge_sort String.le). Qed.

Lemma elem_of_sort_strings (l : list string) (x : string) : x ∈ sort_strings l ↔ x ∈ l.
Proof. by rewrite sort_strings_perm. Qed.

(** The sorted form of a list depends on its elements alone. *)
Lemma sort_strings_unique (l1 l2 : list string) : l1 ≡ₚ l2 → sort_strings l1 = sort_strings l2.
Proof.
  intros Hp. apply (Sorted_unique String.le); try apply sort_strings_sorted.
  by rewrite !sort_strings_perm.
Qed.

(** Without duplicates the order is strict. *)
Lemma sort_strings_strict (l : list string) :
  NoDup l → StronglySorted (fun x y => String.le x y ∧ x ≠ y) (sort_strings l).
Proof.
  intros Hnd. rewrite <-(sort_strings_perm l) in Hnd.
  pose proof (sort_strings_sorted l) as Hs. apply (Sorted_StronglySorted) in Hs; [|by intros ???; etrans].
  induction Hs as [|x l' Hs IH Hx]; [constructor|]. apply NoDup_cons in Hnd as [Hn Hnd].
  constructor; [by apply IH|]. rewrite Forall_forall in *. intros y Hy. split; [auto|]. by intros ->.
Qed.

Lemma StronglySorted_omap {A B : Type} (R : A → A → Prop) (Q : B → B → Prop) (f : A → option B) (l : list A) :
  (∀ x y a b, R x y → f x = Some a → f y = Some b → Q a b) →
  StronglySorted R l → StronglySorted Q (omap f l).
Proof.
  intros Hf Hs. induction Hs as [|x l Hs IH Hx]; csimpl; [constructor|].
  destruct (f x) as [a|] eqn:Ha; [|done]. constructor; [done|].
  apply Forall_forall. intros b (y & Hy & Hb)%list_elem_of_omap. rewrite Forall_forall in Hx. eauto.
Qed.

Lemma StronglySorted_fmap {A B : Type} (R : A → A → Prop) (Q : B → B → Prop) (f : A → B) (l : list A) :
  (∀ x y, R x y → Q (f x) (f y)) → StronglySorted R l → StronglySorted Q (f <$> l).
Proof.
  intros Hf Hs. induction Hs as [|x l Hs IH Hx]; csimpl; constructor; [done|].
  apply Forall_fmap. eapply Forall_impl; [exact Hx|]. simpl. auto.
Qed.

(** ** Lemmas on state with output *)

Section sw.
Context {S O X : Type}.
Implicit Types (f : X → SW S O) (l : list X) (s : S).

Lemma sw_loop_cons f x l s :
  sw_loop f (x :: l) s = ((sw_loop f l (f x s).1).1, (f x s).2 ++ (sw_loop f l (f x s).1).2).
Proof. simpl. unfold sw_seq. destruct (f x s) as [s1 o1]. simpl. by destruct (sw_loop f l s1). Qed.

(** Induction on a loop: [P] relates what is left to visit, the state and what
    was sent so far. *)
Lemma sw_loop_ind (P : list X → S → list O → Prop) f l s o :
  (∀ x l s o, P (x :: l) s o → P l (f x s).1 (o ++ (f x s).2)) →
  P l s o → P [] (sw_loop f l s).1 (o ++ (sw_loop f l s).2).
Proof.
  intros Hf. revert s o. induction l as [|x l IH]; intros s o Hs.
  - simpl. by rewrite app_nil_r.
  - rewrite sw_loop_cons. simpl. rewrite app_assoc. apply IH, Hf, Hs.
Qed.

Lemma sw_seq_eq (f g : SW S O) s :
  sw_seq f g s = ((g (f s).1).1, (f s).2 ++ (g (f s).1).2).
Proof. unfold sw_seq. destruct (f s) as [s1 o1]. simpl. by destruct (g s1). Qed.

(** An invariant of the body is an invariant of the loop. *)
Lemma sw_loop_inv (P : S → Prop) f l s :
  (∀ x s, x ∈ l → P s → P (f x s).1) → P s → P (sw_loop f l s).1.
Proof.
  revert s. induction l as [|x l IH]; intros s Hf Hs; [done|].
  rewrite sw_loop_cons. simpl. apply IH; [|by apply Hf; [left|]].
  intros y s' Hy. apply Hf. by right.
Qed.

End sw.
