(* ===== verification/Net.v ===== *)
(** * Addresses: the parts of Go's [net] and [net/netip] the program uses

    The reflector, the agent and the controllers keep addresses and prefixes as
    text and parse them where they compare them.  This file models the parsers,
    the canonical printers and the containment tests of the two packages, so
    that a definition of another file says exactly which spelling of an address
    it compares with which.  [Module netip] models the value types of
    [net/netip]; [Module net] the byte-slice types of [net], where an IPv4
    address and its v4-mapped IPv6 form are one address. *)

From stdpp Require Import pretty.
From S2P Require Import Prelude.

Open Scope Z_scope.

Definition chars (s : string) : list ascii := list_ascii_of_string s.

Definition digit_val (c : ascii) : option Z :=
  let n := Z.of_N (N_of_ascii c) in
  if (48 <=? n) && (n <=? 57) then Some (n - 48) else None.

Definition hex_val (c : ascii) : option Z :=
  let n := Z.of_N (N_of_ascii c) in
  if (48 <=? n) && (n <=? 57) then Some (n - 48)
  else if (97 <=? n) && (n <=? 102) then Some (n - 87)
  else if (65 <=? n) && (n <=? 70) then Some (n - 55)
  else None.

(** The value of a non-empty run of digits, [None] if any character is not one. *)
Fixpoint digits_val (acc : Z) (l : list ascii) : option Z :=
  match l with
  | [] => Some acc
  | c :: l => d ← digit_val c; digits_val (acc * 10 + d) l
  end.

Definition decimal (l : list ascii) : option Z :=
  match l with [] => None | _ => digits_val 0 l end.

(** A decimal number spelled without a leading zero. *)
Definition decimal_strict (l : list ascii) : option Z :=
  match l with
  | "0"%char :: _ :: _ => None
  | _ => decimal l
  end.

(** [strings.IndexByte] and the split it is used for: before and after the first
    occurrence. *)
Fixpoint cut (c : ascii) (l : list ascii) : option (list ascii * list ascii) :=
  match l with
  | [] => None
  | x :: l =>
      if decide (x = c) then Some ([], l)
      else '(a, b) ← cut c l; Some (x :: a, b)
  end.

(** The split at the last occurrence. *)
Definition cut_last (c : ascii) (l : list ascii) : option (list ascii * list ascii) :=
  '(a, b) ← cut c (rev l); Some (rev b, rev a).

Fixpoint fields (c : ascii) (cur : list ascii) (l : list ascii) : list (list ascii) :=
  match l with
  | [] => [rev cur]
  | x :: l => if decide (x = c) then rev cur :: fields c [] l else fields c (x :: cur) l
  end.

Fixpoint span_hex (l : list ascii) : list Z * list ascii :=
  match l with
  | [] => ([], [])
  | c :: l' =>
      match hex_val c with
      | Some v => let '(vs, r) := span_hex l' in (v :: vs, r)
      | None => ([], l)
      end
  end.

Module netip.

(** [netip.Addr]: an IPv4 address, or an IPv6 address with its zone.  The zero
    [Addr] is the absence of a value. *)
Inductive Addr :=
  | Addr4 (v : Z)
  | Addr6 (v : Z) (zone : string).

#[export] Instance Addr_eq_dec : EqDecision Addr.
Proof. solve_decision. Defined.

#[export] Program Instance Addr_countable : Countable Addr :=
  inj_countable (fun a => match a with Addr4 v => inl v | Addr6 v z => inr (v, z) end)
    (fun s => Some match s with inl v => Addr4 v | inr (v, z) => Addr6 v z end) _.
Next Obligation. by intros []. Qed.

Definition Is4 (a : Addr) : bool := match a with Addr4 _ => true | Addr6 _ _ => false end.
Definition Is6 (a : Addr) : bool := negb (Is4 a).
Definition Is4In6 (a : Addr) : bool :=
  match a with Addr4 _ => false | Addr6 v _ => Z.shiftr v 32 =? 0xffff end.
Definition BitLen (a : Addr) : Z := if Is4 a then 32 else 128.
Definition Zone (a : Addr) : string := match a with Addr4 _ => "" | Addr6 _ z => z end.
Definition bits_of (a : Addr) : Z := match a with Addr4 v => v | Addr6 v _ => v end.
Definition WithoutZone (a : Addr) : Addr :=
  match a with Addr4 v => Addr4 v | Addr6 v _ => Addr6 v "" end.

(** [As16]: IPv4 in its v4-mapped form. *)
Definition As16 (a : Addr) : Z :=
  match a with Addr4 v => Z.lor (Z.shiftl 0xffff 32) v | Addr6 v _ => v end.

Definition Unmap (a : Addr) : Addr :=
  if Is4In6 a then Addr4 (Z.land (bits_of a) (2 ^ 32 - 1)) else a.

(** [Next]: the following address, [None] past the last one. *)
Definition Next (a : Addr) : option Addr :=
  match a with
  | Addr4 v => if v + 1 <? 2 ^ 32 then Some (Addr4 (v + 1)) else None
  | Addr6 v z => if v + 1 <? 2 ^ 128 then Some (Addr6 (v + 1) z) else None
  end.

(** [Less], on addresses without zones. *)
Definition Less (a b : Addr) : bool :=
  match a, b with
  | Addr4 v, Addr4 w => v <? w
  | Addr4 _, Addr6 _ _ => true
  | Addr6 _ _, Addr4 _ => false
  | Addr6 v _, Addr6 w _ => v <? w
  end.

Definition octet (l : list ascii) : option Z :=
  v ← decimal_strict l; if v <=? 255 then Some v else None.

Definition parseIPv4 (l : list ascii) : option Z :=
  match fields "."%char [] l with
  | [a; b; c; d] =>
      a ← octet a; b ← octet b; c ← octet c; d ← octet d;
      Some (((a * 256 + b) * 256 + c) * 256 + d)
  | _ => None
  end.

Definition group_val (vs : list Z) : Z := foldl (fun acc v => acc * 16 + v) 0 vs.

(** The loop of [parseIPv6]: [i] 16-bit groups are read into [gs]; [ell] is the
    position of the ellipsis.  The result is the groups, the ellipsis and what
    is left of the text.  [fuel] is the number of groups that still fit. *)
Fixpoint parse6_loop (fuel : nat) (s : list ascii) (gs : list Z) (ell : option nat)
    : option (list Z * option nat * list ascii) :=
  match fuel with
  | O => Some (gs, ell, s)
  | S fuel =>
      let '(vs, rest) := span_hex s in
      if decide (length vs = 0 ∨ 4 < length vs)%nat then None
      else match rest with
      | "."%char :: _ =>
          if decide (ell = None ∧ length gs ≠ 6)%nat then None
          else if decide (8 < length gs + 2)%nat then None
          else v ← parseIPv4 s;
               Some (gs ++ [Z.shiftr v 16; Z.land v 0xffff], ell, [])
      | [] => Some (gs ++ [group_val vs], ell, [])
      | ":"%char :: [] => None
      | ":"%char :: ":"%char :: s' =>
          if decide (ell ≠ None) then None
          else match s' with
          | [] => Some (gs ++ [group_val vs], Some (length gs + 1)%nat, [])
          | _ => parse6_loop fuel s' (gs ++ [group_val vs]) (Some (length gs + 1)%nat)
          end
      | ":"%char :: s' => parse6_loop fuel s' (gs ++ [group_val vs]) ell
      | _ => None
      end
  end.

Definition of_groups (gs : list Z) : Z := foldl (fun acc g => acc * 65536 + g) 0 gs.

(** After the loop: the whole text must be read, and the ellipsis stands for at
    least one group of zeros. *)
Definition finish_groups (r : option (list Z * option nat * list ascii)) : option (list Z) :=
  '(gs, ell, rest) ← r;
  match rest with
  | _ :: _ => None
  | [] =>
      match ell with
      | None => if decide (length gs = 8)%nat then Some gs else None
      | Some e =>
          if decide (8 ≤ length gs)%nat then None
          else Some (take e gs ++ replicate (8 - length gs) 0 ++ drop e gs)
      end
  end.

Definition parse6_groups (s : list ascii) : option (list Z) :=
  match s with
  | ":"%char :: ":"%char :: [] => Some (replicate 8 0)
  | ":"%char :: ":"%char :: s' => finish_groups (parse6_loop 8 s' [] (Some 0%nat))
  | _ => finish_groups (parse6_loop 8 s [] None)
  end.

Definition parseIPv6 (l : list ascii) : option Addr :=
  match cut "%"%char l with
  | None => gs ← parse6_groups l; Some (Addr6 (of_groups gs) "")
  | Some (_, []) => None
  | Some (s, z) => gs ← parse6_groups s; Some (Addr6 (of_groups gs) (string_of_list_ascii z))
  end.

(** [ParseAddr] decides the family by the first of ['.'], [':'] and ['%']. *)
Fixpoint addr_family (l : list ascii) : option bool :=
  match l with
  | [] => None
  | "."%char :: _ => Some true
  | ":"%char :: _ => Some false
  | "%"%char :: _ => None
  | _ :: l => addr_family l
  end.

Definition ParseAddr (s : string) : option Addr :=
  match addr_family (chars s) with
  | None => None
  | Some true => Addr4 <$> parseIPv4 (chars s)
  | Some false => parseIPv6 (chars s)
  end.

(** [Addr.String]. *)
Definition dotted (v : Z) : string :=
  pretty (Z.land (Z.shiftr v 24) 255) +:+ "." +:+ pretty (Z.land (Z.shiftr v 16) 255) +:+ "." +:+
  pretty (Z.land (Z.shiftr v 8) 255) +:+ "." +:+ pretty (Z.land v 255).

Definition hex_char (v : Z) : ascii :=
  if v <? 10 then ascii_of_N (Z.to_N (48 + v)) else ascii_of_N (Z.to_N (87 + v)).

Definition hex_group (g : Z) : string :=
  let ds := [Z.land (Z.shiftr g 12) 15; Z.land (Z.shiftr g 8) 15; Z.land (Z.shiftr g 4) 15; Z.land g 15] in
  let fix strip n ds :=
    match n, ds with S n, 0 :: ds => strip n ds | _, _ => ds end in
  string_of_list_ascii (hex_char <$> strip 3%nat ds).

Definition groups_of (v : Z) : list Z :=
  (fun i => Z.land (Z.shiftr v (16 * (7 - Z.of_nat i))) 0xffff) <$> seq 0 8.

Fixpoint zero_run (gs : list Z) : nat :=
  match gs with 0 :: gs => S (zero_run gs) | _ => 0%nat end.

(** The leftmost longest run of at least two zero groups: its start and length. *)
Fixpoint best_run (i : nat) (gs : list Z) (best : nat * nat) : nat * nat :=
  match gs with
  | [] => best
  | _ :: gs' =>
      let n := zero_run gs in
      best_run (S i) gs' (if decide (2 ≤ n ∧ snd best < n)%nat then (i, n) else best)
  end.

Fixpoint colon_join (l : list string) : string :=
  match l with [] => "" | [x] => x | x :: l => x +:+ ":" +:+ colon_join l end.

Definition string6 (v : Z) : string :=
  let gs := groups_of v in
  let '(start, n) := best_run 0 gs (0%nat, 0%nat) in
  if decide (n = 0)%nat then colon_join (hex_group <$> gs)
  else colon_join (hex_group <$> take start gs) +:+ "::" +:+ colon_join (hex_group <$> drop (start + n) gs).

Definition Addr_String (a : Addr) : string :=
  match a with
  | Addr4 v => dotted v
  | Addr6 v z =>
      (if Is4In6 a then "::ffff:" +:+ dotted (Z.land v (2 ^ 32 - 1)) else string6 v)
      +:+ (if decide (z = "") then "" else "%" +:+ z)
  end.

(** [netip.Prefix]. *)
Record Prefix := mkPrefix { p_addr : Addr; p_bits : Z }.

#[export] Instance Prefix_eq_dec : EqDecision Prefix.
Proof. solve_decision. Defined.

Definition ParsePrefix (s : string) : option Prefix :=
  '(a, b) ← cut_last "/"%char (chars s);
  ip ← ParseAddr (string_of_list_ascii a);
  if decide (Zone ip ≠ "") then None
  else bits ← decimal_strict b;
       if bits <=? BitLen ip then Some (mkPrefix ip bits) else None.

(** Keep the top [bits] of a [w]-bit value. *)
Definition mask_top (w bits v : Z) : Z := Z.shiftl (Z.shiftr v (w - bits)) (w - bits).

Definition mask_addr (a : Addr) (bits : Z) : Addr :=
  match a with
  | Addr4 v => Addr4 (mask_top 32 bits v)
  | Addr6 v z => Addr6 (mask_top 128 bits v) z
  end.

Definition Masked (p : Prefix) : Prefix := mkPrefix (mask_addr (p_addr p) (p_bits p)) (p_bits p).

Definition Prefix_String (p : Prefix) : string := Addr_String (p_addr p) +:+ "/" +:+ pretty (p_bits p).

Definition IsSingleIP (p : Prefix) : bool := p_bits p =? BitLen (p_addr p).

(** Two [w]-bit values agree on their top [bits]. *)
Definition same_top (w bits a b : Z) : bool := Z.shiftr a (w - bits) =? Z.shiftr b (w - bits).

(** [Prefix.Contains]: same family, no zone, same network. *)
Definition Contains (p : Prefix) (a : Addr) : bool :=
  bool_decide (Zone a = "") && Bool.eqb (Is4 (p_addr p)) (Is4 a) &&
  same_top (BitLen a) (p_bits p) (bits_of (p_addr p)) (bits_of a).

Definition Overlaps (p o : Prefix) : bool :=
  bool_decide (p = o) ||
  (Bool.eqb (Is4 (p_addr p)) (Is4 (p_addr o)) &&
   let m := Z.min (p_bits p) (p_bits o) in
   same_top (BitLen (p_addr p)) m (bits_of (p_addr p)) (bits_of (p_addr o))).

End netip.

Module net.
Import netip.

(** [net.IP]: the 16-byte form. *)
Definition ParseIP (s : string) : option Z :=
  a ← ParseAddr s; if decide (Zone a ≠ "") then None else Some (As16 a).

Definition To4 (ip : Z) : option Z :=
  if Z.shiftr ip 32 =? 0xffff then Some (Z.land ip (2 ^ 32 - 1)) else None.

(** [net.IPNet]: the masked address at its length and the mask as a number of
    ones out of 32 or 128. *)
Record IPNet := mkIPNet { n_ip : Z; n_width : Z; n_ones : Z }.

#[export] Instance IPNet_eq_dec : EqDecision IPNet.
Proof. solve_decision. Defined.

Definition ParseCIDR (s : string) : option (Z * IPNet) :=
  '(a, m) ← cut "/"%char (chars s);
  ip ← ParseAddr (string_of_list_ascii a);
  if decide (Zone ip ≠ "") then None
  else n ← decimal m;
       if n <=? BitLen ip
       then Some (As16 ip, mkIPNet (bits_of (mask_addr ip n)) (BitLen ip) n)
       else None.

(** [networkNumberAndMask]: a v4-mapped network is an IPv4 network. *)
Definition network4 (n : IPNet) : option (Z * Z) :=
  if n_width n =? 32 then Some (n_ip n, n_ones n)
  else v ← To4 (n_ip n); Some (v, Z.max 0 (n_ones n - 96)).

Definition IPNet_Contains (n : IPNet) (ip : Z) : bool :=
  match network4 n, To4 ip with
  | Some (v, ones), Some x => same_top 32 ones v x
  | None, None => same_top 128 (n_ones n) (n_ip n) ip
  | _, _ => false
  end.

Definition IPNet_String (n : IPNet) : string :=
  match network4 n with
  | Some (v, ones) => dotted v +:+ "/" +:+ pretty ones
  | None => string6 (n_ip n) +:+ "/" +:+ pretty (n_ones n)
  end.

End net.

(** ** The parsers and printers on the spellings the program meets *)

Example parse_v4 : netip.ParseAddr "10.0.0.5" = Some (netip.Addr4 167772165).
Proof. reflexivity. Qed.

Example parse_v4_leading_zero : netip.ParseAddr "10.0.0.05" = None.
Proof. reflexivity. Qed.

Example parse_v6_canonical :
  netip.Addr_String <$> netip.ParseAddr "2001:0DB8:0:0:1:0:0:1" = Some "2001:db8::1:0:0:1".
Proof. vm_compute. reflexivity. Qed.

Example parse_v6_mapped : net.ParseIP "::ffff:192.0.2.1" = net.ParseIP "192.0.2.1".
Proof. vm_compute. reflexivity. Qed.

Example cidr_spellings :
  (net.IPNet_String ∘ snd <$> net.ParseCIDR "2001:db8:0:1::a/64") = Some "2001:db8:0:1::/64" ∧
  (net.IPNet_String ∘ snd <$> net.ParseCIDR "2001:0db8:0:1::/064") = Some "2001:db8:0:1::/64".
Proof. split; vm_compute; reflexivity. Qed.

Example cidr_contains :
  (p ← net.ParseCIDR "2001:db8:0:1::/64"; net.IPNet_Contains (snd p) <$> net.ParseIP "2001:db8:0:1::7")
  = Some true.
Proof. vm_compute. reflexivity. Qed.
