(* ===== verification/Allocator.v ===== *)
(** * The allocators

    [mesh/allocator]: the egress-SNAT port-block allocator ([portblock.go]), the
    lowest-free IP allocator ([ipam.go]) and the deterministic MAC allocator
    ([mac.go]). *)

From S2P Require Import Prelude Net.

Open Scope Z_scope.

(** ** Port blocks *)

Module portblock.

Definition firstUsablePort : Z := 1024.
Definition lastUsablePort : Z := 65535.

Record Block := mkBlock { PublicIP : string; PortMin : Z; PortMax : Z }.

#[export] Instance Block_eq_dec : EqDecision Block.
Proof. solve_decision. Defined.

(** [Allocator]; [used] holds the indices mapped to true. *)
Record Allocator := mkAllocator {
  ips : list string;
  size_ : Z;
  blocksPerIP : Z;
  used : gset Z;
  assigned : gmap string Block
}.

Definition New (ips : list string) (size : Z) : Allocator :=
  mkAllocator ips size
    (if 0 <? size then Z.quot (lastUsablePort - firstUsablePort + 1) size else 0) ∅ ∅.

Definition total (a : Allocator) : Z := i32 (i32 (Z.of_nat (length (ips a))) * blocksPerIP a).

(** The index of the first element equal to [x]. *)
Fixpoint index_of (x : string) (i : Z) (l : list string) : option Z :=
  match l with
  | [] => None
  | y :: l => if decide (y = x) then Some i else index_of x (i + 1) l
  end.

Definition blockToIndex (a : Allocator) (b : Block) : option Z :=
  if (blocksPerIP a =? 0) || (size_ a =? 0) then None
  else
    ipIdx ← i32 <$> index_of (PublicIP b) 0 (ips a);
    let off := i32 (PortMin b - firstUsablePort) in
    if (off <? 0) || negb (Z.rem off (size_ a) =? 0) then None
    else
      let blockInIP := Z.quot off (size_ a) in
      if blocksPerIP a <=? blockInIP then None
      else Some (i32 (i32 (ipIdx * blocksPerIP a) + blockInIP)).

(** [blockAt]; the index into the pool is in range for an index below [total]. *)
Definition blockAt (a : Allocator) (idx : Z) : Block :=
  let portMin := i32 (firstUsablePort + i32 (Z.rem idx (blocksPerIP a) * size_ a)) in
  mkBlock (default "" (ips a !! Z.to_nat (Z.quot idx (blocksPerIP a)))) portMin (i32 (i32 (portMin + size_ a) - 1)).

Definition take_block (a : Allocator) (source : string) (idx : Z) : Allocator :=
  mkAllocator (ips a) (size_ a) (blocksPerIP a) ({[idx]} ∪ used a) (<[source := blockAt a idx]> (assigned a)).

Definition Preassign (source : string) (b : Block) (a : Allocator) : Allocator :=
  match blockToIndex a b with
  | None => a
  | Some idx => if decide (idx ∈ used a) then a else take_block a source idx
  end.

(** [for i := range total]: the first index not used, from [i] on. *)
Fixpoint first_free (n : nat) (i : Z) (u : gset Z) : option Z :=
  match n with
  | O => None
  | S n => if decide (i ∈ u) then first_free n (i + 1) u else Some i
  end.

Definition Assign (source : string) (a : Allocator) : Allocator * option Block :=
  match assigned a !! source with
  | Some b => (a, Some b)
  | None =>
      if total a =? 0 then (a, None)
      else match first_free (Z.to_nat (total a)) 0 (used a) with
           | None => (a, None)
           | Some idx => (take_block a source idx, Some (blockAt a idx))
           end
  end.

Inductive AllocOp := DoPreassign (source : string) (b : Block) | DoAssign (source : string).

Definition alloc_step (op : AllocOp) (a : Allocator) : Allocator :=
  match op with
  | DoPreassign s b => Preassign s b a
  | DoAssign s => (Assign s a).1
  end.

Definition alloc_run (ops : list AllocOp) (a : Allocator) : Allocator := foldl (fun a op => alloc_step op a) a ops.

(** *** The invariant *)

(** A pool the 32-bit arithmetic can index, with no address twice. *)
Record pool_ok (a : Allocator) : Prop := {
  po_size : 0 < size_ a ≤ lastUsablePort - firstUsablePort + 1;
  po_bpi : blocksPerIP a = (lastUsablePort - firstUsablePort + 1) / size_ a;
  po_total : Z.of_nat (length (ips a)) * blocksPerIP a < 2 ^ 31;
  po_nodup : NoDup (ips a)
}.

(** The blocks in use are those of used indices, one index per source. *)
Record alloc_ok (a : Allocator) : Prop := {
  ao_pool : pool_ok a;
  ao_used : ∀ i, i ∈ used a → 0 ≤ i < total a;
  ao_assigned : ∀ s b, assigned a !! s = Some b → ∃ i, i ∈ used a ∧ b = blockAt a i;
  ao_distinct : ∀ s s' b, assigned a !! s = Some b → assigned a !! s' = Some b → s = s'
}.

(** Two blocks that share no (address, port). *)
Definition disjoint_blocks (b b' : Block) : Prop :=
  PublicIP b ≠ PublicIP b' ∨ PortMax b < PortMin b' ∨ PortMax b' < PortMin b.

Section lemmas.
Implicit Types (a : Allocator) (s : string) (i : Z).

Lemma bpi_bounds a : pool_ok a → 0 < blocksPerIP a ∧ blocksPerIP a * size_ a ≤ 64512.
Proof.
  intros [Hs Hb _ _]. change (lastUsablePort - firstUsablePort + 1) with 64512 in *. rewrite Hb. split.
  - apply Z.div_str_pos. lia.
  - pose proof (Z.mul_div_le 64512 (size_ a)). lia.
Qed.

Lemma total_eq a : pool_ok a → total a = Z.of_nat (length (ips a)) * blocksPerIP a.
Proof.
  intros Hp. pose proof (bpi_bounds a Hp) as [Hb _]. destruct Hp as [_ _ Ht _]. unfold total.
  set (n := Z.of_nat (length (ips a))) in *. assert (0 ≤ n) by (unfold n; lia).
  assert (n ≤ n * blocksPerIP a) by nia.
  rewrite (i32_small n) by lia. apply i32_small. lia.
Qed.

(** The block of an index in range, without the wrap-arounds. *)
Lemma blockAt_eq a i :
  pool_ok a → 0 ≤ i < total a →
  ∃ ip, ips a !! Z.to_nat (i / blocksPerIP a) = Some ip ∧
    blockAt a i = mkBlock ip (1024 + i mod blocksPerIP a * size_ a) (1024 + i mod blocksPerIP a * size_ a + size_ a - 1) ∧
    0 ≤ i mod blocksPerIP a < blocksPerIP a ∧ 1024 + i mod blocksPerIP a * size_ a + size_ a - 1 ≤ 65535.
Proof.
  intros Hp Hi. rewrite total_eq in Hi by done. pose proof (bpi_bounds a Hp) as [Hb Hbs]. pose proof (po_size a Hp).
  assert (Hm : 0 ≤ i mod blocksPerIP a < blocksPerIP a) by (apply Z.mod_pos_bound; lia).
  assert (Hd : 0 ≤ i / blocksPerIP a < Z.of_nat (length (ips a)))
    by (split; [apply Z.div_pos; lia|apply Z.div_lt_upper_bound; lia]).
  destruct (lookup_lt_is_Some_2 (ips a) (Z.to_nat (i / blocksPerIP a))) as [ip Hip]; [lia|].
  exists ip. split; [done|]. unfold lastUsablePort, firstUsablePort in *.
  assert (i mod blocksPerIP a * size_ a + size_ a ≤ 64512) by nia.
  split; [|lia]. unfold blockAt, firstUsablePort. rewrite Z.rem_mod_nonneg, Z.quot_div_nonneg, Hip by lia.
  assert (0 ≤ i mod blocksPerIP a * size_ a) by nia.
  cbn. rewrite (i32_small (i mod blocksPerIP a * size_ a)) by lia. rewrite (i32_small (1024 + _)) by lia.
  rewrite (i32_small (1024 + _ + _)) by lia. rewrite i32_small by lia. done.
Qed.

Lemma blockAt_disjoint a i j :
  pool_ok a → 0 ≤ i < total a → 0 ≤ j < total a → i ≠ j → disjoint_blocks (blockAt a i) (blockAt a j).
Proof.
  intros Hp Hi Hj Hne. destruct (blockAt_eq a i Hp Hi) as (ip & Hip & -> & Hmi & _).
  destruct (blockAt_eq a j Hp Hj) as (jp & Hjp & -> & Hmj & _). pose proof (bpi_bounds a Hp) as [Hb _].
  pose proof (po_size a Hp). unfold disjoint_blocks. cbn. destruct (decide (ip = jp)) as [<-|]; [right|by left].
  assert (Hd : i / blocksPerIP a = j / blocksPerIP a).
  { rewrite total_eq in * by done.
    pose proof (NoDup_lookup _ _ _ _ (po_nodup a Hp) Hip Hjp).
    pose proof (Z.div_pos i (blocksPerIP a)). pose proof (Z.div_pos j (blocksPerIP a)). lia. }
  assert (i mod blocksPerIP a ≠ j mod blocksPerIP a).
  { intros Hm. apply Hne. rewrite (Z.div_mod i (blocksPerIP a)), (Z.div_mod j (blocksPerIP a)) by lia. congruence. }
  nia.
Qed.

Lemma index_of_Some x i l j : index_of x i l = Some j → ∃ n, l !! n = Some x ∧ j = i + Z.of_nat n.
Proof.
  revert i. induction l as [|y l IH]; intros i; cbn; [done|]. case_decide as Hy.
  - intros [= <-]. exists O. subst. split; [done|lia].
  - intros (n & Hn & ->)%IH. exists (S n). split; [done|lia].
Qed.

Lemma index_of_lookup x i l n : NoDup l → l !! n = Some x → index_of x i l = Some (i + Z.of_nat n).
Proof.
  revert i n. induction l as [|y l IH]; intros i n Hnd Hn; [done|]. apply NoDup_cons in Hnd as [Hy Hnd]. cbn.
  destruct n as [|n]; cbn in Hn.
  - injection Hn as ->. rewrite decide_True by done. f_equal. lia.
  - rewrite decide_False; [rewrite (IH (i + 1) n) by done; f_equal; lia|].
    intros ->. apply Hy. by eapply list_elem_of_lookup_2.
Qed.

(** The index of a block in the pool: in range, and the block's own address. *)
Lemma blockToIndex_Some a b i :
  pool_ok a → blockToIndex a b = Some i →
  0 ≤ i < total a ∧ ∃ n off, ips a !! n = Some (PublicIP b) ∧ off = i32 (PortMin b - 1024) ∧
    0 ≤ off ∧ off mod size_ a = 0 ∧ i = Z.of_nat n * blocksPerIP a + off / size_ a ∧ off / size_ a < blocksPerIP a.
Proof.
  intros Hp. pose proof (bpi_bounds a Hp) as [Hb _]. pose proof (po_size a Hp) as Hs. unfold blockToIndex.
  rewrite (total_eq a Hp). destruct (_ || _); [done|].
  destruct (index_of (PublicIP b) 0 (ips a)) as [n0|] eqn:Hix; [|done]. apply index_of_Some in Hix as (n & Hn & ->). cbn.
  set (off := i32 (PortMin b - firstUsablePort)). destruct (off <? 0) eqn:Hoff; [done|]. apply Z.ltb_ge in Hoff.
  destruct (Z.rem off (size_ a) =? 0) eqn:Hrem; cbn; [|done]. apply Z.eqb_eq in Hrem.
  destruct (Z.leb_spec (blocksPerIP a) (Z.quot off (size_ a))) as [|Hlt]; [done|]. intros [= <-].
  rewrite Z.rem_mod_nonneg in Hrem by lia. rewrite Z.quot_div_nonneg in * by lia.
  assert (0 ≤ off / size_ a) by (apply Z.div_pos; lia).
  assert (Hnl : (n < length (ips a))%nat) by by eapply lookup_lt_Some.
  pose proof (po_total a Hp) as Ht.
  assert (Z.of_nat n * blocksPerIP a + blocksPerIP a ≤ Z.of_nat (length (ips a)) * blocksPerIP a) by nia.
  assert (0 ≤ Z.of_nat n * blocksPerIP a) by nia.
  assert (Z.of_nat n ≤ Z.of_nat n * blocksPerIP a) by nia.
  rewrite Z.add_0_l, (i32_small (Z.of_nat n)), (i32_small (Z.of_nat n * _)), i32_small by lia.
  split; [lia|]. exists n, off. by split_and!.
Qed.

(** [blockToIndex] inverts [blockAt]. *)
Lemma blockToIndex_blockAt a i : pool_ok a → 0 ≤ i < total a → blockToIndex a (blockAt a i) = Some i.
Proof.
  intros Hp Hi. destruct (blockAt_eq a i Hp Hi) as (ip & Hip & -> & Hm & Hmax).
  pose proof (bpi_bounds a Hp) as [Hb _]. pose proof (po_size a Hp) as Hs. pose proof (po_total a Hp) as Ht.
  rewrite (total_eq a Hp) in Hi. unfold blockToIndex, firstUsablePort in *. cbn [PublicIP PortMin].
  destruct (Z.eqb_spec (blocksPerIP a) 0); [lia|]. destruct (Z.eqb_spec (size_ a) 0); [lia|]. cbn.
  rewrite (index_of_lookup _ _ _ _ (po_nodup a Hp) Hip). cbn.
  assert (0 ≤ i mod blocksPerIP a * size_ a) by nia.
  replace (1024 + i mod blocksPerIP a * size_ a - 1024) with (i mod blocksPerIP a * size_ a) by lia.
  rewrite (i32_small (i mod blocksPerIP a * size_ a)) by lia.
  destruct (Z.ltb_spec (i mod blocksPerIP a * size_ a) 0); [lia|].
  rewrite Z.rem_mod_nonneg, Z.mod_mul by lia. cbn. rewrite Z.quot_div_nonneg, Z.div_mul by lia.
  destruct (Z.leb_spec (blocksPerIP a) (i mod blocksPerIP a)); [lia|].
  assert (0 ≤ i / blocksPerIP a) by (apply Z.div_pos; lia).
  pose proof (Z.div_mod i (blocksPerIP a)) as Hdm.
  assert (i / blocksPerIP a * blocksPerIP a ≤ i) by lia.
  assert (i / blocksPerIP a ≤ i / blocksPerIP a * blocksPerIP a) by nia.
  rewrite Z.add_0_l, Z2Nat.id by lia. rewrite (i32_small (i / blocksPerIP a)), (i32_small (_ * blocksPerIP a)), i32_small by lia.
  f_equal. lia.
Qed.

Lemma first_free_Some n i u j :
  first_free n i u = Some j → i ≤ j < i + Z.of_nat n ∧ (j ∉ u) ∧ ∀ j', i ≤ j' < j → j' ∈ u.
Proof.
  revert i. induction n as [|n IH]; intros i; cbn; [done|]. case_decide as Hi.
  - intros (Hj & Hju & Hlow)%IH. split; [lia|]. split; [done|]. intros j' Hj'.
    destruct (decide (j' = i)) as [->|]; [done|]. apply Hlow. lia.
  - intros [= <-]. split; [lia|]. split; [done|]. lia.
Qed.

Lemma first_free_None n i u : first_free n i u = None → ∀ j, i ≤ j < i + Z.of_nat n → j ∈ u.
Proof.
  revert i. induction n as [|n IH]; intros i; cbn; [lia|]. case_decide as Hi; [|done].
  intros Hn j Hj. destruct (decide (j = i)) as [->|]; [done|]. apply (IH (i + 1)); [done|lia].
Qed.

(** Taking a free index keeps the invariant. *)
Lemma take_block_ok a s i :
  alloc_ok a → 0 ≤ i < total a → i ∉ used a → alloc_ok (take_block a s i).
Proof.
  intros [Hp Hu Has Hd] Hi Hn.
  assert (Hnew : ∀ s' b, assigned a !! s' = Some b → b ≠ blockAt a i).
  { intros s' b Hb ->. apply Has in Hb as (j & Hj & Heq).
    assert (j ≠ i) by (intros ->; done). destruct (blockAt_disjoint a i j Hp) as [?|[?|?]]; auto; rewrite Heq in *; try done.
    - destruct (blockAt_eq a j Hp (Hu j Hj)) as (? & _ & Hbj & _). pose proof (po_size a Hp). rewrite Hbj in *. cbn in *. lia.
    - destruct (blockAt_eq a j Hp (Hu j Hj)) as (? & _ & Hbj & _). pose proof (po_size a Hp). rewrite Hbj in *. cbn in *. lia. }
  split.
  - destruct Hp. by split.
  - intros j. cbn. rewrite elem_of_union, elem_of_singleton. intros [->|]; [done|]. by apply Hu.
  - intros s' b. cbn. rewrite lookup_insert_Some. intros [[<- <-]|[_ Hb]].
    + exists i. split; [set_solver|done].
    + apply Has in Hb as (j & Hj & ->). exists j. split; [set_solver|done].
  - intros s1 s2 b. cbn. rewrite !lookup_insert_Some. intros [[<- <-]|[Hn1 H1]] [[<- Hb]|[Hn2 H2]]; try done.
    + by apply Hnew in H2.
    + subst b. by apply Hnew in H1.
    + by eapply Hd.
Qed.

Lemma Preassign_ok s b a : alloc_ok a → alloc_ok (Preassign s b a).
Proof.
  intros Ha. unfold Preassign. destruct (blockToIndex a b) as [i|] eqn:Hi; [|done]. case_decide; [done|].
  apply take_block_ok; [done| |done]. by eapply blockToIndex_Some; [apply Ha|].
Qed.

Lemma Assign_new s a :
  alloc_ok a → assigned a !! s = None →
  (Assign s a = (a, None) ∧ ∀ i, 0 ≤ i < total a → i ∈ used a) ∨
  ∃ i, 0 ≤ i < total a ∧ (i ∉ used a) ∧ (∀ j, 0 ≤ j < i → j ∈ used a) ∧ Assign s a = (take_block a s i, Some (blockAt a i)).
Proof.
  intros Ha Hs. unfold Assign. rewrite Hs. destruct (Z.eqb_spec (total a) 0) as [Ht|Ht]; [left; split; [done|lia]|].
  destruct (first_free _ _ _) as [i|] eqn:Hf.
  - right. apply first_free_Some in Hf as (Hi & Hn & Hlow). exists i. split_and!; [lia|lia|done|done|done].
  - left. split; [done|]. intros i Hi. apply (first_free_None _ _ _ Hf). lia.
Qed.

Lemma Assign_ok s a : alloc_ok a → alloc_ok (Assign s a).1.
Proof.
  intros Ha. destruct (assigned a !! s) as [b|] eqn:Hs; [unfold Assign; by rewrite Hs|].
  destruct (Assign_new s a Ha Hs) as [[-> _]|(i & Hi & Hn & _ & ->)]; [done|]. by apply take_block_ok.
Qed.

Lemma New_ok l size :
  0 < size ≤ 64512 → Z.of_nat (length l) * (64512 / size) < 2 ^ 31 → NoDup l → alloc_ok (New l size).
Proof.
  intros Hs Ht Hnd. split; [|by intros i ?%elem_of_empty|by intros ??..].
  assert (Hq : 64512 ÷ size = 64512 / size) by (apply Z.quot_div_nonneg; lia).
  assert (Hb : blocksPerIP (New l size) = 64512 / size).
  { cbn. destruct (Z.ltb_spec 0 size); [exact Hq|lia]. }
  split; [done|exact Hb|by rewrite Hb|done].
Qed.

Lemma run_ok ops a : alloc_ok a → alloc_ok (alloc_run ops a).
Proof.
  revert a. induction ops as [|[s b|s] ops IH]; intros a Ha; [done|..]; apply IH; [by apply Preassign_ok|by apply Assign_ok].
Qed.

Lemma step_pool op a : ips (alloc_step op a) = ips a ∧ size_ (alloc_step op a) = size_ a.
Proof.
  destruct op as [s b|s]; cbn.
  - unfold Preassign. destruct (blockToIndex a b); [case_decide|]; done.
  - unfold Assign. destruct (assigned a !! s); [done|]. destruct (total a =? 0); [done|]. by destruct (first_free _ _ _).
Qed.

Lemma run_pool ops a : ips (alloc_run ops a) = ips a ∧ size_ (alloc_run ops a) = size_ a.
Proof.
  revert a. induction ops as [|op ops IH]; intros a; [done|].
  destruct (IH (alloc_step op a)) as [Hi Hs], (step_pool op a) as [Hi' Hs']. split; etrans; [exact Hi|done|exact Hs|done].
Qed.

End lemmas.

(** *** Properties *)

(** C39. No two sources ever share a port, as long as no address is twice in the
    pool.  After any sequence of seeds and assignments over a pool without
    duplicates, with blocks of 1 to 64512 ports and fewer than 2^31 of them in all,
    the blocks of two sources are disjoint; every block starts at 1024 or above,
    ends at 65535 or below, has exactly the configured size, and is on an address
    of the pool. *)
Theorem portblock_disjoint (l : list string) (size : Z) (ops : list AllocOp) (s s' : string) (b b' : Block) :
  0 < size ≤ 64512 → Z.of_nat (length l) * (64512 / size) < 2 ^ 31 → NoDup l →
  let a := alloc_run ops (New l size) in
  assigned a !! s = Some b → assigned a !! s' = Some b' → s ≠ s' →
  disjoint_blocks b b' ∧ PublicIP b ∈ l ∧ 1024 ≤ PortMin b ∧ PortMax b ≤ 65535 ∧ PortMax b - PortMin b + 1 = size.
Proof.
  intros Hs Ht Hnd. cbv zeta. pose proof (run_ok ops _ (New_ok l size Hs Ht Hnd)) as Ha.
  destruct (run_pool ops (New l size)) as [Hips Hsz]. set (a := alloc_run ops (New l size)) in *.
  intros Hb Hb' Hne. destruct Ha as [Hp Hu Has Hd].
  destruct (Has _ _ Hb) as (i & Hi & ->), (Has _ _ Hb') as (j & Hj & ->). split.
  - apply blockAt_disjoint; auto. intros ->. apply Hne. by eapply Hd.
  - destruct (blockAt_eq a i Hp (Hu i Hi)) as (ip & Hip & -> & Hm & Hmax). cbn.
    rewrite Hips in Hip. rewrite Hsz in *. cbn in Hip, Hsz.
    split; [by eapply list_elem_of_lookup_2|]. cbn [size_ New] in *. nia.
Qed.

Lemma portblock_disjoint_witness :
  let a := alloc_run [DoPreassign "10.0.0.7" (mkBlock "203.0.113.2" 1024 33279); DoAssign "10.0.0.5"; DoAssign "10.0.0.6"]
             (New ["203.0.113.1"; "203.0.113.2"] 32256) in
  disjoint_blocks (mkBlock "203.0.113.2" 1024 33279) (mkBlock "203.0.113.1" 33280 65535) ∧
  assigned a !! "10.0.0.7" = Some (mkBlock "203.0.113.2" 1024 33279) ∧
  assigned a !! "10.0.0.6" = Some (mkBlock "203.0.113.1" 33280 65535).
Proof.
  split; [|split; vm_compute; reflexivity].
  apply (portblock_disjoint ["203.0.113.1"; "203.0.113.2"] 32256
    [DoPreassign "10.0.0.7" (mkBlock "203.0.113.2" 1024 33279); DoAssign "10.0.0.5"; DoAssign "10.0.0.6"] "10.0.0.7" "10.0.0.6").
  - lia.
  - vm_compute. reflexivity.
  - apply (bool_decide_unpack _). vm_compute. exact I.
  - vm_compute. reflexivity.
  - vm_compute. reflexivity.
  - discriminate.
Defined.

(** An address listed twice has each of its blocks twice: two sources get the same
    one. *)
Theorem portblock_duplicates_collide :
  let a := alloc_run [DoAssign "10.0.0.5"; DoAssign "10.0.0.6"] (New ["203.0.113.1"; "203.0.113.1"] 64512) in
  assigned a !! "10.0.0.5" = Some (mkBlock "203.0.113.1" 1024 65535) ∧
  assigned a !! "10.0.0.6" = Some (mkBlock "203.0.113.1" 1024 65535).
Proof. vm_compute. split; reflexivity. Qed.

(** An existing source always keeps its block.  Once a source has a block, no
    sequence of assignments and seeds of other sources, in whatever order they
    sort, changes it, and [Assign] returns it. *)
Theorem portblock_stable (a : Allocator) (s : string) (b : Block) (ops : list AllocOp) :
  assigned a !! s = Some b →
  Forall (fun op => match op with DoPreassign s' _ => s' ≠ s | DoAssign _ => True end) ops →
  Assign s (alloc_run ops a) = (alloc_run ops a, Some b).
Proof.
  revert a. induction ops as [|op ops IH]; intros a Hs Hops.
  - change (alloc_run [] a) with a. unfold Assign. by rewrite Hs.
  - apply Forall_cons in Hops as [Hop Hops]. apply (IH (alloc_step op a)); [|done]. destruct op as [s' b'|s']; cbn.
    + unfold Preassign. destruct (blockToIndex a b'); [|done]. case_decide; [done|]. cbn. by rewrite lookup_insert_ne.
    + unfold Assign. destruct (assigned a !! s') eqn:Hs'; [done|]. destruct (total a =? 0); [done|].
      destruct (first_free _ _ _); [|done]. cbn. rewrite lookup_insert_ne; [done|]. congruence.
Qed.

Lemma portblock_stable_witness :
  let a := alloc_run [DoAssign "10.0.0.9"] (New ["203.0.113.1"] 1024) in
  let a' := alloc_run [DoAssign "10.0.0.1"; DoPreassign "10.0.0.2" (mkBlock "203.0.113.1" 4096 5119)] a in
  Assign "10.0.0.9" a' = (a', Some (mkBlock "203.0.113.1" 1024 2047)).
Proof.
  intros a a'. apply (portblock_stable a); [vm_compute; reflexivity|repeat constructor; discriminate].
Defined.

(** A new source gets the lowest free block, and nothing only when the pool is
    exhausted: [Assign] of an unknown source either returns the block of the least
    unused index, which it then holds, or, with every one of the pool's blocks in
    use, fails and changes nothing. *)
Theorem Assign_lowest_or_exhausted (a : Allocator) (s : string) :
  alloc_ok a → assigned a !! s = None →
  (Assign s a = (a, None) ∧ ∀ i, 0 ≤ i < total a → i ∈ used a) ∨
  ∃ i, 0 ≤ i < total a ∧ (i ∉ used a) ∧ (∀ j, 0 ≤ j < i → j ∈ used a) ∧
    (Assign s a).2 = Some (blockAt a i) ∧ assigned (Assign s a).1 !! s = Some (blockAt a i) ∧
    used (Assign s a).1 = {[i]} ∪ used a.
Proof.
  intros Ha Hs. destruct (Assign_new s a Ha Hs) as [?|(i & Hi & Hn & Hl & ->)]; [by left|right].
  exists i. split_and!; try done; try lia. cbn. apply lookup_insert_eq.
Qed.

Lemma Assign_lowest_or_exhausted_witness :
  let a := alloc_run [DoAssign "x"; DoAssign "y"] (New ["203.0.113.1"] 32256) in
  ((Assign "z" a = (a, None) ∧ ∀ i, 0 ≤ i < total a → i ∈ used a) ∨
   ∃ i, 0 ≤ i < total a ∧ (i ∉ used a) ∧ (∀ j, 0 ≤ j < i → j ∈ used a) ∧
    (Assign "z" a).2 = Some (blockAt a i) ∧ assigned (Assign "z" a).1 !! "z" = Some (blockAt a i) ∧
    used (Assign "z" a).1 = {[i]} ∪ used a) ∧ (Assign "z" a).2 = None.
Proof.
  intros a. split; [|vm_compute; reflexivity].
  apply (Assign_lowest_or_exhausted a "z"); [|vm_compute; reflexivity].
  apply run_ok, New_ok; [lia|vm_compute; reflexivity|]. apply (bool_decide_unpack _). vm_compute. exact I.
Defined.

(** Seeding from the persisted status restores the allocator: a block the
    allocator gave out, seeded into a fresh allocator of the same pool where its
    slot is free, is the block [Assign] returns. *)
Theorem Preassign_roundtrip (a : Allocator) (s : string) (i : Z) :
  alloc_ok a → 0 ≤ i < total a → i ∉ used a →
  (Assign s (Preassign s (blockAt a i) a)).2 = Some (blockAt a i).
Proof.
  intros Ha Hi Hn. unfold Preassign. rewrite blockToIndex_blockAt by (done || apply Ha). rewrite decide_False by done.
  unfold Assign. cbn. by rewrite lookup_insert_eq.
Qed.

Lemma Preassign_roundtrip_witness :
  let a := New ["203.0.113.1"; "203.0.113.2"] 1024 in
  (Assign "x" (Preassign "x" (blockAt a 64) a)).2 = Some (blockAt a 64) ∧ blockAt a 64 = mkBlock "203.0.113.2" 2048 3071.
Proof.
  intros a. split; [|vm_compute; reflexivity]. apply (Preassign_roundtrip a "x" 64).
  - apply New_ok; [lia|vm_compute; reflexivity|]. apply (bool_decide_unpack _). vm_compute. exact I.
  - vm_compute. split; [discriminate|reflexivity].
  - apply (bool_decide_unpack _). vm_compute. exact I.
Defined.

End portblock.

(** ** Addresses *)

Module ipam.
Import netip.

(** [lastAddr]: the highest address of an IPv4 prefix, on 32-bit words. *)
Definition lastAddr (p : Prefix) : Addr :=
  let v := bits_of (p_addr (Masked p)) in
  let host := 32 - p_bits p in
  Addr4 (if 32 <=? host then u32 (-1)
         else if 0 <? host then Z.lor v (u32 (u32 (Z.shiftl 1 host) - 1))
         else v).

Definition ReservedFor (prefix : Prefix) : list Addr :=
  let p := Masked prefix in
  let network := p_addr p in
  if Is4 network then [network; lastAddr p] else [network].

(** The walk of [LowestFree]; [None] is the zero address [Next] returns past the
    last one, which no prefix contains. *)
Fixpoint lowest_loop (fuel : nat) (p : Prefix) (skip : gset Addr) (addr : option Addr) : option Addr :=
  match fuel, addr with
  | S fuel, Some a =>
      if Contains p a then
        if decide (a ∈ skip) then lowest_loop fuel p skip (Next a) else Some a
      else None
  | _, _ => None
  end.

(** Every turn but the last meets an address of [skip], so one more turn than
    [skip] has addresses is enough ([LowestFree_exact]). *)
Definition LowestFree (prefix : Prefix) (used : gset Addr) (reserved : list Addr) : option Addr :=
  let skip := used ∪ list_to_set reserved in
  let p := Masked prefix in
  lowest_loop (S (size skip)) p skip (Some (p_addr p)).

Definition InPrefix (prefix : Prefix) (addr : Addr) : bool :=
  if negb (Bool.eqb (Is4 (p_addr prefix)) (Is4 addr)) then false else Contains prefix addr.

(** *** Well-formed values *)

Definition addr_ok (a : Addr) : Prop := 0 ≤ bits_of a < 2 ^ BitLen a.

(** What [netip.ParsePrefix] returns: no zone, a length the family allows. *)
Record prefix_ok (p : Prefix) : Prop := {
  pf_addr : addr_ok (p_addr p);
  pf_zone : Zone (p_addr p) = "";
  pf_bits : 0 ≤ p_bits p ≤ BitLen (p_addr p)
}.

(** The address of a family with a given value. *)
Definition at_ (is4 : bool) (v : Z) : Addr := if is4 then Addr4 v else Addr6 v "".
Definition width (is4 : bool) : Z := if is4 then 32 else 128.

(** The first value of a prefix and the number of its addresses. *)
Definition base (p : Prefix) : Z := bits_of (p_addr (Masked p)).
Definition count (p : Prefix) : Z := 2 ^ (BitLen (p_addr p) - p_bits p).

Section lemmas.
Context (p : Prefix) (Hp : prefix_ok p).
Let f := Is4 (p_addr p).

Lemma BitLen_width a : BitLen a = width (Is4 a).
Proof. by destruct a. Qed.

Lemma at_eta a : Zone a = "" → at_ (Is4 a) (bits_of a) = a.
Proof. destruct a; cbn; [done|]. by intros ->. Qed.

Lemma base_eq : base p = bits_of (p_addr p) / count p * count p.
Proof.
  destruct Hp as [_ _ Hb]. unfold base, Masked, count, mask_addr, mask_top.
  destruct (p_addr p); cbn in *; rewrite Z.shiftl_mul_pow2, Z.shiftr_div_pow2 by lia; done.
Qed.

Lemma count_pos : 0 < count p.
Proof. destruct Hp as [_ _ Hb]. apply Z.pow_pos_nonneg; lia. Qed.

(** A prefix ends within its family. *)
Lemma base_bounds : 0 ≤ base p ∧ base p + count p ≤ 2 ^ width f.
Proof.
  rewrite base_eq. pose proof count_pos as Hc. destruct Hp as [[Hlo Hhi] _ Hb]. rewrite BitLen_width in *. fold f in Hhi, Hb.
  assert (Hw : 2 ^ width f = 2 ^ p_bits p * count p).
  { unfold count. rewrite BitLen_width. fold f. rewrite <-Z.pow_add_r by lia. f_equal. lia. }
  split; [apply Z.mul_nonneg_nonneg; [apply Z.div_pos; lia|lia]|].
  assert (bits_of (p_addr p) / count p < 2 ^ p_bits p) by (apply Z.div_lt_upper_bound; lia). nia.
Qed.

Lemma Contains_masked a : Contains (Masked p) a = Contains p a.
Proof.
  destruct Hp as [_ _ Hb]. unfold Contains, Masked, same_top. cbn [p_addr p_bits].
  assert (Is4 (mask_addr (p_addr p) (p_bits p)) = f) as -> by (unfold f; by destruct (p_addr p)). fold f.
  destruct (bool_decide (Zone a = "")); cbn; [|done]. destruct (Bool.eqb f (Is4 a)) eqn:Hf; cbn; [|done].
  apply eqb_prop in Hf. rewrite BitLen_width in *. rewrite <-Hf. fold f in Hb. f_equal.
  unfold mask_addr, mask_top. destruct (p_addr p); cbn in *; rewrite Z.shiftr_shiftl_l by lia; f_equal; apply Z.shiftl_0_r || idtac.
  all: rewrite Z.sub_diag; apply Z.shiftl_0_r.
Qed.

(** The addresses of a prefix are a run of values. *)
Lemma Contains_at v : 0 ≤ v → Contains p (at_ f v) = true ↔ base p ≤ v < base p + count p.
Proof.
  intros Hv. destruct Hp as [Ha _ Hb]. rewrite BitLen_width in Hb. fold f in Hb.
  unfold Contains, same_top. rewrite bool_decide_eq_true_2 by (unfold at_; by destruct f).
  assert (Is4 (at_ f v) = f) as Hf by (unfold at_; by destruct f). rewrite BitLen_width, Hf. fold f. rewrite eqb_reflx. cbn.
  assert (bits_of (at_ f v) = v) as -> by (unfold at_; by destruct f).
  rewrite Z.eqb_eq, !Z.shiftr_div_pow2 by lia.
  assert (Hc : count p = 2 ^ (width f - p_bits p)) by (unfold count; by rewrite BitLen_width).
  rewrite base_eq, <-Hc. pose proof count_pos as Hcp.
  pose proof (Z.div_mod v (count p)). pose proof (Z.mod_pos_bound v (count p)). split.
  - intros ->. lia.
  - intros Hr. apply Z.div_unique with (r := v - bits_of (p_addr p) / count p * count p); lia.
Qed.

Lemma Contains_inv a : addr_ok a → Contains p a = true → ∃ v, a = at_ f v ∧ base p ≤ v < base p + count p.
Proof.
  intros [Ha _] Hc. exists (bits_of a).
  assert (a = at_ f (bits_of a)) as Heq.
  { unfold Contains in Hc. apply andb_true_iff in Hc as [[Hz Hf]%andb_true_iff _].
    apply bool_decide_eq_true in Hz. apply eqb_prop in Hf. unfold f. rewrite Hf. by rewrite at_eta. }
  split; [done|]. apply Contains_at; [done|]. by rewrite <-Heq.
Qed.

Lemma at_inj v w : at_ f v = at_ f w → v = w.
Proof. unfold at_. destruct f; congruence. Qed.

Lemma Next_at v : 0 ≤ v < 2 ^ width f → Next (at_ f v) = if v + 1 <? 2 ^ width f then Some (at_ f (v + 1)) else None.
Proof. unfold at_, width. by destruct f. Qed.

(** The first [n] addresses of the prefix are at most as many as the set that
    holds them. *)
Lemma run_size (skip : gset Addr) (n : nat) :
  (∀ j, 0 ≤ j < Z.of_nat n → at_ f (base p + j) ∈ skip) → (n ≤ size skip)%nat.
Proof.
  intros Hin. set (l := (fun j => at_ f (base p + j)) <$> seqZ 0 (Z.of_nat n)).
  assert (Hnd : NoDup l).
  { apply NoDup_fmap; [|apply NoDup_seqZ]. intros i j Hij%at_inj. lia. }
  assert (Hl : length l = n) by (unfold l; rewrite length_fmap, length_seqZ; lia).
  rewrite <-Hl, <-(size_list_to_set (C := gset Addr) l) by done. apply subseteq_size.
  intros a. rewrite elem_of_list_to_set. unfold l. intros (j & -> & Hj%elem_of_seqZ)%list_elem_of_fmap. apply Hin. lia.
Qed.

(** The walk from the [n]th address, the ones before it all taken. *)
Lemma lowest_loop_spec (skip : gset Addr) (fuel n : nat) :
  (size skip < fuel + n)%nat → Z.of_nat n ≤ count p →
  (∀ j, 0 ≤ j < Z.of_nat n → at_ f (base p + j) ∈ skip) →
  match lowest_loop fuel (Masked p) skip (if base p + Z.of_nat n <? 2 ^ width f then Some (at_ f (base p + Z.of_nat n)) else None) with
  | Some a => ∃ m, 0 ≤ m < count p ∧ a = at_ f (base p + m) ∧ (a ∉ skip) ∧ ∀ j, 0 ≤ j < m → at_ f (base p + j) ∈ skip
  | None => ∀ j, 0 ≤ j < count p → at_ f (base p + j) ∈ skip
  end.
Proof.
  pose proof base_bounds as [Hb0 Hb1]. revert n. induction fuel as [|fuel IH]; intros n Hsz Hn Hin.
  { pose proof (run_size skip n Hin). lia. }
  destruct (Z.ltb_spec (base p + Z.of_nat n) (2 ^ width f)) as [Hlt|Hge]; cbn [lowest_loop].
  - rewrite Contains_masked. destruct (Contains p _) eqn:Hc.
    + apply Contains_at in Hc; [|lia]. case_decide as Hs.
      * rewrite Next_at by lia. specialize (IH (S n)).
        replace (base p + Z.of_nat (S n)) with (base p + Z.of_nat n + 1) in IH by lia. apply IH; [lia|lia|].
        intros j Hj. destruct (decide (j = Z.of_nat n)) as [->|]; [done|]. apply Hin. lia.
      * exists (Z.of_nat n). split_and!; try done; lia.
    + intros j Hj. apply Hin. destruct (Z.lt_ge_cases (Z.of_nat n) (count p)) as [Hlt'|]; [|lia].
      assert (Contains p (at_ f (base p + Z.of_nat n)) = true); [apply Contains_at; lia|congruence].
  - intros j Hj. apply Hin. lia.
Qed.

End lemmas.

Lemma Masked_ok p : prefix_ok p → prefix_ok (Masked p).
Proof.
  intros Hp. pose proof (base_bounds p Hp) as [Hb0 Hb1]. pose proof (count_pos p Hp). cbv zeta in Hb1.
  destruct Hp as [_ Hz Hb].
  assert (H4 : Is4 (p_addr (Masked p)) = Is4 (p_addr p)) by (unfold Masked; by destruct (p_addr p)).
  unfold base in *. split.
  - unfold addr_ok. rewrite BitLen_width, H4. lia.
  - unfold Masked. cbn. by destruct (p_addr p).
  - rewrite BitLen_width, H4, <-BitLen_width. done.
Qed.

(** Masking twice is masking once. *)
Lemma Masked_same p :
  prefix_ok p →
  Is4 (p_addr (Masked p)) = Is4 (p_addr p) ∧ base (Masked p) = base p ∧ count (Masked p) = count p.
Proof.
  intros Hp. assert (H4 : Is4 (p_addr (Masked p)) = Is4 (p_addr p)) by (unfold Masked; by destruct (p_addr p)).
  assert (Hc : count (Masked p) = count p) by (unfold count; rewrite !BitLen_width, H4; done).
  split_and!; [done| |done]. rewrite (base_eq _ (Masked_ok p Hp)), Hc. fold (base p). rewrite (base_eq p Hp).
  pose proof (count_pos p Hp). by rewrite Z.div_mul by lia.
Qed.

(** The broadcast address is the last of the prefix. *)
Lemma lastAddr_eq p :
  prefix_ok p → Is4 (p_addr p) = true → lastAddr p = Addr4 (base p + count p - 1).
Proof.
  intros Hp H4. pose proof (base_bounds p Hp) as Hbb. pose proof (base_eq p Hp) as Hbe. pose proof (count_pos p Hp) as Hcp.
  destruct Hp as [Ha _ Hb]. cbv zeta in Hbb. rewrite H4 in Hbb. cbn in Hbb.
  assert (Hc : count p = 2 ^ (32 - p_bits p)) by (unfold count; rewrite BitLen_width, H4; done).
  rewrite BitLen_width, H4 in Hb. cbn in Hb. unfold lastAddr. fold (base p). f_equal.
  destruct (Z.leb_spec 32 (32 - p_bits p)) as [Hh|Hh].
  - assert (p_bits p = 0) as H0 by lia. rewrite H0 in Hc. change (2 ^ (32 - 0)) with 4294967296 in Hc.
    change (u32 (-1)) with 4294967295. lia.
  - destruct (Z.ltb_spec 0 (32 - p_bits p)) as [Hpos|Hz].
    + set (h := 32 - p_bits p) in *. assert (1 < 2 ^ h < 2 ^ 32) as Hpow.
      { split; [change 1 with (2 ^ 0); apply Z.pow_lt_mono_r; lia|apply Z.pow_lt_mono_r; lia]. }
      rewrite Z.shiftl_1_l. rewrite (u32_small (2 ^ h)) by lia. rewrite u32_small by lia.
      rewrite Hbe, Hc, lor_low by lia. lia.
    + assert (32 - p_bits p = 0) as H0 by lia. rewrite H0 in Hc. change (2 ^ 0) with 1 in Hc. lia.
Qed.

(** *** Properties *)

(** [LowestFree] returns the lowest free address, and fails only on a full prefix.
    The bounded walk is enough: a result is an address of the prefix, neither used
    nor reserved, with every lower address of the prefix taken; no result means
    that every address of the prefix is used or reserved. *)
Theorem LowestFree_exact (p : Prefix) (used : gset Addr) (reserved : list Addr) :
  prefix_ok p →
  match LowestFree p used reserved with
  | Some a => Contains p a = true ∧ (a ∉ used) ∧ (a ∉ reserved) ∧
      ∀ a', addr_ok a' → Contains p a' = true → bits_of a' < bits_of a → a' ∈ used ∨ a' ∈ reserved
  | None => ∀ a, addr_ok a → Contains p a = true → a ∈ used ∨ a ∈ reserved
  end.
Proof.
  intros Hp. unfold LowestFree. set (skip := used ∪ list_to_set reserved).
  assert (Hskip : ∀ a, a ∈ skip ↔ a ∈ used ∨ a ∈ reserved)
    by (intros a; unfold skip; by rewrite elem_of_union, elem_of_list_to_set).
  pose proof (lowest_loop_spec p Hp skip (S (size skip)) 0) as Hl. cbv zeta in Hl.
  pose proof (base_bounds p Hp) as [Hb0 Hb1]. cbv zeta in Hb1. pose proof (count_pos p Hp) as Hc.
  rewrite Z.add_0_r in Hl. destruct (Z.ltb_spec (base p) (2 ^ width (Is4 (p_addr p)))); [|lia].
  assert (p_addr (Masked p) = at_ (Is4 (p_addr p)) (base p)) as Hbase.
  { unfold base, Masked. cbn. destruct Hp as [_ Hz _]. destruct (p_addr p); cbn in *; [done|]. by subst. }
  rewrite <-Hbase in Hl. specialize (Hl ltac:(lia) ltac:(lia) ltac:(lia)).
  destruct (lowest_loop _ _ _ _) as [a|].
  - destruct Hl as (m & Hm & -> & Hn & Hlow). rewrite Hskip in Hn. split_and!; try tauto.
    + apply (Contains_at p Hp); lia.
    + intros a' Ha' Hca' Hlt. apply (Contains_inv p Hp) in Hca' as (v & -> & Hv); [|done].
      rewrite <-Hskip. replace v with (base p + (v - base p)) by lia. apply Hlow.
      assert (Hbits : ∀ w, bits_of (at_ (Is4 (p_addr p)) w) = w) by (intros w; by destruct (Is4 (p_addr p))).
      rewrite !Hbits in Hlt. lia.
  - intros a Ha Hca. apply (Contains_inv p Hp) in Hca as (v & -> & Hv); [|done].
    rewrite <-Hskip. replace v with (base p + (v - base p)) by lia. apply Hl. lia.
Qed.

Lemma LowestFree_exact_witness :
  let p := mkPrefix (Addr4 0x0a000000) 30 in
  let used := {[Addr4 0x0a000001]} in
  match LowestFree p used (ReservedFor p) with
  | Some a => Contains p a = true ∧ (a ∉ used) ∧ (a ∉ ReservedFor p) ∧
      ∀ a', addr_ok a' → Contains p a' = true → bits_of a' < bits_of a → a' ∈ used ∨ a' ∈ ReservedFor p
  | None => ∀ a, addr_ok a → Contains p a = true → a ∈ used ∨ a ∈ ReservedFor p
  end ∧ LowestFree p used (ReservedFor p) = Some (Addr4 0x0a000002).
Proof.
  intros p used. split; [|vm_compute; reflexivity].
  apply (LowestFree_exact p used (ReservedFor p)). split; [split; vm_compute; [discriminate|reflexivity]|reflexivity|split; vm_compute; discriminate].
Defined.

(** The reserved addresses of an IPv4 prefix are its first and its last, and of an
    IPv6 prefix its first: an IPv4 allocation with them never hands out the network
    or the broadcast address. *)
Theorem ReservedFor_ends (p : Prefix) :
  prefix_ok p →
  if Is4 (p_addr p)
  then ReservedFor p = [Addr4 (base p); Addr4 (base p + count p - 1)] ∧
       ∀ a, addr_ok a → Contains p a = true → base p ≤ bits_of a ≤ base p + count p - 1
  else ReservedFor p = [Addr6 (base p) ""].
Proof.
  intros Hp. unfold ReservedFor. pose proof (Masked_ok p Hp) as Hm. destruct (Masked_same p Hp) as (H4' & Hbm & Hcm).
  rewrite H4'. destruct (Is4 (p_addr p)) eqn:H4.
  - rewrite (lastAddr_eq _ Hm) by congruence. rewrite Hbm, Hcm. split.
    + f_equal. unfold base, Masked in *. by destruct (p_addr p).
    + intros a Ha Hc. apply (Contains_inv p Hp) in Hc as (v & -> & Hv); [|done]. rewrite H4. cbn. lia.
  - destruct Hp as [_ Hz _]. unfold base, Masked. destruct (p_addr p); cbn in *; [done|]. by subst.
Qed.

Lemma ReservedFor_ends_witness :
  ReservedFor (mkPrefix (Addr4 0x0a000005) 24) = [Addr4 (base (mkPrefix (Addr4 0x0a000005) 24)); Addr4 0x0a0000ff].
Proof.
  apply (ReservedFor_ends (mkPrefix (Addr4 0x0a000005) 24)).
  split; [split; vm_compute; [discriminate|reflexivity]|reflexivity|split; vm_compute; discriminate].
Defined.

End ipam.

(** ** MAC addresses *)

Module mac.

Definition laaUnicast : Z := 0x02.

(** FNV-1a on 64 bits ([hash/fnv]). *)
Definition fnv_offset : Z := 14695981039346656037.
Definition fnv_prime : Z := 1099511628211.
Definition fnv1a (h : Z) (bytes : list Z) : Z := foldl (fun h b => u64 (Z.lxor h b * fnv_prime)) h bytes.

Definition bytes_of (s : string) : list Z := (fun c => Z.of_N (N_of_ascii c)) <$> list_ascii_of_string s.

(** [byte(v >> n)] *)
Definition byte_at (v n : Z) : Z := Z.land (Z.shiftr v n) 0xff.

(** [binary.BigEndian.PutUint64] *)
Definition be64 (v : Z) : list Z := byte_at v <$> [56; 48; 40; 32; 24; 16; 8; 0].

Definition DeriveMAC (seed : string) (attempt : Z) : list Z :=
  let h := fnv1a fnv_offset (bytes_of seed) in
  let tail := 0 :: be64 (u64 attempt) in
  let sum := fnv1a h tail in
  [laaUnicast; byte_at sum 32; byte_at sum 24; byte_at sum 16; byte_at sum 8; byte_at sum 0].

(** [net.HardwareAddr.String]: two lowercase hex digits a byte, colons between. *)
Definition hex_byte (b : Z) : string :=
  String (netip.hex_char (Z.shiftr b 4)) (String (netip.hex_char (Z.land b 0xf)) "").

Fixpoint mac_string (m : list Z) : string :=
  match m with
  | [] => ""
  | [b] => hex_byte b
  | b :: m => hex_byte b +:+ ":" +:+ mac_string m
  end.

Definition maxMACAttempts : Z := Z.shiftl 1 12.

Fixpoint mac_loop (n : nat) (attempt : Z) (seed : string) (used : gset string) : option string :=
  match n with
  | O => None
  | S n =>
      let m := mac_string (DeriveMAC seed attempt) in
      if decide (m ∈ used) then mac_loop n (attempt + 1) seed used else Some m
  end.

Definition LowestFreeMAC (seed : string) (used : gset string) : option string := mac_loop (Z.to_nat maxMACAttempts) 0 seed used.

Lemma byte_at_range v n : 0 ≤ byte_at v n < 256.
Proof. unfold byte_at. change 0xff with (Z.ones 8). rewrite Z.land_ones by lia. apply Z.mod_pos_bound. lia. Qed.

Lemma mac_loop_spec n i seed used :
  match mac_loop n i seed used with
  | Some m => ∃ j, i ≤ j < i + Z.of_nat n ∧ m = mac_string (DeriveMAC seed j) ∧ (m ∉ used) ∧
      ∀ j', i ≤ j' < j → mac_string (DeriveMAC seed j') ∈ used
  | None => ∀ j, i ≤ j < i + Z.of_nat n → mac_string (DeriveMAC seed j) ∈ used
  end.
Proof.
  revert i. induction n as [|n IH]; intros i; cbn [mac_loop]; [lia|]. cbv zeta. case_decide as Hm.
  - specialize (IH (i + 1)). destruct (mac_loop n (i + 1) seed used) as [m|].
    + destruct IH as (j & Hj & -> & Hn & Hlow). exists j.
      split; [lia|]. split; [reflexivity|]. split; [exact Hn|]. intros j' Hj'.
      destruct (decide (j' = i)) as [->|]; [exact Hm|]. apply Hlow. lia.
    + intros j Hj. destruct (decide (j = i)) as [->|]; [exact Hm|]. apply IH. lia.
  - exists i. split; [lia|]. split; [reflexivity|]. split; [exact Hm|]. lia.
Qed.

(** *** Properties *)

(** [LowestFreeMAC] is deterministic and collision-free.  A result is the address
    derived at the least attempt, of at most 4096, that is not in use; it is six
    bytes, the first 0x02, so a locally administered unicast address.  No result
    means that all 4096 derived addresses are in use. *)
Theorem LowestFreeMAC_least (seed : string) (used : gset string) :
  match LowestFreeMAC seed used with
  | Some m => ∃ j, 0 ≤ j < 4096 ∧ m = mac_string (DeriveMAC seed j) ∧ (m ∉ used) ∧
      (∀ j', 0 ≤ j' < j → mac_string (DeriveMAC seed j') ∈ used) ∧
      ∃ rest, DeriveMAC seed j = 0x02 :: rest ∧ length rest = 5%nat ∧ Forall (fun b => 0 ≤ b < 256) rest
  | None => ∀ j, 0 ≤ j < 4096 → mac_string (DeriveMAC seed j) ∈ used
  end.
Proof.
  unfold LowestFreeMAC. pose proof (mac_loop_spec (Z.to_nat maxMACAttempts) 0 seed used) as Hl.
  rewrite Z2Nat.id in Hl by done. change (0 + maxMACAttempts) with 4096 in Hl.
  destruct (mac_loop (Z.to_nat maxMACAttempts) 0 seed used) as [m|]; [|exact Hl].
  destruct Hl as (j & Hj & -> & Hn & Hlow). exists j.
  split; [lia|]. split; [reflexivity|]. split; [exact Hn|]. split; [exact Hlow|].
  eexists. split; [reflexivity|]. split; [done|]. repeat constructor; apply byte_at_range.
Qed.

Example DeriveMAC_example : mac_string (DeriveMAC "vm-a/eth0" 0) ≠ mac_string (DeriveMAC "vm-a/eth0" 1).
Proof. vm_compute. discriminate. Qed.

End mac.
