(* ===== verification/Wire.v ===== *)
(** * The route-bus messages

    The records of [routebus.v1] (api/proto/routebus/v1/routebus.proto) that the
    agents and the reflector exchange, and the two records the Go packages share
    ([mesh/routebus]).  A [uint32] field is a [Z]. *)

From S2P Require Import Prelude.

Open Scope Z_scope.

Inductive RouteOp :=
  | ROUTE_OP_UNSPECIFIED
  | ROUTE_OP_ADD
  | ROUTE_OP_WITHDRAW.

Inductive PublicKind :=
  | PUBLIC_KIND_UNSPECIFIED
  | PUBLIC_KIND_EDGE_UNDERLAY
  | PUBLIC_KIND_NAT_IP
  | PUBLIC_KIND_LB_IP
  | PUBLIC_KIND_FLOATING_IP.

Inductive GlobalFeed :=
  | GLOBAL_FEED_ALL
  | GLOBAL_FEED_NONE.

#[export] Instance RouteOp_eq_dec : EqDecision RouteOp.
Proof. solve_decision. Defined.
#[export] Instance PublicKind_eq_dec : EqDecision PublicKind.
Proof. solve_decision. Defined.
#[export] Instance GlobalFeed_eq_dec : EqDecision GlobalFeed.
Proof. solve_decision. Defined.

#[export] Instance PublicKind_countable : Countable PublicKind.
Proof.
  refine (inj_countable'
    (fun k => match k with
       PUBLIC_KIND_UNSPECIFIED => 0%nat | PUBLIC_KIND_EDGE_UNDERLAY => 1%nat
     | PUBLIC_KIND_NAT_IP => 2%nat | PUBLIC_KIND_LB_IP => 3%nat | PUBLIC_KIND_FLOATING_IP => 4%nat end)
    (fun n => match n with
       0%nat => PUBLIC_KIND_UNSPECIFIED | 1%nat => PUBLIC_KIND_EDGE_UNDERLAY
     | 2%nat => PUBLIC_KIND_NAT_IP | 3%nat => PUBLIC_KIND_LB_IP | _ => PUBLIC_KIND_FLOATING_IP end) _).
  by intros [].
Defined.

(** [routebus.LbPort] (and the wire's [PortProto], which has the same fields). *)
Record LbPort := mkLbPort { Port : Z; Proto : Z }.

#[export] Instance LbPort_eq_dec : EqDecision LbPort.
Proof. solve_decision. Defined.

(** [LbPortsEqual]: element by element, order included. *)
Fixpoint LbPortsEqual (a b : list LbPort) : bool :=
  match a, b with
  | [], [] => true
  | x :: a, y :: b => bool_decide (x = y) && LbPortsEqual a b
  | _, _ => false
  end.

(** [routebus.NatBlock]. *)
Record NatBlock := mkNatBlock {
  nb_Vni : Z;
  nb_SourceIP : string;
  nb_NatIP : string;
  nb_PortMin : Z;
  nb_PortMax : Z;
  nb_OwnerUnderlay : string
}.

#[export] Instance NatBlock_eq_dec : EqDecision NatBlock.
Proof. solve_decision. Defined.

(** The wire's [PublicPrefix]; the reflector's [PublicRecord] and the agent's
    [PublicPrefix] have the same fields. *)
Record PublicPrefix := mkPublicPrefix {
  pp_Kind : PublicKind;
  pp_Prefix : string;
  pp_OwnerUnderlay : string;
  pp_Vni : Z;
  pp_PortMin : Z;
  pp_PortMax : Z;
  pp_OverlayIP : string;
  pp_Ports : list LbPort
}.

#[export] Instance PublicPrefix_eq_dec : EqDecision PublicPrefix.
Proof. solve_decision. Defined.

Record RouteUpdate := mkRouteUpdate {
  ru_Vni : Z;
  ru_Prefix : string;
  ru_Nexthops : list string;
  ru_Op : RouteOp;
  ru_External : bool
}.

#[export] Instance RouteUpdate_eq_dec : EqDecision RouteUpdate.
Proof. solve_decision. Defined.

(** [ServerMsg]: what the reflector sends.  A [PublicUpdate]'s prefix is a
    pointer and may be absent on the wire. *)
Inductive ServerMsg :=
  | MRouteUpdate (u : RouteUpdate)
  | MEndOfRIB (vni recordCount : Z)
  | MServerKeepAlive
  | MNatUpdate (b : NatBlock) (op : RouteOp)
  | MPublicUpdate (p : option PublicPrefix) (op : RouteOp)
  | MEndOfGlobal (recordCount : Z).

#[export] Instance ServerMsg_eq_dec : EqDecision ServerMsg.
Proof. solve_decision. Defined.

(** [ClientMsg]: what an agent sends. *)
Inductive ClientMsg :=
  | CHello (nodeID underlay : string) (feed : GlobalFeed)
  | CSubscribe (vni : Z)
  | CUnsubscribe (vni : Z)
  | CAnnounce (vni : Z) (prefix nexthop : string) (extra : list string) (external : bool)
  | CWithdraw (vni : Z) (prefix : string)
  | CKeepAlive
  | CAnnounceNat (b : NatBlock)
  | CWithdrawNat (natIP : string) (portMin portMax : Z)
  | CAnnouncePublic (p : PublicPrefix)
  | CWithdrawPublic (p : PublicPrefix).

#[export] Instance ClientMsg_eq_dec : EqDecision ClientMsg.
Proof. solve_decision. Defined.

Lemma LbPortsEqual_spec (a b : list LbPort) : LbPortsEqual a b = true ↔ a = b.
Proof.
  revert b. induction a as [|x a IH]; intros [|y b]; simpl; try done.
  rewrite andb_true_iff, bool_decide_eq_true, IH. split; [by intros [-> ->]|by intros [= -> ->]].
Qed.
