(* ===== verification/Rib.v ===== *)
(** * The reflector's route table: data and operations

    [mesh/reflector/rib.go], [nattable.go] and [publictable.go].  The [RIB] holds
    the per-VNI routes reference-counted by origin, the global NAT and public
    tables, the subscribers, the fences and the session tokens.  Every exported
    method takes the lock for its whole body, so an operation is one function
    from the state to the new state and the calls it makes on sinks, in order
    ([SW RIB SinkOut]).  This file holds the definitions; [RibFacts.v] and the
    files after it hold their theory. *)

From S2P Require Import Prelude Net Wire.

Open Scope Z_scope.

(** A subscriber's outbound path is a pointer: two sinks with one id are
    different sinks. *)
Record Sink := mkSink { sink_ptr : nat; sink_id : string }.

Inductive SinkCall :=
  | Send (m : ServerMsg)
  | SendSnapshot (ms : list ServerMsg).

Abbreviation SinkOut := (Sink * SinkCall)%type.

Record routeKey := mkKey { rk_vni : Z; rk_prefix : string }.
Record natKey := mkNatKey { nk_natIP : string; nk_portMin : Z }.
Record publicKey := mkPublicKey {
  pk_kind : PublicKind; pk_pfx : string; pk_owner : string; pk_overlay : string }.

#[export] Instance Sink_eq_dec : EqDecision Sink.
Proof. solve_decision. Defined.
#[export] Instance SinkCall_eq_dec : EqDecision SinkCall.
Proof. solve_decision. Defined.
#[export] Instance routeKey_eq_dec : EqDecision routeKey.
Proof. solve_decision. Defined.
#[export] Instance natKey_eq_dec : EqDecision natKey.
Proof. solve_decision. Defined.
#[export] Instance publicKey_eq_dec : EqDecision publicKey.
Proof. solve_decision. Defined.

#[export] Instance routeKey_countable : Countable routeKey.
Proof.
  refine (inj_countable' (fun k => (rk_vni k, rk_prefix k)) (fun p => mkKey p.1 p.2) _). by intros [].
Defined.
#[export] Instance natKey_countable : Countable natKey.
Proof.
  refine (inj_countable' (fun k => (nk_natIP k, nk_portMin k)) (fun p => mkNatKey p.1 p.2) _). by intros [].
Defined.
#[export] Instance publicKey_countable : Countable publicKey.
Proof.
  refine (inj_countable' (fun k => (pk_kind k, pk_pfx k, pk_owner k, pk_overlay k))
    (fun p => mkPublicKey p.1.1.1 p.1.1.2 p.1.2 p.2) _). by intros [].
Defined.

(** [routeEntry]: the nexthops each origin announced for one key. *)
Record routeEntry := mkEntry { e_origins : gmap string (list string); e_external : bool }.

(** One global table with its two indexes: the record of each key, the keys of
    each origin ([natByOrigin], [publicByOrigin]) and the origin of each key
    ([natOrigin], [publicOrigin]). *)
Record OriginTable (K V : Type) `{Countable K} := mkTable {
  tab : gmap K V;
  byOrig : gmap string (gset K);
  orig : gmap K string
}.
Arguments mkTable {_ _ _ _} _ _ _.
Arguments tab {_ _ _ _} _.
Arguments byOrig {_ _ _ _} _.
Arguments orig {_ _ _ _} _.

(** [RIB].  [natT] is [nat], [natByOrigin] and [natOrigin]; [publicT] is
    [public], [publicByOrigin] and [publicOrigin]. *)
Record RIB := mkRIB {
  routes : gmap routeKey routeEntry;
  byOrigin : gmap string (gset routeKey);
  subscribers : gmap Z (gmap string Sink);
  natT : OriginTable natKey NatBlock;
  publicT : OriginTable publicKey PublicPrefix;
  sinks : gmap string Sink;
  globalSnap : option (list ServerMsg);
  fenced : gmap string net.IPNet;
  origins : gmap string Z;
  nextToken : Z
}.

Definition emptyTable {K V : Type} `{Countable K} : OriginTable K V := mkTable ∅ ∅ ∅.

Definition NewRIB : RIB := mkRIB ∅ ∅ ∅ emptyTable emptyTable ∅ None ∅ ∅ 0.

(** Assignments to one field. *)
Definition with_routes (v : gmap routeKey routeEntry) (r : RIB) : RIB :=
  mkRIB v (byOrigin r) (subscribers r) (natT r) (publicT r) (sinks r) (globalSnap r) (fenced r) (origins r) (nextToken r).
Definition with_byOrigin (v : gmap string (gset routeKey)) (r : RIB) : RIB :=
  mkRIB (routes r) v (subscribers r) (natT r) (publicT r) (sinks r) (globalSnap r) (fenced r) (origins r) (nextToken r).
Definition with_subscribers (v : gmap Z (gmap string Sink)) (r : RIB) : RIB :=
  mkRIB (routes r) (byOrigin r) v (natT r) (publicT r) (sinks r) (globalSnap r) (fenced r) (origins r) (nextToken r).
Definition with_natT (v : OriginTable natKey NatBlock) (r : RIB) : RIB :=
  mkRIB (routes r) (byOrigin r) (subscribers r) v (publicT r) (sinks r) (globalSnap r) (fenced r) (origins r) (nextToken r).
Definition with_publicT (v : OriginTable publicKey PublicPrefix) (r : RIB) : RIB :=
  mkRIB (routes r) (byOrigin r) (subscribers r) (natT r) v (sinks r) (globalSnap r) (fenced r) (origins r) (nextToken r).
Definition with_sinks (v : gmap string Sink) (r : RIB) : RIB :=
  mkRIB (routes r) (byOrigin r) (subscribers r) (natT r) (publicT r) v (globalSnap r) (fenced r) (origins r) (nextToken r).
Definition with_globalSnap (v : option (list ServerMsg)) (r : RIB) : RIB :=
  mkRIB (routes r) (byOrigin r) (subscribers r) (natT r) (publicT r) (sinks r) v (fenced r) (origins r) (nextToken r).
Definition with_fenced (v : gmap string net.IPNet) (r : RIB) : RIB :=
  mkRIB (routes r) (byOrigin r) (subscribers r) (natT r) (publicT r) (sinks r) (globalSnap r) v (origins r) (nextToken r).
Definition with_tokens (v : gmap string Z) (n : Z) (r : RIB) : RIB :=
  mkRIB (routes r) (byOrigin r) (subscribers r) (natT r) (publicT r) (sinks r) (globalSnap r) (fenced r) v n.

(** ** What is advertised *)

(** The set of the nexthops of every origin. *)
Definition nexthop_set (os : gmap string (list string)) : gset string :=
  list_to_set (mjoin (map_to_list os).*2).

(** [mergeNexthops]: deduplicated and sorted, so the map's order does not show. *)
Definition mergeNexthops (os : gmap string (list string)) : list string :=
  sort_strings (elements (nexthop_set os)).

Fixpoint equalStrs (a b : list string) : bool :=
  match a, b with
  | [], [] => true
  | x :: a, y :: b => bool_decide (x = y) && equalStrs a b
  | _, _ => false
  end.

Definition nexthopFenced (nh : string) (f : gmap string net.IPNet) : bool :=
  match net.ParseIP nh with
  | None => false
  | Some ip => any (fun n => net.IPNet_Contains n ip) (map_to_list f).*2
  end.

Definition advertised (r : RIB) (e : routeEntry) : list string :=
  let merged := mergeNexthops (e_origins e) in
  if decide (size (fenced r) = 0%nat) then merged
  else filter (fun nh => nexthopFenced nh (fenced r) = false) merged.

(** The entry of a key, the zero value when there is none. *)
Definition entry (r : RIB) (k : routeKey) : routeEntry := default (mkEntry ∅ false) (routes r !! k).

(** [Advertised] *)
Definition Advertised (vni : Z) (prefix : string) (r : RIB) : list string :=
  advertised r (entry r (mkKey vni prefix)).

(** [HasRoute] *)
Definition HasRoute (vni : Z) (prefix : string) (r : RIB) : bool :=
  match routes r !! mkKey vni prefix with
  | Some e => negb (bool_decide (length (advertised r e) = 0%nat))
  | None => false
  end.

(** ** Messages *)

Definition routeUpdate (k : routeKey) (nexthops : list string) (op : RouteOp) (external : bool) : ServerMsg :=
  MRouteUpdate (mkRouteUpdate (rk_vni k) (rk_prefix k) nexthops op external).

Definition natUpdate (b : NatBlock) (op : RouteOp) : ServerMsg := MNatUpdate b op.

Definition publicUpdate (rec : PublicPrefix) (op : RouteOp) : ServerMsg := MPublicUpdate (Some rec) op.

Definition publicRecordFromPB (p : PublicPrefix) : PublicPrefix :=
  mkPublicPrefix (pp_Kind p) (pp_Prefix p) (pp_OwnerUnderlay p) (pp_Vni p) (pp_PortMin p) (pp_PortMax p)
    (pp_OverlayIP p) (pp_Ports p).

Definition public_key (rec : PublicPrefix) : publicKey :=
  mkPublicKey (pp_Kind rec) (pp_Prefix rec) (pp_OwnerUnderlay rec) (pp_OverlayIP rec).

Definition nat_key (b : NatBlock) : natKey := mkNatKey (nb_NatIP b) (nb_PortMin b).

(** ** Fanout of a route *)

(** [only] and [originsOf]: whom a fanout skips. *)
Definition only (origin : string) (id : string) : bool := bool_decide (id = origin).
Definition originsOf (e : routeEntry) (id : string) : bool := bool_decide (is_Some (e_origins e !! id)).
Definition nobody (id : string) : bool := false.

Section rib.
Context {ro : RangeOrder}.

Definition fanout (r : RIB) (k : routeKey) (nexthops : list string) (op : RouteOp)
    (skip : string → bool) (external : bool) : list SinkOut :=
  omap (fun '(id, s) => if skip id then None else Some (s, Send (routeUpdate k nexthops op external)))
    (range_map (default ∅ (subscribers r !! rk_vni k))).

Definition fanoutChange (r : RIB) (k : routeKey) (before after : list string)
    (skip : string → bool) (external : bool) : list SinkOut :=
  if equalStrs before after then []
  else if decide (length after = 0%nat) then fanout r k [] ROUTE_OP_WITHDRAW skip external
  else fanout r k after ROUTE_OP_ADD skip external.

(** ** Subscriptions *)

(** The keys of one VNI, by prefix. *)
Definition vni_keys (vni : Z) (r : RIB) : list routeKey :=
  mkKey vni <$> sort_strings (rk_prefix <$> filter (fun k => rk_vni k = vni) (map_to_list (routes r)).*1).

(** The records of a snapshot: the keys left with a nexthop. *)
Definition snapshot_records (vni : Z) (r : RIB) : list ServerMsg :=
  omap (fun k =>
    let e := entry r k in
    let nhs := advertised r e in
    if decide (length nhs = 0%nat) then None
    else Some (routeUpdate k nhs ROUTE_OP_ADD (e_external e))) (vni_keys vni r).

Definition Subscribe (vni : Z) (s : Sink) : SW RIB SinkOut := fun r =>
  let subs := default ∅ (subscribers r !! vni) in
  let duplicate := match subs !! sink_id s with
                   | Some held => bool_decide (sink_ptr held = sink_ptr s)
                   | None => false end in
  if duplicate then (r, [])
  else
    let r' := with_subscribers (<[vni := <[sink_id s := s]> subs]> (subscribers r)) r in
    let recs := snapshot_records vni r' in
    (r', [(s, SendSnapshot (recs ++ [MEndOfRIB vni (u32 (Z.of_nat (length recs)))]))]).

(** Remove one sink id from a VNI, and the VNI when it was the last. *)
Definition unsub (id : string) (vni : Z) (m : gmap Z (gmap string Sink)) : gmap Z (gmap string Sink) :=
  match m !! vni with
  | None => m
  | Some subs =>
      let subs' := delete id subs in
      if decide (size subs' = 0%nat) then delete vni m else <[vni := subs']> m
  end.

Definition Unsubscribe (vni : Z) (sinkID : string) : SW RIB SinkOut := fun r =>
  (with_subscribers (unsub sinkID vni (subscribers r)) r, []).

(** ** Announce and withdraw *)

Definition Announce (origin : string) (vni : Z) (prefix : string) (nexthops : list string)
    (external : bool) : SW RIB SinkOut := fun r =>
  let k := mkKey vni prefix in
  let e := entry r k in
  let before := advertised r e in
  let e' := mkEntry (<[origin := nexthops]> (e_origins e)) external in
  let r' := with_byOrigin (<[origin := {[k]} ∪ default ∅ (byOrigin r !! origin)]> (byOrigin r))
              (with_routes (<[k := e']> (routes r)) r) in
  (r', fanoutChange r' k before (advertised r' e') (only origin) external).

Definition withdrawRouteOrigin (k : routeKey) (origin : string) : SW RIB SinkOut := fun r =>
  match routes r !! k with
  | None => (r, [])
  | Some e =>
      match e_origins e !! origin with
      | None => (r, [])
      | Some _ =>
          let before := advertised r e in
          let e' := mkEntry (delete origin (e_origins e)) (e_external e) in
          let r' := if decide (size (e_origins e') = 0%nat)
                    then with_routes (delete k (routes r)) r
                    else with_routes (<[k := e']> (routes r)) r in
          (r', fanoutChange r' k before (advertised r' e') nobody (e_external e'))
      end
  end.

Definition Withdraw (origin : string) (vni : Z) (prefix : string) : SW RIB SinkOut := fun r =>
  let k := mkKey vni prefix in
  withdrawRouteOrigin k origin
    (with_byOrigin (alter (fun s => s ∖ {[k]}) origin (byOrigin r)) r).

(** ** The global tables *)

Definition ot_announce {K V : Type} `{Countable K} (origin : string) (k : K) (v : V)
    (t : OriginTable K V) : OriginTable K V :=
  let by1 := match orig t !! k with
             | Some prev => if decide (prev = origin) then byOrig t
                            else alter (fun s => s ∖ {[k]}) prev (byOrig t)
             | None => byOrig t
             end in
  mkTable (<[k := v]> (tab t)) (<[origin := {[k]} ∪ default ∅ (by1 !! origin)]> by1)
    (<[k := origin]> (orig t)).

(** Remove a key from the record and origin maps. *)
Definition ot_remove {K V : Type} `{Countable K} (k : K) (t : OriginTable K V) : OriginTable K V :=
  mkTable (delete k (tab t)) (byOrig t) (delete k (orig t)).

(** [delete(m[origin], k)] on the index by origin. *)
Definition ot_unindex {K V : Type} `{Countable K} (origin : string) (k : K) (t : OriginTable K V) : OriginTable K V :=
  mkTable (tab t) (alter (fun s => s ∖ {[k]}) origin (byOrig t)) (orig t).

Definition ot_forget_origin {K V : Type} `{Countable K} (origin : string) (t : OriginTable K V) : OriginTable K V :=
  mkTable (tab t) (delete origin (byOrig t)) (orig t).

(** A broadcast: the cached replay is dropped, and every registered sink is sent
    the message. *)
Definition broadcast (m : ServerMsg) : SW RIB SinkOut := fun r =>
  (with_globalSnap None r, (fun '(_, s) => (s, Send m)) <$> range_map (sinks r)).

Definition natFanout (b : NatBlock) (op : RouteOp) : SW RIB SinkOut := broadcast (natUpdate b op).

Definition publicFanout (rec : PublicPrefix) (op : RouteOp) : SW RIB SinkOut := broadcast (publicUpdate rec op).

Definition AnnounceNat (origin : string) (b : NatBlock) : SW RIB SinkOut := fun r =>
  natFanout b ROUTE_OP_ADD (with_natT (ot_announce origin (nat_key b) b (natT r)) r).

Definition AnnouncePublic (origin : string) (rec : PublicPrefix) : SW RIB SinkOut := fun r =>
  publicFanout rec ROUTE_OP_ADD (with_publicT (ot_announce origin (public_key rec) rec (publicT r)) r).

(** [OwnerPermit]: a nil permit allows everything. *)
Definition OwnerPermit : Type := option (string → bool).
Definition allows (p : OwnerPermit) (owner : string) : bool :=
  match p with None => true | Some f => f owner end.

Inductive WithdrawOutcome := WithdrawApplied | WithdrawAbsent | WithdrawRefused.

Definition WithdrawNat (origin natIP : string) (portMin portMax : Z) (permit : OwnerPermit) (r : RIB)
    : RIB * list SinkOut * WithdrawOutcome :=
  let k := mkNatKey natIP portMin in
  match tab (natT r) !! k with
  | None => (r, [], WithdrawAbsent)
  | Some b =>
      if decide (default "" (orig (natT r) !! k) ≠ origin) then (r, [], WithdrawRefused)
      else if negb (allows permit (nb_OwnerUnderlay b)) then (r, [], WithdrawRefused)
      else (natFanout b ROUTE_OP_WITHDRAW (with_natT (ot_unindex origin k (ot_remove k (natT r))) r), WithdrawApplied)
  end.

Definition WithdrawPublic (origin : string) (rec : PublicPrefix) (permit : OwnerPermit) (r : RIB)
    : RIB * list SinkOut * WithdrawOutcome :=
  let k := public_key rec in
  match tab (publicT r) !! k with
  | None => (r, [], WithdrawAbsent)
  | Some stored =>
      if decide (default "" (orig (publicT r) !! k) ≠ origin) then (r, [], WithdrawRefused)
      else if negb (allows permit (pp_OwnerUnderlay stored)) then (r, [], WithdrawRefused)
      else (publicFanout stored ROUTE_OP_WITHDRAW (with_publicT (ot_unindex origin k (ot_remove k (publicT r))) r), WithdrawApplied)
  end.

(** One key of a dropped origin: the reverse index decides who holds it now. *)
Definition drop_nat_key (origin : string) (k : natKey) : SW RIB SinkOut := fun r =>
  if decide (default "" (orig (natT r) !! k) ≠ origin) then (r, [])
  else match tab (natT r) !! k with
       | None => (r, [])
       | Some b => natFanout b ROUTE_OP_WITHDRAW (with_natT (ot_remove k (natT r)) r)
       end.

Definition dropOriginNat (origin : string) : SW RIB SinkOut := fun r =>
  let owned := default ∅ (byOrig (natT r) !! origin) in
  sw_loop (drop_nat_key origin) (range_set owned) (with_natT (ot_forget_origin origin (natT r)) r).

Definition drop_public_key (origin : string) (k : publicKey) : SW RIB SinkOut := fun r =>
  if decide (default "" (orig (publicT r) !! k) ≠ origin) then (r, [])
  else match tab (publicT r) !! k with
       | None => (r, [])
       | Some rec => publicFanout rec ROUTE_OP_WITHDRAW (with_publicT (ot_remove k (publicT r)) r)
       end.

Definition dropOriginPublic (origin : string) : SW RIB SinkOut := fun r =>
  let owned := default ∅ (byOrig (publicT r) !! origin) in
  sw_loop (drop_public_key origin) (range_set owned) (with_publicT (ot_forget_origin origin (publicT r)) r).

(** [globalSnapshotLocked]: the cached replay, or a fresh one which is then cached. *)
Definition build_global (r : RIB) : list ServerMsg :=
  let recs := ((fun '(_, b) => natUpdate b ROUTE_OP_ADD) <$> range_map (tab (natT r))) ++
              ((fun '(_, p) => publicUpdate p ROUTE_OP_ADD) <$> range_map (tab (publicT r))) in
  recs ++ [MEndOfGlobal (u32 (Z.of_nat (length recs)))].

Definition globalSnapshotLocked (r : RIB) : RIB * list ServerMsg :=
  match globalSnap r with
  | Some snap => (r, snap)
  | None => let snap := build_global r in (with_globalSnap (Some snap) r, snap)
  end.

Definition RegisterSink (s : Sink) : SW RIB SinkOut := fun r =>
  let '(r', snap) := globalSnapshotLocked (with_sinks (<[sink_id s := s]> (sinks r)) r) in
  (r', [(s, SendSnapshot snap)]).

Definition unregisterSink (sinkID : string) : SW RIB SinkOut := fun r =>
  (with_sinks (delete sinkID (sinks r)) r, []).

(** ** Sessions *)

Definition drop_subscriptions (origin : string) (m : gmap Z (gmap string Sink)) : gmap Z (gmap string Sink) :=
  omap (fun subs => let subs' := delete origin subs in
                    if decide (size subs' = 0%nat) then None else Some subs') m.

Definition dropOriginLocked (origin : string) : SW RIB SinkOut := fun r =>
  let owned := default ∅ (byOrigin r !! origin) in
  sw_seq (sw_loop (fun k => withdrawRouteOrigin k origin) (range_set owned))
    (sw_seq (fun r => (with_subscribers (drop_subscriptions origin (subscribers r)) r, []))
       (sw_seq (dropOriginNat origin) (dropOriginPublic origin)))
    (with_byOrigin (delete origin (byOrigin r)) r).

Definition ClaimOrigin (nodeID : string) (r : RIB) : RIB * list SinkOut * Z :=
  let token := u64 (nextToken r + 1) in
  let r1 := with_tokens (<[nodeID := token]> (origins r)) token r in
  match origins r !! nodeID with
  | Some _ => (dropOriginLocked nodeID (with_sinks (delete nodeID (sinks r1)) r1), token)
  | None => (r1, [], token)
  end.

Definition ReleaseOrigin (nodeID : string) (token : Z) : SW RIB SinkOut := fun r =>
  if decide (origins r !! nodeID = Some token) then
    let r1 := with_tokens (delete nodeID (origins r)) (nextToken r) r in
    dropOriginLocked nodeID (with_sinks (delete nodeID (sinks r1)) r1)
  else (r, []).

(** ** Fences *)

Definition fenceKey (prefix : string) : option (string * net.IPNet) :=
  '(_, ipnet) ← net.ParseCIDR prefix; Some (net.IPNet_String ipnet, ipnet).

(** [refilter] with the fence set [change] leaves. *)
Definition refilter (f : gmap string net.IPNet) : SW RIB SinkOut := fun r =>
  let r' := with_fenced f r in
  (r', mjoin ((fun '(k, e) => fanoutChange r' k (advertised r e) (advertised r' e) (originsOf e) (e_external e))
                 <$> range_map (routes r'))).

Definition SetFence (prefix : string) : SW RIB SinkOut := fun r =>
  match fenceKey prefix with
  | None => (r, [])
  | Some (key, ipnet) =>
      if decide (is_Some (fenced r !! key)) then (r, [])
      else refilter (<[key := ipnet]> (fenced r)) r
  end.

Definition ClearFence (prefix : string) : SW RIB SinkOut := fun r =>
  match fenceKey prefix with
  | None => (r, [])
  | Some (key, _) =>
      if decide (is_Some (fenced r !! key)) then refilter (delete key (fenced r)) r
      else (r, [])
  end.

(** ** Who announces what from where *)

Record RouteHolding := mkHolding { h_key : routeKey; h_origin : string; h_nexthop : string }.

Definition spellings (k : routeKey) : list routeKey :=
  match netip.ParsePrefix (rk_prefix k) with
  | None => [k]
  | Some p =>
      if decide (netip.Prefix_String p = rk_prefix k) then [k]
      else [k; mkKey (rk_vni k) (netip.Prefix_String p)]
  end.

Definition holdersWithin (k asked : routeKey) (nets : gmap string net.IPNet) (r : RIB) : list RouteHolding :=
  let os := e_origins (entry r k) in
  ids ← sort_strings (map_to_list os).*1;
  nh ← sort_strings (default [] (os !! ids));
  if nexthopFenced nh nets then [mkHolding asked ids nh] else [].

(** The first spelling of a key that holds anything answers for it. *)
Fixpoint first_holders (ks : list routeKey) (asked : routeKey) (nets : gmap string net.IPNet) (r : RIB)
    : list RouteHolding :=
  match ks with
  | [] => []
  | k :: ks => match holdersWithin k asked nets r with
               | [] => first_holders ks asked nets r
               | hs => hs
               end
  end.

Fixpoint announced_loop (keys : list routeKey) (seen : gset routeKey) (nets : gmap string net.IPNet) (r : RIB)
    : list RouteHolding :=
  match keys with
  | [] => []
  | q :: keys =>
      if decide (q ∈ seen) then announced_loop keys seen nets r
      else first_holders (spellings q) q nets r ++ announced_loop keys ({[q]} ∪ seen) nets r
  end.

(** [AnnouncedFrom]: [None] is the error of a prefix that does not parse. *)
Definition AnnouncedFrom (within : string) (keys : list routeKey) (r : RIB) : option (list RouteHolding) :=
  '(_, ipnet) ← net.ParseCIDR within;
  Some (announced_loop keys ∅ {[within := ipnet]} r).

(** ** The operations as one step *)

Inductive RibOp :=
  | OpSubscribe (vni : Z) (s : Sink)
  | OpUnsubscribe (vni : Z) (sinkID : string)
  | OpAnnounce (origin : string) (vni : Z) (prefix : string) (nexthops : list string) (external : bool)
  | OpWithdraw (origin : string) (vni : Z) (prefix : string)
  | OpRegisterSink (s : Sink)
  | OpUnregisterSink (sinkID : string)
  | OpAnnounceNat (origin : string) (b : NatBlock)
  | OpWithdrawNat (origin natIP : string) (portMin portMax : Z) (permit : OwnerPermit)
  | OpAnnouncePublic (origin : string) (rec : PublicPrefix)
  | OpWithdrawPublic (origin : string) (rec : PublicPrefix) (permit : OwnerPermit)
  | OpClaimOrigin (nodeID : string)
  | OpReleaseOrigin (nodeID : string) (token : Z)
  | OpDropOrigin (origin : string)
  | OpSetFence (prefix : string)
  | OpClearFence (prefix : string).

Definition rib_step (op : RibOp) : SW RIB SinkOut :=
  match op with
  | OpSubscribe vni s => Subscribe vni s
  | OpUnsubscribe vni id => Unsubscribe vni id
  | OpAnnounce o vni p nhs ext => Announce o vni p nhs ext
  | OpWithdraw o vni p => Withdraw o vni p
  | OpRegisterSink s => RegisterSink s
  | OpUnregisterSink id => unregisterSink id
  | OpAnnounceNat o b => AnnounceNat o b
  | OpWithdrawNat o ip lo hi permit => fun r => (WithdrawNat o ip lo hi permit r).1
  | OpAnnouncePublic o rec => AnnouncePublic o rec
  | OpWithdrawPublic o rec permit => fun r => (WithdrawPublic o rec permit r).1
  | OpClaimOrigin n => fun r => (ClaimOrigin n r).1
  | OpReleaseOrigin n t => ReleaseOrigin n t
  | OpDropOrigin o => dropOriginLocked o
  | OpSetFence p => SetFence p
  | OpClearFence p => ClearFence p
  end.

End rib.

(** A run: each operation under its own iteration order. *)
Fixpoint rib_run (ops : list (RangeOrder * RibOp)) (r : RIB) : RIB * list SinkOut :=
  match ops with
  | [] => (r, [])
  | (ro, op) :: ops =>
      let '(r1, o1) := rib_step (ro := ro) op r in
      let '(r2, o2) := rib_run ops r1 in (r2, o1 ++ o2)
  end.
