(* ===== verification/RibFacts.v ===== *)
(** * The reflector's route table: its well-formedness

    The invariant of the [RIB] ([rib_wf]): each index agrees with the table it
    indexes, sinks are filed under their own id, the cached global replay is the
    current tables, and a fence is filed under its canonical network.  Every
    operation preserves it ([rib_step_wf]). *)

From S2P Require Import Prelude Net Wire Rib.

Open Scope Z_scope.

(** ** The invariant *)

(** The origins of a key in a route map. *)
Definition origins_at (rts : gmap routeKey routeEntry) (k : routeKey) : gmap string (list string) :=
  e_origins (default (mkEntry ∅ false) (rts !! k)).

(** The index by origin is exact, up to the pairs of [P] still to be removed. *)
Definition indexed (rts : gmap routeKey routeEntry) (by_ : gmap string (gset routeKey))
    (P : string → routeKey → Prop) : Prop :=
  ∀ o k, is_Some (origins_at rts k !! o) ↔ k ∈ default ∅ (by_ !! o) ∨ P o k.

Definition no_empty (rts : gmap routeKey routeEntry) : Prop :=
  ∀ k e, rts !! k = Some e → e_origins e ≠ ∅.

Definition nothing (o : string) (k : routeKey) : Prop := False.

(** A global table: each record is under its own key, and the two indexes agree
    with it, up to the pairs of [P] missing from the index by origin. *)
Record table_ok {K V : Type} `{Countable K} (kf : V → K) (P : string → K → Prop) (t : OriginTable K V) : Prop := {
  tok_key : ∀ k v, tab t !! k = Some v → kf v = k;
  tok_dom : ∀ k, is_Some (tab t !! k) ↔ is_Some (orig t !! k);
  tok_index : ∀ o k, orig t !! k = Some o ↔ k ∈ default ∅ (byOrig t !! o) ∨ P o k
}.

Definition none_of {K : Type} (o : string) (k : K) : Prop := False.
Abbreviation table_wf kf t := (table_ok kf none_of t).

Definition sinks_ok (m : gmap string Sink) : Prop := ∀ id s, m !! id = Some s → sink_id s = id.

Definition subs_ok (m : gmap Z (gmap string Sink)) : Prop :=
  ∀ vni subs, m !! vni = Some subs → subs ≠ ∅ ∧ sinks_ok subs.

(** The records of the global replay, in some order. *)
Definition global_records (nt : gmap natKey NatBlock) (pt : gmap publicKey PublicPrefix) : list ServerMsg :=
  ((fun '(_, b) => natUpdate b ROUTE_OP_ADD) <$> map_to_list nt) ++
  ((fun '(_, p) => publicUpdate p ROUTE_OP_ADD) <$> map_to_list pt).

(** A replay of the tables: their records and a marker that counts them. *)
Definition is_replay (nt : gmap natKey NatBlock) (pt : gmap publicKey PublicPrefix) (snap : list ServerMsg) : Prop :=
  ∃ recs, recs ≡ₚ global_records nt pt ∧ snap = recs ++ [MEndOfGlobal (u32 (Z.of_nat (length recs)))].

Definition snap_ok (gs : option (list ServerMsg)) (nt : gmap natKey NatBlock) (pt : gmap publicKey PublicPrefix) : Prop :=
  ∀ snap, gs = Some snap → is_replay nt pt snap.

Definition fences_ok (f : gmap string net.IPNet) : Prop :=
  ∀ key n, f !! key = Some n → key = net.IPNet_String n.

Record rib_wf (r : RIB) : Prop := {
  wf_origins : no_empty (routes r);
  wf_index : indexed (routes r) (byOrigin r) nothing;
  wf_subs : subs_ok (subscribers r);
  wf_nat : table_wf nat_key (natT r);
  wf_public : table_wf public_key (publicT r);
  wf_sinks : sinks_ok (sinks r);
  wf_snap : snap_ok (globalSnap r) (tab (natT r)) (tab (publicT r));
  wf_fences : fences_ok (fenced r)
}.

(** ** What a sink receives *)

Definition call_msgs (c : SinkCall) : list ServerMsg :=
  match c with Send m => [m] | SendSnapshot ms => ms end.

(** The messages of a trace that go to one sink, in order. *)
Definition delivered (s : Sink) (o : list SinkOut) : list ServerMsg :=
  o ≫= (fun '(s', c) => if decide (s' = s) then call_msgs c else []).

Lemma delivered_app (s : Sink) (o1 o2 : list SinkOut) : delivered s (o1 ++ o2) = delivered s o1 ++ delivered s o2.
Proof. apply bind_app. Qed.

(** A message sent to each sink of a map but those [skip] names reaches a sink
    of the map once. *)
Lemma delivered_sends (s : Sink) (skip : string → bool) (m : ServerMsg) (l : list (string * Sink)) :
  NoDup l.*1 → (∀ id s', (id, s') ∈ l → sink_id s' = id) →
  delivered s (omap (fun '(id, s') => if skip id then None else Some (s', Send m)) l) =
  if decide ((sink_id s, s) ∈ l ∧ skip (sink_id s) = false) then [m] else [].
Proof.
  induction l as [|[id s'] l IH]; intros Hnd Hid.
  { rewrite decide_False; [done|]. by intros [?%not_elem_of_nil _]. }
  apply NoDup_cons in Hnd as [Hn Hnd].
  assert (sink_id s' = id) as <- by (apply Hid; left).
  assert (Hl : delivered s (omap (fun '(id, s') => if skip id then None else Some (s', Send m)) l) =
    if decide ((sink_id s, s) ∈ l ∧ skip (sink_id s) = false) then [m] else [])
    by (apply IH; [done|]; intros; apply Hid; by right).
  assert (Hin : s' = s → (sink_id s, s) ∉ l)
    by (intros -> Hin; apply Hn; apply list_elem_of_fmap; by exists (sink_id s, s)).
  assert (Hc : delivered s (omap (fun '(id, s') => if skip id then None else Some (s', Send m)) ((sink_id s', s') :: l)) =
    (if skip (sink_id s') then [] else if decide (s' = s) then [m] else []) ++
    if decide ((sink_id s, s) ∈ l ∧ skip (sink_id s) = false) then [m] else [])
    by (rewrite <-Hl; cbn; destruct (skip (sink_id s')); [done|by cbn; destruct (decide (s' = s))]).
  rewrite Hc. clear Hc Hl IH. destruct (decide (s' = s)) as [->|Hne].
  - specialize (Hin eq_refl). rewrite (decide_False (P := _ ∈ l ∧ _)) by tauto.
    destruct (skip (sink_id s)); [rewrite decide_False by (by intros [])|rewrite decide_True by (by split; [left|])]; done.
  - assert (Hiff : (sink_id s, s) ∈ (sink_id s', s') :: l ↔ (sink_id s, s) ∈ l).
    { rewrite elem_of_cons. split; [|tauto]. intros [[= _ ?]|]; congruence. }
    replace (if skip (sink_id s') then [] else []) with (@nil ServerMsg) by (by destruct (skip _)).
    simpl. apply decide_ext. tauto.
Qed.

(** ** What is advertised *)

Lemma equalStrs_spec (a b : list string) : equalStrs a b = true ↔ a = b.
Proof.
  revert b. induction a as [|x a IH]; intros [|y b]; simpl; try done.
  rewrite andb_true_iff, bool_decide_eq_true, IH. split; [by intros [-> ->]|by intros [= -> ->]].
Qed.

Lemma elem_of_nexthop_set (os : gmap string (list string)) (nh : string) :
  nh ∈ nexthop_set os ↔ ∃ o nhs, os !! o = Some nhs ∧ nh ∈ nhs.
Proof.
  unfold nexthop_set. rewrite elem_of_list_to_set, list_elem_of_join. split.
  - intros (nhs & Hnh & ([o ?] & -> & Ho%elem_of_map_to_list)%list_elem_of_fmap). eauto.
  - intros (o & nhs & Ho & Hnh). exists nhs. split; [done|]. apply list_elem_of_fmap.
    exists (o, nhs). by rewrite elem_of_map_to_list.
Qed.

Lemma elem_of_mergeNexthops (os : gmap string (list string)) (nh : string) :
  nh ∈ mergeNexthops os ↔ ∃ o nhs, os !! o = Some nhs ∧ nh ∈ nhs.
Proof. unfold mergeNexthops. by rewrite elem_of_sort_strings, elem_of_elements, elem_of_nexthop_set. Qed.

Lemma NoDup_mergeNexthops (os : gmap string (list string)) : NoDup (mergeNexthops os).
Proof. unfold mergeNexthops. rewrite sort_strings_perm. apply NoDup_elements. Qed.

Lemma nexthopFenced_empty (nh : string) : nexthopFenced nh ∅ = false.
Proof. unfold nexthopFenced. by destruct (net.ParseIP nh). Qed.

(** The fast path for no fence agrees with the filter. *)
Lemma advertised_filter (r : RIB) (e : routeEntry) :
  advertised r e = filter (fun nh => nexthopFenced nh (fenced r) = false) (mergeNexthops (e_origins e)).
Proof.
  unfold advertised. case_decide as Hs; [|done].
  apply map_size_empty_inv in Hs. rewrite Hs. symmetry. apply filter_all.
  intros ??. apply nexthopFenced_empty.
Qed.

Lemma elem_of_advertised (r : RIB) (e : routeEntry) (nh : string) :
  nh ∈ advertised r e ↔
  (∃ o nhs, e_origins e !! o = Some nhs ∧ nh ∈ nhs) ∧ nexthopFenced nh (fenced r) = false.
Proof. rewrite advertised_filter, list_elem_of_filter, elem_of_mergeNexthops. tauto. Qed.

Lemma advertised_ext (r r' : RIB) (e e' : routeEntry) :
  fenced r = fenced r' → e_origins e = e_origins e' → advertised r e = advertised r' e'.
Proof. unfold advertised. by intros -> ->. Qed.

Lemma advertised_empty (r : RIB) (e : routeEntry) : e_origins e = ∅ → advertised r e = [].
Proof. intros He. rewrite advertised_filter, He. reflexivity. Qed.

(** ** The route index *)

Lemma origins_at_insert (rts : gmap routeKey routeEntry) (k k' : routeKey) (e : routeEntry) :
  origins_at (<[k := e]> rts) k' = if decide (k = k') then e_origins e else origins_at rts k'.
Proof. unfold origins_at. case_decide; by simplify_map_eq. Qed.

Lemma origins_at_delete (rts : gmap routeKey routeEntry) (k k' : routeKey) :
  origins_at (delete k rts) k' = if decide (k = k') then ∅ else origins_at rts k'.
Proof. unfold origins_at. case_decide; by simplify_map_eq. Qed.

Lemma indexed_iff (rts : gmap routeKey routeEntry) by_ (P Q : string → routeKey → Prop) :
  (∀ o k, P o k ↔ Q o k) → indexed rts by_ P → indexed rts by_ Q.
Proof. intros HPQ HI o k. by rewrite (HI o k), HPQ. Qed.

(** The state after [withdrawRouteOrigin] changes one thing: the key has lost the
    origin. *)
Lemma withdrawRouteOrigin_routes {ro : RangeOrder} (k : routeKey) (origin : string) (r : RIB) (k' : routeKey) :
  origins_at (routes (withdrawRouteOrigin k origin r).1) k' =
  if decide (k = k') then delete origin (origins_at (routes r) k') else origins_at (routes r) k'.
Proof.
  unfold withdrawRouteOrigin. destruct (routes r !! k) as [e|] eqn:Hk; simpl.
  - destruct (e_origins e !! origin) as [nhs|] eqn:Ho; simpl.
    + case_decide as Hs; simpl.
      * rewrite origins_at_delete. case_decide; subst; [|done].
        unfold origins_at. rewrite Hk. simpl. by apply map_size_empty_inv in Hs.
      * rewrite origins_at_insert. case_decide; subst; [|done].
        unfold origins_at. by rewrite Hk.
    + case_decide; subst; [|done]. unfold origins_at. rewrite Hk. simpl. by rewrite delete_id.
  - case_decide; subst; [|done]. unfold origins_at. rewrite Hk. simpl. by rewrite delete_empty.
Qed.

Lemma withdrawRouteOrigin_no_empty {ro : RangeOrder} (k : routeKey) (origin : string) (r : RIB) :
  no_empty (routes r) → no_empty (routes (withdrawRouteOrigin k origin r).1).
Proof.
  intros Hne. unfold withdrawRouteOrigin. destruct (routes r !! k) as [e|] eqn:Hk; [|done].
  destruct (e_origins e !! origin) as [nhs|] eqn:Ho; [|done]. simpl. case_decide as Hs; simpl.
  - intros k' e' Hk'. apply lookup_delete_Some in Hk' as [_ ?]. eauto.
  - intros k' e' Hk'. apply lookup_insert_Some in Hk' as [[<- <-]|[_ ?]]; [|eauto].
    simpl. intros He. apply Hs. by rewrite He.
Qed.

(** Everything but the routes is left alone. *)
Lemma withdrawRouteOrigin_frame {ro : RangeOrder} (k : routeKey) (origin : string) (r : RIB) :
  (withdrawRouteOrigin k origin r).1 = with_routes (routes (withdrawRouteOrigin k origin r).1) r.
Proof. unfold withdrawRouteOrigin. repeat case_match; by destruct r. Qed.

Lemma withdrawRouteOrigin_indexed {ro : RangeOrder} (k : routeKey) (origin : string) (r : RIB) by_
    (P : string → routeKey → Prop) :
  k ∉ default ∅ (by_ !! origin) → indexed (routes r) by_ P →
  indexed (routes (withdrawRouteOrigin k origin r).1) by_ (fun o' k' => P o' k' ∧ ¬ (o' = origin ∧ k' = k)).
Proof.
  intros Hk HI o' k'. rewrite withdrawRouteOrigin_routes. specialize (HI o' k').
  case_decide as Hkk; subst; [|rewrite HI; naive_solver].
  destruct (decide (o' = origin)) as [->|Ho].
  - rewrite lookup_delete_eq, is_Some_alt. naive_solver.
  - rewrite lookup_delete_ne by done. rewrite HI. naive_solver.
Qed.

Lemma Announce_indexed (rts : gmap routeKey routeEntry) by_ (origin : string) (k : routeKey) nhs ext :
  indexed rts by_ nothing →
  indexed (<[k := mkEntry (<[origin := nhs]> (origins_at rts k)) ext]> rts)
    (<[origin := {[k]} ∪ default ∅ (by_ !! origin)]> by_) nothing.
Proof.
  intros HI o' k'. specialize (HI o' k'). rewrite origins_at_insert.
  destruct (decide (o' = origin)) as [->|Ho], (decide (k = k')) as [->|Hk]; simpl;
    rewrite ?lookup_insert_eq, ?lookup_insert_ne by done; simpl; rewrite ?is_Some_alt in *; set_solver.
Qed.

(** ** The global tables *)

(** Membership in an index after one key moved. *)
Ltac solve_index k k' :=
  rewrite ?elem_of_union, ?elem_of_difference, ?elem_of_singleton;
  destruct (decide (k = k')); subst; rewrite ?elem_of_empty in *; naive_solver.

Section tables.
Context {K V : Type} `{Countable K} (kf : V → K).
Implicit Types (t : OriginTable K V) (k : K) (v : V) (o origin : string).

Lemma ot_announce_ok origin k v t :
  kf v = k → table_wf kf t → table_wf kf (ot_announce origin k v t).
Proof.
  intros <- [Hkey Hdom Hidx]. split; simpl.
  - intros k' v'. rewrite lookup_insert_Some. naive_solver.
  - intros k'. rewrite !lookup_insert_is_Some. specialize (Hdom k'). tauto.
  - intros o k'. rewrite lookup_insert_Some.
    pose proof (Hidx o k') as Hi. pose proof (Hidx origin k') as Hio. unfold none_of in *.
    destruct (orig t !! kf v) as [prev|] eqn:Hp; [case_decide as Hpo; subst|];
      (destruct (decide (o = origin)) as [->|];
        [rewrite lookup_insert_eq|rewrite lookup_insert_ne by done]); simpl.
    + solve_index (kf v) k'.
    + solve_index (kf v) k'.
    + rewrite lookup_alter_ne by done. solve_index (kf v) k'.
    + destruct (decide (o = prev)) as [->|].
      * rewrite lookup_alter_eq. destruct (byOrig t !! prev); simpl in *; solve_index (kf v) k'.
      * rewrite lookup_alter_ne by done. solve_index (kf v) k'.
    + solve_index (kf v) k'.
    + solve_index (kf v) k'.
Qed.

(** Removing a key and its index entry. *)
Lemma ot_withdraw_ok origin k t :
  orig t !! k = Some origin → table_wf kf t → table_wf kf (ot_unindex origin k (ot_remove k t)).
Proof.
  intros Ho [Hkey Hdom Hidx]. split; simpl.
  - intros k' v'. rewrite lookup_delete_Some. naive_solver.
  - intros k'. rewrite !lookup_delete_is_Some. specialize (Hdom k'). tauto.
  - intros o k'. rewrite lookup_delete_Some. pose proof (Hidx o k') as Hi. unfold none_of in *.
    destruct (decide (o = origin)) as [->|].
    + rewrite lookup_alter_eq. destruct (byOrig t !! origin); simpl in *; solve_index k k'.
    + rewrite lookup_alter_ne by done. rewrite <-Hi. naive_solver.
Qed.

(** Forgetting an origin's index leaves its keys pending. *)
Lemma ot_forget_ok origin t :
  table_wf kf t →
  table_ok kf (fun o k => o = origin ∧ k ∈ default ∅ (byOrig t !! origin)) (ot_forget_origin origin t).
Proof.
  intros [Hkey Hdom Hidx]. split; simpl; [done..|]. intros o k. pose proof (Hidx o k) as Hi. unfold none_of in Hi.
  destruct (decide (o = origin)) as [->|].
  - rewrite lookup_delete_eq. simpl. rewrite Hi, elem_of_empty. naive_solver.
  - rewrite lookup_delete_ne by done. naive_solver.
Qed.

(** Removing a pending key. *)
Lemma ot_remove_ok origin k (P : string → K → Prop) t :
  orig t !! k = Some origin → k ∉ default ∅ (byOrig t !! origin) → table_ok kf P t →
  table_ok kf (fun o' k' => P o' k' ∧ ¬ (o' = origin ∧ k' = k)) (ot_remove k t).
Proof.
  intros Ho Hk [Hkey Hdom Hidx]. split; simpl.
  - intros k' v'. rewrite lookup_delete_Some. naive_solver.
  - intros k'. rewrite !lookup_delete_is_Some. specialize (Hdom k'). tauto.
  - intros o k'. rewrite lookup_delete_Some. rewrite (Hidx o k').
    destruct (decide (k' = k)) as [->|]; [|naive_solver].
    destruct (decide (o = origin)) as [->|Hne]; [tauto|].
    assert (¬ (k ∈ default ∅ (byOrig t !! o) ∨ P o k)) by (rewrite <-Hidx; congruence). naive_solver.
Qed.

Lemma table_ok_iff (P Q : string → K → Prop) t :
  (∀ o k, P o k ↔ Q o k) → table_ok kf P t → table_ok kf Q t.
Proof. intros HPQ [Hkey Hdom Hidx]. split; [done..|]. intros o k. by rewrite (Hidx o k), HPQ. Qed.

End tables.

(** The origin of a stored record, as the code reads it. *)
Lemma orig_default {K V : Type} `{Countable K} (kf : V → K) (P : string → K → Prop) (t : OriginTable K V) k v origin :
  table_ok kf P t → tab t !! k = Some v → default "" (orig t !! k) = origin → orig t !! k = Some origin.
Proof.
  intros [_ Hdom _] Hv Hd. destruct (Hdom k) as [Hs _]. destruct Hs as [o Ho]; [eauto|].
  rewrite Ho in *. simpl in Hd. by subst.
Qed.

(** ** The two global tables as instances of one interface

    [nattable.go] and [publictable.go] are one design at two types.  The class
    says where a table lives in the [RIB] and how its records are sent; what is
    proved of it holds for both. *)

Class GlobalTable (K V : Type) `{Countable K} := {
  gt_get : RIB → OriginTable K V;
  gt_set : OriginTable K V → RIB → RIB;
  gt_key : V → K;
  gt_msg : V → RouteOp → ServerMsg;
  gt_parse : ServerMsg → option (V * RouteOp);
  gt_get_set : ∀ t r, gt_get (gt_set t r) = t;
  gt_get_snap : ∀ g r, gt_get (with_globalSnap g r) = gt_get r;
  gt_set_id : ∀ r, gt_set (gt_get r) r = r;
  gt_set_set : ∀ t t' r, gt_set t (gt_set t' r) = gt_set t r;
  gt_set_snap : ∀ t g r, gt_set t (with_globalSnap g r) = with_globalSnap g (gt_set t r);
  gt_snap : ∀ t r, globalSnap (gt_set t r) = globalSnap r;
  gt_sinks : ∀ t r, sinks (gt_set t r) = sinks r;
  gt_parse_msg : ∀ v op, gt_parse (gt_msg v op) = Some (v, op)
}.

#[export, refine] Instance nat_table : GlobalTable natKey NatBlock := {|
  gt_get := natT; gt_set := with_natT; gt_key := nat_key; gt_msg := natUpdate;
  gt_parse m := match m with MNatUpdate b op => Some (b, op) | _ => None end |}.
Proof. all: intros; try match goal with r : RIB |- _ => destruct r end; reflexivity. Defined.

#[export, refine] Instance public_table : GlobalTable publicKey PublicPrefix := {|
  gt_get := publicT; gt_set := with_publicT; gt_key := public_key; gt_msg := publicUpdate;
  gt_parse m := match m with MPublicUpdate (Some p) op => Some (p, op) | _ => None end |}.
Proof. all: intros; try match goal with r : RIB |- _ => destruct r end; reflexivity. Defined.

Section global.
Context {ro : RangeOrder} {K V : Type} `{GlobalTable K V}.
Implicit Types (k : K) (v : V) (r : RIB) (origin : string).

(** The operations on a table, as both files write them. *)
Definition gt_announce (origin : string) (v : V) : SW RIB SinkOut := fun r =>
  broadcast (gt_msg v ROUTE_OP_ADD) (gt_set (ot_announce origin (gt_key v) v (gt_get r)) r).

Definition gt_withdraw (origin : string) (k : K) (v : V) : SW RIB SinkOut := fun r =>
  broadcast (gt_msg v ROUTE_OP_WITHDRAW) (gt_set (ot_unindex origin k (ot_remove k (gt_get r))) r).

Definition gt_drop_key (origin : string) (k : K) : SW RIB SinkOut := fun r =>
  if decide (default "" (orig (gt_get r) !! k) ≠ origin) then (r, [])
  else match tab (gt_get r) !! k with
       | None => (r, [])
       | Some v => broadcast (gt_msg v ROUTE_OP_WITHDRAW) (gt_set (ot_remove k (gt_get r)) r)
       end.

Definition gt_drop (origin : string) : SW RIB SinkOut := fun r =>
  sw_loop (gt_drop_key origin) (range_set (default ∅ (byOrig (gt_get r) !! origin)))
    (gt_set (ot_forget_origin origin (gt_get r)) r).

(** Only the table and the cached replay differ. *)
Definition gt_frame (r r' : RIB) : Prop := r' = with_globalSnap (globalSnap r') (gt_set (gt_get r') r).

Lemma gt_frame_refl r : gt_frame r r.
Proof. unfold gt_frame. rewrite gt_set_id. by destruct r. Qed.

Lemma gt_frame_step r r' t g : gt_frame r r' → gt_frame r (with_globalSnap g (gt_set t r')).
Proof.
  unfold gt_frame. intros Hr. simpl. rewrite gt_get_snap, gt_get_set. rewrite Hr at 1.
  rewrite gt_set_snap, gt_set_set. by destruct (gt_set t r).
Qed.

Lemma gt_frame_set r r' t : gt_frame r r' → gt_frame r (gt_set t r').
Proof.
  intros Hr. apply (gt_frame_step _ _ t (globalSnap r')) in Hr. revert Hr.
  rewrite <-(gt_snap t r'). by destruct (gt_set t r').
Qed.

(** ** A table as a registered sink sees it *)

(** What one message does to a copy of the table. *)
Definition gt_apply (vw : gmap K V) (m : ServerMsg) : gmap K V :=
  match gt_parse m with
  | Some (v, ROUTE_OP_ADD) => <[gt_key v := v]> vw
  | Some (v, ROUTE_OP_WITHDRAW) => delete (gt_key v) vw
  | _ => vw
  end.

Lemma delivered_broadcast (s : Sink) (m : ServerMsg) r :
  sinks_ok (sinks r) → sinks r !! sink_id s = Some s → delivered s (broadcast m r).2 = [m].
Proof.
  intros Hok Hs. simpl.
  assert (∀ l : list (string * Sink), ((fun '(_, s') => (s', Send m)) <$> l) =
    omap (fun '(id, s') => if nobody id then None else Some (s', Send m)) l) as ->
    by (induction l as [|[??] l IH]; [done|]; cbn; f_equal; apply IH).
  rewrite delivered_sends; [|apply NoDup_range_map_fst|].
  - apply decide_True. by rewrite elem_of_range_map.
  - intros id s' Hin%elem_of_range_map. by apply Hok.
Qed.

(** A copy that agrees with the table before the operation agrees after it. *)
Definition gt_synced (s : Sink) (r r' : RIB) (o : list SinkOut) : Prop :=
  foldl gt_apply (tab (gt_get r)) (delivered s o) = tab (gt_get r').

Lemma gt_announce_synced (s : Sink) origin v r :
  sinks_ok (sinks r) → sinks r !! sink_id s = Some s →
  gt_synced s r (gt_announce origin v r).1 (gt_announce origin v r).2.
Proof.
  intros Hok Hs. unfold gt_synced, gt_announce. rewrite delivered_broadcast by by rewrite gt_sinks.
  simpl. unfold gt_apply. by rewrite gt_parse_msg, gt_get_snap, gt_get_set.
Qed.

Lemma gt_withdraw_synced (s : Sink) origin v r :
  sinks_ok (sinks r) → sinks r !! sink_id s = Some s →
  gt_synced s r (gt_withdraw origin (gt_key v) v r).1 (gt_withdraw origin (gt_key v) v r).2.
Proof.
  intros Hok Hs. unfold gt_synced, gt_withdraw. rewrite delivered_broadcast by by rewrite gt_sinks.
  simpl. unfold gt_apply. by rewrite gt_parse_msg, gt_get_snap, gt_get_set.
Qed.

(** ** Dropping an origin from a table *)

(** [l]: the keys still to visit; [r0]: the state the loop started from. *)
Record drop_inv (origin : string) (r0 : RIB) (l : list K) (r : RIB) (o : list SinkOut) : Prop := {
  di_nodup : NoDup l;
  di_frame : gt_frame r0 r;
  di_ok : table_ok gt_key (fun o k => o = origin ∧ k ∈ l) (gt_get r);
  di_by : byOrig (gt_get r) !! origin = None;
  di_snap : globalSnap r = None ∨ globalSnap r = globalSnap r0 ∧ tab (gt_get r) = tab (gt_get r0);
  di_keep : ∀ k, orig (gt_get r0) !! k ≠ Some origin →
    tab (gt_get r) !! k = tab (gt_get r0) !! k ∧ orig (gt_get r) !! k = orig (gt_get r0) !! k;
  di_mono : tab (gt_get r) ⊆ tab (gt_get r0) ∧ orig (gt_get r) ⊆ orig (gt_get r0);
  di_sync : ∀ s, sinks_ok (sinks r0) → sinks r0 !! sink_id s = Some s → gt_synced s r0 r o;
  di_msgs : Forall (fun '(_, c) => ∃ v op, c = Send (gt_msg v op)) o
}.

Lemma gt_frame_sinks r r' : gt_frame r r' → sinks r' = sinks r.
Proof. intros ->. simpl. by rewrite gt_sinks. Qed.

Lemma drop_inv_step (origin : string) (r0 : RIB) k l r o :
  drop_inv origin r0 (k :: l) r o →
  drop_inv origin r0 l (gt_drop_key origin k r).1 (o ++ (gt_drop_key origin k r).2).
Proof.
  intros [Hnd Hf Hok Hby Hsn Hkeep [Hmt Hmo] Hsync Hm]. apply NoDup_cons in Hnd as [Hk Hnd].
  assert (Ho : orig (gt_get r) !! k = Some origin)
    by (apply (tok_index _ _ _ Hok); right; split; [done|left]).
  destruct (tok_dom _ _ _ Hok k) as [_ [v Hv]]; [eauto|].
  unfold gt_drop_key. rewrite Ho. simpl. rewrite decide_False by (by intros []). rewrite Hv.
  pose proof (tok_key _ _ _ Hok _ _ Hv) as Hkv. split; try done.
  - by apply gt_frame_step.
  - simpl. rewrite gt_get_snap, gt_get_set. eapply table_ok_iff; [|apply (ot_remove_ok _ origin); [done| |done]].
    + intros o' k'. simpl. rewrite elem_of_cons. naive_solver.
    + rewrite Hby. set_solver.
  - simpl. by rewrite gt_get_snap, gt_get_set.
  - by left.
  - intros k' Hk'. simpl. rewrite gt_get_snap, gt_get_set. simpl.
    assert (k ≠ k') by (intros <-; destruct (Hkeep k Hk'); congruence).
    rewrite !lookup_delete_ne by done. auto.
  - simpl. rewrite gt_get_snap, gt_get_set. simpl. split; (etrans; [apply delete_subseteq|done]).
  - intros s Hso Hs. unfold gt_synced. rewrite delivered_app, foldl_app, Hsync by done.
    rewrite delivered_broadcast by (rewrite gt_sinks, (gt_frame_sinks _ _ Hf); done).
    simpl. unfold gt_apply. by rewrite gt_parse_msg, gt_get_snap, gt_get_set, Hkv.
  - apply Forall_app. split; [done|]. simpl. apply Forall_fmap, Forall_true. intros []. simpl. eauto.
Qed.

Lemma gt_drop_spec (origin : string) r :
  table_wf gt_key (gt_get r) → drop_inv origin r [] (gt_drop origin r).1 (gt_drop origin r).2.
Proof.
  intros Hok. unfold gt_drop. apply (sw_loop_ind (drop_inv origin r) _ _ _ []); [intros; by apply drop_inv_step|].
  split; try done.
  - apply NoDup_range_set.
  - apply gt_frame_set, gt_frame_refl.
  - rewrite gt_get_set. eapply table_ok_iff; [|by apply ot_forget_ok].
    intros o' k'. simpl. by rewrite elem_of_range_set.
  - rewrite gt_get_set. simpl. apply lookup_delete_eq.
  - right. by rewrite gt_snap, gt_get_set.
  - intros. by rewrite gt_get_set.
  - by rewrite gt_get_set.
  - intros s _ _. unfold gt_synced. by rewrite gt_get_set.
Qed.

End global.

(** The global operations are the generic ones. *)
Lemma AnnounceNat_gt {ro : RangeOrder} origin b : AnnounceNat origin b = gt_announce origin b.
Proof. reflexivity. Qed.
Lemma AnnouncePublic_gt {ro : RangeOrder} origin p : AnnouncePublic origin p = gt_announce origin p.
Proof. reflexivity. Qed.
Lemma dropOriginNat_gt {ro : RangeOrder} origin : dropOriginNat origin = gt_drop (K := natKey) origin.
Proof. reflexivity. Qed.
Lemma dropOriginPublic_gt {ro : RangeOrder} origin : dropOriginPublic origin = gt_drop (K := publicKey) origin.
Proof. reflexivity. Qed.

(** ** Dropping an origin *)

Section drop.
Context {ro : RangeOrder}.

(** The route part of [dropOriginLocked]. *)
Definition drop_routes (origin : string) (l : list routeKey) : SW RIB SinkOut :=
  sw_loop (fun k => withdrawRouteOrigin k origin) l.

Record drop_routes_inv (origin : string) (r0 : RIB) (l : list routeKey) (r : RIB) : Prop := {
  dr_frame : r = with_routes (routes r) r0;
  dr_nonempty : no_empty (routes r);
  dr_origins : ∀ k, origins_at (routes r) k =
    if decide (k ∈ l) then origins_at (routes r0) k else delete origin (origins_at (routes r0) k)
}.

Lemma drop_routes_spec (origin : string) (l : list routeKey) (r : RIB) :
  NoDup l → no_empty (routes r) → (∀ k, k ∉ l → origins_at (routes r) k !! origin = None) →
  drop_routes_inv origin r [] (drop_routes origin l r).1.
Proof.
  intros Hnd Hne Hl. unfold drop_routes.
  apply (sw_loop_ind (fun l r' _ => NoDup l ∧ drop_routes_inv origin r l r') _ _ _ []).
  - intros k l' r' _ [Hnd' [Hf Hne' Ho]]. apply NoDup_cons in Hnd' as [Hk Hnd']. split; [done|]. split.
    + rewrite withdrawRouteOrigin_frame. simpl. rewrite Hf at 2. by destruct r.
    + by apply withdrawRouteOrigin_no_empty.
    + intros k'. rewrite withdrawRouteOrigin_routes, (Ho k').
      repeat case_decide; rewrite ?elem_of_cons in *; try done; subst; try tauto; try congruence.
      destruct H0; congruence.
  - split; [done|]. split; [by destruct r|done|].
    intros k. case_decide as Hk; [done|]. by rewrite delete_id by auto.
Qed.

Lemma dropOriginLocked_eq (origin : string) (r : RIB) :
  (dropOriginLocked origin r).1 =
  let owned := default ∅ (byOrigin r !! origin) in
  let r1 := (drop_routes origin (range_set owned) (with_byOrigin (delete origin (byOrigin r)) r)).1 in
  let r2 := with_subscribers (drop_subscriptions origin (subscribers r1)) r1 in
  (dropOriginPublic origin (dropOriginNat origin r2).1).1.
Proof. unfold dropOriginLocked. rewrite sw_seq_eq. cbn [fst]. rewrite sw_seq_eq. cbn [fst]. by rewrite sw_seq_eq. Qed.

(** After a drop, nothing of the origin is left and nothing else changed. *)
Record dropped (origin : string) (r r' : RIB) : Prop := {
  d_routes : ∀ k, origins_at (routes r') k = delete origin (origins_at (routes r) k);
  d_nonempty : no_empty (routes r');
  d_byOrigin : byOrigin r' = delete origin (byOrigin r);
  d_subs : subscribers r' = drop_subscriptions origin (subscribers r);
  d_nat : table_wf nat_key (natT r');
  d_nat_keep : ∀ k, orig (natT r) !! k ≠ Some origin →
    tab (natT r') !! k = tab (natT r) !! k ∧ orig (natT r') !! k = orig (natT r) !! k;
  d_nat_mono : tab (natT r') ⊆ tab (natT r) ∧ orig (natT r') ⊆ orig (natT r);
  d_nat_by : byOrig (natT r') !! origin = None;
  d_public : table_wf public_key (publicT r');
  d_public_keep : ∀ k, orig (publicT r) !! k ≠ Some origin →
    tab (publicT r') !! k = tab (publicT r) !! k ∧ orig (publicT r') !! k = orig (publicT r) !! k;
  d_public_mono : tab (publicT r') ⊆ tab (publicT r) ∧ orig (publicT r') ⊆ orig (publicT r);
  d_public_by : byOrig (publicT r') !! origin = None;
  d_snap : snap_ok (globalSnap r') (tab (natT r')) (tab (publicT r'));
  d_sinks : sinks r' = sinks r;
  d_fenced : fenced r' = fenced r;
  d_tokens : Rib.origins r' = Rib.origins r ∧ nextToken r' = nextToken r
}.

Lemma dropped_of (origin : string) (r : RIB) :
  rib_wf r → dropped origin r (dropOriginLocked origin r).1.
Proof.
  intros [Hne Hidx Hsub Hnat Hpub Hsink Hsnap Hfen]. rewrite dropOriginLocked_eq. cbv zeta.
  set (r0 := with_byOrigin (delete origin (byOrigin r)) r).
  set (owned := range_set (default ∅ (byOrigin r !! origin))).
  destruct (drop_routes_spec origin owned r0) as [Hf1 Hne1 Ho1]; [apply NoDup_range_set|done| |].
  { intros k Hk. unfold owned in Hk. rewrite elem_of_range_set in Hk.
    apply eq_None_not_Some. intros Hs. apply Hidx in Hs as [?|[]]. done. }
  set (r1 := (drop_routes origin owned r0).1) in *.
  set (r2 := with_subscribers _ r1).
  assert (Hn2 : natT r2 = natT r) by (unfold r2; rewrite Hf1; done).
  assert (Hp2 : publicT r2 = publicT r) by (unfold r2; rewrite Hf1; done).
  assert (Hs2 : globalSnap r2 = globalSnap r) by (unfold r2; rewrite Hf1; done).
  rewrite dropOriginNat_gt, dropOriginPublic_gt.
  destruct (gt_drop_spec (K := natKey) origin r2) as [_ Hfn Hokn Hbyn Hsnn Hkn Hmn _ _];
    [by change (table_wf nat_key (natT r2)); rewrite Hn2|].
  set (r3 := (gt_drop (K := natKey) origin r2).1) in *.
  assert (Hp3 : publicT r3 = publicT r) by (rewrite Hfn; exact Hp2).
  destruct (gt_drop_spec (K := publicKey) origin r3) as [_ Hfp Hokp Hbyp Hsnp Hkp Hmp _ _];
    [by change (table_wf public_key (publicT r3)); rewrite Hp3|].
  set (r4 := (gt_drop (K := publicKey) origin r3).1) in *.
  assert (Hn4 : natT r4 = natT r3) by (by rewrite Hfp).
  assert (Hrest : routes r4 = routes r1 ∧ byOrigin r4 = byOrigin r0 ∧ subscribers r4 = drop_subscriptions origin (subscribers r) ∧
    sinks r4 = sinks r ∧ fenced r4 = fenced r ∧ Rib.origins r4 = Rib.origins r ∧ nextToken r4 = nextToken r).
  { rewrite Hfp, Hfn. unfold r2. simpl. rewrite Hf1. by destruct r. }
  destruct Hrest as (Hr & Hb & Hs & Hsk & Hfe & Hto & Hnt).
  split; try done.
  - intros k. rewrite Hr, Ho1, decide_False; [done|apply not_elem_of_nil].
  - by rewrite Hr.
  - rewrite Hn4. eapply table_ok_iff; [|exact Hokn]. intros; simpl. rewrite elem_of_nil. unfold none_of. tauto.
  - rewrite Hn4, <-Hn2. exact Hkn.
  - rewrite Hn4, <-Hn2. exact Hmn.
  - rewrite Hn4. exact Hbyn.
  - eapply table_ok_iff; [|exact Hokp]. intros; simpl. rewrite elem_of_nil. unfold none_of. tauto.
  - rewrite <-Hp3. exact Hkp.
  - rewrite <-Hp3. exact Hmp.
  - intros snap Hsn. destruct Hsnp as [?|[Hsnp Htp]]; [congruence|].
    destruct Hsnn as [?|[Hsnn Htn]]; [congruence|]. cbn [gt_get nat_table public_table] in *.
    rewrite Hn4, Htp, Htn, Hn2, Hp3. apply Hsnap. congruence.
Qed.

End drop.

(** ** Every operation preserves the invariant *)

Lemma NewRIB_wf : rib_wf NewRIB.
Proof.
  assert (Hi : ∀ (K V : Type) `{Countable K} (kf : V → K), table_wf kf emptyTable).
  { intros. split; simpl; [by intros|by intros; rewrite !lookup_empty|].
    intros. rewrite !lookup_empty. split; [done|]. by intros [?%elem_of_empty|[]]. }
  split; simpl; try apply Hi; try (by intros ??); try by intros ???.
  intros o k. unfold origins_at. rewrite !lookup_empty. simpl. rewrite lookup_empty. split; [by intros []|].
  by intros [?%elem_of_empty|[]].
Qed.

Section wf.
Context {ro : RangeOrder}.

Lemma sinks_ok_delete (m : gmap string Sink) (id : string) : sinks_ok m → sinks_ok (delete id m).
Proof. intros Hok i s Hs. apply lookup_delete_Some in Hs as [_ ?]. eauto. Qed.

Lemma sinks_ok_insert (m : gmap string Sink) (s : Sink) : sinks_ok m → sinks_ok (<[sink_id s := s]> m).
Proof. intros Hok i s' Hs. apply lookup_insert_Some in Hs as [[<- <-]|[_ ?]]; eauto. Qed.

Lemma subs_ok_default (m : gmap Z (gmap string Sink)) (vni : Z) : subs_ok m → sinks_ok (default ∅ (m !! vni)).
Proof. intros Hok. destruct (m !! vni) as [subs|] eqn:Hm; [by eapply Hok|by intros ??]. Qed.

Lemma Subscribe_wf vni s r : rib_wf r → rib_wf (Subscribe vni s r).1.
Proof.
  intros []. unfold Subscribe. case_match; [done|]. split; simpl; try done.
  intros v subs Hv. apply lookup_insert_Some in Hv as [[<- <-]|[_ ?]]; [|eauto].
  split; [apply insert_non_empty|]. apply sinks_ok_insert, subs_ok_default. done.
Qed.

Lemma Unsubscribe_wf vni id r : rib_wf r → rib_wf (Unsubscribe vni id r).1.
Proof.
  intros []. split; simpl; try done. unfold unsub. destruct (subscribers r !! vni) as [subs|] eqn:Hv; [|done].
  case_decide as Hs; intros v subs' Hv'.
  - apply lookup_delete_Some in Hv' as [_ ?]. eauto.
  - apply lookup_insert_Some in Hv' as [[<- <-]|[_ ?]]; [|eauto]. split.
    + intros He. apply Hs. by rewrite He.
    + apply sinks_ok_delete. by eapply wf_subs0.
Qed.

Lemma drop_subscriptions_ok (m : gmap Z (gmap string Sink)) origin : subs_ok m → subs_ok (drop_subscriptions origin m).
Proof.
  intros Hok vni subs. unfold drop_subscriptions. rewrite lookup_omap_Some.
  intros (subs0 & Hd & Hm). case_decide as Hs; simplify_eq. split.
  - intros He. apply Hs. by rewrite He.
  - apply sinks_ok_delete. by eapply Hok.
Qed.

Lemma Announce_wf o vni p nhs ext r : rib_wf r → rib_wf (Announce o vni p nhs ext r).1.
Proof.
  intros []. unfold Announce. split; simpl; try done.
  - intros k e Hk. apply lookup_insert_Some in Hk as [[<- <-]|[_ ?]]; [|eauto]. apply insert_non_empty.
  - by apply Announce_indexed.
Qed.

Lemma Withdraw_wf o vni p r : rib_wf r → rib_wf (Withdraw o vni p r).1.
Proof.
  intros []. unfold Withdraw. set (k := mkKey vni p). set (by_ := alter _ _ _).
  rewrite withdrawRouteOrigin_frame. split; simpl; try done.
  - by apply withdrawRouteOrigin_no_empty.
  - eapply indexed_iff; [|apply (withdrawRouteOrigin_indexed _ _ _ _ (fun o' k' => (o' = o ∧ k' = k) ∧ k ∈ default ∅ (byOrigin r !! o)))].
    + unfold nothing. tauto.
    + unfold by_. rewrite lookup_alter_eq. destruct (byOrigin r !! o); simpl; set_solver.
    + intros o' k'. simpl. 
      assert (Hi := wf_index0 o' k'). unfold nothing in Hi. unfold by_.
      destruct (decide (o' = o)) as [->|].
      * rewrite lookup_alter_eq. destruct (byOrigin r !! o) eqn:Hb; simpl in *; solve_index k k'.
      * rewrite lookup_alter_ne by done. naive_solver.
Qed.

Lemma build_global_replay r : is_replay (tab (natT r)) (tab (publicT r)) (build_global r).
Proof. unfold is_replay, build_global, global_records. eexists. split; [|done]. by rewrite !range_map_perm. Qed.

Lemma globalSnapshotLocked_spec r :
  rib_wf r → rib_wf (globalSnapshotLocked r).1 ∧
  is_replay (tab (natT r)) (tab (publicT r)) (globalSnapshotLocked r).2 ∧
  (globalSnapshotLocked r).1 = with_globalSnap (globalSnap (globalSnapshotLocked r).1) r.
Proof.
  intros Hwf. pose proof Hwf as []. unfold globalSnapshotLocked. destruct (globalSnap r) as [snap|] eqn:Hs; simpl.
  - split_and!; [done|eauto|]. by destruct r.
  - split_and!; [|apply build_global_replay|done]. split; simpl; try done.
    intros snap [= <-]. apply build_global_replay.
Qed.

Lemma with_sinks_wf m r : sinks_ok m → rib_wf r → rib_wf (with_sinks m r).
Proof. intros ? []. by split. Qed.

Lemma with_tokens_wf m n r : rib_wf r → rib_wf (with_tokens m n r).
Proof. intros []. by split. Qed.

Lemma RegisterSink_wf s r : rib_wf r → rib_wf (RegisterSink s r).1.
Proof.
  intros Hwf. unfold RegisterSink.
  destruct (globalSnapshotLocked_spec (with_sinks (<[sink_id s := s]> (sinks r)) r)) as [Hw _].
  { apply with_sinks_wf; [|done]. apply sinks_ok_insert. apply Hwf. }
  by destruct (globalSnapshotLocked _).
Qed.

Lemma AnnounceNat_wf o b r : rib_wf r → rib_wf (AnnounceNat o b r).1.
Proof. intros []. split; simpl; try done. by apply ot_announce_ok. Qed.

Lemma AnnouncePublic_wf o p r : rib_wf r → rib_wf (AnnouncePublic o p r).1.
Proof. intros []. split; simpl; try done. by apply ot_announce_ok. Qed.

(** A withdraw of a record either does nothing or is the origin's own. *)
Lemma WithdrawNat_cases o ip lo hi permit r :
  rib_wf r →
  (WithdrawNat o ip lo hi permit r).1 = (r, []) ∨
  ∃ b, nat_key b = mkNatKey ip lo ∧ tab (natT r) !! nat_key b = Some b ∧ orig (natT r) !! nat_key b = Some o ∧
       allows permit (nb_OwnerUnderlay b) = true ∧
       (WithdrawNat o ip lo hi permit r).1 = gt_withdraw o (nat_key b) b r.
Proof.
  intros Hwf. unfold WithdrawNat. destruct (tab (natT r) !! mkNatKey ip lo) as [b|] eqn:Hb; [|by left].
  case_decide as Ho; [by left|]. destruct (allows permit _) eqn:Ha; [|by left]. right. exists b.
  assert (Hk : nat_key b = mkNatKey ip lo) by by eapply (tok_key _ _ _ (wf_nat _ Hwf)).
  rewrite Hk. split_and!; try done. eapply orig_default; [apply Hwf|done|]. by destruct (decide (default "" (orig (natT r) !! mkNatKey ip lo) = o)).
Qed.

Lemma WithdrawPublic_cases o p permit r :
  rib_wf r →
  (WithdrawPublic o p permit r).1 = (r, []) ∨
  ∃ q, public_key q = public_key p ∧ tab (publicT r) !! public_key q = Some q ∧ orig (publicT r) !! public_key q = Some o ∧
       allows permit (pp_OwnerUnderlay q) = true ∧
       (WithdrawPublic o p permit r).1 = gt_withdraw o (public_key q) q r.
Proof.
  intros Hwf. unfold WithdrawPublic. destruct (tab (publicT r) !! public_key p) as [q|] eqn:Hb; [|by left].
  case_decide as Ho; [by left|]. destruct (allows permit _) eqn:Ha; [|by left]. right. exists q.
  assert (Hk : public_key q = public_key p) by by eapply (tok_key _ _ _ (wf_public _ Hwf)).
  rewrite Hk. split_and!; try done. eapply orig_default; [apply Hwf|done|]. by destruct (decide (default "" (orig (publicT r) !! public_key p) = o)).
Qed.

Lemma WithdrawNat_wf o ip lo hi permit r : rib_wf r → rib_wf (WithdrawNat o ip lo hi permit r).1.1.
Proof.
  intros Hwf. destruct (WithdrawNat_cases o ip lo hi permit r Hwf) as [->|(b & _ & _ & Ho & _ & ->)]; [done|].
  destruct Hwf. split; simpl; try done. by apply ot_withdraw_ok.
Qed.

Lemma WithdrawPublic_wf o p permit r : rib_wf r → rib_wf (WithdrawPublic o p permit r).1.1.
Proof.
  intros Hwf. destruct (WithdrawPublic_cases o p permit r Hwf) as [->|(b & _ & _ & Ho & _ & ->)]; [done|].
  destruct Hwf. split; simpl; try done. by apply ot_withdraw_ok.
Qed.

Lemma dropOriginLocked_wf o r : rib_wf r → rib_wf (dropOriginLocked o r).1.
Proof.
  intros Hwf. pose proof (dropped_of o r Hwf) as []. destruct Hwf. split; try done.
  - rewrite d_byOrigin0. intros o' k. rewrite d_routes0. pose proof (wf_index0 o' k) as Hi. unfold nothing in *.
    destruct (decide (o' = o)) as [->|].
    + rewrite !lookup_delete_eq, is_Some_alt. set_solver.
    + by rewrite !lookup_delete_ne.
  - rewrite d_subs0. by apply drop_subscriptions_ok.
  - by rewrite d_sinks0.
  - by rewrite d_fenced0.
Qed.

Lemma ClaimOrigin_wf n r : rib_wf r → rib_wf (ClaimOrigin n r).1.1.
Proof.
  intros Hwf. unfold ClaimOrigin. destruct (Rib.origins r !! n); simpl.
  - apply dropOriginLocked_wf, with_sinks_wf; [apply sinks_ok_delete, Hwf|]. by apply with_tokens_wf.
  - by apply with_tokens_wf.
Qed.

Lemma ReleaseOrigin_wf n t r : rib_wf r → rib_wf (ReleaseOrigin n t r).1.
Proof.
  intros Hwf. unfold ReleaseOrigin. case_decide; [|done].
  apply dropOriginLocked_wf, with_sinks_wf; [apply sinks_ok_delete, Hwf|]. by apply with_tokens_wf.
Qed.

Lemma fenceKey_Some p key n : fenceKey p = Some (key, n) → key = net.IPNet_String n.
Proof. unfold fenceKey. destruct (net.ParseCIDR p) as [[??]|]; simpl; [|done]. by intros [= <- <-]. Qed.

Lemma refilter_wf f r : fences_ok f → rib_wf r → rib_wf (refilter f r).1.
Proof. intros ? []. by split. Qed.

Lemma SetFence_wf p r : rib_wf r → rib_wf (SetFence p r).1.
Proof.
  intros Hwf. unfold SetFence. destruct (fenceKey p) as [[key n]|] eqn:Hk; [|done]. case_decide; [done|].
  apply refilter_wf; [|done]. intros k' n' Hk'. apply lookup_insert_Some in Hk' as [[<- <-]|[_ ?]].
  - by eapply fenceKey_Some.
  - by apply (wf_fences _ Hwf).
Qed.

Lemma ClearFence_wf p r : rib_wf r → rib_wf (ClearFence p r).1.
Proof.
  intros Hwf. unfold ClearFence. destruct (fenceKey p) as [[key n]|] eqn:Hk; [|done]. case_decide; [|done].
  apply refilter_wf; [|done]. intros k' n' Hk'. apply lookup_delete_Some in Hk' as [_ ?].
  by apply (wf_fences _ Hwf).
Qed.

Lemma step_wf (op : RibOp) r : rib_wf r → rib_wf (rib_step op r).1.
Proof.
  intros Hwf. destruct op; cbn [rib_step]; auto using Subscribe_wf, Unsubscribe_wf, Announce_wf, Withdraw_wf, RegisterSink_wf,
    AnnounceNat_wf, AnnouncePublic_wf, WithdrawNat_wf, WithdrawPublic_wf, ClaimOrigin_wf, ReleaseOrigin_wf,
    dropOriginLocked_wf, SetFence_wf, ClearFence_wf.
  apply with_sinks_wf; [|done]. apply sinks_ok_delete, Hwf.
Qed.

End wf.

Lemma rib_run_cons ro op ops r :
  rib_run ((ro, op) :: ops) r =
  ((rib_run ops (rib_step (ro := ro) op r).1).1,
   (rib_step (ro := ro) op r).2 ++ (rib_run ops (rib_step (ro := ro) op r).1).2).
Proof. simpl. destruct (rib_step op r). simpl. by destruct (rib_run ops r0). Qed.

Lemma run_wf ops r : rib_wf r → rib_wf (rib_run ops r).1.
Proof.
  revert r. induction ops as [|[ro op] ops IH]; intros r Hwf; [done|].
  rewrite rib_run_cons. simpl. apply IH. by apply step_wf.
Qed.
