(* ===== verification/RibView.v ===== *)
(** * What a subscriber of the reflector knows

    A subscriber that replays the messages it is sent holds exactly the routes
    the reflector advertises, for every key it does not itself originate, across
    any interleaving of the other sessions' operations and the failover fences
    ([subscriber_view]); the fences hide what they should and nothing else. *)

From S2P Require Import Prelude Net Wire Rib RibFacts.

Open Scope Z_scope.

(** ** The replay of route updates *)

Abbreviation RouteView := (gmap routeKey (list string)).

(** What one message does to a copy of the routes. *)
Definition apply_route (vw : RouteView) (m : ServerMsg) : RouteView :=
  match m with
  | MRouteUpdate u =>
      let k := mkKey (ru_Vni u) (ru_Prefix u) in
      match ru_Op u with
      | ROUTE_OP_ADD => <[k := ru_Nexthops u]> vw
      | ROUTE_OP_WITHDRAW => delete k vw
      | ROUTE_OP_UNSPECIFIED => vw
      end
  | _ => vw
  end.

Definition replay (vw : RouteView) (ms : list ServerMsg) : RouteView := foldl apply_route vw ms.

(** A key with no nexthop is not advertised. *)
Definition as_view (nhs : list string) : option (list string) :=
  match nhs with [] => None | _ => Some nhs end.

Definition shown (r : RIB) (k : routeKey) : option (list string) := as_view (advertised r (entry r k)).

(** [s] is the sink the reflector holds for its id on the key's VNI. *)
Definition subscribed (r : RIB) (vni : Z) (s : Sink) : Prop :=
  default ∅ (subscribers r !! vni) !! sink_id s = Some s.

(** An operation that neither ends the subscription of [s] nor makes [s] an
    origin of [k]. *)
Definition quiet (s : Sink) (k : routeKey) (op : RibOp) : Prop :=
  match op with
  | OpSubscribe v s' => v ≠ rk_vni k ∨ sink_id s' ≠ sink_id s
  | OpUnsubscribe v id => v ≠ rk_vni k ∨ id ≠ sink_id s
  | OpAnnounce o v p _ _ => o ≠ sink_id s ∨ mkKey v p ≠ k
  | OpClaimOrigin n | OpReleaseOrigin n _ | OpDropOrigin n => n ≠ sink_id s
  | _ => True
  end.

(** The subscriber follows the key: it is subscribed, it is not an origin of the
    key, and its copy is what is advertised. *)
Record follows (s : Sink) (k : routeKey) (r : RIB) (vw : RouteView) : Prop := {
  fo_sub : subscribed r (rk_vni k) s;
  fo_origin : origins_at (routes r) k !! sink_id s = None;
  fo_view : vw !! k = shown r k
}.

(** ** The effect of one fanout *)

Lemma replay_app (vw : RouteView) (l1 l2 : list ServerMsg) : replay vw (l1 ++ l2) = replay (replay vw l1) l2.
Proof. apply foldl_app. Qed.

(** Messages about other keys leave a key alone. *)
Definition other_key (k : routeKey) (m : ServerMsg) : Prop :=
  match m with MRouteUpdate u => mkKey (ru_Vni u) (ru_Prefix u) ≠ k | _ => True end.

Lemma replay_other (k : routeKey) (vw : RouteView) (ms : list ServerMsg) :
  Forall (other_key k) ms → replay vw ms !! k = vw !! k.
Proof.
  revert vw. induction ms as [|m ms IH]; intros vw Hm; [done|].
  apply Forall_cons in Hm as [Hm Hms]. cbn. fold (replay (apply_route vw m) ms). rewrite IH by done.
  destruct m as [[v p nhs [] e]| | | | |]; simpl in *; try done; by simplify_map_eq.
Qed.

Lemma Forall_delivered (P : ServerMsg → Prop) (s : Sink) (o : list SinkOut) :
  Forall (fun '(_, c) => Forall P (call_msgs c)) o → Forall P (delivered s o).
Proof.
  intros Ho. unfold delivered. apply Forall_bind. eapply Forall_impl; [exact Ho|].
  intros [s' c] Hc. simpl in *. case_decide; [done|constructor].
Qed.

Section fanout.
Context {ro : RangeOrder}.

Lemma fanout_msgs (r : RIB) k nhs op skip ext :
  Forall (fun '(_, c) => c = Send (routeUpdate k nhs op ext)) (fanout r k nhs op skip ext).
Proof.
  unfold fanout. apply Forall_forall. intros [s c] Hin. apply list_elem_of_omap in Hin as ([id s'] & _ & Hc).
  destruct (skip id); naive_solver.
Qed.

Lemma fanoutChange_other (r : RIB) (k k' : routeKey) before after skip ext s vw :
  k ≠ k' → replay vw (delivered s (fanoutChange r k before after skip ext)) !! k' = vw !! k'.
Proof.
  intros Hk. apply replay_other, Forall_delivered. unfold fanoutChange.
  destruct (equalStrs before after); [constructor|].
  destruct k as [v p]. case_decide; (eapply Forall_impl; [apply fanout_msgs|]); intros [s' c] ->; simpl; by repeat constructor.
Qed.

Lemma delivered_fanout (r : RIB) k nhs op skip ext s :
  subs_ok (subscribers r) → subscribed r (rk_vni k) s → skip (sink_id s) = false →
  delivered s (fanout r k nhs op skip ext) = [routeUpdate k nhs op ext].
Proof.
  intros Hok Hsub Hskip. unfold fanout. rewrite delivered_sends; [|apply NoDup_range_map_fst|].
  - apply decide_True. by rewrite elem_of_range_map.
  - intros id s' Hin%elem_of_range_map. by eapply (subs_ok_default _ (rk_vni k)).
Qed.

Lemma fanoutChange_view (r : RIB) (k : routeKey) before after skip ext s vw :
  subs_ok (subscribers r) → subscribed r (rk_vni k) s → skip (sink_id s) = false → vw !! k = as_view before →
  replay vw (delivered s (fanoutChange r k before after skip ext)) !! k = as_view after.
Proof.
  intros Hok Hsub Hskip Hvw. unfold fanoutChange.
  destruct (equalStrs before after) eqn:He; [apply equalStrs_spec in He as <-; done|].
  destruct k as [v p]. case_decide as Ha; rewrite delivered_fanout by done; cbn.
  - apply nil_length_inv in Ha as ->. apply lookup_delete_eq.
  - rewrite lookup_insert_eq. by destruct after.
Qed.

(** A change of one key, told to [s]: the copy keeps agreeing at every key. *)
Lemma change_view (r r' : RIB) (k k' : routeKey) skip ext s vw :
  subs_ok (subscribers r') → (k = k' → subscribed r' (rk_vni k) s ∧ skip (sink_id s) = false) →
  (k ≠ k' → shown r k' = shown r' k') → vw !! k' = shown r k' →
  replay vw (delivered s (fanoutChange r' k (advertised r (entry r k)) (advertised r' (entry r' k)) skip ext)) !! k' =
  shown r' k'.
Proof.
  intros Hok Hk Hsame Hvw. destruct (decide (k = k')) as [<-|Hne].
  - destruct (Hk eq_refl). by apply fanoutChange_view.
  - rewrite fanoutChange_other by done. rewrite Hvw. auto.
Qed.

(** What is shown for a key depends on its origins and the fences alone. *)
Lemma shown_ext (r r' : RIB) (k : routeKey) :
  fenced r = fenced r' → origins_at (routes r) k = origins_at (routes r') k → shown r k = shown r' k.
Proof. intros Hf Ho. unfold shown. f_equal. by apply advertised_ext. Qed.

(** ** The steps *)

Lemma Announce_follows o vni p nhs ext r s k vw :
  rib_wf r → (o ≠ sink_id s ∨ mkKey vni p ≠ k) → follows s k r vw →
  follows s k (Announce o vni p nhs ext r).1 (replay vw (delivered s (Announce o vni p nhs ext r).2)).
Proof.
  intros Hwf Hq [Hsub Ho Hvw]. unfold Announce. set (k0 := mkKey vni p) in *.
  set (e' := mkEntry _ ext). set (r' := with_byOrigin _ _).
  assert (He : entry r' k0 = e') by (unfold entry; simpl; by rewrite lookup_insert_eq).
  split; simpl.
  - done.
  - rewrite origins_at_insert. case_decide as Hk; [|done]. simpl. destruct Hq as [Hq|]; [|done].
    rewrite lookup_insert_ne by done. by subst k.
  - rewrite <-He. apply change_view; [apply Hwf| |intros Hne|done].
    + intros Hk. split; [by rewrite Hk|]. unfold only. apply bool_decide_eq_false. naive_solver.
    + apply shown_ext; [done|]. simpl. rewrite origins_at_insert, decide_False; done.
Qed.

Lemma withdrawRouteOrigin_view k0 o r s k vw :
  subs_ok (subscribers r) → subscribed r (rk_vni k) s → vw !! k = shown r k →
  replay vw (delivered s (withdrawRouteOrigin k0 o r).2) !! k = shown (withdrawRouteOrigin k0 o r).1 k.
Proof.
  intros Hok Hsub Hvw. pose proof (withdrawRouteOrigin_routes k0 o r) as Hro.
  unfold withdrawRouteOrigin in *. destruct (routes r !! k0) as [e|] eqn:Hk0; [|done].
  destruct (e_origins e !! o) as [nhs|] eqn:Ho; [|done]. cbn [fst snd] in *.
  set (r' := if decide _ then _ else _) in *.
  assert (Hen : entry r k0 = e) by (unfold entry; by rewrite Hk0).
  assert (Hf : fenced r' = fenced r ∧ subscribers r' = subscribers r) by (unfold r'; by case_decide).
  assert (Ha : advertised r' (mkEntry (delete o (e_origins e)) (e_external e)) = advertised r' (entry r' k0)).
  { apply advertised_ext; [done|]. change (delete o (e_origins e) = origins_at (routes r') k0).
    rewrite Hro, decide_True by done. unfold origins_at. by rewrite Hk0. }
  cbn [e_origins] in *. rewrite Ha, <-Hen. apply change_view.
  - by rewrite (proj2 Hf).
  - intros ->. split; [|done]. unfold subscribed. by rewrite (proj2 Hf).
  - intros Hne. apply shown_ext; [by rewrite (proj1 Hf)|]. by rewrite Hro, decide_False.
  - done.
Qed.

Lemma Withdraw_follows o vni p r s k vw :
  rib_wf r → follows s k r vw →
  follows s k (Withdraw o vni p r).1 (replay vw (delivered s (Withdraw o vni p r).2)).
Proof.
  intros Hwf [Hsub Ho Hvw]. unfold Withdraw. set (r0 := with_byOrigin _ r). split.
  - rewrite withdrawRouteOrigin_frame. done.
  - rewrite withdrawRouteOrigin_routes. case_decide; [|done]. rewrite lookup_delete_None. by right.
  - apply withdrawRouteOrigin_view; [apply Hwf|done|]. rewrite Hvw. by apply shown_ext.
Qed.

(** The trace of a drop: the withdrawn routes, then the global records. *)
Lemma dropOriginLocked_out o r :
  (dropOriginLocked o r).2 =
  let r1 := drop_routes o (range_set (default ∅ (byOrigin r !! o))) (with_byOrigin (delete o (byOrigin r)) r) in
  let r2 := with_subscribers (drop_subscriptions o (subscribers r1.1)) r1.1 in
  r1.2 ++ (dropOriginNat o r2).2 ++ (dropOriginPublic o (dropOriginNat o r2).1).2.
Proof.
  unfold dropOriginLocked. rewrite sw_seq_eq. cbn [fst snd]. rewrite sw_seq_eq. cbn [fst snd].
  rewrite sw_seq_eq. cbn [fst snd app]. reflexivity.
Qed.

Lemma drop_routes_view o l r s k vw :
  subs_ok (subscribers r) → subscribed r (rk_vni k) s → vw !! k = shown r k →
  replay vw (delivered s (drop_routes o l r).2) !! k = shown (drop_routes o l r).1 k.
Proof.
  intros Hok Hsub Hvw. unfold drop_routes.
  eapply (sw_loop_ind (fun _ r' o => subs_ok (subscribers r') ∧ subscribed r' (rk_vni k) s ∧
    replay vw (delivered s o) !! k = shown r' k) _ _ _ []); [|done].
  intros k0 _ r' out (Hok' & Hsub' & Hvw'). rewrite delivered_app, replay_app.
  split_and!; [by rewrite withdrawRouteOrigin_frame..|]. by apply withdrawRouteOrigin_view.
Qed.

(** A trace of global records says nothing of any route. *)
Lemma global_msgs_other {K V : Type} `{GlobalTable K V} (k : routeKey) (o : list SinkOut) s vw :
  (∀ (v : V) op, other_key k (gt_msg v op)) →
  Forall (fun '(_, c) => ∃ (v : V) op, c = Send (gt_msg v op)) o → replay vw (delivered s o) !! k = vw !! k.
Proof.
  intros Hm Ho. apply replay_other, Forall_delivered. eapply Forall_impl; [exact Ho|].
  intros [s' c] (v & op & ->). simpl. repeat constructor. apply Hm.
Qed.

Lemma subscribed_drop (m : gmap Z (gmap string Sink)) o s vni :
  o ≠ sink_id s → default ∅ (m !! vni) !! sink_id s = Some s →
  default ∅ (drop_subscriptions o m !! vni) !! sink_id s = Some s.
Proof.
  intros Hne Hs. unfold drop_subscriptions. rewrite lookup_omap. destruct (m !! vni) as [subs|]; simpl in *; [|done].
  case_decide as Hd; simpl; [|by rewrite lookup_delete_ne].
  apply map_size_empty_inv in Hd. assert (delete o subs !! sink_id s = Some s) as Hc by by rewrite lookup_delete_ne.
  by rewrite Hd in Hc.
Qed.

Lemma dropOriginLocked_follows o r s k vw :
  rib_wf r → o ≠ sink_id s → follows s k r vw →
  follows s k (dropOriginLocked o r).1 (replay vw (delivered s (dropOriginLocked o r).2)).
Proof.
  intros Hwf Hne [Hsub Ho Hvw]. pose proof (dropped_of o r Hwf) as Hd. split.
  - unfold subscribed. rewrite (d_subs _ _ _ Hd). by apply subscribed_drop.
  - rewrite (d_routes _ _ _ Hd). by rewrite lookup_delete_ne.
  - assert (Hsh : ∀ r1, drop_routes_inv o (with_byOrigin (delete o (byOrigin r)) r) [] r1 →
      shown r1 k = shown (dropOriginLocked o r).1 k).
    { intros r1 [Hf _ Hor]. apply shown_ext; [by rewrite Hf, (d_fenced _ _ _ Hd)|].
      rewrite Hor, decide_False by apply not_elem_of_nil. by rewrite (d_routes _ _ _ Hd). }
    rewrite dropOriginLocked_out. cbv zeta. rewrite !delivered_app, !replay_app.
    set (l := range_set _). set (r0 := with_byOrigin _ _) in *.
    assert (Hr1 : drop_routes_inv o r0 [] (drop_routes o l r0).1).
    { apply drop_routes_spec; [apply NoDup_range_set|apply Hwf|]. intros k' Hk'. apply eq_None_not_Some.
      intros [?|[]]%(wf_index _ Hwf). apply Hk'. unfold l. by rewrite elem_of_range_set. }
    rewrite <-(Hsh _ Hr1). set (r1 := (drop_routes o l r0).1) in *. set (r2 := with_subscribers _ r1).
    assert (Hn2 : natT r2 = natT r ∧ publicT r2 = publicT r)
      by (unfold r2; destruct Hr1 as [Hf _ _]; rewrite Hf; done).
    destruct (gt_drop_spec (K := natKey) o r2) as [_ Hfn _ _ _ _ _ _ Hmn];
      [change (table_wf nat_key (natT r2)); rewrite (proj1 Hn2); apply Hwf|].
    destruct (gt_drop_spec (K := publicKey) o (gt_drop (K := natKey) o r2).1) as [_ _ _ _ _ _ _ _ Hmp].
    { rewrite Hfn. change (table_wf public_key (publicT r2)). rewrite (proj2 Hn2). apply Hwf. }
    rewrite dropOriginPublic_gt, (global_msgs_other (K := publicKey)); [|done|exact Hmp].
    rewrite dropOriginNat_gt, (global_msgs_other (K := natKey)); [|done|exact Hmn].
    apply drop_routes_view; [apply Hwf|done|]. rewrite Hvw. by apply shown_ext.
Qed.

(** The fences: each key is fanned out at most once, to everyone but its origins. *)
Lemma refilter_view f r s k vw :
  rib_wf r → follows s k r vw →
  follows s k (refilter f r).1 (replay vw (delivered s (refilter f r).2)).
Proof.
  intros Hwf [Hsub Ho Hvw]. split; [done|done|]. unfold refilter. cbn [fst snd]. set (r' := with_fenced f r).
  set (body := fun '(k, e) => _).
  assert (Hoth : ∀ (l : list (routeKey * routeEntry)) vw, k ∉ l.*1 →
    replay vw (delivered s (mjoin (body <$> l))) !! k = vw !! k).
  { intros l. induction l as [|[k0 e0] l IH]; intros vw0 Hk; [done|].
    change (mjoin (body <$> (k0, e0) :: l)) with (body (k0, e0) ++ mjoin (body <$> l)). rewrite delivered_app, replay_app.
    apply not_elem_of_cons in Hk as [Hk0 Hk]. rewrite IH by done. by apply fanoutChange_other. }
  destruct (routes r !! k) as [e|] eqn:Hk.
  - assert (Hin : (k, e) ∈ range_map (routes r')) by by apply elem_of_range_map.
    apply list_elem_of_split in Hin as (l1 & l2 & Hl).
    pose proof (NoDup_range_map_fst (routes r')) as Hnd. rewrite Hl in *.
    rewrite fmap_app, NoDup_app in Hnd. destruct Hnd as (_ & Hd1 & Hnd). cbn in Hnd. apply NoDup_cons in Hnd as [Hn2 _].
    rewrite fmap_app, join_app.
    change (mjoin (body <$> (k, e) :: l2)) with (body (k, e) ++ mjoin (body <$> l2)).
    rewrite !delivered_app, !replay_app.
    rewrite Hoth by done. unfold shown, entry in *. simpl. rewrite Hk in *. cbn in *. apply fanoutChange_view; [apply Hwf|done| |].
    + unfold originsOf. apply bool_decide_eq_false. unfold origins_at in Ho. rewrite Hk in Ho. cbn in Ho.
      rewrite Ho. by intros [].
    + rewrite Hoth; [done|]. intros Hin. apply (Hd1 k Hin). left.
  - rewrite Hoth.
    + rewrite Hvw. unfold shown, entry. simpl. rewrite Hk. by rewrite !advertised_empty.
    + intros ([k0 e0] & -> & Hin%elem_of_range_map)%list_elem_of_fmap. simpl in *. congruence.
Qed.

End fanout.

(** ** The snapshot *)

Section snapshot.
Context {ro : RangeOrder}.

Lemma elem_of_vni_keys (vni : Z) (r : RIB) (k : routeKey) :
  k ∈ vni_keys vni r ↔ rk_vni k = vni ∧ is_Some (routes r !! k).
Proof.
  unfold vni_keys. rewrite list_elem_of_fmap. setoid_rewrite elem_of_sort_strings.
  setoid_rewrite list_elem_of_fmap. setoid_rewrite list_elem_of_filter. setoid_rewrite list_elem_of_fmap. split.
  - intros (p & -> & k1 & -> & Hv & [k' e] & Hk & Hin%elem_of_map_to_list). simpl in Hk. subst k' vni.
    destruct k1. split; [done|by eexists].
  - intros [<- [e He]]. destruct k as [v p]. exists p. split; [done|]. exists (mkKey v p). split; [done|].
    split; [done|]. exists (mkKey v p, e). by rewrite elem_of_map_to_list.
Qed.

(** One record of a snapshot. *)
Definition snapshot_record (r : RIB) (k : routeKey) : option ServerMsg :=
  if decide (length (advertised r (entry r k)) = 0%nat) then None
  else Some (routeUpdate k (advertised r (entry r k)) ROUTE_OP_ADD (e_external (entry r k))).

Lemma snapshot_records_omap (vni : Z) (r : RIB) : snapshot_records vni r = omap (snapshot_record r) (vni_keys vni r).
Proof. reflexivity. Qed.

Lemma vni_keys_sorted (vni : Z) (r : RIB) :
  StronglySorted (fun k1 k2 => String.le (rk_prefix k1) (rk_prefix k2) ∧ rk_prefix k1 ≠ rk_prefix k2) (vni_keys vni r).
Proof.
  unfold vni_keys. eapply StronglySorted_fmap; [|apply sort_strings_strict]; [done|].
  apply NoDup_fmap_2_strong; [|by apply NoDup_filter, NoDup_fst_map_to_list].
  intros [v1 p1] [v2 p2] [? _]%list_elem_of_filter [? _]%list_elem_of_filter ?. simpl in *. congruence.
Qed.

Lemma snapshot_sorted (vni : Z) (r : RIB) :
  StronglySorted (fun m1 m2 => match m1, m2 with
    | MRouteUpdate u1, MRouteUpdate u2 => String.le (ru_Prefix u1) (ru_Prefix u2) ∧ ru_Prefix u1 ≠ ru_Prefix u2
    | _, _ => False end) (snapshot_records vni r).
Proof.
  rewrite snapshot_records_omap. eapply StronglySorted_omap; [|apply vni_keys_sorted].
  intros k1 k2 m1 m2 Hk. unfold snapshot_record. repeat case_decide; intros; simplify_eq/=. done.
Qed.

Lemma snapshot_view (r : RIB) (k : routeKey) (l : list routeKey) (vw : RouteView) :
  (vw !! k = None ∧ k ∈ l) ∨ vw !! k = shown r k →
  replay vw (omap (snapshot_record r) l) !! k = shown r k.
Proof.
  revert vw. induction l as [|k0 l IH]; intros vw Hvw.
  - destruct Hvw as [[_ Hk]|Hvw]; [by apply not_elem_of_nil in Hk|done].
  - change (omap (snapshot_record r) (k0 :: l)) with
      (match snapshot_record r k0 with Some m => m :: omap (snapshot_record r) l | None => omap (snapshot_record r) l end).
    unfold snapshot_record at 1. case_decide as Ha.
    + apply IH. rewrite elem_of_cons in Hvw. destruct Hvw as [[Hn [->|Hk]]|]; [right|by left|by right].
      apply nil_length_inv in Ha. unfold shown. by rewrite Ha.
    + apply IH. destruct k0 as [v p]. cbn. destruct (decide (k = mkKey v p)) as [->|Hne].
      * right. rewrite lookup_insert_eq. unfold shown. by destruct (advertised r (entry r (mkKey v p))).
      * rewrite lookup_insert_ne by done. rewrite elem_of_cons in Hvw. naive_solver.
Qed.

(** The sink is new to the VNI: not the very one the reflector already holds. *)
Definition fresh_sub (r : RIB) (vni : Z) (s : Sink) : Prop :=
  ∀ s', default ∅ (subscribers r !! vni) !! sink_id s = Some s' → sink_ptr s' ≠ sink_ptr s.

Lemma Subscribe_fresh (r : RIB) (vni : Z) (s : Sink) :
  fresh_sub r vni s →
  Subscribe vni s r =
  (with_subscribers (<[vni := <[sink_id s := s]> (default ∅ (subscribers r !! vni))]> (subscribers r)) r,
   [(s, SendSnapshot (snapshot_records vni r ++ [MEndOfRIB vni (u32 (Z.of_nat (length (snapshot_records vni r))))]))]).
Proof.
  intros Hf. unfold Subscribe. destruct (_ !! sink_id s) as [held|] eqn:Hh; [|done].
  by rewrite bool_decide_eq_false_2 by by apply Hf.
Qed.

Lemma Subscribe_follows (r : RIB) (s : Sink) (k : routeKey) :
  fresh_sub r (rk_vni k) s → origins_at (routes r) k !! sink_id s = None →
  follows s k (Subscribe (rk_vni k) s r).1 (replay ∅ (delivered s (Subscribe (rk_vni k) s r).2)).
Proof.
  intros Hf Ho. rewrite Subscribe_fresh by done. split; cbn [fst snd].
  - unfold subscribed. simpl. rewrite lookup_insert_eq. simpl. by rewrite lookup_insert_eq.
  - done.
  - cbn. rewrite decide_True by done. rewrite app_nil_r, replay_app, snapshot_records_omap. cbn.
    rewrite (snapshot_view r).
    + by apply shown_ext.
    + destruct (routes r !! k) eqn:Hk; [left|right].
      * rewrite lookup_empty, elem_of_vni_keys, Hk. naive_solver.
      * unfold shown, entry. rewrite Hk. by rewrite advertised_empty.
Qed.

(** ** Every quiet operation is followed *)

Lemma follows_same (s : Sink) (k : routeKey) (r r' : RIB) (vw : RouteView) :
  routes r' = routes r → subscribers r' = subscribers r → fenced r' = fenced r →
  follows s k r vw → follows s k r' vw.
Proof.
  intros Hr Hs Hf [Hsub Ho Hvw]. split.
  - unfold subscribed. by rewrite Hs.
  - by rewrite Hr.
  - rewrite Hvw. apply shown_ext; [done|by rewrite Hr].
Qed.

(** The copy may change at other keys. *)
Lemma follows_view (s : Sink) (k : routeKey) (r : RIB) (vw vw' : RouteView) :
  vw' !! k = vw !! k → follows s k r vw → follows s k r vw'.
Proof. intros Hv [Hsub Ho Hvw]. split; [done..|congruence]. Qed.

Lemma broadcast_follows (m : ServerMsg) (r r0 : RIB) s k vw :
  other_key k m → routes r = routes r0 → subscribers r = subscribers r0 → fenced r = fenced r0 → follows s k r0 vw →
  follows s k (broadcast m r).1 (replay vw (delivered s (broadcast m r).2)).
Proof.
  intros Hm ???. intros Hfo. eapply follows_view; [|by eapply follows_same; [..|exact Hfo]].
  apply replay_other, Forall_delivered. cbn. apply Forall_fmap, Forall_true. intros [??]. simpl. by repeat constructor.
Qed.

Lemma Subscribe_other_follows vni s' r s k vw :
  vni ≠ rk_vni k ∨ sink_id s' ≠ sink_id s → follows s k r vw →
  follows s k (Subscribe vni s' r).1 (replay vw (delivered s (Subscribe vni s' r).2)).
Proof.
  intros Hq Hfo. unfold Subscribe. set (dup := match _ with Some _ => _ | None => _ end).
  destruct dup; [done|]. destruct Hfo as [Hsub Ho Hvw]. split; cbn [fst snd].
  - unfold subscribed in *. simpl. destruct (decide (vni = rk_vni k)) as [->|].
    + rewrite lookup_insert_eq. simpl. rewrite lookup_insert_ne; [done|]. naive_solver.
    + by rewrite lookup_insert_ne.
  - done.
  - transitivity (vw !! k); [|rewrite Hvw; by apply shown_ext].
    destruct (decide (s' = s)) as [->|Hss]; [|by cbn; rewrite decide_False by done].
    apply replay_other, Forall_delivered. constructor; [|constructor]. cbn. apply Forall_app. split; [|by repeat constructor].
    rewrite snapshot_records_omap. apply Forall_forall. intros m (k0 & Hk0 & Hm)%list_elem_of_omap.
    apply elem_of_vni_keys in Hk0 as [<- _]. unfold snapshot_record in Hm. case_decide; simplify_eq/=.
    destruct Hq as [Hq|]; [|done]. intros <-. by destruct k0.
Qed.

Lemma Unsubscribe_follows vni id r s k vw :
  vni ≠ rk_vni k ∨ id ≠ sink_id s → follows s k r vw → follows s k (Unsubscribe vni id r).1 vw.
Proof.
  intros Hq [Hsub Ho Hvw]. split; [|done|done]. unfold subscribed, Unsubscribe, unsub in *. simpl.
  destruct (subscribers r !! vni) as [subs|] eqn:Hs; [|done].
  destruct (decide (vni = rk_vni k)) as [->|Hne].
  - destruct Hq as [|Hq]; [done|]. rewrite Hs in Hsub. simpl in Hsub.
    assert (Hd : delete id subs !! sink_id s = Some s) by by rewrite lookup_delete_ne.
    case_decide as Hz; [|by rewrite lookup_insert_eq]. apply map_size_empty_inv in Hz. by rewrite Hz in Hd.
  - case_decide; [by rewrite lookup_delete_ne|by rewrite lookup_insert_ne].
Qed.

Lemma WithdrawNat_follows o ip lo hi permit r s k vw :
  rib_wf r → follows s k r vw →
  follows s k (WithdrawNat o ip lo hi permit r).1.1 (replay vw (delivered s (WithdrawNat o ip lo hi permit r).1.2)).
Proof.
  intros Hwf Hfo. destruct (WithdrawNat_cases o ip lo hi permit r Hwf) as [->|(b & _ & _ & _ & _ & ->)]; [done|].
  by eapply broadcast_follows; [..|exact Hfo].
Qed.

Lemma WithdrawPublic_follows o p permit r s k vw :
  rib_wf r → follows s k r vw →
  follows s k (WithdrawPublic o p permit r).1.1 (replay vw (delivered s (WithdrawPublic o p permit r).1.2)).
Proof.
  intros Hwf Hfo. destruct (WithdrawPublic_cases o p permit r Hwf) as [->|(b & _ & _ & _ & _ & ->)]; [done|].
  by eapply broadcast_follows; [..|exact Hfo].
Qed.

Lemma RegisterSink_follows s' r s k vw :
  rib_wf r → follows s k r vw →
  follows s k (RegisterSink s' r).1 (replay vw (delivered s (RegisterSink s' r).2)).
Proof.
  intros Hwf Hfo. unfold RegisterSink. set (r0 := with_sinks _ r).
  destruct (globalSnapshotLocked_spec r0) as (_ & (recs & Hp & Hsnap) & Hfr).
  { apply with_sinks_wf; [|done]. apply sinks_ok_insert, Hwf. }
  destruct (globalSnapshotLocked r0) as [r' snap]. cbn [fst snd] in *.
  eapply follows_view; [|eapply follows_same; [..|exact Hfo]]; [|by rewrite Hfr..].
  apply replay_other, Forall_delivered. constructor; [|constructor]. cbn. rewrite Hsnap, Hp.
  apply Forall_app. split; [|by repeat constructor]. unfold global_records.
  apply Forall_app. split; apply Forall_fmap, Forall_true; by intros [??].
Qed.

Lemma ClaimOrigin_follows n r s k vw :
  rib_wf r → n ≠ sink_id s → follows s k r vw →
  follows s k (ClaimOrigin n r).1.1 (replay vw (delivered s (ClaimOrigin n r).1.2)).
Proof.
  intros Hwf Hn Hfo. unfold ClaimOrigin. destruct (Rib.origins r !! n); cbn [fst snd].
  - apply dropOriginLocked_follows; [|done|by eapply follows_same; [..|exact Hfo]].
    apply with_sinks_wf; [apply sinks_ok_delete, Hwf|by apply with_tokens_wf].
  - by eapply follows_same; [..|exact Hfo].
Qed.

Lemma ReleaseOrigin_follows n t r s k vw :
  rib_wf r → n ≠ sink_id s → follows s k r vw →
  follows s k (ReleaseOrigin n t r).1 (replay vw (delivered s (ReleaseOrigin n t r).2)).
Proof.
  intros Hwf Hn Hfo. unfold ReleaseOrigin. case_decide; [|done].
  apply dropOriginLocked_follows; [|done|by eapply follows_same; [..|exact Hfo]].
  apply with_sinks_wf; [apply sinks_ok_delete, Hwf|by apply with_tokens_wf].
Qed.

Lemma step_follows (op : RibOp) r s k vw :
  rib_wf r → quiet s k op → follows s k r vw →
  follows s k (rib_step op r).1 (replay vw (delivered s (rib_step op r).2)).
Proof.
  intros Hwf Hq Hfo. destruct op; cbn [rib_step quiet] in *;
    eauto using Subscribe_other_follows, Unsubscribe_follows, Announce_follows, Withdraw_follows, RegisterSink_follows,
      WithdrawNat_follows, WithdrawPublic_follows, ClaimOrigin_follows, ReleaseOrigin_follows, dropOriginLocked_follows.
  - by eapply follows_same; [..|exact Hfo].
  - by eapply broadcast_follows; [..|exact Hfo].
  - by eapply broadcast_follows; [..|exact Hfo].
  - unfold SetFence. destruct (fenceKey _) as [[key n]|]; [|done]. case_decide; [done|]. by apply refilter_view.
  - unfold ClearFence. destruct (fenceKey _) as [[key n]|]; [|done]. case_decide; [|done]. by apply refilter_view.
Qed.

End snapshot.

Lemma run_follows ops r s k vw :
  rib_wf r → Forall (fun '(_, op) => quiet s k op) ops → follows s k r vw →
  follows s k (rib_run ops r).1 (replay vw (delivered s (rib_run ops r).2)).
Proof.
  revert r vw. induction ops as [|[ro op] ops IH]; intros r vw Hwf Hq Hfo; [done|].
  apply Forall_cons in Hq as [Hq Hqs]. rewrite rib_run_cons. cbn [fst snd]. rewrite delivered_app, replay_app.
  apply IH; [by apply step_wf|done|]. by apply step_follows.
Qed.
