(* ===== verification/RibTheorems.v ===== *)
(** * The reflector's guarantees

    The properties of [mesh/reflector]'s route table that its clients rely on:
    what subscribers and edges learn, what a fence hides, what the end of a
    session removes, and who may withdraw what.  Each is stated over every
    iteration order of Go's maps and, where it concerns a run, over every
    interleaving of the operations. *)

From S2P Require Import Prelude Net Wire Rib RibFacts RibView.

Open Scope Z_scope.

(** ** Notions of the statements *)

(** A nexthop inside one network. *)
Definition within (n : net.IPNet) (nh : string) : bool :=
  match net.ParseIP nh with Some ip => net.IPNet_Contains n ip | None => false end.

(** [origin] announced [nh] for [k]. *)
Definition announces (r : RIB) (k : routeKey) (origin nh : string) : Prop :=
  ∃ nhs, origins_at (routes r) k !! origin = Some nhs ∧ nh ∈ nhs.

(** ** Lemmas *)

Lemma elem_of_shown (r : RIB) (k : routeKey) (nh : string) :
  nh ∈ advertised r (entry r k) ↔ (∃ o, announces r k o nh) ∧ nexthopFenced nh (fenced r) = false.
Proof. rewrite elem_of_advertised. unfold announces, origins_at, entry. done. Qed.

Lemma nexthopFenced_spec (nh : string) (f : gmap string net.IPNet) :
  nexthopFenced nh f = true ↔ ∃ key n, f !! key = Some n ∧ within n nh = true.
Proof.
  unfold nexthopFenced, within, any. destruct (net.ParseIP nh) as [ip|]; [|naive_solver].
  rewrite existsb_exists. setoid_rewrite <-list_elem_of_In. setoid_rewrite list_elem_of_fmap. split.
  - intros (n & ([key n'] & -> & Hin%elem_of_map_to_list) & Hc). eauto.
  - intros (key & n & Hin & Hc). exists n. split; [|done]. exists (key, n). by rewrite elem_of_map_to_list.
Qed.

Lemma nexthopFenced_insert (nh key : string) (n : net.IPNet) (f : gmap string net.IPNet) :
  f !! key = None → nexthopFenced nh (<[key := n]> f) = within n nh || nexthopFenced nh f.
Proof.
  intros Hk. apply eq_true_iff_eq. rewrite orb_true_iff, !nexthopFenced_spec.
  setoid_rewrite lookup_insert_Some. split; [naive_solver|].
  intros [Hn|(key' & n' & Hl & Hn)]; [exists key, n; by split; [left|]|]. exists key', n'. split; [|done]. right. split; [congruence|done].
Qed.

Lemma nexthopFenced_singleton (nh key : string) (n : net.IPNet) :
  nexthopFenced nh {[key := n]} = within n nh.
Proof. rewrite <-insert_empty, nexthopFenced_insert, nexthopFenced_empty by done. apply orb_false_r. Qed.

Lemma SetFence_new {ro : RangeOrder} (p key : string) (n : net.IPNet) (r : RIB) :
  fenceKey p = Some (key, n) → fenced r !! key = None →
  (SetFence p r).1 = with_fenced (<[key := n]> (fenced r)) r.
Proof.
  intros Hk Hf. unfold SetFence. rewrite Hk, Hf. rewrite decide_False; [done|]. by intros [].
Qed.

Lemma ClearFence_held {ro : RangeOrder} (p key : string) (n : net.IPNet) (r : RIB) :
  fenceKey p = Some (key, n) → is_Some (fenced r !! key) →
  (ClearFence p r).1 = with_fenced (delete key (fenced r)) r.
Proof. intros Hk Hf. unfold ClearFence. rewrite Hk. by rewrite decide_True. Qed.

(** ** Properties: what subscribers know *)

(** C1. A subscriber knows exactly what is advertised.  From its subscription on,
    and whatever the other sessions, the failover controller and the map
    iteration orders do, the replay of the messages the reflector sent to the
    sink gives, for each key of the VNI that the subscriber does not itself
    originate, the nexthops the reflector advertises, and no entry when it
    advertises none. *)
Theorem subscriber_view (ro : RangeOrder) (r : RIB) (s : Sink) (k : routeKey) (ops : list (RangeOrder * RibOp)) :
  rib_wf r → fresh_sub r (rk_vni k) s → origins_at (routes r) k !! sink_id s = None →
  Forall (fun '(_, op) => quiet s k op) ops →
  replay ∅ (delivered s (rib_run ((ro, OpSubscribe (rk_vni k) s) :: ops) r).2) !! k =
  shown (rib_run ((ro, OpSubscribe (rk_vni k) s) :: ops) r).1 k.
Proof.
  intros Hwf Hf Ho Hq. rewrite rib_run_cons. cbn [fst snd]. rewrite delivered_app, replay_app.
  apply run_follows; [by apply (step_wf (OpSubscribe _ _))|done|]. by apply Subscribe_follows.
Qed.

Lemma subscriber_view_witness :
  let s := mkSink 1 "edge-a" in
  let k := mkKey 7 "10.0.0.5/32" in
  let ops := [(canonical_order, OpAnnounce "node-b" 7 "10.0.0.5/32" ["fd00:1::b"; "fd00:2::b"] false);
              (canonical_order, OpSetFence "fd00:1::/64");
              (canonical_order, OpAnnounce "node-c" 7 "10.0.0.5/32" ["fd00:3::c"] false);
              (canonical_order, OpDropOrigin "node-b")] in
  let out := rib_run ((canonical_order, OpSubscribe 7 s) :: ops) NewRIB in
  replay ∅ (delivered s out.2) !! k = shown out.1 k ∧ shown out.1 k = Some ["fd00:3::c"].
Proof.
  split; [|vm_compute; reflexivity].
  apply (subscriber_view canonical_order NewRIB (mkSink 1 "edge-a") (mkKey 7 "10.0.0.5/32")).
  - apply NewRIB_wf.
  - intros s' Hs'. vm_compute in Hs'. discriminate Hs'.
  - reflexivity.
  - repeat constructor; vm_compute; try discriminate; left; discriminate.
Defined.

(** C2. Every reachable state is well formed: in any run from the empty table, the
    indexes by origin agree exactly with the routes and with both global tables,
    no route is stored without an origin, every sink is filed under its own id,
    the cached global replay is the current tables with an exact count, and each
    fence is filed under its canonical network. *)
Theorem rib_reachable_wf (ops : list (RangeOrder * RibOp)) : rib_wf (rib_run ops NewRIB).1.
Proof. apply run_wf, NewRIB_wf. Qed.

(** The snapshot of a subscription: one message batch, holding one ADD per
    advertised key of the VNI with the nexthops advertised for it, prefixes in
    strictly increasing order, closed by the EndOfRIB marker with their number. *)
Theorem Subscribe_snapshot (r : RIB) (vni : Z) (s : Sink) :
  fresh_sub r vni s →
  ∃ recs, (Subscribe vni s r).2 = [(s, SendSnapshot (recs ++ [MEndOfRIB vni (u32 (Z.of_nat (length recs)))]))] ∧
    (∀ m, m ∈ recs ↔ ∃ k, rk_vni k = vni ∧ advertised r (entry r k) ≠ [] ∧
                          m = routeUpdate k (advertised r (entry r k)) ROUTE_OP_ADD (e_external (entry r k))) ∧
    StronglySorted (fun m1 m2 => match m1, m2 with
      | MRouteUpdate u1, MRouteUpdate u2 => String.le (ru_Prefix u1) (ru_Prefix u2) ∧ ru_Prefix u1 ≠ ru_Prefix u2
      | _, _ => False end) recs.
Proof.
  intros Hf. rewrite Subscribe_fresh by done. exists (snapshot_records vni r). split; [done|]. split.
  - intros m. rewrite snapshot_records_omap, list_elem_of_omap. unfold snapshot_record. split.
    + intros (k & Hk & Hm). apply elem_of_vni_keys in Hk as [Hk _]. case_decide as Ha; simplify_eq.
      exists k. split_and!; try done. by intros He; rewrite He in Ha.
    + intros (k & Hk & Ha & ->). exists k. split.
      * apply elem_of_vni_keys. split; [done|]. destruct (routes r !! k) eqn:Hr; [done|].
        exfalso. apply Ha. unfold entry. rewrite Hr. by apply advertised_empty.
      * rewrite decide_False; [done|]. by intros ?%nil_length_inv.
  - apply snapshot_sorted.
Qed.

Lemma Subscribe_snapshot_witness :
  let r := (rib_run [(canonical_order, OpAnnounce "node-b" 7 "10.0.0.9/32" ["fd00::b"] false);
                     (canonical_order, OpAnnounce "node-c" 7 "10.0.0.5/32" ["fd00::c"] true);
                     (canonical_order, OpAnnounce "node-c" 8 "10.0.0.5/32" ["fd00::c"] true)] NewRIB).1 in
  let s := mkSink 1 "edge-a" in
  (∃ recs, (Subscribe 7 s r).2 =
    [(s, SendSnapshot (recs ++ [MEndOfRIB 7 (u32 (Z.of_nat (length recs)))]))]) ∧
  delivered s (Subscribe 7 s r).2 =
    [routeUpdate (mkKey 7 "10.0.0.5/32") ["fd00::c"] ROUTE_OP_ADD true;
     routeUpdate (mkKey 7 "10.0.0.9/32") ["fd00::b"] ROUTE_OP_ADD false; MEndOfRIB 7 2].
Proof.
  split; [|vm_compute; reflexivity].
  edestruct (Subscribe_snapshot (rib_run
    [(canonical_order, OpAnnounce "node-b" 7 "10.0.0.9/32" ["fd00::b"] false);
     (canonical_order, OpAnnounce "node-c" 7 "10.0.0.5/32" ["fd00::c"] true);
     (canonical_order, OpAnnounce "node-c" 8 "10.0.0.5/32" ["fd00::c"] true)] NewRIB).1 7 (mkSink 1 "edge-a"))
    as (recs & Hrecs & _).
  - intros s' Hs'. vm_compute in Hs'. discriminate Hs'.
  - exists recs. exact Hrecs.
Defined.

(** ** Properties: reference counting and fences *)

(** Routes are reference-counted by origin.  After a withdraw a nexthop is
    advertised exactly when some other origin still announces it for the key and
    no fence hides it; the other keys are as before. *)
Theorem Withdraw_refcount (ro : RangeOrder) (r : RIB) (origin : string) (vni : Z) (prefix : string) :
  let r' := (Withdraw origin vni prefix r).1 in
  (∀ nh, nh ∈ Advertised vni prefix r' ↔
     (∃ o, o ≠ origin ∧ announces r (mkKey vni prefix) o nh) ∧ nexthopFenced nh (fenced r) = false) ∧
  (∀ k, k ≠ mkKey vni prefix → shown r' k = shown r k).
Proof.
  assert (Hr : ∀ k, origins_at (routes (Withdraw origin vni prefix r).1) k =
    if decide (mkKey vni prefix = k) then delete origin (origins_at (routes r) k) else origins_at (routes r) k)
    by (intros k; unfold Withdraw; by rewrite withdrawRouteOrigin_routes).
  assert (Hf : fenced (Withdraw origin vni prefix r).1 = fenced r)
    by (unfold Withdraw; by rewrite withdrawRouteOrigin_frame).
  split.
  - intros nh. unfold Advertised. rewrite elem_of_shown, Hf. unfold announces. setoid_rewrite Hr.
    rewrite decide_True by done. setoid_rewrite lookup_delete_Some. naive_solver.
  - intros k Hk. apply shown_ext; [done|]. by rewrite Hr, decide_False.
Qed.

(** A fence hides exactly the nexthops inside its network: after [SetFence] of a
    prefix not yet fenced, a nexthop is advertised for a key iff it was before and
    lies outside the network.  Nothing stored changes. *)
Theorem SetFence_hides (ro : RangeOrder) (r : RIB) (p key : string) (n : net.IPNet) :
  fenceKey p = Some (key, n) → fenced r !! key = None →
  let r' := (SetFence p r).1 in
  routes r' = routes r ∧
  ∀ k nh, nh ∈ advertised r' (entry r' k) ↔ nh ∈ advertised r (entry r k) ∧ within n nh = false.
Proof.
  intros Hk Hf. cbv zeta. rewrite (SetFence_new p key n) by done. split; [done|]. intros k nh.
  rewrite !elem_of_shown. cbn [fenced with_fenced]. rewrite nexthopFenced_insert, orb_false_iff by done.
  unfold announces. simpl. tauto.
Qed.

Lemma SetFence_hides_witness :
  let r := (rib_run [(canonical_order, OpAnnounce "node-b" 7 "10.0.0.9/32" ["fd00:1::b"; "fd00:2::b"] false)] NewRIB).1 in
  let r' := (SetFence (ro := canonical_order) "fd00:1::7/64" r).1 in
  routes r' = routes r ∧ Advertised 7 "10.0.0.9/32" r' = ["fd00:2::b"].
Proof.
  split; [|vm_compute; reflexivity].
  eapply (proj1 (SetFence_hides canonical_order _ "fd00:1::7/64" "fd00:1::/64" _ _ _)).
  Unshelve.
  - exact (net.mkIPNet 0xfd000001000000000000000000000000 128 64).
  - vm_compute. reflexivity.
  - vm_compute. reflexivity.
Defined.

(** Releasing a fence undoes it: [SetFence] then [ClearFence] of a prefix not
    fenced before, under any spelling of the same network, gives back the very
    state, so every route is advertised again without a new announce. *)
Theorem fence_roundtrip (ro ro' : RangeOrder) (r : RIB) (p p' key : string) (n n' : net.IPNet) :
  fenceKey p = Some (key, n) → fenceKey p' = Some (key, n') → fenced r !! key = None →
  (ClearFence (ro := ro') p' (SetFence (ro := ro) p r).1).1 = r.
Proof.
  intros Hp Hp' Hf. rewrite (SetFence_new p key n) by done.
  rewrite (ClearFence_held p' key n' _ Hp') by (simpl; by rewrite lookup_insert_eq).
  simpl. rewrite delete_insert_id by done. by destruct r.
Qed.

Lemma fence_roundtrip_witness :
  (ClearFence (ro := canonical_order) "fd00:0001:0::/64" (SetFence (ro := canonical_order) "fd00:1::7/64" NewRIB).1).1 = NewRIB.
Proof.
  eapply (fence_roundtrip canonical_order canonical_order NewRIB "fd00:1::7/64" "fd00:0001:0::/64" "fd00:1::/64").
  - vm_compute. reflexivity.
  - vm_compute. reflexivity.
  - vm_compute. reflexivity.
Defined.

(** ** Who announces what: the question before a fence is released *)

Lemma elem_of_holdersWithin (k asked : routeKey) (nets : gmap string net.IPNet) (r : RIB) (h : RouteHolding) :
  h ∈ holdersWithin k asked nets r ↔
  h_key h = asked ∧ announces r k (h_origin h) (h_nexthop h) ∧ nexthopFenced (h_nexthop h) nets = true.
Proof.
  unfold holdersWithin, announces. change (e_origins (entry r k)) with (origins_at (routes r) k).
  set (os := origins_at (routes r) k). rewrite list_elem_of_bind. split.
  - intros (o & (nh & Hh & Hnh)%list_elem_of_bind & Ho). rewrite elem_of_sort_strings in *.
    apply list_elem_of_fmap in Ho as ([o' nhs] & -> & Ho%elem_of_map_to_list). simpl in *. rewrite Ho in Hnh.
    destruct (nexthopFenced nh nets) eqn:Hf; [|by apply elem_of_nil in Hh].
    apply list_elem_of_singleton in Hh as ->. simpl. eauto.
  - intros (<- & (nhs & Ho & Hnh) & Hf). exists (h_origin h). split.
    + apply list_elem_of_bind. exists (h_nexthop h). rewrite Hf, Ho, elem_of_sort_strings. split; [|done].
      destruct h. apply list_elem_of_singleton. done.
    + apply elem_of_sort_strings, list_elem_of_fmap. exists (h_origin h, nhs). by rewrite elem_of_map_to_list.
Qed.

Lemma first_holders_sound (ks : list routeKey) (asked : routeKey) (nets : gmap string net.IPNet) (r : RIB) (h : RouteHolding) :
  h ∈ first_holders ks asked nets r → ∃ k, k ∈ ks ∧ h ∈ holdersWithin k asked nets r.
Proof.
  induction ks as [|k ks IH]; simpl; [by intros ?%elem_of_nil|].
  destruct (holdersWithin k asked nets r) eqn:Hk.
  - intros (k' & Hk' & Hh)%IH. exists k'. split; [by right|done].
  - intros Hh. exists k. split; [by left|]. by rewrite Hk.
Qed.

Lemma first_holders_nonempty (ks : list routeKey) (asked k : routeKey) (nets : gmap string net.IPNet) (r : RIB) h :
  k ∈ ks → h ∈ holdersWithin k asked nets r → ∃ h', h' ∈ first_holders ks asked nets r.
Proof.
  induction ks as [|k0 ks IH]; simpl; [by intros ?%elem_of_nil|]. intros Hin Hh.
  destruct (holdersWithin k0 asked nets r) as [|h0 hs] eqn:Hk0; [|exists h0; left].
  apply elem_of_cons in Hin as [->|Hin]; [|by apply IH]. rewrite Hk0 in Hh. by apply elem_of_nil in Hh.
Qed.

Lemma elem_of_announced_loop (keys : list routeKey) (seen : gset routeKey) (nets : gmap string net.IPNet) (r : RIB) h :
  h ∈ announced_loop keys seen nets r ↔ ∃ q, q ∈ keys ∧ (q ∉ seen) ∧ h ∈ first_holders (spellings q) q nets r.
Proof.
  revert seen. induction keys as [|q keys IH]; intros seen; simpl.
  - rewrite elem_of_nil. split; [done|]. by intros (q & ?%elem_of_nil & _).
  - setoid_rewrite elem_of_cons. case_decide as Hq; [rewrite IH|rewrite elem_of_app, IH]; [naive_solver|].
    setoid_rewrite not_elem_of_union. setoid_rewrite not_elem_of_singleton. split; [naive_solver|].
    intros (q' & Hin & Hs & Hh). destruct (decide (q' = q)) as [->|]; [by left|right]. exists q'. naive_solver.
Qed.

Lemma announced_complete (n : net.IPNet) (p : string) (keys : list routeKey) (r : RIB) (q k : routeKey) (o nh : string) :
  q ∈ keys → k ∈ spellings q → announces r k o nh → within n nh = true →
  ∃ h, h ∈ announced_loop keys ∅ ({[p := n]}) r ∧ h_key h = q.
Proof.
  intros Hq Hk Ha Hw.
  destruct (first_holders_nonempty (spellings q) q k ({[p := n]}) r (mkHolding q o nh)) as [h Hh]; [done| |].
  { apply elem_of_holdersWithin. simpl. by rewrite nexthopFenced_singleton. }
  exists h. split.
  - apply elem_of_announced_loop. exists q. split_and!; [done|apply not_elem_of_empty|done].
  - apply first_holders_sound in Hh as (k' & _ & Hh). by apply elem_of_holdersWithin in Hh as [? _].
Qed.

(** [AnnouncedFrom] answers exactly the question failover asks.  For a prefix
    that parses it returns holdings, each for a key asked, naming an origin and a
    nexthop inside the prefix that the table stores for a spelling of that key,
    hidden by a fence or not; and every key asked that has such a nexthop has a
    holding. *)
Theorem AnnouncedFrom_exact (r : RIB) (p : string) (ip : Z) (n : net.IPNet) (keys : list routeKey) :
  net.ParseCIDR p = Some (ip, n) →
  ∃ hs, AnnouncedFrom p keys r = Some hs ∧
    (∀ h, h ∈ hs → h_key h ∈ keys ∧ within n (h_nexthop h) = true ∧
       ∃ k, k ∈ spellings (h_key h) ∧ announces r k (h_origin h) (h_nexthop h)) ∧
    (∀ q k o nh, q ∈ keys → k ∈ spellings q → announces r k o nh → within n nh = true →
       ∃ h, h ∈ hs ∧ h_key h = q).
Proof.
  intros Hp. unfold AnnouncedFrom. rewrite Hp. simpl. eexists. split; [done|]. split.
  - intros h (q & Hq & _ & (k & Hk & Hh)%first_holders_sound)%elem_of_announced_loop.
    apply elem_of_holdersWithin in Hh as (-> & Ha & Hw). rewrite nexthopFenced_singleton in Hw. eauto.
  - intros. by eapply announced_complete.
Qed.

Lemma AnnouncedFrom_exact_witness :
  let r := (rib_run [(canonical_order, OpAnnounce "node-b" 7 "10.0.0.9/32" ["fd00:1::b"] false);
                     (canonical_order, OpSetFence "fd00:1::/64")] NewRIB).1 in
  (∃ hs, AnnouncedFrom "fd00:1::/64" [mkKey 7 "10.0.0.9/32"] r = Some hs) ∧
  AnnouncedFrom "fd00:1::/64" [mkKey 7 "10.0.0.9/32"] r = Some [mkHolding (mkKey 7 "10.0.0.9/32") "node-b" "fd00:1::b"].
Proof.
  split; [|vm_compute; reflexivity].
  edestruct (AnnouncedFrom_exact (rib_run [(canonical_order, OpAnnounce "node-b" 7 "10.0.0.9/32" ["fd00:1::b"] false);
      (canonical_order, OpSetFence "fd00:1::/64")] NewRIB).1 "fd00:1::/64"
      0xfd000001000000000000000000000000 (net.mkIPNet 0xfd000001000000000000000000000000 128 64) [mkKey 7 "10.0.0.9/32"])
    as (hs & Hhs & _); [vm_compute; reflexivity|].
  exists hs. exact Hhs.
Defined.

(** C36. A fence released on an empty answer re-advertises nothing stale.  When
    [AnnouncedFrom] of a fenced prefix finds none of the keys asked, then after
    [ClearFence] no key asked, in either spelling, is advertised with a nexthop
    inside the prefix. *)
Theorem ClearFence_after_drained (ro : RangeOrder) (r : RIB) (p : string) (ip : Z) (n : net.IPNet) (keys : list routeKey) :
  net.ParseCIDR p = Some (ip, n) → AnnouncedFrom p keys r = Some [] →
  ∀ q k nh, q ∈ keys → k ∈ spellings q →
    nh ∈ advertised (ClearFence p r).1 (entry (ClearFence p r).1 k) → within n nh = false.
Proof.
  intros Hp Ha q k nh Hq Hk Hnh. destruct (within n nh) eqn:Hw; [|done]. exfalso.
  assert (Hr : routes (ClearFence p r).1 = routes r)
    by (unfold ClearFence; destruct (fenceKey p) as [[??]|]; [case_decide|]; done).
  apply elem_of_shown in Hnh as [[o Ho] _]. unfold announces in Ho. rewrite Hr in Ho.
  unfold AnnouncedFrom in Ha. rewrite Hp in Ha. simpl in Ha.
  destruct (announced_complete n p keys r q k o nh Hq Hk Ho Hw) as (h & Hh & _).
  injection Ha as Ha. rewrite Ha in Hh. by apply elem_of_nil in Hh.
Qed.

Lemma ClearFence_after_drained_witness :
  let r := (rib_run [(canonical_order, OpAnnounce "node-c" 7 "10.0.0.9/32" ["fd00:2::c"] false);
                     (canonical_order, OpSetFence "fd00:1::/64")] NewRIB).1 in
  Advertised 7 "10.0.0.9/32" (ClearFence (ro := canonical_order) "fd00:1::/64" r).1 = ["fd00:2::c"] ∧
  within (net.mkIPNet 0xfd000001000000000000000000000000 128 64) "fd00:2::c" = false.
Proof.
  split; [vm_compute; reflexivity|].
  apply (ClearFence_after_drained canonical_order
    (rib_run [(canonical_order, OpAnnounce "node-c" 7 "10.0.0.9/32" ["fd00:2::c"] false);
              (canonical_order, OpSetFence "fd00:1::/64")] NewRIB).1 "fd00:1::/64"
    0xfd000001000000000000000000000000 _ [mkKey 7 "10.0.0.9/32"])
    with (q := mkKey 7 "10.0.0.9/32") (k := mkKey 7 "10.0.0.9/32").
  - vm_compute. reflexivity.
  - vm_compute. reflexivity.
  - left.
  - left.
  - match goal with |- _ ∈ ?l => let l' := eval vm_compute in l in replace l with l' by (vm_compute; reflexivity) end. left.
Defined.

(** ** Properties: what a subscriber is not told *)

(** A change of the external flag alone is not fanned out: re-announcing a route
    with the same nexthops and the other flag is stored, and sends nothing to any
    subscriber, so a subscriber keeps the old flag until the nexthops change or it
    subscribes again. *)
Theorem external_change_silent (ro : RangeOrder) (r : RIB) (o : string) (vni : Z) (p : string) (nhs : list string) (ext : bool) :
  origins_at (routes r) (mkKey vni p) !! o = Some nhs →
  (Announce o vni p nhs ext r).2 = [] ∧ e_external (entry (Announce o vni p nhs ext r).1 (mkKey vni p)) = ext.
Proof.
  intros Ho. unfold Announce. cbn [fst snd]. split.
  - unfold fanoutChange. rewrite (proj2 (equalStrs_spec _ _)); [done|]. apply advertised_ext; [done|]. cbn.
    symmetry. by apply insert_id.
  - unfold entry at 1. cbn. by rewrite lookup_insert_eq.
Qed.

Lemma external_change_silent_witness :
  let r := (rib_run [(canonical_order, OpSubscribe 7 (mkSink 1 "node-a"));
                     (canonical_order, OpAnnounce "node-b" 7 "0.0.0.0/0" ["fd00::e"] false)] NewRIB).1 in
  (Announce (ro := canonical_order) "node-b" 7 "0.0.0.0/0" ["fd00::e"] true r).2 = [] ∧
  e_external (entry (Announce (ro := canonical_order) "node-b" 7 "0.0.0.0/0" ["fd00::e"] true r).1 (mkKey 7 "0.0.0.0/0")) = true.
Proof.
  intros r. apply (external_change_silent canonical_order r "node-b" 7 "0.0.0.0/0" ["fd00::e"] true).
  vm_compute. reflexivity.
Defined.
