(* ===== verification/RibGlobal.v ===== *)
(** * The global feed and the sessions

    [nattable.go], [publictable.go] and the session half of [rib.go]: a sink
    registered for the global feed holds exactly the two global tables; only its
    origin, with a certificate for the owner, withdraws a record; the end of a
    session removes all that the node announced and nothing else, and the end of
    a superseded session removes nothing. *)

From S2P Require Import Prelude Net Wire Rib RibFacts RibView.

Open Scope Z_scope.

(** ** Following the global feed *)

(** An operation that does not end the registration of [s]. *)
Definition quiet_global (s : Sink) (op : RibOp) : Prop :=
  match op with
  | OpRegisterSink s' => sink_id s' ≠ sink_id s
  | OpUnregisterSink id => id ≠ sink_id s
  | OpClaimOrigin n | OpReleaseOrigin n _ => n ≠ sink_id s
  | _ => True
  end.

(** The copies an edge builds from what it is sent. *)
Definition nat_view (vw : gmap natKey NatBlock) (ms : list ServerMsg) : gmap natKey NatBlock := foldl gt_apply vw ms.
Definition public_view (vw : gmap publicKey PublicPrefix) (ms : list ServerMsg) : gmap publicKey PublicPrefix :=
  foldl gt_apply vw ms.

(** [s] is registered and its copies are the tables. *)
Record follows_global (s : Sink) (r : RIB) (nv : gmap natKey NatBlock) (pv : gmap publicKey PublicPrefix) : Prop := {
  fg_sink : sinks r !! sink_id s = Some s;
  fg_nat : nv = tab (natT r);
  fg_public : pv = tab (publicT r)
}.

Section view.
Context {K V : Type} `{GlobalTable K V}.

Lemma gt_fold_none (vw : gmap K V) (ms : list ServerMsg) :
  Forall (fun m => gt_parse m = None) ms → foldl gt_apply vw ms = vw.
Proof.
  revert vw. induction ms as [|m ms IH]; intros vw Hm; [done|]. apply Forall_cons in Hm as [Hm Hms].
  cbn. rewrite IH by done. unfold gt_apply. by rewrite Hm.
Qed.

(** A batch of ADDs with one value per key. *)
Definition adds_only (ms : list ServerMsg) : Prop :=
  (∀ m v op, m ∈ ms → gt_parse m = Some (v, op) → op = ROUTE_OP_ADD) ∧
  (∀ m m' v v' op op', m ∈ ms → m' ∈ ms → gt_parse m = Some (v, op) → gt_parse m' = Some (v', op') →
     gt_key v = gt_key v' → v = v').

Lemma adds_only_cons m ms : adds_only (m :: ms) → adds_only ms.
Proof.
  intros [Ha Hu]. split; intros; [eapply Ha|eapply Hu]; try done; by right.
Qed.

Lemma gt_fold_adds (vw : gmap K V) (ms : list ServerMsg) (v : V) :
  adds_only ms → (∃ m, m ∈ ms ∧ gt_parse m = Some (v, ROUTE_OP_ADD)) ∨
    vw !! gt_key v = Some v ∧ (∀ m v' op, m ∈ ms → gt_parse m = Some (v', op) → gt_key v' = gt_key v → v' = v) →
  foldl gt_apply vw ms !! gt_key v = Some v.
Proof.
  revert vw. induction ms as [|m ms IH]; intros vw Hms Hv.
  - destruct Hv as [(m & Hm%elem_of_nil & _)|[? _]]; done.
  - cbn. pose proof (adds_only_cons _ _ Hms) as Hms'. destruct Hms as [Ha Hu]. apply IH; [done|].
    destruct (gt_parse m) as [[v0 op0]|] eqn:Hp; unfold gt_apply; rewrite Hp.
    + rewrite (Ha m v0 op0) in * by (done || left). destruct (decide (gt_key v0 = gt_key v)) as [Hk|Hk].
      * assert (v0 = v) as ->.
        { destruct Hv as [(m' & Hm' & Hp')|[_ Hv]]; [|by eapply Hv; [left|..]].
          by eapply (Hu m m'); [left|done|..]. }
        right. rewrite lookup_insert_eq. split; [done|]. intros. symmetry. eapply (Hu m m0); [left|by right|done|done|done].
      * rewrite lookup_insert_ne by done. destruct Hv as [(m' & Hm' & Hp')|[Hv1 Hv2]].
        -- left. exists m'. split; [|done]. apply elem_of_cons in Hm' as [->|]; [congruence|done].
        -- right. split; [done|]. intros. eapply Hv2; [by right|done|done].
    + destruct Hv as [(m' & Hm' & Hp')|[Hv1 Hv2]].
      * left. exists m'. split; [|done]. apply elem_of_cons in Hm' as [->|]; [congruence|done].
      * right. split; [done|]. intros. eapply Hv2; [by right|done|done].
Qed.

Lemma gt_fold_absent (vw : gmap K V) (ms : list ServerMsg) (k : K) :
  (∀ m v op, m ∈ ms → gt_parse m = Some (v, op) → gt_key v ≠ k) → foldl gt_apply vw ms !! k = vw !! k.
Proof.
  revert vw. induction ms as [|m ms IH]; intros vw Hms; [done|]. cbn.
  rewrite IH by (intros; eapply Hms; [by right|done]). unfold gt_apply.
  destruct (gt_parse m) as [[v []]|] eqn:Hp; try done.
  - rewrite lookup_insert_ne; [done|]. eapply Hms; [left|done].
  - rewrite lookup_delete_ne; [done|]. eapply Hms; [left|done].
Qed.

(** A batch whose ADDs are the records of the table rebuilds the table. *)
Lemma gt_fold_table (t : OriginTable K V) (ms : list ServerMsg) :
  table_wf gt_key t →
  (∀ m v op, m ∈ ms → gt_parse m = Some (v, op) → op = ROUTE_OP_ADD ∧ tab t !! gt_key v = Some v) →
  (∀ v, tab t !! gt_key v = Some v → ∃ m, m ∈ ms ∧ gt_parse m = Some (v, ROUTE_OP_ADD)) →
  foldl gt_apply ∅ ms = tab t.
Proof.
  intros Ht Hin Hout. apply map_eq. intros k. destruct (tab t !! k) as [v|] eqn:Hk.
  - assert (gt_key v = k) as <- by by eapply (tok_key _ _ _ Ht). apply gt_fold_adds; [|by left; apply Hout].
    split; [intros; by eapply Hin|]. intros m m' v1 v2 op op' Hm Hm' Hp Hp' Hkk.
    apply Hin in Hp as [_ Hp], Hp' as [_ Hp']; [|done..]. rewrite Hkk in Hp. congruence.
  - rewrite gt_fold_absent; [apply lookup_empty|]. intros m v op Hm Hp <-. apply Hin in Hp as [_ ?]; [congruence|done].
Qed.

End view.

(** ** Each operation *)

(** A message neither table reads. *)
Definition not_global (m : ServerMsg) : Prop :=
  match m with MNatUpdate _ _ | MPublicUpdate _ _ => False | _ => True end.

Section steps.
Context {ro : RangeOrder}.

Lemma not_global_views (ms : list ServerMsg) nv pv :
  Forall not_global ms → nat_view nv ms = nv ∧ public_view pv ms = pv.
Proof. intros Hms. split; apply gt_fold_none; (eapply Forall_impl; [exact Hms|]); by intros []. Qed.

Definition route_out (o : list SinkOut) : Prop := Forall (fun '(_, c) => Forall not_global (call_msgs c)) o.

Lemma fanoutChange_route r k before after skip ext : route_out (fanoutChange r k before after skip ext).
Proof.
  unfold fanoutChange. destruct (equalStrs _ _); [constructor|].
  case_decide; (eapply Forall_impl; [apply fanout_msgs|]); intros [s c] ->; by repeat constructor.
Qed.

Lemma withdrawRouteOrigin_route k o r : route_out (withdrawRouteOrigin k o r).2.
Proof. unfold withdrawRouteOrigin. repeat case_match; try constructor; apply fanoutChange_route. Qed.

Lemma drop_routes_route o l r : route_out (drop_routes o l r).2.
Proof.
  unfold drop_routes. apply (sw_loop_ind (fun _ _ out => route_out out) _ _ _ []); [|constructor].
  intros. apply Forall_app. split; [done|apply withdrawRouteOrigin_route].
Qed.

Lemma refilter_route f r : route_out (refilter f r).2.
Proof.
  unfold refilter, route_out. cbn [snd]. apply Forall_join, Forall_fmap, Forall_true. intros [k e]. apply fanoutChange_route.
Qed.

(** A trace of route messages, over an unchanged pair of tables. *)
Lemma route_follows s r r' o nv pv :
  route_out o → sinks r' = sinks r → natT r' = natT r → publicT r' = publicT r →
  follows_global s r nv pv →
  follows_global s r' (nat_view nv (delivered s o)) (public_view pv (delivered s o)).
Proof.
  intros Ho Hs Hn Hp [Hsk Hnv Hpv]. destruct (not_global_views (delivered s o) nv pv) as [-> ->].
  { by apply Forall_delivered. }
  split; [by rewrite Hs|by rewrite Hn|by rewrite Hp].
Qed.

Lemma delivered_other (s s' : Sink) c : sink_id s' ≠ sink_id s → delivered s [(s', c)] = [].
Proof. intros Hne. cbn. rewrite decide_False; [done|]. by intros ->. Qed.

Lemma snapshot_records_route vni r : Forall not_global (snapshot_records vni r).
Proof.
  rewrite snapshot_records_omap. apply Forall_forall. intros m (k & _ & Hm)%list_elem_of_omap.
  unfold snapshot_record in Hm. case_decide; by simplify_eq.
Qed.

Lemma Subscribe_global vni s' r s nv pv :
  follows_global s r nv pv →
  follows_global s (Subscribe vni s' r).1 (nat_view nv (delivered s (Subscribe vni s' r).2))
    (public_view pv (delivered s (Subscribe vni s' r).2)).
Proof.
  intros Hfg. eapply route_follows; [..|exact Hfg]; unfold Subscribe; case_match; try done; repeat constructor.
  cbn. apply Forall_app. split; [apply snapshot_records_route|by repeat constructor].
Qed.

Lemma Withdraw_global o vni p r s nv pv :
  follows_global s r nv pv →
  follows_global s (Withdraw o vni p r).1 (nat_view nv (delivered s (Withdraw o vni p r).2))
    (public_view pv (delivered s (Withdraw o vni p r).2)).
Proof.
  intros Hfg. unfold Withdraw. eapply route_follows; [apply withdrawRouteOrigin_route|..|exact Hfg];
    by rewrite withdrawRouteOrigin_frame.
Qed.

Lemma broadcast_nat_global b op r0 r s nv pv :
  sinks_ok (sinks r) → sinks r0 = sinks r → publicT r0 = publicT r → follows_global s r nv pv →
  gt_apply nv (natUpdate b op) = tab (natT r0) →
  follows_global s (natFanout b op r0).1 (nat_view nv (delivered s (natFanout b op r0).2))
    (public_view pv (delivered s (natFanout b op r0).2)).
Proof.
  intros Hok Hs Hp [Hsk Hnv Hpv] Ha. unfold natFanout. rewrite delivered_broadcast by by rewrite Hs.
  split; [by rewrite <-Hsk, <-Hs|done|]. cbn. by rewrite Hp.
Qed.

Lemma broadcast_public_global b op r0 r s nv pv :
  sinks_ok (sinks r) → sinks r0 = sinks r → natT r0 = natT r → follows_global s r nv pv →
  gt_apply pv (publicUpdate b op) = tab (publicT r0) →
  follows_global s (publicFanout b op r0).1 (nat_view nv (delivered s (publicFanout b op r0).2))
    (public_view pv (delivered s (publicFanout b op r0).2)).
Proof.
  intros Hok Hs Hp [Hsk Hnv Hpv] Ha. unfold publicFanout. rewrite delivered_broadcast by by rewrite Hs.
  split; [by rewrite <-Hsk, <-Hs| |done]. cbn. by rewrite Hp.
Qed.

Lemma WithdrawNat_global o ip lo hi permit r s nv pv :
  rib_wf r → follows_global s r nv pv →
  follows_global s (WithdrawNat o ip lo hi permit r).1.1
    (nat_view nv (delivered s (WithdrawNat o ip lo hi permit r).1.2))
    (public_view pv (delivered s (WithdrawNat o ip lo hi permit r).1.2)).
Proof.
  intros Hwf Hfg. destruct (WithdrawNat_cases o ip lo hi permit r Hwf) as [->|(b & _ & _ & _ & _ & ->)]; [done|].
  eapply broadcast_nat_global; [apply Hwf|done|done|exact Hfg|]. cbn. by rewrite (fg_nat _ _ _ _ Hfg).
Qed.

Lemma WithdrawPublic_global o p permit r s nv pv :
  rib_wf r → follows_global s r nv pv →
  follows_global s (WithdrawPublic o p permit r).1.1
    (nat_view nv (delivered s (WithdrawPublic o p permit r).1.2))
    (public_view pv (delivered s (WithdrawPublic o p permit r).1.2)).
Proof.
  intros Hwf Hfg. destruct (WithdrawPublic_cases o p permit r Hwf) as [->|(b & _ & _ & _ & _ & ->)]; [done|].
  eapply broadcast_public_global; [apply Hwf|done|done|exact Hfg|]. cbn. by rewrite (fg_public _ _ _ _ Hfg).
Qed.

(** Dropping one table's records says nothing of the other. *)
Lemma gt_msgs_none {K V K' V' : Type} `{GlobalTable K V, GlobalTable K' V'} (o : list SinkOut) s (vw : gmap K' V') :
  (∀ (v : V) op, gt_parse (K := K') (gt_msg v op) = None) →
  Forall (fun '(_, c) => ∃ (v : V) op, c = Send (gt_msg v op)) o → foldl gt_apply vw (delivered s o) = vw.
Proof.
  intros Hn Ho. apply gt_fold_none, Forall_delivered. eapply Forall_impl; [exact Ho|].
  intros [s' c] (v & op & ->). cbn. repeat constructor. apply Hn.
Qed.

Lemma dropOriginLocked_global o r s nv pv :
  rib_wf r → follows_global s r nv pv →
  follows_global s (dropOriginLocked o r).1 (nat_view nv (delivered s (dropOriginLocked o r).2))
    (public_view pv (delivered s (dropOriginLocked o r).2)).
Proof.
  intros Hwf [Hsk -> ->]. pose proof (dropped_of o r Hwf) as Hd.
  rewrite dropOriginLocked_out. rewrite dropOriginLocked_eq in *. cbv zeta in *.
  set (r0 := with_byOrigin _ _) in *. set (l := range_set _) in *.
  assert (Hf : (drop_routes o l r0).1 = with_routes (routes (drop_routes o l r0).1) r0).
  { destruct (drop_routes_spec o l r0) as [Hf _ _]; [apply NoDup_range_set|apply Hwf| |exact Hf].
    intros k Hk. apply eq_None_not_Some. intros [?|[]]%(wf_index _ Hwf). apply Hk. unfold l. by rewrite elem_of_range_set. }
  pose proof (drop_routes_route o l r0) as Hro. set (r1 := (drop_routes o l r0)) in *.
  set (r2 := with_subscribers _ r1.1) in *.
  assert (H2 : natT r2 = natT r ∧ publicT r2 = publicT r ∧ sinks r2 = sinks r) by (unfold r2; rewrite Hf; done).
  destruct H2 as (Hn2 & Hp2 & Hs2). rewrite dropOriginNat_gt, dropOriginPublic_gt in *.
  destruct (gt_drop_spec (K := natKey) o r2) as [_ Hfn _ _ _ _ _ Hsyn Hmn];
    [change (table_wf nat_key (natT r2)); rewrite Hn2; apply Hwf|].
  set (r3 := gt_drop (K := natKey) o r2) in *.
  assert (Hp3 : publicT r3.1 = publicT r ∧ sinks r3.1 = sinks r) by (rewrite Hfn; by split).
  destruct Hp3 as [Hp3 Hs3].
  destruct (gt_drop_spec (K := publicKey) o r3.1) as [_ Hfp _ _ _ _ _ Hsyp Hmp];
    [change (table_wf public_key (publicT r3.1)); rewrite Hp3; apply Hwf|].
  set (r4 := gt_drop (K := publicKey) o r3.1) in *.
  unfold nat_view, public_view. rewrite !delivered_app, !foldl_app.
  destruct (not_global_views (delivered s r1.2) (tab (natT r)) (tab (publicT r))) as [Hv1 Hv2];
    [by apply Forall_delivered|]. unfold nat_view, public_view in *. rewrite Hv1, Hv2.
  split.
  - rewrite (d_sinks _ _ _ Hd). done.
  - rewrite <-Hn2. change (natT r2) with (gt_get (K := natKey) r2).
    rewrite Hsyn by (rewrite Hs2; done || apply Hwf). rewrite (gt_msgs_none (K := publicKey) r4.2); [|done|exact Hmp].
    rewrite Hfp. done.
  - rewrite (gt_msgs_none (K := natKey) r3.2); [|done|exact Hmn]. rewrite <-Hp3.
    change (publicT r3.1) with (gt_get (K := publicKey) r3.1). apply Hsyp; rewrite ?Hs3; [apply Hwf|done].
Qed.

(** ** Registration and the run *)

Lemma elem_of_global_records (nt : gmap natKey NatBlock) (pt : gmap publicKey PublicPrefix) m :
  m ∈ global_records nt pt ↔
  (∃ k b, nt !! k = Some b ∧ m = natUpdate b ROUTE_OP_ADD) ∨ (∃ k p, pt !! k = Some p ∧ m = publicUpdate p ROUTE_OP_ADD).
Proof.
  unfold global_records. rewrite elem_of_app, !list_elem_of_fmap. split.
  - intros [([k b] & -> & Hin%elem_of_map_to_list)|([k b] & -> & Hin%elem_of_map_to_list)]; eauto.
  - intros [(k & b & Hin & ->)|(k & p & Hin & ->)]; [left; exists (k, b)|right; exists (k, p)];
      by rewrite elem_of_map_to_list.
Qed.

(** The replay an edge is given at registration rebuilds both tables. *)
Lemma replay_views r snap :
  rib_wf r → is_replay (tab (natT r)) (tab (publicT r)) snap →
  nat_view ∅ snap = tab (natT r) ∧ public_view ∅ snap = tab (publicT r).
Proof.
  intros Hwf (recs & Hp & ->).
  assert (Hin : ∀ m, m ∈ recs ++ [MEndOfGlobal (u32 (Z.of_nat (length recs)))] ↔
    m ∈ global_records (tab (natT r)) (tab (publicT r)) ∨ m = MEndOfGlobal (u32 (Z.of_nat (length recs)))).
  { intros m. by rewrite elem_of_app, list_elem_of_singleton, Hp. }
  split; (apply gt_fold_table; [apply Hwf|intros m v op Hm Hpa|intros v Hv]).
  - rewrite Hin, elem_of_global_records in Hm. destruct Hm as [[(k & b & Hk & ->)|(k & p & Hk & ->)]| ->]; try discriminate Hpa.
    injection Hpa as -> <-. split; [done|]. cbn. by rewrite (tok_key _ _ _ (wf_nat _ Hwf) _ _ Hk).
  - exists (natUpdate v ROUTE_OP_ADD). split; [|done]. rewrite Hin, elem_of_global_records. left; left. by exists (nat_key v), v.
  - rewrite Hin, elem_of_global_records in Hm. destruct Hm as [[(k & b & Hk & ->)|(k & p & Hk & ->)]| ->]; try discriminate Hpa.
    injection Hpa as -> <-. split; [done|]. cbn. by rewrite (tok_key _ _ _ (wf_public _ Hwf) _ _ Hk).
  - exists (publicUpdate v ROUTE_OP_ADD). split; [|done]. rewrite Hin, elem_of_global_records. left; right. by exists (public_key v), v.
Qed.

Lemma RegisterSink_eq s r :
  let r0 := with_sinks (<[sink_id s := s]> (sinks r)) r in
  RegisterSink s r = ((globalSnapshotLocked r0).1, [(s, SendSnapshot (globalSnapshotLocked r0).2)]).
Proof. unfold RegisterSink. by destruct (globalSnapshotLocked _). Qed.

Lemma RegisterSink_global s r :
  rib_wf r →
  follows_global s (RegisterSink s r).1 (nat_view ∅ (delivered s (RegisterSink s r).2))
    (public_view ∅ (delivered s (RegisterSink s r).2)).
Proof.
  intros Hwf. rewrite RegisterSink_eq. cbv zeta. set (r0 := with_sinks _ r).
  assert (Hwf0 : rib_wf r0) by (apply with_sinks_wf; [apply sinks_ok_insert, Hwf|done]).
  destruct (globalSnapshotLocked_spec r0 Hwf0) as (_ & Hrep & Hfr). cbn [fst snd].
  assert (Hd : delivered s [(s, SendSnapshot (globalSnapshotLocked r0).2)] = (globalSnapshotLocked r0).2)
    by (cbn; rewrite decide_True by done; apply app_nil_r).
  rewrite Hd. destruct (replay_views r0 _ Hwf0 Hrep) as [-> ->]. rewrite Hfr. split; [|done|done].
  cbn. apply lookup_insert_eq.
Qed.

Lemma RegisterSink_other_global s' r s nv pv :
  rib_wf r → sink_id s' ≠ sink_id s → follows_global s r nv pv →
  follows_global s (RegisterSink s' r).1 (nat_view nv (delivered s (RegisterSink s' r).2))
    (public_view pv (delivered s (RegisterSink s' r).2)).
Proof.
  intros Hwf Hne [Hsk -> ->]. rewrite RegisterSink_eq. cbv zeta. set (r0 := with_sinks _ r).
  assert (Hwf0 : rib_wf r0) by (apply with_sinks_wf; [apply sinks_ok_insert, Hwf|done]).
  destruct (globalSnapshotLocked_spec r0 Hwf0) as (_ & _ & Hfr). cbn [fst snd].
  rewrite delivered_other by done. rewrite Hfr. split; [|done|done]. cbn. by rewrite lookup_insert_ne.
Qed.

Lemma follows_global_same s r r' nv pv :
  sinks r' !! sink_id s = sinks r !! sink_id s → natT r' = natT r → publicT r' = publicT r →
  follows_global s r nv pv → follows_global s r' nv pv.
Proof. intros Hs Hn Hp [Hsk -> ->]. split; [by rewrite Hs|by rewrite Hn|by rewrite Hp]. Qed.

Lemma step_global (op : RibOp) r s nv pv :
  rib_wf r → quiet_global s op → follows_global s r nv pv →
  follows_global s (rib_step op r).1 (nat_view nv (delivered s (rib_step op r).2))
    (public_view pv (delivered s (rib_step op r).2)).
Proof.
  intros Hwf Hq Hfg. destruct op; cbn [rib_step quiet_global] in *;
    eauto using Subscribe_global, Withdraw_global, RegisterSink_other_global, WithdrawNat_global, WithdrawPublic_global,
      dropOriginLocked_global.
  - by eapply follows_global_same; [..|exact Hfg].
  - eapply route_follows; [apply fanoutChange_route|..|exact Hfg]; done.
  - eapply follows_global_same; [..|exact Hfg]; try done. cbn. by rewrite lookup_delete_ne.
  - eapply broadcast_nat_global; [apply Hwf|done|done|exact Hfg|]. cbn. by rewrite (fg_nat _ _ _ _ Hfg).
  - eapply broadcast_public_global; [apply Hwf|done|done|exact Hfg|]. cbn. by rewrite (fg_public _ _ _ _ Hfg).
  - unfold ClaimOrigin. destruct (Rib.origins r !! nodeID); cbn [fst snd].
    + apply dropOriginLocked_global; [apply with_sinks_wf; [apply sinks_ok_delete, Hwf|by apply with_tokens_wf]|].
      eapply follows_global_same; [..|exact Hfg]; try done. cbn. by rewrite lookup_delete_ne.
    + by eapply follows_global_same; [..|exact Hfg].
  - unfold ReleaseOrigin. case_decide; [|done].
    apply dropOriginLocked_global; [apply with_sinks_wf; [apply sinks_ok_delete, Hwf|by apply with_tokens_wf]|].
    eapply follows_global_same; [..|exact Hfg]; try done. cbn. by rewrite lookup_delete_ne.
  - unfold SetFence. destruct (fenceKey _) as [[key n]|]; [|done]. case_decide; [done|].
    eapply route_follows; [apply refilter_route|..|exact Hfg]; done.
  - unfold ClearFence. destruct (fenceKey _) as [[key n]|]; [|done]. case_decide; [|done].
    eapply route_follows; [apply refilter_route|..|exact Hfg]; done.
Qed.

End steps.

Lemma run_global ops r s nv pv :
  rib_wf r → Forall (fun '(_, op) => quiet_global s op) ops → follows_global s r nv pv →
  follows_global s (rib_run ops r).1 (nat_view nv (delivered s (rib_run ops r).2))
    (public_view pv (delivered s (rib_run ops r).2)).
Proof.
  revert r nv pv. induction ops as [|[ro op] ops IH]; intros r nv pv Hwf Hq Hfg; [done|].
  apply Forall_cons in Hq as [Hq Hqs]. rewrite rib_run_cons. cbn [fst snd]. unfold nat_view, public_view.
  rewrite delivered_app, !foldl_app. apply IH; [by apply step_wf|done|]. by apply step_global.
Qed.

(** ** Session tokens *)

(** What an operation does to a node's token: nothing, remove it, or issue the
    next one. *)
Lemma step_token {ro : RangeOrder} (op : RibOp) (r : RIB) (n : string) :
  rib_wf r →
  (nextToken (rib_step op r).1 = nextToken r ∧
     (Rib.origins (rib_step op r).1 !! n = Rib.origins r !! n ∨ Rib.origins (rib_step op r).1 !! n = None)) ∨
  (nextToken (rib_step op r).1 = u64 (nextToken r + 1) ∧
     (Rib.origins (rib_step op r).1 !! n = Rib.origins r !! n ∨
      Rib.origins (rib_step op r).1 !! n = Some (u64 (nextToken r + 1)))).
Proof.
  intros Hwf.
  assert (Hdrop : ∀ o r0, rib_wf r0 → Rib.origins (dropOriginLocked o r0).1 = Rib.origins r0 ∧
    nextToken (dropOriginLocked o r0).1 = nextToken r0) by (intros; by apply dropped_of).
  destruct op; cbn [rib_step].
  - left. unfold Subscribe. case_match; by split; [|left].
  - left. by split; [|left].
  - left. by split; [|left].
  - left. unfold Withdraw. rewrite withdrawRouteOrigin_frame. by split; [|left].
  - left. rewrite RegisterSink_eq. cbv zeta. destruct (globalSnapshotLocked_spec (with_sinks (<[sink_id s:=s]> (sinks r)) r)) as (_ & _ & ->).
    { apply with_sinks_wf; [apply sinks_ok_insert, Hwf|done]. }
    by split; [|left].
  - left. by split; [|left].
  - left. by split; [|left].
  - left. destruct (WithdrawNat_cases origin natIP portMin portMax permit r Hwf) as [->|(b & _ & _ & _ & _ & ->)]; by split; [|left].
  - left. by split; [|left].
  - left. destruct (WithdrawPublic_cases origin rec permit r Hwf) as [->|(b & _ & _ & _ & _ & ->)]; by split; [|left].
  - right. unfold ClaimOrigin. destruct (Rib.origins r !! nodeID) eqn:Hn; cbn [fst].
    + destruct (Hdrop nodeID (with_sinks (delete nodeID (sinks r)) (with_tokens (<[nodeID:=u64 (nextToken r + 1)]> (Rib.origins r)) (u64 (nextToken r + 1)) r)))
        as [Ho Ht]; [apply with_sinks_wf; [apply sinks_ok_delete, Hwf|by apply with_tokens_wf]|].
      cbn [sinks with_tokens]. rewrite Ho, Ht. cbn. split; [done|]. rewrite lookup_insert. case_decide; auto.
    + cbn. split; [done|]. rewrite lookup_insert. case_decide; auto.
  - left. unfold ReleaseOrigin. case_decide; [|by split; [|left]].
    destruct (Hdrop nodeID (with_sinks (delete nodeID (sinks r)) (with_tokens (delete nodeID (Rib.origins r)) (nextToken r) r)))
      as [Ho Ht]; [apply with_sinks_wf; [apply sinks_ok_delete, Hwf|by apply with_tokens_wf]|].
    cbn [sinks with_tokens]. rewrite Ho, Ht. cbn. split; [done|]. rewrite lookup_delete. case_decide; auto.
  - left. destruct (Hdrop origin r Hwf) as [-> ->]. by split; [|left].
  - left. unfold SetFence. destruct (fenceKey _) as [[??]|]; [case_decide|]; by split; [|left].
  - left. unfold ClearFence. destruct (fenceKey _) as [[??]|]; [case_decide|]; by split; [|left].
Qed.

Lemma run_app ops1 ops2 r : (rib_run (ops1 ++ ops2) r).1 = (rib_run ops2 (rib_run ops1 r).1).1.
Proof.
  revert r. induction ops1 as [|[ro op] ops1 IH]; intros r; [done|]. cbn [app]. rewrite !rib_run_cons. cbn [fst]. apply IH.
Qed.

(** The counter moves by at most one an operation, while it does not wrap. *)
Lemma run_nextToken ops r :
  rib_wf r → 0 ≤ nextToken r → nextToken r + Z.of_nat (length ops) < 2 ^ 64 →
  nextToken r ≤ nextToken (rib_run ops r).1 ≤ nextToken r + Z.of_nat (length ops).
Proof.
  revert r. induction ops as [|[ro op] ops IH]; intros r Hwf H0 Hlen; [simpl; lia|].
  rewrite rib_run_cons. cbn [fst]. cbn [length] in *. specialize (IH (rib_step op r).1 (step_wf op r Hwf)).
  destruct (step_token op r "" Hwf) as [[Hnt _]|[Hnt _]]; rewrite Hnt in IH; rewrite ?u64_small in IH by lia; lia.
Qed.

(** Tokens above [t] stay above [t]. *)
Lemma run_token ops r n t :
  rib_wf r → 0 ≤ t ≤ nextToken r → nextToken r + Z.of_nat (length ops) < 2 ^ 64 →
  (∀ t', Rib.origins r !! n = Some t' → t < t') → ∀ t', Rib.origins (rib_run ops r).1 !! n = Some t' → t < t'.
Proof.
  revert r. induction ops as [|[ro op] ops IH]; intros r Hwf Ht Hlen Hr; [done|].
  rewrite rib_run_cons. cbn [fst]. cbn [length] in *. specialize (IH (rib_step op r).1 (step_wf op r Hwf)).
  destruct (step_token op r n Hwf) as [[Hnt Ho]|[Hnt Ho]]; rewrite Hnt in IH; rewrite ?u64_small in * by lia;
    apply IH; try lia; intros t'; destruct Ho as [->| ->]; try done; try apply Hr.
  intros [= <-]. lia.
Qed.

(** A claim issues the next token, and the node holds it. *)
Lemma ClaimOrigin_token {ro : RangeOrder} n r :
  rib_wf r →
  (ClaimOrigin n r).2 = u64 (nextToken r + 1) ∧ nextToken (ClaimOrigin n r).1.1 = u64 (nextToken r + 1) ∧
  Rib.origins (ClaimOrigin n r).1.1 !! n = Some (u64 (nextToken r + 1)).
Proof.
  intros Hwf. unfold ClaimOrigin. destruct (Rib.origins r !! n); cbn [fst snd].
  - destruct (d_tokens _ _ _ (dropped_of n _ (with_sinks_wf _ _ (sinks_ok_delete _ n (wf_sinks _ Hwf))
      (with_tokens_wf (<[n := u64 (nextToken r + 1)]> (Rib.origins r)) (u64 (nextToken r + 1)) _ Hwf)))) as [Ho Ht].
    cbn [sinks with_tokens]. rewrite Ho, Ht. cbn. by rewrite lookup_insert_eq.
  - cbn. by rewrite lookup_insert_eq.
Qed.

(** ** Properties *)

(** C11. An edge on the global feed knows exactly the two global tables.  From its
    registration on, under any interleaving of the other sessions' operations,
    the replay of the messages sent to it gives the current NAT table and the
    current table of public prefixes. *)
Theorem global_feed_view (ro : RangeOrder) (r : RIB) (s : Sink) (ops : list (RangeOrder * RibOp)) :
  rib_wf r → Forall (fun '(_, op) => quiet_global s op) ops →
  let out := rib_run ((ro, OpRegisterSink s) :: ops) r in
  nat_view ∅ (delivered s out.2) = tab (natT out.1) ∧ public_view ∅ (delivered s out.2) = tab (publicT out.1).
Proof.
  intros Hwf Hq. cbv zeta. rewrite rib_run_cons. cbn [fst snd]. unfold nat_view, public_view. rewrite delivered_app, !foldl_app.
  edestruct (run_global ops (rib_step (OpRegisterSink s) r).1 s) as [_ Hn Hp];
    [by apply step_wf|done|by apply RegisterSink_global|]. by split.
Qed.

Lemma global_feed_view_witness :
  let b lo hi owner := mkNatBlock 7 "10.0.0.5" "203.0.113.1" lo hi owner in
  let s := mkSink 1 "edge-a" in
  let r := (rib_run [(canonical_order, OpAnnounceNat "node-b" (b 1024 2048 "fd00::b"))] NewRIB).1 in
  let out := rib_run ((canonical_order, OpRegisterSink s) ::
                      [(canonical_order, OpAnnounceNat "node-c" (b 2048 3072 "fd00::c"));
                       (canonical_order, OpDropOrigin "node-b")]) r in
  (nat_view ∅ (delivered s out.2) = tab (natT out.1) ∧ public_view ∅ (delivered s out.2) = tab (publicT out.1)) ∧
  tab (natT out.1) !! mkNatKey "203.0.113.1" 2048 = Some (b 2048 3072 "fd00::c") ∧
  tab (natT out.1) !! mkNatKey "203.0.113.1" 1024 = None.
Proof.
  intros b s r out. split; [|split; vm_compute; reflexivity].
  apply (global_feed_view canonical_order r s); [apply run_wf, NewRIB_wf|repeat constructor].
Defined.

(** C21. The end of a session removes everything of the node and nothing else.
    After [ReleaseOrigin] with the session's own token no route, NAT block, public
    record, subscription or sink of the node is left, and the announcements and
    records of every other origin are untouched. *)
Theorem ReleaseOrigin_clears (ro : RangeOrder) (r : RIB) (n : string) (token : Z) :
  rib_wf r → Rib.origins r !! n = Some token →
  let r' := (ReleaseOrigin n token r).1 in
  (∀ k, origins_at (routes r') k = delete n (origins_at (routes r) k)) ∧
  (∀ vni, default ∅ (subscribers r' !! vni) = delete n (default ∅ (subscribers r !! vni))) ∧
  (∀ k, orig (natT r') !! k ≠ Some n) ∧ (∀ k, orig (publicT r') !! k ≠ Some n) ∧
  (∀ k, orig (natT r) !! k ≠ Some n → tab (natT r') !! k = tab (natT r) !! k) ∧
  (∀ k, orig (publicT r) !! k ≠ Some n → tab (publicT r') !! k = tab (publicT r) !! k) ∧
  sinks r' = delete n (sinks r) ∧ Rib.origins r' = delete n (Rib.origins r).
Proof.
  intros Hwf Ho. cbv zeta. unfold ReleaseOrigin. rewrite decide_True by done.
  set (r0 := with_sinks _ _).
  assert (Hwf0 : rib_wf r0) by (apply with_sinks_wf; [apply sinks_ok_delete, Hwf|by apply with_tokens_wf]).
  destruct (dropped_of n r0 Hwf0) as [Hr _ _ Hsub Hnat Hnk _ Hnb Hpub Hpk _ Hpb _ Hsk _ [Hto _]].
  split_and!; try done.
  - intros vni. rewrite Hsub. cbn. unfold drop_subscriptions. rewrite lookup_omap.
    destruct (subscribers r !! vni) as [subs|]; cbn; [|by rewrite delete_empty].
    case_decide as Hz; [|done]. apply map_size_empty_inv in Hz. by rewrite Hz.
  - intros k Hk. apply (tok_index _ _ _ Hnat) in Hk as [Hk|[]]. rewrite Hnb in Hk. by apply elem_of_empty in Hk.
  - intros k Hk. apply (tok_index _ _ _ Hpub) in Hk as [Hk|[]]. rewrite Hpb in Hk. by apply elem_of_empty in Hk.
  - intros k Hk. by apply Hnk.
  - intros k Hk. by apply Hpk.
Qed.

Lemma ReleaseOrigin_clears_witness :
  let r := (rib_run [(canonical_order, OpClaimOrigin "node-b");
                     (canonical_order, OpAnnounce "node-b" 7 "10.0.0.9/32" ["fd00::b"] false);
                     (canonical_order, OpAnnounce "node-c" 7 "10.0.0.9/32" ["fd00::c"] false)] NewRIB).1 in
  let r' := (ReleaseOrigin (ro := canonical_order) "node-b" 1 r).1 in
  (∀ k, origins_at (routes r') k = delete "node-b" (origins_at (routes r) k)) ∧ Advertised 7 "10.0.0.9/32" r' = ["fd00::c"].
Proof.
  intros r r'. split; [|vm_compute; reflexivity].
  apply (ReleaseOrigin_clears canonical_order r "node-b" 1); [apply run_wf, NewRIB_wf|vm_compute; reflexivity].
Defined.

(** C19. A superseded session tears nothing down.  Once a node id has been claimed
    again, the [ReleaseOrigin] of the earlier session changes nothing and sends
    nothing, whatever happened in between and since; fewer than 2^64 operations
    keep the token counter from wrapping. *)
Theorem superseded_release_noop (ro ro' ro'' : RangeOrder) (r : RIB) (n : string) (ops1 ops2 : list (RangeOrder * RibOp)) :
  rib_wf r → 0 ≤ nextToken r → nextToken r + Z.of_nat (length ops1 + length ops2) + 2 < 2 ^ 64 →
  let first := ClaimOrigin (ro := ro) n r in
  let r' := (rib_run (ops1 ++ (ro', OpClaimOrigin n) :: ops2) first.1.1).1 in
  ReleaseOrigin (ro := ro'') n first.2 r' = (r', []).
Proof.
  intros Hwf H0 Hlen. cbv zeta. destruct (ClaimOrigin_token (ro := ro) n r Hwf) as (Htok & Hnt & _).
  rewrite u64_small in * by lia. rewrite Htok. set (r0 := (ClaimOrigin (ro := ro) n r).1.1) in *.
  assert (Hwf0 : rib_wf r0) by by apply (step_wf (ro := ro) (OpClaimOrigin n)).
  rewrite run_app, rib_run_cons. cbn [fst rib_step]. set (r1 := (rib_run ops1 r0).1).
  assert (Hwf1 : rib_wf r1) by by apply run_wf.
  pose proof (run_nextToken ops1 r0 Hwf0) as Hb. fold r1 in Hb.
  destruct (ClaimOrigin_token (ro := ro') n r1 Hwf1) as (_ & Hnt2 & Ho2). rewrite u64_small in * by lia.
  unfold ReleaseOrigin. rewrite decide_False; [done|]. intros Hc.
  apply (run_token _ _ _ (nextToken r + 1)) in Hc; [lia|by apply (step_wf (ro := ro') (OpClaimOrigin n))|lia|lia|].
  intros t'. rewrite Ho2. intros [= <-]. lia.
Qed.

Lemma superseded_release_noop_witness :
  let first := ClaimOrigin (ro := canonical_order) "node-b" NewRIB in
  let r' := (rib_run ([] ++ (canonical_order, OpClaimOrigin "node-b") ::
                      [(canonical_order, OpAnnounce "node-b" 7 "10.0.0.9/32" ["fd00::b"] false)]) first.1.1).1 in
  ReleaseOrigin (ro := canonical_order) "node-b" first.2 r' = (r', []) ∧ Advertised 7 "10.0.0.9/32" r' = ["fd00::b"].
Proof.
  intros first r'. split; [|vm_compute; reflexivity].
  apply (superseded_release_noop canonical_order canonical_order canonical_order NewRIB "node-b" []).
  - apply NewRIB_wf.
  - vm_compute. discriminate.
  - vm_compute. reflexivity.
Defined.

(** What a withdraw of the record at [k] may do, by its outcome. *)
Definition withdraw_nat_post (r : RIB) (origin : string) (k : natKey) (permit : OwnerPermit)
    (x : RIB * list SinkOut * WithdrawOutcome) : Prop :=
  let '(r', out, res) := x in
  match res with
  | WithdrawApplied => ∃ b, tab (natT r) !! k = Some b ∧ orig (natT r) !! k = Some origin ∧
      allows permit (nb_OwnerUnderlay b) = true ∧ tab (natT r') = delete k (tab (natT r)) ∧ publicT r' = publicT r
  | WithdrawAbsent => tab (natT r) !! k = None ∧ r' = r ∧ out = []
  | WithdrawRefused => r' = r ∧ out = [] ∧ ∃ b, tab (natT r) !! k = Some b ∧
      (orig (natT r) !! k ≠ Some origin ∨ allows permit (nb_OwnerUnderlay b) = false)
  end.

Definition withdraw_public_post (r : RIB) (origin : string) (k : publicKey) (permit : OwnerPermit)
    (x : RIB * list SinkOut * WithdrawOutcome) : Prop :=
  let '(r', out, res) := x in
  match res with
  | WithdrawApplied => ∃ q, tab (publicT r) !! k = Some q ∧ orig (publicT r) !! k = Some origin ∧
      allows permit (pp_OwnerUnderlay q) = true ∧ tab (publicT r') = delete k (tab (publicT r)) ∧ natT r' = natT r
  | WithdrawAbsent => tab (publicT r) !! k = None ∧ r' = r ∧ out = []
  | WithdrawRefused => r' = r ∧ out = [] ∧ ∃ q, tab (publicT r) !! k = Some q ∧
      (orig (publicT r) !! k ≠ Some origin ∨ allows permit (pp_OwnerUnderlay q) = false)
  end.

(** Only its owner withdraws a NAT block.  [WithdrawNat] is applied exactly when
    the block exists, was announced by this origin, and its owner underlay is
    permitted to the session; the table then loses that block alone.  Otherwise
    the outcome says whether the block is absent or refused, the state is
    unchanged and nothing is sent. *)
Theorem WithdrawNat_guarded (ro : RangeOrder) (r : RIB) (origin ip : string) (lo hi : Z) (permit : OwnerPermit) :
  rib_wf r → withdraw_nat_post r origin (mkNatKey ip lo) permit (WithdrawNat origin ip lo hi permit r).
Proof.
  intros Hwf. unfold WithdrawNat, withdraw_nat_post.
  destruct (tab (natT r) !! mkNatKey ip lo) as [b|] eqn:Hb; [|done]. case_decide as Ho.
  - split_and!; try done. exists b. split; [done|]. left. intros Hx. rewrite Hx in Ho. by apply Ho.
  - destruct (allows permit (nb_OwnerUnderlay b)) eqn:Ha; cbn; [|eauto 6].
    exists b. split_and!; try done. eapply orig_default; [apply Hwf|done|]. by destruct (decide (default "" (orig (natT r) !! mkNatKey ip lo) = origin)).
Qed.

Lemma WithdrawNat_guarded_witness :
  let b := mkNatBlock 7 "10.0.0.5" "203.0.113.1" 1024 2048 "fd00::b" in
  let r := (rib_run [(canonical_order, OpAnnounceNat "node-b" b)] NewRIB).1 in
  withdraw_nat_post r "node-c" (mkNatKey "203.0.113.1" 1024) None
    (WithdrawNat (ro := canonical_order) "node-c" "203.0.113.1" 1024 2048 None r) ∧
  (WithdrawNat (ro := canonical_order) "node-c" "203.0.113.1" 1024 2048 None r).2 = WithdrawRefused ∧
  (WithdrawNat (ro := canonical_order) "node-b" "203.0.113.1" 1024 2048 None r).2 = WithdrawApplied.
Proof.
  split; [apply (WithdrawNat_guarded canonical_order); apply run_wf, NewRIB_wf|].
  split; vm_compute; reflexivity.
Defined.

(** Only its owner withdraws a public record: [WithdrawPublic] is applied exactly
    when the record exists, was announced by this origin, and the owner underlay
    it was stored with is permitted to the session; otherwise the state is
    unchanged and nothing is sent. *)
Theorem WithdrawPublic_guarded (ro : RangeOrder) (r : RIB) (origin : string) (p : PublicPrefix) (permit : OwnerPermit) :
  rib_wf r → withdraw_public_post r origin (public_key p) permit (WithdrawPublic origin p permit r).
Proof.
  intros Hwf. unfold WithdrawPublic, withdraw_public_post.
  destruct (tab (publicT r) !! public_key p) as [q|] eqn:Hb; [|done]. case_decide as Ho.
  - split_and!; try done. exists q. split; [done|]. left. intros Hx. rewrite Hx in Ho. by apply Ho.
  - destruct (allows permit (pp_OwnerUnderlay q)) eqn:Ha; cbn; [|eauto 6].
    exists q. split_and!; try done. eapply orig_default; [apply Hwf|done|]. by destruct (decide (default "" (orig (publicT r) !! public_key p) = origin)).
Qed.

Lemma WithdrawPublic_guarded_witness :
  let p := mkPublicPrefix PUBLIC_KIND_FLOATING_IP "203.0.113.9/32" "fd00::b" 7 0 0 "" [] in
  let r := (rib_run [(canonical_order, OpAnnouncePublic "node-b" p)] NewRIB).1 in
  let permit := Some (fun o => bool_decide (o = "fd00::c")) in
  withdraw_public_post r "node-b" (public_key p) permit (WithdrawPublic (ro := canonical_order) "node-b" p permit r) ∧
  (WithdrawPublic (ro := canonical_order) "node-b" p permit r).2 = WithdrawRefused ∧
  (WithdrawPublic (ro := canonical_order) "node-b" p None r).2 = WithdrawApplied.
Proof.
  split; [apply (WithdrawPublic_guarded canonical_order); apply run_wf, NewRIB_wf|].
  split; vm_compute; reflexivity.
Defined.
