(* ===== verification/Queue.v ===== *)
(** * The outbound queue of a session

    [mesh/reflector/queue.go] and the drain goroutine of [server.go]'s [Session].
    The queue's methods are functions of its state; the queue, the drain and the
    producers that call it are a transition system whose steps are the critical
    sections, the channel operations and the stream sends, in any interleaving.
    The theorems: no wake-up is lost, the stream carries the queued calls in
    order, and only live deltas past the bound are ever dropped. *)

From S2P Require Import Prelude Net Wire Rib RibFacts.

Open Scope Z_scope.

Definition maxPendingDeltas : Z := 1024.

(** [sessionQueue]: the channel [wake] of capacity one is a boolean. *)
Record sessionQueue := mkQueue {
  q_wake : bool;
  q_pending : list ServerMsg;
  q_deltas : Z;
  q_dropping : bool;
  q_dropped : Z;
  q_closed : bool
}.

Definition newSessionQueue : sessionQueue := mkQueue false [] 0 false 0 false.

Definition q_notify (q : sessionQueue) : sessionQueue :=
  mkQueue true (q_pending q) (q_deltas q) (q_dropping q) (q_dropped q) (q_closed q).

(** [Send]; a refused delta starts a drop episode and is counted. *)
Definition q_Send (m : ServerMsg) (q : sessionQueue) : sessionQueue :=
  if q_closed q then q
  else if decide (maxPendingDeltas ≤ q_deltas q) then
    mkQueue (q_wake q) (q_pending q) (q_deltas q) true (u64 (q_dropped q + 1)) (q_closed q)
  else q_notify (mkQueue (q_wake q) (q_pending q ++ [m]) (q_deltas q + 1) (q_dropping q) (q_dropped q) (q_closed q)).

Definition q_SendSnapshot (ms : list ServerMsg) (q : sessionQueue) : sessionQueue :=
  if q_closed q then q
  else q_notify (mkQueue (q_wake q) (q_pending q ++ ms) (q_deltas q) (q_dropping q) (q_dropped q) (q_closed q)).

(** One turn of [take]'s loop under the lock: a batch, the end, or a wait. *)
Inductive TakeResult := TakeBatch (batch : list ServerMsg) | TakeEnd | TakeWait.

Definition q_take (q : sessionQueue) : sessionQueue * TakeResult :=
  match q_pending q with
  | _ :: _ => (mkQueue (q_wake q) [] 0 false (q_dropped q) (q_closed q), TakeBatch (q_pending q))
  | [] => (q, if q_closed q then TakeEnd else TakeWait)
  end.

Definition q_close (q : sessionQueue) : sessionQueue :=
  q_notify (mkQueue (q_wake q) (q_pending q) (q_deltas q) (q_dropping q) (q_dropped q) true).

Definition q_call (c : SinkCall) (q : sessionQueue) : sessionQueue :=
  match c with Send m => q_Send m q | SendSnapshot ms => q_SendSnapshot ms q end.

(** Does the queue keep the call? *)
Definition q_accepts (c : SinkCall) (q : sessionQueue) : bool :=
  negb (q_closed q) && match c with Send _ => bool_decide (q_deltas q < maxPendingDeltas) | SendSnapshot _ => true end.

(** The drain goroutine: at the lock of [take], blocked on [wake], sending the
    rest of a batch, returned at the end of the queue, or returned on a send
    error. *)
Inductive DrainPC := Checking | Waiting | Sending (rest : list ServerMsg) | Done | Failed.

(** The queue, the drain, what reached the stream, and the calls so far: those
    made before the close, and those of them the queue kept. *)
Record QSys := mkQSys {
  qs_q : sessionQueue;
  qs_pc : DrainPC;
  qs_stream : list ServerMsg;
  qs_calls : list SinkCall;
  qs_kept : list SinkCall
}.

Definition q_init : QSys := mkQSys newSessionQueue Checking [] [] [].

Inductive q_step : QSys → QSys → Prop :=
  | step_call (c : SinkCall) (q : sessionQueue) pc out calls kept :
      q_step (mkQSys q pc out calls kept)
        (mkQSys (q_call c q) pc out (if q_closed q then calls else calls ++ [c]) (if q_accepts c q then kept ++ [c] else kept))
  | step_close (q : sessionQueue) pc out calls kept :
      q_step (mkQSys q pc out calls kept) (mkQSys (q_close q) pc out calls kept)
  | step_take (q q' : sessionQueue) (res : TakeResult) out calls kept :
      q_take q = (q', res) →
      q_step (mkQSys q Checking out calls kept)
        (mkQSys q' (match res with TakeBatch b => Sending b | TakeEnd => Done | TakeWait => Waiting end) out calls kept)
  | step_woken (q : sessionQueue) out calls kept :
      q_wake q = true →
      q_step (mkQSys q Waiting out calls kept)
        (mkQSys (mkQueue false (q_pending q) (q_deltas q) (q_dropping q) (q_dropped q) (q_closed q)) Checking out calls kept)
  | step_sent (q : sessionQueue) m rest out calls kept :
      q_step (mkQSys q (Sending (m :: rest)) out calls kept) (mkQSys q (Sending rest) (out ++ [m]) calls kept)
  | step_batch_done (q : sessionQueue) out calls kept :
      q_step (mkQSys q (Sending []) out calls kept) (mkQSys q Checking out calls kept)
  | step_send_error (q : sessionQueue) m rest out calls kept :
      q_step (mkQSys q (Sending (m :: rest)) out calls kept) (mkQSys (q_close q) Failed out calls kept).

Abbreviation q_reachable := (rtc q_step q_init).

Definition is_snapshot (c : SinkCall) : Prop := match c with SendSnapshot _ => True | Send _ => False end.

#[export] Instance is_snapshot_dec c : Decision (is_snapshot c).
Proof. destruct c; simpl; apply _. Defined.

Definition msgs_of (cs : list SinkCall) : list ServerMsg := cs ≫= call_msgs.

(** The live deltas among some calls. *)
Definition deltas_of (cs : list SinkCall) : Z := Z.of_nat (length (filter (fun c => ¬ is_snapshot c) cs)).

(** The calls kept since the last batch was taken, with what they left in the
    queue and its count of pending deltas. *)
Record pending_since (since kept : list SinkCall) (q : sessionQueue) : Prop := {
  ps_last : since `suffix_of` kept;
  ps_pending : q_pending q = msgs_of since;
  ps_deltas : q_deltas q = deltas_of since
}.

(** Messages handed to the drain and not yet on the stream. *)
Definition in_hand (pc : DrainPC) : list ServerMsg := match pc with Sending rest => rest | _ => [] end.

(** ** The invariants *)

Record q_inv (st : QSys) : Prop := {
  qi_wake : qs_pc st = Waiting → q_pending (qs_q st) ≠ [] ∨ q_closed (qs_q st) = true → q_wake (qs_q st) = true;
  qi_bound : 0 ≤ q_deltas (qs_q st) ≤ maxPendingDeltas;
  qi_order : qs_pc st ≠ Failed → qs_stream st ++ in_hand (qs_pc st) ++ q_pending (qs_q st) = msgs_of (qs_kept st);
  qi_prefix : qs_stream st `prefix_of` msgs_of (qs_kept st);
  qi_kept : qs_kept st `sublist_of` qs_calls st;
  qi_snaps : filter is_snapshot (qs_kept st) = filter is_snapshot (qs_calls st);
  qi_done : qs_pc st = Done → q_closed (qs_q st) = true ∧ q_pending (qs_q st) = [];
  qi_failed : qs_pc st = Failed → q_closed (qs_q st) = true;
  qi_dropped : q_dropped (qs_q st) = u64 (Z.of_nat (length (qs_calls st) - length (qs_kept st)));
  qi_since : ∃ since, pending_since since (qs_kept st) (qs_q st)
}.

Lemma msgs_of_app (l1 l2 : list SinkCall) : msgs_of (l1 ++ l2) = msgs_of l1 ++ msgs_of l2.
Proof. apply bind_app. Qed.

Lemma prefix_extend {A : Type} (l l1 l2 : list A) : l `prefix_of` l1 → l `prefix_of` l1 ++ l2.
Proof. intros [k ->]. exists (k ++ l2). by rewrite app_assoc. Qed.

(** What a call does to the pending messages. *)
Lemma q_call_pending c q :
  q_pending (q_call c q) = q_pending q ++ (if q_accepts c q then call_msgs c else []).
Proof.
  unfold q_accepts. destruct c as [m|ms]; simpl.
  - unfold q_Send. destruct (q_closed q); simpl; [by rewrite app_nil_r|].
    case_decide; case_bool_decide; simpl; rewrite ?app_nil_r; try done; lia.
  - unfold q_SendSnapshot. destruct (q_closed q); simpl; [by rewrite app_nil_r|done].
Qed.

Lemma q_call_closed c q : q_closed (q_call c q) = q_closed q.
Proof. destruct c; simpl; unfold q_Send, q_SendSnapshot; repeat case_match; simpl; congruence. Qed.

(** A call either leaves the queue's pending messages alone or wakes the drain. *)
Lemma q_call_wake c q :
  q_wake (q_call c q) = true ∨ q_wake (q_call c q) = q_wake q ∧ q_pending (q_call c q) = q_pending q.
Proof. destruct c; simpl; unfold q_Send, q_SendSnapshot; repeat case_match; simpl; auto. Qed.

Lemma q_call_deltas c q : 0 ≤ q_deltas q ≤ maxPendingDeltas → 0 ≤ q_deltas (q_call c q) ≤ maxPendingDeltas.
Proof. destruct c; simpl; unfold q_Send, q_SendSnapshot; repeat (case_match || case_decide); simpl; lia. Qed.

Lemma q_call_count c q :
  q_deltas (q_call c q) = q_deltas q + deltas_of (if q_accepts c q then [c] else []).
Proof.
  unfold q_accepts, deltas_of. destruct c; simpl; unfold q_Send, q_SendSnapshot; destruct (q_closed q); simpl; try lia.
  case_decide; case_bool_decide; simpl; lia.
Qed.

Lemma q_call_since c q since kept :
  pending_since since kept q → ∃ since', pending_since since' (if q_accepts c q then kept ++ [c] else kept) (q_call c q).
Proof.
  intros [Hl Hp Hd]. exists (since ++ if q_accepts c q then [c] else []). split.
  - destruct (q_accepts c q); [by apply suffix_snoc|by rewrite app_nil_r].
  - rewrite q_call_pending, msgs_of_app, Hp. f_equal. destruct (q_accepts c q); cbn; by rewrite ?app_nil_r.
  - rewrite q_call_count, Hd. unfold deltas_of. rewrite filter_app, length_app. lia.
Qed.

(** The next delta is dropped by a closed queue, and by one with the bound pending. *)
Lemma q_Send_pending m q since kept :
  pending_since since kept q → q_deltas q ≤ maxPendingDeltas →
  q_pending (q_Send m q) = q_pending q ++ (if q_closed q || bool_decide (deltas_of since = maxPendingDeltas) then [] else [m]).
Proof.
  intros [_ _ <-] Hb. unfold q_Send. destruct (q_closed q); cbn; [by rewrite app_nil_r|].
  case_decide; case_bool_decide; cbn; rewrite ?app_nil_r; try done; lia.
Qed.

Lemma q_call_dropped c q :
  q_dropped (q_call c q) = if negb (q_closed q) && negb (q_accepts c q) then u64 (q_dropped q + 1) else q_dropped q.
Proof.
  unfold q_accepts. destruct c; simpl; unfold q_Send, q_SendSnapshot; destruct (q_closed q); simpl; try done.
  case_decide; case_bool_decide; simpl; try done; lia.
Qed.

Lemma u64_succ (z : Z) : u64 (u64 z + 1) = u64 (z + 1).
Proof. unfold u64. by rewrite Zplus_mod_idemp_l. Qed.

Lemma q_inv_call c q pc out calls kept :
  q_inv (mkQSys q pc out calls kept) →
  q_inv (mkQSys (q_call c q) pc out (if q_closed q then calls else calls ++ [c]) (if q_accepts c q then kept ++ [c] else kept)).
Proof.
  intros [Hw Hb Ho Hp Hk Hs Hd Hf Hdr [since Hsi]]. cbn [qs_q qs_pc qs_stream qs_calls qs_kept] in *.
  assert (Hacc : q_closed q = true → q_accepts c q = false) by (unfold q_accepts; by intros ->).
  split; cbn [qs_q qs_pc qs_stream qs_calls qs_kept]; rewrite ?q_call_closed, ?q_call_pending.
  - intros Hpc Hpend. destruct (q_call_wake c q) as [|[-> He]]; [done|]. apply Hw; [done|].
    rewrite q_call_pending in He. rewrite He in Hpend. done.
  - by apply q_call_deltas.
  - intros Hpc. rewrite !app_assoc, <-(app_assoc out), Ho by done.
    destruct (q_accepts c q); [|apply app_nil_r]. rewrite msgs_of_app. cbn. by rewrite app_nil_r.
  - destruct (q_accepts c q); [|done]. rewrite msgs_of_app. by apply prefix_extend.
  - destruct (q_closed q); [by rewrite Hacc|]. destruct (q_accepts c q).
    + by apply sublist_app.
    + by apply sublist_inserts_r.
  - destruct (q_closed q) eqn:Hc; [by rewrite Hacc|]. destruct (q_accepts c q) eqn:Ha; rewrite !filter_app, ?Hs; [done|].
    destruct c; cbn; [by rewrite app_nil_r|]. unfold q_accepts in Ha. by rewrite Hc in Ha.
  - intros Hpc. destruct (Hd Hpc) as [Hc Hpe]. by rewrite Hacc, Hpe.
  - done.
  - apply sublist_length in Hk. rewrite q_call_dropped, Hdr. destruct (q_closed q); [by rewrite Hacc|].
    destruct (q_accepts c q); cbn; rewrite ?length_app; cbn; [do 2 f_equal; lia|].
    rewrite u64_succ. f_equal. lia.
  - by eapply q_call_since.
Qed.

Lemma q_inv_step st st' : q_inv st → q_step st st' → q_inv st'.
Proof.
  intros Hi Hst. destruct Hst as [c q pc out calls kept|q pc out calls kept|q q' res out calls kept Ht
    |q out calls kept Hwk|q m rest out calls kept|q out calls kept|q m rest out calls kept];
    [by apply q_inv_call|..]; destruct Hi as [Hw Hb Ho Hp Hk Hs Hd Hf Hdr Hsi];
    cbn [qs_q qs_pc qs_stream qs_calls qs_kept in_hand] in *.
  - split; cbn; try done; [intros Hpc; by apply Hd in Hpc as [_ ?]|]. destruct Hsi as [since []]. by exists since.
  - unfold q_take in Ht. destruct (q_pending q) as [|m ms] eqn:Hpe; simplify_eq.
    + split; cbn; rewrite ?Hpe in *; try done; destruct (q_closed q'); try done.
      * intros _ [|]; done.
      * intros _. by apply Ho.
      * intros _. by apply Ho.
    + assert (Hnew : ∃ since, pending_since since kept (mkQueue (q_wake q) [] 0 false (q_dropped q) (q_closed q)))
        by (exists []; split; [apply suffix_nil|done..]).
      split; cbn; rewrite ?app_nil_r; try done; try (unfold maxPendingDeltas; lia). intros _. by apply Ho.
  - split; cbn; try done; [intros _; by apply Ho|]. destruct Hsi as [since []]. by exists since.
  - assert (Heq : (out ++ [m]) ++ rest ++ q_pending q = msgs_of kept)
      by (rewrite <-app_assoc; by apply Ho).
    split; cbn [qs_q qs_pc qs_stream qs_calls qs_kept in_hand]; try done. rewrite <-Heq. by eexists.
  - split; cbn; try done. intros _. by apply Ho.
  - split; cbn; try done. destruct Hsi as [since []]. by exists since.
Qed.

Lemma q_inv_reachable st : q_reachable st → q_inv st.
Proof.
  assert (H0 : q_inv q_init).
  { split; cbn; try done. by exists []. }
  revert st. apply (rtc_ind_r q_inv q_init); [done|]. intros st st' _ Hst Hi. by eapply q_inv_step.
Qed.

Lemma sublist_full {A : Type} (l k : list A) : l `sublist_of` k → (length k ≤ length l)%nat → l = k.
Proof.
  induction 1 as [|x l k Hs IH|x l k Hs IH]; simpl; intros Hl; [done| |].
  - f_equal. apply IH. lia.
  - apply sublist_length in Hs. lia.
Qed.

(** Sending the batch in hand. *)
Lemma q_send_all q rest out calls kept :
  rtc q_step (mkQSys q (Sending rest) out calls kept) (mkQSys q Checking (out ++ rest) calls kept).
Proof.
  revert out. induction rest as [|m rest IH]; intros out.
  - rewrite app_nil_r. apply rtc_once, step_batch_done.
  - eapply rtc_l; [apply step_sent|]. rewrite (cons_middle m out rest), app_assoc. apply IH.
Qed.

(** From the lock of [take] the drain empties the queue. *)
Lemma q_drain_checking q out calls kept :
  ∃ q' pc', rtc q_step (mkQSys q Checking out calls kept) (mkQSys q' pc' (out ++ q_pending q) calls kept).
Proof.
  destruct (q_pending q) as [|m ms] eqn:Hp.
  - exists q, Checking. rewrite app_nil_r. apply rtc_refl.
  - eexists _, Checking. eapply rtc_l; [eapply (step_take q _ (TakeBatch (m :: ms)))|apply q_send_all].
    unfold q_take. by rewrite Hp.
Qed.

(** The calls of a trace on one sink. *)
Definition calls_to (s : Sink) (o : list SinkOut) : list SinkCall :=
  omap (fun '(s', c) => if decide (s' = s) then Some c else None) o.

Lemma delivered_calls s o : delivered s o = msgs_of (calls_to s o).
Proof.
  unfold delivered, calls_to, msgs_of. induction o as [|[s' c] o IH]; [done|]. csimpl.
  case_decide; csimpl; by rewrite IH.
Qed.

(** ** Properties *)

(** No wake-up is lost.  In every interleaving of producers, close and drain, a
    drain blocked on the channel while something is queued, or after a close, has
    a wake-up waiting, so it goes on to take the queue again. *)
Theorem queue_no_lost_wakeup (st : QSys) :
  q_reachable st → qs_pc st = Waiting →
  q_pending (qs_q st) ≠ [] ∨ q_closed (qs_q st) = true →
  ∃ st', q_step st st' ∧ qs_pc st' = Checking ∧ q_pending (qs_q st') = q_pending (qs_q st).
Proof.
  intros Hr Hpc Hq. pose proof (qi_wake _ (q_inv_reachable _ Hr) Hpc Hq) as Hw.
  destruct st as [q pc out calls kept]. simpl in *. subst pc. eexists. split; [by apply step_woken|done].
Qed.

Lemma queue_no_lost_wakeup_witness :
  let st := mkQSys (q_call (Send MServerKeepAlive) newSessionQueue) Waiting [] [Send MServerKeepAlive] [Send MServerKeepAlive] in
  ∃ st', q_step st st' ∧ qs_pc st' = Checking ∧ q_pending (qs_q st') = [MServerKeepAlive].
Proof.
  apply (queue_no_lost_wakeup (mkQSys (q_call (Send MServerKeepAlive) newSessionQueue) Waiting []
    [Send MServerKeepAlive] [Send MServerKeepAlive])).
  - eapply rtc_l; [apply (step_take newSessionQueue newSessionQueue TakeWait); reflexivity|].
    apply rtc_once. apply (step_call (Send MServerKeepAlive) newSessionQueue Waiting [] [] []).
  - reflexivity.
  - left. discriminate.
Defined.

(** C28. The stream carries the calls in order, snapshots whole, and a delta is
    dropped only at the bound.  In every interleaving there is a list of calls
    kept, a sublist of the calls made, with every snapshot among them, such that
    what the stream has carried is a prefix of their messages, and, unless a send
    failed, what it has carried, the batch in hand and the queue together are
    exactly their messages.  The queue holds the messages of the calls kept since
    the drain last took a batch, at most [maxPendingDeltas] of them live deltas,
    and the next delta is queued unless the queue is closed or exactly that many
    are pending. *)
Theorem queue_delivery (st : QSys) :
  q_reachable st →
  qs_stream st `prefix_of` msgs_of (qs_kept st) ∧
  (qs_pc st ≠ Failed → qs_stream st ++ in_hand (qs_pc st) ++ q_pending (qs_q st) = msgs_of (qs_kept st)) ∧
  qs_kept st `sublist_of` qs_calls st ∧
  filter is_snapshot (qs_kept st) = filter is_snapshot (qs_calls st) ∧
  ∃ since, since `suffix_of` qs_kept st ∧ q_pending (qs_q st) = msgs_of since ∧ deltas_of since ≤ maxPendingDeltas ∧
    ∀ m, q_pending (q_Send m (qs_q st)) =
      q_pending (qs_q st) ++ (if q_closed (qs_q st) || bool_decide (deltas_of since = maxPendingDeltas) then [] else [m]).
Proof.
  intros [Hw Hb Ho Hp Hk Hs Hd Hf Hdr [since Hsi]]%q_inv_reachable. split_and!; try done. exists since.
  pose proof Hsi as [Hl Hpe Hde]. split_and!; [done|done|lia|]. intros m. eapply q_Send_pending; [done|lia].
Qed.

Lemma queue_delivery_witness :
  let st := mkQSys (mkQueue true [] 0 false 0 false) (Sending [MEndOfRIB 7 0; MServerKeepAlive]) []
              [SendSnapshot [MEndOfRIB 7 0]; Send MServerKeepAlive] [SendSnapshot [MEndOfRIB 7 0]; Send MServerKeepAlive] in
  qs_stream st `prefix_of` msgs_of (qs_kept st).
Proof.
  apply (queue_delivery (mkQSys (mkQueue true [] 0 false 0 false) (Sending [MEndOfRIB 7 0; MServerKeepAlive]) []
    [SendSnapshot [MEndOfRIB 7 0]; Send MServerKeepAlive] [SendSnapshot [MEndOfRIB 7 0]; Send MServerKeepAlive])).
  eapply rtc_l; [apply (step_call (SendSnapshot [MEndOfRIB 7 0]))|].
  eapply rtc_l; [apply (step_call (Send MServerKeepAlive))|].
  apply rtc_once. apply (step_take (mkQueue true [MEndOfRIB 7 0; MServerKeepAlive] 1 false 0 false)
    (mkQueue true [] 0 false 0 false) (TakeBatch [MEndOfRIB 7 0; MServerKeepAlive])). reflexivity.
Defined.

(** A session that dropped nothing delivers everything.  If no delta was refused,
    the drain, left to run, puts on the stream exactly the messages of all the
    calls made before the close. *)
Theorem queue_drains (st : QSys) :
  q_reachable st → qs_pc st ≠ Failed → q_dropped (qs_q st) = 0 → Z.of_nat (length (qs_calls st)) < 2 ^ 64 →
  ∃ st', rtc q_step st st' ∧ qs_calls st' = qs_calls st ∧ qs_stream st' = msgs_of (qs_calls st).
Proof.
  intros Hr Hf Hd Hlen. destruct (q_inv_reachable _ Hr) as [Hw _ Ho _ Hk _ Hdone _ Hdr _].
  assert (Heq : qs_kept st = qs_calls st).
  { pose proof (sublist_length _ _ Hk). rewrite Hd, u64_small in Hdr by lia.
    apply sublist_full; [done|lia]. }
  specialize (Ho Hf). rewrite Heq in Ho.
  destruct st as [q pc out calls kept]. cbn [qs_q qs_pc qs_stream qs_calls qs_kept] in *.
  destruct pc as [| |rest| |]; cbn [in_hand app] in *; try done.
  - destruct (q_drain_checking q out calls kept) as (q' & pc' & Hst). eexists. split; [exact Hst|]. by cbn.
  - destruct (q_pending q) as [|m ms] eqn:Hp.
    + rewrite app_nil_r in Ho. eexists. split; [apply rtc_refl|]. by cbn.
    + set (q0 := mkQueue false (q_pending q) (q_deltas q) (q_dropping q) (q_dropped q) (q_closed q)).
      destruct (q_drain_checking q0 out calls kept) as (q' & pc' & Hst). eexists. split.
      * eapply rtc_l; [|exact Hst]. apply step_woken. apply Hw; [done|by left].
      * cbn. rewrite Hp. by split.
  - destruct (q_drain_checking q (out ++ rest) calls kept) as (q' & pc' & Hst). eexists. split.
    + etrans; [apply q_send_all|exact Hst].
    + cbn. by rewrite <-app_assoc.
  - destruct Hdone as [_ Hp]; [done|]. rewrite Hp, app_nil_r in Ho. eexists. split; [apply rtc_refl|]. by cbn.
Qed.

Lemma queue_drains_witness :
  ∃ st', rtc q_step (mkQSys (q_call (SendSnapshot [MEndOfRIB 7 0]) newSessionQueue) Checking []
                       [SendSnapshot [MEndOfRIB 7 0]] [SendSnapshot [MEndOfRIB 7 0]]) st' ∧
    qs_calls st' = [SendSnapshot [MEndOfRIB 7 0]] ∧ qs_stream st' = [MEndOfRIB 7 0].
Proof.
  apply (queue_drains (mkQSys (q_call (SendSnapshot [MEndOfRIB 7 0]) newSessionQueue) Checking []
    [SendSnapshot [MEndOfRIB 7 0]] [SendSnapshot [MEndOfRIB 7 0]])).
  - apply rtc_once. apply (step_call (SendSnapshot [MEndOfRIB 7 0]) newSessionQueue Checking [] [] []).
  - discriminate.
  - reflexivity.
  - vm_compute. reflexivity.
Defined.
