(* ===== verification/Server.v ===== *)
(** * The reflector's servers

    [mesh/reflector/server.go] (the [Session] handler), [underlayauthz.go] (what a
    certificate lets a session announce), [authz.go] (who may call the admin API)
    and [admin.go] (the fence API).  The server is a transition system: sessions
    start, send messages and end in any interleaving, each handler call being one
    or more operations of the [RIB]. *)

From S2P Require Import Prelude Net Wire Rib RibFacts RibView RibTheorems RibGlobal.

Open Scope Z_scope.

(** ** The peer of a connection *)

(** A verified certificate: its subject's common name and its IP SANs, an IPv4
    address in its mapped form. *)
Record Cert := mkCert { cert_CN : string; cert_IPs : list Z }.

(** The context of a call: no peer, a peer without TLS, or its verified chains. *)
Inductive PeerCtx := NoPeer | Plain | TLS (verifiedChains : list (list Cert)).

Definition peerCertIPs (ctx : PeerCtx) : list Z * bool :=
  match ctx with
  | TLS ((leaf :: _) :: _) => (cert_IPs leaf, true)
  | _ => ([], false)
  end.

Record underlayGuard := mkGuard { g_allowed : list Z; g_enforce : bool }.

Definition newUnderlayGuard (ctx : PeerCtx) : underlayGuard :=
  let '(ips, mtls) := peerCertIPs ctx in mkGuard ips mtls.

Definition permits (g : underlayGuard) (underlay : string) : bool :=
  if negb (g_enforce g) then true
  else match net.ParseIP underlay with
       | None => false
       | Some ip => any (fun a => a =? ip) (g_allowed g)
       end.

Definition hostAddr (prefix : string) : string :=
  match netip.ParsePrefix prefix with
  | None => ""
  | Some p => if netip.IsSingleIP p then netip.Addr_String (netip.p_addr p) else ""
  end.

(** ** The admin API *)

Inductive Code := InvalidArgument | Unauthenticated | PermissionDenied.

(** [peerCN]: the leaf's common name and whether some chain is leaf and root. *)
Definition peerCN (ctx : PeerCtx) : option (string * bool) :=
  match ctx with
  | TLS (((leaf :: _) :: _) as chains) =>
      Some (cert_CN leaf, any (fun c => bool_decide (length c = 2%nat)) chains)
  | _ => None
  end.

Definition RequireClientCN {A : Type} (allowedCN : string) (ctx : PeerCtx) (handler : Code + A) : Code + A :=
  if decide (allowedCN = "") then handler
  else match peerCN ctx with
       | None => inl Unauthenticated
       | Some (cn, rootIssued) =>
           if negb (bool_decide (cn = allowedCN)) || negb rootIssued then inl PermissionDenied else handler
       end.

Section admin.
Context {ro : RangeOrder}.

Definition Admin_SetFence (prefix : string) (r : RIB) : Code + (RIB * list SinkOut) :=
  match net.ParseCIDR prefix with
  | None => inl InvalidArgument
  | Some _ => inr (SetFence prefix r)
  end.

Definition Admin_ClearFence (prefix : string) (r : RIB) : Code + (RIB * list SinkOut) :=
  match net.ParseCIDR prefix with
  | None => inl InvalidArgument
  | Some _ => inr (ClearFence prefix r)
  end.

End admin.

(** The keys of the holdings, each once: a key equal to its predecessor's is
    skipped. *)
Fixpoint holding_keys (prev : option routeKey) (hs : list RouteHolding) : list routeKey :=
  match hs with
  | [] => []
  | h :: hs => (if decide (prev = Some (h_key h)) then [] else [h_key h]) ++ holding_keys (Some (h_key h)) hs
  end.

Definition Admin_AnnouncedFrom (prefix : string) (keys : list routeKey) (r : RIB)
    : Code + (list RouteHolding * list routeKey) :=
  match AnnouncedFrom prefix keys r with
  | None => inl InvalidArgument
  | Some held => inr (held, holding_keys None held)
  end.

(** ** One session *)

Record Session := mkSession { ss_guard : underlayGuard; ss_token : Z; ss_sink : Sink }.

Section session.
Context {ro : RangeOrder}.

(** What the handler does with one message: the [RIB] operation it calls, if any. *)
Definition session_op (ss : Session) (m : ClientMsg) : option RibOp :=
  let id := sink_id (ss_sink ss) in
  let permits := permits (ss_guard ss) in
  match m with
  | CSubscribe vni => Some (OpSubscribe vni (ss_sink ss))
  | CUnsubscribe vni => Some (OpUnsubscribe vni id)
  | CAnnounce vni prefix nexthop extra external =>
      let nh := nexthop :: extra in
      if any (fun n => negb (permits n)) nh then None
      else Some (OpAnnounce id vni prefix nh external)
  | CWithdraw vni prefix => Some (OpWithdraw id vni prefix)
  | CAnnounceNat b =>
      if negb (permits (nb_OwnerUnderlay b)) then None
      else Some (OpAnnounceNat id b)
  | CWithdrawNat natIP portMin portMax => Some (OpWithdrawNat id natIP portMin portMax (Some permits))
  | CAnnouncePublic p =>
      if negb (permits (pp_OwnerUnderlay p)) then None
      else if bool_decide (pp_Kind p = PUBLIC_KIND_EDGE_UNDERLAY) && negb (permits (hostAddr (pp_Prefix p))) then None
      else Some (OpAnnouncePublic id (publicRecordFromPB p))
  | CWithdrawPublic p => Some (OpWithdrawPublic id (publicRecordFromPB p) (Some permits))
  | CKeepAlive | CHello _ _ _ => None
  end.

Definition session_msg (ss : Session) (m : ClientMsg) : SW RIB SinkOut := fun r =>
  match session_op ss m with
  | Some op => rib_step op r
  | None => (r, [])
  end.

(** ** The server *)

(** Where a session is in its handler: the node id is claimed and the feed not
    joined yet, in the receive loop, or returned. *)
Inductive Phase := PClaimed (feed : GlobalFeed) | PRunning | PEnded.

Record Server := mkServer { srv_rib : RIB; srv_sessions : gmap nat (Session * Phase) }.

Definition NewServer : Server := mkServer NewRIB ∅.

Inductive Event :=
  | EvHello (sid : nat) (ctx : PeerCtx) (first : ClientMsg)
  | EvRegister (sid : nat)
  | EvMsg (sid : nat) (m : ClientMsg)
  | EvEnd (sid : nat)
  | EvSetFence (prefix : string)
  | EvClearFence (prefix : string).

(** [None]: the event cannot happen here, or the call is refused and changes
    nothing. *)
Definition server_step (ev : Event) (s : Server) : option (Server * list SinkOut) :=
  match ev with
  | EvHello sid ctx first =>
      match first, srv_sessions s !! sid with
      | CHello nodeID _ feed, None =>
          if decide (nodeID = "") then None
          else
            let guard := newUnderlayGuard ctx in
            let '(r', out, token) := ClaimOrigin nodeID (srv_rib s) in
            let ss := mkSession guard token (mkSink sid nodeID) in
            Some (mkServer r' (<[sid := (ss, PClaimed feed)]> (srv_sessions s)), out)
      | _, _ => None
      end
  | EvRegister sid =>
      match srv_sessions s !! sid with
      | Some (ss, PClaimed feed) =>
          let sessions' := <[sid := (ss, PRunning)]> (srv_sessions s) in
          match feed with
          | GLOBAL_FEED_NONE => Some (mkServer (srv_rib s) sessions', [(ss_sink ss, SendSnapshot [MEndOfGlobal 0])])
          | GLOBAL_FEED_ALL => let '(r', out) := RegisterSink (ss_sink ss) (srv_rib s) in Some (mkServer r' sessions', out)
          end
      | _ => None
      end
  | EvMsg sid m =>
      match srv_sessions s !! sid with
      | Some (ss, PRunning) => let '(r', out) := session_msg ss m (srv_rib s) in Some (mkServer r' (srv_sessions s), out)
      | _ => None
      end
  | EvEnd sid =>
      match srv_sessions s !! sid with
      | Some (ss, PRunning) =>
          let '(r', out) := ReleaseOrigin (sink_id (ss_sink ss)) (ss_token ss) (srv_rib s) in
          Some (mkServer r' (<[sid := (ss, PEnded)]> (srv_sessions s)), out)
      | _ => None
      end
  | EvSetFence p => match Admin_SetFence p (srv_rib s) with inr (r', out) => Some (mkServer r' (srv_sessions s), out) | inl _ => None end
  | EvClearFence p => match Admin_ClearFence p (srv_rib s) with inr (r', out) => Some (mkServer r' (srv_sessions s), out) | inl _ => None end
  end.

End session.

(** A run: the events that cannot happen are skipped. *)
Fixpoint server_run (evs : list (RangeOrder * Event)) (s : Server) : Server :=
  match evs with
  | [] => s
  | (ro, ev) :: evs => server_run evs (match server_step (ro := ro) ev s with Some (s', _) => s' | None => s end)
  end.

(** ** Where stored state comes from *)

Section provenance.
Context {ro : RangeOrder}.

Lemma Withdraw_origins o vni p r k :
  origins_at (routes (Withdraw o vni p r).1) k =
  if decide (mkKey vni p = k) then delete o (origins_at (routes r) k) else origins_at (routes r) k.
Proof. unfold Withdraw. by rewrite withdrawRouteOrigin_routes. Qed.

(** The routes, as the sessions' ends and claims leave them. *)
Lemma drop_announces o r k o' nh :
  rib_wf r → announces (dropOriginLocked o r).1 k o' nh → announces r k o' nh.
Proof.
  intros Hwf (nhs & Ho & Hnh). rewrite (d_routes _ _ _ (dropped_of o r Hwf)) in Ho.
  apply lookup_delete_Some in Ho as [_ Ho]. by exists nhs.
Qed.

(** A nexthop is stored for an origin only by its announce. *)
Lemma step_announces op r k o nh :
  rib_wf r → announces (rib_step op r).1 k o nh →
  announces r k o nh ∨ ∃ vni p nhs ext, op = OpAnnounce o vni p nhs ext ∧ nh ∈ nhs.
Proof.
  intros Hwf Ha.
  assert (Hsame : routes (rib_step op r).1 = routes r → announces r k o nh)
    by (intros Hr; unfold announces in *; by rewrite Hr in Ha).
  destruct op; cbn [rib_step] in *; try (left; by apply Hsame).
  - left. apply Hsame. unfold Subscribe. by case_match.
  - destruct Ha as (nhs & Ho & Hnh). unfold Announce in Ho. cbn in Ho. rewrite origins_at_insert in Ho.
    case_decide as Hk; [|left; by exists nhs]. cbn in Ho. apply lookup_insert_Some in Ho as [[<- <-]|[_ Ho]]; [eauto 8|].
    left. exists nhs. by rewrite <-Hk.
  - left. destruct Ha as (nhs & Ho & Hnh). rewrite Withdraw_origins in Ho. exists nhs. split; [|done].
    case_decide; [|done]. by apply lookup_delete_Some in Ho as [_ ?].
  - left. apply Hsame. rewrite RegisterSink_eq. cbv zeta.
    destruct (globalSnapshotLocked_spec (with_sinks (<[sink_id s:=s]> (sinks r)) r)) as (_ & _ & Hf); [|by rewrite Hf].
    apply with_sinks_wf; [apply sinks_ok_insert, Hwf|done].
  - left. apply Hsame. destruct (WithdrawNat_cases origin natIP portMin portMax permit r Hwf) as [->|(b & _ & _ & _ & _ & ->)]; done.
  - left. apply Hsame. destruct (WithdrawPublic_cases origin rec permit r Hwf) as [->|(b & _ & _ & _ & _ & ->)]; done.
  - left. unfold ClaimOrigin in Ha. destruct (Rib.origins r !! nodeID); [|done].
    apply drop_announces in Ha; [done|]. apply with_sinks_wf; [apply sinks_ok_delete, Hwf|by apply with_tokens_wf].
  - left. unfold ReleaseOrigin in Ha. case_decide; [|done].
    apply drop_announces in Ha; [done|]. apply with_sinks_wf; [apply sinks_ok_delete, Hwf|by apply with_tokens_wf].
  - left. by apply drop_announces in Ha.
  - left. apply Hsame. unfold SetFence. destruct (fenceKey _) as [[??]|]; [case_decide|]; done.
  - left. apply Hsame. unfold ClearFence. destruct (fenceKey _) as [[??]|]; [case_decide|]; done.
Qed.

(** A record of a table, with its origin. *)
Definition holds {K V : Type} `{Countable K} (t : OriginTable K V) (k : K) (o : string) (v : V) : Prop :=
  tab t !! k = Some v ∧ orig t !! k = Some o.

Lemma holds_announce {K V : Type} `{Countable K} (t : OriginTable K V) (k0 k : K) (o0 o : string) (v0 v : V) :
  holds (ot_announce o0 k0 v0 t) k o v → holds t k o v ∨ (o = o0 ∧ v = v0).
Proof.
  intros [Ht Ho]. cbn in *. apply lookup_insert_Some in Ht as [[<- <-]|[Hne Ht]]; rewrite ?lookup_insert_eq in Ho.
  - right. naive_solver.
  - rewrite lookup_insert_ne in Ho by done. by left.
Qed.

Lemma holds_remove {K V : Type} `{Countable K} (t : OriginTable K V) (k0 k : K) (o0 o : string) (v : V) :
  holds (ot_unindex o0 k0 (ot_remove k0 t)) k o v → holds t k o v.
Proof.
  intros [Ht Ho]. cbn in Ht, Ho. apply lookup_delete_Some in Ht as [_ Ht], Ho as [_ Ho]. by split.
Qed.

Lemma holds_mono {K V : Type} `{Countable K} (t t' : OriginTable K V) (k : K) (o : string) (v : V) :
  tab t' ⊆ tab t ∧ orig t' ⊆ orig t → holds t' k o v → holds t k o v.
Proof. intros [Ht Ho] [Hv Hk]. split; by eapply lookup_weaken. Qed.

(** A record is stored for an origin only by its announce: both tables. *)
Lemma step_holds op r :
  rib_wf r →
  (∀ k o b, holds (natT (rib_step op r).1) k o b → holds (natT r) k o b ∨ op = OpAnnounceNat o b) ∧
  (∀ k o p, holds (publicT (rib_step op r).1) k o p → holds (publicT r) k o p ∨ op = OpAnnouncePublic o p).
Proof.
  intros Hwf.
  assert (Hd : ∀ o r0, rib_wf r0 → natT r0 = natT r → publicT r0 = publicT r →
    (∀ k o' b, holds (natT (dropOriginLocked o r0).1) k o' b → holds (natT r) k o' b) ∧
    (∀ k o' p, holds (publicT (dropOriginLocked o r0).1) k o' p → holds (publicT r) k o' p)).
  { intros o r0 Hwf0 Hn Hp. pose proof (dropped_of o r0 Hwf0) as Hdr. rewrite <-Hn, <-Hp.
    split; intros ???; apply holds_mono; apply Hdr. }
  assert (Hses : ∀ m t n, rib_wf (with_sinks (delete n (sinks r)) (with_tokens m t r)))
    by (intros; apply with_sinks_wf; [apply sinks_ok_delete, Hwf|by apply with_tokens_wf]).
  destruct op; cbn [rib_step]; try by (split; intros; left).
  - unfold Subscribe. case_match; by split; intros; left.
  - unfold Withdraw. rewrite withdrawRouteOrigin_frame. by split; intros; left.
  - rewrite RegisterSink_eq. cbv zeta.
    destruct (globalSnapshotLocked_spec (with_sinks (<[sink_id s:=s]> (sinks r)) r)) as (_ & _ & ->);
      [apply with_sinks_wf; [apply sinks_ok_insert, Hwf|done]|by split; intros; left].
  - split; [|by intros; left]. intros k o b' [?|[-> ->]]%holds_announce; auto.
  - destruct (WithdrawNat_cases origin natIP portMin portMax permit r Hwf) as [->|(b & _ & _ & _ & _ & ->)]; split; try by intros; left.
    intros k o b' ?%holds_remove. by left.
  - split; [by intros; left|]. intros k o b' [?|[-> ->]]%holds_announce; auto.
  - destruct (WithdrawPublic_cases origin rec permit r Hwf) as [->|(b & _ & _ & _ & _ & ->)]; split; try by intros; left.
    intros k o b' ?%holds_remove. by left.
  - unfold ClaimOrigin. destruct (Rib.origins r !! nodeID); [|by split; intros; left].
    destruct (Hd nodeID _ (Hses (<[nodeID := u64 (nextToken r + 1)]> (Rib.origins r)) (u64 (nextToken r + 1)) nodeID)
      eq_refl eq_refl) as [Hn Hp]. split; intros; left; [by eapply Hn|by eapply Hp].
  - unfold ReleaseOrigin. case_decide; [|by split; intros; left].
    destruct (Hd nodeID _ (Hses (delete nodeID (Rib.origins r)) (nextToken r) nodeID) eq_refl eq_refl) as [Hn Hp]. split; intros; left; [by eapply Hn|by eapply Hp].
  - destruct (Hd origin r Hwf eq_refl eq_refl) as [Hn Hp]. split; intros; left; [by eapply Hn|by eapply Hp].
  - unfold SetFence. destruct (fenceKey _) as [[??]|]; [case_decide|]; by split; intros; left.
  - unfold ClearFence. destruct (fenceKey _) as [[??]|]; [case_decide|]; by split; intros; left.
Qed.

End provenance.

(** ** What the certificates vouch for *)

(** Some session of the node id, live or ended, may speak for the address. *)
Definition vouched (s : Server) (o addr : string) : Prop :=
  ∃ sid ss ph, srv_sessions s !! sid = Some (ss, ph) ∧ sink_id (ss_sink ss) = o ∧ permits (ss_guard ss) addr = true.

Definition vouched_public (s : Server) (o : string) (p : PublicPrefix) : Prop :=
  vouched s o (pp_OwnerUnderlay p) ∧
  (pp_Kind p = PUBLIC_KIND_EDGE_UNDERLAY → vouched s o (hostAddr (pp_Prefix p))).

Definition op_vouched (s : Server) (op : RibOp) : Prop :=
  match op with
  | OpAnnounce o _ _ nhs _ => ∀ nh, nh ∈ nhs → vouched s o nh
  | OpAnnounceNat o b => vouched s o (nb_OwnerUnderlay b)
  | OpAnnouncePublic o p => vouched_public s o p
  | _ => True
  end.

(** Every stored nexthop, NAT owner and public owner is vouched for. *)
Record srv_ok (s : Server) : Prop := {
  so_wf : rib_wf (srv_rib s);
  so_routes : ∀ k o nh, announces (srv_rib s) k o nh → vouched s o nh;
  so_nat : ∀ k o b, holds (natT (srv_rib s)) k o b → vouched s o (nb_OwnerUnderlay b);
  so_public : ∀ k o p, holds (publicT (srv_rib s)) k o p → vouched_public s o p
}.

Lemma publicRecordFromPB_id p : publicRecordFromPB p = p.
Proof. by destruct p. Qed.

Lemma session_op_vouched s sid ss ph m op :
  srv_sessions s !! sid = Some (ss, ph) → session_op ss m = Some op → op_vouched s op.
Proof.
  intros Hs Hop.
  assert (Hv : ∀ a, permits (ss_guard ss) a = true → vouched s (sink_id (ss_sink ss)) a) by (intros a Ha; by exists sid, ss, ph).
  destruct m; cbn in Hop; try done; repeat case_match; simplify_eq; cbn; try done.
  - intros nh Hnh. apply Hv. destruct (permits (ss_guard ss) nh) eqn:Hp; [done|].
    assert (existsb (fun n => negb (permits (ss_guard ss) n)) (nexthop :: extra) = true); [|unfold any in *; cbn in *; congruence].
    apply existsb_exists. exists nh. rewrite <-list_elem_of_In, Hp. done.
  - apply Hv. by apply negb_false_iff.
  - rewrite publicRecordFromPB_id. match goal with H : _ && _ = false |- _ => apply andb_false_iff in H end.
    split; [apply Hv; by apply negb_false_iff|]. intros Hk. apply Hv.
    destruct H0 as [Hb|Hb]; [by rewrite bool_decide_eq_true_2 in Hb|by apply negb_false_iff].
Qed.

(** The sessions of a step: none is lost, and none changes its guard or sink. *)
Lemma server_step_sessions {ro : RangeOrder} ev s s' out sid ss ph :
  server_step ev s = Some (s', out) → srv_sessions s !! sid = Some (ss, ph) →
  ∃ ph', srv_sessions s' !! sid = Some (ss, ph').
Proof.
  intros Hst Hs.
  assert (Hins : ∀ sid' ss' ph0 ph', srv_sessions s !! sid' = Some (ss', ph0) →
    ∃ ph'', <[sid' := (ss', ph')]> (srv_sessions s) !! sid = Some (ss, ph'')).
  { intros sid' ss' ph0 ph' Hs'. destruct (decide (sid' = sid)) as [->|].
    - rewrite lookup_insert_eq. simplify_eq. eauto.
    - rewrite lookup_insert_ne by done. eauto. }
  destruct ev as [sid' ctx first|sid'|sid' m|sid'|p|p]; cbn in Hst.
  - destruct first; try done. destruct (srv_sessions s !! sid') eqn:Hn; [done|]. case_decide; [done|].
    destruct (ClaimOrigin _ _) as [[??]?]. simplify_eq/=. rewrite lookup_insert_ne; [eauto|congruence].
  - destruct (srv_sessions s !! sid') as [[ss' []]|] eqn:Hn; try done.
    destruct feed; [destruct (RegisterSink _ _)|]; simplify_eq/=; eauto.
  - destruct (srv_sessions s !! sid') as [[ss' []]|] eqn:Hn; try done.
    destruct (session_msg _ _ _). simplify_eq/=. eauto.
  - destruct (srv_sessions s !! sid') as [[ss' []]|] eqn:Hn; try done.
    destruct (ReleaseOrigin _ _ _). simplify_eq/=. eauto.
  - unfold Admin_SetFence in Hst. destruct (net.ParseCIDR p); [|done]. destruct (SetFence p _). simplify_eq/=. eauto.
  - unfold Admin_ClearFence in Hst. destruct (net.ParseCIDR p); [|done]. destruct (ClearFence p _). simplify_eq/=. eauto.
Qed.

Lemma vouched_step {ro : RangeOrder} ev s s' out o a :
  server_step ev s = Some (s', out) → vouched s o a → vouched s' o a.
Proof.
  intros Hst (sid & ss & ph & Hs & Ho & Hp). destruct (server_step_sessions _ _ _ _ _ _ _ Hst Hs) as [ph' Hs'].
  by exists sid, ss, ph'.
Qed.

(** A step of the server is at most one operation of the table, and what it
    announces is vouched for. *)
Lemma server_step_op {ro : RangeOrder} ev s s' out :
  server_step ev s = Some (s', out) →
  srv_rib s' = srv_rib s ∨ ∃ op, srv_rib s' = (rib_step op (srv_rib s)).1 ∧ op_vouched s op.
Proof.
  intros Hst. destruct ev as [sid ctx first|sid|sid m|sid|p|p]; cbn in Hst.
  - destruct first; try done. destruct (srv_sessions s !! sid) eqn:Hn; [done|]. case_decide; [done|].
    right. exists (OpClaimOrigin nodeID). cbn. destruct (ClaimOrigin _ _) as [[??]?]. by simplify_eq/=.
  - destruct (srv_sessions s !! sid) as [[ss []]|] eqn:Hn; try done. destruct feed; [|simplify_eq/=; by left].
    right. exists (OpRegisterSink (ss_sink ss)). cbn [rib_step]. destruct (RegisterSink _ _). by simplify_eq/=.
  - destruct (srv_sessions s !! sid) as [[ss []]|] eqn:Hn; try done. unfold session_msg in Hst.
    destruct (session_op ss m) as [op|] eqn:Hop; [|simplify_eq/=; by left].
    right. exists op. destruct (rib_step op (srv_rib s)). simplify_eq/=. split; [done|]. by eapply session_op_vouched.
  - destruct (srv_sessions s !! sid) as [[ss []]|] eqn:Hn; try done.
    right. exists (OpReleaseOrigin (sink_id (ss_sink ss)) (ss_token ss)). cbn [rib_step].
    destruct (ReleaseOrigin _ _ _). by simplify_eq/=.
  - unfold Admin_SetFence in Hst. destruct (net.ParseCIDR p); [|done]. right. exists (OpSetFence p). cbn [rib_step].
    destruct (SetFence p _). by simplify_eq/=.
  - unfold Admin_ClearFence in Hst. destruct (net.ParseCIDR p); [|done]. right. exists (OpClearFence p). cbn [rib_step].
    destruct (ClearFence p _). by simplify_eq/=.
Qed.

Lemma srv_ok_step {ro : RangeOrder} ev s s' out : srv_ok s → server_step ev s = Some (s', out) → srv_ok s'.
Proof.
  intros [Hwf Hr Hn Hp] Hst.
  assert (Hv' : ∀ o a, vouched s o a → vouched s' o a) by (intros ??; by eapply vouched_step).
  assert (Hvp : ∀ o p, vouched_public s o p → vouched_public s' o p) by (intros o p [? ?]; split; auto).
  destruct (server_step_op _ _ _ _ Hst) as [He|(op & He & Hop)].
  - split; rewrite He; eauto.
  - destruct (step_holds op (srv_rib s) Hwf) as [Hsn Hsp]. split; rewrite He.
    + by apply step_wf.
    + intros k o nh [Ha|(vni & p & nhs & ext & -> & Hnh)]%step_announces; [eauto| |done]. apply Hv', (Hop nh), Hnh.
    + intros k o b [?| ->]%Hsn; [eauto|]. apply Hv', Hop.
    + intros k o p [?| ->]%Hsp; [eauto|]. apply Hvp, Hop.
Qed.

Lemma NewServer_ok : srv_ok NewServer.
Proof.
  split; [apply NewRIB_wf|..].
  - intros k o nh (nhs & Ho & _). unfold origins_at in Ho. cbn in Ho. rewrite lookup_empty in Ho. cbn in Ho. by rewrite lookup_empty in Ho.
  - intros k o b [Hb _]. cbn in Hb. by rewrite lookup_empty in Hb.
  - intros k o b [Hb _]. cbn in Hb. by rewrite lookup_empty in Hb.
Qed.

Lemma server_run_ok evs s : srv_ok s → srv_ok (server_run evs s).
Proof.
  revert s. induction evs as [|[ro ev] evs IH]; intros s Hs; [done|]. cbn.
  destruct (server_step ev s) as [[s' out]|] eqn:Hst; apply IH; [by eapply srv_ok_step|done].
Qed.

Lemma permits_enforced g a :
  g_enforce g = true → permits g a = true → ∃ ip, net.ParseIP a = Some ip ∧ ip ∈ g_allowed g.
Proof.
  intros He. unfold permits. rewrite He. cbn. destruct (net.ParseIP a) as [ip|]; [|done].
  unfold any. intros (x & Hx & Heq%Z.eqb_eq)%existsb_exists. subst. exists ip. by rewrite list_elem_of_In.
Qed.

(** ** Properties *)

(** C26. A node speaks only for the addresses its sessions are permitted, and under
    mutual TLS for those its certificates name.  In every run of the server, from the
    start and under any interleaving of sessions, a nexthop stored for an origin,
    the owner of a NAT block or public record it holds, and the address of an
    EDGE_UNDERLAY record it holds, were each permitted to some session that
    presented that node id: the very address of an IP SAN of that session's
    certificate, whenever the session was mutually authenticated.  A session without
    mutual TLS is permitted every address. *)
Theorem server_authorised (evs : list (RangeOrder * Event)) :
  let s := server_run evs NewServer in
  let spoken_for o addr := ∃ sid ss ph, srv_sessions s !! sid = Some (ss, ph) ∧ sink_id (ss_sink ss) = o ∧
    permits (ss_guard ss) addr = true ∧
    (g_enforce (ss_guard ss) = true → ∃ ip, net.ParseIP addr = Some ip ∧ ip ∈ g_allowed (ss_guard ss)) in
  (∀ k o nh, announces (srv_rib s) k o nh → spoken_for o nh) ∧
  (∀ k o b, holds (natT (srv_rib s)) k o b → spoken_for o (nb_OwnerUnderlay b)) ∧
  (∀ k o p, holds (publicT (srv_rib s)) k o p →
     spoken_for o (pp_OwnerUnderlay p) ∧
     (pp_Kind p = PUBLIC_KIND_EDGE_UNDERLAY → spoken_for o (hostAddr (pp_Prefix p)))).
Proof.
  cbv zeta. destruct (server_run_ok evs NewServer NewServer_ok) as [_ Hr Hn Hp].
  set (s := server_run evs NewServer) in *.
  assert (Hv : ∀ o a, vouched s o a → ∃ sid ss ph, srv_sessions s !! sid = Some (ss, ph) ∧ sink_id (ss_sink ss) = o ∧
    permits (ss_guard ss) a = true ∧ (g_enforce (ss_guard ss) = true → ∃ ip, net.ParseIP a = Some ip ∧ ip ∈ g_allowed (ss_guard ss))).
  { intros o a (sid & ss & ph & Hs & Ho & Hpe). exists sid, ss, ph. split_and!; try done. intros He. by apply permits_enforced. }
  split_and!; [eauto|eauto|]. intros k o p Hh. destruct (Hp k o p Hh) as [H1 H2]. split; eauto.
Qed.

(** Only the dispatch controller drives fencing.  With an allowed name set, a call
    reaches the handler only from a peer whose verified leaf has that common name
    and a verified chain of exactly leaf and root; an unauthenticated peer and a
    leaf below an intermediate are refused whatever their name. *)
Theorem RequireClientCN_sound (A : Type) (allowedCN : string) (ctx : PeerCtx) (handler : Code + A) (a : A) :
  allowedCN ≠ "" → RequireClientCN allowedCN ctx handler = inr a →
  handler = inr a ∧ ∃ leaf ch chains, ctx = TLS ((leaf :: ch) :: chains) ∧ cert_CN leaf = allowedCN ∧
    ∃ c, c ∈ ((leaf :: ch) :: chains) ∧ length c = 2%nat.
Proof.
  intros Hne. unfold RequireClientCN. rewrite decide_False by done.
  destruct ctx as [| |[|[|leaf ch] chains]]; cbn [peerCN]; try done.
  destruct (negb (bool_decide (cert_CN leaf = allowedCN))) eqn:Hcn; [done|].
  destruct (any _ _) eqn:Hch; [|done]. cbn. intros ->. split; [done|].
  exists leaf, ch, chains. split; [done|]. split.
  - apply negb_false_iff in Hcn. by apply bool_decide_eq_true in Hcn.
  - unfold any in Hch. apply existsb_exists in Hch as (c & Hc & Hl). exists c. rewrite list_elem_of_In. split; [done|].
    by apply bool_decide_eq_true in Hl.
Qed.

Lemma RequireClientCN_sound_witness :
  ∃ leaf ch chains, TLS [[mkCert "dispatch-controller" []; mkCert "root" []]] = TLS ((leaf :: ch) :: chains) ∧
    cert_CN leaf = "dispatch-controller".
Proof.
  destruct (RequireClientCN_sound nat "dispatch-controller" (TLS [[mkCert "dispatch-controller" []; mkCert "root" []]])
    (inr 1%nat) 1%nat) as [_ (leaf & ch & chains & Hctx & Hcn & _)].
  - discriminate.
  - vm_compute. reflexivity.
  - exists leaf, ch, chains. split; [exact Hctx|exact Hcn].
Defined.

(** A superseded session still speaks for its node id.  Session 1 of node-b is
    superseded by session 2; its handler is not stopped, so (first) a withdraw it
    sends removes a route session 2 announced, and (second) a route it announces
    after session 2 ended stays advertised when it ends too, and when the node
    connects again: no session of the node is left to remove it. *)
Theorem superseded_session_still_speaks :
  let run evs := server_run ((fun ev => (canonical_order, ev)) <$> evs) NewServer in
  let hello sid := [EvHello sid Plain (CHello "node-b" "fd00::b" GLOBAL_FEED_NONE); EvRegister sid] in
  let announce sid := EvMsg sid (CAnnounce 7 "10.0.0.9/32" "fd00::b" [] false) in
  let before := run (hello 1%nat ++ hello 2%nat ++ [announce 2%nat]) in
  let after := run (hello 1%nat ++ hello 2%nat ++ [announce 2%nat; EvMsg 1%nat (CWithdraw 7 "10.0.0.9/32")]) in
  let ended := run (hello 1%nat ++ hello 2%nat ++ [EvEnd 2%nat; announce 1%nat; EvEnd 1%nat]) in
  let again := run (hello 1%nat ++ hello 2%nat ++ [EvEnd 2%nat; announce 1%nat; EvEnd 1%nat] ++ hello 3%nat) in
  (HasRoute 7 "10.0.0.9/32" (srv_rib before) = true ∧ HasRoute 7 "10.0.0.9/32" (srv_rib after) = false) ∧
  (Rib.origins (srv_rib ended) !! "node-b" = None ∧ HasRoute 7 "10.0.0.9/32" (srv_rib ended) = true ∧
   HasRoute 7 "10.0.0.9/32" (srv_rib again) = true).
Proof. vm_compute. repeat split. Qed.
