(* ===== verification/Desired.v ===== *)
(** * The agent's announcements

    [mesh/agent/desired.go] and the sending half of [bus.go]: the desired state,
    its difference from what the session has announced, and the messages that
    carry the difference.  The theorems follow the messages into the reflector's
    session handler. *)

From stdpp Require Import pretty.
From S2P Require Import Prelude Net Wire Rib RibFacts RibView RibTheorems RibGlobal Server.

Open Scope Z_scope.

(** ** Data *)

Record Route := mkRoute {
  r_Vni : Z; r_Prefix : string; r_Nexthop : string; r_External : bool; r_DeliveryVNI : Z }.

#[export] Instance Route_eq_dec : EqDecision Route.
Proof. solve_decision. Defined.

Record PeerImport := mkPeerImport { pi_PeerVNI : Z; pi_ImportPrefixes : list string }.

Record DesiredState := mkDesired {
  Subs : list Z;
  Routes : list Route;
  Nats : list NatBlock;
  Pubs : list PublicPrefix;
  EgressVNIs : list Z;
  PeeringImports : gmap Z (list PeerImport)
}.

Definition emptyDesired : DesiredState := mkDesired [] [] [] [] [] ∅.

(** [routeRef] is the reflector's [routeKey]; [natRef] has one field more than
    its [natKey]. *)
Abbreviation routeRef := routeKey.
Record natRef := mkNatRef { nr_NatIP : string; nr_PortMin : Z; nr_PortMax : Z }.

#[export] Instance natRef_eq_dec : EqDecision natRef.
Proof. solve_decision. Defined.
#[export] Instance natRef_countable : Countable natRef.
Proof.
  refine (inj_countable' (fun k => (nr_NatIP k, nr_PortMin k, nr_PortMax k)) (fun p => mkNatRef p.1.1 p.1.2 p.2) _). by intros [].
Defined.

Record busDelta := mkDelta {
  subscribe : list Z;
  unsubscribe : list Z;
  announceR : list Route;
  withdrawR : list routeRef;
  announceN : list NatBlock;
  withdrawN : list natRef;
  announceP : list PublicPrefix;
  withdrawP : list PublicPrefix
}.

Definition delta_empty (d : busDelta) : bool :=
  bool_decide (length (subscribe d) = 0%nat) && bool_decide (length (unsubscribe d) = 0%nat) &&
  bool_decide (length (announceR d) = 0%nat) && bool_decide (length (withdrawR d) = 0%nat) &&
  bool_decide (length (announceN d) = 0%nat) && bool_decide (length (withdrawN d) = 0%nat) &&
  bool_decide (length (announceP d) = 0%nat) && bool_decide (length (withdrawP d) = 0%nat).

Definition route_ref (r : Route) : routeRef := mkKey (r_Vni r) (r_Prefix r).
Definition nat_ref (n : NatBlock) : natRef := mkNatRef (nb_NatIP n) (nb_PortMin n) (nb_PortMax n).

Definition kind_num (k : PublicKind) : Z :=
  match k with
  | PUBLIC_KIND_UNSPECIFIED => 0 | PUBLIC_KIND_EDGE_UNDERLAY => 1 | PUBLIC_KIND_NAT_IP => 2
  | PUBLIC_KIND_LB_IP => 3 | PUBLIC_KIND_FLOATING_IP => 4
  end.

(** [fmt.Sprintf("%d|%s|%s|%s", ...)] *)
Definition pubKey (p : PublicPrefix) : string :=
  pretty (kind_num (pp_Kind p)) +:+ "|" +:+ pp_Prefix p +:+ "|" +:+ pp_OwnerUnderlay p +:+ "|" +:+ pp_OverlayIP p.

Definition pubEqual (a b : PublicPrefix) : bool :=
  bool_decide (pp_Kind a = pp_Kind b) && bool_decide (pp_Prefix a = pp_Prefix b) &&
  bool_decide (pp_OwnerUnderlay a = pp_OwnerUnderlay b) && bool_decide (pp_Vni a = pp_Vni b) &&
  bool_decide (pp_PortMin a = pp_PortMin b) && bool_decide (pp_PortMax a = pp_PortMax b) &&
  bool_decide (pp_OverlayIP a = pp_OverlayIP b) && LbPortsEqual (pp_Ports a) (pp_Ports b).

(** ** The difference *)

(** [for _, r := range l { m[key(r)] = r }]: the last of a key wins. *)
Definition index_by {K V : Type} `{Countable K} (key : V → K) (l : list V) : gmap K V :=
  foldl (fun m v => <[key v := v]> m) ∅ l.

(** The records of [l] not held in [prev] with an equal value. *)
Definition changed {K V : Type} `{Countable K} (key : V → K) (eqb : V → V → bool) (prev : gmap K V) (l : list V) : list V :=
  filter (fun v => (match prev !! key v with Some old => negb (eqb old v) | None => true end) = true) l.

Section diff.
Context {ro : RangeOrder}.

(** The entries of [prev] whose key is not in [next]. *)
Definition gone {K V : Type} `{Countable K} (prev next : gmap K V) : list (K * V) :=
  filter (fun kv => next !! kv.1 = None) (range_map prev).

Definition diffDesired (applied next : DesiredState) : busDelta :=
  let prevSubs : gset Z := list_to_set (Subs applied) in
  let nextSubs : gset Z := list_to_set (Subs next) in
  let prevR := index_by route_ref (Routes applied) in
  let nextR := index_by route_ref (Routes next) in
  let prevN := index_by nat_ref (Nats applied) in
  let nextN := index_by nat_ref (Nats next) in
  let prevP := index_by pubKey (Pubs applied) in
  let nextP := index_by pubKey (Pubs next) in
  mkDelta
    (filter (fun v => v ∉ prevSubs) (range_set nextSubs))
    (filter (fun v => v ∉ nextSubs) (range_set prevSubs))
    (changed route_ref (fun a b => bool_decide (a = b)) prevR (Routes next))
    (gone prevR nextR).*1
    (changed nat_ref (fun a b => bool_decide (a = b)) prevN (Nats next))
    (gone prevN nextN).*1
    (changed pubKey pubEqual prevP (Pubs next))
    (gone prevP nextP).*2.

(** ** The messages *)

Definition announce_msg (r : Route) : ClientMsg := CAnnounce (r_Vni r) (r_Prefix r) (r_Nexthop r) [] (r_External r).

(** [sendDelta]: subscribes and announces first, then withdraws and
    unsubscribes. *)
Definition sendDelta (d : busDelta) : list ClientMsg :=
  (CSubscribe <$> subscribe d) ++ (announce_msg <$> announceR d) ++ (CAnnounceNat <$> announceN d) ++
  (CAnnouncePublic <$> announceP d) ++ ((fun k => CWithdraw (rk_vni k) (rk_prefix k)) <$> withdrawR d) ++
  ((fun k => CWithdrawNat (nr_NatIP k) (nr_PortMin k) (nr_PortMax k)) <$> withdrawN d) ++
  (CWithdrawPublic <$> withdrawP d) ++ (CUnsubscribe <$> unsubscribe d).

(** The handler of a session over a list of messages. *)
Fixpoint session_run (ss : Session) (ms : list ClientMsg) (r : RIB) : RIB :=
  match ms with
  | [] => r
  | m :: ms => session_run ss ms (session_msg ss m r).1
  end.

End diff.

(** ** What a sequence of messages leaves behind *)

(** The effect of messages on the announcements of the sender: what a session may
    have announced, by key. *)
Definition apply_announce (m : gmap routeKey Route) (r : Route) : gmap routeKey Route := <[route_ref r := r]> m.

(** Two records of a list with one key are equal. *)
Definition consistent {K V : Type} (key : V → K) (l : list V) : Prop :=
  ∀ v w, v ∈ l → w ∈ l → key v = key w → v = w.

Lemma index_by_app {K V : Type} `{Countable K} (key : V → K) (l : list V) (v : V) :
  index_by key (l ++ [v]) = <[key v := v]> (index_by key l).
Proof. unfold index_by. by rewrite foldl_app. Qed.

Lemma index_by_Some {K V : Type} `{Countable K} (key : V → K) (l : list V) (k : K) (v : V) :
  index_by key l !! k = Some v → v ∈ l ∧ key v = k.
Proof.
  revert v. induction l as [|w l IH] using rev_ind; intros v; [unfold index_by; cbn; by rewrite lookup_empty|].
  rewrite index_by_app, lookup_insert_Some, elem_of_app, list_elem_of_singleton. naive_solver.
Qed.

Lemma index_by_lookup {K V : Type} `{Countable K} (key : V → K) (l : list V) (v : V) :
  consistent key l → v ∈ l → index_by key l !! key v = Some v.
Proof.
  intros Hc Hv. destruct (index_by key l !! key v) as [w|] eqn:Hw.
  - apply index_by_Some in Hw as [Hw Hk]. f_equal. by apply Hc.
  - exfalso. revert Hw. clear Hc. induction l as [|w l IH] using rev_ind; [by apply elem_of_nil in Hv|].
    rewrite index_by_app. apply elem_of_app in Hv as [Hv|Hv%list_elem_of_singleton].
    + destruct (decide (key w = key v)) as [->|]; [by rewrite lookup_insert_eq|rewrite lookup_insert_ne by done; auto].
    + subst. by rewrite lookup_insert_eq.
Qed.

(** Folding consistent inserts over a map. *)
Lemma foldl_insert_lookup {K V : Type} `{Countable K} (key : V → K) (l : list V) (m : gmap K V) (k : K) :
  consistent key l →
  foldl (fun m v => <[key v := v]> m) m l !! k =
  match index_by key l !! k with Some v => Some v | None => m !! k end.
Proof.
  intros _. induction l as [|w l IH] using rev_ind; [unfold index_by; cbn; by rewrite lookup_empty|].
  rewrite foldl_app, index_by_app. cbn. destruct (decide (key w = k)) as [->|].
  - by rewrite !lookup_insert_eq.
  - by rewrite !lookup_insert_ne by done.
Qed.

Lemma pubEqual_spec (a b : PublicPrefix) : pubEqual a b = true ↔ a = b.
Proof.
  unfold pubEqual. rewrite !andb_true_iff, !bool_decide_eq_true, LbPortsEqual_spec. split; [|by intros ->].
  intros Hab. break. destruct a, b. cbn in *. congruence.
Qed.

(** *** The generic difference *)

Section generic.
Context {ro : RangeOrder} {K V : Type} `{Countable K} (key : V → K) (eqb : V → V → bool).
Hypothesis eqb_spec : ∀ a b, eqb a b = true ↔ a = b.

Lemma elem_of_gone (prev next : gmap K V) (k : K) (v : V) :
  (k, v) ∈ gone prev next ↔ prev !! k = Some v ∧ next !! k = None.
Proof. unfold gone. rewrite list_elem_of_filter, elem_of_range_map. cbn. tauto. Qed.

Lemma consistent_changed prev l : consistent key l → consistent key (changed key eqb prev l).
Proof. intros Hc v w Hv Hw. apply list_elem_of_filter in Hv as [_ ?], Hw as [_ ?]. by apply Hc. Qed.

(** Announcing what changed and withdrawing what is gone turns the applied map
    into the desired one. *)
Lemma diff_converges (applied next : list V) :
  consistent key next →
  ∀ k, (if decide (k ∈ (gone (index_by key applied) (index_by key next)).*1) then None
        else foldl (fun m v => <[key v := v]> m) (index_by key applied) (changed key eqb (index_by key applied) next) !! k) =
       index_by key next !! k.
Proof.
  intros Hc k. set (prev := index_by key applied). case_decide as Hg.
  - apply list_elem_of_fmap in Hg as ([k' v] & -> & [_ Hn]%elem_of_gone). done.
  - rewrite foldl_insert_lookup by by apply consistent_changed.
    destruct (index_by key (changed key eqb prev next) !! k) as [v|] eqn:Hv.
    + apply index_by_Some in Hv as [[_ Hv]%list_elem_of_filter <-]. symmetry. by apply index_by_lookup.
    + destruct (index_by key next !! k) as [w|] eqn:Hw.
      * apply index_by_Some in Hw as [Hw <-]. destruct (prev !! key w) as [old|] eqn:Ho.
        -- destruct (eqb old w) eqn:He; [by apply eqb_spec in He as ->|]. exfalso.
           assert (Hin : w ∈ changed key eqb prev next) by (apply list_elem_of_filter; by rewrite Ho, He).
           apply (index_by_lookup key) in Hin; [congruence|]. by apply consistent_changed.
        -- exfalso. assert (Hin : w ∈ changed key eqb prev next) by (apply list_elem_of_filter; by rewrite Ho).
           apply (index_by_lookup key) in Hin; [congruence|]. by apply consistent_changed.
      * destruct (prev !! k) as [old|] eqn:Ho; [|done]. exfalso. apply Hg. apply list_elem_of_fmap.
        exists (k, old). split; [done|]. by apply elem_of_gone.
Qed.

(** Nothing is announced or withdrawn when nothing changed. *)
Lemma diff_quiet (l : list V) : consistent key l → changed key eqb (index_by key l) l = [] ∧ gone (index_by key l) (index_by key l) = [].
Proof.
  intros Hc. split.
  - apply elem_of_nil_inv. intros v [Hv Hin]%list_elem_of_filter. rewrite (index_by_lookup key) in Hv by done.
    by rewrite (proj2 (eqb_spec v v)) in Hv.
  - apply elem_of_nil_inv. intros [k v] [Hp Hn]%elem_of_gone. congruence.
Qed.

End generic.

(** ** One reconcile tick, at the reflector *)

Section tick.
Context {ro : RangeOrder}.
Implicit Types (ss : Session) (r : RIB) (ms : list ClientMsg).

(** The announcing half of [reconcileStep]: nothing is sent, and [applied] is
    left, when the difference is empty. *)
Definition announceStep (ss : Session) (applied next : DesiredState) (r : RIB) : DesiredState * RIB :=
  let d := diffDesired applied next in
  if delta_empty d then (applied, r) else (next, session_run ss (sendDelta d) r).

Fixpoint announceTicks (ss : Session) (applied : DesiredState) (ds : list DesiredState) (r : RIB) : DesiredState * RIB :=
  match ds with
  | [] => (applied, r)
  | d :: ds => let '(applied', r') := announceStep ss applied d r in announceTicks ss applied' ds r'
  end.

(** What the session's node has announced for a key. *)
Definition mine ss r (k : routeKey) : option (list string) := origins_at (routes r) k !! sink_id (ss_sink ss).

Lemma session_run_app ss ms1 ms2 r : session_run ss (ms1 ++ ms2) r = session_run ss ms2 (session_run ss ms1 r).
Proof. revert r. induction ms1 as [|m ms1 IH]; intros r; [done|]. apply IH. Qed.

(** A message that neither announces nor withdraws a route. *)
Definition no_route (m : ClientMsg) : Prop :=
  match m with CAnnounce _ _ _ _ _ | CWithdraw _ _ => False | _ => True end.

Lemma session_msg_wf ss m r : rib_wf r → rib_wf (session_msg ss m r).1.
Proof. intros Hwf. unfold session_msg. destruct (session_op ss m); [by apply step_wf|done]. Qed.

Lemma session_run_wf ss ms r : rib_wf r → rib_wf (session_run ss ms r).
Proof. revert r. induction ms as [|m ms IH]; intros r Hwf; [done|]. by apply IH, session_msg_wf. Qed.

Lemma session_msg_no_route ss m r : rib_wf r → no_route m → routes (session_msg ss m r).1 = routes r.
Proof.
  intros Hwf Hm. unfold session_msg. destruct m; cbn in *; try done; repeat case_match; simplify_eq/=; try done.
  - unfold Subscribe. by case_match.
  - destruct (WithdrawNat_cases (sink_id (ss_sink ss)) natIP portMin portMax (Some (permits (ss_guard ss))) r Hwf)
      as [->|(b & _ & _ & _ & _ & ->)]; done.
  - destruct (WithdrawPublic_cases (sink_id (ss_sink ss)) (publicRecordFromPB p) (Some (permits (ss_guard ss))) r Hwf)
      as [->|(b & _ & _ & _ & _ & ->)]; done.
Qed.

Lemma session_run_no_route ss ms r : rib_wf r → Forall no_route ms → routes (session_run ss ms r) = routes r.
Proof.
  revert r. induction ms as [|m ms IH]; intros r Hwf Hms; [done|]. apply Forall_cons in Hms as [Hm Hms]. cbn.
  rewrite IH by (by apply session_msg_wf || done). by apply session_msg_no_route.
Qed.

(** Announces, then withdraws, key by key. *)
Lemma session_announces ss (l : list Route) r :
  (∀ x, x ∈ l → permits (ss_guard ss) (r_Nexthop x) = true) →
  ∀ k o, origins_at (routes (session_run ss (announce_msg <$> l) r)) k !! o =
    if decide (o = sink_id (ss_sink ss)) then
      match index_by route_ref l !! k with Some x => Some [r_Nexthop x] | None => mine ss r k end
    else origins_at (routes r) k !! o.
Proof.
  unfold mine. induction l as [|x l IH] using rev_ind; intros Hp k o.
  { cbn. case_decide; by subst. }
  rewrite fmap_app, session_run_app. cbn [fmap list_fmap session_run].
  specialize (IH (fun y Hy => Hp y (proj2 (elem_of_app _ _ _) (or_introl Hy)))).
  assert (Hx : permits (ss_guard ss) (r_Nexthop x) = true) by (apply Hp; set_solver).
  unfold session_msg, announce_msg, session_op. cbn [any existsb]. rewrite Hx. cbn [negb orb].
  set (r1 := session_run ss _ r) in *. rewrite index_by_app. cbn [rib_step Announce fst routes with_byOrigin with_routes].
  rewrite origins_at_insert. fold (route_ref x). destruct (decide (route_ref x = k)) as [->|Hk]; cbn [e_origins].
  - case_decide as Ho; [subst o; by rewrite !lookup_insert_eq|]. rewrite lookup_insert_ne by done.
    change (e_origins (entry r1 k)) with (origins_at (routes r1) k). by rewrite IH, decide_False.
  - rewrite IH. case_decide; [|done]. by rewrite lookup_insert_ne.
Qed.

Lemma session_withdraws ss (l : list routeKey) r :
  ∀ k o, origins_at (routes (session_run ss ((fun k => CWithdraw (rk_vni k) (rk_prefix k)) <$> l) r)) k !! o =
    if decide (o = sink_id (ss_sink ss) ∧ k ∈ l) then None else origins_at (routes r) k !! o.
Proof.
  induction l as [|x l IH] using rev_ind; intros k o.
  { rewrite decide_False; [done|]. by intros [_ ?%elem_of_nil]. }
  rewrite fmap_app, session_run_app. cbn [fmap list_fmap session_run].
  unfold session_msg, session_op. cbn [rib_step]. rewrite Withdraw_origins.
  assert (mkKey (rk_vni x) (rk_prefix x) = x) as -> by by destruct x.
  destruct (decide (x = k)) as [->|Hk].
  - destruct (decide (o = sink_id (ss_sink ss))) as [->|Ho].
    + rewrite lookup_delete_eq, decide_True; [done|]. split; [done|]. apply elem_of_app. right. left.
    + rewrite lookup_delete_ne, IH by done. by rewrite !decide_False by (by intros []).
  - rewrite IH. apply decide_ext. rewrite elem_of_app, list_elem_of_singleton. naive_solver.
Qed.

(** The whole delta: the session's announcements become the desired ones, and no
    other node's change. *)
Lemma sendDelta_routes ss (applied next : DesiredState) r :
  rib_wf r → consistent route_ref (Routes next) →
  (∀ x, x ∈ Routes next → permits (ss_guard ss) (r_Nexthop x) = true) →
  (∀ k, mine ss r k = (fun x => [r_Nexthop x]) <$> index_by route_ref (Routes applied) !! k) →
  ∀ k o, origins_at (routes (session_run ss (sendDelta (diffDesired applied next)) r)) k !! o =
    if decide (o = sink_id (ss_sink ss)) then (fun x => [r_Nexthop x]) <$> index_by route_ref (Routes next) !! k
    else origins_at (routes r) k !! o.
Proof.
  intros Hwf Hc Hp Hm k o. unfold sendDelta. rewrite !session_run_app.
  assert (Hno : ∀ (A : Type) (f : A → ClientMsg) (l : list A) r0, (∀ a, no_route (f a)) → rib_wf r0 →
    routes (session_run ss (f <$> l) r0) = routes r0).
  { intros A f l r0 Hf Hwf0. apply session_run_no_route; [done|]. apply Forall_fmap, Forall_true. done. }
  rewrite !Hno by (try done; repeat (apply session_run_wf; try done)).
  rewrite session_withdraws. cbn [withdrawR diffDesired announceR].
  set (chg := changed _ _ _ _). set (gn := gone _ _).
  rewrite !Hno by (try done; repeat (apply session_run_wf; try done)).
  rewrite session_announces.
  2: { intros x [_ Hx]%list_elem_of_filter. by apply Hp. }
  rewrite !Hno by done. unfold mine in *. rewrite !Hno by done. rewrite Hm.
  destruct (decide (o = sink_id (ss_sink ss))) as [->|Ho]; [|by rewrite decide_False by tauto].
  pose proof (diff_converges route_ref (fun a b => bool_decide (a = b)) (fun a b => bool_decide_eq_true (a = b))
    (Routes applied) (Routes next) Hc k) as Hd. fold chg gn in Hd.
  destruct (decide (k ∈ gn.*1)) as [Hg|Hg].
  - rewrite decide_True by done. by rewrite <-Hd.
  - rewrite decide_False by tauto. rewrite <-Hd, foldl_insert_lookup by by apply consistent_changed. by case_match.
Qed.

End tick.

(** ** Properties *)

Lemma delta_empty_routes {ro : RangeOrder} (applied next : DesiredState) :
  delta_empty (diffDesired applied next) = true → consistent route_ref (Routes next) →
  ∀ k, index_by route_ref (Routes next) !! k = index_by route_ref (Routes applied) !! k.
Proof.
  intros He Hc k. unfold delta_empty in He. rewrite !andb_true_iff, !bool_decide_eq_true in He.
  destruct He as [[[[[[[_ _] Ha] Hw] _] _] _] _]. cbn [announceR withdrawR diffDesired] in *.
  apply nil_length_inv in Ha, Hw.
  rewrite <-(diff_converges route_ref (fun a b => bool_decide (a = b)) (fun a b => bool_decide_eq_true (a = b))
    (Routes applied) (Routes next) Hc k). rewrite Ha, Hw. by rewrite decide_False by apply not_elem_of_nil.
Qed.

(** The desired set of a tick is one the session can announce. *)
Definition announceable (ss : Session) (d : DesiredState) : Prop :=
  consistent route_ref (Routes d) ∧ ∀ x, x ∈ Routes d → permits (ss_guard ss) (r_Nexthop x) = true.

Lemma announceStep_inv {ro : RangeOrder} ss applied next r :
  rib_wf r → announceable ss next →
  (∀ k, mine ss r k = (fun x => [r_Nexthop x]) <$> index_by route_ref (Routes applied) !! k) →
  let '(applied', r') := announceStep ss applied next r in
  rib_wf r' ∧
  (∀ k, mine ss r' k = (fun x => [r_Nexthop x]) <$> index_by route_ref (Routes applied') !! k) ∧
  (∀ k, index_by route_ref (Routes applied') !! k = index_by route_ref (Routes next) !! k) ∧
  (∀ k o, o ≠ sink_id (ss_sink ss) → origins_at (routes r') k !! o = origins_at (routes r) k !! o).
Proof.
  intros Hwf [Hc Hp] Hm. unfold announceStep. destruct (delta_empty _) eqn:He.
  - split_and!; try done. intros k. symmetry. by apply delta_empty_routes.
  - split_and!; [by apply session_run_wf| |done|].
    + intros k. unfold mine. rewrite sendDelta_routes by done. by rewrite decide_True.
    + intros k o Ho. rewrite sendDelta_routes by done. by rewrite decide_False.
Qed.

Lemma announceTicks_inv {ro : RangeOrder} ss applied ds last r :
  rib_wf r → Forall (announceable ss) (ds ++ [last]) →
  (∀ k, mine ss r k = (fun x => [r_Nexthop x]) <$> index_by route_ref (Routes applied) !! k) →
  let r' := (announceTicks ss applied (ds ++ [last]) r).2 in
  (∀ k, mine ss r' k = (fun x => [r_Nexthop x]) <$> index_by route_ref (Routes last) !! k) ∧
  (∀ k o, o ≠ sink_id (ss_sink ss) → origins_at (routes r') k !! o = origins_at (routes r) k !! o).
Proof.
  revert applied r. induction ds as [|d ds IH]; intros applied r Hwf Hds Hm.
  - apply Forall_cons in Hds as [Hd _]. cbn. pose proof (announceStep_inv ss applied last r Hwf Hd Hm) as Hs.
    destruct (announceStep ss applied last r) as [applied' r']. destruct Hs as (_ & H1 & H2 & H3). cbn. split; [|done].
    intros k. by rewrite H1, H2.
  - apply Forall_cons in Hds as [Hd Hds]. cbn. pose proof (announceStep_inv ss applied d r Hwf Hd Hm) as Hs.
    destruct (announceStep ss applied d r) as [applied' r']. destruct Hs as (Hwf' & H1 & _ & H3).
    destruct (IH applied' r' Hwf' Hds H1) as [IH1 IH2]. split; [done|]. intros k o Ho. by rewrite IH2, H3.
Qed.

(** The agent's announcements converge on the reflector.  A session that starts
    with nothing announced, after any sequence of reconcile ticks whose desired
    routes carry one value per key and nexthops its certificate allows, has
    announced at the reflector exactly the routes of the last tick, each with its
    nexthop: what left the desired set is withdrawn, what changed is replaced.
    What other nodes announced is untouched. *)
Theorem announcements_converge (ro : RangeOrder) (ss : Session) (ds : list DesiredState) (last : DesiredState) (r : RIB) :
  rib_wf r → (∀ k, mine ss r k = None) → Forall (announceable ss) (ds ++ [last]) →
  let r' := (announceTicks ss emptyDesired (ds ++ [last]) r).2 in
  (∀ k, mine ss r' k = (fun x => [r_Nexthop x]) <$> index_by route_ref (Routes last) !! k) ∧
  (∀ k o, o ≠ sink_id (ss_sink ss) → origins_at (routes r') k !! o = origins_at (routes r) k !! o).
Proof.
  intros Hwf Hm Hds. apply announceTicks_inv; [done|done|]. intros k. rewrite Hm. unfold index_by. cbn.
  by rewrite lookup_empty.
Qed.

Lemma announcements_converge_witness :
  let ss := mkSession (mkGuard [] false) 1 (mkSink 1 "node-b") in
  let route p nh := mkRoute 7 p nh false 7 in
  let d rs := mkDesired [7] rs [] [] [] ∅ in
  let r' := (announceTicks (ro := canonical_order) ss emptyDesired
    ([d [route "10.0.0.5/32" "fd00::b"; route "10.0.0.6/32" "fd00::b"]] ++ [d [route "10.0.0.6/32" "fd00::c"]]) NewRIB).2 in
  (∀ k, mine ss r' k = (fun x => [r_Nexthop x]) <$> index_by route_ref [route "10.0.0.6/32" "fd00::c"] !! k) ∧
  Advertised 7 "10.0.0.5/32" r' = [] ∧ Advertised 7 "10.0.0.6/32" r' = ["fd00::c"].
Proof.
  intros ss route d r'. split; [|split; vm_compute; reflexivity].
  apply (announcements_converge canonical_order ss [d [route "10.0.0.5/32" "fd00::b"; route "10.0.0.6/32" "fd00::b"]]
    (d [route "10.0.0.6/32" "fd00::c"]) NewRIB).
  - apply NewRIB_wf.
  - intros k. unfold mine, origins_at. cbn. rewrite lookup_empty. cbn. apply lookup_empty.
  - apply Forall_forall. intros x Hx. split; [|reflexivity].
    cbn in Hx. rewrite !elem_of_cons, elem_of_nil in Hx. destruct Hx as [->|[->|[]]];
      intros v w Hv Hw Hk; cbn in *; rewrite ?elem_of_cons, ?elem_of_nil in *; naive_solver.
Defined.

(** A converged tick sends nothing: the difference of a desired state from itself
    is empty, for routes, NAT blocks, public records and subscriptions alike. *)
Theorem diffDesired_quiet (ro : RangeOrder) (d : DesiredState) :
  consistent route_ref (Routes d) → consistent nat_ref (Nats d) → consistent pubKey (Pubs d) →
  delta_empty (diffDesired d d) = true.
Proof.
  intros HR HN HP.
  destruct (diff_quiet route_ref (fun a b => bool_decide (a = b)) (fun a b => bool_decide_eq_true (a = b)) _ HR) as [Hr1 Hr2].
  destruct (diff_quiet nat_ref (fun a b => bool_decide (a = b)) (fun a b => bool_decide_eq_true (a = b)) _ HN) as [Hn1 Hn2].
  destruct (diff_quiet pubKey pubEqual pubEqual_spec _ HP) as [Hp1 Hp2].
  assert (Hs : ∀ s : gset Z, filter (fun v => v ∉ s) (range_set s) = []).
  { intros s. apply elem_of_nil_inv. intros v [Hv Hin]%list_elem_of_filter. by rewrite elem_of_range_set in Hin. }
  unfold delta_empty, diffDesired. cbn. rewrite !Hs, Hr1, Hr2, Hn1, Hn2, Hp1, Hp2. done.
Qed.

Lemma diffDesired_quiet_witness :
  let d := mkDesired [7; 7] [mkRoute 7 "10.0.0.5/32" "fd00::b" false 7] [mkNatBlock 7 "10.0.0.5" "203.0.113.1" 1024 2048 "fd00::b"] [] [] ∅ in
  delta_empty (diffDesired (ro := canonical_order) d d) = true.
Proof.
  apply (diffDesired_quiet canonical_order); intros v w Hv Hw Hk; cbn in *; rewrite ?elem_of_cons, ?elem_of_nil in *; naive_solver.
Defined.

(** A NAT block that changes only its upper port is lost.  The agent keys a block
    by (NAT address, first port, last port) and the reflector by (NAT address,
    first port); the delta announces the resized block first and withdraws the old
    one after, so the reflector, which ignores the last port of a withdraw, removes
    the block just announced: the node wants it, counts it as announced, and no
    edge has it. *)
Theorem nat_resize_lost (ro : RangeOrder) (ss : Session) (b b' : NatBlock) (r : RIB) :
  rib_wf r → nb_NatIP b = nb_NatIP b' → nb_PortMin b = nb_PortMin b' → nb_PortMax b ≠ nb_PortMax b' →
  permits (ss_guard ss) (nb_OwnerUnderlay b') = true →
  let nats l := mkDesired [] [] l [] [] ∅ in
  let '(applied, r') := announceStep ss (nats [b]) (nats [b']) r in
  applied = nats [b'] ∧ tab (natT r') !! nat_key b' = None.
Proof.
  intros Hwf Hip Hmin Hmax Hp. cbv zeta.
  assert (Hnr : nat_ref b ≠ nat_ref b') by (unfold nat_ref; congruence).
  assert (Hd : diffDesired (mkDesired [] [] [b] [] [] ∅) (mkDesired [] [] [b'] [] [] ∅) =
    mkDelta [] [] [] [] [b'] [nat_ref b] [] []).
  { assert (Hr0 : ∀ (K A : Type) `{Countable K}, range_map (∅ : gmap K A) = [])
      by (intros; apply Permutation_nil_r; rewrite range_map_perm, map_to_list_empty; done).
    assert (Hr1 : ∀ (K A : Type) `{Countable K} (k : K) (v : A), range_map ({[k := v]} : gmap K A) = [(k, v)])
      by (intros; apply Permutation_singleton_r; rewrite range_map_perm, map_to_list_singleton; done).
    unfold diffDesired, index_by, changed, gone, range_set. cbn.
    rewrite gset_to_gmap_empty, !Hr0, !insert_empty, Hr1, (lookup_singleton_ne (nat_ref b)) by done.
    cbn. rewrite !decide_True by (reflexivity || (rewrite lookup_insert_ne by (by apply not_eq_sym); apply lookup_empty)). done. }
  unfold announceStep. rewrite Hd. cbn [delta_empty length]. split; [done|].
  unfold sendDelta. cbn [fmap list_fmap app subscribe announceR announceN announceP withdrawR withdrawN withdrawP unsubscribe session_run].
  unfold session_msg at 2. cbn [session_op]. rewrite Hp. cbn [negb rib_step].
  set (r1 := (AnnounceNat _ b' r).1).
  assert (Hwf1 : rib_wf r1) by by apply AnnounceNat_wf.
  assert (Hk : mkNatKey (nr_NatIP (nat_ref b)) (nr_PortMin (nat_ref b)) = nat_key b')
    by (unfold nat_ref, nat_key; cbn; congruence).
  unfold session_msg. cbn [session_op rib_step]. unfold WithdrawNat. rewrite Hk.
  assert (Ht : tab (natT r1) !! nat_key b' = Some b') by apply lookup_insert_eq.
  assert (Ho : orig (natT r1) !! nat_key b' = Some (sink_id (ss_sink ss))) by apply lookup_insert_eq.
  rewrite Ht, Ho. cbn [default]. rewrite decide_False by (by intros []). cbn [allows]. rewrite Hp. cbn. apply lookup_delete_eq.
Qed.

Lemma nat_resize_lost_witness :
  let b hi := mkNatBlock 7 "10.0.0.5" "203.0.113.1" 1024 hi "fd00::b" in
  let ss := mkSession (mkGuard [] false) 1 (mkSink 1 "node-b") in
  let nats l := mkDesired [] [] l [] [] ∅ in
  let '(applied, r') := announceStep (ro := canonical_order) ss (nats [b 2048]) (nats [b 3072]) NewRIB in
  applied = nats [b 3072] ∧ tab (natT r') !! nat_key (b 3072) = None.
Proof.
  intros b ss nats. apply (nat_resize_lost canonical_order ss (b 2048) (b 3072) NewRIB); try reflexivity; [apply NewRIB_wf|discriminate].
Defined.
