(* ===== verification/Dataplane.v ===== *)
(** * The dataplane, as the agent sees it

    The agent of a node drives flowplane over the [Dataplane] interface
    (src/mesh/agent/bus.go).  [Dataplane] has the calls of that interface that
    program routes, neighbour NAT blocks and load balancers; a call returns the
    dataplane after it and the error, if any.  [DataplaneLaws] is what the agent
    relies on: a route call that succeeds took effect on its key alone, one that
    fails may or may not have, and reading the interfaces changes nothing; a
    dataplane that answers stores a NAT block that overlaps none it holds on its
    address, refuses a second load balancer of an address, and removes every
    backend of a node when the removal names no overlay address
    (src/flowplane/flowplane-control/src/nat.rs, lb.rs).  [Scripted] is a dataplane
    that discharges the laws and fails its calls as a script says. *)

From S2P Require Import Prelude Net Wire Rib.

Open Scope Z_scope.

(** ** Errors *)

(** The gRPC codes the agent tells apart. *)
Inductive DpCode := Unavailable | DeadlineExceeded | Canceled | Unimplemented | OtherCode.

Record DpError := mkDpError { err_code : DpCode; err_msg : string }.

Definition transientDataplaneError (e : DpError) : bool :=
  match err_code e with
  | Unavailable | DeadlineExceeded | Canceled => true
  | _ => false
  end.

(** ** What is programmed *)

(** The arguments of [AddRoute] beside the key. *)
Record MeshRoute := mkMesh { m_nexthop : string; m_external : bool; m_deliveryVNI : Z }.

Record natEntry := mkNatEntry { ne_natIP : string; ne_portMin : Z; ne_portMax : Z; ne_vni : Z }.

Record backendKey := mkBackendKey { bk_owner : string; bk_overlay : string }.

Record LocalInterface := mkLocalInterface {
  li_InterfaceID : string;
  li_Vni : Z;
  li_OverlayIPs : list string;
  li_Underlay : string
}.

#[export] Instance MeshRoute_eq_dec : EqDecision MeshRoute.
Proof. solve_decision. Defined.
#[export] Instance natEntry_eq_dec : EqDecision natEntry.
Proof. solve_decision. Defined.
#[export] Instance natEntry_countable : Countable natEntry.
Proof.
  apply (inj_countable' (fun e => (ne_natIP e, ne_portMin e, ne_portMax e, ne_vni e))
    (fun '(a, b, c, d) => mkNatEntry a b c d)). by intros [].
Defined.
#[export] Instance backendKey_eq_dec : EqDecision backendKey.
Proof. solve_decision. Defined.
#[export] Instance backendKey_countable : Countable backendKey.
Proof.
  apply (inj_countable' (fun e => (bk_owner e, bk_overlay e)) (fun '(a, b) => mkBackendKey a b)). by intros [].
Defined.

(** ** The calls *)

Abbreviation DpCall W := (W → W * option DpError) (only parsing).

Class Dataplane (W : Type) := {
  AddRoute : routeKey → MeshRoute → DpCall W;
  WithdrawRoute : routeKey → DpCall W;
  AddNeighborNat : natEntry → string → DpCall W;
  WithdrawNeighborNat : natEntry → DpCall W;
  ReplaceNeighborNats : list (natEntry * string) → DpCall W;
  AddLoadBalancer : string → list LbPort → DpCall W;
  DelLoadBalancer : string → DpCall W;
  AddLbBackend : string → backendKey → Z → DpCall W;
  DelLbBackend : string → backendKey → DpCall W;
  ListInterfaces : W → W * (DpError + (list LocalInterface * string))
}.

(** ** What the agent relies on *)

(** A call whose effect on [get] is [f]: all of it on success, all or nothing on
    failure; the rest of the dataplane stays. *)
Definition effects {W A : Type} (get : W → A) (f : A → A) (call : DpCall W) : Prop :=
  ∀ w, let '(w', err) := call w in
    match err with
    | None => get w' = f (get w)
    | Some _ => get w' = get w ∨ get w' = f (get w)
    end.

(** A call that leaves [get] alone. *)
Definition keeps {W A : Type} (get : W → A) (call : DpCall W) : Prop := ∀ w, get (call w).1 = get w.

(** Neighbour NAT blocks a dataplane can hold together: none is empty, and no two on
    an address overlap, whatever their VNIs. *)
Definition block_overlap (a b : natEntry) : bool :=
  bool_decide (ne_natIP a = ne_natIP b) && (ne_portMin a <? ne_portMax b) && (ne_portMin b <? ne_portMax a).

Definition blocks_ok (m : gmap natEntry string) : Prop :=
  map_Forall (fun e _ => 0 ≤ ne_portMin e < ne_portMax e ∧ ne_portMax e ≤ 65535) m ∧
  map_Forall (fun e _ => map_Forall (fun e' _ => e = e' ∨ block_overlap e e' = false) m) m.

#[export] Instance blocks_ok_dec (m : gmap natEntry string) : Decision (blocks_ok m).
Proof. unfold blocks_ok. apply _. Defined.

(** The backends a removal of [bk] names: without an overlay address, all of its node. *)
Definition names (bk b : backendKey) : Prop := bk_owner b = bk_owner bk ∧ (bk_overlay bk = "" ∨ bk_overlay b = bk_overlay bk).

#[export] Instance names_dec (bk b : backendKey) : Decision (names bk b).
Proof. unfold names. apply _. Defined.

Lemma names_delete (bk : backendKey) (bs : gmap backendKey Z) :
  bk_overlay bk ≠ "" → filter (fun bv => ¬ names bk bv.1) bs = delete bk bs.
Proof.
  intros Hbk. apply map_eq. intros b. destruct (decide (b = bk)) as [->|Hne].
  - rewrite lookup_delete_eq. apply map_lookup_filter_None. right. intros v _ Hn. apply Hn. by split; [|right].
  - rewrite lookup_delete_ne by done. destruct (bs !! b) as [v|] eqn:Hb.
    + apply map_lookup_filter_Some. split; [done|]. intros [Ho [?|Hv]]; [done|]. destruct b, bk. cbn in *. congruence.
    + apply map_lookup_filter_None. by left.
Qed.

(** A load balancer as registered: its ports, and its backends with their VNIs. *)
Abbreviation LbTable := (gmap string (list LbPort * gmap backendKey Z)).

Class DataplaneLaws (W : Type) `{Dataplane W} := {
  mesh : W → gmap routeKey MeshRoute;
  nats : W → gmap natEntry string;
  lbs : W → LbTable;
  (** The attached interfaces, and the id of this start of the dataplane. *)
  interfaces : W → list LocalInterface;
  instance : W → string;
  (** A dataplane that is reachable and serves every well-formed call it has room
      for, from now on. *)
  healthy : W → Prop;
  mesh_add k r : effects mesh <[k := r]> (AddRoute k r);
  mesh_withdraw k : effects mesh (delete k) (WithdrawRoute k);
  mesh_list w : mesh (ListInterfaces w).1 = mesh w;
  (** Blocks that fit the dataplane's tables. *)
  nat_room : gmap natEntry string → Prop;
  nats_add e o w : healthy w → blocks_ok (<[e := o]> (nats w)) → nat_room (<[e := o]> (nats w)) →
    (AddNeighborNat e o w).2 = None ∧ nats (AddNeighborNat e o w).1 = <[e := o]> (nats w);
  nats_withdraw e w : healthy w → (WithdrawNeighborNat e w).2 = None ∧ nats (WithdrawNeighborNat e w).1 = delete e (nats w);
  nats_replace l w : healthy w → NoDup l.*1 → blocks_ok (list_to_map l) → nat_room (list_to_map l) →
    (ReplaceNeighborNats l w).2 = None ∧ nats (ReplaceNeighborNats l w).1 = list_to_map l;
  nats_keeps_lb id ports : keeps nats (AddLoadBalancer id ports) ∧ keeps nats (DelLoadBalancer id);
  nats_keeps_backend id bk vni : keeps nats (AddLbBackend id bk vni) ∧ keeps nats (DelLbBackend id bk);
  lbs_keeps_nat e o : keeps lbs (AddNeighborNat e o) ∧ keeps lbs (WithdrawNeighborNat e);
  lbs_keeps_replace l : keeps lbs (ReplaceNeighborNats l);
  ident_add k r w : instance (AddRoute k r w).1 = instance w ∧ interfaces (AddRoute k r w).1 = interfaces w;
  ident_withdraw k w : instance (WithdrawRoute k w).1 = instance w ∧ interfaces (WithdrawRoute k w).1 = interfaces w;
  ident_list w : instance (ListInterfaces w).1 = instance w ∧ interfaces (ListInterfaces w).1 = interfaces w;
  list_ident w res : (ListInterfaces w).2 = inr res → res = (interfaces w, instance w);
  healthy_add k r w : healthy w → (AddRoute k r w).2 = None ∧ healthy (AddRoute k r w).1;
  healthy_withdraw k w : healthy w → (WithdrawRoute k w).2 = None ∧ healthy (WithdrawRoute k w).1;
  healthy_nats e o w : healthy w → healthy (AddNeighborNat e o w).1 ∧ healthy (WithdrawNeighborNat e w).1;
  healthy_replace l w : healthy w → healthy (ReplaceNeighborNats l w).1;
  healthy_lb id ports w : healthy w → healthy (AddLoadBalancer id ports w).1 ∧ healthy (DelLoadBalancer id w).1;
  healthy_backend id bk vni w : healthy w → healthy (AddLbBackend id bk vni w).1 ∧ healthy (DelLbBackend id bk w).1;
  (** Load balancers: a duplicate id or backend and an unknown id are refused;
      removing what is not there is not an error. *)
  lb_add id ports w : healthy w → lbs w !! id = None →
    (AddLoadBalancer id ports w).2 = None ∧ lbs (AddLoadBalancer id ports w).1 = <[id := (ports, ∅)]> (lbs w);
  lb_add_dup id ports w : healthy w → is_Some (lbs w !! id) →
    is_Some (AddLoadBalancer id ports w).2 ∧ lbs (AddLoadBalancer id ports w).1 = lbs w;
  lb_del id w : healthy w →
    (DelLoadBalancer id w).2 = None ∧ lbs (DelLoadBalancer id w).1 = delete id (lbs w);
  lb_add_backend id bk vni w ports bs : healthy w → lbs w !! id = Some (ports, bs) → bs !! bk = None →
    (AddLbBackend id bk vni w).2 = None ∧ lbs (AddLbBackend id bk vni w).1 = <[id := (ports, <[bk := vni]> bs)]> (lbs w);
  lb_del_backend id bk w ports bs : healthy w → lbs w !! id = Some (ports, bs) →
    (DelLbBackend id bk w).2 = None ∧ lbs (DelLbBackend id bk w).1 = <[id := (ports, filter (fun bv => ¬ names bk bv.1) bs)]> (lbs w);
  healthy_list w : healthy w → (ListInterfaces w).2 = inr (interfaces w, instance w) ∧ healthy (ListInterfaces w).1
}.

(** ** A scripted dataplane *)

(** The fate of a call: served, or failed with an error, having landed or not. *)
Definition Fate := option (DpError * bool).

Record Scripted := mkScripted {
  s_mesh : gmap routeKey MeshRoute;
  s_nats : gmap natEntry string;
  s_lbs : LbTable;
  s_ifaces : list LocalInterface;
  s_instance : string;
  s_script : list Fate
}.

Definition set_mesh f s := mkScripted (f (s_mesh s)) (s_nats s) (s_lbs s) (s_ifaces s) (s_instance s) (s_script s).
Definition set_nats f s := mkScripted (s_mesh s) (f (s_nats s)) (s_lbs s) (s_ifaces s) (s_instance s) (s_script s).
Definition set_lbs f s := mkScripted (s_mesh s) (s_nats s) (f (s_lbs s)) (s_ifaces s) (s_instance s) (s_script s).

(** A call that would do [f]: the next fate of the script decides. *)
Definition scripted_call (f : Scripted → Scripted) : DpCall Scripted := fun s =>
  let s1 := mkScripted (s_mesh s) (s_nats s) (s_lbs s) (s_ifaces s) (s_instance s) (tail (s_script s)) in
  match s_script s with
  | Some (e, landed) :: _ => (if landed : bool then f s1 else s1, Some e)
  | _ => (f s1, None)
  end.

(** A call the dataplane refuses when [ok] fails: it rejects an overlapping block, a
    duplicate id, an unknown id, a duplicate backend. *)
Definition refuse_unless (ok : Scripted → bool) (call : DpCall Scripted) : DpCall Scripted := fun s =>
  if ok s then call s else (s, Some (mkDpError OtherCode "rejected")).

Definition has_lb (id : string) (s : Scripted) : bool := bool_decide (is_Some (s_lbs s !! id)).
Definition has_backend (id : string) (bk : backendKey) (s : Scripted) : bool :=
  match s_lbs s !! id with Some (_, bs) => bool_decide (is_Some (bs !! bk)) | None => false end.

#[export] Instance scripted_dataplane : Dataplane Scripted := {|
  AddRoute k r := scripted_call (set_mesh <[k := r]>);
  WithdrawRoute k := scripted_call (set_mesh (delete k));
  AddNeighborNat e o :=
    refuse_unless (fun s => bool_decide (blocks_ok (<[e := o]> (s_nats s)))) (scripted_call (set_nats <[e := o]>));
  WithdrawNeighborNat e := scripted_call (set_nats (delete e));
  ReplaceNeighborNats l :=
    refuse_unless (fun _ => bool_decide (NoDup l.*1 ∧ blocks_ok (list_to_map l))) (scripted_call (set_nats (fun _ => list_to_map l)));
  AddLoadBalancer id ports :=
    refuse_unless (fun s => negb (has_lb id s)) (scripted_call (set_lbs <[id := (ports, ∅)]>));
  DelLoadBalancer id := scripted_call (set_lbs (delete id));
  AddLbBackend id bk vni :=
    refuse_unless (fun s => has_lb id s && negb (has_backend id bk s))
      (scripted_call (set_lbs (alter (fun lb => (lb.1, <[bk := vni]> lb.2)) id)));
  DelLbBackend id bk := scripted_call (set_lbs (alter (fun lb => (lb.1, filter (fun bv => ¬ names bk bv.1) lb.2)) id));
  ListInterfaces s :=
    match scripted_call id s with
    | (s', None) => (s', inr (s_ifaces s, s_instance s))
    | (s', Some e) => (s', inl e)
    end
|}.

Lemma scripted_effects {A : Type} (get : Scripted → A) (f : A → A) (g : Scripted → Scripted) :
  (∀ s, get (g s) = f (get s)) →
  (∀ s l, get (mkScripted (s_mesh s) (s_nats s) (s_lbs s) (s_ifaces s) (s_instance s) l) = get s) →
  effects get f (scripted_call g).
Proof.
  intros Hg Hs s. unfold scripted_call. destruct (s_script s) as [|[[e []]|] l] eqn:He; cbn;
    rewrite ?Hg, ?Hs; auto.
Qed.

Lemma scripted_healthy (g : Scripted → Scripted) (s : Scripted) :
  (∀ s, s_script (g s) = s_script s) → s_script s = [] →
  (scripted_call g s).2 = None ∧ s_script (scripted_call g s).1 = [].
Proof. intros Hg Hs. unfold scripted_call. rewrite Hs. cbn. by rewrite Hg. Qed.

Lemma scripted_keeps {A : Type} (get : Scripted → A) (g : Scripted → Scripted) (ok : Scripted → bool) :
  (∀ s, get (g s) = get s) →
  (∀ s l, get (mkScripted (s_mesh s) (s_nats s) (s_lbs s) (s_ifaces s) (s_instance s) l) = get s) →
  keeps get (scripted_call g) ∧ keeps get (refuse_unless ok (scripted_call g)).
Proof.
  intros Hg Hs. assert (Hk : keeps get (scripted_call g)).
  { intros s. unfold scripted_call. destruct (s_script s) as [|[[e []]|] l]; cbn; by rewrite ?Hg, ?Hs. }
  split; [done|]. intros s. unfold refuse_unless. destruct (ok s); [apply Hk|done].
Qed.

Ltac keeps_tac := intros; split_and?; first [by apply (scripted_keeps _ _ (fun _ => true)) | by eapply scripted_keeps].

Lemma alter_insert {K V : Type} `{Countable K} (m : gmap K V) (f : V → V) (k : K) (v : V) :
  m !! k = Some v → alter f k m = <[k := f v]> m.
Proof.
  intros Hk. apply map_eq. intros k'. destruct (decide (k = k')) as [<-|Hne]; [|by simplify_map_eq].
  by rewrite lookup_alter_eq, lookup_insert_eq, Hk.
Qed.

#[export] Instance scripted_laws : DataplaneLaws Scripted.
Proof.
  refine {| mesh := s_mesh; nats := s_nats; lbs := s_lbs; interfaces := s_ifaces; instance := s_instance;
            healthy s := s_script s = []; nat_room _ := True |}.
  - intros; by apply scripted_effects.
  - intros; by apply scripted_effects.
  - intros w. cbn. unfold scripted_call. by destruct (s_script w) as [|[[e []]|] l'].
  - intros e o w Hw Hb _. cbn. unfold refuse_unless, scripted_call. by rewrite bool_decide_true, Hw.
  - intros e w Hw. cbn. unfold scripted_call. by rewrite Hw.
  - intros l w Hw Hnd Hb _. cbn. unfold refuse_unless, scripted_call. by rewrite bool_decide_true, Hw.
  - keeps_tac.
  - keeps_tac.
  - keeps_tac.
  - keeps_tac.
  - intros; cbn; unfold scripted_call; by destruct (s_script w) as [|[[e []]|] l'].
  - intros; cbn; unfold scripted_call; by destruct (s_script w) as [|[[e []]|] l'].
  - intros; cbn; unfold scripted_call; by destruct (s_script w) as [|[[e []]|] l'].
  - intros w res; cbn; unfold scripted_call; destruct (s_script w) as [|[[e []]|] l']; naive_solver.
  - intros; by apply scripted_healthy.
  - intros; by apply scripted_healthy.
  - intros e o w Hw. cbn. unfold refuse_unless, scripted_call. rewrite Hw. split; [|done]. by case_bool_decide.
  - intros l w Hw. cbn. unfold refuse_unless, scripted_call. rewrite Hw. by case_bool_decide.
  - intros id ports w Hw. cbn. unfold refuse_unless, scripted_call. rewrite Hw. split; [|done]. by destruct (negb _).
  - intros id bk vni w Hw. cbn. unfold refuse_unless, scripted_call. rewrite Hw. split; [|done]. by destruct (_ && _).
  - intros id ports w Hw Hn. cbn. unfold refuse_unless, has_lb, scripted_call. rewrite Hn, Hw. done.
  - intros id ports w Hw Hs. cbn. unfold refuse_unless, has_lb, scripted_call. rewrite bool_decide_true by done. cbn. eauto.
  - intros id w Hw. cbn. unfold scripted_call. by rewrite Hw.
  - intros id bk vni w ports bs Hw Hs Hb. cbn. unfold refuse_unless, has_lb, has_backend, scripted_call. rewrite Hs, Hb, Hw.
    cbn. split; [done|]. by rewrite (alter_insert _ _ _ _ Hs).
  - intros id bk w ports bs Hw Hs. cbn. unfold scripted_call. rewrite Hw. cbn. split; [done|].
    by rewrite (alter_insert _ _ _ _ Hs).
  - intros w Hw; cbn; unfold scripted_call; by rewrite Hw.
Defined.
