(* ===== verification/Bus.v ===== *)
(** * The route half of the agent's bus client

    src/mesh/agent/bus.go: what the node has learned from the route bus
    ([Learned]), what each key of the dataplane should hold ([desiredRoute]), what
    the agent believes it holds and which keys are failing ([Programming]), one
    call for one key ([syncKey]), the updates and snapshot ends of a session, and
    the level-triggered resync of every tick ([syncRoutes]).

    The fields of the Go struct [Bus] are grouped into four records by who writes
    them, so that an operation takes the records it reads and returns those it
    writes.  The calls go to a dataplane of the class [Dataplane]. *)

From S2P Require Import Prelude Net Wire Rib Desired Dataplane.

Open Scope Z_scope.

Definition PublicVNI : Z := 0.
Definition fullResyncEvery : Z := 300.
Definition routeCallsPerTick : nat := 256.
Definition retryMaxTicks : Z := 60.
Definition unsubscribeAfterTicks : Z := 3.

(** ** Maps of maps

    [map[uint32]map[string]T]: the inner map is made on the first write and
    dropped with its last entry. *)
Abbreviation Table A := (gmap Z (gmap string A)).

Definition get2 {A : Type} (m : Table A) (vni : Z) (prefix : string) : option A := m !! vni ≫= (.!! prefix).

Definition set2 {A : Type} (vni : Z) (prefix : string) (x : A) (m : Table A) : Table A :=
  <[vni := <[prefix := x]> (default ∅ (m !! vni))]> m.

Definition del2 {A : Type} (vni : Z) (prefix : string) (m : Table A) : Table A :=
  match m !! vni with
  | Some inner =>
      let inner' := delete prefix inner in
      if decide (size inner' = 0%nat) then delete vni m else <[vni := inner']> m
  | None => m
  end.

(** The keys of a table. *)
Definition keys2 {A : Type} (m : Table A) : gset routeKey :=
  list_to_set (map_to_list m ≫= fun '(vni, inner) => mkKey vni <$> (map_to_list inner).*1).

(** ** State *)

Record ownRoute := mkOwnRoute { or_nexthops : list string; or_external : bool }.

(** [originZero] is the empty string of the zero [dpRoute]. *)
Inductive routeOrigin := originZero | originOwn | originPeer | originPublic.

Record dpRoute := mkDpRoute {
  dr_nexthop : string;
  dr_external : bool;
  dr_deliveryVNI : Z;
  dr_origin : routeOrigin
}.

Definition zeroRoute : dpRoute := mkDpRoute "" false 0 originZero.

#[export] Instance routeOrigin_eq_dec : EqDecision routeOrigin.
Proof. solve_decision. Defined.
#[export] Instance dpRoute_eq_dec : EqDecision dpRoute.
Proof. solve_decision. Defined.

(** What the bus, the configuration and the interfaces have taught the node. *)
Record Learned := mkLearned {
  learnedOwn : Table ownRoute;
  learnedPublic : gmap string string;
  egressVNIs : list Z;
  peerImports : gmap Z (list PeerImport);
  localHosts : gmap Z (gset string);
  ownUnderlays : gset string
}.

Record routeRetry := mkRetry {
  rr_want : dpRoute;
  rr_wantOK : bool;
  rr_failures : Z;
  rr_nextTick : Z;
  rr_lastError : string
}.

(** What was last programmed, and the keys whose last call failed. *)
Record Programming := mkProgramming {
  programmed : Table dpRoute;
  retries : gmap routeKey routeRetry;
  ticks : Z
}.

(** The current session's snapshots, and the VNIs no longer subscribed. *)
Record Snapshots := mkSnapshots {
  seen : gmap Z (gset string);
  rxRoutes : gmap Z Z;
  absentTicks : gmap Z Z
}.

(** Dataplane restarts and the re-send they owe. *)
Record Watch := mkWatch {
  dpInstance : string;
  dpSeen : bool;
  dpUnreachable : bool;
  resendQueue : list routeKey;
  lastFullResync : Z
}.

Record BusRoutes := mkBusRoutes {
  br_learned : Learned;
  br_prog : Programming;
  br_snap : Snapshots;
  br_watch : Watch
}.

Definition NewBusRoutes (now : Z) : BusRoutes :=
  mkBusRoutes (mkLearned ∅ ∅ [] ∅ ∅ ∅) (mkProgramming ∅ ∅ 0) (mkSnapshots ∅ ∅ ∅) (mkWatch "" false false [] now).

Definition set_own f l := mkLearned (f (learnedOwn l)) (learnedPublic l) (egressVNIs l) (peerImports l) (localHosts l) (ownUnderlays l).
Definition set_public f l := mkLearned (learnedOwn l) (f (learnedPublic l)) (egressVNIs l) (peerImports l) (localHosts l) (ownUnderlays l).
Definition set_config egress imports l := mkLearned (learnedOwn l) (learnedPublic l) egress imports (localHosts l) (ownUnderlays l).
Definition set_hosts hosts own l := mkLearned (learnedOwn l) (learnedPublic l) (egressVNIs l) (peerImports l) hosts own.
Definition set_programmed f p := mkProgramming (f (programmed p)) (retries p) (ticks p).
Definition set_retries f p := mkProgramming (programmed p) (f (retries p)) (ticks p).
Definition set_queue q w := mkWatch (dpInstance w) (dpSeen w) (dpUnreachable w) q (lastFullResync w).

Definition isLocal (l : Learned) (vni : Z) (prefix : string) : bool :=
  bool_decide (prefix ∈ default ∅ (localHosts l !! vni)).

(** ** What a key should hold *)

(** [hostPrefix] of reconcile.go. *)
Definition hostPrefix (ip : string) : option string :=
  match net.ParseIP ip with
  | None => None
  | Some parsed => match net.To4 parsed with Some _ => Some (ip +:+ "/32") | None => Some (ip +:+ "/128") end
  end.

Definition prefixInCIDRs (prefix : string) (cidrs : list string) : bool :=
  match (match net.ParseCIDR prefix with Some (addr, _) => Some addr | None => net.ParseIP prefix end) with
  | None => false
  | Some addr => any (fun c => match net.ParseCIDR c with Some (_, ipnet) => net.IPNet_Contains ipnet addr | None => false end) cidrs
  end.

Fixpoint foreignNexthop (own : gset string) (nexthops : list string) : string :=
  match nexthops with
  | [] => ""
  | nh :: rest => if decide (nh ∈ own) then foreignNexthop own rest else nh
  end.

Definition nexthopFor (l : Learned) (vni : Z) (prefix : string) (nexthops : list string) : option string :=
  if isLocal l vni prefix then
    let nh := foreignNexthop (ownUnderlays l) nexthops in
    if decide (nh = "") then None else Some nh
  else head nexthops.

Fixpoint importRoute (l : Learned) (vni : Z) (prefix : string) (imports : list PeerImport) : option dpRoute :=
  match imports with
  | [] => None
  | im :: rest =>
      match get2 (learnedOwn l) (pi_PeerVNI im) prefix with
      | Some r =>
          if prefixInCIDRs prefix (pi_ImportPrefixes im) then
            match nexthopFor l vni prefix (or_nexthops r) with
            | Some nh => Some (mkDpRoute nh false (pi_PeerVNI im) originPeer)
            | None => importRoute l vni prefix rest
            end
          else importRoute l vni prefix rest
      | None => importRoute l vni prefix rest
      end
  end.

Definition desiredRoute (l : Learned) (vni : Z) (prefix : string) : option dpRoute :=
  match get2 (learnedOwn l) vni prefix with
  | Some r =>
      match nexthopFor l vni prefix (or_nexthops r) with
      | Some nh => Some (mkDpRoute nh (or_external r) vni originOwn)
      | None => None
      end
  | None =>
      match importRoute l vni prefix (default [] (peerImports l !! vni)) with
      | Some r => Some r
      | None =>
          match learnedPublic l !! prefix with
          | Some nh =>
              if bool_decide (vni ∈ egressVNIs l) then Some (mkDpRoute nh true PublicVNI originPublic) else None
          | None => None
          end
      end
  end.

Definition routeKeys (l : Learned) (p : Programming) : gset routeKey :=
  keys2 (learnedOwn l) ∪
  list_to_set (map_to_list (peerImports l) ≫= fun '(local, imports) => imports ≫= fun im =>
    mkKey local <$> filter (fun prefix => prefixInCIDRs prefix (pi_ImportPrefixes im) = true)
      (map_to_list (default ∅ (learnedOwn l !! pi_PeerVNI im))).*1) ∪
  list_to_set (egressVNIs l ≫= fun vni => mkKey vni <$> (map_to_list (learnedPublic l)).*1) ∪
  keys2 (programmed p).

(** ** Failures and backoff *)

Definition noteFailure (k : routeKey) (err : DpError) (want : dpRoute) (wantOK : bool) (p : Programming) : Programming :=
  if transientDataplaneError err then p
  else
    let r := match retries p !! k with
             | Some r => if decide (rr_want r = want ∧ rr_wantOK r = wantOK) then r else mkRetry want wantOK 0 0 ""
             | None => mkRetry want wantOK 0 0 ""
             end in
    let failures := rr_failures r + 1 in
    let nextTick := ticks p + Z.min (Z.shiftl 1 (Z.min (failures - 1) 30)) retryMaxTicks in
    set_retries <[k := mkRetry want wantOK failures nextTick (err_msg err)]> p.

(** Is [k], whose retry is [r], still waiting out its backoff? *)
Definition backingOff (l : Learned) (k : routeKey) (r : routeRetry) (p : Programming) : Programming * bool :=
  match desiredRoute l (rk_vni k) (rk_prefix k) with
  | None => (p, false)
  | Some want =>
      if negb (rr_wantOK r) || negb (bool_decide (want = rr_want r)) then (set_retries (delete k) p, false)
      else (p, ticks p <? rr_nextTick r)
  end.

Definition noteSuccess (k : routeKey) (p : Programming) : Programming := set_retries (delete k) p.

(** ** One key *)

Section sync.
Context {ro : RangeOrder} {W : Type} `{!Dataplane W}.

Definition mesh_of (r : dpRoute) : MeshRoute := mkMesh (dr_nexthop r) (dr_external r) (dr_deliveryVNI r).

(** The agent's record and the dataplane: what every call changes together. *)
Abbreviation PW := (Programming * W)%type.

(** [sent] and the error, if any. *)
Definition syncKey (l : Learned) (k : routeKey) (force : bool) (pw : PW) : PW * (bool * option DpError) :=
  let '(p, w) := pw in
  let vni := rk_vni k in
  let prefix := rk_prefix k in
  let have := get2 (programmed p) vni prefix in
  match desiredRoute l vni prefix with
  | None =>
      if bool_decide (have = None) && negb force then (pw, (false, None))
      else
        let '(w', err) := WithdrawRoute k w in
        match err with
        | Some e => (set_programmed (set2 vni prefix zeroRoute) (noteFailure k e zeroRoute false p), w', (true, Some e))
        | None => (set_programmed (del2 vni prefix) (noteSuccess k p), w', (true, None))
        end
  | Some want =>
      if bool_decide (have = Some want) && negb force then (pw, (false, None))
      else
        let '(w', err) := AddRoute k (mesh_of want) w in
        match err with
        | Some e => (set_programmed (set2 vni prefix zeroRoute) (noteFailure k e want true p), w', (true, Some e))
        | None => (set_programmed (set2 vni prefix want) (noteSuccess k p), w', (true, None))
        end
  end.

(** [syncKey] with its results dropped. *)
Definition syncKey_ (l : Learned) (force : bool) (pw : PW) (k : routeKey) : PW := (syncKey l k force pw).1.

Definition importersOf (l : Learned) (peerVNI : Z) : list (Z * list string) :=
  range_map (peerImports l) ≫= fun '(local, imports) =>
    omap (fun im => if decide (pi_PeerVNI im = peerVNI) then Some (local, pi_ImportPrefixes im) else None) imports.

Definition syncLearned (l : Learned) (vni : Z) (prefix : string) (force : bool) (pw : PW) : PW :=
  if decide (vni = PublicVNI) then
    foldl (syncKey_ l false) pw ((fun egress => mkKey egress prefix) <$> egressVNIs l)
  else
    foldl (syncKey_ l false) (syncKey_ l force pw (mkKey vni prefix))
      (omap (fun '(local, prefixes) => if prefixInCIDRs prefix prefixes then Some (mkKey local prefix) else None) (importersOf l vni)).

(** ** Updates and snapshot ends *)

Definition markSeen (vni : Z) (prefix : string) (s : Snapshots) : Snapshots :=
  mkSnapshots (<[vni := {[prefix]} ∪ default ∅ (seen s !! vni)]> (seen s)) (rxRoutes s) (absentTicks s).

Definition resetRouteSnapshot (vni : Z) (s : Snapshots) : Snapshots :=
  mkSnapshots (<[vni := ∅]> (seen s)) (<[vni := 0]> (rxRoutes s)) (absentTicks s).

(** [Bus.apply] *)
Definition apply_update (ru : RouteUpdate) (b : BusRoutes) (w : W) : BusRoutes * W :=
  let vni := ru_Vni ru in
  let prefix := ru_Prefix ru in
  let l := br_learned b in
  let sync l' s' :=
    let '(p', w') := syncLearned l' vni prefix true (br_prog b, w) in
    (mkBusRoutes l' p' s' (br_watch b), w') in
  match ru_Op ru with
  | ROUTE_OP_ADD =>
      let s' := markSeen vni prefix (br_snap b) in
      if decide (vni = PublicVNI) then
        sync (set_public <[prefix := default "" (head (ru_Nexthops ru))]> l) s'
      else
        sync (set_own (set2 vni prefix (mkOwnRoute (ru_Nexthops ru) (ru_External ru))) l) s'
  | ROUTE_OP_WITHDRAW =>
      if decide (vni = PublicVNI) then sync (set_public (delete prefix) l) (br_snap b)
      else sync (set_own (del2 vni prefix) l) (br_snap b)
  | ROUTE_OP_UNSPECIFIED => (b, w)
  end.

Definition pruneVNI (vni want : Z) (b : BusRoutes) (w : W) : BusRoutes * W :=
  if decide (default 0 (rxRoutes (br_snap b) !! vni) ≠ want) then (b, w)
  else
    let l := br_learned b in
    let seen := default ∅ (seen (br_snap b) !! vni) in
    let stale_of {A} (m : gmap string A) := filter (fun prefix => prefix ∉ seen) (range_map m).*1 in
    let '(stale, l') :=
      if decide (vni = PublicVNI) then
        let stale := stale_of (learnedPublic l) in
        (stale, set_public (fun m => foldl (fun m prefix => delete prefix m) m stale) l)
      else
        let stale := stale_of (default ∅ (learnedOwn l !! vni)) in
        (stale, set_own (fun m => foldl (fun m prefix => del2 vni prefix m) m stale) l) in
    let '(p', w') := foldl (fun pw prefix => syncLearned l' vni prefix false pw) (br_prog b, w) stale in
    (mkBusRoutes l' p' (br_snap b) (br_watch b), w').

(** The route messages of [handleServerMsg]. *)
Definition handleRouteMsg (m : ServerMsg) (b : BusRoutes) (w : W) : BusRoutes * W :=
  match m with
  | MRouteUpdate ru =>
      let s := br_snap b in
      let s' :=
        if bool_decide (ru_Op ru = ROUTE_OP_ADD) then
          mkSnapshots (seen s) (<[ru_Vni ru := u32 (default 0 (rxRoutes s !! ru_Vni ru) + 1)]> (rxRoutes s)) (absentTicks s)
        else s in
      apply_update ru (mkBusRoutes (br_learned b) (br_prog b) s' (br_watch b)) w
  | MEndOfRIB vni count => pruneVNI vni count b w
  | _ => (b, w)
  end.

(** ** Local interfaces *)

(** The host prefixes and the VTEPs a read of the interfaces names. *)
Definition hostsOf (ifaces : list LocalInterface) : gmap Z (gset string) :=
  foldl (fun next iface =>
    if decide (li_Vni iface = 0) then next
    else foldl (fun next ip =>
      match hostPrefix ip with
      | Some prefix => <[li_Vni iface := {[prefix]} ∪ default ∅ (next !! li_Vni iface)]> next
      | None => next
      end) next (li_OverlayIPs iface)) ∅ ifaces.

Definition underlaysOf (underlay : string) (ifaces : list LocalInterface) : gset string :=
  foldl (fun own iface => if decide (li_Underlay iface = "") then own else {[li_Underlay iface]} ∪ own) {[underlay]} ifaces.

Definition releaseLocalHost (lpw : Learned * PW) (k : routeKey) : Learned * PW :=
  let '(l, pw) := lpw in
  let vni := rk_vni k in
  let prefix := rk_prefix k in
  let l' :=
    match get2 (learnedOwn l) vni prefix with
    | Some r =>
        set_own (set2 vni prefix (mkOwnRoute (filter (fun nh => nh ∉ ownUnderlays l) (or_nexthops r)) (or_external r))) l
    | None => l
    end in
  (l', syncKey_ l' true pw k).

(** The host prefixes of [prev] that [next] no longer has. *)
Definition leftHosts (prev next : gmap Z (gset string)) : list routeKey :=
  range_map prev ≫= fun '(vni, prefixes) =>
    mkKey vni <$> filter (fun prefix => prefix ∉ default ∅ (next !! vni)) (range_set prefixes).

(** Reports whether the dataplane may have restarted. *)
Definition refreshLocalHosts (underlay : string) (b : BusRoutes) (w : W) : BusRoutes * W * bool :=
  let '(w1, res) := ListInterfaces w in
  let wt := br_watch b in
  match res with
  | inl _ =>
      (mkBusRoutes (br_learned b) (br_prog b) (br_snap b)
        (mkWatch (dpInstance wt) (dpSeen wt) true (resendQueue wt) (lastFullResync wt)), w1, false)
  | inr (ifaces, instance) =>
      let restarted := dpUnreachable wt || (dpSeen wt && negb (bool_decide (instance = dpInstance wt))) in
      let wt' := mkWatch instance true false (resendQueue wt) (lastFullResync wt) in
      let next := hostsOf ifaces in
      let l1 := set_hosts next (underlaysOf underlay ifaces) (br_learned b) in
      let '(l2, (p2, w2)) := foldl releaseLocalHost (l1, (br_prog b, w1)) (leftHosts (localHosts (br_learned b)) next) in
      (mkBusRoutes l2 p2 (br_snap b) wt', w2, restarted)
  end.

(** ** The resync *)

(** The order of a full re-send: local host keys first. *)
Definition resend_le (l : Learned) (x y : routeKey) : Prop :=
  let hx := isLocal l (rk_vni x) (rk_prefix x) in
  let hy := isLocal l (rk_vni y) (rk_prefix y) in
  if eqb hx hy then rk_vni x < rk_vni y ∨ rk_vni x = rk_vni y ∧ String.le (rk_prefix x) (rk_prefix y)
  else hx = true.

#[export] Instance resend_le_dec l : RelDecision (resend_le l).
Proof. intros x y. unfold resend_le. destruct (eqb _ _); apply _. Defined.

Definition queueFullResend (now : Z) (b : BusRoutes) : BusRoutes :=
  let wt := br_watch b in
  let keys := merge_sort (resend_le (br_learned b)) (range_set (routeKeys (br_learned b) (br_prog b))) in
  mkBusRoutes (br_learned b) (br_prog b) (br_snap b)
    (mkWatch (dpInstance wt) (dpSeen wt) (dpUnreachable wt) keys now).

Definition unreachable (err : option DpError) : bool :=
  match err with Some e => transientDataplaneError e | None => false end.

(** The loop over the keys that may have drifted: the state, the budget left, and
    whether the loop returned early. *)
Fixpoint drift_loop (l : Learned) (keys : list routeKey) (budget : nat) (pw : PW) : PW * nat * bool :=
  match keys with
  | [] => (pw, budget, false)
  | k :: keys =>
      if decide (budget = 0%nat) then (pw, budget, true)
      else
        let '(p, waiting) := match retries (pw.1) !! k with Some r => backingOff l k r pw.1 | None => (pw.1, false) end in
        if waiting : bool then drift_loop l keys budget (p, pw.2)
        else
          let '(pw', (sent, err)) := syncKey l k false (p, pw.2) in
          let budget' := if sent : bool then pred budget else budget in
          if unreachable err then (pw', budget', true) else drift_loop l keys budget' pw'
  end.

(** The loop that pays the owed re-send: the state and what is still owed. *)
Fixpoint resend_loop (l : Learned) (queue : list routeKey) (budget : nat) (pw : PW) : PW * list routeKey :=
  match queue with
  | [] => (pw, [])
  | k :: rest =>
      if decide (budget = 0%nat) then (pw, queue)
      else if bool_decide (desiredRoute l (rk_vni k) (rk_prefix k) = None) &&
              bool_decide (get2 (programmed pw.1) (rk_vni k) (rk_prefix k) = None) &&
              negb (isLocal l (rk_vni k) (rk_prefix k))
      then resend_loop l rest budget pw
      else
        let '(pw', (sent, err)) := syncKey l k true pw in
        let budget' := if sent : bool then pred budget else budget in
        if unreachable err then (pw', rest) else resend_loop l rest budget' pw'
  end.

Definition resyncRoutes (l : Learned) (queue : list routeKey) (pw : PW) : PW * list routeKey :=
  let keys := routeKeys l pw.1 in
  let p1 := set_retries (fun m => filter (fun kr => kr.1 ∈ keys) m) pw.1 in
  let '(pw2, budget, returned) := drift_loop l (range_set keys) routeCallsPerTick (p1, pw.2) in
  if returned : bool then (pw2, queue) else resend_loop l queue budget pw2.

Definition syncRoutes (underlay : string) (now : Z) (b : BusRoutes) (w : W) : BusRoutes * W :=
  let p := br_prog b in
  let b0 := mkBusRoutes (br_learned b) (mkProgramming (programmed p) (retries p) (ticks p + 1)) (br_snap b) (br_watch b) in
  let '(b1, w1, restarted) := refreshLocalHosts underlay b0 w in
  let b2 := if restarted : bool then queueFullResend now b1 else b1 in
  let wt := br_watch b2 in
  let b3 :=
    if bool_decide (dpInstance wt = "") && bool_decide (resendQueue wt = []) && (fullResyncEvery <=? now - lastFullResync wt)
    then queueFullResend now b2 else b2 in
  let '((p', w'), queue') := resyncRoutes (br_learned b3) (resendQueue (br_watch b3)) (br_prog b3, w1) in
  (mkBusRoutes (br_learned b3) p' (br_snap b3) (set_queue queue' (br_watch b3)), w').

(** ** The reconcile tick and the session *)

(** One VNI of the loop over the absent VNIs. *)
Definition countAbsent (ls : Learned * gmap Z Z) (vni : Z) : Learned * gmap Z Z :=
  let '(l, at_) := ls in
  let n := default 0 (at_ !! vni) + 1 in
  if n <? unsubscribeAfterTicks then (l, <[vni := n]> at_)
  else
    (if decide (vni = PublicVNI) then set_public (fun _ => ∅) l else set_own (delete vni) l, delete vni at_).

Definition forgetUnsubscribed (subs : list Z) (b : BusRoutes) : BusRoutes :=
  let l := br_learned b in
  let s := br_snap b in
  let own : gset Z := filter (fun vni => vni ∉ subs) (dom (learnedOwn l)) in
  let absent : gset Z :=
    if bool_decide (PublicVNI ∉ subs) && bool_decide (0 < size (learnedPublic l))%nat then {[PublicVNI]} ∪ own else own in
  let at1 : gmap Z Z := filter (fun kv => kv.1 ∈ absent) (absentTicks s) in
  let '(l', at2) := foldl countAbsent (l, at1) (range_set absent) in
  mkBusRoutes l' (br_prog b) (mkSnapshots (seen s) (rxRoutes s) at2) (br_watch b).

(** [reconcileStep] up to the delta: [None] is a failed reconcile. *)
Definition reconcileRoutes (underlay : string) (now : Z) (desired : option DesiredState) (b : BusRoutes) (w : W) : BusRoutes * W :=
  match desired with
  | None => syncRoutes underlay now b w
  | Some d =>
      let b1 := mkBusRoutes (set_config (EgressVNIs d) (PeeringImports d) (br_learned b)) (br_prog b) (br_snap b) (br_watch b) in
      syncRoutes underlay now (forgetUnsubscribed (Subs d) b1) w
  end.

(** The epoch of a VNI starts with the subscribe that asks for its table. *)
Definition subscribeRoutes (vnis : list Z) (b : BusRoutes) : BusRoutes :=
  mkBusRoutes (br_learned b) (br_prog b) (foldl (fun s vni => resetRouteSnapshot vni s) (br_snap b) vnis) (br_watch b).

(** A new session resets what was seen. *)
Definition openRoutes (b : BusRoutes) : BusRoutes :=
  mkBusRoutes (br_learned b) (br_prog b) (mkSnapshots ∅ ∅ (absentTicks (br_snap b))) (br_watch b).

End sync.
