(* ===== verification/BusFacts.v ===== *)
(** * Lemmas on the route half of the bus client

    Maps of maps, what a key wants, the effect of one [syncKey], and the closure
    of an invariant of single keys under every operation that programs routes. *)

From S2P Require Import Prelude Net Wire Rib Desired Dataplane Bus.

Open Scope Z_scope.

#[global] Arguments syncKey : simpl never.

(** ** Maps of maps *)

Section table.
Context {A : Type}.
Implicit Types (m : Table A) (vni : Z) (prefix : string) (x : A).

Lemma get2_set2 m vni prefix x v' p' :
  get2 (set2 vni prefix x m) v' p' = if decide (v' = vni ∧ p' = prefix) then Some x else get2 m v' p'.
Proof.
  unfold get2, set2. case_decide as Hd.
  - destruct Hd as [-> ->]. rewrite lookup_insert_eq. cbn. apply lookup_insert_eq.
  - destruct (decide (v' = vni)) as [->|Hv]; [|by rewrite lookup_insert_ne].
    rewrite lookup_insert_eq. cbn. rewrite lookup_insert_ne by naive_solver. by destruct (m !! vni).
Qed.

Lemma get2_del2 m vni prefix v' p' :
  get2 (del2 vni prefix m) v' p' = if decide (v' = vni ∧ p' = prefix) then None else get2 m v' p'.
Proof.
  unfold get2, del2. destruct (m !! vni) as [inner|] eqn:Hm; [|case_decide; break; subst; by rewrite ?Hm].
  assert (Hin : ∀ q, (delete prefix inner : gmap string A) !! q = if decide (q = prefix) then None else inner !! q)
    by (intros q; case_decide; by simplify_map_eq).
  destruct (decide (v' = vni)) as [->|Hv].
  - assert (Hget : (if decide (size (delete prefix inner) = 0%nat) then delete vni m else <[vni := delete prefix inner]> m) !! vni
      ≫= (.!! p') = (delete prefix inner : gmap string A) !! p').
    { case_decide as Hs; simplify_map_eq; [|done]. apply map_size_empty_inv in Hs. by rewrite Hs, lookup_empty. }
    rewrite Hget, Hin, Hm. cbn. repeat case_decide; naive_solver.
  - rewrite (decide_False (P := v' = vni ∧ _)) by naive_solver. case_decide; by simplify_map_eq.
Qed.

Lemma elem_of_keys2 m (k : routeKey) : k ∈ keys2 m ↔ is_Some (get2 m (rk_vni k) (rk_prefix k)).
Proof.
  unfold keys2, get2. rewrite elem_of_list_to_set, list_elem_of_bind. split.
  - intros ([vni inner] & Hk & Hm%elem_of_map_to_list).
    apply list_elem_of_fmap in Hk as (prefix & -> & Hp). apply list_elem_of_fmap in Hp as ([q x] & -> & Hx%elem_of_map_to_list).
    cbn. rewrite Hm. cbn. by exists x.
  - intros [x Hx]. apply bind_Some in Hx as (inner & Hm & Hx). exists (rk_vni k, inner). split; [|by apply elem_of_map_to_list].
    apply list_elem_of_fmap. exists (rk_prefix k). split; [by destruct k|]. apply list_elem_of_fmap. exists (rk_prefix k, x).
    split; [done|]. by apply elem_of_map_to_list.
Qed.

End table.

(** The record and the wish for a key. *)
Definition prog (p : Programming) (k : routeKey) : option dpRoute := get2 (programmed p) (rk_vni k) (rk_prefix k).
Definition want (l : Learned) (k : routeKey) : option dpRoute := desiredRoute l (rk_vni k) (rk_prefix k).

Lemma key_eta (k : routeKey) : mkKey (rk_vni k) (rk_prefix k) = k.
Proof. by destruct k. Qed.

Lemma key_neq (k k' : routeKey) : k' ≠ k → ¬ (rk_vni k' = rk_vni k ∧ rk_prefix k' = rk_prefix k).
Proof. destruct k, k'; cbn. naive_solver. Qed.

(** ** What a key wants *)

Lemma nexthopFor_local l vni prefix nhs nh :
  isLocal l vni prefix = true → nexthopFor l vni prefix nhs = Some nh → nh ∈ nhs ∧ (nh ∉ ownUnderlays l) ∧ nh ≠ "".
Proof.
  intros Hl. unfold nexthopFor. rewrite Hl. case_decide as He; [done|]. intros [= <-].
  induction nhs as [|x nhs IH]; cbn in *; [done|]. case_decide; [|split_and!; [left|done..]].
  destruct IH as (? & ? & ?); [done|]. split_and!; [by right|done..].
Qed.

Lemma nexthopFor_elem l vni prefix nhs nh : nexthopFor l vni prefix nhs = Some nh → nh ∈ nhs.
Proof.
  destruct (isLocal l vni prefix) eqn:Hl; [intros Hn; by apply nexthopFor_local in Hn as (? & _)|].
  unfold nexthopFor. rewrite Hl. destruct nhs; [done|]. intros [= ->]. left.
Qed.

Lemma importRoute_Some l vni prefix imports r :
  importRoute l vni prefix imports = Some r →
  ∃ im o nh, im ∈ imports ∧ get2 (learnedOwn l) (pi_PeerVNI im) prefix = Some o ∧
    prefixInCIDRs prefix (pi_ImportPrefixes im) = true ∧ nexthopFor l vni prefix (or_nexthops o) = Some nh ∧
    r = mkDpRoute nh false (pi_PeerVNI im) originPeer.
Proof.
  induction imports as [|im imports IH]; cbn; [done|]. intros Hr.
  assert (Hrec : importRoute l vni prefix imports = Some r → ∃ im' o nh, im' ∈ im :: imports ∧
    get2 (learnedOwn l) (pi_PeerVNI im') prefix = Some o ∧ prefixInCIDRs prefix (pi_ImportPrefixes im') = true ∧
    nexthopFor l vni prefix (or_nexthops o) = Some nh ∧ r = mkDpRoute nh false (pi_PeerVNI im') originPeer).
  { intros (im' & o & nh & Hin & H1)%IH. exists im', o, nh. split; [by right|done]. }
  destruct (get2 (learnedOwn l) (pi_PeerVNI im) prefix) as [o|] eqn:Ho; [|by apply Hrec].
  destruct (prefixInCIDRs prefix (pi_ImportPrefixes im)) eqn:Hp; [|by apply Hrec].
  destruct (nexthopFor l vni prefix (or_nexthops o)) as [nh|] eqn:Hn; [|by apply Hrec].
  injection Hr as <-. exists im, o, nh. split_and!; [left|done..].
Qed.

(** Where a wanted route comes from. *)
Lemma want_Some l k r :
  want l k = Some r →
  (∃ o nh, get2 (learnedOwn l) (rk_vni k) (rk_prefix k) = Some o ∧
     nexthopFor l (rk_vni k) (rk_prefix k) (or_nexthops o) = Some nh ∧
     r = mkDpRoute nh (or_external o) (rk_vni k) originOwn) ∨
  (∃ im o nh, im ∈ default [] (peerImports l !! rk_vni k) ∧ get2 (learnedOwn l) (rk_vni k) (rk_prefix k) = None ∧
     get2 (learnedOwn l) (pi_PeerVNI im) (rk_prefix k) = Some o ∧ prefixInCIDRs (rk_prefix k) (pi_ImportPrefixes im) = true ∧
     nexthopFor l (rk_vni k) (rk_prefix k) (or_nexthops o) = Some nh ∧ r = mkDpRoute nh false (pi_PeerVNI im) originPeer) ∨
  (∃ nh, learnedPublic l !! rk_prefix k = Some nh ∧ rk_vni k ∈ egressVNIs l ∧ r = mkDpRoute nh true PublicVNI originPublic).
Proof.
  unfold want, desiredRoute. destruct (get2 _ _ _) as [o|] eqn:Ho.
  - destruct (nexthopFor _ _ _ _) as [nh|] eqn:Hn; [|done]. intros [= <-]. left. eauto.
  - destruct (importRoute _ _ _ _) as [r'|] eqn:Hi.
    + intros [= <-]. apply importRoute_Some in Hi as (im & o & nh & H1 & H2 & H3 & H4 & H5). right; left.
      exists im, o, nh. done.
    + destruct (learnedPublic l !! _) as [nh|]; [|done]. case_bool_decide; [|done]. intros [= <-]. right; right. eauto.
Qed.

Lemma want_nonzero l k : want l k ≠ Some zeroRoute.
Proof. intros [H|[H|H]]%want_Some; by break. Qed.

(** Every key that is wanted or programmed is visited. *)
Lemma elem_of_routeKeys l p k : is_Some (want l k) ∨ is_Some (prog p k) → k ∈ routeKeys l p.
Proof.
  unfold routeKeys. rewrite !elem_of_union, !elem_of_keys2, !elem_of_list_to_set.
  intros [[r Hr]|?]; [|by right]. left. apply want_Some in Hr as [H|[H|H]].
  - destruct H as (o & nh & H & _). left; left. rewrite H. eauto.
  - destruct H as (im & o & nh & Him & _ & Ho & Hp & _). left; right.
    destruct (peerImports l !! rk_vni k) as [ims|] eqn:Hims; cbn in Him; [|by apply elem_of_nil in Him].
    apply list_elem_of_bind. exists (rk_vni k, ims). split; [|by apply elem_of_map_to_list].
    apply list_elem_of_bind. exists im. split; [|done].
    apply list_elem_of_fmap. exists (rk_prefix k). split; [by rewrite key_eta|]. apply list_elem_of_filter. split; [done|].
    unfold get2 in Ho. destruct (learnedOwn l !! pi_PeerVNI im) as [inner|]; [|done]. cbn in *.
    apply list_elem_of_fmap. exists (rk_prefix k, o). split; [done|]. by apply elem_of_map_to_list.
  - destruct H as (nh & Hnh & Hv & _). right. apply list_elem_of_bind. exists (rk_vni k). split; [|done].
    apply list_elem_of_fmap. exists (rk_prefix k). split; [by rewrite key_eta|].
    apply list_elem_of_fmap. exists (rk_prefix k, nh). split; [done|]. by apply elem_of_map_to_list.
Qed.

(** ** One key *)

Lemma prog_set_retries p f k : prog (set_retries f p) k = prog p k.
Proof. done. Qed.

Lemma prog_set2 p k k' r : prog (set_programmed (set2 (rk_vni k) (rk_prefix k) r) p) k' = if decide (k' = k) then Some r else prog p k'.
Proof.
  unfold prog. cbn. rewrite get2_set2. destruct (decide (k' = k)) as [->|Hk]; [by rewrite decide_True|].
  rewrite decide_False; [done|]. by apply key_neq.
Qed.

Lemma prog_del2 p k k' : prog (set_programmed (del2 (rk_vni k) (rk_prefix k)) p) k' = if decide (k' = k) then None else prog p k'.
Proof.
  unfold prog. cbn. rewrite get2_del2. destruct (decide (k' = k)) as [->|Hk]; [by rewrite decide_True|].
  rewrite decide_False; [done|]. by apply key_neq.
Qed.

Lemma noteFailure_keeps k e r ok p :
  programmed (noteFailure k e r ok p) = programmed p ∧ ticks (noteFailure k e r ok p) = ticks p ∧
  ∀ k', k' ≠ k → retries (noteFailure k e r ok p) !! k' = retries p !! k'.
Proof. unfold noteFailure. destruct (transientDataplaneError e); cbn; split_and!; try done. intros k' Hk. by simplify_map_eq. Qed.

Lemma noteFailure_bound k e r ok p rr :
  retries (noteFailure k e r ok p) !! k = Some rr →
  retries p !! k = Some rr ∨ rr_nextTick rr ≤ ticks p + retryMaxTicks.
Proof.
  unfold noteFailure. destruct (transientDataplaneError e); [by left|]. cbn. rewrite lookup_insert_eq. intros [= <-]. right. cbn. lia.
Qed.

Section sync.
Context {W : Type} {dp : Dataplane W} {laws : DataplaneLaws W}.
Abbreviation PW := (Programming * W)%type.
Implicit Types (l : Learned) (k : routeKey) (p : Programming) (w : W) (pw : PW).

(** What [syncKey] does, by whether it called the dataplane and how the call went. *)
Inductive sync_result (l : Learned) (k : routeKey) (p : Programming) (w : W) : PW * (bool * option DpError) → Prop :=
  | sync_none : prog p k = want l k → sync_result l k p w (p, w, (false, None))
  | sync_ok p' w' :
      prog p' k = want l k → (∀ k', k' ≠ k → prog p' k' = prog p k') →
      mesh w' !! k = mesh_of <$> want l k → (∀ k', k' ≠ k → mesh w' !! k' = mesh w !! k') →
      retries p' = delete k (retries p) → ticks p' = ticks p →
      instance w' = instance w → interfaces w' = interfaces w →
      sync_result l k p w (p', w', (true, None))
  | sync_err p' w' e :
      prog p' k = Some zeroRoute → (∀ k', k' ≠ k → prog p' k' = prog p k') →
      (∀ k', k' ≠ k → mesh w' !! k' = mesh w !! k') →
      (∀ k', k' ≠ k → retries p' !! k' = retries p !! k') →
      (∀ rr, retries p' !! k = Some rr → retries p !! k = Some rr ∨ rr_nextTick rr ≤ ticks p + retryMaxTicks) →
      ticks p' = ticks p → instance w' = instance w → interfaces w' = interfaces w →
      sync_result l k p w (p', w', (true, Some e)).

Lemma effects_other (f : gmap routeKey MeshRoute → gmap routeKey MeshRoute) call k w k' :
  effects mesh f call → (∀ m, f m !! k' = m !! k') → mesh (call w).1 !! k' = mesh w !! k'.
Proof.
  intros He Hf. specialize (He w). destruct (call w) as [w' [e|]]; cbn.
  - destruct He as [->| ->]; [done|apply Hf].
  - rewrite He. apply Hf.
Qed.

Lemma syncKey_result l k force p w : sync_result l k p w (syncKey l k force (p, w)).
Proof.
  unfold syncKey. fold (want l k). fold (prog p k). destruct (want l k) as [r|] eqn:Hw.
  - destruct (bool_decide (prog p k = Some r) && negb force) eqn:Hb.
    { apply andb_true_iff in Hb as [Hb _]. apply bool_decide_eq_true in Hb. apply sync_none. congruence. }
    pose proof (mesh_add k (mesh_of r)) as He. pose proof (ident_add k (mesh_of r) w) as [Hi1 Hi2].
    assert (Ho : ∀ k', k' ≠ k → mesh (AddRoute k (mesh_of r) w).1 !! k' = mesh w !! k').
    { intros k' Hk. apply (effects_other _ _ k _ _ He). intros m. by simplify_map_eq. }
    specialize (He w). destruct (AddRoute k (mesh_of r) w) as [w' [e|]]; cbn in *.
    + destruct (noteFailure_keeps k e r true p) as (H1 & H2 & H3).
      apply sync_err; try done; [by rewrite prog_set2, decide_True| |apply noteFailure_bound].
      intros k' Hk. rewrite prog_set2, decide_False by done. unfold prog. by rewrite H1.
    + apply sync_ok; try done; [by rewrite prog_set2, decide_True| |by rewrite He, Hw, lookup_insert_eq].
      intros k' Hk. by rewrite prog_set2, decide_False.
  - destruct (bool_decide (prog p k = None) && negb force) eqn:Hb.
    { apply andb_true_iff in Hb as [Hb _]. apply bool_decide_eq_true in Hb. apply sync_none. congruence. }
    pose proof (mesh_withdraw k) as He. pose proof (ident_withdraw k w) as [Hi1 Hi2].
    assert (Ho : ∀ k', k' ≠ k → mesh (WithdrawRoute k w).1 !! k' = mesh w !! k').
    { intros k' Hk. apply (effects_other _ _ k _ _ He). intros m. by simplify_map_eq. }
    specialize (He w). destruct (WithdrawRoute k w) as [w' [e|]]; cbn in *.
    + destruct (noteFailure_keeps k e zeroRoute false p) as (H1 & H2 & H3).
      apply sync_err; try done; [by rewrite prog_set2, decide_True| |apply noteFailure_bound].
      intros k' Hk. rewrite prog_set2, decide_False by done. unfold prog. by rewrite H1.
    + apply sync_ok; try done; [by rewrite prog_del2, decide_True| |by rewrite He, Hw, lookup_delete_eq].
      intros k' Hk. by rewrite prog_del2, decide_False.
Qed.

(** A forced call always calls. *)
Lemma syncKey_force l k p w : (syncKey l k true (p, w)).2.1 = true.
Proof.
  unfold syncKey. destruct (desiredRoute _ _ _); cbn [negb]; rewrite andb_false_r;
    [destruct (AddRoute _ _ _) as [? []]|destruct (WithdrawRoute _ _) as [? []]]; done.
Qed.

Lemma syncKey_healthy l k force p w :
  healthy w → healthy (syncKey l k force (p, w)).1.2 ∧ (syncKey l k force (p, w)).2.2 = None.
Proof.
  intros Hh. unfold syncKey. destruct (desiredRoute _ _ _) as [r|]; destruct (_ && _); try done.
  - pose proof (healthy_add k (mesh_of r) w Hh) as [He Hw']. destruct (AddRoute _ _ _) as [? []]; cbn in *; done.
  - pose proof (healthy_withdraw k w Hh) as [He Hw']. destruct (WithdrawRoute _ _) as [? []]; cbn in *; done.
Qed.

(** ** Invariants of the programming state

    What one call preserves, and dropping retries and reading the interfaces
    preserve, every operation preserves. *)

Record closed (P : Programming → W → Prop) : Prop := {
  cl_sync l k force p w : P p w → P (syncKey l k force (p, w)).1.1 (syncKey l k force (p, w)).1.2;
  cl_shrink p w m : m ⊆ retries p → P p w → P (mkProgramming (programmed p) m (ticks p)) w
}.

Section closure.
Context {ro : RangeOrder} (P : Programming → W → Prop) (HP : closed P).
Let P' pw := P pw.1 pw.2.

Lemma closed_sync_ l force pw k : P' pw → P' (syncKey_ l force pw k).
Proof. destruct pw as [p w]. apply (cl_sync _ HP). Qed.

Lemma closed_fold {X : Type} (f : PW → X → PW) (xs : list X) pw :
  (∀ pw x, P' pw → P' (f pw x)) → P' pw → P' (foldl f pw xs).
Proof. intros Hf. revert pw. induction xs as [|x xs IH]; intros pw Hpw; [done|]. cbn. apply IH, Hf, Hpw. Qed.

Lemma closed_syncLearned l vni prefix force pw : P' pw → P' (syncLearned l vni prefix force pw).
Proof.
  intros Hpw. unfold syncLearned. case_decide; apply closed_fold; intros; by repeat apply closed_sync_.
Qed.

Lemma closed_apply_update ru b w :
  P (br_prog b) w → P (br_prog (apply_update ru b w).1) (apply_update ru b w).2.
Proof.
  intros Hp. unfold apply_update.
  assert (Hs : ∀ l' s', P (br_prog (let '(p', w') := syncLearned l' (ru_Vni ru) (ru_Prefix ru) true (br_prog b, w) in
    (mkBusRoutes l' p' s' (br_watch b), w')).1) (let '(p', w') := syncLearned l' (ru_Vni ru) (ru_Prefix ru) true (br_prog b, w) in
    (mkBusRoutes l' p' s' (br_watch b), w')).2).
  { intros l' s'. pose proof (closed_syncLearned l' (ru_Vni ru) (ru_Prefix ru) true (br_prog b, w) Hp) as HQ.
    by destruct (syncLearned _ _ _ _ _). }
  destruct (ru_Op ru); cbn zeta; try case_decide; try done; apply Hs.
Qed.

Lemma closed_pruneVNI vni n b w : P (br_prog b) w → P (br_prog (pruneVNI vni n b w).1) (pruneVNI vni n b w).2.
Proof.
  intros Hp. unfold pruneVNI. case_decide; [done|].
  destruct (if decide (vni = PublicVNI) then _ else _) as [stale l'].
  pose proof (closed_fold (fun pw prefix => syncLearned l' vni prefix false pw) stale (br_prog b, w)) as HQ.
  destruct (foldl _ _ _) as [p' w']. cbn in *. apply HQ; [|done]. intros. by apply closed_syncLearned.
Qed.

Lemma closed_handle m b w : P (br_prog b) w → P (br_prog (handleRouteMsg m b w).1) (handleRouteMsg m b w).2.
Proof. intros Hp. destruct m; try done; [by apply closed_apply_update|by apply closed_pruneVNI]. Qed.

Lemma closed_release (ks : list routeKey) l pw : P' pw → P' (foldl releaseLocalHost (l, pw) ks).2.
Proof.
  revert l pw. induction ks as [|k ks IH]; intros l pw Hpw; [done|]. cbn.
  apply IH. by apply closed_sync_.
Qed.

Lemma backingOff_keeps l k r p :
  programmed (backingOff l k r p).1 = programmed p ∧ ticks (backingOff l k r p).1 = ticks p ∧
  retries (backingOff l k r p).1 ⊆ retries p.
Proof.
  unfold backingOff. destruct (desiredRoute _ _ _); [|done]. destruct (_ || _); [|done].
  split_and!; try done. apply delete_subseteq.
Qed.

(** What the backoff check leaves of the state, and whether the key waits. *)
Definition check_backoff (l : Learned) (k : routeKey) (p : Programming) : Programming * bool :=
  match retries p !! k with Some r => backingOff l k r p | None => (p, false) end.

Lemma check_backoff_keeps l k p :
  programmed (check_backoff l k p).1 = programmed p ∧ ticks (check_backoff l k p).1 = ticks p ∧
  retries (check_backoff l k p).1 ⊆ retries p.
Proof. unfold check_backoff. destruct (retries p !! k); [apply backingOff_keeps|done]. Qed.

Lemma closed_backoff l k p w : P p w → P (check_backoff l k p).1 w.
Proof.
  intros Hp. destruct (check_backoff_keeps l k p) as (H1 & H2 & H3).
  destruct (check_backoff l k p) as [[pg rt tk] b]. cbn in *. subst. by apply (cl_shrink _ HP).
Qed.

Lemma drift_loop_cons l k ks budget p w :
  drift_loop l (k :: ks) budget (p, w) =
  if decide (budget = 0%nat) then ((p, w), budget, true)
  else if (check_backoff l k p).2 then drift_loop l ks budget ((check_backoff l k p).1, w)
  else let '(pw', (sent, err)) := syncKey l k false ((check_backoff l k p).1, w) in
    let budget' := if sent : bool then pred budget else budget in
    if unreachable err then (pw', budget', true) else drift_loop l ks budget' pw'.
Proof. cbn. unfold check_backoff. case_decide; [done|]. destruct (match retries p !! k with Some _ => _ | None => _ end) as [p' []]; done. Qed.

Lemma closed_drift l ks budget pw : P' pw → P' (drift_loop l ks budget pw).1.1.
Proof.
  revert budget pw. induction ks as [|k ks IH]; intros budget [p w] Hpw; [done|].
  rewrite drift_loop_cons. case_decide; [done|]. apply (closed_backoff l k) in Hpw. cbn in Hpw.
  destruct (check_backoff l k p).2; [by apply IH|].
  pose proof (cl_sync _ HP l k false _ _ Hpw) as Hs. destruct (syncKey _ _ _ _) as [[p' w'] [sent err]].
  destruct (unreachable err); [done|]. by apply IH.
Qed.

Lemma closed_resend l queue budget pw : P' pw → P' (resend_loop l queue budget pw).1.
Proof.
  revert budget pw. induction queue as [|k queue IH]; intros budget [p w] Hpw; [done|].
  cbn [resend_loop]. case_decide; [done|]. destruct (_ && _); [by apply IH|].
  pose proof (cl_sync _ HP l k true _ _ Hpw) as Hs. destruct (syncKey _ _ _ _) as [[p' w'] [sent err]].
  destruct (unreachable err); [done|]. by apply IH.
Qed.

Lemma closed_resync l queue pw : P' pw → P' (resyncRoutes l queue pw).1.
Proof.
  intros Hpw. unfold resyncRoutes.
  assert (H1 : P' (set_retries (fun m => filter (fun kr => kr.1 ∈ routeKeys l pw.1) m) pw.1, pw.2)).
  { destruct pw as [p w]. apply (cl_shrink _ HP); [|done]. apply map_filter_subseteq. }
  apply (closed_drift l (range_set (routeKeys l pw.1)) routeCallsPerTick) in H1.
  destruct (drift_loop _ _ _ _) as [[pw2 budget] []]; [done|]. by apply closed_resend.
Qed.

End closure.
End sync.

(** ** Tactics *)

(** Case analysis on one call: not needed, served, failed. *)
Ltac sync_cases l k force p w :=
  let Hr := fresh "Hr" in
  pose proof (syncKey_result l k force p w) as Hr;
  destruct (syncKey l k force (p, w)) as [[?p' ?w'] [?sent ?err]];
  inversion Hr as [Hsame | ? ? Hk Hko Hm Hmo Hrt Htk Hi Hif | ? ? ? Hk Hko Hmo Hrt Hrb Htk Hi Hif]; subst; clear Hr; cbn.

(** Is [k'] the key of the call? *)
Ltac at_key k' k := destruct (decide (k' = k)) as [->|?].
