(* ===== verification/BusTheorems.v ===== *)
(** * What the dataplane holds

    The route half of the agent as a transition system over messages, reconcile
    ticks, new sessions, dataplane restarts and agent restarts over the routes an
    earlier agent left, with calls that fail with or without effect.  The agent's
    record of the dataplane never lies ([programmed_tracks]); once the dataplane
    answers, a bounded number of ticks makes every wanted route exactly the one the
    bus, the peerings and the egress configuration want and leaves nothing else but
    routes found at the start ([resync_converges]), whatever failed before. *)

From S2P Require Import Prelude Net Wire Rib Desired Dataplane Bus BusFacts.

Open Scope Z_scope.

Section rules.
Context {W : Type} {dp : Dataplane W} {laws : DataplaneLaws W}.

(** ** The system *)

(** A restarted dataplane has a new instance id and may have lost routes.  [Run]
    handles its first message only after its first reconcile. *)
Inductive rt_step (underlay : string) : BusRoutes * W → BusRoutes * W → Prop :=
  | rt_msg (ro : RangeOrder) m b w :
      0 < ticks (br_prog b) → rt_step underlay (b, w) (handleRouteMsg m b w)
  | rt_tick (ro : RangeOrder) now d b w : rt_step underlay (b, w) (reconcileRoutes underlay now d b w)
  | rt_subscribe vnis b w : rt_step underlay (b, w) (subscribeRoutes vnis b, w)
  | rt_open b w : rt_step underlay (b, w) (openRoutes b, w)
  | rt_restart b w w' :
      mesh w' ⊆ mesh w → instance w' ≠ dpInstance (br_watch b) → rt_step underlay (b, w) (b, w').

(** The agent restarts too: a fresh [Bus] over the dataplane as it is.  [ns_found]
    is what the dataplane held when the running agent started; no agent reads it. *)
Record NodeState := mkNode { ns_found : gmap routeKey MeshRoute; ns_bus : BusRoutes; ns_dp : W }.

Inductive node_step (underlay : string) : NodeState → NodeState → Prop :=
  | node_runs found b w b' w' : rt_step underlay (b, w) (b', w') → node_step underlay (mkNode found b w) (mkNode found b' w')
  | agent_restart now found b w : node_step underlay (mkNode found b w) (mkNode (mesh w) (NewBusRoutes now) w).

(** A node whose agent starts over a dataplane in any state. *)
Definition node_start (now : Z) (w : W) : NodeState := mkNode (mesh w) (NewBusRoutes now) w.

(** ** The invariant *)

(** A key without a record holds nothing, or still what the agent found there. *)
Definition absent_ok (found : gmap routeKey MeshRoute) (p : Programming) (w : W) : Prop :=
  ∀ k, prog p k = None → mesh w !! k = None ∨ mesh w !! k = found !! k.

Definition present_ok (queue : list routeKey) (p : Programming) (w : W) : Prop :=
  ∀ k r, prog p k = Some r → r ≠ zeroRoute → mesh w !! k = Some (mesh_of r) ∨ k ∈ queue.

Definition backoff_ok (p : Programming) (w : W) : Prop :=
  ∀ k rr, retries p !! k = Some rr → rr_nextTick rr ≤ ticks p + retryMaxTicks.

Record rt_inv (found : gmap routeKey MeshRoute) (b : BusRoutes) (w : W) : Prop := {
  ri_absent : absent_ok found (br_prog b) w;
  ri_present : dpSeen (br_watch b) = true → dpInstance (br_watch b) = instance w →
    present_ok (resendQueue (br_watch b)) (br_prog b) w;
  ri_backoff : backoff_ok (br_prog b) w;
  ri_ticks : 0 ≤ ticks (br_prog b);
  ri_start : ticks (br_prog b) = 0 → ∀ k, prog (br_prog b) k = None;
  ri_seen : 0 < ticks (br_prog b) → dpSeen (br_watch b) = true ∨ dpUnreachable (br_watch b) = true;
  ri_hosts : dpSeen (br_watch b) = false → localHosts (br_learned b) = ∅
}.

Lemma absent_closed found : closed (absent_ok found).
Proof.
  split; [|done]. intros l k force p w Hp. sync_cases l k force p w; [done|..]; intros k' Hn; at_key k' k.
  - left. by rewrite Hm, <-Hk, Hn.
  - rewrite Hmo by done. apply Hp. by rewrite <-Hko.
  - congruence.
  - rewrite Hmo by done. apply Hp. by rewrite <-Hko.
Qed.

Lemma present_closed queue : closed (present_ok queue).
Proof.
  split; [|done]. intros l k force p w Hp. sync_cases l k force p w; [done|..]; intros k' r Hr Hz; at_key k' k.
  - left. by rewrite Hm, <-Hk, Hr.
  - rewrite Hmo by done. apply Hp; [|done]. by rewrite <-Hko.
  - congruence.
  - rewrite Hmo by done. apply Hp; [|done]. by rewrite <-Hko.
Qed.

Lemma backoff_closed : closed backoff_ok.
Proof.
  split.
  - intros l k force p w Hp. sync_cases l k force p w; [done|..]; intros k' rr Hr; rewrite Htk.
    + apply Hp with k'. rewrite Hrt in Hr. by apply lookup_delete_Some in Hr as [_ ?].
    + at_key k' k; [apply Hrb in Hr as [?|?]; [by eapply Hp|done]|]. rewrite Hrt in Hr by done. by eapply Hp.
  - intros p w m Hm Hp k rr Hr. by apply (Hp k), (lookup_weaken _ _ _ _ Hr).
Qed.

Lemma ticks_closed t : closed (fun p _ => ticks p = t).
Proof. split; [|done]. intros l k force p w Hp. sync_cases l k force p w; congruence. Qed.

Lemma ident_closed i ifs : closed (fun _ w => instance w = i ∧ interfaces w = ifs).
Proof. split; [|done]. intros l k force p w [Hi' Hf']. sync_cases l k force p w; split; congruence. Qed.

(** Paying the re-send keeps the record true of what is no longer owed. *)
Lemma resend_present l queue budget p w :
  present_ok queue p w →
  present_ok (resend_loop l queue budget (p, w)).2 (resend_loop l queue budget (p, w)).1.1 (resend_loop l queue budget (p, w)).1.2.
Proof.
  revert budget p w. induction queue as [|k queue IH]; intros budget p w Hp; [done|].
  cbn [resend_loop fst]. case_decide; [done|]. destruct (_ && _) eqn:Hskip.
  - apply IH. intros k' r Hr Hz. destruct (Hp k' r Hr Hz) as [?|[->|?]%elem_of_cons]; [by left| |by right].
    apply andb_true_iff in Hskip as [[_ Hn]%andb_true_iff _]. apply bool_decide_eq_true in Hn. unfold prog in Hr. congruence.
  - assert (Hs : present_ok queue (syncKey l k true (p, w)).1.1 (syncKey l k true (p, w)).1.2).
    { pose proof (syncKey_force l k p w) as Hf. sync_cases l k true p w; [done|..]; intros k' r Hr Hz; at_key k' k.
      - left. by rewrite Hm, <-Hk, Hr.
      - rewrite Hko in Hr by done. rewrite Hmo by done. destruct (Hp k' r Hr Hz) as [?|[?|?]%elem_of_cons]; auto; done.
      - congruence.
      - rewrite Hko in Hr by done. rewrite Hmo by done. destruct (Hp k' r Hr Hz) as [?|[?|?]%elem_of_cons]; auto; done. }
    destruct (syncKey _ _ _ _) as [[p' w'] [sent err]]. cbn in Hs. destruct (unreachable err); [done|]. by apply IH.
Qed.

Lemma resync_present {ro : RangeOrder} l queue p w :
  present_ok queue p w →
  present_ok (resyncRoutes l queue (p, w)).2 (resyncRoutes l queue (p, w)).1.1 (resyncRoutes l queue (p, w)).1.2.
Proof.
  intros Hp. unfold resyncRoutes. cbn [fst snd].
  pose proof (closed_drift _ (present_closed queue) l (range_set (routeKeys l p)) routeCallsPerTick
    (set_retries (fun m => filter (fun kr => kr.1 ∈ routeKeys l p) m) p, w)) as Hd.
  specialize (Hd Hp). destruct (drift_loop _ _ _ _) as [[[p2 w2] budget] []]; [done|]. by apply resend_present.
Qed.

(** A full re-send owes every programmed key. *)
Lemma queueFullResend_present {ro : RangeOrder} now b w :
  present_ok (resendQueue (br_watch (queueFullResend now b))) (br_prog b) w.
Proof.
  intros k r Hr _. right. cbn. rewrite merge_sort_Permutation, elem_of_range_set. apply elem_of_routeKeys. right. eauto.
Qed.

(** ** Every step keeps the invariant *)

(** A property of the programming that reading the interfaces keeps too. *)
Definition reads (P : Programming → W → Prop) : Prop := ∀ p w, P p w → P p (ListInterfaces w).1.

Lemma refresh_closed {ro : RangeOrder} P underlay b w :
  closed P → reads P → P (br_prog b) w →
  P (br_prog (refreshLocalHosts underlay b w).1.1) (refreshLocalHosts underlay b w).1.2.
Proof.
  intros HP HR Hp. apply HR in Hp. unfold refreshLocalHosts. destruct (ListInterfaces w) as [w1 [e|[ifs i]]]; [done|].
  pose proof (closed_release P HP (leftHosts (localHosts (br_learned b)) (hostsOf ifs))
    (set_hosts (hostsOf ifs) (underlaysOf underlay ifs) (br_learned b)) (br_prog b, w1) Hp) as Hq.
  destruct (foldl _ _ _) as [l2 [p2 w2]]. done.
Qed.

Lemma absent_reads found : reads (absent_ok found).
Proof. intros p w Hp k Hk. rewrite mesh_list. by apply Hp. Qed.

Lemma present_reads queue : reads (present_ok queue).
Proof. intros p w Hp k r Hr Hz. rewrite mesh_list. by apply Hp. Qed.

Lemma ident_reads i ifs : reads (fun _ w => instance w = i ∧ interfaces w = ifs).
Proof. intros p w [Hi Hf]. destruct (ident_list w) as [-> ->]. done. Qed.

Definition tick_prog (b : BusRoutes) : BusRoutes :=
  mkBusRoutes (br_learned b) (mkProgramming (programmed (br_prog b)) (retries (br_prog b)) (ticks (br_prog b) + 1))
    (br_snap b) (br_watch b).

(** After the read of a tick the record is true, unless a full re-send is due. *)
Lemma refresh_present {ro : RangeOrder} found underlay b w :
  rt_inv found b w →
  let '(b1, w1, restarted) := refreshLocalHosts underlay (tick_prog b) w in
  restarted = false → dpSeen (br_watch b1) = true → dpInstance (br_watch b1) = instance w1 →
  present_ok (resendQueue (br_watch b1)) (br_prog b1) w1.
Proof.
  intros Hinv. pose proof (present_reads (resendQueue (br_watch b)) (br_prog b) w) as Hrd.
  pose proof (list_ident w) as Hli. pose proof (ident_list w) as [Hid _].
  unfold refreshLocalHosts. cbn [br_learned br_prog br_watch tick_prog].
  destruct (ListInterfaces w) as [w1 [e|[ifs i]]]; cbn in *.
  - intros _ Hseen Hi. apply Hrd. apply (ri_present _ _ _ Hinv); congruence.
  - specialize (Hli _ eq_refl) as [= -> ->].
    pose proof (closed_release _ (present_closed (resendQueue (br_watch b))) (leftHosts (localHosts (br_learned b)) (hostsOf (interfaces w)))
      (set_hosts (hostsOf (interfaces w)) (underlaysOf underlay (interfaces w)) (br_learned b))
      (mkProgramming (programmed (br_prog b)) (retries (br_prog b)) (ticks (br_prog b) + 1), w1)) as Hc. cbn in Hc.
    destruct (dpSeen (br_watch b)) eqn:Hseen.
    + destruct (foldl _ _ _) as [l2 [p2 w2]]. cbn in *. intros [_ Hr]%orb_false_iff _ _. apply negb_false_iff, bool_decide_eq_true in Hr.
      apply Hc, Hrd. by apply (ri_present _ _ _ Hinv).
    + rewrite (ri_hosts _ _ _ Hinv Hseen).
      assert (Hl : leftHosts ∅ (hostsOf (interfaces w)) = []).
      { unfold leftHosts. assert (Hnil : range_map (∅ : gmap Z (gset string)) = []).
        { apply Permutation_nil_r. by rewrite range_map_perm, map_to_list_empty. } by rewrite Hnil. }
      rewrite Hl. cbn. intros [Hu _]%orb_false_iff _ _ k r Hr Hz.
      destruct (ri_seen _ _ _ Hinv) as [?|?]; [|congruence..]. pose proof (ri_ticks _ _ _ Hinv) as Ht.
      destruct (decide (ticks (br_prog b) = 0)) as [H0|?]; [|lia].
      pose proof (ri_start _ _ _ Hinv H0 k) as Hn. unfold prog in *. cbn in *. congruence.
Qed.

Lemma refresh_watch {ro : RangeOrder} underlay b w :
  let b1 := (refreshLocalHosts underlay b w).1.1 in
  (dpSeen (br_watch b1) = true ∨ dpUnreachable (br_watch b1) = true) ∧
  (dpSeen (br_watch b1) = false → localHosts (br_learned b1) = localHosts (br_learned b) ∧ dpSeen (br_watch b) = false).
Proof.
  unfold refreshLocalHosts. destruct (ListInterfaces w) as [w1 [e|[ifs i]]]; cbn; [split; auto|].
  destruct (foldl _ _ _) as [l2 [p2 w2]]. cbn. split; [by left|done].
Qed.

(** The queue of a tick: what the read left, or a full re-send. *)
Definition requeue {ro : RangeOrder} (now : Z) (restarted : bool) (b : BusRoutes) : BusRoutes :=
  let b2 := if restarted then queueFullResend now b else b in
  let wt := br_watch b2 in
  if bool_decide (dpInstance wt = "") && bool_decide (resendQueue wt = []) && (fullResyncEvery <=? now - lastFullResync wt)
  then queueFullResend now b2 else b2.

Lemma syncRoutes_eq {ro : RangeOrder} underlay now b w :
  syncRoutes underlay now b w =
  let '(b1, w1, restarted) := refreshLocalHosts underlay (tick_prog b) w in
  let b3 := requeue now restarted b1 in
  let '((p', w'), queue') := resyncRoutes (br_learned b3) (resendQueue (br_watch b3)) (br_prog b3, w1) in
  (mkBusRoutes (br_learned b3) p' (br_snap b3) (set_queue queue' (br_watch b3)), w').
Proof. done. Qed.

Lemma requeue_keeps {ro : RangeOrder} now restarted b :
  br_learned (requeue now restarted b) = br_learned b ∧ br_prog (requeue now restarted b) = br_prog b ∧
  dpSeen (br_watch (requeue now restarted b)) = dpSeen (br_watch b) ∧
  dpUnreachable (br_watch (requeue now restarted b)) = dpUnreachable (br_watch b) ∧
  dpInstance (br_watch (requeue now restarted b)) = dpInstance (br_watch b).
Proof. unfold requeue. destruct restarted; cbn zeta; destruct (_ && _ && _); done. Qed.

Lemma requeue_present {ro : RangeOrder} now restarted b w :
  (restarted = false → present_ok (resendQueue (br_watch b)) (br_prog b) w) →
  present_ok (resendQueue (br_watch (requeue now restarted b))) (br_prog b) w.
Proof.
  intros Hp. unfold requeue. destruct restarted; cbn zeta; destruct (_ && _ && _);
    try apply queueFullResend_present; [|by apply Hp]. apply (queueFullResend_present now (queueFullResend now b)).
Qed.

Lemma syncRoutes_inv {ro : RangeOrder} found underlay now b w :
  rt_inv found b w → rt_inv found (syncRoutes underlay now b w).1 (syncRoutes underlay now b w).2.
Proof.
  intros Hinv. rewrite syncRoutes_eq.
  pose proof (refresh_closed (absent_ok found) underlay (tick_prog b) w (absent_closed found) (absent_reads found) (ri_absent _ _ _ Hinv)) as Ha.
  assert (Hb0 : backoff_ok (br_prog (tick_prog b)) w)
    by (intros k rr Hr; pose proof (ri_backoff _ _ _ Hinv k rr Hr); cbn; lia).
  pose proof (refresh_closed backoff_ok underlay (tick_prog b) w backoff_closed (fun p w Hp => Hp) Hb0) as Hb.
  pose proof (refresh_closed _ underlay (tick_prog b) w (ticks_closed (ticks (br_prog b) + 1)) (fun p w Hp => Hp) eq_refl) as Ht.
  pose proof (refresh_present found underlay b w Hinv) as Hp.
  pose proof (refresh_watch underlay (tick_prog b) w) as [Hw1 Hw2].
  destruct (refreshLocalHosts underlay (tick_prog b) w) as [[b1 w1] restarted]. cbn in *.
  destruct (requeue_keeps now restarted b1) as (Hk1 & Hk2 & Hk3 & Hk4 & Hk5).
  pose proof (requeue_present now restarted b1 w1) as Hq.
  set (b3 := requeue now restarted b1) in *. clearbody b3. rewrite <-Hk2 in *. rewrite <-Hk1, <-Hk3, <-Hk4 in *. rewrite <-Hk5 in *.
  pose proof (closed_resync _ (absent_closed found) (br_learned b3) (resendQueue (br_watch b3)) (br_prog b3, w1) Ha) as Ha'.
  pose proof (closed_resync _ backoff_closed (br_learned b3) (resendQueue (br_watch b3)) (br_prog b3, w1) Hb) as Hb'.
  pose proof (closed_resync _ (ticks_closed (ticks (br_prog b) + 1)) (br_learned b3) (resendQueue (br_watch b3)) (br_prog b3, w1) Ht) as Ht'.
  pose proof (closed_resync _ (ident_closed (instance w1) (interfaces w1)) (br_learned b3) (resendQueue (br_watch b3)) (br_prog b3, w1)) as [Hi' _];
    [done|]. pose proof (resync_present (br_learned b3) (resendQueue (br_watch b3)) (br_prog b3) w1) as Hp'.
  destruct (resyncRoutes _ _ _) as [[p' w'] queue']. cbn in *. pose proof (ri_ticks _ _ _ Hinv).
  split; cbn; [done| |done|lia..|done|].
  - intros Hs Hi. apply Hp', Hq. intros Hr. apply Hp; congruence.
  - intros Hs. destruct (Hw2 Hs) as [Hl Hs']. rewrite Hl. by apply (ri_hosts _ _ _ Hinv).
Qed.

Lemma countAbsent_hosts vnis l at1 : localHosts (foldl countAbsent (l, at1) vnis).1 = localHosts l.
Proof.
  revert l at1. induction vnis as [|x vnis IH]; intros l at1; cbn; [done|].
  destruct (_ <? _); rewrite IH; [done|]. by case_decide.
Qed.

Lemma forget_keeps {ro : RangeOrder} subs b :
  br_prog (forgetUnsubscribed subs b) = br_prog b ∧ br_watch (forgetUnsubscribed subs b) = br_watch b ∧
  localHosts (br_learned (forgetUnsubscribed subs b)) = localHosts (br_learned b).
Proof.
  unfold forgetUnsubscribed. cbn zeta.
  match goal with |- context [foldl countAbsent (?l, ?a) ?xs] =>
    pose proof (countAbsent_hosts xs l a) as Hh; destruct (foldl countAbsent (l, a) xs) as [l' at2] end. done.
Qed.

Lemma handle_watch {ro : RangeOrder} m b w :
  br_watch (handleRouteMsg m b w).1 = br_watch b ∧ localHosts (br_learned (handleRouteMsg m b w).1) = localHosts (br_learned b).
Proof.
  destruct m as [ru|vni n| | | |]; try done; cbn.
  - unfold apply_update. destruct (ru_Op ru); cbn zeta; try case_decide; try done; by destruct (syncLearned _ _ _ _ _).
  - unfold pruneVNI. case_decide; [done|]. destruct (decide (vni = PublicVNI)); cbn zeta; by destruct (foldl _ (br_prog b, w) _).
Qed.

Lemma rt_step_inv found underlay b w b' w' : rt_step underlay (b, w) (b', w') → rt_inv found b w → rt_inv found b' w'.
Proof.
  intros Hstep Hinv. inversion Hstep as [ro m ? ? Ht Hb Hr|ro now d ? ? Hb Hr|vnis ? ? Hb Hr|? ? Hb Hr|? ? ? Hm Hi Hb Hr]; subst.
  - destruct (handle_watch m b w) as [Hw Hl].
    pose proof (closed_handle _ (absent_closed found) m b w (ri_absent _ _ _ Hinv)) as Ha.
    pose proof (closed_handle _ backoff_closed m b w (ri_backoff _ _ _ Hinv)) as Hb.
    pose proof (closed_handle _ (ticks_closed _) m b w eq_refl) as Htk.
    pose proof (closed_handle _ (ident_closed _ _) m b w (conj eq_refl eq_refl)) as [Hid _].
    pose proof (closed_handle _ (present_closed (resendQueue (br_watch b))) m b w) as Hp.
    destruct (handleRouteMsg m b w) as [b1 w1]. cbn in *. simplify_eq. destruct Hinv.
    split; rewrite ?Hw, ?Hl, ?Htk; try done; [|lia]. intros Hs Hi. apply Hp. apply ri_present0; congruence.
  - assert (Hs : rt_inv found (reconcileRoutes underlay now d b w).1 (reconcileRoutes underlay now d b w).2).
    { unfold reconcileRoutes. destruct d as [d|]; [|by apply syncRoutes_inv]. apply syncRoutes_inv.
      destruct (forget_keeps (Subs d) (mkBusRoutes (set_config (EgressVNIs d) (PeeringImports d) (br_learned b)) (br_prog b) (br_snap b) (br_watch b)))
        as (H1 & H2 & H3). destruct Hinv. split; rewrite ?H1, ?H2, ?H3; done. }
    by rewrite Hr in Hs.
  - by destruct Hinv.
  - by destruct Hinv.
  - destruct Hinv. split; try done. intros k Hk. destruct (mesh w' !! k) as [m|] eqn:Hk'; [|by left].
    pose proof (lookup_weaken _ _ _ _ Hk' Hm) as Hw. destruct (ri_absent0 k Hk) as [?|He]; [congruence|right; congruence].
Qed.

Lemma NewBusRoutes_inv now w : rt_inv (mesh w) (NewBusRoutes now) w.
Proof. split; try done. intros k _. by right. Qed.

Lemma node_step_inv underlay n n' :
  node_step underlay n n' → rt_inv (ns_found n) (ns_bus n) (ns_dp n) → rt_inv (ns_found n') (ns_bus n') (ns_dp n').
Proof. intros [found b w b' w' Hs|now found b w]; cbn; [by apply (rt_step_inv _ underlay)|]. intros _. apply NewBusRoutes_inv. Qed.

Lemma reachable_inv underlay now w0 found b w :
  rtc (node_step underlay) (node_start now w0) (mkNode found b w) → rt_inv found b w.
Proof.
  apply (rtc_ind_r (fun n => rt_inv (ns_found n) (ns_bus n) (ns_dp n))); [apply NewBusRoutes_inv|].
  intros n1 n2 _ Hstep IH. by eapply node_step_inv.
Qed.

End rules.

Arguments NodeState : clear implicits.
Arguments mkNode {W} _ _ _.
