(* ===== verification/BusConverge.v ===== *)
(** * The dataplane converges

    On a dataplane that answers, a tick of the agent makes at most 256 calls; each
    call repairs one drifted key or pays one owed re-send, so the backlog falls by
    256 a tick once the backoffs have run out, which takes at most 60 ticks.  With
    no backlog left the dataplane holds exactly the wanted routes, but for what it
    held on keys nobody wants when the running agent started. *)

From S2P Require Import Prelude Net Wire Rib Desired Dataplane Bus BusFacts BusTheorems.

Open Scope Z_scope.

Section converge.
Context {W : Type} {dp : Dataplane W} {laws : DataplaneLaws W}.
Implicit Types (l : Learned) (k : routeKey) (p : Programming) (w : W).

(** ** The backlog *)

(** The keys whose record is not what is wanted. *)
Definition drifted (l : Learned) (p : Programming) : gset routeKey := filter (fun k => prog p k ≠ want l k) (routeKeys l p).

Definition backlog (b : BusRoutes) : nat := size (drifted (br_learned b) (br_prog b)) + length (resendQueue (br_watch b)).

Lemma elem_of_drifted l p k : k ∈ drifted l p ↔ prog p k ≠ want l k.
Proof.
  unfold drifted. rewrite elem_of_filter. split; [by intros [? _]|]. intros Hk. split; [done|].
  apply elem_of_routeKeys. destruct (want l k), (prog p k); eauto. done.
Qed.

Lemma drifted_mono l p p' : (∀ k, prog p' k = prog p k ∨ prog p' k = want l k) → drifted l p' ⊆ drifted l p.
Proof. intros Hp k. rewrite !elem_of_drifted. destruct (Hp k) as [->| ->]; done. Qed.

Lemma drifted_fix l p p' k :
  prog p k ≠ want l k → prog p' k = want l k → (∀ k', k' ≠ k → prog p' k' = prog p k') →
  size (drifted l p) = S (size (drifted l p')).
Proof.
  intros Hd Hk Hko. assert (Heq : drifted l p = {[k]} ∪ drifted l p').
  { apply set_eq. intros k'. rewrite elem_of_union, elem_of_singleton, !elem_of_drifted.
    destruct (decide (k' = k)) as [->|Hne]; [tauto|]. rewrite Hko by done. tauto. }
  rewrite Heq, size_union, size_singleton; [done|]. intros k' ->%elem_of_singleton. by rewrite elem_of_drifted.
Qed.

(** ** One tick on a dataplane that answers *)

Lemma syncKey_drift l k p w : (syncKey l k false (p, w)).2.1 = true → prog p k ≠ want l k.
Proof.
  unfold syncKey. fold (want l k) (prog p k). destruct (want l k) as [r|]; cbn [negb]; rewrite andb_true_r;
    case_bool_decide; done.
Qed.

Lemma check_backoff_waits l k p :
  (check_backoff l k p).2 = true → ∃ rr, retries p !! k = Some rr ∧ ticks p < rr_nextTick rr.
Proof.
  unfold check_backoff. destruct (retries p !! k) as [rr|]; [|done]. unfold backingOff.
  destruct (desiredRoute _ _ _); [|done]. destruct (_ || _); [done|]. cbn. intros Hlt%Z.ltb_lt. eauto.
Qed.

(** What the loop over the keys leaves. *)
Record drift_post l (ks : list routeKey) (budget : nat) p (p' : Programming) (w' : W) (budget' : nat) (returned : bool) : Prop := {
  dl_healthy : healthy w';
  dl_retries : retries p' ⊆ retries p;
  dl_ticks : ticks p' = ticks p;
  dl_prog : ∀ k, prog p' k = prog p k ∨ prog p' k = want l k;
  dl_calls : (size (drifted l p') + budget = size (drifted l p) + budget')%nat;
  dl_returned : returned = true → budget' = 0%nat;
  dl_done : returned = false → ∀ k, k ∈ ks →
    prog p' k = want l k ∨ ∃ rr, retries p !! k = Some rr ∧ ticks p < rr_nextTick rr
}.

Lemma prog_check_backoff l k p k' : prog (check_backoff l k p).1 k' = prog p k'.
Proof. unfold prog. by destruct (check_backoff_keeps l k p) as (-> & _ & _). Qed.

Lemma drifted_check_backoff l k p : drifted l (check_backoff l k p).1 = drifted l p.
Proof. apply set_eq. intros k'. by rewrite !elem_of_drifted, prog_check_backoff. Qed.

(** The head of the loop may be one more key that waits, is right, or was put right. *)
Lemma drift_post_step l k ks budget budget1 p p1 p' w' budget' returned :
  drift_post l ks budget1 p1 p' w' budget' returned →
  retries p1 ⊆ retries p → ticks p1 = ticks p → (∀ k, prog p1 k = prog p k ∨ prog p1 k = want l k) →
  (size (drifted l p1) + budget = size (drifted l p) + budget1)%nat →
  (prog p1 k = want l k ∨ ∃ rr, retries p !! k = Some rr ∧ ticks p < rr_nextTick rr) →
  drift_post l (k :: ks) budget p p' w' budget' returned.
Proof.
  intros [Hh Hr Ht Hp Hc Hret Hdone] Hr1 Ht1 Hp1 Hc1 Hk.
  assert (Hstay : ∀ k', prog p1 k' = want l k' → prog p' k' = want l k') by (intros k' E; destruct (Hp k'); congruence).
  split; [done|by etrans|congruence| |lia|done|].
  - intros k'. destruct (Hp k') as [->|]; auto.
  - intros Hf k' [->|Hin]%elem_of_cons; [destruct Hk; auto|].
    destruct (Hdone Hf k' Hin) as [?|(rr & Hrr & Hlt)]; [by left|right]. exists rr. split; [|congruence].
    by apply (lookup_weaken _ _ _ _ Hrr).
Qed.

Lemma drift_healthy l ks budget p w :
  healthy w →
  let '(p', w', budget', returned) := drift_loop l ks budget (p, w) in drift_post l ks budget p p' w' budget' returned.
Proof.
  revert budget p w. induction ks as [|k ks IH]; intros budget p w Hw.
  { cbn. split; try done; [by left|]. intros _ k Hk. by apply elem_of_nil in Hk. }
  rewrite drift_loop_cons. case_decide as Hb0; [by split; try done; left|].
  destruct (check_backoff_keeps l k p) as (_ & Hct & Hcr). pose proof (drifted_check_backoff l k p) as Hcd.
  pose proof (fun k' => prog_check_backoff l k p k') as Hcp. pose proof (check_backoff_waits l k p) as Hwait.
  destruct (check_backoff l k p) as [p1 waiting]; cbn in *. destruct waiting.
  { specialize (IH budget p1 w Hw). destruct (drift_loop _ _ _ _) as [[[p' w'] budget'] returned].
    eapply drift_post_step; eauto. by rewrite Hcd. }
  pose proof (syncKey_drift l k p1 w) as Hdr. pose proof (syncKey_healthy l k false p1 w Hw) as [Hw' Herr].
  sync_cases l k false p1 w; cbn in *; [| |done].
  - specialize (IH budget p' w' Hw'). destruct (drift_loop _ _ _ _) as [[[p2 w2] budget'] returned].
    eapply drift_post_step; eauto. by rewrite Hcd.
  - specialize (IH (pred budget) p' w' Hw'). destruct (drift_loop _ _ _ _) as [[[p2 w2] budget'] returned].
    pose proof (drifted_fix l p1 p' k (Hdr eq_refl) Hk Hko) as Hs. rewrite Hcd in Hs.
    eapply drift_post_step; eauto; [|congruence| |lia].
    + rewrite Hrt. etrans; [apply delete_subseteq|done].
    + intros k'. destruct (decide (k' = k)) as [->|]; [by right|]. left. by rewrite Hko, Hcp.
Qed.

Lemma resend_healthy l queue budget p w :
  healthy w →
  let '((p', w'), queue') := resend_loop l queue budget (p, w) in
  healthy w' ∧ retries p' ⊆ retries p ∧ ticks p' = ticks p ∧ drifted l p' ⊆ drifted l p ∧
  (queue' = [] ∨ (length queue' + budget ≤ length queue)%nat).
Proof.
  revert budget p w. induction queue as [|k queue IH]; intros budget p w Hw; [cbn; split_and!; by auto|].
  cbn [resend_loop fst]. case_decide as Hb0; [split_and!; try done; right; lia|].
  destruct (_ && _).
  { specialize (IH budget p w Hw). destruct (resend_loop _ _ _ _) as [[p' w'] queue'].
    destruct IH as (? & ? & ? & ? & [?|?]); split_and!; auto. right. cbn. lia. }
  pose proof (syncKey_force l k p w) as Hf. pose proof (syncKey_healthy l k true p w Hw) as [Hw' Herr].
  sync_cases l k true p w; cbn in *; [done| |done].
  specialize (IH (pred budget) p' w' Hw'). destruct (resend_loop _ _ _ _) as [[p2 w2] queue'].
  destruct IH as (H1 & H2 & H3 & H4 & H5). split_and!; [done| |congruence| |destruct H5; [by left|right; cbn; lia]].
  - etrans; [done|]. rewrite Hrt. apply delete_subseteq.
  - etrans; [done|]. apply drifted_mono. intros k'. destruct (decide (k' = k)) as [->|]; [by right|]. left. by apply Hko.
Qed.

(** No key is waiting out a backoff. *)
Definition nobody_waits (p : Programming) : Prop := ∀ k rr, retries p !! k = Some rr → rr_nextTick rr ≤ ticks p.

Lemma resync_healthy {ro : RangeOrder} l queue p w :
  healthy w →
  let '((p', w'), queue') := resyncRoutes l queue (p, w) in
  let before := (size (drifted l p) + length queue)%nat in
  let after := (size (drifted l p') + length queue')%nat in
  healthy w' ∧ retries p' ⊆ retries p ∧ ticks p' = ticks p ∧ (after ≤ before)%nat ∧
  (nobody_waits p → (after ≤ before - routeCallsPerTick)%nat).
Proof.
  intros Hw. unfold resyncRoutes. cbn [fst snd].
  set (p1 := set_retries _ p). pose proof (drift_healthy l (range_set (routeKeys l p)) routeCallsPerTick p1 w Hw) as Hd.
  assert (Hp1 : drifted l p1 = drifted l p) by done. assert (Hr1 : retries p1 ⊆ retries p) by apply map_filter_subseteq.
  destruct (drift_loop _ _ _ _) as [[[p2 w2] budget] returned]. destruct Hd as [Hh Hr Ht Hp Hc Hret Hdone]. rewrite Hp1 in Hc.
  destruct returned.
  { rewrite (Hret eq_refl) in Hc. split_and!; [done|by etrans|done|lia..]. }
  pose proof (resend_healthy l queue budget p2 w2 Hh) as Hs. destruct (resend_loop _ _ _ _) as [[p' w'] queue'].
  destruct Hs as (Hh' & Hr' & Ht' & Hd' & Hq). apply subseteq_size in Hd' as Hsz.
  assert (budget ≤ routeCallsPerTick)%nat. { assert (drifted l p2 ⊆ drifted l p) as Hle%subseteq_size by by apply drifted_mono. lia. }
  split_and!; [done|by do 2 (etrans; [done|])|by rewrite Ht', Ht|destruct Hq as [->|?]; cbn [length]; lia|].
  intros Hn. assert (He : drifted l p2 = ∅).
  { apply elem_of_equiv_empty_L. intros k Hk%elem_of_drifted. apply Hk.
    destruct (decide (k ∈ routeKeys l p)) as [Hin|Hin].
    - destruct (Hdone eq_refl k) as [?|(rr & Hrr & Hlt)]; [by apply elem_of_range_set|done|].
      apply (lookup_weaken _ _ _ _ Hrr) in Hr1. specialize (Hn k rr Hr1). cbn in Hlt. lia.
    - assert (Hdr : k ∉ drifted l p) by (unfold drifted; rewrite elem_of_filter; tauto). rewrite elem_of_drifted in Hdr.
      apply dec_stable in Hdr. destruct (Hp k) as [->|]; done. }
  rewrite He in Hc, Hd'. rewrite size_empty in Hc. assert (Hz : size (drifted l p') = 0%nat).
  { apply size_empty_iff. set_solver. }
  destruct Hq as [->|?]; cbn [length]; lia.
Qed.

(** The agent has read this dataplane, which reports an instance id. *)
Record steady (underlay : string) (b : BusRoutes) (w : W) : Prop := {
  st_hosts : localHosts (br_learned b) = hostsOf (interfaces w);
  st_own : ownUnderlays (br_learned b) = underlaysOf underlay (interfaces w);
  st_seen : dpSeen (br_watch b) = true;
  st_reachable : dpUnreachable (br_watch b) = false;
  st_instance : dpInstance (br_watch b) = instance w;
  st_nonempty : instance w ≠ ""
}.

Lemma leftHosts_same {ro : RangeOrder} (m : gmap Z (gset string)) : leftHosts m m = [].
Proof.
  apply elem_of_nil_inv. intros k ([vni ps] & Hk & Hm)%list_elem_of_bind. apply elem_of_range_map in Hm.
  apply list_elem_of_fmap in Hk as (q & _ & Hq). apply list_elem_of_filter in Hq as [Hn Hq]. rewrite Hm in Hn. cbn in Hn.
  by rewrite elem_of_range_set in Hq.
Qed.

Lemma refresh_steady {ro : RangeOrder} underlay b w :
  healthy w → steady underlay b w → refreshLocalHosts underlay b w = (b, (ListInterfaces w).1, false).
Proof.
  intros Hh [Hhosts Hown Hseen Hreach Hinst _]. destruct (healthy_list w Hh) as [Hl _]. unfold refreshLocalHosts.
  destruct (ListInterfaces w) as [w1 res]. cbn in Hl. subst res. rewrite Hhosts, leftHosts_same. cbn.
  rewrite Hseen, Hreach, Hinst, bool_decide_true by done. cbn. destruct b as [[] [] [] []]; cbn in *. by subst.
Qed.

Lemma steady_tick {ro : RangeOrder} underlay now b w :
  healthy w → steady underlay b w →
  let '(b', w') := syncRoutes underlay now b w in
  healthy w' ∧ steady underlay b' w' ∧ br_learned b' = br_learned b ∧
  retries (br_prog b') ⊆ retries (br_prog b) ∧ ticks (br_prog b') = ticks (br_prog b) + 1 ∧
  (backlog b' ≤ backlog b)%nat ∧
  ((∀ k rr, retries (br_prog b) !! k = Some rr → rr_nextTick rr ≤ ticks (br_prog b) + 1) →
    (backlog b' ≤ backlog b - routeCallsPerTick)%nat).
Proof.
  intros Hh Hs. rewrite syncRoutes_eq, (refresh_steady underlay (tick_prog b) w Hh) by (by destruct Hs).
  destruct (healthy_list w Hh) as [_ Hh1]. destruct (ident_list w) as [Hi1 Hi2]. set (w1 := (ListInterfaces w).1) in *.
  unfold requeue. cbn zeta iota. rewrite (bool_decide_false (dpInstance _ = "")); [|cbn; destruct Hs; congruence].
  cbn [andb br_learned br_watch br_prog br_snap tick_prog].
  set (p0 := mkProgramming _ _ _). pose proof (resync_healthy (br_learned b) (resendQueue (br_watch b)) p0 w1 Hh1) as Hr.
  pose proof (closed_resync _ (ident_closed (instance w1) (interfaces w1)) (br_learned b) (resendQueue (br_watch b)) (p0, w1)) as [Hi3 Hi4]; [done|].
  destruct (resyncRoutes _ _ _) as [[p' w'] queue']. destruct Hr as (H1 & H2 & H3 & H4 & H5). cbn in *.
  split_and!; try done. destruct Hs. by split; cbn; rewrite ?Hi3, ?Hi4, ?Hi1, ?Hi2.
Qed.

(** ** Many ticks *)

Fixpoint sync_ticks (underlay : string) (nows : list (RangeOrder * Z)) (b : BusRoutes) (w : W) : BusRoutes * W :=
  match nows with
  | [] => (b, w)
  | (ro, now) :: nows => let '(b', w') := syncRoutes (ro := ro) underlay now b w in sync_ticks underlay nows b' w'
  end.

Lemma sync_ticks_backlog underlay nows b w (m : nat) :
  healthy w → steady underlay b w →
  (∀ k rr, retries (br_prog b) !! k = Some rr → rr_nextTick rr ≤ ticks (br_prog b) + Z.of_nat m) →
  let '(b', w') := sync_ticks underlay nows b w in
  (backlog b' ≤ backlog b - routeCallsPerTick * (length nows - m))%nat ∧ br_learned b' = br_learned b ∧ steady underlay b' w'.
Proof.
  revert m b w. induction nows as [|[ro now] nows IH]; intros m b w Hh Hs Hm; cbn [sync_ticks length]; [split_and!; [lia|done..]|].
  pose proof (steady_tick underlay now b w Hh Hs) as Ht. destruct (syncRoutes underlay now b w) as [b1 w1].
  destruct Ht as (Hh1 & Hs1 & Hl1 & Hr1 & Ht1 & Hb1 & Hc1).
  specialize (IH (pred m) b1 w1 Hh1 Hs1). destruct (sync_ticks underlay nows b1 w1) as [b' w'].
  destruct IH as (IH1 & IH2 & IH3).
  { intros k rr Hrr. apply (lookup_weaken _ _ _ _ Hrr) in Hr1. specialize (Hm k rr Hr1). lia. }
  split_and!; [|congruence|done]. destruct m as [|m]; [|cbn [pred] in IH1; lia].
  assert (backlog b1 ≤ backlog b - routeCallsPerTick)%nat; [|cbn [pred] in IH1; unfold routeCallsPerTick in *; lia].
  apply Hc1. intros k rr Hrr. specialize (Hm k rr Hrr). lia.
Qed.

Lemma sync_ticks_inv found underlay nows b w : rt_inv found b w → rt_inv found (sync_ticks underlay nows b w).1 (sync_ticks underlay nows b w).2.
Proof.
  revert b w. induction nows as [|[ro now] nows IH]; intros b w Hinv; cbn; [done|].
  pose proof (syncRoutes_inv found underlay now b w Hinv) as Hn. destruct (syncRoutes underlay now b w). by apply IH.
Qed.

(** The dataplane's route of a key is the wanted one; where none is wanted it has
    none, or one it held when the agent started. *)
Definition settled (found : gmap routeKey MeshRoute) (l : Learned) (w : W) (k : routeKey) : Prop :=
  match want l k with
  | Some r => mesh w !! k = Some (mesh_of r)
  | None => mesh w !! k = None ∨ mesh w !! k = found !! k
  end.

Lemma no_backlog found underlay b w :
  rt_inv found b w → steady underlay b w → backlog b = 0%nat → ∀ k, settled found (br_learned b) w k.
Proof.
  intros Hinv Hs Hb k. unfold backlog in Hb. unfold settled.
  assert (Hp : prog (br_prog b) k = want (br_learned b) k).
  { apply dec_stable. rewrite <-elem_of_drifted. assert (He : size (drifted (br_learned b) (br_prog b)) = 0%nat) by lia.
    apply size_empty_iff in He. set_solver. }
  destruct (want (br_learned b) k) as [r|] eqn:Hw; cbn.
  - destruct (ri_present _ _ _ Hinv (st_seen _ _ _ Hs) (st_instance _ _ _ Hs) k r Hp) as [?|Hin]; [|done|].
    + intros ->. by apply (want_nonzero (br_learned b) k).
    + destruct (resendQueue (br_watch b)); [by apply elem_of_nil in Hin|cbn in Hb; lia].
  - by apply (ri_absent _ _ _ Hinv).
Qed.

(** ** The first tick *)

Lemma healthy_closed : closed (fun _ w => healthy w).
Proof. split; [|done]. intros l k force p w Hw. by apply syncKey_healthy. Qed.

Lemma release_hosts ks l pw :
  localHosts (foldl releaseLocalHost (l, pw) ks).1 = localHosts l ∧
  ownUnderlays (foldl releaseLocalHost (l, pw) ks).1 = ownUnderlays l.
Proof.
  revert l pw. induction ks as [|k ks IH]; intros l pw; [done|]. cbn.
  match goal with |- context [foldl releaseLocalHost (?l', ?pw') ks] => destruct (IH l' pw') as [-> ->] end. by case_match.
Qed.

(** A tick on a dataplane that answers with an instance id leaves the agent in step with it. *)
Lemma tick_steady {ro : RangeOrder} underlay now b w :
  healthy w → instance w ≠ "" →
  let '(b', w') := syncRoutes underlay now b w in healthy w' ∧ steady underlay b' w'.
Proof.
  intros Hh Hi. rewrite syncRoutes_eq. destruct (healthy_list w Hh) as [Hl Hh1]. destruct (ident_list w) as [Hi1 Hi2].
  unfold refreshLocalHosts. destruct (ListInterfaces w) as [w1 res]. cbn in Hl, Hh1, Hi1, Hi2. subst res.
  cbn [br_learned br_prog br_watch br_snap tick_prog].
  match goal with |- context [foldl releaseLocalHost (?l', ?pw') ?ks] =>
    destruct (release_hosts ks l' pw') as [Hr1 Hr2]; pose proof (closed_release _ healthy_closed ks l' pw' Hh1) as Hh2;
    pose proof (closed_release _ (ident_closed (instance w1) (interfaces w1)) ks l' pw' (conj eq_refl eq_refl)) as [Hi3 Hi4];
    destruct (foldl releaseLocalHost (l', pw') ks) as [l2 [p2 w2]] end. cbn in *.
  set (b1 := mkBusRoutes l2 p2 _ _). set (restarted := _ || _).
  destruct (requeue_keeps now restarted b1) as (Hk1 & Hk2 & Hk3 & Hk4 & Hk5). set (b3 := requeue now restarted b1) in *. clearbody b3.
  pose proof (closed_resync _ healthy_closed (br_learned b3) (resendQueue (br_watch b3)) (br_prog b3, w2) Hh2) as Hh3.
  pose proof (closed_resync _ (ident_closed (instance w2) (interfaces w2)) (br_learned b3) (resendQueue (br_watch b3)) (br_prog b3, w2)
    (conj eq_refl eq_refl)) as [Hi5 Hi6].
  destruct (resyncRoutes _ _ _) as [[p' w'] queue']. cbn in *. split; [done|]. subst b1. cbn in *. split; cbn; congruence.
Qed.

End converge.

(** The steps of a run, with the state after each by its projections. *)
Lemma rt_tick_proj {W : Type} {dp : Dataplane W} {laws : DataplaneLaws W} (ro : RangeOrder) underlay now d b (w : W) :
  rt_step underlay (b, w) ((reconcileRoutes underlay now d b w).1, (reconcileRoutes underlay now d b w).2).
Proof. rewrite <-surjective_pairing. apply rt_tick. Qed.

Lemma rt_msg_proj {W : Type} {dp : Dataplane W} {laws : DataplaneLaws W} (ro : RangeOrder) underlay m b (w : W) :
  0 < ticks (br_prog b) → rt_step underlay (b, w) ((handleRouteMsg m b w).1, (handleRouteMsg m b w).2).
Proof. intros Ht. rewrite <-surjective_pairing. by apply rt_msg. Qed.

Lemma node_tick_proj {W : Type} {dp : Dataplane W} {laws : DataplaneLaws W} (ro : RangeOrder) underlay now d found b (w : W) :
  node_step underlay (mkNode found b w) (mkNode found (reconcileRoutes underlay now d b w).1 (reconcileRoutes underlay now d b w).2).
Proof. apply node_runs, rt_tick_proj. Qed.

Lemma node_msg_proj {W : Type} {dp : Dataplane W} {laws : DataplaneLaws W} (ro : RangeOrder) underlay m found b (w : W) :
  0 < ticks (br_prog b) →
  node_step underlay (mkNode found b w) (mkNode found (handleRouteMsg m b w).1 (handleRouteMsg m b w).2).
Proof. intros Ht. by apply node_runs, rt_msg_proj. Qed.

(** *** An example run: a guest at 10.0.0.1, a route an earlier agent left at
    10.0.0.9, a learned route whose AddRoute fails after it landed. *)
Module Demo.

Definition node : string := "fd00::a".
Definition old : routeKey := mkKey 7 "10.0.0.9/32".
Definition dp0 : Scripted :=
  mkScripted {[old := mkMesh "fd00::c" false 7]} ∅ ∅ [mkLocalInterface "if1" 7 ["10.0.0.1"] node] "i1" [None; Some (mkDpError OtherCode "refused", true)].
Definition tick1 : BusRoutes * Scripted :=
  reconcileRoutes (ro := canonical_order) node 0 (Some (mkDesired [7] [] [] [] [] ∅)) (NewBusRoutes 0) dp0.
Definition route : ServerMsg := MRouteUpdate (mkRouteUpdate 7 "10.0.0.5/32" ["fd00::b"] ROUTE_OP_ADD false).
Definition after : BusRoutes * Scripted := handleRouteMsg (ro := canonical_order) route tick1.1 tick1.2.
Definition key : routeKey := mkKey 7 "10.0.0.5/32".

Lemma reachable : rtc (node_step node) (node_start 0 dp0) (mkNode (mesh dp0) after.1 after.2).
Proof.
  eapply rtc_l; [apply (node_tick_proj canonical_order node 0 (Some (mkDesired [7] [] [] [] [] ∅)))|].
  eapply rtc_l; [apply (node_msg_proj canonical_order node route); vm_compute; reflexivity|]. apply rtc_refl.
Qed.

(** The same guest and route on a dataplane that answers, with VNI 8 importing it. *)
Definition imports : DesiredState := mkDesired [7; 8] [] [] [] [] {[8 := [mkPeerImport 7 ["10.0.0.0/24"]]]}.
Definition dp1 : Scripted := mkScripted ∅ ∅ ∅ [mkLocalInterface "if1" 7 ["10.0.0.1"] node] "i1" [].
Definition peer1 : BusRoutes * Scripted := reconcileRoutes (ro := canonical_order) node 0 (Some imports) (NewBusRoutes 0) dp1.
Definition peer2 : BusRoutes * Scripted := handleRouteMsg (ro := canonical_order) route peer1.1 peer1.2.

(** It is the second agent of the node: the first restarts at once. *)
Lemma peer_reachable : rtc (node_step node) (node_start 9 dp1) (mkNode (mesh dp1) peer2.1 peer2.2).
Proof.
  eapply rtc_l; [apply (agent_restart node 0)|].
  eapply rtc_l; [apply (node_tick_proj canonical_order node 0 (Some imports))|].
  eapply rtc_l; [apply (node_msg_proj canonical_order node route); vm_compute; reflexivity|]. apply rtc_refl.
Qed.

End Demo.

(** ** Properties *)

(** C17. The agent's record of the dataplane never lies.  Along every run of
    messages, reconciles, new sessions, restarts of the dataplane that lose routes
    and restarts of the agent over whatever the dataplane holds, with calls that
    fail whether or not they took effect: a key the running agent has no record of
    holds no route, or exactly the one the dataplane held there when that agent
    started (an agent never reads the routes back).  A key recorded with a route
    holds exactly that route or is owed a re-send, once the agent has read the
    running instance of the dataplane; the record of a failed call is the zero
    route, which claims nothing. *)
Theorem programmed_tracks (W : Type) (dp : Dataplane W) (laws : DataplaneLaws W) (underlay : string) (now : Z)
    (w0 w : W) (b : BusRoutes) (found : gmap routeKey MeshRoute) (vni : Z) (prefix : string) :
  rtc (node_step underlay) (node_start now w0) (mkNode found b w) →
  match get2 (programmed (br_prog b)) vni prefix with
  | None => mesh w !! mkKey vni prefix = None ∨ mesh w !! mkKey vni prefix = found !! mkKey vni prefix
  | Some r =>
      dpSeen (br_watch b) = true → dpInstance (br_watch b) = instance w → r ≠ zeroRoute →
      mesh w !! mkKey vni prefix = Some (mesh_of r) ∨ mkKey vni prefix ∈ resendQueue (br_watch b)
  end.
Proof.
  intros Hr%reachable_inv. destruct (get2 _ _ _) as [r|] eqn:Hp.
  - intros Hs Hi Hz. by apply (ri_present _ _ _ Hr Hs Hi (mkKey vni prefix) r).
  - by apply (ri_absent _ _ _ Hr (mkKey vni prefix)).
Qed.

Lemma programmed_tracks_witness :
  get2 (programmed (br_prog Demo.tick1.1)) 7 "10.0.0.5/32" = None ∧
  (mesh Demo.tick1.2 !! Demo.key = None ∨ mesh Demo.tick1.2 !! Demo.key = mesh Demo.dp0 !! Demo.key).
Proof.
  split; [vm_compute; reflexivity|].
  apply (programmed_tracks Scripted scripted_dataplane scripted_laws Demo.node 0 Demo.dp0 Demo.tick1.2 Demo.tick1.1 (mesh Demo.dp0) 7 "10.0.0.5/32").
  apply rtc_once. apply (node_tick_proj canonical_order Demo.node 0 (Some (mkDesired [7] [] [] [] [] ∅))).
Defined.

(** C16. The dataplane converges on what is wanted.  From any state a node reaches,
    after any failures, dataplane restarts and agent restarts, if the dataplane
    answers from now on and reports an instance id, one tick to read it, at most 60
    to wait out the backoffs and one per 256 keys that drifted or are owed a
    re-send settle every key: where a route is wanted the dataplane holds exactly
    that one, and where none is wanted it holds none, or one that it already held
    when the running agent started.  Such a leftover of an earlier agent is the
    only difference: with none found at the start the routes are exactly the
    wanted ones. *)
Theorem resync_converges (W : Type) (dp : Dataplane W) (laws : DataplaneLaws W) (underlay : string) (now : Z)
    (w0 w : W) (found : gmap routeKey MeshRoute) (b : BusRoutes) (ro : RangeOrder) (now1 : Z) (nows : list (RangeOrder * Z)) (n : nat) :
  rtc (node_step underlay) (node_start now w0) (mkNode found b w) →
  healthy w → instance w ≠ "" →
  let '(b1, w1) := syncRoutes underlay now1 b w in
  (backlog b1 ≤ routeCallsPerTick * n)%nat → length nows = (60 + n)%nat →
  let '(b', w') := sync_ticks underlay nows b1 w1 in
  br_learned b' = br_learned b1 ∧ resendQueue (br_watch b') = [] ∧
  (∀ k, settled found (br_learned b1) w' k) ∧
  (found = ∅ → ∀ k, mesh w' !! k = mesh_of <$> desiredRoute (br_learned b1) (rk_vni k) (rk_prefix k)).
Proof.
  intros Hr%reachable_inv Hh Hi. apply (syncRoutes_inv (ro := ro) found underlay now1) in Hr.
  pose proof (tick_steady underlay now1 b w Hh Hi) as Ht. destruct (syncRoutes underlay now1 b w) as [b1 w1].
  destruct Ht as [Hh1 Hs1]. intros Hb Hn. pose proof (sync_ticks_inv found underlay nows b1 w1 Hr) as Hinv.
  pose proof (sync_ticks_backlog underlay nows b1 w1 60 Hh1 Hs1 (ri_backoff _ _ _ Hr)) as Hbl.
  destruct (sync_ticks underlay nows b1 w1) as [b' w']. destruct Hbl as (Hb' & Hl & Hs'). cbn [fst snd] in Hinv.
  rewrite Hn in Hb'. assert (Hz : backlog b' = 0%nat) by (unfold routeCallsPerTick in *; lia).
  pose proof (no_backlog found underlay b' w' Hinv Hs' Hz) as Hset. rewrite Hl in Hset.
  split_and!; [done| |done|].
  - unfold backlog in Hz. apply nil_length_inv. lia.
  - intros -> k. specialize (Hset k). unfold settled in Hset. fold (want (br_learned b1) k).
    destruct (want (br_learned b1) k); [done|]. by destruct Hset.
Qed.

Lemma resync_converges_witness :
  let bw1 := syncRoutes (ro := canonical_order) Demo.node 5 Demo.after.1 Demo.after.2 in
  let final := sync_ticks Demo.node (replicate 61 (canonical_order, 10)) bw1.1 bw1.2 in
  get2 (programmed (br_prog Demo.after.1)) 7 "10.0.0.5/32" = Some zeroRoute ∧
  mesh final.2 !! Demo.key = Some (mkMesh "fd00::b" false 7) ∧
  mesh final.2 !! Demo.old = Some (mkMesh "fd00::c" false 7).
Proof.
  intros bw1 final. split; [vm_compute; reflexivity|]. split; [|vm_compute; reflexivity].
  assert (Hw : desiredRoute (br_learned bw1.1) 7 "10.0.0.5/32" = Some (mkDpRoute "fd00::b" false 7 originOwn)) by (vm_compute; reflexivity).
  assert (Hb : (backlog bw1.1 ≤ routeCallsPerTick * 1)%nat) by (vm_compute; lia).
  pose proof (resync_converges Scripted scripted_dataplane scripted_laws Demo.node 0 Demo.dp0 Demo.after.2 (mesh Demo.dp0) Demo.after.1
    canonical_order 5 (replicate 61 (canonical_order, 10)) 1 Demo.reachable) as Hc.
  fold bw1 in Hc. subst final. destruct bw1 as [b1 w1]. cbn [fst snd] in *.
  assert (Hh : healthy Demo.after.2) by (vm_compute; reflexivity). assert (Hi : instance Demo.after.2 ≠ "") by (vm_compute; discriminate).
  specialize (Hc Hh Hi Hb eq_refl). destruct (sync_ticks Demo.node _ b1 w1) as [b' w']. destruct Hc as (_ & _ & Hk & _).
  specialize (Hk Demo.key). unfold settled, want in Hk. cbn [Demo.key rk_vni rk_prefix] in Hk. by rewrite Hw in Hk.
Defined.

(** C25. Tenants stay apart.  In a state a node reaches, whatever restarted, in which
    the agent has read the running dataplane and has nothing left to repair, each
    route of the dataplane is one of four: taught on the table it is in and
    delivered there; the import of another VNI's route, which delivers into that
    VNI, with a prefix of the import over its host; the public default of an
    egress VNI; or, on a key nobody wants, a route the dataplane already held when
    the running agent started.  A guest attached to this node is never routed to
    this node itself by a route of the first two kinds. *)
Theorem converged_isolation (W : Type) (dp : Dataplane W) (laws : DataplaneLaws W) (underlay : string) (now : Z)
    (w0 w : W) (found : gmap routeKey MeshRoute) (b : BusRoutes) (k : routeKey) (m : MeshRoute) :
  rtc (node_step underlay) (node_start now w0) (mkNode found b w) → steady underlay b w → backlog b = 0%nat →
  mesh w !! k = Some m →
  let l := br_learned b in
  let own := m_deliveryVNI m = rk_vni k ∧
    ∃ o, get2 (learnedOwn l) (rk_vni k) (rk_prefix k) = Some o ∧ m_nexthop m ∈ or_nexthops o in
  let imported := ∃ im o, im ∈ default [] (peerImports l !! rk_vni k) ∧ pi_PeerVNI im = m_deliveryVNI m ∧
    prefixInCIDRs (rk_prefix k) (pi_ImportPrefixes im) = true ∧
    get2 (learnedOwn l) (m_deliveryVNI m) (rk_prefix k) = Some o ∧ m_nexthop m ∈ or_nexthops o in
  let public := m_deliveryVNI m = PublicVNI ∧ rk_vni k ∈ egressVNIs l ∧ learnedPublic l !! rk_prefix k = Some (m_nexthop m) in
  let leftover := desiredRoute l (rk_vni k) (rk_prefix k) = None ∧ found !! k = Some m in
  let not_to_self := isLocal l (rk_vni k) (rk_prefix k) = true → m_nexthop m ∉ underlaysOf underlay (interfaces w) in
  own ∧ not_to_self ∨ imported ∧ not_to_self ∨ public ∨ leftover.
Proof.
  intros Hr%reachable_inv Hs Hb Hk. cbv zeta. pose proof (no_backlog found underlay b w Hr Hs Hb k) as Hset. unfold settled in Hset.
  rewrite <-(st_own _ _ _ Hs). destruct (want (br_learned b) k) as [r|] eqn:Hw.
  - rewrite Hk in Hset. injection Hset as ->. apply want_Some in Hw as [H1|[H1|H1]].
    + left. destruct H1 as (o & nh & Ho & Hn & ->). cbn. split; [split; [done|]|].
      * exists o. split; [done|]. by eapply nexthopFor_elem.
      * intros Hl. by eapply nexthopFor_local.
    + right; left. destruct H1 as (im & o & nh & Him & _ & Ho & Hp & Hn & ->). cbn. split.
      * exists im, o. split_and!; try done. by eapply nexthopFor_elem.
      * intros Hl. by eapply nexthopFor_local.
    + right; right; left. destruct H1 as (nh & Hl & He & ->). done.
  - do 3 right. split; [done|]. destruct Hset as [He|He]; congruence.
Qed.

Lemma converged_isolation_witness :
  mesh Demo.peer2.2 !! mkKey 8 "10.0.0.5/32" = Some (mkMesh "fd00::b" false 7) ∧
  ∃ im o, im ∈ default [] (peerImports (br_learned Demo.peer2.1) !! 8) ∧ pi_PeerVNI im = 7 ∧
    prefixInCIDRs "10.0.0.5/32" (pi_ImportPrefixes im) = true ∧
    get2 (learnedOwn (br_learned Demo.peer2.1)) 7 "10.0.0.5/32" = Some o ∧ "fd00::b" ∈ or_nexthops o.
Proof.
  assert (Hk : mesh Demo.peer2.2 !! mkKey 8 "10.0.0.5/32" = Some (mkMesh "fd00::b" false 7)) by (vm_compute; reflexivity).
  split; [exact Hk|].
  destruct (converged_isolation Scripted scripted_dataplane scripted_laws Demo.node 9 Demo.dp1 Demo.peer2.2 (mesh Demo.dp1) Demo.peer2.1
    (mkKey 8 "10.0.0.5/32") (mkMesh "fd00::b" false 7)) as [[[H _] _]|[[H _]|[[H _]|[_ H]]]].
  - exact Demo.peer_reachable.
  - split; try reflexivity. discriminate.
  - vm_compute. reflexivity.
  - exact Hk.
  - discriminate H.
  - exact H.
  - discriminate H.
  - vm_compute in H. discriminate H.
Defined.
