(* ===== verification/BusGlobal.v ===== *)
(** * The global half of the agent's bus client

    src/mesh/agent/bus.go and public.go: the neighbour NAT blocks an edge relays
    returns to, the load balancers and backends it dispatches to, both from the
    global feed, and the convergence latch.  On a dataplane that answers, once a
    complete snapshot has ended the dataplane holds exactly the blocks the feed
    carries, through every later update, as long as the dataplane can store them: they
    fit, none is empty and no two overlap ([edge_nats_exact]).  The load balancers are
    continued in [EdgeLb]. *)

From S2P Require Import Prelude Net Wire Rib Dataplane Bus.

Open Scope Z_scope.

(** ** State *)

Record publicEntry := mkPublicEntry { pe_lbIP : string; pe_owner : string; pe_overlay : string }.

#[export] Instance publicEntry_eq_dec : EqDecision publicEntry.
Proof. solve_decision. Defined.
#[export] Instance publicEntry_countable : Countable publicEntry.
Proof.
  apply (inj_countable' (fun e => (pe_lbIP e, pe_owner e, pe_overlay e)) (fun '(a, b, c) => mkPublicEntry a b c)). by intros [].
Defined.

Record edgeLb := mkEdgeLb { lb_ports : list LbPort; lb_backends : gmap backendKey Z }.

Record BusGlobal := mkBusGlobal {
  learnedEdge : gmap string string;
  edgeLbs : gmap string edgeLb;
  installedNat : gset natEntry;
  seenNat : gmap natEntry string;
  seenPublic : gset publicEntry;
  replayingGlobal : bool;
  globalRecords : Z
}.

Definition NewBusGlobal : BusGlobal := mkBusGlobal ∅ ∅ ∅ ∅ ∅ true 0.

(** The fixed fields of the agent. *)
Record BusConfig := mkBusConfig { cfg_nodeID : string; cfg_underlay : string; cfg_isEdge : bool }.

Definition set_edge f g := mkBusGlobal (f (learnedEdge g)) (edgeLbs g) (installedNat g) (seenNat g) (seenPublic g) (replayingGlobal g) (globalRecords g).
Definition set_edgeLbs f g := mkBusGlobal (learnedEdge g) (f (edgeLbs g)) (installedNat g) (seenNat g) (seenPublic g) (replayingGlobal g) (globalRecords g).
Definition set_installed f g := mkBusGlobal (learnedEdge g) (edgeLbs g) (f (installedNat g)) (seenNat g) (seenPublic g) (replayingGlobal g) (globalRecords g).
Definition set_seenNat f g := mkBusGlobal (learnedEdge g) (edgeLbs g) (installedNat g) (f (seenNat g)) (seenPublic g) (replayingGlobal g) (globalRecords g).
Definition set_seenPublic f g := mkBusGlobal (learnedEdge g) (edgeLbs g) (installedNat g) (seenNat g) (f (seenPublic g)) (replayingGlobal g) (globalRecords g).
Definition set_replaying b g := mkBusGlobal (learnedEdge g) (edgeLbs g) (installedNat g) (seenNat g) (seenPublic g) b (globalRecords g).
Definition count_record g := mkBusGlobal (learnedEdge g) (edgeLbs g) (installedNat g) (seenNat g) (seenPublic g) (replayingGlobal g) (u32 (globalRecords g + 1)).

Definition resetGlobalSnapshot (g : BusGlobal) : BusGlobal := mkBusGlobal (learnedEdge g) (edgeLbs g) (installedNat g) ∅ ∅ true 0.

Definition stripMask (cidr : string) : string :=
  match cut "/" (chars cidr) with Some (a, _) => string_of_list_ascii a | None => cidr end.

Definition entry_of (b : NatBlock) : natEntry := mkNatEntry (nb_NatIP b) (nb_PortMin b) (nb_PortMax b) (nb_Vni b).

Section global.
Context {ro : RangeOrder} {W : Type} `{!Dataplane W}.

(** The agent's bookkeeping and the dataplane. *)
Abbreviation GW := (BusGlobal * W)%type.

(** ** Neighbour NAT *)

Definition addNeighborNat (e : natEntry) (owner : string) (gw : GW) : GW :=
  let '(g, w) := gw in
  match AddNeighborNat e owner w with
  | (w', Some _) => (g, w')
  | (w', None) => (set_installed (fun s => {[e]} ∪ s) g, w')
  end.

Definition applyNat (cfg : BusConfig) (b : NatBlock) (op : RouteOp) (gw : GW) : GW :=
  let '(g, w) := gw in
  if negb (cfg_isEdge cfg) || bool_decide (nb_OwnerUnderlay b = cfg_underlay cfg) then gw
  else
    let e := entry_of b in
    match op with
    | ROUTE_OP_ADD =>
        let g' := set_seenNat <[e := nb_OwnerUnderlay b]> g in
        if replayingGlobal g then (g', w) else addNeighborNat e (nb_OwnerUnderlay b) (g', w)
    | ROUTE_OP_WITHDRAW =>
        let g' := set_seenNat (delete e) g in
        match WithdrawNeighborNat e w with
        | (w', Some _) => (g', w')
        | (w', None) => (set_installed (fun s => s ∖ {[e]}) g', w')
        end
    | ROUTE_OP_UNSPECIFIED => gw
    end.

Definition add_all (gw : GW) : GW :=
  foldl (fun gw '(e, owner) => addNeighborNat e owner gw) gw (range_map (seenNat gw.1)).

Definition prune_nat (gw : GW) (e : natEntry) : GW :=
  let '(g, w) := gw in
  if bool_decide (is_Some (seenNat g !! e)) then gw
  else match WithdrawNeighborNat e w with
       | (w', Some _) => (g, w')
       | (w', None) => (set_installed (fun s => s ∖ {[e]}) g, w')
       end.

Definition syncNeighborNats (gw : GW) : GW :=
  let '(g, w) := gw in
  match ReplaceNeighborNats (range_map (seenNat g)) w with
  | (w', None) => (set_installed (fun _ => dom (seenNat g)) g, w')
  | (w', Some err) =>
      if transientDataplaneError err then (g, w')
      else
        let '(g2, w2) := add_all (g, w') in
        match err_code err with
        | Unimplemented => foldl prune_nat (g2, w2) (range_set (installedNat g2))
        | _ => (g2, w2)
        end
  end.

(** ** Load balancers *)

(** Reports success. *)
Definition registerLoadBalancer (lbIP : string) (ports : list LbPort) (gw : GW) : GW * bool :=
  let '(g, w) := gw in
  let record w' := ((set_edgeLbs <[lbIP := mkEdgeLb ports ∅]> g, w'), true) in
  match AddLoadBalancer lbIP ports w with
  | (w1, None) => record w1
  | (w1, Some _) =>
      match DelLoadBalancer lbIP w1 with
      | (w2, Some _) => ((g, w2), false)
      | (w2, None) =>
          match AddLoadBalancer lbIP ports w2 with
          | (w3, Some _) => ((g, w3), false)
          | (w3, None) => record w3
          end
      end
  end.

Definition set_backend (lbIP : string) (f : gmap backendKey Z → gmap backendKey Z) (g : BusGlobal) : BusGlobal :=
  set_edgeLbs (alter (fun lb => mkEdgeLb (lb_ports lb) (f (lb_backends lb))) lbIP) g.

(** Attach one backend and record it; on an error nothing is recorded. *)
Definition attach (lbIP : string) (gw : GW) (bv : backendKey * Z) : GW :=
  let '(g, w) := gw in
  let '(bk, vni) := bv in
  match AddLbBackend lbIP bk vni w with
  | (w', Some _) => (g, w')
  | (w', None) => (set_backend lbIP <[bk := vni]> g, w')
  end.

Definition backend_of (pp : PublicPrefix) : backendKey := mkBackendKey (pp_OwnerUnderlay pp) (pp_OverlayIP pp).

(** The last step of [addLbBackend]: the announced backend, unless attached. *)
Definition attach_own (lbIP : string) (pp : PublicPrefix) (gw : GW) : GW :=
  match edgeLbs gw.1 !! lbIP with
  | Some lb => if bool_decide (is_Some (lb_backends lb !! backend_of pp)) then gw else attach lbIP gw (backend_of pp, pp_Vni pp)
  | None => gw
  end.

Definition addLbBackend (pp : PublicPrefix) (gw : GW) : GW :=
  let '(g, w) := gw in
  let lbIP := stripMask (pp_Prefix pp) in
  let ports := pp_Ports pp in
  match edgeLbs g !! lbIP with
  | None =>
      match registerLoadBalancer lbIP ports gw with
      | (gw', false) => gw'
      | (gw', true) => attach_own lbIP pp gw'
      end
  | Some lb =>
      if negb (LbPortsEqual (lb_ports lb) ports) then
        let prev := lb_backends lb in
        match DelLoadBalancer lbIP w with
        | (w1, Some _) => (g, w1)
        | (w1, None) =>
            match registerLoadBalancer lbIP ports (set_edgeLbs (delete lbIP) g, w1) with
            | (gw', false) => gw'
            | (gw', true) => attach_own lbIP pp (foldl (attach lbIP) gw' (range_map prev))
            end
        end
      else attach_own lbIP pp gw
  end.

(** Delete the load balancer when it has no backend left. *)
Definition drop_empty (lbIP : string) (gw : GW) : GW :=
  let '(g, w) := gw in
  match edgeLbs g !! lbIP with
  | Some lb =>
      if decide (size (lb_backends lb) = 0%nat) then
        match DelLoadBalancer lbIP w with
        | (w', Some _) => (g, w')
        | (w', None) => (set_edgeLbs (delete lbIP) g, w')
        end
      else gw
  | None => gw
  end.

Definition delLbBackend (pp : PublicPrefix) (gw : GW) : GW :=
  let '(g, w) := gw in
  let lbIP := stripMask (pp_Prefix pp) in
  let bk := backend_of pp in
  match edgeLbs g !! lbIP with
  | None => gw
  | Some lb =>
      if bool_decide (is_Some (lb_backends lb !! bk)) then
        match DelLbBackend lbIP bk w with
        | (w', Some _) => (g, w')
        | (w', None) => drop_empty lbIP (set_backend lbIP (delete bk) g, w')
        end
      else drop_empty lbIP gw
  end.

Definition entry_for (pp : PublicPrefix) : publicEntry :=
  mkPublicEntry (stripMask (pp_Prefix pp)) (pp_OwnerUnderlay pp) (pp_OverlayIP pp).

Definition applyPublic (cfg : BusConfig) (pp : option PublicPrefix) (op : RouteOp) (gw : GW) : GW :=
  match pp with
  | None => gw
  | Some pp =>
      let '(g, w) := gw in
      match pp_Kind pp with
      | PUBLIC_KIND_EDGE_UNDERLAY =>
          let anycast := stripMask (pp_Prefix pp) in
          match op with
          | ROUTE_OP_ADD => (set_edge <[anycast := pp_OwnerUnderlay pp]> g, w)
          | ROUTE_OP_WITHDRAW => (set_edge (delete anycast) g, w)
          | ROUTE_OP_UNSPECIFIED => gw
          end
      | PUBLIC_KIND_LB_IP =>
          if negb (cfg_isEdge cfg) then gw
          else match op with
               | ROUTE_OP_ADD => addLbBackend pp (set_seenPublic (fun s => {[entry_for pp]} ∪ s) g, w)
               | ROUTE_OP_WITHDRAW => delLbBackend pp (set_seenPublic (fun s => s ∖ {[entry_for pp]}) g, w)
               | ROUTE_OP_UNSPECIFIED => gw
               end
      | _ => gw
      end
  end.

Definition prune_backend (lbIP : string) (gw : GW) (bk : backendKey) : GW :=
  let '(g, w) := gw in
  if bool_decide (mkPublicEntry lbIP (bk_owner bk) (bk_overlay bk) ∈ seenPublic g) then gw
  else match DelLbBackend lbIP bk w with
       | (w', Some _) => (g, w')
       | (w', None) => (set_backend lbIP (delete bk) g, w')
       end.

Definition prune_lb (gw : GW) (lb : string * edgeLb) : GW :=
  drop_empty lb.1 (foldl (prune_backend lb.1) gw (range_map (lb_backends lb.2)).*1).

Definition pruneLbBackends (gw : GW) : GW := foldl prune_lb gw (range_map (edgeLbs gw.1)).

(** ** The end of the snapshot *)

Definition pruneGlobal (want : Z) (gw : GW) : GW :=
  let '(g, w) := gw in
  let g1 := set_replaying false g in
  if decide (globalRecords g ≠ want) then add_all (g1, w)
  else pruneLbBackends (syncNeighborNats (g1, w)).

(** The global messages of [handleServerMsg]. *)
Definition handleGlobalMsg (cfg : BusConfig) (gw : GW) (m : ServerMsg) : GW :=
  match m with
  | MNatUpdate b op => applyNat cfg b op (count_record gw.1, gw.2)
  | MPublicUpdate p op => applyPublic cfg p op (count_record gw.1, gw.2)
  | MEndOfGlobal n => pruneGlobal n gw
  | _ => gw
  end.

End global.

(** ** NAT blocks: what the load balancers leave alone *)

(** The bookkeeping of the NAT half and of the snapshot. *)
Definition nat_part (g : BusGlobal) : gset natEntry * gmap natEntry string * bool * Z :=
  (installedNat g, seenNat g, replayingGlobal g, globalRecords g).

Section lbs_keep.
Context {ro : RangeOrder} {W : Type} {dp : Dataplane W} {laws : DataplaneLaws W}.
Abbreviation GW := (BusGlobal * W)%type.

(** Same NAT bookkeeping and blocks, and a healthy dataplane stays healthy. *)
Definition same_nat (gw gw' : GW) : Prop :=
  nat_part gw'.1 = nat_part gw.1 ∧ nats gw'.2 = nats gw.2 ∧ (healthy gw.2 → healthy gw'.2).

#[export] Instance same_nat_refl : Reflexive same_nat.
Proof. by intros gw. Qed.
#[export] Instance same_nat_trans : Transitive same_nat.
Proof. intros a b c (H1 & H2 & H3) (H4 & H5 & H6). split_and!; [congruence..|auto]. Qed.

Lemma add_lb_same id ports w w' e : AddLoadBalancer id ports w = (w', e) → nats w' = nats w ∧ (healthy w → healthy w').
Proof.
  intros Hc. destruct (nats_keeps_lb id ports) as [Hk _]. specialize (Hk w). rewrite Hc in Hk. split; [done|].
  intros Hh. destruct (healthy_lb id ports w Hh) as [H1 _]. by rewrite Hc in H1.
Qed.

Lemma del_lb_same id w w' e : DelLoadBalancer id w = (w', e) → nats w' = nats w ∧ (healthy w → healthy w').
Proof.
  intros Hc. destruct (nats_keeps_lb id []) as [_ Hk]. specialize (Hk w). rewrite Hc in Hk. split; [done|].
  intros Hh. destruct (healthy_lb id [] w Hh) as [_ H1]. by rewrite Hc in H1.
Qed.

Lemma add_backend_same id bk vni w w' e : AddLbBackend id bk vni w = (w', e) → nats w' = nats w ∧ (healthy w → healthy w').
Proof.
  intros Hc. destruct (nats_keeps_backend id bk vni) as [Hk _]. specialize (Hk w). rewrite Hc in Hk. split; [done|].
  intros Hh. destruct (healthy_backend id bk vni w Hh) as [H1 _]. by rewrite Hc in H1.
Qed.

Lemma del_backend_same id bk w w' e : DelLbBackend id bk w = (w', e) → nats w' = nats w ∧ (healthy w → healthy w').
Proof.
  intros Hc. destruct (nats_keeps_backend id bk 0) as [_ Hk]. specialize (Hk w). rewrite Hc in Hk. split; [done|].
  intros Hh. destruct (healthy_backend id bk 0 w Hh) as [_ H1]. by rewrite Hc in H1.
Qed.

(** Case analysis on the next load-balancer call. *)
Ltac lb_call := match goal with
  | |- context [AddLoadBalancer ?i ?p ?w] => let E := fresh "E" in destruct (AddLoadBalancer i p w) as [? [?|]] eqn:E; apply add_lb_same in E as [? ?]
  | |- context [DelLoadBalancer ?i ?w] => let E := fresh "E" in destruct (DelLoadBalancer i w) as [? [?|]] eqn:E; apply del_lb_same in E as [? ?]
  | |- context [AddLbBackend ?i ?b ?v ?w] => let E := fresh "E" in destruct (AddLbBackend i b v w) as [? [?|]] eqn:E; apply add_backend_same in E as [? ?]
  | |- context [DelLbBackend ?i ?b ?w] => let E := fresh "E" in destruct (DelLbBackend i b w) as [? [?|]] eqn:E; apply del_backend_same in E as [? ?]
  end.

Ltac same_tac := unfold same_nat; cbn in *; split_and!; [done|congruence|eauto].

Lemma register_same id ports gw : same_nat gw (registerLoadBalancer id ports gw).1.
Proof. destruct gw as [g w]. unfold registerLoadBalancer. repeat lb_call; same_tac. Qed.

Lemma attach_same id gw bv : same_nat gw (attach id gw bv).
Proof. destruct gw as [g w], bv. unfold attach. lb_call; same_tac. Qed.

Lemma foldl_same {X : Type} (f : GW → X → GW) (xs : list X) gw : (∀ gw x, same_nat gw (f gw x)) → same_nat gw (foldl f gw xs).
Proof. intros Hf. revert gw. induction xs as [|x xs IH]; intros gw; cbn; [done|]. etrans; [apply Hf|apply IH]. Qed.

Lemma attach_own_same id pp gw : same_nat gw (attach_own id pp gw).
Proof. unfold attach_own. destruct (edgeLbs gw.1 !! id); [|done]. case_bool_decide; [done|apply attach_same]. Qed.

Lemma addLbBackend_same pp gw : same_nat gw (addLbBackend pp gw).
Proof.
  destruct gw as [g w]. unfold addLbBackend. destruct (edgeLbs g !! _) as [lb|].
  - destruct (negb _); [|apply attach_own_same]. lb_call; [same_tac|].
    match goal with |- context [registerLoadBalancer ?i ?p ?gw] =>
      pose proof (register_same i p gw) as Hr; assert (Hr' : same_nat (g, w) gw) by same_tac;
      destruct (registerLoadBalancer i p gw) as [gw' []] end; cbn in Hr; [|by etrans].
    etrans; [exact Hr'|]. etrans; [exact Hr|]. etrans; [|apply attach_own_same]. apply foldl_same. intros. apply attach_same.
  - match goal with |- context [registerLoadBalancer ?i ?p ?gw] =>
      pose proof (register_same i p gw) as Hr; destruct (registerLoadBalancer i p gw) as [gw' []] end; cbn in Hr; [|done].
    etrans; [exact Hr|apply attach_own_same].
Qed.

Lemma drop_empty_same id gw : same_nat gw (drop_empty id gw).
Proof. destruct gw as [g w]. unfold drop_empty. destruct (edgeLbs g !! id); [|done]. case_decide; [|done]. lb_call; same_tac. Qed.

Lemma delLbBackend_same pp gw : same_nat gw (delLbBackend pp gw).
Proof.
  destruct gw as [g w]. unfold delLbBackend. destruct (edgeLbs g !! _) as [lb|]; [|done].
  case_bool_decide; [|apply drop_empty_same]. lb_call; [same_tac|]. etrans; [|apply drop_empty_same]. same_tac.
Qed.

Lemma prune_backend_same id gw bk : same_nat gw (prune_backend id gw bk).
Proof. destruct gw as [g w]. unfold prune_backend. case_bool_decide; [done|]. lb_call; same_tac. Qed.

Lemma pruneLbBackends_same gw : same_nat gw (pruneLbBackends gw).
Proof.
  apply foldl_same. intros gw' [id lb]. etrans; [|apply drop_empty_same]. apply foldl_same. intros. apply prune_backend_same.
Qed.

Lemma applyPublic_same cfg pp op gw : same_nat gw (applyPublic cfg pp op gw).
Proof.
  destruct gw as [g w], pp as [pp|]; [|done]. unfold applyPublic. destruct (pp_Kind pp); try done; [by destruct op|].
  destruct (negb _); [done|]. destruct op; [done| |]; (etrans; [|apply addLbBackend_same || apply delLbBackend_same]; same_tac).
Qed.

End lbs_keep.

(** ** NAT blocks: what the feed carries *)

(** What one message of the feed does to the set of neighbour blocks. *)
Definition nat_apply (cfg : BusConfig) (m : gmap natEntry string) (msg : ServerMsg) : gmap natEntry string :=
  match msg with
  | MNatUpdate b op =>
      if negb (cfg_isEdge cfg) || bool_decide (nb_OwnerUnderlay b = cfg_underlay cfg) then m
      else match op with
           | ROUTE_OP_ADD => <[entry_of b := nb_OwnerUnderlay b]> m
           | ROUTE_OP_WITHDRAW => delete (entry_of b) m
           | ROUTE_OP_UNSPECIFIED => m
           end
  | _ => m
  end.

(** The records the marker counts. *)
Definition is_record (m : ServerMsg) : bool := match m with MNatUpdate _ _ | MPublicUpdate _ _ => true | _ => false end.

Definition not_marker (m : ServerMsg) : Prop := match m with MEndOfGlobal _ => False | _ => True end.

Section nat_feed.
Context {ro : RangeOrder} {W : Type} {dp : Dataplane W} {laws : DataplaneLaws W} (cfg : BusConfig).
Abbreviation GW := (BusGlobal * W)%type.

(** While the snapshot replays, and after its end. *)
Record nat_replaying (m : gmap natEntry string) (n : Z) (gw : GW) : Prop := {
  nr_seen : seenNat gw.1 = m;
  nr_flag : replayingGlobal gw.1 = true;
  nr_count : globalRecords gw.1 = u32 n;
  nr_healthy : healthy gw.2
}.

Record nat_live (m : gmap natEntry string) (gw : GW) : Prop := {
  nl_seen : seenNat gw.1 = m;
  nl_flag : replayingGlobal gw.1 = false;
  nl_nats : nats gw.2 = m;
  nl_healthy : healthy gw.2
}.

Lemma withdraw_healthy e w : healthy w →
  ∃ w', WithdrawNeighborNat e w = (w', None) ∧ nats w' = delete e (nats w) ∧ healthy w'.
Proof.
  intros Hh. destruct (nats_withdraw e w Hh) as [He Hn]. destruct (healthy_nats e "" w Hh) as [_ Hh'].
  destruct (WithdrawNeighborNat e w) as [w' err]. cbn in *. subst err. eauto.
Qed.

(** Blocks the dataplane can hold together. *)
Definition storable (m : gmap natEntry string) : Prop := blocks_ok m ∧ nat_room m.

Lemma addNeighborNat_healthy e o g w : healthy w → storable (<[e := o]> (nats w)) →
  ∃ g' w', addNeighborNat e o (g, w) = (g', w') ∧ seenNat g' = seenNat g ∧ replayingGlobal g' = replayingGlobal g ∧
    nats w' = <[e := o]> (nats w) ∧ healthy w'.
Proof.
  intros Hh [Hb Hr]. destruct (nats_add e o w Hh Hb Hr) as [He Hn]. destruct (healthy_nats e o w Hh) as [Hh' _]. cbn.
  destruct (AddNeighborNat e o w) as [w' err]. cbn in *. subst err. by eexists _, w'.
Qed.

Lemma applyNat_replaying m n b op gw :
  nat_replaying m n gw → nat_replaying (nat_apply cfg m (MNatUpdate b op)) n (applyNat cfg b op gw).
Proof.
  destruct gw as [g w]. intros [Hs Hf Hc Hh]. cbn in *. destruct (negb _ || _); [by split|]. destruct op; [by split| |].
  - rewrite Hf. by split; cbn; rewrite ?Hs.
  - destruct (withdraw_healthy (entry_of b) w Hh) as (w' & -> & _ & Hh'). by split; cbn; rewrite ?Hs.
Qed.

Lemma applyNat_live m b op gw :
  storable (nat_apply cfg m (MNatUpdate b op)) → nat_live m gw →
  nat_live (nat_apply cfg m (MNatUpdate b op)) (applyNat cfg b op gw).
Proof.
  destruct gw as [g w]. intros Hst [Hs Hf Hn Hh]. cbn in *. destruct (negb _ || _); [by split|]. destruct op; [by split| |].
  - rewrite Hf. destruct (addNeighborNat_healthy (entry_of b) (nb_OwnerUnderlay b)
      (set_seenNat <[entry_of b := nb_OwnerUnderlay b]> g) w Hh) as (g' & w' & Hadd & Hs' & Hf' & Hn' & Hh'); [by rewrite Hn|].
    cbn in Hadd. rewrite Hadd. split; cbn in *; congruence.
  - destruct (withdraw_healthy (entry_of b) w Hh) as (w' & -> & Hn' & Hh'). split; cbn; congruence.
Qed.

Lemma replaying_msg m n gw msg :
  not_marker msg → nat_replaying m n gw →
  nat_replaying (nat_apply cfg m msg) (n + (if is_record msg then 1 else 0)) (handleGlobalMsg cfg gw msg).
Proof.
  intros Hm [Hs Hf Hc Hh]. assert (Hcount : nat_replaying m (n + 1) (count_record gw.1, gw.2)).
  { split; cbn; try done. rewrite Hc. unfold u32. by rewrite Z.add_mod_idemp_l. }
  destruct msg as [| | |b op|p op|]; try done; cbn [handleGlobalMsg is_record]; rewrite ?Z.add_0_r; try by split.
  - by apply applyNat_replaying.
  - destruct (applyPublic_same cfg p op (count_record gw.1, gw.2)) as (H1 & H2 & H3). destruct Hcount as [Hs' Hf' Hc' Hh'].
    destruct (applyPublic cfg p op _) as [g' w']. unfold nat_part in H1. cbn in *. injection H1 as ? ? ? ?.
    split; cbn; [congruence..|auto].
Qed.

Lemma live_msg m gw msg :
  storable (nat_apply cfg m msg) → not_marker msg → nat_live m gw → nat_live (nat_apply cfg m msg) (handleGlobalMsg cfg gw msg).
Proof.
  intros Hst Hm Hl. assert (Hcount : nat_live m (count_record gw.1, gw.2)) by (by destruct Hl).
  destruct msg as [| | |b op|p op|]; try done; cbn [handleGlobalMsg].
  - by apply applyNat_live.
  - destruct (applyPublic_same cfg p op (count_record gw.1, gw.2)) as (H1 & H2 & H3). destruct Hcount as [Hs' Hf' Hc' Hh'].
    destruct (applyPublic cfg p op _) as [g' w']. unfold nat_part in H1. cbn in *. injection H1 as ? ? ? ?.
    split; cbn; [congruence..|auto].
Qed.

(** A complete snapshot makes the blocks exactly the ones it carried. *)
Lemma marker_live m n gw : storable m → nat_replaying m n gw → nat_live m (pruneGlobal (u32 n) gw).
Proof.
  destruct gw as [g w]. intros [Hbl Hro] [Hs Hf Hc Hh]. cbn in *. unfold pruneGlobal. rewrite decide_False by naive_solver.
  assert (Hsync : nat_live m (syncNeighborNats (set_replaying false g, w))).
  { unfold syncNeighborNats. cbn. pose proof (healthy_replace (range_map (seenNat g)) w Hh) as Hh'.
    assert (Hm : list_to_map (range_map (seenNat g)) = m).
    { rewrite Hs, (list_to_map_proper _ (map_to_list m)); [apply list_to_map_to_list|apply NoDup_range_map_fst|apply range_map_perm]. }
    destruct (nats_replace (range_map (seenNat g)) w Hh) as [He Hn]; [apply NoDup_range_map_fst|by rewrite Hm..|].
    destruct (ReplaceNeighborNats _ w) as [w' err]. cbn in *. subst err. split; cbn; try done. by rewrite Hn, Hm. }
  destruct (pruneLbBackends_same (syncNeighborNats (set_replaying false g, w))) as (H1 & H2 & H3).
  destruct Hsync as [Hs' Hf' Hn' Hh']. destruct (pruneLbBackends _) as [g' w']. unfold nat_part in H1. cbn in *. injection H1 as ? ? ? ?.
  split; cbn; [congruence..|auto].
Qed.

Definition handle_global (ms : list ServerMsg) (gw : GW) : GW := foldl (handleGlobalMsg cfg) gw ms.

Lemma replaying_all ms m n gw :
  Forall not_marker ms → nat_replaying m n gw →
  nat_replaying (foldl (nat_apply cfg) m ms) (n + Z.of_nat (length (filter (fun x => is_record x = true) ms))) (handle_global ms gw).
Proof.
  revert m n gw. induction ms as [|x ms IH]; intros m n gw Hms Hr; [cbn; by rewrite Z.add_0_r|].
  apply Forall_cons in Hms as [Hx Hms]. cbn [foldl handle_global]. specialize (IH _ _ _ Hms (replaying_msg m n gw x Hx Hr)).
  rewrite filter_cons. destruct (is_record x) eqn:Hi; [rewrite decide_True by done|rewrite decide_False by done];
    cbn [length]; [replace (n + Z.of_nat (S _)) with (n + 1 + Z.of_nat (length (filter (fun x => is_record x = true) ms))) by lia|
      rewrite Z.add_0_r in IH]; exact IH.
Qed.

Lemma live_all ms m gw :
  (∀ n, storable (foldl (nat_apply cfg) m (take n ms))) → Forall not_marker ms → nat_live m gw →
  nat_live (foldl (nat_apply cfg) m ms) (handle_global ms gw).
Proof.
  revert m gw. induction ms as [|x ms IH]; intros m gw Hst Hms Hl; [done|]. apply Forall_cons in Hms as [Hx Hms].
  apply IH; [intros n; exact (Hst (S n))|done|]. apply live_msg; [exact (Hst 1%nat)|done..].
Qed.

End nat_feed.

(** C23. An edge relays NAT returns to exactly the blocks of the feed.  On a dataplane
    that answers from now on, whatever blocks it and the agent held before, a session
    that replays a complete global snapshot and then any updates leaves in the
    dataplane exactly the blocks the messages carry, each with its last owner,
    except the node's own; a node that is not an edge is left with none.  The
    condition on the feed: at the end of the snapshot and after each later message
    the blocks it carries fit the dataplane, none empty and no two on a NAT address
    overlapping in whatever VNIs, for the dataplane refuses an overlap. *)
Theorem edge_nats_exact (W : Type) (dp : Dataplane W) (laws : DataplaneLaws W) (ro : RangeOrder) (cfg : BusConfig)
    (g : BusGlobal) (w : W) (snapshot later : list ServerMsg) :
  healthy w → Forall not_marker snapshot → Forall not_marker later →
  (∀ n, storable (foldl (nat_apply cfg) ∅ (snapshot ++ take n later))) →
  let count := Z.of_nat (length (filter (fun m => is_record m = true) snapshot)) in
  nats (handle_global cfg (snapshot ++ MEndOfGlobal (u32 count) :: later) (resetGlobalSnapshot g, w)).2 =
  foldl (nat_apply cfg) ∅ (snapshot ++ later).
Proof.
  intros Hh Hs Hl Hst count. unfold handle_global. rewrite !foldl_app. cbn [foldl handleGlobalMsg].
  apply nl_nats, live_all; [intros n; rewrite <-foldl_app; apply Hst|done|].
  apply marker_live; [specialize (Hst 0%nat); by rewrite take_0, app_nil_r in Hst|].
  change count with (0 + count). by apply replaying_all.
Qed.

Lemma edge_nats_exact_witness :
  let cfg := mkBusConfig "edge" "fd00::e" true in
  let b ip owner := mkNatBlock 7 "10.0.0.5" ip 1024 2048 owner in
  let w := mkScripted ∅ {[mkNatEntry "203.0.113.9" 1024 2048 7 := "fd00::dead"]} ∅ [] "i" [] in
  let snapshot := [MNatUpdate (b "203.0.113.1" "fd00::b") ROUTE_OP_ADD; MNatUpdate (b "203.0.113.2" "fd00::e") ROUTE_OP_ADD] in
  let later := [MNatUpdate (b "203.0.113.1" "fd00::c") ROUTE_OP_ADD] in
  let final := nats (handle_global (ro := canonical_order) cfg (snapshot ++ MEndOfGlobal 2 :: later) (resetGlobalSnapshot NewBusGlobal, w)).2 in
  final = foldl (nat_apply cfg) ∅ (snapshot ++ later) ∧
  foldl (nat_apply cfg) ∅ (snapshot ++ later) !! mkNatEntry "203.0.113.1" 1024 2048 7 = Some "fd00::c" ∧
  foldl (nat_apply cfg) ∅ (snapshot ++ later) !! mkNatEntry "203.0.113.9" 1024 2048 7 = None.
Proof.
  intros cfg b w snapshot later final. split; [|split; vm_compute; reflexivity].
  apply (edge_nats_exact Scripted scripted_dataplane scripted_laws canonical_order cfg NewBusGlobal w snapshot later).
  - reflexivity.
  - by repeat constructor.
  - by repeat constructor.
  - intros n. split; [|exact I]. unfold later. destruct n as [|n]; cbn [take]; rewrite ?take_nil; apply (bool_decide_eq_true_1 (blocks_ok _)); vm_cast_no_check (eq_refl true).
Defined.
