(* ===== verification/EdgeLb.v ===== *)
(** * The load balancers of an edge

    The edge builds its load balancers from the LB_IP records of the global feed
    alone (src/mesh/agent/public.go).  On a dataplane that answers, its record of
    the load balancers it registered agrees with the dataplane through every
    update, port change and prune, and after a complete snapshot the backends of
    the load balancers it knows are exactly the announced ones; what an earlier
    agent left for an address nobody announces stays ([edge_backends_exact]). *)

From S2P Require Import Prelude Net Wire Rib Dataplane Bus BusGlobal.

Open Scope Z_scope.

(** ** The record and the dataplane *)

Definition lb_view (lb : edgeLb) : list LbPort * gmap backendKey Z := (lb_ports lb, lb_backends lb).

(** The backends recorded for an address. *)
Definition backends_at (g : BusGlobal) (id : string) : gmap backendKey Z := default ∅ (lb_backends <$> edgeLbs g !! id).

Definition attached (g : BusGlobal) (id : string) (bk : backendKey) : Prop := is_Some (backends_at g id !! bk).

(** Its backends name their overlay addresses. *)
Definition named (lb : edgeLb) : Prop := ∀ bk, is_Some (lb_backends lb !! bk) → bk_overlay bk ≠ "".

Definition rest_of (g : BusGlobal) := (learnedEdge g, nat_part g, seenPublic g).

Section lb.
Context {ro : RangeOrder} {W : Type} {dp : Dataplane W} {laws : DataplaneLaws W} (old : LbTable).
Abbreviation GW := (BusGlobal * W)%type.

(** Every load balancer the edge knows is registered as it records it, with
    backends that name an overlay address, on a dataplane that answers; one it does
    not know is not registered, or is one of [old], as it was. *)
Record lb_ok (gw : GW) : Prop := {
  lo_view id lb : edgeLbs gw.1 !! id = Some lb → lbs gw.2 !! id = Some (lb_view lb);
  lo_named id lb : edgeLbs gw.1 !! id = Some lb → named lb;
  lo_other id : edgeLbs gw.1 !! id = None → lbs gw.2 !! id = None ∨ lbs gw.2 !! id = old !! id;
  lo_healthy : healthy gw.2
}.

(** [id] now has [lb], here and there; nothing else moved. *)
Record moved (id : string) (lb : edgeLb) (gw gw' : GW) : Prop := {
  mv_edge : edgeLbs gw'.1 = <[id := lb]> (edgeLbs gw.1);
  mv_lbs : lbs gw'.2 = <[id := lb_view lb]> (lbs gw.2);
  mv_named : named lb;
  mv_healthy : healthy gw'.2;
  mv_rest : rest_of gw'.1 = rest_of gw.1
}.

Record removed (id : string) (gw gw' : GW) : Prop := {
  rm_edge : edgeLbs gw'.1 = delete id (edgeLbs gw.1);
  rm_lbs : lbs gw'.2 = delete id (lbs gw.2);
  rm_healthy : healthy gw'.2;
  rm_rest : rest_of gw'.1 = rest_of gw.1
}.

Lemma moved_ok id lb gw gw' : lb_ok gw → moved id lb gw gw' → lb_ok gw'.
Proof.
  intros [Hv Hn Ho _] [He Hl Hnm Hh _]. split; [| | |done]; intros id'; rewrite He; try rewrite Hl.
  - intros lb' [[<- <-]|[Hne Hid]]%lookup_insert_Some; [apply lookup_insert_eq|]. rewrite lookup_insert_ne by done. auto.
  - intros lb' [[<- <-]|[Hne Hid]]%lookup_insert_Some; [done|by eapply Hn].
  - intros [Hid Hne]%lookup_insert_None. rewrite lookup_insert_ne by done. auto.
Qed.

Lemma removed_ok id gw gw' : lb_ok gw → removed id gw gw' → lb_ok gw'.
Proof.
  intros [Hv Hn Ho _] [He Hl Hh _]. split; [| | |done]; intros id'; rewrite He; try rewrite Hl.
  - intros lb' [Hne Hid]%lookup_delete_Some. rewrite lookup_delete_ne by done. auto.
  - intros lb' [Hne Hid]%lookup_delete_Some. by eapply Hn.
  - destruct (decide (id = id')) as [<-|Hne]; [rewrite !lookup_delete_eq; by left|]. rewrite !lookup_delete_ne by done. auto.
Qed.

Lemma moved_trans id lb1 lb2 gw1 gw2 gw3 : moved id lb1 gw1 gw2 → moved id lb2 gw2 gw3 → moved id lb2 gw1 gw3.
Proof.
  intros [He1 Hl1 _ _ Hr1] [He2 Hl2 Hn2 Hh2 Hr2].
  split; [by rewrite He2, He1, insert_insert_eq|by rewrite Hl2, Hl1, insert_insert_eq|done|done|congruence].
Qed.

Lemma moved_refl id lb gw : lb_ok gw → edgeLbs gw.1 !! id = Some lb → moved id lb gw gw.
Proof. intros [Hv Hn _ Hh] Hid. split; try done; [by rewrite insert_id by auto..|by eapply Hn]. Qed.

(** ** Registering and attaching *)

Lemma register_moved id ports g w :
  healthy w → ∃ gw', registerLoadBalancer id ports (g, w) = (gw', true) ∧ moved id (mkEdgeLb ports ∅) (g, w) gw'.
Proof.
  intros Hh. unfold registerLoadBalancer. destruct (lbs w !! id) eqn:Hid.
  - destruct (lb_add_dup id ports w Hh) as [[e He] Hl]; [eauto|]. destruct (healthy_lb id ports w Hh) as [Hh1 _].
    destruct (AddLoadBalancer id ports w) as [w1 err]. cbn in *. subst err.
    destruct (lb_del id w1 Hh1) as [He2 Hl2]. destruct (healthy_lb id ports w1 Hh1) as [_ Hh2].
    destruct (DelLoadBalancer id w1) as [w2 err]. cbn in *. subst err.
    destruct (lb_add id ports w2 Hh2) as [He3 Hl3]; [rewrite Hl2; apply lookup_delete_eq|]. destruct (healthy_lb id ports w2 Hh2) as [Hh3 _].
    destruct (AddLoadBalancer id ports w2) as [w3 err]. cbn in *. subst err. eexists. split; [done|].
    split; cbn; try done; [by rewrite Hl3, Hl2, Hl, insert_delete_eq|]. intros bk [v Hv]. cbn in Hv. by rewrite lookup_empty in Hv.
  - destruct (lb_add id ports w Hh Hid) as [He Hl]. destruct (healthy_lb id ports w Hh) as [Hh1 _].
    destruct (AddLoadBalancer id ports w) as [w1 err]. cbn in *. subst err. eexists. split; [done|]. split; try done.
    intros bk [v Hv]. cbn in Hv. by rewrite lookup_empty in Hv.
Qed.

Lemma attach_moved id bk vni gw lb :
  lb_ok gw → bk_overlay bk ≠ "" → edgeLbs gw.1 !! id = Some lb → lb_backends lb !! bk = None →
  moved id (mkEdgeLb (lb_ports lb) (<[bk := vni]> (lb_backends lb))) gw (attach id gw (bk, vni)).
Proof.
  destruct gw as [g w]. intros [Hv Hn _ Hh] Hov Hid Hbk. cbn in *.
  destruct (lb_add_backend id bk vni w _ _ Hh (Hv _ _ Hid) Hbk) as [He Hl]. destruct (healthy_backend id bk vni w Hh) as [Hh1 _].
  destruct (AddLbBackend id bk vni w) as [w1 err]. cbn in *. subst err. split; cbn; try done; [by rewrite (alter_insert _ _ _ _ Hid)|].
  intros bk' Hb. cbn in Hb. apply lookup_insert_is_Some' in Hb as [<-|Hb]; [done|]. by eapply Hn.
Qed.

(** Attaching a list of new backends. *)
Lemma attach_all id (l : list (backendKey * Z)) gw lb :
  lb_ok gw → edgeLbs gw.1 !! id = Some lb → NoDup l.*1 → (∀ bk, bk ∈ l.*1 → bk_overlay bk ≠ "" ∧ lb_backends lb !! bk = None) →
  ∃ bs, moved id (mkEdgeLb (lb_ports lb) bs) gw (foldl (attach id) gw l) ∧
    ∀ bk, is_Some (bs !! bk) ↔ bk ∈ l.*1 ∨ is_Some (lb_backends lb !! bk).
Proof.
  revert gw lb. induction l as [|[bk vni] l IH]; intros gw lb Hok Hid Hnd Hnew; cbn.
  { exists (lb_backends lb). split; [destruct lb; by apply moved_refl|]. intros bk. rewrite elem_of_nil. tauto. }
  apply NoDup_cons in Hnd as [Hn Hnd]. cbn in *.
  destruct (Hnew bk ltac:(left)) as [Hov Hfree]. pose proof (attach_moved id bk vni gw lb Hok Hov Hid Hfree) as Hm.
  destruct (IH (attach id gw (bk, vni)) (mkEdgeLb (lb_ports lb) (<[bk := vni]> (lb_backends lb)))) as (bs & Hmv & Hbs).
  - by eapply moved_ok.
  - rewrite (mv_edge _ _ _ _ Hm). apply lookup_insert_eq.
  - done.
  - intros bk' Hin. cbn. rewrite lookup_insert_ne by (by intros ->). apply Hnew. by right.
  - exists bs. split; [by eapply moved_trans|]. intros bk'. rewrite Hbs, elem_of_cons. cbn. rewrite lookup_insert_is_Some'. naive_solver.
Qed.

Lemma attach_own_moved id pp gw lb :
  lb_ok gw → pp_OverlayIP pp ≠ "" → edgeLbs gw.1 !! id = Some lb →
  ∃ lb', moved id lb' gw (attach_own id pp gw) ∧
    ∀ bk, is_Some (lb_backends lb' !! bk) ↔ bk = backend_of pp ∨ is_Some (lb_backends lb !! bk).
Proof.
  intros Hok Hov Hid. unfold attach_own. rewrite Hid. case_bool_decide as Hb.
  - exists lb. split; [by apply moved_refl|]. intros bk. split; [tauto|]. by intros [->|].
  - eexists. split; [apply attach_moved; [done..|by apply eq_None_not_Some]|]. intros bk. cbn.
    rewrite lookup_insert_is_Some'. naive_solver.
Qed.

(** One ADD: the announced backend is attached, the others of the address stay. *)
Lemma addLbBackend_moved pp gw :
  lb_ok gw → pp_OverlayIP pp ≠ "" → let id := stripMask (pp_Prefix pp) in
  ∃ lb', moved id lb' gw (addLbBackend pp gw) ∧
    ∀ bk, is_Some (lb_backends lb' !! bk) ↔ bk = backend_of pp ∨ attached gw.1 id bk.
Proof.
  destruct gw as [g w]. intros Hok Hov id. unfold addLbBackend. fold id. unfold attached, backends_at. cbn [fst].
  destruct (edgeLbs g !! id) as [lb|] eqn:Hid; cbn [fmap option_fmap option_map default].
  - destruct (negb _); [|by apply attach_own_moved].
    pose proof (lo_healthy _ Hok) as Hh. cbn in Hh. destruct (lb_del id w Hh) as [He Hl]. destruct (healthy_lb id [] w Hh) as [_ Hh1].
    destruct (DelLoadBalancer id w) as [w1 err]. cbn in He, Hl, Hh1. subst err.
    destruct (register_moved id (pp_Ports pp) (set_edgeLbs (delete id) g) w1 Hh1) as (gw2 & -> & Hm2).
    assert (Hrm : removed id (g, w) (set_edgeLbs (delete id) g, w1)) by (by split).
    assert (Hok2 : lb_ok gw2) by (eapply moved_ok; [|exact Hm2]; eapply removed_ok; [exact Hok|exact Hrm]).
    assert (Hid2 : edgeLbs gw2.1 !! id = Some (mkEdgeLb (pp_Ports pp) ∅)) by (rewrite (mv_edge _ _ _ _ Hm2); apply lookup_insert_eq).
    destruct (attach_all id (range_map (lb_backends lb)) gw2 _ Hok2 Hid2) as (bs & Hm3 & Hbs);
      [apply NoDup_range_map_fst| |].
    { intros bk ([bk' v] & -> & Hin%elem_of_range_map)%list_elem_of_fmap. split; [|apply lookup_empty]. eapply (lo_named _ Hok); eauto. }
    assert (Hok3 : lb_ok (foldl (attach id) gw2 (range_map (lb_backends lb)))) by (by eapply moved_ok).
    destruct (attach_own_moved id pp _ (mkEdgeLb (pp_Ports pp) bs) Hok3 Hov) as (lb' & Hm4 & Hlb');
      [rewrite (mv_edge _ _ _ _ Hm3); apply lookup_insert_eq|].
    exists lb'. split.
    + pose proof (moved_trans _ _ _ _ _ _ Hm2 (moved_trans _ _ _ _ _ _ Hm3 Hm4)) as [H1 H2 H3 H4 H5]. cbn in *.
      split; [by rewrite H1, insert_delete_eq|by rewrite H2, Hl, insert_delete_eq|done..].
    + intros bk. rewrite Hlb'. cbn. rewrite Hbs. cbn. rewrite lookup_empty, list_elem_of_fmap.
      assert (Hiff : (∃ y : backendKey * Z, bk = y.1 ∧ y ∈ range_map (lb_backends lb)) ↔ is_Some (lb_backends lb !! bk)).
      { split; [intros ([bk' v] & -> & Hin%elem_of_range_map); cbn; eauto|]. intros [v Hb]. exists (bk, v). by rewrite elem_of_range_map. }
      rewrite Hiff. unfold is_Some. naive_solver.
  - destruct (register_moved id (pp_Ports pp) g w (lo_healthy _ Hok)) as (gw2 & -> & Hm2).
    destruct (attach_own_moved id pp gw2 (mkEdgeLb (pp_Ports pp) ∅)) as (lb' & Hm3 & Hlb');
      [by eapply moved_ok|done|rewrite (mv_edge _ _ _ _ Hm2); apply lookup_insert_eq|].
    exists lb'. split; [by eapply moved_trans|]. intros bk. by rewrite Hlb'.
Qed.

(** ** Detaching *)

(** What an operation on the address [id] may change. *)
Record touches (id : string) (gw gw' : GW) : Prop := {
  to_ok : lb_ok gw';
  to_rest : rest_of gw'.1 = rest_of gw.1;
  to_other id' : id' ≠ id → edgeLbs gw'.1 !! id' = edgeLbs gw.1 !! id'
}.

Lemma moved_touches id lb gw gw' : lb_ok gw → moved id lb gw gw' → touches id gw gw'.
Proof.
  intros Hok Hm. split; [by eapply moved_ok|by apply Hm|]. intros id' Hne. rewrite (mv_edge _ _ _ _ Hm). by rewrite lookup_insert_ne.
Qed.

Lemma removed_touches id gw gw' : lb_ok gw → removed id gw gw' → touches id gw gw'.
Proof.
  intros Hok Hm. split; [by eapply removed_ok|by apply Hm|]. intros id' Hne. rewrite (rm_edge _ _ _ Hm). by rewrite lookup_delete_ne.
Qed.

Lemma touches_trans id gw1 gw2 gw3 : touches id gw1 gw2 → touches id gw2 gw3 → touches id gw1 gw3.
Proof. intros [_ Hr1 Ho1] [Hok2 Hr2 Ho2]. split; [done|congruence|]. intros id' Hne. by rewrite Ho2, Ho1. Qed.

Lemma touches_refl id gw : lb_ok gw → touches id gw gw.
Proof. by split. Qed.

Lemma backends_at_moved id lb gw gw' : moved id lb gw gw' → backends_at gw'.1 id = lb_backends lb.
Proof. intros Hm. unfold backends_at. by rewrite (mv_edge _ _ _ _ Hm), lookup_insert_eq. Qed.

(** No load balancer is left without a backend at [id]. *)
Definition served (g : BusGlobal) (id : string) : Prop := ∀ lb, edgeLbs g !! id = Some lb → lb_backends lb ≠ ∅.

Lemma drop_empty_spec id gw :
  lb_ok gw → touches id gw (drop_empty id gw) ∧ backends_at (drop_empty id gw).1 id = backends_at gw.1 id ∧ served (drop_empty id gw).1 id.
Proof.
  destruct gw as [g w]. intros Hok. unfold drop_empty. destruct (edgeLbs g !! id) as [lb|] eqn:Hid.
  - case_decide as Hs.
    + destruct (lb_del id w (lo_healthy _ Hok)) as [He Hl]. destruct (healthy_lb id [] w (lo_healthy _ Hok)) as [_ Hh].
      destruct (DelLoadBalancer id w) as [w1 err]. cbn in *. subst err. split_and!.
      * apply removed_touches; [done|]. by split.
      * apply map_size_empty_inv in Hs. unfold backends_at. cbn. rewrite lookup_delete_eq, Hid. cbn. by rewrite Hs.
      * intros lb' Hlb'. cbn in Hlb'. by rewrite lookup_delete_eq in Hlb'.
    + split_and!; [by apply touches_refl|done|]. intros lb' Hlb' He. cbn in Hlb'. simplify_eq. by rewrite He, map_size_empty in Hs.
  - split_and!; [by apply touches_refl|done|]. intros lb' Hlb'. cbn in Hlb'. congruence.
Qed.

Lemma detach_moved id bk gw lb w1 err :
  lb_ok gw → bk_overlay bk ≠ "" → edgeLbs gw.1 !! id = Some lb → DelLbBackend id bk gw.2 = (w1, err) →
  err = None ∧ moved id (mkEdgeLb (lb_ports lb) (delete bk (lb_backends lb))) gw (set_backend id (delete bk) gw.1, w1).
Proof.
  destruct gw as [g w]. intros [Hv Hn _ Hh] Hov Hid Hc. cbn in *. destruct (lb_del_backend id bk w _ _ Hh (Hv _ _ Hid)) as [He Hl].
  rewrite names_delete in Hl by done.
  destruct (healthy_backend id bk 0 w Hh) as [_ Hh1]. rewrite Hc in *. cbn in *. split; [done|]. split; cbn; try done.
  - by rewrite (alter_insert _ _ _ _ Hid).
  - intros bk' Hb. cbn in Hb. apply lookup_delete_is_Some in Hb as [_ Hb]. by eapply Hn.
Qed.

Lemma attached_None g id bk : edgeLbs g !! id = None → ¬ attached g id bk.
Proof. intros Hid [v Hv]. unfold backends_at in Hv. rewrite Hid in Hv. cbn in Hv. by rewrite lookup_empty in Hv. Qed.

(** One WITHDRAW: the backend is gone, and the load balancer with its last one. *)
Lemma delLbBackend_spec pp gw :
  lb_ok gw → let id := stripMask (pp_Prefix pp) in
  touches id gw (delLbBackend pp gw) ∧ served (delLbBackend pp gw).1 id ∧
  ∀ bk, attached (delLbBackend pp gw).1 id bk ↔ attached gw.1 id bk ∧ bk ≠ backend_of pp.
Proof.
  destruct gw as [g w]. intros Hok id. unfold delLbBackend. fold id. destruct (edgeLbs g !! id) as [lb|] eqn:Hid.
  - assert (Hat : ∀ bk, attached g id bk ↔ is_Some (lb_backends lb !! bk)) by (intros bk; unfold attached, backends_at; by rewrite Hid).
    case_bool_decide as Hb.
    + destruct (DelLbBackend id (backend_of pp) w) as [w1 err] eqn:Hc.
      destruct (detach_moved id (backend_of pp) (g, w) lb w1 err Hok (lo_named _ Hok _ _ Hid _ Hb) Hid Hc) as [-> Hm]. cbn [fst] in Hm.
      assert (Hok1 : lb_ok (set_backend id (delete (backend_of pp)) g, w1)) by (by eapply moved_ok).
      destruct (drop_empty_spec id _ Hok1) as (Ht & Hba & Hsv).
      split_and!; [by eapply touches_trans; [eapply moved_touches|]|done|]. intros bk. unfold attached at 1. rewrite Hba.
      rewrite (backends_at_moved _ _ _ _ Hm), Hat. cbn. rewrite lookup_delete_is_Some. naive_solver.
    + destruct (drop_empty_spec id (g, w) Hok) as (Ht & Hba & Hsv). split_and!; [done..|]. intros bk. unfold attached at 1. rewrite Hba.
      change (attached g id bk ↔ attached g id bk ∧ bk ≠ backend_of pp). rewrite !Hat. split; [|by intros [? _]].
      intros Hs. split; [done|]. by intros ->.
  - split_and!; [by apply touches_refl|intros lb Hlb; cbn in Hlb; congruence|]. intros bk. split; [|by intros [? _]].
    intros Ha. by apply attached_None in Ha.
Qed.

(** ** Pruning *)

Definition in_feed (S : gset publicEntry) (id : string) (bk : backendKey) : Prop := mkPublicEntry id (bk_owner bk) (bk_overlay bk) ∈ S.

Lemma prune_backends_moved id (bks : list backendKey) gw lb :
  lb_ok gw → Forall (fun bk => bk_overlay bk ≠ "") bks → edgeLbs gw.1 !! id = Some lb →
  ∃ lb', moved id lb' gw (foldl (prune_backend id) gw bks) ∧
    ∀ bk, is_Some (lb_backends lb' !! bk) ↔ is_Some (lb_backends lb !! bk) ∧ (bk ∈ bks → in_feed (seenPublic gw.1) id bk).
Proof.
  revert gw lb. induction bks as [|bk bks IH]; intros gw lb Hok Hov Hid; cbn [foldl].
  { exists lb. split; [by apply moved_refl|]. intros bk. rewrite elem_of_nil. tauto. }
  apply Forall_cons in Hov as [Hbk Hov]. unfold prune_backend at 2. destruct gw as [g w]. case_bool_decide as Hb.
  - destruct (IH (g, w) lb Hok Hov Hid) as (lb' & Hm & Hlb'). exists lb'. split; [done|]. intros bk'. rewrite Hlb', elem_of_cons.
    split; [|naive_solver]. intros [Hs Hf]. split; [done|]. intros [->|]; [done|auto].
  - destruct (DelLbBackend id bk w) as [w1 err] eqn:Hc. destruct (detach_moved id bk (g, w) lb w1 err Hok Hbk Hid Hc) as [-> Hm1]. cbn [fst] in Hm1.
    destruct (IH (set_backend id (delete bk) g, w1) (mkEdgeLb (lb_ports lb) (delete bk (lb_backends lb)))) as (lb' & Hm & Hlb');
      [by eapply moved_ok|done|rewrite (mv_edge _ _ _ _ Hm1); apply lookup_insert_eq|].
    exists lb'. split; [by eapply moved_trans|]. intros bk'. rewrite Hlb', elem_of_cons. cbn. rewrite lookup_delete_is_Some.
    unfold in_feed in *. naive_solver.
Qed.

Lemma prune_lb_spec id lb gw :
  lb_ok gw → edgeLbs gw.1 !! id = Some lb →
  touches id gw (prune_lb gw (id, lb)) ∧ served (prune_lb gw (id, lb)).1 id ∧
  ∀ bk, attached (prune_lb gw (id, lb)).1 id bk ↔ attached gw.1 id bk ∧ in_feed (seenPublic gw.1) id bk.
Proof.
  intros Hok Hid. unfold prune_lb. cbn [fst snd].
  destruct (prune_backends_moved id (range_map (lb_backends lb)).*1 gw lb Hok) as (lb' & Hm & Hlb'); [|done|].
  { apply Forall_forall. intros bk ([bk' v] & -> & Hin%elem_of_range_map)%list_elem_of_fmap. eapply (lo_named _ Hok); eauto. }
  assert (Hok1 : lb_ok (foldl (prune_backend id) gw (range_map (lb_backends lb)).*1)) by (by eapply moved_ok).
  destruct (drop_empty_spec id _ Hok1) as (Ht & Hba & Hsv).
  split_and!; [by eapply touches_trans; [eapply moved_touches|]|done|]. intros bk. unfold attached at 1. rewrite Hba.
  rewrite (backends_at_moved _ _ _ _ Hm), Hlb'. unfold attached, backends_at. rewrite Hid. cbn.
  split; [|naive_solver]. intros [[v Hv] Hf]. split; [eauto|]. apply Hf. apply list_elem_of_fmap. exists (bk, v). by rewrite elem_of_range_map.
Qed.

Lemma prune_all (l : list (string * edgeLb)) gw :
  lb_ok gw → NoDup l.*1 → (∀ id lb, (id, lb) ∈ l → edgeLbs gw.1 !! id = Some lb) →
  let gw' := foldl prune_lb gw l in
  lb_ok gw' ∧ rest_of gw'.1 = rest_of gw.1 ∧
  (∀ id, id ∉ l.*1 → edgeLbs gw'.1 !! id = edgeLbs gw.1 !! id) ∧
  (∀ id, id ∈ l.*1 → served gw'.1 id ∧ ∀ bk, attached gw'.1 id bk ↔ attached gw.1 id bk ∧ in_feed (seenPublic gw.1) id bk).
Proof.
  revert gw. induction l as [|[id lb] l IH]; intros gw Hok Hnd Hl; cbn.
  { split_and!; try done. intros id Hid. by apply elem_of_nil in Hid. }
  apply NoDup_cons in Hnd as [Hn Hnd]. cbn in Hn. destruct (prune_lb_spec id lb gw Hok (Hl id lb ltac:(left))) as ([Hok1 Hr1 Ho1] & Hs1 & Ha1).
  destruct (IH (prune_lb gw (id, lb)) Hok1 Hnd) as (Hok2 & Hr2 & Ho2 & Hs2).
  { intros id' lb' Hin. rewrite Ho1; [apply Hl; by right|]. intros ->. apply Hn. apply list_elem_of_fmap. by exists (id, lb'). }
  assert (Hsp : seenPublic (prune_lb gw (id, lb)).1 = seenPublic gw.1) by (unfold rest_of in Hr1; congruence).
  split_and!; [done|congruence| |].
  - intros id' Hid'. rewrite not_elem_of_cons in Hid'. destruct Hid' as [Hne Hid']. cbn in Hne. by rewrite Ho2, Ho1.
  - intros id' [->|Hin]%elem_of_cons.
    + cbn. unfold served, attached, backends_at in *. by rewrite (Ho2 id Hn).
    + cbn in Hin. assert (Hne : id' ≠ id) by (by intros ->). destruct (Hs2 id' Hin) as [Hsv Hat]. split; [done|]. intros bk. rewrite Hat, Hsp.
      unfold attached, backends_at. by rewrite (Ho1 id' Hne).
Qed.

Lemma pruneLbBackends_spec gw :
  lb_ok gw →
  lb_ok (pruneLbBackends gw) ∧ rest_of (pruneLbBackends gw).1 = rest_of gw.1 ∧ (∀ id, served (pruneLbBackends gw).1 id) ∧
  ∀ id bk, attached (pruneLbBackends gw).1 id bk ↔ attached gw.1 id bk ∧ in_feed (seenPublic gw.1) id bk.
Proof.
  intros Hok. unfold pruneLbBackends.
  destruct (prune_all (range_map (edgeLbs gw.1)) gw Hok) as (H1 & H2 & H3 & H4);
    [apply NoDup_range_map_fst|by intros id lb Hin%elem_of_range_map|].
  assert (Hcase : ∀ id, edgeLbs gw.1 !! id = None ∨ id ∈ (range_map (edgeLbs gw.1)).*1).
  { intros id. destruct (edgeLbs gw.1 !! id) as [lb|] eqn:Hid; [right|by left]. apply list_elem_of_fmap. exists (id, lb).
    by rewrite elem_of_range_map. }
  assert (Hnone : ∀ id, edgeLbs gw.1 !! id = None → edgeLbs (foldl prune_lb gw (range_map (edgeLbs gw.1))).1 !! id = None).
  { intros id Hid. rewrite H3; [done|]. intros ([? lb] & Heq & Hin%elem_of_range_map)%list_elem_of_fmap. cbn in Heq. congruence. }
  split_and!; [done|done| |].
  - intros id. destruct (Hcase id) as [Hid|Hid]; [intros lb Hlb; rewrite Hnone in Hlb by done; done|by apply H4].
  - intros id bk. destruct (Hcase id) as [Hid|Hid]; [|by apply H4]. pose proof (attached_None _ _ bk Hid).
    pose proof (attached_None _ _ bk (Hnone id Hid)). tauto.
Qed.

End lb.

(** ** The feed *)

(** What one message does to the set of announced backends. *)
Definition lb_apply (cfg : BusConfig) (S : gset publicEntry) (m : ServerMsg) : gset publicEntry :=
  match m with
  | MPublicUpdate (Some pp) op =>
      if bool_decide (pp_Kind pp = PUBLIC_KIND_LB_IP) && cfg_isEdge cfg then
        match op with
        | ROUTE_OP_ADD => {[entry_for pp]} ∪ S
        | ROUTE_OP_WITHDRAW => S ∖ {[entry_for pp]}
        | ROUTE_OP_UNSPECIFIED => S
        end
      else S
  | _ => S
  end.

Section lb_feed.
Context {ro : RangeOrder} {W : Type} {dp : Dataplane W} {laws : DataplaneLaws W} (cfg : BusConfig) (old : LbTable).
Abbreviation GW := (BusGlobal * W)%type.

(** While the snapshot replays every announced backend is attached; after its end
    nothing else is, and no load balancer is empty. *)
Record lb_replaying (S : gset publicEntry) (gw : GW) : Prop := {
  lr_ok : lb_ok old gw;
  lr_seen : seenPublic gw.1 = S;
  lr_attached id bk : in_feed S id bk → attached gw.1 id bk
}.

Record lb_live (S : gset publicEntry) (gw : GW) : Prop := {
  ll_ok : lb_ok old gw;
  ll_seen : seenPublic gw.1 = S;
  ll_attached id bk : attached gw.1 id bk ↔ in_feed S id bk;
  ll_served id : served gw.1 id
}.

(** A step that keeps the load balancers and the announced set. *)
Definition lb_same (gw gw' : GW) : Prop :=
  edgeLbs gw'.1 = edgeLbs gw.1 ∧ seenPublic gw'.1 = seenPublic gw.1 ∧ lbs gw'.2 = lbs gw.2 ∧ (healthy gw.2 → healthy gw'.2).

Lemma lb_same_ok gw gw' : lb_same gw gw' → lb_ok old gw → lb_ok old gw'.
Proof. intros (He & _ & Hl & Hh) [Hv Hn Ho Hw]. split; [by rewrite He, Hl|by rewrite He|by rewrite He, Hl|auto]. Qed.

Lemma lb_same_replaying S gw gw' : lb_same gw gw' → lb_replaying S gw → lb_replaying S gw'.
Proof.
  intros Hs [Hok Hseen Ha]. pose proof (lb_same_ok _ _ Hs Hok). destruct Hs as (He & Hp & _). split; [done|congruence|].
  intros id bk Hf. unfold attached, backends_at. rewrite He. by apply Ha.
Qed.

Lemma lb_same_live S gw gw' : lb_same gw gw' → lb_live S gw → lb_live S gw'.
Proof.
  intros Hs [Hok Hseen Ha Hsv]. pose proof (lb_same_ok _ _ Hs Hok). destruct Hs as (He & Hp & _).
  split; [done|congruence| |]; intros id; unfold attached, backends_at, served in *; rewrite He; [apply Ha|apply Hsv].
Qed.

Lemma applyNat_lb b op gw : healthy gw.2 → lb_same gw (applyNat cfg b op gw).
Proof.
  destruct gw as [g w]. cbn [snd]. intros Hh. unfold applyNat. destruct (negb _ || _); [done|].
  destruct (lbs_keeps_nat (entry_of b) (nb_OwnerUnderlay b)) as [Hk1 Hk2]. specialize (Hk1 w). specialize (Hk2 w).
  destruct (healthy_nats (entry_of b) (nb_OwnerUnderlay b) w Hh) as [Hh1 Hh2]. destruct op; [done| |].
  - destruct (replayingGlobal g); [done|]. unfold addNeighborNat. by destruct (AddNeighborNat _ _ _) as [w' []].
  - by destruct (WithdrawNeighborNat _ _) as [w' []].
Qed.

#[export] Instance lb_same_trans : Transitive lb_same.
Proof. intros a b c (H1 & H2 & H3 & H4) (H5 & H6 & H7 & H8). split_and!; [congruence..|auto]. Qed.

Lemma add_nat_lb e o gw : healthy gw.2 → lb_same gw (addNeighborNat e o gw).
Proof.
  destruct gw as [g w]. cbn [snd]. intros Hh. destruct (lbs_keeps_nat e o) as [Hk _]. specialize (Hk w).
  destruct (healthy_nats e o w Hh) as [Hh' _]. unfold addNeighborNat. by destruct (AddNeighborNat e o w) as [w' []].
Qed.

Lemma prune_nat_lb gw e : healthy gw.2 → lb_same gw (prune_nat gw e).
Proof.
  destruct gw as [g w]. cbn [snd]. intros Hh. destruct (lbs_keeps_nat e "") as [_ Hk]. specialize (Hk w).
  destruct (healthy_nats e "" w Hh) as [_ Hh']. unfold prune_nat. case_bool_decide; [done|]. by destruct (WithdrawNeighborNat e w) as [w' []].
Qed.

Lemma foldl_lb {X : Type} (f : GW → X → GW) (xs : list X) gw :
  (∀ gw x, healthy gw.2 → lb_same gw (f gw x)) → healthy gw.2 → lb_same gw (foldl f gw xs).
Proof.
  intros Hf. revert gw. induction xs as [|x xs IH]; intros gw Hh; cbn; [done|]. pose proof (Hf gw x Hh) as Hx.
  etrans; [exact Hx|]. apply IH. by apply Hx.
Qed.

(** The blocks may be refused; the load balancers stay. *)
Lemma syncNeighborNats_lb gw : healthy gw.2 → lb_same gw (syncNeighborNats gw).
Proof.
  destruct gw as [g w]. cbn [snd]. intros Hh. unfold syncNeighborNats.
  pose proof (healthy_replace (range_map (seenNat g)) w Hh) as Hh1. pose proof (lbs_keeps_replace (range_map (seenNat g)) w) as Hk.
  destruct (ReplaceNeighborNats _ w) as [w' [err|]]; [|done]. cbn in Hh1, Hk. assert (H1 : lb_same (g, w) (g, w')) by done.
  destruct (transientDataplaneError err); [done|].
  assert (Hadd : lb_same (g, w') (add_all (g, w'))).
  { unfold add_all. apply foldl_lb; [|done]. intros gw' [e o] Hg. by apply add_nat_lb. }
  destruct (add_all (g, w')) as [g2 w2]. assert (Hh2 : healthy w2) by (by apply Hadd).
  assert (H12 : lb_same (g, w) (g2, w2)) by (by etrans).
  destruct (err_code err); try exact H12. etrans; [exact H12|]. apply foldl_lb; [|done]. intros; by apply prune_nat_lb.
Qed.

Lemma in_feed_add S pp id bk :
  in_feed ({[entry_for pp]} ∪ S) id bk ↔ (id = stripMask (pp_Prefix pp) ∧ bk = backend_of pp) ∨ in_feed S id bk.
Proof.
  unfold in_feed. rewrite elem_of_union, elem_of_singleton. unfold entry_for, backend_of. destruct bk as [o v]. cbn. naive_solver.
Qed.

Lemma in_feed_del S pp id bk :
  in_feed (S ∖ {[entry_for pp]}) id bk ↔ ¬ (id = stripMask (pp_Prefix pp) ∧ bk = backend_of pp) ∧ in_feed S id bk.
Proof.
  unfold in_feed. rewrite elem_of_difference, elem_of_singleton. unfold entry_for, backend_of. destruct bk as [o v]. cbn. naive_solver.
Qed.

(** One ADD, on the attached backends. *)
Lemma add_attached pp gw :
  lb_ok old gw → pp_OverlayIP pp ≠ "" → let gw' := addLbBackend pp gw in
  lb_ok old gw' ∧ rest_of gw'.1 = rest_of gw.1 ∧
  (∀ id bk, attached gw'.1 id bk ↔ (id = stripMask (pp_Prefix pp) ∧ bk = backend_of pp) ∨ attached gw.1 id bk) ∧
  (∀ id, (id = stripMask (pp_Prefix pp) ∨ served gw.1 id) → served gw'.1 id).
Proof.
  intros Hok Hov gw'. destruct (addLbBackend_moved old pp gw Hok Hov) as (lb' & Hm & Hlb'). fold gw' in Hm. set (lbIP := stripMask (pp_Prefix pp)) in *.
  destruct (moved_touches _ _ _ _ _ Hok Hm) as [Hok' Hr Ho]. split_and!; [done|done| |].
  - intros id bk. destruct (decide (id = lbIP)) as [->|Hne].
    + unfold attached at 1. rewrite (backends_at_moved _ _ _ _ Hm), Hlb'. tauto.
    + unfold attached, backends_at. rewrite (Ho id Hne). naive_solver.
  - intros id [->|Hsv] lb Hlb; [|destruct (decide (id = lbIP)) as [->|Hne]].
    1,2: rewrite (mv_edge _ _ _ _ Hm), lookup_insert_eq in Hlb; injection Hlb as <-; intros He;
      destruct (Hlb' (backend_of pp)) as [_ [v Hv]]; [by left|]; by rewrite He, lookup_empty in Hv.
    rewrite (Ho id Hne) in Hlb. by apply Hsv.
Qed.

Lemma del_attached pp gw :
  lb_ok old gw → let gw' := delLbBackend pp gw in
  lb_ok old gw' ∧ rest_of gw'.1 = rest_of gw.1 ∧
  (∀ id bk, attached gw'.1 id bk ↔ ¬ (id = stripMask (pp_Prefix pp) ∧ bk = backend_of pp) ∧ attached gw.1 id bk) ∧
  (∀ id, served gw.1 id → served gw'.1 id).
Proof.
  intros Hok gw'. destruct (delLbBackend_spec old pp gw Hok) as ([Hok' Hr Ho] & Hsv & Ha). fold gw' in Hok', Hr, Ho, Hsv, Ha.
  set (lbIP := stripMask (pp_Prefix pp)) in *. split_and!; [done|done| |].
  - intros id bk. destruct (decide (id = lbIP)) as [->|Hne]; [rewrite Ha; tauto|].
    unfold attached, backends_at. rewrite (Ho id Hne). naive_solver.
  - intros id Hs. destruct (decide (id = lbIP)) as [->|Hne]; [done|]. unfold served. by rewrite (Ho id Hne).
Qed.

Lemma seenPublic_rest g g' : rest_of g' = rest_of g → seenPublic g' = seenPublic g.
Proof. unfold rest_of. congruence. Qed.

(** A load-balancer record names the overlay address of its backend. *)
Definition names_overlay (m : ServerMsg) : Prop :=
  match m with MPublicUpdate (Some pp) _ => pp_Kind pp = PUBLIC_KIND_LB_IP → pp_OverlayIP pp ≠ "" | _ => True end.

Lemma applyPublic_replaying S p op gw :
  names_overlay (MPublicUpdate p op) → lb_replaying S gw → lb_replaying (lb_apply cfg S (MPublicUpdate p op)) (applyPublic cfg p op gw).
Proof.
  destruct gw as [g w]. intros Hov Hr. destruct p as [pp|]; [|done]. cbn [lb_apply]. unfold applyPublic. cbn in Hov.
  destruct (pp_Kind pp) eqn:Hk; rewrite ?bool_decide_true, ?bool_decide_false by done; cbn [andb]; try exact Hr;
    [destruct op; by apply (lb_same_replaying S (g, w))|].
  specialize (Hov eq_refl). destruct (cfg_isEdge cfg); cbn [negb]; [|done]. destruct Hr as [Hok Hs Ha]. cbn in Hs. destruct op; [done| |].
  - destruct (add_attached pp (set_seenPublic (fun s => {[entry_for pp]} ∪ s) g, w)) as (H1 & H2 & H3 & _); [by destruct Hok|done|].
    split; [done|by rewrite (seenPublic_rest _ _ H2); cbn; rewrite Hs|]. intros id bk. rewrite in_feed_add, H3. intros [?|Hf]; [by left|right]. by apply Ha.
  - destruct (del_attached pp (set_seenPublic (fun s => s ∖ {[entry_for pp]}) g, w)) as (H1 & H2 & H3 & _); [by destruct Hok|].
    split; [done|by rewrite (seenPublic_rest _ _ H2); cbn; rewrite Hs|]. intros id bk. rewrite in_feed_del, H3. intros [? Hf]. split; [done|]. by apply Ha.
Qed.

Lemma applyPublic_live S p op gw :
  names_overlay (MPublicUpdate p op) → lb_live S gw → lb_live (lb_apply cfg S (MPublicUpdate p op)) (applyPublic cfg p op gw).
Proof.
  destruct gw as [g w]. intros Hov Hr. destruct p as [pp|]; [|done]. cbn [lb_apply]. unfold applyPublic. cbn in Hov.
  destruct (pp_Kind pp) eqn:Hk; rewrite ?bool_decide_true, ?bool_decide_false by done; cbn [andb]; try exact Hr;
    [destruct op; by apply (lb_same_live S (g, w))|].
  specialize (Hov eq_refl). destruct (cfg_isEdge cfg); cbn [negb]; [|done]. destruct Hr as [Hok Hs Ha Hsv]. cbn in Hs. destruct op; [done| |].
  - destruct (add_attached pp (set_seenPublic (fun s => {[entry_for pp]} ∪ s) g, w)) as (H1 & H2 & H3 & H4); [by destruct Hok|done|].
    split; [done|by rewrite (seenPublic_rest _ _ H2); cbn; rewrite Hs| |intros id; apply H4; right; apply Hsv].
    intros id bk. rewrite in_feed_add, H3. by rewrite <-Ha.
  - destruct (del_attached pp (set_seenPublic (fun s => s ∖ {[entry_for pp]}) g, w)) as (H1 & H2 & H3 & H4); [by destruct Hok|].
    split; [done|by rewrite (seenPublic_rest _ _ H2); cbn; rewrite Hs| |intros id; apply H4; apply Hsv].
    intros id bk. rewrite in_feed_del, H3. by rewrite <-Ha.
Qed.

Lemma count_same (gw : GW) : lb_same gw (count_record gw.1, gw.2).
Proof. done. Qed.

Lemma lb_replaying_msg S gw m : not_marker m → names_overlay m → lb_replaying S gw → lb_replaying (lb_apply cfg S m) (handleGlobalMsg cfg gw m).
Proof.
  intros Hm Hov Hr. pose proof (lb_same_replaying _ _ _ (count_same gw) Hr) as Hc.
  destruct m as [| | |b op|p op|]; try done; cbn [handleGlobalMsg]; [|by apply applyPublic_replaying].
  eapply lb_same_replaying; [|exact Hc]. apply applyNat_lb, Hc.
Qed.

Lemma lb_live_msg S gw m : not_marker m → names_overlay m → lb_live S gw → lb_live (lb_apply cfg S m) (handleGlobalMsg cfg gw m).
Proof.
  intros Hm Hov Hr. pose proof (lb_same_live _ _ _ (count_same gw) Hr) as Hc.
  destruct m as [| | |b op|p op|]; try done; cbn [handleGlobalMsg]; [|by apply applyPublic_live].
  eapply lb_same_live; [|exact Hc]. apply applyNat_lb, Hc.
Qed.

Lemma lb_marker S m n gw : nat_replaying m n gw → lb_replaying S gw → lb_live S (pruneGlobal (u32 n) gw).
Proof.
  destruct gw as [g w]. intros [_ _ Hc Hh] Hr. cbn in Hc, Hh. unfold pruneGlobal. rewrite decide_False by naive_solver.
  assert (Hs : lb_same (g, w) (syncNeighborNats (set_replaying false g, w))).
  { assert (H0 : lb_same (g, w) (set_replaying false g, w)) by done. etrans; [exact H0|]. by apply syncNeighborNats_lb. }
  destruct (lb_same_replaying _ _ _ Hs Hr) as [Hok Hseen Ha]. destruct (pruneLbBackends_spec _ _ Hok) as (H1 & H2 & H3 & H4).
  split; [done|by rewrite (seenPublic_rest _ _ H2)| |done]. intros id bk. rewrite H4, Hseen. split; [tauto|]. auto.
Qed.

Lemma lb_replaying_all ms S gw : Forall not_marker ms → Forall names_overlay ms → lb_replaying S gw → lb_replaying (foldl (lb_apply cfg) S ms) (handle_global cfg ms gw).
Proof.
  revert S gw. induction ms as [|x ms IH]; intros S gw Hms Hov Hl; [done|]. apply Forall_cons in Hms as [Hx Hms].
  apply Forall_cons in Hov as [Hxo Hov]. apply IH; [done..|]. by apply lb_replaying_msg.
Qed.

Lemma lb_live_all ms S gw : Forall not_marker ms → Forall names_overlay ms → lb_live S gw → lb_live (foldl (lb_apply cfg) S ms) (handle_global cfg ms gw).
Proof.
  revert S gw. induction ms as [|x ms IH]; intros S gw Hms Hov Hl; [done|]. apply Forall_cons in Hms as [Hx Hms].
  apply Forall_cons in Hov as [Hxo Hov]. apply IH; [done..|]. by apply lb_live_msg.
Qed.

End lb_feed.

(** C24. An edge dispatches to exactly the announced backends.  On a dataplane that
    answers from now on, from any record of load balancers that agrees with it (an
    agent that just started has an empty one), a session that replays a complete
    global snapshot and then any updates leaves, for each address: if a backend is
    announced, a load balancer registered with the edge's recorded ports and, as
    backends, exactly the announced ones, through port changes, which tear it
    down, and whatever an earlier agent had registered for the address; if none
    is, no load balancer, or the one that was there at the start unknown to this
    agent, untouched.  The condition on the records: each names the overlay address
    of its backend, as those of a reconcile do, for a removal without one would
    remove every backend of the node. *)
Theorem edge_backends_exact (W : Type) (dp : Dataplane W) (laws : DataplaneLaws W) (ro : RangeOrder) (cfg : BusConfig)
    (g : BusGlobal) (w : W) (snapshot later : list ServerMsg) (id : string) :
  healthy w → (∀ id lb, edgeLbs g !! id = Some lb → lbs w !! id = Some (lb_view lb) ∧ named lb) →
  Forall not_marker snapshot → Forall not_marker later → Forall names_overlay snapshot → Forall names_overlay later →
  let count := Z.of_nat (length (filter (fun m => is_record m = true) snapshot)) in
  let '(g', w') := handle_global cfg (snapshot ++ MEndOfGlobal (u32 count) :: later) (resetGlobalSnapshot g, w) in
  let announced bk := mkPublicEntry id (bk_owner bk) (bk_overlay bk) ∈ foldl (lb_apply cfg) ∅ (snapshot ++ later) in
  match edgeLbs g' !! id with
  | Some lb =>
      lbs w' !! id = Some (lb_ports lb, lb_backends lb) ∧ lb_backends lb ≠ ∅ ∧ ∀ bk, is_Some (lb_backends lb !! bk) ↔ announced bk
  | None => (∀ bk, ¬ announced bk) ∧ (lbs w' !! id = None ∨ edgeLbs g !! id = None ∧ lbs w' !! id = lbs w !! id)
  end.
Proof.
  intros Hh Hrec Hs Hl Hso Hlo count. set (old := filter (fun ir => edgeLbs g !! ir.1 = None) (lbs w)).
  assert (Hok : lb_ok old (resetGlobalSnapshot g, w)).
  { split; cbn; [apply Hrec..| |done]. intros id' Hid. right. symmetry. unfold old. destruct (lbs w !! id') as [x|] eqn:Hx.
    - by apply map_lookup_filter_Some.
    - apply map_lookup_filter_None. by left. }
  assert (Hlive : lb_live old (foldl (lb_apply cfg) ∅ (snapshot ++ later))
    (handle_global cfg (snapshot ++ MEndOfGlobal (u32 count) :: later) (resetGlobalSnapshot g, w))).
  { unfold handle_global. rewrite !foldl_app. cbn [foldl handleGlobalMsg]. apply lb_live_all; [done..|].
    apply (lb_marker _ _ (foldl (nat_apply cfg) ∅ snapshot) count).
    - change count with (0 + count). apply replaying_all; [done|]. by split.
    - apply lb_replaying_all; [done..|]. split; [done..|]. intros id' bk Hf. unfold in_feed in Hf. set_solver. }
  destruct (handle_global _ _ _) as [g' w']. destruct Hlive as [Hok' _ Ha Hsv]. cbn zeta. cbn [fst] in *.
  destruct (edgeLbs g' !! id) as [lb|] eqn:Hid.
  - split_and!; [by apply (lo_view _ _ Hok')|by apply (Hsv id)|]. intros bk. rewrite <-(Ha id bk). unfold attached, backends_at. by rewrite Hid.
  - split; [intros bk Hf; by apply (attached_None _ _ bk Hid), Ha|]. destruct (lo_other _ _ Hok' id Hid) as [?|Ho]; [by left|].
    cbn in Ho. destruct (old !! id) as [x|] eqn:Hx; [|by left]. right. apply map_lookup_filter_Some in Hx as [Hx Hg]. cbn in Hg. by rewrite Ho, Hx.
Qed.

Lemma edge_backends_exact_witness :
  let cfg := mkBusConfig "edge" "fd00::e" true in
  let rec owner overlay port := MPublicUpdate (Some (mkPublicPrefix PUBLIC_KIND_LB_IP "203.0.113.7/32" owner 7 0 0 overlay [mkLbPort port 6])) in
  let w := mkScripted ∅ ∅ {["203.0.113.7" := ([mkLbPort 80 6], {[mkBackendKey "fd00::dead" "10.0.0.9" := 7]})]} [] "i" [] in
  let snapshot := [rec "fd00::b" "10.0.0.5" 80 ROUTE_OP_ADD; rec "fd00::b" "10.0.0.6" 80 ROUTE_OP_ADD] in
  let later := [rec "fd00::b" "10.0.0.5" 443 ROUTE_OP_ADD; rec "fd00::b" "10.0.0.6" 443 ROUTE_OP_WITHDRAW] in
  let final := handle_global (ro := canonical_order) cfg (snapshot ++ MEndOfGlobal 2 :: later) (resetGlobalSnapshot NewBusGlobal, w) in
  (∃ lb, edgeLbs final.1 !! "203.0.113.7" = Some lb ∧ lbs final.2 !! "203.0.113.7" = Some (lb_ports lb, lb_backends lb) ∧
    lb_ports lb = [mkLbPort 443 6] ∧ lb_backends lb !! mkBackendKey "fd00::b" "10.0.0.5" = Some 7 ∧
    lb_backends lb !! mkBackendKey "fd00::b" "10.0.0.6" = None).
Proof.
  intros cfg rec w snapshot later final.
  pose proof (edge_backends_exact Scripted scripted_dataplane scripted_laws canonical_order cfg NewBusGlobal w snapshot later "203.0.113.7") as Hx.
  specialize (Hx eq_refl ltac:(intros id lb Hid; cbn in Hid; rewrite lookup_empty in Hid; discriminate)
    ltac:(by repeat constructor) ltac:(by repeat constructor) ltac:(by repeat constructor) ltac:(by repeat constructor)).
  assert (Hp : lb_ports <$> edgeLbs final.1 !! "203.0.113.7" = Some [mkLbPort 443 6]) by (vm_compute; reflexivity).
  assert (H5 : backends_at final.1 "203.0.113.7" !! mkBackendKey "fd00::b" "10.0.0.5" = Some 7) by (vm_compute; reflexivity).
  assert (H6 : backends_at final.1 "203.0.113.7" !! mkBackendKey "fd00::b" "10.0.0.6" = None) by (vm_compute; reflexivity).
  assert (Hc : u32 (Z.of_nat (length (filter (fun m => is_record m = true) snapshot))) = 2) by (vm_compute; reflexivity).
  cbv zeta in Hx. rewrite Hc in Hx.
  destruct (handle_global cfg (snapshot ++ MEndOfGlobal 2 :: later) (resetGlobalSnapshot NewBusGlobal, w)) as [g' w'] eqn:Hf.
  subst final. unfold backends_at in H5, H6. cbn [fst snd] in *.
  destruct (edgeLbs g' !! "203.0.113.7") as [lb|]; [|discriminate Hp].
  injection Hp as Hp. destruct Hx as (Hv & _ & _). exists lb. repeat split; assumption.
Defined.
