(* ===== verification/Agent.v ===== *)
(** * The agent's bus client, whole

    The convergence latch, and the methods that join the halves of
    src/mesh/agent/bus.go: [NewBus], [hello], the opening of a session,
    [handleServerMsg] and [reconcileStep].  The latch an anycast advertisement is
    gated on is set exactly when some moment of the agent's life had the whole
    picture ([converged_exact]). *)

From S2P Require Import Prelude Net Wire Rib Desired Dataplane Bus BusGlobal.

Open Scope Z_scope.

(** ** The convergence latch *)

Record Latch := mkLatch {
  subscribedVNIs : gset Z;
  eorSeen : gset Z;
  globalDone : bool;
  converged : bool
}.

Definition newLatch : Latch := mkLatch ∅ ∅ false false.

Definition recomputeConvergedLocked (c : Latch) : Latch :=
  if converged c || negb (globalDone c) then c
  else if bool_decide (subscribedVNIs c ⊆ eorSeen c) then mkLatch (subscribedVNIs c) (eorSeen c) (globalDone c) true
  else c.

Definition noteSubscribed (vnis : list Z) (c : Latch) : Latch :=
  recomputeConvergedLocked (mkLatch (list_to_set vnis) (eorSeen c) (globalDone c) (converged c)).

Definition noteEndOfRIB (vni : Z) (c : Latch) : Latch :=
  recomputeConvergedLocked (mkLatch (subscribedVNIs c) ({[vni]} ∪ eorSeen c) (globalDone c) (converged c)).

Definition noteEndOfGlobal (c : Latch) : Latch :=
  recomputeConvergedLocked (mkLatch (subscribedVNIs c) (eorSeen c) true (converged c)).

(** The latch's part of [resetGlobalSnapshot]. *)
Definition resetLatch (c : Latch) : Latch := mkLatch (subscribedVNIs c) ∅ false (converged c).

(** ** The bus client *)

Record Bus := mkBus {
  bus_cfg : BusConfig;
  bus_routes : BusRoutes;
  bus_global : BusGlobal;
  bus_latch : Latch
}.

Definition NewBus (nodeID underlay : string) (isEdge : bool) (now : Z) : Bus :=
  mkBus (mkBusConfig nodeID underlay isEdge) (NewBusRoutes now) NewBusGlobal newLatch.

Definition hello (b : Bus) : ClientMsg :=
  let cfg := bus_cfg b in
  CHello (cfg_nodeID cfg) (cfg_underlay cfg) (if cfg_isEdge cfg then GLOBAL_FEED_ALL else GLOBAL_FEED_NONE).

Definition Converged (b : Bus) : bool := converged (bus_latch b).

(** The start of [Run], once the hello is sent. *)
Definition openSession (b : Bus) : Bus :=
  mkBus (bus_cfg b) (openRoutes (bus_routes b)) (resetGlobalSnapshot (bus_global b)) (resetLatch (bus_latch b)).

Section bus.
Context {ro : RangeOrder} {W : Type} `{!Dataplane W}.

Definition handleServerMsg (m : ServerMsg) (b : Bus) (w : W) : Bus * W :=
  match m with
  | MRouteUpdate _ =>
      let '(r, w') := handleRouteMsg m (bus_routes b) w in (mkBus (bus_cfg b) r (bus_global b) (bus_latch b), w')
  | MEndOfRIB vni _ =>
      let '(r, w') := handleRouteMsg m (bus_routes b) w in
      (mkBus (bus_cfg b) r (bus_global b) (noteEndOfRIB vni (bus_latch b)), w')
  | MNatUpdate _ _ | MPublicUpdate _ _ =>
      let '(g, w') := handleGlobalMsg (bus_cfg b) (bus_global b, w) m in (mkBus (bus_cfg b) (bus_routes b) g (bus_latch b), w')
  | MEndOfGlobal _ =>
      let '(g, w') := handleGlobalMsg (bus_cfg b) (bus_global b, w) m in
      (mkBus (bus_cfg b) (bus_routes b) g (noteEndOfGlobal (bus_latch b)), w')
  | MServerKeepAlive => (b, w)
  end.

(** [reconcileStep]: what the reconcile computed ([None] when it failed), the
    announced state so far, and how many more messages the stream takes; the
    messages sent, the state announced since, and whether the stream held. *)
Definition reconcileStep (now : Z) (desired : option DesiredState) (applied : DesiredState) (sends : nat) (b : Bus) (w : W)
    : Bus * W * list ClientMsg * DesiredState * bool :=
  let '(r, w') := reconcileRoutes (cfg_underlay (bus_cfg b)) now desired (bus_routes b) w in
  match desired with
  | None => (mkBus (bus_cfg b) r (bus_global b) (bus_latch b), w', [], applied, true)
  | Some d =>
      let latch := noteSubscribed (Subs d) (bus_latch b) in
      let delta := diffDesired applied d in
      if delta_empty delta then (mkBus (bus_cfg b) r (bus_global b) latch, w', [], applied, true)
      else
        let msgs := sendDelta delta in
        let r' := subscribeRoutes (take (S sends) (subscribe delta)) r in
        let b' := mkBus (bus_cfg b) r' (bus_global b) latch in
        if (length msgs <=? sends)%nat then (b', w', msgs, d, true) else (b', w', take sends msgs, applied, false)
  end.

End bus.

(** ** The latch, by its history *)

Inductive LatchEvent := LSubscribed (vnis : list Z) | LEndOfRIB (vni : Z) | LEndOfGlobal | LOpen.

#[export] Instance LatchEvent_eq_dec : EqDecision LatchEvent.
Proof. solve_decision. Defined.

Definition latch_step (c : Latch) (ev : LatchEvent) : Latch :=
  match ev with
  | LSubscribed vnis => noteSubscribed vnis c
  | LEndOfRIB vni => noteEndOfRIB vni c
  | LEndOfGlobal => noteEndOfGlobal c
  | LOpen => resetLatch c
  end.

Definition latch_run (evs : list LatchEvent) : Latch := foldl latch_step newLatch evs.

(** What happened since the session was opened, and the last subscriptions. *)
Definition since_open (evs : list LatchEvent) : list LatchEvent :=
  foldl (fun acc ev => if decide (ev = LOpen) then [] else acc ++ [ev]) [] evs.

Definition last_subs (evs : list LatchEvent) : list Z :=
  foldl (fun acc ev => match ev with LSubscribed vnis => vnis | _ => acc end) [] evs.

(** The whole picture: the global snapshot and every subscribed VNI replayed, on
    the session of the moment. *)
Definition whole_picture (evs : list LatchEvent) : Prop :=
  LEndOfGlobal ∈ since_open evs ∧ ∀ vni, vni ∈ last_subs evs → LEndOfRIB vni ∈ since_open evs.

Lemma since_open_snoc evs ev : since_open (evs ++ [ev]) = if decide (ev = LOpen) then [] else since_open evs ++ [ev].
Proof. unfold since_open. by rewrite foldl_app. Qed.

Lemma last_subs_snoc evs ev : last_subs (evs ++ [ev]) = match ev with LSubscribed vnis => vnis | _ => last_subs evs end.
Proof. unfold last_subs. by rewrite foldl_app. Qed.

Lemma recompute_keeps c :
  subscribedVNIs (recomputeConvergedLocked c) = subscribedVNIs c ∧ eorSeen (recomputeConvergedLocked c) = eorSeen c ∧
  globalDone (recomputeConvergedLocked c) = globalDone c.
Proof. unfold recomputeConvergedLocked. destruct (_ || _); [done|]. by case_bool_decide. Qed.

(** The fields of the latch are its history. *)
Lemma latch_fields evs :
  subscribedVNIs (latch_run evs) = list_to_set (last_subs evs) ∧
  (∀ vni, vni ∈ eorSeen (latch_run evs) ↔ LEndOfRIB vni ∈ since_open evs) ∧
  (globalDone (latch_run evs) = true ↔ LEndOfGlobal ∈ since_open evs).
Proof.
  induction evs as [|ev evs IH] using rev_ind.
  { split_and!; cbn; [done|set_solver|]. split; [done|]. by intros ?%elem_of_nil. }
  destruct IH as (IH1 & IH2 & IH3). unfold latch_run in *. rewrite foldl_app, since_open_snoc, last_subs_snoc.
  cbn [foldl]. set (c := foldl latch_step newLatch evs) in *.
  destruct ev; cbn [latch_step]; unfold noteSubscribed, noteEndOfRIB, noteEndOfGlobal.
  1-3: match goal with |- context [recomputeConvergedLocked ?c'] => destruct (recompute_keeps c') as (-> & -> & ->) end;
    rewrite decide_False by done; cbn [subscribedVNIs eorSeen globalDone].
  - split_and!; [done| |]; intros; rewrite elem_of_app, list_elem_of_singleton; naive_solver.
  - split_and!; [done| |]; intros; rewrite elem_of_app, list_elem_of_singleton; [|naive_solver].
    rewrite elem_of_union, elem_of_singleton, IH2. naive_solver.
  - split_and!; [done| |]; intros; rewrite elem_of_app, list_elem_of_singleton; naive_solver.
  - rewrite decide_True by done. cbn. split_and!; [done| |]; intros; rewrite elem_of_nil; set_solver.
Qed.

Lemma ready_iff evs :
  globalDone (latch_run evs) = true ∧ subscribedVNIs (latch_run evs) ⊆ eorSeen (latch_run evs) ↔ whole_picture evs.
Proof.
  destruct (latch_fields evs) as (-> & H2 & H3). unfold whole_picture. rewrite H3. split; intros [? Hs]; split; try done.
  - intros vni Hv. apply H2, Hs. by rewrite elem_of_list_to_set.
  - intros vni. rewrite elem_of_list_to_set, H2. apply Hs.
Qed.

Lemma recompute_converged c :
  converged (recomputeConvergedLocked c) = converged c || (globalDone c && bool_decide (subscribedVNIs c ⊆ eorSeen c)).
Proof. unfold recomputeConvergedLocked. destruct (converged c) eqn:Hc, (globalDone c); cbn; try done. by case_bool_decide. Qed.

Lemma converged_step c ev :
  converged (latch_step c ev) = converged c ||
    (bool_decide (ev ≠ LOpen) && globalDone (latch_step c ev) && bool_decide (subscribedVNIs (latch_step c ev) ⊆ eorSeen (latch_step c ev))).
Proof.
  destruct ev; cbn [latch_step]; unfold noteSubscribed, noteEndOfRIB, noteEndOfGlobal;
    [..|by rewrite bool_decide_false, orb_false_r by naive_solver].
  all: rewrite (bool_decide_true (_ ≠ LOpen)) by done;
    match goal with |- context [recomputeConvergedLocked ?c'] => destruct (recompute_keeps c') as (-> & -> & ->) end;
    by rewrite recompute_converged.
Qed.

(** The convergence latch is exact.  In every history of subscriptions, snapshot
    ends and session openings, the agent reports itself converged if and only if at
    some point of that history the running session had replayed the global snapshot
    and every VNI subscribed at that point: never earlier, and never cleared. *)
Theorem converged_exact (evs : list LatchEvent) :
  converged (latch_run evs) = true ↔ ∃ evs1, evs1 `prefix_of` evs ∧ whole_picture evs1.
Proof.
  induction evs as [|ev evs IH] using rev_ind.
  { cbn. split; [done|]. intros (evs1 & ->%prefix_nil_inv & [Hg _]). by apply elem_of_nil in Hg. }
  unfold latch_run at 1. rewrite foldl_app. cbn [foldl]. fold (latch_run evs). rewrite converged_step.
  assert (Hrun : latch_step (latch_run evs) ev = latch_run (evs ++ [ev])) by (unfold latch_run; by rewrite foldl_app). rewrite Hrun.
  rewrite orb_true_iff, !andb_true_iff, !bool_decide_eq_true, IH. split.
  - intros [(evs1 & Hp & Hw)|[[_ Hg] Hs]].
    + exists evs1. split; [|done]. etrans; [done|by eexists].
    + exists (evs ++ [ev]). split; [done|]. by apply ready_iff.
  - intros (evs1 & [rest Hp] & Hw). destruct rest as [|x rest _] using rev_ind.
    + rewrite app_nil_r in Hp. subst evs1. right. destruct (proj2 (ready_iff _) Hw) as [Hg Hs]. split_and!; try done.
      intros ->. destruct Hw as [Hw _]. rewrite since_open_snoc, decide_True in Hw by done. by apply elem_of_nil in Hw.
    + left. exists evs1. split; [|done]. rewrite app_assoc in Hp. apply app_inj_tail in Hp as [-> _]. by eexists.
Qed.
