(* ===== verification/AgentView.v ===== *)
(** * From the reflector's table to the agent's

    The reflector and an agent, end to end: the messages the reflector sends a
    session after its subscribe (src/mesh/reflector), handled by the agent in order
    (src/mesh/agent), leave the agent with the routes the reflector advertises on that
    VNI, every nexthop of a tenant VNI and the first of the public one, whatever stale
    routes it held from earlier sessions ([agent_learns_view]). *)

From S2P Require Import Prelude Net Wire Rib RibFacts RibView RibGlobal Desired Dataplane Bus BusFacts BusGlobal.

Open Scope Z_scope.

(** ** Only a subscription is answered by an EndOfRIB *)

Definition plain_msg (m : ServerMsg) : Prop := match m with MEndOfRIB _ _ => False | _ => True end.

Definition plain_out (o : list SinkOut) : Prop := Forall (fun '(_, c) => Forall plain_msg (call_msgs c)) o.

#[export] Instance subscribe_op_dec (op : RibOp) : Decision (∃ vni s, op = OpSubscribe vni s).
Proof. destruct op; try (right; intros (? & ? & ?); discriminate). left. eauto. Defined.

Section plain.
Context {ro : RangeOrder}.

Lemma fanoutChange_plain r k before after skip ext : plain_out (fanoutChange r k before after skip ext).
Proof.
  unfold fanoutChange. destruct (equalStrs _ _); [constructor|].
  case_decide; (eapply Forall_impl; [apply fanout_msgs|]); intros [s c] ->; by repeat constructor.
Qed.

Lemma withdrawRouteOrigin_plain k o r : plain_out (withdrawRouteOrigin k o r).2.
Proof. unfold withdrawRouteOrigin. repeat case_match; try constructor; apply fanoutChange_plain. Qed.

Lemma broadcast_plain m r : plain_msg m → plain_out (broadcast m r).2.
Proof. intros Hm. cbn. apply Forall_fmap, Forall_true. intros [id s]. by repeat constructor. Qed.

Lemma sw_loop_plain {X : Type} (f : X → SW RIB SinkOut) (xs : list X) r :
  (∀ x r, plain_out (f x r).2) → plain_out (sw_loop f xs r).2.
Proof.
  intros Hf. apply (sw_loop_ind (fun _ _ out => plain_out out) f xs r []); [|constructor].
  intros x ? s o Ho. apply Forall_app. split; [done|apply Hf].
Qed.

Lemma sw_seq_plain (f g : SW RIB SinkOut) r : (∀ r, plain_out (f r).2) → (∀ r, plain_out (g r).2) → plain_out (sw_seq f g r).2.
Proof. intros Hf Hg. rewrite sw_seq_eq. apply Forall_app. split; [apply Hf|apply Hg]. Qed.

Lemma dropOriginLocked_plain o r : plain_out (dropOriginLocked o r).2.
Proof.
  unfold dropOriginLocked. apply sw_seq_plain; [intros; apply sw_loop_plain; intros; apply withdrawRouteOrigin_plain|]. intros r1.
  apply sw_seq_plain; [constructor|]. intros r2. apply sw_seq_plain; intros r3; apply sw_loop_plain; intros k r4;
    [unfold drop_nat_key|unfold drop_public_key]; repeat case_match; try constructor; by apply broadcast_plain.
Qed.

Lemma refilter_plain f r : plain_out (refilter f r).2.
Proof. unfold refilter, plain_out. cbn [snd]. apply Forall_join, Forall_fmap, Forall_true. intros [k e]. apply fanoutChange_plain. Qed.

Lemma RegisterSink_plain s r : rib_wf r → plain_out (RegisterSink s r).2.
Proof.
  intros Hwf. unfold RegisterSink. set (r0 := with_sinks _ r).
  destruct (globalSnapshotLocked_spec r0) as (_ & (recs & Hp & Hsnap) & _).
  { apply with_sinks_wf; [|done]. apply sinks_ok_insert, Hwf. }
  destruct (globalSnapshotLocked r0) as [r' snap]. cbn [fst snd] in *. constructor; [|constructor]. cbn. rewrite Hsnap, Hp.
  apply Forall_app. split; [|by repeat constructor]. apply Forall_app. split; apply Forall_fmap, Forall_true; by intros [??].
Qed.

Lemma step_plain op r : rib_wf r → (∀ vni s, op ≠ OpSubscribe vni s) → plain_out (rib_step op r).2.
Proof.
  intros Hwf Hop. destruct op; cbn [rib_step]; try (constructor || done).
  - by destruct (Hop vni s).
  - apply fanoutChange_plain.
  - apply withdrawRouteOrigin_plain.
  - by apply RegisterSink_plain.
  - by apply broadcast_plain.
  - unfold WithdrawNat. repeat case_match; try constructor; by apply broadcast_plain.
  - by apply broadcast_plain.
  - unfold WithdrawPublic. repeat case_match; try constructor; by apply broadcast_plain.
  - unfold ClaimOrigin. case_match; [apply dropOriginLocked_plain|constructor].
  - unfold ReleaseOrigin. case_decide; [apply dropOriginLocked_plain|constructor].
  - apply dropOriginLocked_plain.
  - unfold SetFence. repeat case_match; try constructor; apply refilter_plain.
  - unfold ClearFence. repeat case_match; try constructor; apply refilter_plain.
Qed.

(** Not the end of the snapshot of [vni]. *)
Definition not_eor (vni : Z) (m : ServerMsg) : Prop := match m with MEndOfRIB v _ => v ≠ vni | _ => True end.

Lemma snapshot_records_add vni r m :
  m ∈ snapshot_records vni r → ∃ u, m = MRouteUpdate u ∧ ru_Vni u = vni ∧ ru_Op u = ROUTE_OP_ADD.
Proof.
  rewrite snapshot_records_omap. intros (k & Hk & Hm)%list_elem_of_omap. apply elem_of_vni_keys in Hk as [<- _].
  unfold snapshot_record in Hm. case_decide; [done|]. injection Hm as <-. by eexists.
Qed.

Lemma quiet_not_eor op r s k : rib_wf r → quiet s k op → Forall (not_eor (rk_vni k)) (delivered s (rib_step op r).2).
Proof.
  intros Hwf Hq. destruct (decide (∃ vni s', op = OpSubscribe vni s')) as [Hs|Hs].
  - destruct Hs as (vni & s' & ->). cbn [rib_step quiet] in *. unfold Subscribe. case_match; [constructor|].
    cbn [snd]. destruct (decide (sink_id s' = sink_id s)) as [He|He]; [|rewrite delivered_other by done; constructor].
    assert (vni ≠ rk_vni k) by naive_solver. apply Forall_delivered. constructor; [|constructor]. cbn.
    apply Forall_app. split; [|by repeat constructor]. apply Forall_forall. intros m Hm.
    apply snapshot_records_add in Hm as (u & -> & _). done.
  - apply Forall_delivered. eapply Forall_impl; [apply step_plain; [done|naive_solver]|].
    intros [s' c] Hc. eapply Forall_impl; [exact Hc|]. by intros [].
Qed.

End plain.

(** ** What a message does to what the agent has learned *)

(** The nexthops learned for a key; a public prefix has one. *)
Definition learned (b : BusRoutes) (k : routeKey) : option (list string) :=
  if decide (rk_vni k = PublicVNI) then (fun nh => [nh]) <$> learnedPublic (br_learned b) !! rk_prefix k
  else or_nexthops <$> get2 (learnedOwn (br_learned b)) (rk_vni k) (rk_prefix k).

(** What an agent keeps of an announced nexthop set: all of it, and of a public
    prefix the first. *)
Definition kept_nexthops (vni : Z) (nhs : list string) : list string :=
  if decide (vni = PublicVNI) then [default "" (head nhs)] else nhs.

Definition rx (b : BusRoutes) (vni : Z) : Z := default 0 (rxRoutes (br_snap b) !! vni).
Definition seen_on (b : BusRoutes) (vni : Z) : gset string := default ∅ (seen (br_snap b) !! vni).

Section agent.
Context {ro : RangeOrder} {W : Type} {dp : Dataplane W}.

(** The messages of a session, in order. *)
Definition handle_all (ms : list ServerMsg) (b : BusRoutes) (w : W) : BusRoutes * W :=
  foldl (fun bw m => handleRouteMsg m bw.1 bw.2) (b, w) ms.

(** A message about no route of [vni]. *)
Definition other_vni (vni : Z) (m : ServerMsg) : Prop :=
  match m with MRouteUpdate u => ru_Vni u ≠ vni | MEndOfRIB v _ => v ≠ vni | _ => True end.

Lemma apply_update_learned ru b w :
  br_learned (apply_update ru b w).1 =
  (match ru_Op ru with
   | ROUTE_OP_ADD =>
       if decide (ru_Vni ru = PublicVNI) then set_public <[ru_Prefix ru := default "" (head (ru_Nexthops ru))]>
       else set_own (set2 (ru_Vni ru) (ru_Prefix ru) (mkOwnRoute (ru_Nexthops ru) (ru_External ru)))
   | ROUTE_OP_WITHDRAW =>
       if decide (ru_Vni ru = PublicVNI) then set_public (delete (ru_Prefix ru)) else set_own (del2 (ru_Vni ru) (ru_Prefix ru))
   | ROUTE_OP_UNSPECIFIED => id
   end) (br_learned b) ∧
  br_snap (apply_update ru b w).1 =
  (if bool_decide (ru_Op ru = ROUTE_OP_ADD) then markSeen (ru_Vni ru) (ru_Prefix ru) else id) (br_snap b).
Proof.
  unfold apply_update. destruct (ru_Op ru); cbn zeta; [done| |];
    case_decide; destruct (syncLearned _ _ _ _ _); done.
Qed.

Lemma foldl_del2 vni (ps : list string) (m : Table ownRoute) v p :
  get2 (foldl (fun m prefix => del2 vni prefix m) m ps) v p = if decide (v = vni ∧ p ∈ ps) then None else get2 m v p.
Proof.
  revert m. induction ps as [|q ps IH]; intros m; cbn.
  - rewrite decide_False; [done|]. intros [_ Hp]. by apply elem_of_nil in Hp.
  - rewrite IH, get2_del2. repeat case_decide; rewrite ?elem_of_cons in *; naive_solver.
Qed.

Lemma foldl_delete_str {A} (ps : list string) (m : gmap string A) p :
  foldl (fun m prefix => delete prefix m) m ps !! p = if decide (p ∈ ps) then None else m !! p.
Proof.
  revert m. induction ps as [|q ps IH]; intros m; cbn.
  - rewrite decide_False; [done|apply not_elem_of_nil].
  - rewrite IH. destruct (decide (p = q)) as [->|Hp]; [rewrite lookup_delete_eq|rewrite lookup_delete_ne by done];
      repeat case_decide; rewrite ?elem_of_cons in *; naive_solver.
Qed.

Lemma stale_spec {A} (m : gmap string A) (seen : gset string) p :
  (if decide (p ∈ filter (fun prefix => prefix ∉ seen) (range_map m).*1) then None else m !! p) =
  (if decide (p ∉ seen) then None else m !! p).
Proof.
  destruct (m !! p) as [a|] eqn:Hp; [|by repeat case_decide].
  rewrite (decide_ext (p ∈ _) (p ∉ seen)); [done|]. rewrite list_elem_of_filter.
  split; [by intros [? _]|]. intros Hs. split; [done|]. apply list_elem_of_fmap. exists (p, a). split; [done|]. by apply elem_of_range_map.
Qed.

Lemma pruneVNI_learned vni n b w k :
  learned (pruneVNI vni n b w).1 k =
    (if decide (rx b vni = n ∧ rk_vni k = vni ∧ rk_prefix k ∉ seen_on b vni) then None else learned b k) ∧
  br_snap (pruneVNI vni n b w).1 = br_snap b.
Proof.
  unfold pruneVNI, rx. case_decide as Hn; [by rewrite decide_False by naive_solver|]. cbn zeta.
  destruct (decide (vni = PublicVNI)) as [Hv|Hv]; destruct (foldl _ (br_prog b, w) _) as [p' w']; (split; [|done]);
    unfold learned; cbn [br_learned learnedOwn learnedPublic set_own set_public fst]; fold (seen_on b vni);
    destruct (decide (rk_vni k = PublicVNI)) as [Hk|Hk].
  - rewrite foldl_delete_str, stale_spec. repeat case_decide; naive_solver.
  - by rewrite decide_False by naive_solver.
  - by rewrite decide_False by naive_solver.
  - rewrite foldl_del2. destruct (decide (rk_vni k = vni)) as [<-|Hkv]; [|by rewrite !decide_False by naive_solver].
    pose proof (stale_spec (default ∅ (learnedOwn (br_learned b) !! rk_vni k)) (seen_on b (rk_vni k)) (rk_prefix k)) as Hst.
    unfold get2 in *. destruct (learnedOwn (br_learned b) !! rk_vni k) as [inner|]; cbn in *; [|by repeat case_decide].
    revert Hst. repeat case_decide; intros Hst; try naive_solver; solve [by rewrite Hst|by rewrite <-Hst].
Qed.

(** *** Another VNI *)

Lemma handle_other m b w k :
  other_vni (rk_vni k) m →
  let b' := (handleRouteMsg m b w).1 in
  learned b' k = learned b k ∧ rx b' (rk_vni k) = rx b (rk_vni k) ∧ seen_on b' (rk_vni k) = seen_on b (rk_vni k).
Proof.
  intros Hm. destruct m as [u|v n| | | |]; try done; cbn [handleRouteMsg other_vni] in *.
  - set (b0 := mkBusRoutes _ _ _ _). destruct (apply_update_learned u b0 w) as [Hl Hs]. unfold learned, rx, seen_on. rewrite Hl, Hs.
    split_and!.
    + destruct (ru_Op u); [done| |]; repeat case_decide; try done; try congruence; cbn; rewrite ?get2_set2, ?get2_del2, decide_False; naive_solver.
    + subst b0. cbn. case_bool_decide; cbn; [by rewrite lookup_insert_ne by done|done].
    + subst b0. cbn. case_bool_decide; cbn; [by rewrite lookup_insert_ne by done|done].
  - destruct (pruneVNI_learned v n b w k) as [Hl Hs]. unfold rx, seen_on. rewrite Hl, Hs. by rewrite decide_False by naive_solver.
Qed.

(** *** The route updates of the VNI *)

Lemma handle_update u b w k :
  ru_Vni u = rk_vni k →
  learned (handleRouteMsg (MRouteUpdate u) b w).1 k =
  match ru_Op u with
  | ROUTE_OP_ADD => if decide (ru_Prefix u = rk_prefix k) then Some (kept_nexthops (rk_vni k) (ru_Nexthops u)) else learned b k
  | ROUTE_OP_WITHDRAW => if decide (ru_Prefix u = rk_prefix k) then None else learned b k
  | ROUTE_OP_UNSPECIFIED => learned b k
  end.
Proof.
  intros Hu. cbn [handleRouteMsg]. set (b0 := mkBusRoutes _ _ _ _). destruct (apply_update_learned u b0 w) as [Hl _].
  unfold learned, kept_nexthops. rewrite Hl, Hu.
  destruct (ru_Op u); [done| |]; destruct (decide (rk_vni k = PublicVNI)); cbn; rewrite ?get2_set2, ?get2_del2;
    (destruct (decide (ru_Prefix u = rk_prefix k)) as [Hp|Hp];
      [rewrite ?Hp, ?lookup_insert_eq, ?lookup_delete_eq|rewrite ?lookup_insert_ne, ?lookup_delete_ne by done]);
    repeat case_decide; naive_solver.
Qed.

Lemma handle_add_snap u b w :
  ru_Op u = ROUTE_OP_ADD →
  let b' := (handleRouteMsg (MRouteUpdate u) b w).1 in
  rx b' (ru_Vni u) = u32 (rx b (ru_Vni u) + 1) ∧ seen_on b' (ru_Vni u) = {[ru_Prefix u]} ∪ seen_on b (ru_Vni u).
Proof.
  intros Hop. cbn [handleRouteMsg]. set (b0 := mkBusRoutes _ _ _ _). destruct (apply_update_learned u b0 w) as [_ Hs].
  unfold rx, seen_on. rewrite Hs, bool_decide_true by done. cbn. rewrite bool_decide_true by done. cbn. by rewrite !lookup_insert_eq.
Qed.

(** ** The two phases of a subscription *)

(** While the snapshot replays: the count, and the copy of what was seen. *)
Record replaying (vni : Z) (b : BusRoutes) (vw : RouteView) (n : Z) : Prop := {
  rp_rx : rx b vni = u32 n;
  rp_view k : rk_vni k = vni → kept_nexthops vni <$> vw !! k = if decide (rk_prefix k ∈ seen_on b vni) then learned b k else None
}.

(** After its end: the agent's table is the copy. *)
Definition synced (vni : Z) (b : BusRoutes) (vw : RouteView) : Prop := ∀ k, rk_vni k = vni → learned b k = kept_nexthops vni <$> vw !! k.

Lemma apply_route_other vni vw m k : other_vni vni m → rk_vni k = vni → apply_route vw m !! k = vw !! k.
Proof. intros Hm Hk. apply (replay_other k vw [m]). constructor; [|constructor]. destruct m; try done. cbn in *. intros <-. done. Qed.

Lemma replaying_other vni m b w vw n :
  other_vni vni m → replaying vni b vw n → replaying vni (handleRouteMsg m b w).1 vw n.
Proof.
  intros Hm [Hrx Hview]. split.
  - destruct (handle_other m b w (mkKey vni "") Hm) as (_ & Hr & _). cbn in Hr. by rewrite Hr.
  - intros k <-. destruct (handle_other m b w k Hm) as (-> & _ & ->). by apply Hview.
Qed.

Lemma replaying_add vni u b w vw n :
  ru_Vni u = vni → ru_Op u = ROUTE_OP_ADD → replaying vni b vw n →
  replaying vni (handleRouteMsg (MRouteUpdate u) b w).1 (apply_route vw (MRouteUpdate u)) (n + 1).
Proof.
  intros <- Hop [Hrx Hview]. destruct (handle_add_snap u b w Hop) as [Hr Hs]. split.
  - rewrite Hr, Hrx. unfold u32. by rewrite Z.add_mod_idemp_l.
  - intros k Hk. rewrite Hs, (handle_update u b w k) by done. cbn. rewrite Hop.
    destruct (decide (ru_Prefix u = rk_prefix k)) as [Hp|Hp].
    + rewrite decide_True by set_solver. by rewrite <-Hk, Hp, key_eta, lookup_insert_eq.
    + rewrite lookup_insert_ne by (intros <-; done). rewrite Hview by done. repeat case_decide; set_solver.
Qed.

Lemma replaying_eor vni b w vw n : replaying vni b vw n → synced vni (handleRouteMsg (MEndOfRIB vni (u32 n)) b w).1 vw.
Proof.
  intros [Hrx Hview] k Hk. cbn [handleRouteMsg]. destruct (pruneVNI_learned vni (u32 n) b w k) as [-> _].
  rewrite (Hview k Hk). repeat case_decide; naive_solver.
Qed.

Lemma synced_step vni m b w vw :
  not_eor vni m → synced vni b vw → synced vni (handleRouteMsg m b w).1 (apply_route vw m).
Proof.
  intros Hm Hs k Hk. specialize (Hs k Hk). subst vni.
  assert (Hother : other_vni (rk_vni k) m → learned (handleRouteMsg m b w).1 k = kept_nexthops (rk_vni k) <$> apply_route vw m !! k).
  { intros Ho. destruct (handle_other m b w k Ho) as [-> _]. by rewrite (apply_route_other (rk_vni k)). }
  destruct m as [u|v n| | | |]; try by apply Hother.
  destruct (decide (ru_Vni u = rk_vni k)) as [Hu|Hu]; [|by apply Hother].
  rewrite (handle_update u b w k Hu). cbn. rewrite Hs.
  destruct (ru_Op u); [done| |]; (case_decide as Hp; [rewrite Hu, Hp, key_eta|]);
    rewrite ?lookup_insert_eq, ?lookup_delete_eq; try done;
    [rewrite lookup_insert_ne|rewrite lookup_delete_ne]; try done; intros <-; done.
Qed.

(** *** Folding the phases over a session *)

Lemma handle_all_app ms1 ms2 b w :
  handle_all (ms1 ++ ms2) b w = handle_all ms2 (handle_all ms1 b w).1 (handle_all ms1 b w).2.
Proof. unfold handle_all. rewrite foldl_app. by destruct (foldl _ (b, w) ms1). Qed.

Lemma handle_all_cons m ms b w :
  handle_all (m :: ms) b w = handle_all ms (handleRouteMsg m b w).1 (handleRouteMsg m b w).2.
Proof. unfold handle_all. cbn. by destruct (handleRouteMsg m b w). Qed.

Lemma replaying_pre vni ms b w vw n :
  Forall (other_vni vni) ms → replaying vni b vw n → replaying vni (handle_all ms b w).1 vw n.
Proof.
  revert b w. induction ms as [|m ms IH]; intros b w Hms Hr; [done|].
  apply Forall_cons in Hms as [Hm Hms]. rewrite handle_all_cons. apply IH; [done|]. by apply replaying_other.
Qed.

Lemma replaying_records vni ms b w vw n :
  (∀ m, m ∈ ms → ∃ u, m = MRouteUpdate u ∧ ru_Vni u = vni ∧ ru_Op u = ROUTE_OP_ADD) →
  replaying vni b vw n → replaying vni (handle_all ms b w).1 (replay vw ms) (n + Z.of_nat (length ms)).
Proof.
  revert b w vw n. induction ms as [|m ms IH]; intros b w vw n Hms Hr; [by rewrite Z.add_0_r|].
  destruct (Hms m) as (u & -> & Hu & Hop); [left|]. rewrite handle_all_cons. cbn [length].
  replace (n + Z.of_nat (S (length ms))) with ((n + 1) + Z.of_nat (length ms)) by lia.
  apply IH; [intros; apply Hms; by right|]. by apply replaying_add.
Qed.

Lemma synced_all vni ms b w vw :
  Forall (not_eor vni) ms → synced vni b vw → synced vni (handle_all ms b w).1 (replay vw ms).
Proof.
  revert b w vw. induction ms as [|m ms IH]; intros b w vw Hms Hr; [done|].
  apply Forall_cons in Hms as [Hm Hms]. rewrite handle_all_cons. cbn. apply IH; [done|]. by apply synced_step.
Qed.

Lemma subscribe_replaying vni b : replaying vni (subscribeRoutes [vni] b) ∅ 0.
Proof.
  split.
  - unfold rx. cbn. by rewrite lookup_insert_eq.
  - intros k <-. unfold seen_on. cbn. rewrite lookup_insert_eq. cbn. by rewrite lookup_empty.
Qed.

Lemma run_not_eor ops r s k :
  rib_wf r → Forall (fun '(_, op) => quiet s k op) ops → Forall (not_eor (rk_vni k)) (delivered s (rib_run ops r).2).
Proof.
  revert r. induction ops as [|[ro' op] ops IH]; intros r Hwf Hq; [constructor|].
  apply Forall_cons in Hq as [Hq Hqs]. rewrite rib_run_cons. cbn [snd]. rewrite delivered_app. apply Forall_app.
  split; [by apply quiet_not_eor|]. apply IH; [by apply step_wf|done].
Qed.

Lemma delivered_self s c o : delivered s ((s, c) :: o) = call_msgs c ++ delivered s o.
Proof. cbn. by rewrite decide_True. Qed.

End agent.

(** ** The property *)

(** C14. An agent learns exactly what the reflector advertises.  An agent in any
    state, stale routes of earlier sessions included, subscribes to a VNI its
    session is not subscribed to and handles in order what the reflector sends
    that session from then on, preceded by what was in flight for other VNIs.  For
    each key of the VNI it does not itself originate it then holds what it keeps
    of the nexthops the reflector advertises, and no route when it advertises
    none: every nexthop on a tenant VNI, and on the public VNI the first of them,
    the only one [learnedPublic] has room for.  The operations of the other
    sessions, the fences and the outcomes of the agent's own dataplane calls are
    arbitrary.  The conditions are those of [quiet] on the session itself (it
    neither announces the key nor drops the subscription or its sink meanwhile)
    and that no message about the VNI is in flight when it subscribes, as in a new
    session: an update sent before the subscription would be counted in its
    snapshot. *)
Theorem agent_learns_view (W : Type) (dp : Dataplane W) (ro ro' : RangeOrder) (r : RIB) (s : Sink) (k : routeKey)
    (ops : list (RangeOrder * RibOp)) (pre : list ServerMsg) (b : BusRoutes) (w : W) :
  rib_wf r → fresh_sub r (rk_vni k) s → origins_at (routes r) k !! sink_id s = None →
  Forall (fun '(_, op) => quiet s k op) ops → Forall (other_vni (rk_vni k)) pre →
  let out := rib_run ((ro, OpSubscribe (rk_vni k) s) :: ops) r in
  learned (handle_all (ro := ro') (pre ++ delivered s out.2) (subscribeRoutes [rk_vni k] b) w).1 k =
  kept_nexthops (rk_vni k) <$> shown out.1 k.
Proof.
  intros Hwf Hf Ho Hq Hpre. cbv zeta. rewrite rib_run_cons. cbn [fst snd].
  pose proof (Subscribe_follows r s k Hf Ho) as Hfo.
  assert (Hwf1 : rib_wf (rib_step (ro := ro) (OpSubscribe (rk_vni k) s) r).1) by by apply step_wf.
  rewrite delivered_app, <-(fo_view _ _ _ _ (run_follows ops _ s k _ Hwf1 Hq Hfo)).
  pose proof (run_not_eor ops _ s k Hwf1 Hq) as Hne. cbn [rib_step] in *. rewrite (Subscribe_fresh r) in * by done. cbn [fst snd] in *.
  rewrite (delivered_self s) in *. cbn [call_msgs delivered mbind list_bind] in *. rewrite app_nil_r in *.
  rewrite <-replay_app, <-app_assoc. set (later := delivered s (rib_run ops _).2) in *. set (recs := snapshot_records _ _) in *.
  rewrite !handle_all_app, !replay_app. apply (synced_all (rk_vni k)); [done| |done].
  change (u32 (Z.of_nat (length recs))) with (u32 (0 + Z.of_nat (length recs))). apply (replaying_eor (ro := ro') (rk_vni k) _ _ (replay ∅ recs)).
  apply replaying_records; [apply snapshot_records_add|]. by apply replaying_pre, subscribe_replaying.
Qed.

Lemma agent_learns_view_witness :
  let k := mkKey 7 "10.0.0.5/32" in
  let s := mkSink 1 "node-a" in
  let stale := mkBusRoutes (mkLearned {[7 := {["10.0.0.5/32" := mkOwnRoute ["fd00::9"] false; "10.0.0.9/32" := mkOwnRoute ["fd00::9"] false]}]}
    ∅ [] ∅ ∅ ∅) (mkProgramming ∅ ∅ 1) (mkSnapshots ∅ ∅ ∅) (mkWatch "i" true false [] 0) in
  let ops := [(canonical_order, OpAnnounce "node-b" 7 "10.0.0.5/32" ["fd00::b"] false)] in
  let out := rib_run ((canonical_order, OpSubscribe 7 s) :: ops) NewRIB in
  let final := (handle_all (ro := canonical_order) ([MServerKeepAlive] ++ delivered s out.2) (subscribeRoutes [7] stale)
    (mkScripted ∅ ∅ ∅ [] "i" [Some (mkDpError OtherCode "refused", false)])).1 in
  learned final k = kept_nexthops 7 <$> shown out.1 k ∧ shown out.1 k = Some ["fd00::b"] ∧ learned final (mkKey 7 "10.0.0.9/32") = None.
Proof.
  intros k s stale ops out final. split; [|split; vm_compute; reflexivity].
  apply (agent_learns_view Scripted scripted_dataplane canonical_order canonical_order NewRIB s k ops [MServerKeepAlive] stale).
  - apply NewRIB_wf.
  - intros s' Hs'. vm_compute in Hs'. discriminate Hs'.
  - reflexivity.
  - constructor; [|constructor]. left. discriminate.
  - by repeat constructor.
Defined.

(** ** Blocks the reflector replaces *)

(** A replaced NAT block lingers in what an edge wants.  The reflector keys a block
    by (NAT address, first port) and an edge by (NAT address, first port, last port,
    VNI): announcing a block again with another last port or VNI replaces it at the
    reflector, which sends the new block and no withdraw, and the edge wants both
    until its next session.  They start at the same port, so its dataplane cannot
    hold both: a block with another last port it refuses as an overlap. *)
Theorem replaced_block_lingers (ro : RangeOrder) (cfg : BusConfig) (r : RIB) (s : Sink) (o : string) (b b' : NatBlock) (m : gmap natEntry string) :
  rib_wf r → sinks r !! sink_id s = Some s → cfg_isEdge cfg = true →
  nb_OwnerUnderlay b ≠ cfg_underlay cfg → nb_OwnerUnderlay b' ≠ cfg_underlay cfg →
  nat_key b = nat_key b' → entry_of b ≠ entry_of b' →
  let out := rib_run [(ro, OpAnnounceNat o b); (ro, OpAnnounceNat o b')] r in
  let held := foldl (nat_apply cfg) m (delivered s out.2) in
  tab (natT out.1) !! nat_key b = Some b' ∧
  held !! entry_of b = Some (nb_OwnerUnderlay b) ∧ held !! entry_of b' = Some (nb_OwnerUnderlay b').
Proof.
  intros Hwf Hs He Ho Ho' Hk Hne out held.
  assert (Hd : delivered s out.2 = [natUpdate b ROUTE_OP_ADD; natUpdate b' ROUTE_OP_ADD]).
  { unfold out. rewrite !rib_run_cons. cbn [rib_step fst snd rib_run]. rewrite app_nil_r, delivered_app.
    unfold AnnounceNat, natFanout. rewrite !delivered_broadcast; [done|..]; cbn; try done; apply Hwf. }
  split.
  - unfold out. rewrite !rib_run_cons. cbn. rewrite Hk. apply lookup_insert_eq.
  - unfold held. rewrite Hd. cbn. rewrite He, !bool_decide_false by done. cbn. split; [|apply lookup_insert_eq].
    rewrite lookup_insert_ne by done. apply lookup_insert_eq.
Qed.

Lemma replaced_block_lingers_witness :
  let s := mkSink 1 "edge" in
  let b hi := mkNatBlock 7 "10.0.0.5" "203.0.113.1" 1024 hi "fd00::b" in
  let r := (RegisterSink (ro := canonical_order) s NewRIB).1 in
  let out := rib_run [(canonical_order, OpAnnounceNat "node-b" (b 2048)); (canonical_order, OpAnnounceNat "node-b" (b 3072))] r in
  let held := foldl (nat_apply (mkBusConfig "edge" "fd00::e" true)) ∅ (delivered s out.2) in
  tab (natT out.1) !! nat_key (b 2048) = Some (b 3072) ∧
  held !! entry_of (b 2048) = Some "fd00::b" ∧ held !! entry_of (b 3072) = Some "fd00::b".
Proof.
  intros s b r. apply (replaced_block_lingers canonical_order (mkBusConfig "edge" "fd00::e" true) r s "node-b" (b 2048) (b 3072) ∅); try reflexivity; try discriminate.
  apply (step_wf (ro := canonical_order) (OpRegisterSink s)). apply NewRIB_wf.
Defined.
