(* ===== verification/Shadow.v ===== *)
(** * Insert-time shadowing

    Two compilers of the repository build a rule set by the same discipline: an
    arriving element is refused when a present one shadows it, and evicts the ones
    it shadows.  This file proves once what the discipline yields, for any
    shadowing relation that is irreflexive and transitive. *)

From S2P Require Import Prelude.

Section lists.
Context {A : Type} (P : A → bool).

Lemma existsb_false l : existsb P l = false ↔ ∀ x, x ∈ l → P x = false.
Proof.
  rewrite <-not_true_iff_false, existsb_exists. setoid_rewrite <-list_elem_of_In. split.
  - intros H x Hx. apply not_true_iff_false. naive_solver.
  - intros H (x & Hx & HP). rewrite H in HP; done.
Qed.

Lemma existsb_true l : existsb P l = true ↔ ∃ x, x ∈ l ∧ P x = true.
Proof. rewrite existsb_exists. by setoid_rewrite <-list_elem_of_In. Qed.

Lemma elem_of_list_filter_b l x : x ∈ List.filter P l ↔ x ∈ l ∧ P x = true.
Proof. rewrite !list_elem_of_In. apply filter_In. Qed.

Lemma NoDup_list_filter_b l : NoDup l → NoDup (List.filter P l).
Proof. intros H. apply NoDup_ListNoDup, List.NoDup_filter, NoDup_ListNoDup, H. Qed.

End lists.

Section shadow.
Context {A : Type} (sh : A → A → bool).
Implicit Types (E s l : list A).

(** One insertion, and a sequence of them. *)
Definition put (e : A) (s : list A) : list A :=
  if existsb (fun x => sh x e) s then s else List.filter (fun x => negb (sh e x)) s ++ [e].

Definition put_all (l s : list A) : list A := foldl (fun s e => put e s) s l.

(** What the set holds after the elements of [E] arrived. *)
Record settled (E s : list A) : Prop := {
  st_from e : e ∈ s → e ∈ E;
  st_cover e : e ∈ E → e ∈ s ∨ ∃ x, x ∈ s ∧ sh x e = true;
  st_live x e : x ∈ s → e ∈ s → sh x e = false
}.

Lemma settled_nil : settled [] [].
Proof. split; [done|set_solver|set_solver]. Qed.

Lemma settled_nonempty E s : settled E s → s = [] → E = [].
Proof.
  intros Hs ->. destruct E as [|e E]; [done|]. destruct (st_cover _ _ Hs e) as [?%elem_of_nil|(x & ?%elem_of_nil & _)]; [by left|done..].
Qed.

Lemma put_NoDup e s : NoDup s → e ∉ s → NoDup (put e s).
Proof.
  intros Hs He. unfold put. case_match; [done|]. apply NoDup_app. split_and!.
  - by apply NoDup_list_filter_b.
  - intros x [Hx _]%elem_of_list_filter_b ->%list_elem_of_singleton. done.
  - apply NoDup_singleton.
Qed.

Lemma put_all_app l k s : put_all (l ++ k) s = put_all k (put_all l s).
Proof. apply foldl_app. Qed.

Context (ok : A → Prop).
Context (sh_irrefl : ∀ e, sh e e = false).
Context (sh_trans : ∀ a b d, ok a → ok b → ok d → sh a b = true → sh b d = true → sh a d = true).

Lemma put_settled E s e : Forall ok (E ++ [e]) → settled E s → settled (E ++ [e]) (put e s).
Proof.
  intros Hok [Hf Hc Hl]. rewrite Forall_forall in Hok.
  assert (HokE : ∀ x, x ∈ E → ok x) by (intros x Hx; apply Hok, elem_of_app; by left).
  assert (Hoke : ok e) by (apply Hok, elem_of_app; right; by apply list_elem_of_singleton).
  unfold put. destruct (existsb _ s) eqn:Ex.
  - apply existsb_true in Ex as (x & Hx & Hsh). split; [set_solver| |done].
    intros y [Hy| ->%list_elem_of_singleton]%elem_of_app; [by apply Hc|]. right. eauto.
  - rewrite existsb_false in Ex.
    assert (Hin : ∀ y, y ∈ List.filter (fun x => negb (sh e x)) s ++ [e] ↔ (y ∈ s ∧ sh e y = false) ∨ y = e).
    { intros y. rewrite elem_of_app, elem_of_list_filter_b, negb_true_iff, list_elem_of_singleton. done. }
    split.
    + intros y [[Hy _]| ->]%Hin; apply elem_of_app; [left; auto|right; by apply list_elem_of_singleton].
    + setoid_rewrite Hin. intros y [Hy| ->%list_elem_of_singleton]%elem_of_app; [|auto].
      assert (Hkeep : ∀ z, z ∈ s → (z ∈ s ∧ sh e z = false) ∨ sh e z = true)
        by (intros z Hz; destruct (sh e z); auto).
      destruct (Hc y Hy) as [Hs|(x & Hx & Hsh)].
      * destruct (Hkeep y Hs); [by auto|right; exists e; auto].
      * right. destruct (Hkeep x Hx) as [|Hex]; [exists x; auto|exists e; split; [auto|]]. apply (sh_trans e x y); auto.
    + intros x y [[Hx Hex]| ->]%Hin [[Hy Hey]| ->]%Hin; auto.
Qed.

Lemma put_all_settled l E s : Forall ok (E ++ l) → settled E s → settled (E ++ l) (put_all l s).
Proof.
  revert E s. induction l as [|e l IH]; intros E s Hok Hs; cbn; [by rewrite app_nil_r|].
  rewrite cons_middle, app_assoc in *. apply IH; [done|]. apply put_settled; [|done].
  by apply Forall_app in Hok as [? _].
Qed.

(** The survivors are the elements nothing of the whole input shadows. *)
Lemma settled_exact E s e :
  Forall ok E → settled E s → e ∈ s ↔ e ∈ E ∧ ∀ x, x ∈ E → sh x e = false.
Proof.
  intros Hok [Hf Hc Hl]. rewrite Forall_forall in Hok. split.
  - intros He. split; [auto|]. intros x Hx. destruct (sh x e) eqn:Hsh; [|done].
    destruct (Hc x Hx) as [Hs|(y & Hy & Hyx)]; [by rewrite (Hl x e) in Hsh|].
    rewrite <-(Hl y e Hy He). symmetry. apply (sh_trans y x e); auto.
  - intros [He Hn]. destruct (Hc e He) as [|(x & Hx & Hsh)]; [done|]. rewrite Hn in Hsh; auto. done.
Qed.

Lemma put_all_NoDup l E s : Forall ok (E ++ l) → settled E s → NoDup s → NoDup (E ++ l) → NoDup (put_all l s).
Proof.
  revert E s. induction l as [|e l IH]; intros E s Hok Hst Hs Hnd; cbn; [done|].
  rewrite cons_middle, app_assoc in Hok, Hnd. apply (IH (E ++ [e])); [done| | |done].
  - apply put_settled; [|done]. by apply Forall_app in Hok as [? _].
  - apply put_NoDup; [done|]. intros He%(st_from _ _ Hst).
    apply NoDup_app in Hnd as [Hnd _]. apply NoDup_app in Hnd as (_ & Hnd & _). apply (Hnd e He). by left.
Qed.

End shadow.
