(* ===== verification/Firewall.v ===== *)
(** * The firewall: admission and compilation of policies

    [api/net/firewallpolicy_validate.go] (the admission checks of a
    FirewallPolicy) and [mesh/controllers/firewall_compile.go] (the lowering of
    the policies that select an interface to first-match-wins rule lists).  The
    Kubernetes label selector is a library: how a selector matches a label set and
    what its own validation reports are arguments of the definitions. *)

From stdpp Require Import pretty.
From S2P Require Import Prelude Net.
Import netip.

Open Scope Z_scope.

(** ** The API objects *)

(** [FirewallPolicyRule]; a nil pointer is [None]. *)
Record FirewallPolicyRule := mkPolicyRule {
  CIDR : string;
  Proto : string;
  Port : Z;
  EndPort : option Z;
  ICMPType : option Z;
  ICMPCode : option Z;
  Action : string;
  RulePriority : option Z
}.

(** [FirewallPolicy], the object's name and spec; [L] is the library's
    [LabelSelector]. *)
Record FirewallPolicy {L : Type} := mkPolicy {
  Namespace : string;
  Name : string;
  InterfaceSelector : option L;
  Priority : option Z;
  Ingress : list FirewallPolicyRule;
  Egress : list FirewallPolicyRule
}.
Arguments FirewallPolicy : clear implicits.
Arguments mkPolicy {L}.

Definition FirewallPriorityMin : Z := 0.
Definition FirewallPriorityMax : Z := 65535.
Definition FirewallPriorityDefault : Z := 32768.

(** [CompiledFwRule]. *)
Record CompiledFwRule := mkCompiledFwRule {
  cr_CIDR : string;
  cr_Proto : string;
  cr_Port : Z;
  cr_EndPort : Z;
  cr_ICMPType : option Z;
  cr_ICMPCode : option Z;
  cr_Action : string
}.

Record CompiledFirewall := mkCompiledFirewall {
  cf_Ingress : list CompiledFwRule;
  cf_Egress : list CompiledFwRule
}.

(** ** Admission *)

(** What a [field.Error] reports: the offending value, when it carries one. *)
Inductive BadValue := NoValue | BadString (s : string) | BadInt (z : Z).

Inductive FieldError :=
| Required (path detail : string)
| Invalid (path : string) (v : BadValue) (detail : string)
| NotSupported (path : string) (v : BadValue) (valid : list string).

(** [field.Path]: [Child] and [Index]. *)
Definition Child (p name : string) : string := p +:+ "." +:+ name.
Definition Index (p : string) (i : Z) : string := p +:+ "[" +:+ pretty i +:+ "]".

Definition validateFirewallPriority (p : option Z) (path : string) : list FieldError :=
  match p with
  | Some v => if (v <? FirewallPriorityMin) || (FirewallPriorityMax <? v)
              then [Invalid path (BadInt v) "must be between 0 and 65535 (lower wins)"] else []
  | None => []
  end.

Definition known_proto (s : string) : bool := bool_decide (s ∈ [""; "TCP"; "UDP"; "ICMP"]).

Definition validate_cidr (r : FirewallPolicyRule) (path : string) : list FieldError :=
  if decide (CIDR r = "") then [Required (Child path "cidr") "use 0.0.0.0/0 or ::/0 to match any address"]
  else match ParsePrefix (CIDR r) with
       | None => [Invalid (Child path "cidr") (BadString (CIDR r)) "not a CIDR (address/length)"]
       | Some p =>
           if decide (Masked p = p) then []
           else [Invalid (Child path "cidr") (BadString (CIDR r))
                   ("host bits are set; use " +:+ Prefix_String (Masked p) +:+ " or a longer prefix")]
       end.

Definition validate_action (r : FirewallPolicyRule) (path : string) : list FieldError :=
  if decide (Action r ∈ ["Allow"; "Deny"]) then []
  else if decide (Action r = "") then [Required (Child path "action") "Allow or Deny"]
  else [NotSupported (Child path "action") (BadString (Action r)) ["Allow"; "Deny"]].

Definition validate_port (r : FirewallPolicyRule) (path : string) : list FieldError :=
  if (Port r <? 0) || (65535 <? Port r)
  then [Invalid (Child path "port") (BadInt (Port r)) "must be between 0 (any) and 65535"]
  else if negb (Port r =? 0) && known_proto (Proto r) && negb (bool_decide (Proto r = "TCP")) && negb (bool_decide (Proto r = "UDP"))
  then [Invalid (Child path "port") (BadInt (Port r)) "a port requires proto TCP or UDP"]
  else [].

Definition validate_endport (r : FirewallPolicyRule) (path : string) : list FieldError :=
  match EndPort r with
  | None => []
  | Some e =>
      if (e <? 1) || (65535 <? e)
      then [Invalid (Child path "endPort") (BadInt e) "must be between 1 and 65535"]
      else if Port r =? 0
      then [Invalid (Child path "endPort") (BadInt e) "a range needs its start in port"]
      else if e <? Port r
      then [Invalid (Child path "endPort") (BadInt e) "must not be below port"]
      else []
  end.

Definition validate_icmp (r : FirewallPolicyRule) (path : string) : list FieldError :=
  match ICMPType r with
  | None => []
  | Some t =>
      if (t <? 0) || (255 <? t)
      then [Invalid (Child path "icmpType") (BadInt t) "must be between 0 and 255"]
      else if known_proto (Proto r) && negb (bool_decide (Proto r = "ICMP"))
      then [Invalid (Child path "icmpType") (BadInt t) "an ICMP type requires proto ICMP"]
      else []
  end ++
  match ICMPCode r with
  | None => []
  | Some c =>
      if (c <? 0) || (255 <? c)
      then [Invalid (Child path "icmpCode") (BadInt c) "must be between 0 and 255"]
      else if bool_decide (ICMPType r = None)
      then [Invalid (Child path "icmpCode") (BadInt c) "an ICMP code requires icmpType"]
      else []
  end.

Definition validateFirewallRule (r : FirewallPolicyRule) (path : string) : list FieldError :=
  validate_cidr r path ++ validate_action r path ++
  (if known_proto (Proto r) then []
   else [NotSupported (Child path "proto") (BadString (Proto r)) ["TCP"; "UDP"; "ICMP"]]) ++
  validate_port r path ++ validate_endport r path ++ validate_icmp r path ++
  validateFirewallPriority (RulePriority r) (Child path "priority").

(** The loop over one direction's rules, from index [i]. *)
Fixpoint validate_rules (path : string) (i : Z) (l : list FirewallPolicyRule) : list FieldError :=
  match l with
  | [] => []
  | r :: l => validateFirewallRule r (Index path i) ++ validate_rules path (i + 1) l
  end.

Section admission.
Context {L : Type} (ValidateLabelSelector : L → string → list FieldError).

Definition Validate (o : FirewallPolicy L) : list FieldError :=
  match InterfaceSelector o with
  | None => [Required (Child "spec" "interfaceSelector")
               "select the interfaces this policy applies to ({} selects all in the namespace)"]
  | Some sel => ValidateLabelSelector sel (Child "spec" "interfaceSelector")
  end ++
  validateFirewallPriority (Priority o) (Child "spec" "priority") ++
  validate_rules (Child "spec" "ingress") 0 (Ingress o) ++
  validate_rules (Child "spec" "egress") 0 (Egress o).

(** [ValidateUpdate]; [same_spec] is [equality.Semantic.DeepEqual] of the two
    specs, and [None] an old object of another type. *)
Definition ValidateUpdate (same_spec : FirewallPolicy L → FirewallPolicy L → bool)
    (o : FirewallPolicy L) (old : option (FirewallPolicy L)) : list FieldError :=
  match old with
  | Some prev => if same_spec prev o then [] else Validate o
  | None => Validate o
  end.

End admission.

(** ** Ranks *)

Record fwRank := mkRank {
  rk_policy : Z;
  rk_rule : Z;
  rk_namespace : string;
  rk_name : string;
  rk_index : Z
}.

#[export] Instance fwRank_eq_dec : EqDecision fwRank.
Proof. solve_decision. Defined.

(** [cmp.Or] of comparison results: the first that is not zero. *)
Fixpoint cmp_Or (l : list comparison) : comparison :=
  match l with
  | [] => Eq
  | Eq :: l => cmp_Or l
  | c :: _ => c
  end.

(** [fwRank.compare]; the signs -1, 0 and 1 are [Lt], [Eq] and [Gt]. *)
Definition fwRank_compare (a b : fwRank) : comparison :=
  cmp_Or [ rk_policy a ?= rk_policy b; rk_rule a ?= rk_rule b;
           String.compare (rk_namespace a) (rk_namespace b);
           String.compare (rk_name a) (rk_name b);
           rk_index a ?= rk_index b ].

Definition precedes (a b : fwRank) : bool :=
  match fwRank_compare a b with Lt => true | _ => false end.

Definition implicitRank (index : Z) : fwRank := mkRank (FirewallPriorityMax + 1) 0 "" "" index.

(** ** Entries *)

Record fwEntry := mkEntry {
  e_rule : CompiledFwRule;
  e_prefix : Prefix;
  portLo : Z;
  portHi : Z;
  e_rank : fwRank
}.

#[export] Instance fwEntry_eq_dec : EqDecision fwEntry.
Proof. assert (EqDecision CompiledFwRule) by solve_decision. solve_decision. Defined.

(** Why a rule cannot be interpreted. *)
Inductive RuleError := NotACIDR (s : string) | NotAnAction (s : string) | NotAProto (s : string).

Definition newFwEntry (r : FirewallPolicyRule) (rank : fwRank) : RuleError + fwEntry :=
  match ParsePrefix (CIDR r) with
  | None => inl (NotACIDR (CIDR r))
  | Some p =>
      if negb (bool_decide (Action r = "Allow")) && negb (bool_decide (Action r = "Deny"))
      then inl (NotAnAction (Action r))
      else if negb (known_proto (Proto r)) then inl (NotAProto (Proto r))
      else
        let '(lo, hi, endPort) :=
          if Port r =? 0 then (0, 65535, 0)
          else match EndPort r with
               | Some ep => if Port r <? ep then (Port r, ep, ep) else (Port r, Port r, 0)
               | None => (Port r, Port r, 0)
               end in
        let code := match ICMPType r with Some _ => ICMPCode r | None => None end in
        inr (mkEntry (mkCompiledFwRule (CIDR r) (Proto r) (Port r) endPort (ICMPType r) code (Action r))
               (Masked p) lo hi rank)
  end.

Definition v6 (e : fwEntry) : bool := Is6 (p_addr (e_prefix e)).

Definition optCovers (a e : option Z) : bool :=
  match a, e with
  | None, _ => true
  | Some x, Some y => x =? y
  | Some _, None => false
  end.

Definition covers (a e : fwEntry) : bool :=
  if negb (Bool.eqb (v6 a) (v6 e)) || (p_bits (e_prefix e) <? p_bits (e_prefix a)) ||
     negb (Contains (e_prefix a) (p_addr (e_prefix e)))
  then false
  else if decide (cr_Proto (e_rule a) = "") then true
  else if decide (cr_Proto (e_rule a) ≠ cr_Proto (e_rule e)) then false
  else if decide (cr_Proto (e_rule a) = "ICMP")
  then optCovers (cr_ICMPType (e_rule a)) (cr_ICMPType (e_rule e)) &&
       optCovers (cr_ICMPCode (e_rule a)) (cr_ICMPCode (e_rule e))
  else (portLo a <=? portLo e) && (portHi e <=? portHi a).

(** ** The set of one direction *)

(** [fwSet]: its entries. *)
Definition fwSet : Type := list fwEntry.

(** [x] takes precedence over [e] and matches all it matches. *)
Definition shadows (x e : fwEntry) : bool := precedes (e_rank x) (e_rank e) && covers x e.

Definition fwSet_insert (e : fwEntry) (s : fwSet) : fwSet :=
  if existsb (fun x => shadows x e) s then s
  else List.filter (fun x => negb (shadows e x)) s ++ [e].

Definition rank_le (a b : fwEntry) : Prop := fwRank_compare (e_rank a) (e_rank b) ≠ Gt.

#[export] Instance rank_le_dec : RelDecision rank_le.
Proof. intros a b. unfold rank_le. apply _. Defined.

(** [fwSet.rules]: [slices.SortedFunc] by rank; distinct ranks make its result unique. *)
Definition fwSet_rules (s : fwSet) : list CompiledFwRule := e_rule <$> merge_sort rank_le s.

Definition fwSet_count (s : fwSet) (is6 : bool) : Z :=
  Z.of_nat (length (List.filter (fun e => Bool.eqb (v6 e) is6) s)).

Definition priorityOr (p : option Z) : Z := default FirewallPriorityDefault p.

(** ** The compiler *)

Definition FirewallRuleBudget : Z := 256.

(** [FirewallCompileError]: the two reasons, with what their messages name. *)
Inductive FirewallCompileError :=
| InvalidRule (namespace name dir : string) (index : Z) (err : RuleError)
| RuleBudgetExceeded (n : Z) (family : string).

Section compile.
Context {L : Type}.
(** [metav1.LabelSelectorAsSelector]: an error, or the selector's [Matches]. *)
Context (LabelSelectorAsSelector : L → option (gmap string string → bool)).

Definition rule_rank (pol : FirewallPolicy L) (r : FirewallPolicyRule) (idx : Z) : fwRank :=
  mkRank (priorityOr (Priority pol)) (priorityOr (RulePriority r)) (Namespace pol) (Name pol) idx.

(** The loop over one direction of a policy, from index [idx]. *)
Fixpoint insert_rules (pol : FirewallPolicy L) (dir : string) (idx : Z)
    (l : list FirewallPolicyRule) (s : fwSet) : FirewallCompileError + fwSet :=
  match l with
  | [] => inr s
  | r :: l =>
      match newFwEntry r (rule_rank pol r idx) with
      | inl err => inl (InvalidRule (Namespace pol) (Name pol) dir idx err)
      | inr e => insert_rules pol dir (idx + 1) l (fwSet_insert e s)
      end
  end.

Definition selects (nicLabels : gmap string string) (pol : FirewallPolicy L) : bool :=
  match InterfaceSelector pol with
  | None => false
  | Some sel =>
      match LabelSelectorAsSelector sel with
      | None => false
      | Some m => m nicLabels
      end
  end.

(** The loop over the policies. *)
Fixpoint insert_policies (nicLabels : gmap string string) (policies : list (FirewallPolicy L))
    (ingress egress : fwSet) : FirewallCompileError + (fwSet * fwSet) :=
  match policies with
  | [] => inr (ingress, egress)
  | pol :: policies =>
      if selects nicLabels pol then
        match insert_rules pol "ingress" 0 (Ingress pol) ingress with
        | inl err => inl err
        | inr ingress =>
            match insert_rules pol "egress" 0 (Egress pol) egress with
            | inl err => inl err
            | inr egress => insert_policies nicLabels policies ingress egress
            end
        end
      else insert_policies nicLabels policies ingress egress
  end.

Definition any_rule (cidr : string) : FirewallPolicyRule :=
  mkPolicyRule cidr "" 0 None None None "Allow" None.

(** The VPC's default, one allow-all per family; the error of [newFwEntry] is
    discarded by the source. *)
Definition add_default (defaultPolicy : option string) (s : fwSet) : fwSet :=
  if (bool_decide (defaultPolicy = None) && bool_decide (s = [])) || bool_decide (defaultPolicy = Some "Allow")
  then foldl (fun s '(i, cidr) =>
         match newFwEntry (any_rule cidr) (implicitRank i) with
         | inr e => fwSet_insert e s
         | inl _ => s
         end) s [(0, "0.0.0.0/0"); (1, "::/0")]
  else s.

Definition CompileFirewall (nicLabels : gmap string string) (policies : list (FirewallPolicy L))
    (defaultPolicy : option string) : FirewallCompileError + CompiledFirewall :=
  match insert_policies nicLabels policies [] [] with
  | inl err => inl err
  | inr (ingress, egress) =>
      let ingress := add_default defaultPolicy ingress in
      let egress := add_default defaultPolicy egress in
      let n4 := fwSet_count ingress false + fwSet_count egress false in
      let n6 := fwSet_count ingress true + fwSet_count egress true in
      if FirewallRuleBudget <? n4 then inl (RuleBudgetExceeded n4 "IPv4")
      else if FirewallRuleBudget <? n6 then inl (RuleBudgetExceeded n6 "IPv6")
      else inr (mkCompiledFirewall (fwSet_rules ingress) (fwSet_rules egress))
  end.

End compile.
