(* ===== verification/FirewallTheorems.v ===== *)
(** * The firewall: what the compiled rules decide

    A reference semantics for policies (the highest-ranked matching rule decides,
    then the VPC's default) and the proof that the compiled lists decide the same
    for every packet; shadowing does not depend on the order rules arrive in;
    admission, the error branches and the rule budget. *)

From S2P Require Import Prelude Net Shadow Firewall.
Import netip.

Open Scope Z_scope.

(** ** The rank order *)

(** A three-way comparison of a total order. *)
Record total_cmp {A : Type} (c : A → A → comparison) : Prop := {
  tc_eq a b : c a b = Eq ↔ a = b;
  tc_opp a b : c b a = CompOpp (c a b);
  tc_trans a b d : c a b = Lt → c b d = Lt → c a d = Lt
}.

Lemma Z_total_cmp : total_cmp Z.compare.
Proof.
  split; [exact Z.compare_eq_iff|intros; apply Z.compare_antisym|].
  intros a b d. rewrite !Z.compare_lt_iff. lia.
Qed.

Lemma string_total_cmp : total_cmp String.compare.
Proof.
  split; [|intros; apply String.compare_antisym|].
  { intros a b. split; [apply String.compare_eq_iff|intros ->].
    pose proof (String.compare_antisym b b) as H. by destruct (String.compare b b). }
  intros a b d Hab Hbd.
  assert (Hle : ∀ x y, String.compare x y = Lt → String.le x y) by (intros x y H; unfold String.le, String.leb; by rewrite H).
  assert (Had : String.le a d) by (trans b; by apply Hle). unfold String.le, String.leb in Had.
  destruct (String.compare a d) eqn:E; try done. apply String.compare_eq_iff in E as ->.
  rewrite String.compare_antisym, Hab in Hbd. done.
Qed.

(** Lexicographic order of two comparisons read off a value. *)
Definition lex {A : Type} (c d : A → A → comparison) (a b : A) : comparison :=
  match c a b with Eq => d a b | r => r end.

Lemma lex_trans {A B : Type} (f : A → B) (c : B → B → comparison) (d : A → A → comparison) :
  total_cmp c → (∀ a b, d b a = CompOpp (d a b)) → (∀ a b e, d a b = Lt → d b e = Lt → d a e = Lt) →
  let l := lex (fun a b => c (f a) (f b)) d in
  (∀ a b, l b a = CompOpp (l a b)) ∧ (∀ a b e, l a b = Lt → l b e = Lt → l a e = Lt).
Proof.
  intros Hc Ho Ht l. subst l. unfold lex. split.
  - intros a b. rewrite (tc_opp _ Hc (f a) (f b)). destruct (c (f a) (f b)); cbn; auto.
  - intros a b e. destruct (c (f a) (f b)) eqn:E1; [| |done].
    + apply (tc_eq _ Hc) in E1. rewrite E1. destruct (c (f b) (f e)); eauto.
    + destruct (c (f b) (f e)) eqn:E2; [|rewrite (tc_trans _ Hc _ _ _ E1 E2); done|done].
      apply (tc_eq _ Hc) in E2. by rewrite <-E2, E1.
Qed.

Lemma fwRank_compare_lex a b :
  fwRank_compare a b =
    lex (fun a b => rk_policy a ?= rk_policy b)
   (lex (fun a b => rk_rule a ?= rk_rule b)
   (lex (fun a b => String.compare (rk_namespace a) (rk_namespace b))
   (lex (fun a b => String.compare (rk_name a) (rk_name b))
        (fun a b => rk_index a ?= rk_index b)))) a b.
Proof.
  unfold fwRank_compare, lex, cmp_Or. repeat (case_match; try done).
Qed.

Lemma fwRank_total : total_cmp fwRank_compare.
Proof.
  assert (H1 := lex_trans rk_name _ (fun a b => rk_index a ?= rk_index b) string_total_cmp
    (fun a b => tc_opp _ Z_total_cmp _ _) (fun a b e => tc_trans _ Z_total_cmp _ _ _)). cbv zeta in H1.
  assert (H2 := lex_trans rk_namespace _ _ string_total_cmp (proj1 H1) (proj2 H1)). cbv zeta in H2.
  assert (H3 := lex_trans rk_rule _ _ Z_total_cmp (proj1 H2) (proj2 H2)). cbv zeta in H3.
  assert (H4 := lex_trans rk_policy _ _ Z_total_cmp (proj1 H3) (proj2 H3)). cbv zeta in H4.
  split.
  - intros a b. split; [|intros ->].
    + unfold fwRank_compare, cmp_Or. destruct a, b; cbn. intros H. repeat (case_match; try done).
      repeat match goal with
        | E : (_ ?= _) = Eq |- _ => apply Z.compare_eq_iff in E
        | E : String.compare _ _ = Eq |- _ => apply String.compare_eq_iff in E end. by subst.
    + unfold fwRank_compare. rewrite !Z.compare_refl.
      by rewrite !(proj2 (tc_eq _ string_total_cmp _ _) eq_refl).
  - intros a b. rewrite !fwRank_compare_lex. apply H4.
  - intros a b d. rewrite !fwRank_compare_lex. apply H4.
Qed.

Lemma precedes_spec a b : precedes a b = true ↔ fwRank_compare a b = Lt.
Proof. unfold precedes. by destruct (fwRank_compare a b). Qed.

Lemma precedes_trans a b d : precedes a b = true → precedes b d = true → precedes a d = true.
Proof. rewrite !precedes_spec. apply fwRank_total. Qed.

Lemma precedes_irrefl a : precedes a a = false.
Proof. unfold precedes. by rewrite (proj2 (tc_eq _ fwRank_total a a) eq_refl). Qed.

(** Not above is: the other strictly precedes, or the ranks are one. *)
Lemma rank_le_spec a b : rank_le a b ↔ precedes (e_rank b) (e_rank a) = false.
Proof.
  unfold rank_le, precedes. rewrite (tc_opp _ fwRank_total (e_rank a) (e_rank b)).
  destruct (fwRank_compare (e_rank a) (e_rank b)); naive_solver.
Qed.

Lemma rank_le_antisym a b : rank_le a b → rank_le b a → e_rank a = e_rank b.
Proof.
  unfold rank_le. rewrite (tc_opp _ fwRank_total (e_rank a) (e_rank b)).
  destruct (fwRank_compare (e_rank a) (e_rank b)) eqn:E; cbn; try done. intros _ _. by apply (tc_eq _ fwRank_total).
Qed.

Lemma not_gt_total a b : fwRank_compare a b ≠ Gt ∨ fwRank_compare b a ≠ Gt.
Proof. rewrite (tc_opp _ fwRank_total a b). destruct (fwRank_compare a b); cbn; auto. Qed.

Lemma not_gt_trans a b d : fwRank_compare a b ≠ Gt → fwRank_compare b d ≠ Gt → fwRank_compare a d ≠ Gt.
Proof.
  intros H1 H2 H3. assert (Hda : fwRank_compare d a = Lt) by (rewrite (tc_opp _ fwRank_total a d), H3; done).
  destruct (fwRank_compare a b) eqn:E; [| |done].
  - apply (tc_eq _ fwRank_total) in E. congruence.
  - apply H2. rewrite (tc_opp _ fwRank_total d b). by rewrite (tc_trans _ fwRank_total _ _ _ Hda E).
Qed.

#[export] Instance rank_le_total : Total rank_le.
Proof. intros a b. apply not_gt_total. Qed.

#[export] Instance rank_le_transitive : Transitive rank_le.
Proof. intros a b d. apply not_gt_trans. Qed.

(** ** Coverage is a preorder *)

Lemma same_top_trans w m n a b d :
  m ≤ n → same_top w m a b = true → same_top w n b d = true → same_top w m a d = true.
Proof.
  unfold same_top. rewrite !Z.eqb_eq. intros Hmn H1 H2. rewrite H1.
  assert (Hs : ∀ x, Z.shiftr x (w - m) = Z.shiftr (Z.shiftr x (w - n)) (n - m)).
  { intros x. rewrite Z.shiftr_shiftr by lia. f_equal. lia. }
  by rewrite Hs, H2, <-Hs.
Qed.

Lemma Contains_trans p q a :
  p_bits p ≤ p_bits q → Contains p (p_addr q) = true → Contains q a = true → Contains p a = true.
Proof.
  unfold Contains. rewrite !andb_true_iff. intros Hb [[_ Hf1] Ht1] [[Hz Hf2] Ht2].
  apply eqb_prop in Hf1. apply eqb_prop in Hf2. split; [split; [done|]|].
  - rewrite Hf1, Hf2. apply eqb_reflx.
  - assert (BitLen (p_addr q) = BitLen a) as HB by (unfold BitLen; by rewrite Hf2).
    rewrite HB in Ht1. eapply same_top_trans; eauto.
Qed.

(** The three tests of [covers] as one conjunction. *)
Definition proto_covers (a e : fwEntry) : Prop :=
  cr_Proto (e_rule a) = "" ∨
  (cr_Proto (e_rule a) = cr_Proto (e_rule e) ∧
   if decide (cr_Proto (e_rule a) = "ICMP")
   then optCovers (cr_ICMPType (e_rule a)) (cr_ICMPType (e_rule e)) = true ∧
        optCovers (cr_ICMPCode (e_rule a)) (cr_ICMPCode (e_rule e)) = true
   else portLo a ≤ portLo e ∧ portHi e ≤ portHi a).

Lemma covers_spec a e :
  covers a e = true ↔
    p_bits (e_prefix a) ≤ p_bits (e_prefix e) ∧ Contains (e_prefix a) (p_addr (e_prefix e)) = true ∧
    proto_covers a e.
Proof.
  unfold covers, proto_covers. split.
  - destruct (_ || _ || _) eqn:E; [done|]. apply orb_false_iff in E as [[_ Hb]%orb_false_iff Hc].
    intros H. split; [lia|]. split; [by apply negb_false_iff|].
    case_decide; [by left|right]. case_decide as Hn; [done|]. split; [done|].
    case_decide; apply andb_true_iff in H; [done|lia].
  - intros (Hb & Hc & Hp).
    assert (Bool.eqb (v6 a) (v6 e) = true) as ->.
    { unfold Contains in Hc. rewrite !andb_true_iff in Hc. destruct Hc as [[_ Hf] _]. apply eqb_prop in Hf.
      unfold v6, Is6. rewrite Hf. apply eqb_reflx. }
    rewrite Hc. replace (p_bits (e_prefix e) <? p_bits (e_prefix a)) with false by lia. cbn.
    destruct Hp as [Hp|[Hp Hm]]; [by rewrite decide_True|].
    destruct (decide (cr_Proto (e_rule a) = "")); [done|]. rewrite decide_False by tauto.
    case_decide; apply andb_true_iff; [done|lia].
Qed.

Lemma optCovers_trans a b d : optCovers a b = true → optCovers b d = true → optCovers a d = true.
Proof. destruct a, b, d; cbn; try done. lia. Qed.

Lemma covers_trans a b d : covers a b = true → covers b d = true → covers a d = true.
Proof.
  rewrite !covers_spec. intros (Hb1 & Hc1 & Hp1) (Hb2 & Hc2 & Hp2).
  split; [lia|]. split; [eapply Contains_trans; eauto|].
  unfold proto_covers in *. destruct Hp1 as [|[He1 Hm1]]; [by left|].
  destruct Hp2 as [He2|[He2 Hm2]]; [left; congruence|].
  destruct (decide (cr_Proto (e_rule a) = "")); [by left|right]. split; [congruence|].
  rewrite <-He1 in Hm2. case_decide; [|lia]. destruct Hm1, Hm2. split; eapply optCovers_trans; eauto.
Qed.

Lemma shadows_trans a b d : shadows a b = true → shadows b d = true → shadows a d = true.
Proof.
  unfold shadows. rewrite !andb_true_iff. intros [] []. split; [eapply precedes_trans|eapply covers_trans]; eauto.
Qed.

(** ** Shadow elimination *)

Abbreviation insert_all := (put_all shadows).
Abbreviation fw_settled := (settled shadows).

Lemma fwSet_insert_put e s : fwSet_insert e s = put shadows e s.
Proof. done. Qed.

Lemma shadows_irrefl e : shadows e e = false.
Proof. unfold shadows. by rewrite precedes_irrefl. Qed.

Lemma all_true {A : Type} (l : list A) : Forall (fun _ => True) l.
Proof. by apply Forall_true. Qed.

Lemma insert_all_settled l E s : fw_settled E s → fw_settled (E ++ l) (insert_all l s).
Proof.
  apply (put_all_settled shadows (fun _ => True)); [apply shadows_irrefl|eauto using shadows_trans|apply all_true].
Qed.

Lemma insert_all_NoDup l E s : fw_settled E s → NoDup s → NoDup (E ++ l) → NoDup (insert_all l s).
Proof.
  apply (put_all_NoDup shadows (fun _ => True)); [apply shadows_irrefl|eauto using shadows_trans|apply all_true].
Qed.

Lemma fw_settled_exact E s e : fw_settled E s → e ∈ s ↔ e ∈ E ∧ ∀ x, x ∈ E → shadows x e = false.
Proof. apply (settled_exact shadows (fun _ => True)); [eauto using shadows_trans|apply all_true]. Qed.

(** Distinct entries have distinct ranks. *)
Definition ranks_distinct (E : list fwEntry) : Prop := NoDup (e_rank <$> E).

Lemma ranks_inj E x y : ranks_distinct E → x ∈ E → y ∈ E → e_rank x = e_rank y → x = y.
Proof.
  unfold ranks_distinct. intros Hnd. induction E as [|e E IH]; [set_solver|]. cbn in Hnd. apply NoDup_cons in Hnd as [Hn Hnd].
  assert (Hin : ∀ z, z ∈ E → e_rank z ≠ e_rank e) by (intros z Hz Heq; apply Hn; rewrite <-Heq; by apply list_elem_of_fmap_2).
  intros [->|Hx]%elem_of_cons [->|Hy]%elem_of_cons Hr; auto; exfalso; eapply Hin; eauto.
Qed.

(** ** The highest-ranked match *)

Section best.
Context {A : Type} (rank : A → fwRank).

Definition by_rank (a b : A) : Prop := fwRank_compare (rank a) (rank b) ≠ Gt.

#[export] Instance by_rank_dec : RelDecision by_rank.
Proof. intros a b. unfold by_rank. apply _. Defined.

Lemma by_rank_precedes a b : by_rank a b ↔ precedes (rank b) (rank a) = false.
Proof.
  unfold by_rank, precedes. rewrite (tc_opp _ fwRank_total (rank a) (rank b)).
  destruct (fwRank_compare (rank a) (rank b)); naive_solver.
Qed.

#[export] Instance by_rank_total : Total by_rank.
Proof. intros a b. apply not_gt_total. Qed.

#[export] Instance by_rank_trans : Transitive by_rank.
Proof. intros a b d. apply not_gt_trans. Qed.

Context (P : A → bool).

Definition best (l : list A) (x : A) : Prop :=
  x ∈ l ∧ P x = true ∧ ∀ y, y ∈ l → P y = true → by_rank x y.

Lemma find_sorted l : StronglySorted by_rank l →
  match List.find P l with
  | Some x => best l x
  | None => ∀ y, y ∈ l → P y = false
  end.
Proof.
  induction 1 as [|x l Hs IH Hx]; cbn; [set_solver|]. destruct (P x) eqn:HP.
  - split_and!; [by left|done|]. intros y [->|Hy]%elem_of_cons _; [|by eapply Forall_forall in Hx].
    apply by_rank_precedes, precedes_irrefl.
  - destruct (List.find P l) as [z|].
    + destruct IH as (Hz & HPz & Hle). split_and!; [by right|done|].
      intros y [->|Hy]%elem_of_cons HPy; [congruence|by apply Hle].
    + intros y [->|Hy]%elem_of_cons; auto.
Qed.

Lemma find_merge_sort l :
  match List.find P (merge_sort by_rank l) with
  | Some x => best l x
  | None => ∀ y, y ∈ l → P y = false
  end.
Proof.
  pose proof (find_sorted (merge_sort by_rank l)) as H.
  assert (Hp : ∀ y, y ∈ merge_sort by_rank l ↔ y ∈ l) by (intros y; by rewrite (merge_sort_Permutation by_rank l)).
  destruct (List.find P _).
  - destruct H as (H1 & H2 & H3); [apply StronglySorted_merge_sort; apply _|]. split_and!; [by apply Hp|done|].
    intros y Hy. apply H3. by apply Hp.
  - intros y Hy. apply H; [apply StronglySorted_merge_sort; apply _|by apply Hp].
Qed.

End best.

(** ** What rules mean

    A packet as a rule sees it: the peer's address (the source of an ingress
    packet, the destination of an egress one) and the transport's selectors.  A
    rule matches when every selector it sets agrees, as the API types document. *)

Inductive Transport :=
| TCP (dport : Z)
| UDP (dport : Z)
| ICMP (type code : Z)
| OtherProto.

Record Packet := mkPacket { peer : Addr; transport : Transport }.

Definition opt_is (o : option Z) (v : Z) : bool := match o with None => true | Some x => x =? v end.

Definition in_ports (port : Z) (endPort : option Z) (d : Z) : bool :=
  (port =? 0) || ((port <=? d) && (d <=? default port endPort)).

Definition proto_is (proto name : string) : bool := bool_decide (proto = "") || bool_decide (proto = name).

Definition selector_matches (proto : string) (port : Z) (endPort icmpType icmpCode : option Z) (t : Transport) : bool :=
  match t with
  | TCP d => proto_is proto "TCP" && in_ports port endPort d && bool_decide (icmpType = None)
  | UDP d => proto_is proto "UDP" && in_ports port endPort d && bool_decide (icmpType = None)
  | ICMP ty c => proto_is proto "ICMP" && (port =? 0) && opt_is icmpType ty && opt_is icmpCode c
  | OtherProto => bool_decide (proto = "") && (port =? 0) && bool_decide (icmpType = None)
  end.

Definition cidr_matches (cidr : string) (a : Addr) : bool :=
  match ParsePrefix cidr with Some p => Contains p a | None => false end.

Definition policy_rule_matches (r : FirewallPolicyRule) (pkt : Packet) : bool :=
  cidr_matches (CIDR r) (peer pkt) &&
  selector_matches (Proto r) (Port r) (EndPort r) (ICMPType r) (ICMPCode r) (transport pkt).

Definition compiled_matches (r : CompiledFwRule) (pkt : Packet) : bool :=
  cidr_matches (cr_CIDR r) (peer pkt) &&
  selector_matches (cr_Proto r) (cr_Port r) (if cr_EndPort r =? 0 then None else Some (cr_EndPort r))
    (cr_ICMPType r) (cr_ICMPCode r) (transport pkt).

(** The verdict of a compiled list: the first match decides, no match denies. *)
Definition verdict (l : list CompiledFwRule) (pkt : Packet) : bool :=
  match List.find (fun r => compiled_matches r pkt) l with
  | Some r => bool_decide (cr_Action r = "Allow")
  | None => false
  end.

(** ** Entries of admitted rules *)

Record entry_ok (e : fwEntry) : Prop := {
  eo_prefix : ParsePrefix (cr_CIDR (e_rule e)) = Some (e_prefix e);
  eo_proto : known_proto (cr_Proto (e_rule e)) = true;
  eo_action : cr_Action (e_rule e) = "Allow" ∨ cr_Action (e_rule e) = "Deny";
  eo_port : 0 ≤ cr_Port (e_rule e);
  eo_any : cr_Port (e_rule e) = 0 → portLo e = 0 ∧ portHi e = 65535;
  eo_range : cr_Port (e_rule e) ≠ 0 →
    portLo e = cr_Port (e_rule e) ∧
    portHi e = default (cr_Port (e_rule e)) (if cr_EndPort (e_rule e) =? 0 then None else Some (cr_EndPort (e_rule e)));
  eo_port_proto : cr_Port (e_rule e) ≠ 0 → cr_Proto (e_rule e) = "TCP" ∨ cr_Proto (e_rule e) = "UDP";
  eo_icmp : cr_ICMPType (e_rule e) ≠ None → cr_Proto (e_rule e) = "ICMP";
  eo_code : cr_ICMPCode (e_rule e) ≠ None → cr_ICMPType (e_rule e) ≠ None;
  eo_port_max : cr_Port (e_rule e) ≤ 65535;
  eo_end : cr_EndPort (e_rule e) = 0 ∨ (0 < cr_Port (e_rule e) < cr_EndPort (e_rule e) ∧ cr_EndPort (e_rule e) ≤ 65535);
  eo_type_octet t : cr_ICMPType (e_rule e) = Some t → 0 ≤ t ≤ 255;
  eo_code_octet c : cr_ICMPCode (e_rule e) = Some c → 0 ≤ c ≤ 255
}.

Lemma app_nil_inv {A : Type} (l k : list A) : l ++ k = [] → l = [] ∧ k = [].
Proof. by destruct l. Qed.

(** What passing admission says of a rule. *)
Record admitted (r : FirewallPolicyRule) : Prop := {
  ad_cidr : ∃ p, ParsePrefix (CIDR r) = Some p ∧ Masked p = p;
  ad_action : Action r = "Allow" ∨ Action r = "Deny";
  ad_proto : known_proto (Proto r) = true;
  ad_port : 0 ≤ Port r ≤ 65535;
  ad_port_proto : Port r ≠ 0 → Proto r = "TCP" ∨ Proto r = "UDP";
  ad_end ep : EndPort r = Some ep → Port r ≠ 0 ∧ Port r ≤ ep ≤ 65535;
  ad_type t : ICMPType r = Some t → Proto r = "ICMP";
  ad_code c : ICMPCode r = Some c → ICMPType r ≠ None;
  ad_type_octet t : ICMPType r = Some t → 0 ≤ t ≤ 255;
  ad_code_octet c : ICMPCode r = Some c → 0 ≤ c ≤ 255
}.

Lemma validate_admitted r path : validateFirewallRule r path = [] → admitted r.
Proof.
  unfold validateFirewallRule. intros [H1 [H2 [H3 [H4 [H5 [H6 _]%app_nil_inv]%app_nil_inv]%app_nil_inv]%app_nil_inv]%app_nil_inv]%app_nil_inv.
  unfold validate_icmp in H6. apply app_nil_inv in H6 as [H6 H7].
  assert (Hk : known_proto (Proto r) = true) by (by destruct (known_proto (Proto r))).
  unfold validate_cidr in H1. unfold validate_action in H2. unfold validate_port in H4. unfold validate_endport in H5.
  rewrite Hk in H4, H6. split.
  - destruct (decide (CIDR r = "")); [done|]. destruct (ParsePrefix (CIDR r)) as [p|]; [|done]. exists p.
    by destruct (decide (Masked p = p)).
  - destruct (decide (Action r ∈ _)) as [Ha|]; [set_solver|]. by destruct (decide (Action r = "")).
  - done.
  - destruct (_ || _) eqn:E in H4; [done|]. lia.
  - intros Hp. destruct (_ || _) in H4; [done|]. replace (Port r =? 0) with false in H4 by lia. cbn in H4.
    destruct (decide (Proto r = "TCP")); [by left|]. destruct (decide (Proto r = "UDP")); [by right|].
    by rewrite !bool_decide_eq_false_2 in H4 by done.
  - intros ep He. rewrite He in H5. destruct (_ || _) eqn:E in H5; [done|].
    destruct (Port r =? 0) eqn:E1; [done|]. destruct (ep <? Port r) eqn:E2; [done|]. lia.
  - intros t Ht. rewrite Ht in H6. destruct (_ || _) in H6; [done|]. cbn in H6. apply dec_stable. intros Hn.
    by rewrite bool_decide_eq_false_2 in H6.
  - intros c Hc. rewrite Hc in H7. destruct (_ || _) in H7; [done|]. intros Hn. by rewrite bool_decide_eq_true_2 in H7.
  - intros t Ht. rewrite Ht in H6. destruct (_ || _) eqn:E in H6; [done|]. lia.
  - intros c Hc. rewrite Hc in H7. destruct (_ || _) eqn:E in H7; [done|]. lia.
Qed.

(** Admitted rules become entries, with the meaning unchanged. *)
Lemma newFwEntry_admitted r k :
  admitted r → ∃ e, newFwEntry r k = inr e ∧ entry_ok e ∧ e_rank e = k ∧ cr_Action (e_rule e) = Action r ∧
    ∀ pkt, compiled_matches (e_rule e) pkt = policy_rule_matches r pkt.
Proof.
  intros [(p & Hp & Hm) Ha Hk Hpt Hpp He Ht Hc Hto Hco]. unfold newFwEntry. rewrite Hp, Hk.
  assert (negb (bool_decide (Action r = "Allow")) && negb (bool_decide (Action r = "Deny")) = false) as ->.
  { destruct Ha as [-> | ->]; done. }
  cbn [negb]. set (trip := if Port r =? 0 then _ else _).
  assert (Htrip : ∃ lo hi ep, trip = (lo, hi, ep) ∧ (Port r = 0 → lo = 0 ∧ hi = 65535 ∧ EndPort r = None ∧ ep = 0) ∧
    (ep = 0 ∨ 0 < Port r < ep ∧ ep ≤ 65535) ∧ (Port r ≠ 0 → lo = Port r ∧ hi = default (Port r) (EndPort r) ∧ hi = default (Port r) (if ep =? 0 then None else Some ep))).
  { subst trip. destruct (Port r =? 0) eqn:E0.
    - eexists _, _, _. split; [done|]. split; [|split; [by left|lia]]. intros _. split_and!; try done.
      destruct (EndPort r) eqn:E; [|done]. destruct (He _ eq_refl). lia.
    - destruct (EndPort r) as [ep|] eqn:E; [destruct (He _ eq_refl) as [_ Hle]; destruct (Port r <? ep) eqn:E1|];
        eexists _, _, _; (split; [done|]); (split; [lia|]); (split; [lia|]); intros _; cbn; split_and!; try lia.
      replace (ep =? 0) with false by lia. done. }
  destruct Htrip as (lo & hi & ep & -> & H0 & Hep & H1). eexists. split; [done|].
  assert (Hcode : (match ICMPType r with Some _ => ICMPCode r | None => None end) = ICMPCode r).
  { destruct (ICMPType r) eqn:E; [done|]. destruct (ICMPCode r) eqn:E'; [|done]. by destruct (Hc _ eq_refl). }
  rewrite Hcode. split_and!; cbn [e_rank e_rule cr_Action]; try done.
  - split; cbn; rewrite ?Hm; try done; try lia; try tauto.
    + destruct (ICMPType r); [eauto|done].
    + destruct (ICMPCode r); [eauto|done].
  - intros pkt. unfold compiled_matches, policy_rule_matches. cbn [cr_CIDR cr_Proto cr_Port cr_EndPort cr_ICMPType cr_ICMPCode].
    f_equal. assert (Hin : ∀ d, in_ports (Port r) (if ep =? 0 then None else Some ep) d = in_ports (Port r) (EndPort r) d).
    { intros d. unfold in_ports. destruct (Port r =? 0) eqn:E0; [done|]. destruct H1 as (_ & <- & <-); [lia|done]. }
    unfold selector_matches. destruct (transport pkt); by rewrite ?Hin.
Qed.

Lemma optCovers_is a e v : optCovers a e = true → opt_is e v = true → opt_is a v = true.
Proof. destruct a, e; cbn; try done. lia. Qed.

(** No port outside TCP and UDP, no message type outside ICMP. *)
Lemma entry_any_port e :
  entry_ok e → cr_Proto (e_rule e) ≠ "TCP" → cr_Proto (e_rule e) ≠ "UDP" → cr_Port (e_rule e) = 0.
Proof. intros He H1 H2. destruct (decide (cr_Port (e_rule e) = 0)); [done|]. by destruct (eo_port_proto e He). Qed.

Lemma entry_any_icmp e :
  entry_ok e → cr_Proto (e_rule e) ≠ "ICMP" → cr_ICMPType (e_rule e) = None ∧ cr_ICMPCode (e_rule e) = None.
Proof.
  intros He Hn. assert (cr_ICMPType (e_rule e) = None) as Ht.
  { apply dec_stable. intros H. by apply Hn, (eo_icmp e He). }
  split; [done|]. apply dec_stable. intros H. by apply (eo_code e He).
Qed.

Lemma ports_cover a e d :
  entry_ok a → entry_ok e → portLo a ≤ portLo e → portHi e ≤ portHi a →
  let ends r := if cr_EndPort r =? 0 then None else Some (cr_EndPort r) in
  in_ports (cr_Port (e_rule e)) (ends (e_rule e)) d = true → in_ports (cr_Port (e_rule a)) (ends (e_rule a)) d = true.
Proof.
  intros Ha He Hlo Hhi ends. subst ends. cbv beta. unfold in_ports.
  destruct (cr_Port (e_rule a) =? 0) eqn:E1; [done|]. destruct (eo_range a Ha) as [A1 <-]; [lia|].
  pose proof (eo_port a Ha). destruct (cr_Port (e_rule e) =? 0) eqn:E2.
  - destruct (eo_any e He); lia.
  - destruct (eo_range e He) as [B1 <-]; [lia|]. cbn. lia.
Qed.

(** Coverage implies inclusion of the matched packets. *)
Lemma covers_matches a e pkt :
  entry_ok a → entry_ok e → covers a e = true →
  compiled_matches (e_rule e) pkt = true → compiled_matches (e_rule a) pkt = true.
Proof.
  intros Ha He (Hb & Hc & Hp)%covers_spec.
  unfold compiled_matches, cidr_matches. rewrite (eo_prefix a Ha), (eo_prefix e He), !andb_true_iff. intros [Hx Hs].
  split; [eapply Contains_trans; eauto|]. destruct (decide (cr_Proto (e_rule a) = "")) as [H0|H0].
  { destruct (entry_any_icmp a Ha) as [-> ->]; [by rewrite H0|].
    rewrite (entry_any_port a Ha), H0 by (by rewrite H0). by destruct (transport pkt). }
  destruct Hp as [|[Hp Hm]]; [done|]. destruct (decide (cr_Proto (e_rule a) = "ICMP")) as [Hi|Hi].
  - rewrite (entry_any_port a Ha), Hi by (by rewrite Hi). rewrite <-Hp, Hi in Hs. unfold selector_matches in *.
    destruct (transport pkt); try done. rewrite !andb_true_iff in *. destruct Hs as [[[_ _] H1] H2], Hm.
    split; [split; [done|]|]; eapply optCovers_is; eauto.
  - destruct (entry_any_icmp a Ha Hi) as [-> ->]. rewrite <-Hp in Hs. unfold selector_matches, proto_is in *.
    rewrite (bool_decide_eq_false_2 (_ = "")), (bool_decide_eq_false_2 (_ = "ICMP")) in * by done.
    destruct (transport pkt); try done; rewrite !andb_true_iff in *; destruct Hs as [[Hpr Hd] _];
      (split; [split; [done|]|done]); eapply ports_cover; eauto; lia.
Qed.

(** ** The reference: policies decide by rank *)

Section reference.
Context {L : Type} (LabelSelectorAsSelector : L → option (gmap string string → bool)).
Implicit Types (pol : FirewallPolicy L) (pols : list (FirewallPolicy L)).

(** The rules of one direction of a policy with their ranks, from index [i]. *)
Fixpoint numbered pol (i : Z) (l : list FirewallPolicyRule) : list (fwRank * FirewallPolicyRule) :=
  match l with
  | [] => []
  | r :: l => (rule_rank pol r i, r) :: numbered pol (i + 1) l
  end.

(** All the rules of one direction that apply to an interface. *)
Definition applying (nicLabels : gmap string string) (dir : FirewallPolicy L → list FirewallPolicyRule)
    (pols : list (FirewallPolicy L)) : list (fwRank * FirewallPolicyRule) :=
  pols ≫= (fun pol => if selects LabelSelectorAsSelector nicLabels pol then numbered pol 0 (dir pol) else []).

(** The highest-ranked rule that matches decides; otherwise the VPC's default:
    [Allow] or [Deny] as given, and without one a direction is open unless some
    rule applies to it. *)
Definition policy_verdict (nicLabels : gmap string string) (dir : FirewallPolicy L → list FirewallPolicyRule)
    (pols : list (FirewallPolicy L)) (defaultPolicy : option string) (pkt : Packet) : bool :=
  let rs := applying nicLabels dir pols in
  match List.find (fun kr => policy_rule_matches kr.2 pkt) (merge_sort (by_rank fst) rs) with
  | Some (_, r) => bool_decide (Action r = "Allow")
  | None => match defaultPolicy with
            | Some d => bool_decide (d = "Allow")
            | None => bool_decide (length rs = 0%nat)
            end
  end.

(** The entries of ranked rules. *)
Definition entries_of (rs : list (fwRank * FirewallPolicyRule)) (es : list fwEntry) : Prop :=
  Forall2 (fun kr e => newFwEntry kr.2 kr.1 = inr e) rs es.

Lemma insert_rules_all pol dir i l s :
  match insert_rules pol dir i l s with
  | inr s' => ∃ es, entries_of (numbered pol i l) es ∧ s' = insert_all es s
  | inl (InvalidRule _ _ _ _ err) => ∃ kr, kr ∈ numbered pol i l ∧ newFwEntry kr.2 kr.1 = inl err
  | inl _ => False
  end.
Proof.
  revert i s. induction l as [|r l IH]; intros i s; cbn; [exists []; split; [constructor|done]|].
  destruct (newFwEntry r (rule_rank pol r i)) as [err|e] eqn:E.
  - exists (rule_rank pol r i, r). split; [by left|done].
  - specialize (IH (i + 1) (fwSet_insert e s)). destruct (insert_rules pol dir (i + 1) l _) as [[]|s'].
    + destruct IH as (kr & Hk & He). exists kr. split; [by right|done].
    + done.
    + destruct IH as (es & Hes & ->). exists (e :: es). split; [by constructor|done].
Qed.

Lemma insert_policies_all nicLabels pols ing eg :
  match insert_policies LabelSelectorAsSelector nicLabels pols ing eg with
  | inr (ing', eg') => ∃ ei ee, entries_of (applying nicLabels Ingress pols) ei ∧ entries_of (applying nicLabels Egress pols) ee ∧
      ing' = insert_all ei ing ∧ eg' = insert_all ee eg
  | inl (InvalidRule _ _ _ _ err) => ∃ kr, (kr ∈ applying nicLabels Ingress pols ∨ kr ∈ applying nicLabels Egress pols) ∧
      newFwEntry kr.2 kr.1 = inl err
  | inl _ => False
  end.
Proof.
  revert ing eg. induction pols as [|pol pols IH]; intros ing eg; cbn.
  { exists [], []. split_and!; try done; constructor. }
  unfold applying in *. cbn. destruct (selects _ nicLabels pol); [|apply IH].
  pose proof (insert_rules_all pol "ingress" 0 (Ingress pol) ing) as Hi.
  destruct (insert_rules pol "ingress" 0 _ _) as [[]|ing1]; [|done|].
  { destruct Hi as (kr & Hk & He). exists kr. split; [left; apply elem_of_app; by left|done]. }
  pose proof (insert_rules_all pol "egress" 0 (Egress pol) eg) as Hg.
  destruct (insert_rules pol "egress" 0 _ _) as [[]|eg1]; [|done|].
  { destruct Hg as (kr & Hk & He). exists kr. split; [right; apply elem_of_app; by left|done]. }
  destruct Hi as (e1 & H1 & ->), Hg as (e2 & H2 & ->).
  specialize (IH (insert_all e1 ing) (insert_all e2 eg)).
  destruct (insert_policies _ nicLabels pols _ _) as [[]|[ing' eg']]; [|done|].
  - destruct IH as (kr & [Hk|Hk] & He); exists kr; (split; [|done]); [left|right]; apply elem_of_app; by right.
  - destruct IH as (ei & ee & Hi & He & -> & ->). exists (e1 ++ ei), (e2 ++ ee).
    rewrite !put_all_app. split_and!; try done; by apply Forall2_app.
Qed.

(** *** Admitted policies *)

Context (ValidateLabelSelector : L → string → list FieldError).

Definition policies_admitted pols : Prop := Forall (fun pol => Validate ValidateLabelSelector pol = []) pols.

Lemma validate_rules_admitted path i l : validate_rules path i l = [] → Forall admitted l.
Proof.
  revert i. induction l as [|r l IH]; intros i; cbn; [constructor|].
  intros [H1 H2]%app_nil_inv. constructor; [by eapply validate_admitted|by eapply IH].
Qed.

Lemma validate_priority_le p path : validateFirewallPriority p path = [] → priorityOr p ≤ FirewallPriorityMax.
Proof.
  unfold validateFirewallPriority, priorityOr, FirewallPriorityMax, FirewallPriorityMin, FirewallPriorityDefault.
  destruct p as [v|]; cbn; [|lia]. destruct (_ || _) eqn:E; [done|lia].
Qed.

Lemma numbered_elem pol i l k r :
  (k, r) ∈ numbered pol i l → ∃ j, i ≤ j ∧ k = rule_rank pol r j ∧ r ∈ l.
Proof.
  revert i. induction l as [|x l IH]; intros i; cbn; [by intros ?%elem_of_nil|].
  intros [[= -> ->]|H]%elem_of_cons.
  - exists i. split_and!; [lia|done|by left].
  - destruct (IH _ H) as (j & Hj & -> & Hr). exists j. split_and!; [lia|done|by right].
Qed.

(** A rule that applies comes from an admitted policy. *)
Lemma applying_admitted nicLabels dir pols k r :
  dir = Ingress ∨ dir = Egress → policies_admitted pols → (k, r) ∈ applying nicLabels dir pols →
  admitted r ∧ rk_policy k ≤ FirewallPriorityMax ∧ (∃ pol j, pol ∈ pols ∧ k = rule_rank pol r j).
Proof.
  intros Hdir Hall (pol & Hin & Hpol)%list_elem_of_bind. unfold policies_admitted in Hall. rewrite Forall_forall in Hall.
  destruct (selects _ nicLabels pol); [|by apply elem_of_nil in Hin].
  apply numbered_elem in Hin as (j & _ & -> & Hr). specialize (Hall pol Hpol). unfold Validate in Hall.
  apply app_nil_inv in Hall as [_ [Hp [Hi He]%app_nil_inv]%app_nil_inv].
  split_and!; [|by eapply validate_priority_le|by eauto].
  destruct Hdir as [-> | ->]; [apply validate_rules_admitted in Hi|apply validate_rules_admitted in He];
    by eapply Forall_forall in Hr.
Qed.

(** Policies are objects: no two share a namespace and a name. *)
Definition policies_distinct pols : Prop := NoDup ((fun pol => (Namespace pol, Name pol)) <$> pols).

Lemma numbered_ranks pol i l : NoDup (numbered pol i l).*1.
Proof.
  revert i. induction l as [|r l IH]; intros i; cbn; constructor; [|apply IH].
  intros ([k r'] & Hk & Hin)%list_elem_of_fmap. apply numbered_elem in Hin as (j & Hj & -> & _). cbn in Hk.
  injection Hk. lia.
Qed.

Lemma applying_ranks nicLabels dir pols :
  policies_distinct pols → NoDup (applying nicLabels dir pols).*1.
Proof.
  unfold policies_distinct, applying. induction pols as [|pol pols IH]; cbn; [constructor|].
  intros [Hn Hnd]%NoDup_cons. rewrite fmap_app. apply NoDup_app. split_and!; [|..|by apply IH].
  - destruct (selects _ _ pol); [apply numbered_ranks|constructor].
  - intros k ([? r] & -> & Hin)%list_elem_of_fmap ([k' r'] & Hk & Hin')%list_elem_of_fmap. cbn in Hk. subst k'.
    destruct (selects _ _ pol); [|by apply elem_of_nil in Hin].
    apply list_elem_of_bind in Hin' as (pol' & Hin' & Hpol'). destruct (selects _ _ pol'); [|by apply elem_of_nil in Hin'].
    apply numbered_elem in Hin as (j & _ & -> & _). apply numbered_elem in Hin' as (j' & _ & Heq & _).
    injection Heq as _ _ H1 H2 _. apply Hn. rewrite H1, H2. by apply (list_elem_of_fmap_2 (fun pol => (Namespace pol, Name pol))).
Qed.

End reference.

(** ** One direction *)

(** An address a packet can carry: no zone, a value of its family's width. *)
Definition packet_ok (pkt : Packet) : Prop :=
  Zone (peer pkt) = "" ∧ 0 ≤ bits_of (peer pkt) < 2 ^ BitLen (peer pkt).

Definition hits (pkt : Packet) (e : fwEntry) : bool := compiled_matches (e_rule e) pkt.

(** The allow-all entries of the default. *)
Definition implicit_entry (is4 : bool) : fwEntry :=
  mkEntry (mkCompiledFwRule (if is4 then "0.0.0.0/0" else "::/0") "" 0 0 None None "Allow")
    (mkPrefix (if is4 then Addr4 0 else Addr6 0 "") 0) 0 65535 (implicitRank (if is4 then 0 else 1)).

Definition implicit_entries : list fwEntry := [implicit_entry true; implicit_entry false].

Definition open_by_default (dp : option string) (s : fwSet) : bool :=
  (bool_decide (dp = None) && bool_decide (s = [])) || bool_decide (dp = Some "Allow").

Lemma add_default_eq dp s :
  add_default dp s = if open_by_default dp s then insert_all implicit_entries s else s.
Proof.
  unfold add_default, open_by_default. destruct (_ || _); [|done].
  assert (∀ b : bool, newFwEntry (any_rule (if b then "0.0.0.0/0" else "::/0")) (implicitRank (if b then 0 else 1)) = inr (implicit_entry b)) as H
    by (intros []; vm_compute; reflexivity).
  pose proof (H true) as H4. pose proof (H false) as H6. cbv iota in H4, H6. cbn [foldl]. by rewrite H4, H6.
Qed.

Lemma implicit_entry_ok b : entry_ok (implicit_entry b).
Proof. destruct b; split; try done; (vm_compute; reflexivity) || (cbn; tauto) || (intros; cbn in *; lia) || (intros; cbn in *; congruence). Qed.

Lemma implicit_hits pkt : packet_ok pkt → hits pkt (implicit_entry (Is4 (peer pkt))) = true.
Proof.
  intros [Hz Hb]. unfold hits, compiled_matches, cidr_matches. rewrite (eo_prefix _ (implicit_entry_ok _)).
  apply andb_true_iff. split; [|by destruct (Is4 (peer pkt)), (transport pkt)].
  unfold Contains, same_top. rewrite bool_decide_eq_true_2 by done.
  unfold BitLen in *. destruct (Is4 (peer pkt)); cbn [eqb andb implicit_entry e_prefix p_bits p_addr bits_of];
    rewrite Z.sub_0_r, !Z.shiftr_div_pow2, !Z.div_small by lia; done.
Qed.

(** The survivors' highest-ranked match is the whole input's. *)
Lemma settled_best E s pkt :
  fw_settled E s → Forall entry_ok E →
  match List.find (hits pkt) (merge_sort rank_le s) with
  | Some x => best e_rank (hits pkt) E x
  | None => ∀ y, y ∈ E → hits pkt y = false
  end.
Proof.
  intros Hs Hok. rewrite Forall_forall in Hok. pose proof (find_merge_sort e_rank (hits pkt) s) as Hf.
  change (merge_sort (by_rank e_rank) s) with (merge_sort rank_le s) in Hf.
  assert (Hup : ∀ y, y ∈ E → hits pkt y = true → ∃ x, x ∈ s ∧ hits pkt x = true ∧ by_rank e_rank x y).
  { intros y Hy Hm. destruct (st_cover _ _ _ Hs y Hy) as [Hin|(x & Hx & [Hp Hc]%andb_true_iff)].
    - exists y. split_and!; try done. apply by_rank_precedes, precedes_irrefl.
    - exists x. split_and!; [done|apply (covers_matches x y); auto; apply Hok, (st_from _ _ _ Hs x Hx)|].
      apply precedes_spec in Hp. unfold by_rank. by rewrite Hp. }
  destruct (List.find _ _) as [x|].
  - destruct Hf as (Hx & Hm & Hle). split_and!; [by eapply st_from|done|].
    intros y Hy Hym. destruct (Hup y Hy Hym) as (z & Hz & Hzm & Hzy). etrans; eauto.
  - intros y Hy. destruct (hits pkt y) eqn:Hm; [|done]. destruct (Hup y Hy Hm) as (x & Hx & Hxm & _).
    rewrite Hf in Hxm; done.
Qed.

Lemma verdict_rules s pkt :
  verdict (fwSet_rules s) pkt =
    match List.find (hits pkt) (merge_sort rank_le s) with
    | Some e => bool_decide (cr_Action (e_rule e) = "Allow")
    | None => false
    end.
Proof.
  unfold verdict, fwSet_rules. induction (merge_sort rank_le s) as [|e l IH]; csimpl; [done|].
  fold (hits pkt e). by destruct (hits pkt e).
Qed.

(** Ranked rules and the entries made of them. *)
Record lowered (rs : list (fwRank * FirewallPolicyRule)) (es : list fwEntry) : Prop := {
  lo_ok : Forall entry_ok es;
  lo_ranks : e_rank <$> es = rs.*1;
  lo_to k r : (k, r) ∈ rs → ∃ e, e ∈ es ∧ e_rank e = k ∧ cr_Action (e_rule e) = Action r ∧
    ∀ pkt, compiled_matches (e_rule e) pkt = policy_rule_matches r pkt;
  lo_from e : e ∈ es → ∃ r, (e_rank e, r) ∈ rs ∧ ∀ pkt, compiled_matches (e_rule e) pkt = policy_rule_matches r pkt
}.

Lemma entries_lowered rs es : Forall (fun kr => admitted kr.2) rs → entries_of rs es → lowered rs es.
Proof.
  intros Had Hes. induction Hes as [|[k r] e rs es He Hes IH]; [split; try constructor; set_solver|].
  apply Forall_cons in Had as [Hr Had]. destruct (IH Had) as [I1 I2 I3 I4].
  destruct (newFwEntry_admitted r k Hr) as (e' & He' & Hok & Hrk & Hact & Hm). cbn in He. rewrite He in He'.
  injection He' as <-. split.
  - by constructor.
  - cbn. by rewrite Hrk, I2.
  - intros k' r' [[= -> ->]|H]%elem_of_cons.
    + exists e. split_and!; try done. by left.
    + destruct (I3 _ _ H) as (x & Hx & Hrest). exists x. split; [by right|done].
  - intros x [->|Hx]%elem_of_cons.
    + exists r. rewrite Hrk. split; [by left|done].
    + destruct (I4 x Hx) as (r' & Hr' & Hm'). exists r'. split; [by right|done].
Qed.

Lemma lowered_ranks rs es (b : bool) :
  lowered rs es → NoDup rs.*1 → Forall (fun kr => rk_policy kr.1 ≤ FirewallPriorityMax) rs →
  ranks_distinct (es ++ (if b then implicit_entries else [])).
Proof.
  intros Hl Hnd Hp. unfold ranks_distinct. rewrite fmap_app, (lo_ranks _ _ Hl). apply NoDup_app. split_and!; [done| |].
  - intros k ([k' r] & -> & Hk)%list_elem_of_fmap Hin. rewrite Forall_forall in Hp. specialize (Hp _ Hk). cbn in *.
    destruct b; cbn in Hin; rewrite ?elem_of_cons, ?elem_of_nil in Hin; [|done].
    destruct Hin as [-> | [-> | []]]; cbn in Hp; lia.
  - destruct b; cbn; [|constructor]. repeat constructor; set_solver.
Qed.

Section direction.
Context (rs : list (fwRank * FirewallPolicyRule)) (es : list fwEntry) (dp : option string).
Context (Hl : lowered rs es) (Hnd : NoDup rs.*1)
  (Hpri : Forall (fun kr => rk_policy kr.1 ≤ FirewallPriorityMax) rs).

Let b := open_by_default dp (insert_all es []).
Let E := es ++ (if b then implicit_entries else []).

Lemma direction_settled : fw_settled E (add_default dp (insert_all es [])).
Proof.
  rewrite add_default_eq. fold b. subst E. pose proof (insert_all_settled es [] [] (settled_nil _)) as Hs. cbn in Hs.
  destruct b; [by apply insert_all_settled|by rewrite app_nil_r].
Qed.

Lemma direction_entry_ok : Forall entry_ok E.
Proof.
  apply Forall_app. split; [apply Hl|]. destruct b; [|constructor].
  unfold implicit_entries. rewrite !Forall_cons. split_and!; [apply implicit_entry_ok..|constructor].
Qed.

(** A rule outranks the default. *)
Lemma rule_before_default e y :
  e ∈ es → y ∈ implicit_entries → by_rank e_rank e y.
Proof.
  intros He Hy. destruct (lo_from _ _ Hl e He) as (r & Hr & _). rewrite Forall_forall in Hpri. specialize (Hpri _ Hr). cbn in Hpri.
  assert (Hlt : (rk_policy (e_rank e) ?= FirewallPriorityMax + 1) = Lt) by (apply Z.compare_lt_iff; lia).
  unfold by_rank, fwRank_compare. unfold implicit_entries in Hy.
  apply elem_of_cons in Hy as [-> | ->%list_elem_of_singleton]; cbn [implicit_entry implicitRank e_rank rk_policy];
    by rewrite Hlt.
Qed.

Lemma direction_open : b = match dp with Some d => bool_decide (d = "Allow") | None => bool_decide (length rs = 0%nat) end.
Proof.
  subst b. unfold open_by_default. destruct dp as [d|]; cbn.
  - apply bool_decide_ext. naive_solver.
  - rewrite (bool_decide_eq_false_2 (None = Some "Allow")), orb_false_r by done. apply bool_decide_ext.
    assert (length rs = length es) as ->.
    { rewrite <-(length_fmap fst rs), <-(lo_ranks _ _ Hl). apply length_fmap. }
    split.
    + intros Hs. by rewrite (settled_nonempty _ es (insert_all es []) (insert_all_settled es [] [] (settled_nil _)) Hs).
    + by intros ->%nil_length_inv.
Qed.

Lemma direction_verdict pkt :
  packet_ok pkt →
  verdict (fwSet_rules (add_default dp (insert_all es []))) pkt =
    match List.find (fun kr => policy_rule_matches kr.2 pkt) (merge_sort (by_rank fst) rs) with
    | Some (_, r) => bool_decide (Action r = "Allow")
    | None => match dp with Some d => bool_decide (d = "Allow") | None => bool_decide (length rs = 0%nat) end
    end.
Proof.
  intros Hpk. rewrite verdict_rules. pose proof (settled_best E _ pkt direction_settled direction_entry_ok) as HB.
  pose proof (find_merge_sort fst (fun kr => policy_rule_matches kr.2 pkt) rs) as HR. rewrite <-direction_open.
  assert (Hrs : ∀ y, y ∈ es → hits pkt y = true → ∃ r, (e_rank y, r) ∈ rs ∧ policy_rule_matches r pkt = true).
  { intros y Hy Hm. destruct (lo_from _ _ Hl y Hy) as (r & Hr & Heq). exists r. split; [done|]. by rewrite <-Heq. }
  destruct (List.find _ (merge_sort (by_rank fst) rs)) as [[k r]|].
  - destruct HR as (Hin & Hm & Hle). destruct (lo_to _ _ Hl k r Hin) as (e & He & Hk & <- & Heq). cbn in Hm.
    rewrite <-Heq in Hm. change (hits pkt e = true) in Hm. assert (HeE : e ∈ E) by (apply elem_of_app; by left).
    destruct (List.find (hits pkt) _) as [x|]; [|by rewrite (HB e HeE) in Hm].
    destruct HB as (Hx & Hxm & Hxle). assert (x = e) as ->; [|done].
    apply (ranks_inj E); [by apply (lowered_ranks rs)|done|done|]. apply rank_le_antisym; [by apply Hxle|].
    apply elem_of_app in Hx as [Hx|Hx].
    + destruct (Hrs x Hx Hxm) as (r' & Hr' & Hm'). unfold rank_le. rewrite Hk. apply (Hle _ Hr' Hm').
    + apply rule_before_default; [done|]. by destruct b; [|apply elem_of_nil in Hx].
  - assert (Hno : ∀ y, y ∈ es → hits pkt y = true → False).
    { intros y Hy Hm. destruct (Hrs y Hy Hm) as (r & Hr & Hm'). specialize (HR _ Hr). cbn in HR. congruence. }
    destruct (List.find (hits pkt) _) as [x|].
    + destruct HB as (Hx & Hxm & _). subst E. apply elem_of_app in Hx as [Hx|Hx]; [by destruct (Hno x)|].
      destruct b; [|by apply elem_of_nil in Hx].
      unfold implicit_entries in Hx. by apply elem_of_cons in Hx as [-> | ->%list_elem_of_singleton].
    + subst E. destruct b; [|done]. rewrite <-(HB (implicit_entry (Is4 (peer pkt)))); [by rewrite implicit_hits|].
      apply elem_of_app. right. destruct (Is4 (peer pkt)); [left|right; left].
Qed.

End direction.

(** ** The compiled lists *)

Section compiled.
Context {L : Type} (LabelSelectorAsSelector : L → option (gmap string string → bool)).
Context (ValidateLabelSelector : L → string → list FieldError).
Implicit Types (pols : list (FirewallPolicy L)).

Abbreviation compile := (CompileFirewall LabelSelectorAsSelector).

Lemma applying_Forall nicLabels dir pols :
  dir = Ingress ∨ dir = Egress → policies_admitted ValidateLabelSelector pols →
  Forall (fun kr => admitted kr.2) (applying LabelSelectorAsSelector nicLabels dir pols) ∧
  Forall (fun kr => rk_policy kr.1 ≤ FirewallPriorityMax) (applying LabelSelectorAsSelector nicLabels dir pols).
Proof.
  intros Hd Ha. rewrite !Forall_forall. split; intros [k r] Hk; by destruct (applying_admitted _ _ _ _ _ _ _ Hd Ha Hk) as (? & ? & _).
Qed.

(** The two sets of a compilation of admitted policies. *)
Lemma compile_admitted nicLabels pols :
  policies_admitted ValidateLabelSelector pols →
  ∃ ei ee, insert_policies LabelSelectorAsSelector nicLabels pols [] [] = inr (insert_all ei [], insert_all ee []) ∧
    entries_of (applying LabelSelectorAsSelector nicLabels Ingress pols) ei ∧
    entries_of (applying LabelSelectorAsSelector nicLabels Egress pols) ee ∧
    lowered (applying LabelSelectorAsSelector nicLabels Ingress pols) ei ∧
    lowered (applying LabelSelectorAsSelector nicLabels Egress pols) ee.
Proof.
  intros Ha. pose proof (insert_policies_all LabelSelectorAsSelector nicLabels pols [] []) as H.
  destruct (applying_Forall nicLabels Ingress pols (or_introl eq_refl) Ha) as [Hi _].
  destruct (applying_Forall nicLabels Egress pols (or_intror eq_refl) Ha) as [Hg _]. rewrite !Forall_forall in *.
  destruct (insert_policies _ _ _ _ _) as [[]|[ing eg]]; [|done|].
  - destruct H as ([k r] & Hk & Herr). exfalso.
    assert (admitted r) as Hr by (destruct Hk as [Hk|Hk]; [apply (Hi _ Hk)|apply (Hg _ Hk)]).
    destruct (newFwEntry_admitted r k Hr) as (e & He & _). cbn in Herr. congruence.
  - destruct H as (ei & ee & H1 & H2 & -> & ->). exists ei, ee.
    split_and!; try done; (apply entries_lowered; [by apply Forall_forall|done]).
Qed.

(** How many rules of a compiled firewall are of one family. *)
Definition family_count (fw : CompiledFirewall) (is6 : bool) : Z :=
  let of_family r := match ParsePrefix (cr_CIDR r) with Some p => Bool.eqb (Is6 (p_addr p)) is6 | None => false end in
  Z.of_nat (length (List.filter of_family (cf_Ingress fw ++ cf_Egress fw))).

Lemma length_filter_ext {A : Type} (P Q : A → bool) l : (∀ x, x ∈ l → P x = Q x) → length (List.filter P l) = length (List.filter Q l).
Proof. intros H. f_equal. apply filter_ext_in. intros x Hx. apply H. by apply list_elem_of_In. Qed.

Lemma filter_fmap {A B : Type} (f : A → B) (P : B → bool) l : List.filter P (f <$> l) = f <$> List.filter (fun x => P (f x)) l.
Proof. induction l as [|x l IH]; csimpl; [done|]. destruct (P (f x)); csimpl; by rewrite IH. Qed.

Lemma length_filter_perm {A : Type} (P : A → bool) l k : l ≡ₚ k → length (List.filter P l) = length (List.filter P k).
Proof. induction 1; cbn; repeat case_match; cbn; congruence. Qed.

Lemma count_rules s is6 :
  Forall entry_ok s →
  Z.of_nat (length (List.filter (fun r => match ParsePrefix (cr_CIDR r) with
    | Some p => Bool.eqb (Is6 (p_addr p)) is6 | None => false end) (fwSet_rules s))) = fwSet_count s is6.
Proof.
  intros Hok. unfold fwSet_rules, fwSet_count. rewrite filter_fmap, length_fmap. f_equal.
  rewrite (length_filter_perm _ _ _ (merge_sort_Permutation rank_le s)). apply length_filter_ext.
  intros e He. rewrite Forall_forall in Hok. by rewrite (eo_prefix e (Hok e He)).
Qed.

Lemma direction_kept rs es dp : lowered rs es → Forall entry_ok (add_default dp (insert_all es [])).
Proof.
  intros Hl. apply Forall_forall. intros e He%(st_from _ _ _ (direction_settled es dp)).
  by eapply Forall_forall in He; [|apply (direction_entry_ok rs es dp Hl)].
Qed.

(** *** Independence of the list order *)

Lemma lowered_NoDup rs es b :
  lowered rs es → NoDup rs.*1 → Forall (fun kr => rk_policy kr.1 ≤ FirewallPriorityMax) rs →
  NoDup (es ++ (if b : bool then implicit_entries else [])).
Proof. intros. eapply NoDup_fmap_1. by apply (lowered_ranks rs). Qed.

Lemma direction_NoDup rs es dp :
  lowered rs es → NoDup rs.*1 → Forall (fun kr => rk_policy kr.1 ≤ FirewallPriorityMax) rs →
  NoDup (add_default dp (insert_all es [])).
Proof.
  intros Hl Hnd Hp. rewrite add_default_eq. pose proof (lowered_NoDup rs es (open_by_default dp (insert_all es [])) Hl Hnd Hp) as H.
  pose proof (insert_all_settled es [] [] (settled_nil _)) as Hs. cbn in Hs.
  assert (NoDup (insert_all es [])).
  { apply (insert_all_NoDup es []); [apply settled_nil|constructor|]. by apply NoDup_app in H as [? _]. }
  case_match; [|done]. by apply (insert_all_NoDup _ es).
Qed.

Lemma direction_perm rs es rs' es' dp :
  lowered rs es → lowered rs' es' → es ≡ₚ es' → NoDup rs.*1 → NoDup rs'.*1 →
  Forall (fun kr => rk_policy kr.1 ≤ FirewallPriorityMax) rs → Forall (fun kr => rk_policy kr.1 ≤ FirewallPriorityMax) rs' →
  add_default dp (insert_all es []) ≡ₚ add_default dp (insert_all es' []).
Proof.
  intros Hl Hl' Hp Hnd Hnd' Hf Hf'. apply NoDup_Permutation; [by eapply direction_NoDup..|]. intros e.
  rewrite (fw_settled_exact _ _ e (direction_settled es dp)), (fw_settled_exact _ _ e (direction_settled es' dp)).
  rewrite (direction_open rs es dp Hl), (direction_open rs' es' dp Hl').
  assert (length rs = length rs') as ->.
  { rewrite <-(length_fmap fst rs), <-(length_fmap fst rs'), <-(lo_ranks _ _ Hl), <-(lo_ranks _ _ Hl'), !length_fmap. by apply Permutation_length. }
  by setoid_rewrite Hp.
Qed.

Lemma rules_perm s s' : ranks_distinct s → s ≡ₚ s' → fwSet_rules s = fwSet_rules s'.
Proof.
  intros Hr Hp. unfold fwSet_rules. f_equal.
  apply (StronglySorted_unique_strong rank_le).
  - intros x y Hx Hy Hxy Hyx. rewrite merge_sort_Permutation in Hx, Hy. rewrite <-Hp in Hy.
    by apply (ranks_inj s); auto; apply rank_le_antisym.
  - apply StronglySorted_merge_sort; apply _.
  - apply StronglySorted_merge_sort; apply _.
  - by rewrite !merge_sort_Permutation.
Qed.

Lemma entries_omap rs es :
  entries_of rs es → es = omap (fun kr => match newFwEntry kr.2 kr.1 with inr e => Some e | inl _ => None end) rs.
Proof. induction 1 as [|kr e rs es He _ IH]; csimpl; [done|]. by rewrite He, IH. Qed.

Lemma entries_perm rs rs' es es' : rs ≡ₚ rs' → entries_of rs es → entries_of rs' es' → es ≡ₚ es'.
Proof. intros Hp ->%entries_omap ->%entries_omap. by rewrite Hp. Qed.

Lemma applying_perm nicLabels dir pols pols' :
  pols ≡ₚ pols' → applying LabelSelectorAsSelector nicLabels dir pols ≡ₚ applying LabelSelectorAsSelector nicLabels dir pols'.
Proof. intros Hp. unfold applying. by rewrite Hp. Qed.

Lemma ranks_distinct_sub E s : ranks_distinct E → NoDup s → (∀ e, e ∈ s → e ∈ E) → ranks_distinct s.
Proof.
  intros HE Hs Hsub. unfold ranks_distinct. induction Hs as [|e s Hn Hs IH]; cbn; constructor; [|apply IH; set_solver].
  intros (x & Hr & Hx)%list_elem_of_fmap. apply Hn. rewrite (ranks_inj E e x HE); [done|set_solver..|done].
Qed.

(** One direction under two orders of the same policies. *)
Lemma direction_order nicLabels dir pols pols' es es' dp :
  dir = Ingress ∨ dir = Egress → policies_admitted ValidateLabelSelector pols → policies_distinct pols → pols ≡ₚ pols' →
  let rs := applying LabelSelectorAsSelector nicLabels dir pols in
  let rs' := applying LabelSelectorAsSelector nicLabels dir pols' in
  entries_of rs es → entries_of rs' es' → lowered rs es → lowered rs' es' →
  let s := add_default dp (insert_all es []) in let s' := add_default dp (insert_all es' []) in
  fwSet_rules s = fwSet_rules s' ∧ ∀ is6, fwSet_count s is6 = fwSet_count s' is6.
Proof.
  intros Hdir Ha Hd Hp rs rs' He He' Hl Hl' s s'.
  assert (Ha' : policies_admitted ValidateLabelSelector pols') by (unfold policies_admitted; by rewrite <-Hp).
  assert (Hd' : policies_distinct pols') by (unfold policies_distinct; by rewrite <-Hp).
  destruct (applying_Forall nicLabels dir pols Hdir Ha) as [_ Hf]. destruct (applying_Forall nicLabels dir pols' Hdir Ha') as [_ Hf'].
  pose proof (applying_ranks LabelSelectorAsSelector nicLabels dir pols Hd) as Hnd.
  pose proof (applying_ranks LabelSelectorAsSelector nicLabels dir pols' Hd') as Hnd'.
  assert (Hs : s ≡ₚ s').
  { apply (direction_perm rs es rs' es'); auto. apply (entries_perm rs rs'); auto. by apply applying_perm. }
  split.
  - apply rules_perm; [|done]. apply (ranks_distinct_sub _ s (lowered_ranks rs es (open_by_default dp (insert_all es [])) Hl Hnd Hf)).
    + by eapply direction_NoDup.
    + intros e. apply (st_from _ _ _ (direction_settled es dp)).
  - intros is6. unfold fwSet_count. f_equal. by apply length_filter_perm.
Qed.

(** *** The theorems *)

Lemma verdict_compiled nicLabels pols dp fw pkt :
  policies_admitted ValidateLabelSelector pols → policies_distinct pols → packet_ok pkt →
  compile nicLabels pols dp = inr fw →
  verdict (cf_Ingress fw) pkt = policy_verdict LabelSelectorAsSelector nicLabels Ingress pols dp pkt ∧
  verdict (cf_Egress fw) pkt = policy_verdict LabelSelectorAsSelector nicLabels Egress pols dp pkt.
Proof.
  intros Ha Hd Hpk Hc. destruct (compile_admitted nicLabels pols Ha) as (ei & ee & Hs & _ & _ & Hli & Hle).
  unfold CompileFirewall in Hc. rewrite Hs in Hc. repeat (case_match; try done). injection Hc as <-.
  cbn [cf_Ingress cf_Egress]. split; (apply direction_verdict; [done|by apply applying_ranks| |done]);
    (eapply applying_Forall; [|done]); auto.
Qed.

(** C20. The compiled firewall decides every packet as the policies do: for
    admitted policies with distinct names, when compilation succeeds, the first
    match of the compiled ingress (egress) list gives the verdict of the
    highest-ranked applying rule that matches, or the VPC's default. *)
Theorem CompileFirewall_verdict nicLabels pols dp fw pkt :
  policies_admitted ValidateLabelSelector pols → policies_distinct pols → packet_ok pkt →
  compile nicLabels pols dp = inr fw →
  verdict (cf_Ingress fw) pkt = policy_verdict LabelSelectorAsSelector nicLabels Ingress pols dp pkt ∧
  verdict (cf_Egress fw) pkt = policy_verdict LabelSelectorAsSelector nicLabels Egress pols dp pkt.
Proof. apply verdict_compiled. Qed.

(** Compiling admitted policies never reports an invalid rule: it yields at
    most [FirewallRuleBudget] rules per address family, both directions together,
    or reports a count above the budget. *)
Theorem CompileFirewall_admitted nicLabels pols dp :
  policies_admitted ValidateLabelSelector pols →
  match compile nicLabels pols dp with
  | inr fw => ∀ is6, family_count fw is6 ≤ FirewallRuleBudget
  | inl (RuleBudgetExceeded n _) => FirewallRuleBudget < n
  | inl (InvalidRule _ _ _ _ _) => False
  end.
Proof.
  intros Ha. destruct (compile_admitted nicLabels pols Ha) as (ei & ee & Hs & _ & _ & Hli & Hle).
  unfold CompileFirewall. rewrite Hs. cbv zeta. do 2 (match goal with |- context [FirewallRuleBudget <? ?n] => destruct (Z.ltb_spec FirewallRuleBudget n) end; [done|]).
  intros is6. unfold family_count.
  cbn [cf_Ingress cf_Egress]. rewrite List.filter_app, length_app, Nat2Z.inj_add, !count_rules by (by eapply direction_kept).
  destruct is6; lia.
Qed.

(** The compiled firewall does not depend on the order policies are listed in. *)
Theorem CompileFirewall_order nicLabels pols pols' dp :
  policies_admitted ValidateLabelSelector pols → policies_distinct pols → pols ≡ₚ pols' →
  compile nicLabels pols dp = compile nicLabels pols' dp.
Proof.
  intros Ha Hd Hp. destruct (compile_admitted nicLabels pols Ha) as (ei & ee & Hs & Hi & He & Hli & Hle).
  destruct (compile_admitted nicLabels pols') as (ei' & ee' & Hs' & Hi' & He' & Hli' & Hle').
  { unfold policies_admitted. by rewrite <-Hp. }
  unfold CompileFirewall. rewrite Hs, Hs'.
  destruct (direction_order nicLabels Ingress pols pols' ei ei' dp) as [-> Hci]; auto.
  destruct (direction_order nicLabels Egress pols pols' ee ee' dp) as [-> Hce]; auto.
  by rewrite !Hci, !Hce.
Qed.

End compiled.

(** ** A concrete interface *)

Module Demo.

(** A selector is one label and its value. *)
Definition as_selector (sel : string * string) : option (gmap string string → bool) :=
  Some (fun labels => bool_decide (labels !! sel.1 = Some sel.2)).
Definition validate_selector (sel : string * string) (path : string) : list FieldError := [].

Definition rule (cidr proto : string) (port : Z) (endPort : option Z) (action : string) (p : option Z) : FirewallPolicyRule :=
  mkPolicyRule cidr proto port endPort None None action p.

(** The second rule's deny is ranked above the first; the third is shadowed. *)
Definition web : FirewallPolicy (string * string) :=
  mkPolicy "shop" "web" (Some ("role", "web")) (Some 100)
    [rule "10.0.0.0/8" "TCP" 80 (Some 90) "Allow" None;
     rule "10.1.0.0/16" "TCP" 80 None "Deny" (Some 10);
     rule "10.2.0.0/16" "TCP" 85 None "Allow" None] [].
Definition lockdown : FirewallPolicy (string * string) :=
  mkPolicy "shop" "lockdown" (Some ("role", "web")) None [rule "10.0.0.0/8" "" 0 None "Deny" None] [].
Definition labels : gmap string string := {["role" := "web"]}.
Definition pkt : Packet := mkPacket (Addr4 167837953) (TCP 80).

Lemma all_admitted : policies_admitted validate_selector [web; lockdown].
Proof. constructor; [|constructor; [|constructor]]; vm_compute; reflexivity. Qed.

Lemma all_distinct : policies_distinct [web; lockdown].
Proof. unfold policies_distinct. cbn. repeat constructor; set_solver. Qed.

Lemma pkt_ok : packet_ok pkt.
Proof. split; [done|]. cbn. lia. Qed.

End Demo.

Lemma CompileFirewall_verdict_witness :
  match CompileFirewall Demo.as_selector Demo.labels [Demo.web; Demo.lockdown] None with
  | inr fw => verdict (cf_Ingress fw) Demo.pkt = policy_verdict Demo.as_selector Demo.labels Ingress [Demo.web; Demo.lockdown] None Demo.pkt
  | inl _ => False
  end.
Proof.
  destruct (CompileFirewall Demo.as_selector Demo.labels [Demo.web; Demo.lockdown] None) as [err|fw] eqn:E.
  - vm_compute in E. discriminate.
  - exact (proj1 (CompileFirewall_verdict Demo.as_selector Demo.validate_selector _ _ _ fw Demo.pkt
      Demo.all_admitted Demo.all_distinct Demo.pkt_ok E)).
Defined.

Lemma CompileFirewall_admitted_witness :
  match CompileFirewall Demo.as_selector Demo.labels [Demo.web; Demo.lockdown] None with
  | inr fw => family_count fw false ≤ FirewallRuleBudget
  | inl _ => False
  end.
Proof.
  pose proof (CompileFirewall_admitted Demo.as_selector Demo.validate_selector Demo.labels [Demo.web; Demo.lockdown] None Demo.all_admitted) as H.
  destruct (CompileFirewall Demo.as_selector Demo.labels [Demo.web; Demo.lockdown] None) as [err|fw] eqn:E; [vm_compute in E; discriminate|exact (H false)].
Defined.

Lemma CompileFirewall_order_witness :
  CompileFirewall Demo.as_selector Demo.labels [Demo.web; Demo.lockdown] None =
  CompileFirewall Demo.as_selector Demo.labels [Demo.lockdown; Demo.web] None.
Proof.
  apply (CompileFirewall_order Demo.as_selector Demo.validate_selector); [exact Demo.all_admitted|exact Demo.all_distinct|].
  apply perm_swap.
Defined.

(** ** A rule covered by two others together *)

(** Both halves of a /24 are allowed above a rule that denies it all. *)
Definition halves : FirewallPolicy (string * string) :=
  mkPolicy "shop" "halves" (Some ("role", "web")) None
    [Demo.rule "10.0.0.0/25" "" 0 None "Allow" None;
     Demo.rule "10.0.0.128/25" "" 0 None "Allow" None;
     Demo.rule "10.0.0.0/24" "" 0 None "Deny" None] [].

Lemma halves_cover a :
  Contains (mkPrefix (Addr4 167772160) 24) a = true →
  Contains (mkPrefix (Addr4 167772160) 25) a = true ∨ Contains (mkPrefix (Addr4 167772288) 25) a = true.
Proof.
  unfold Contains, same_top. cbn [p_addr p_bits Is4 bits_of]. destruct (bool_decide (Zone a = "")), a as [v|v z]; cbn [Bool.eqb Is4 andb]; try done.
  unfold BitLen. cbn [Is4 bits_of]. rewrite !Z.eqb_eq, !Z.shiftr_div_pow2 by lia.
  change (2 ^ (32 - 24)) with 256. change (2 ^ (32 - 25)) with 128. intros H.
  pose proof (Z.div_mod v 256). pose proof (Z.mod_pos_bound v 256). pose proof (Z.div_mod v 128). pose proof (Z.mod_pos_bound v 128).
  change (167772160 `div` 256) with 655360 in *. change (167772160 `div` 128) with 1310720. change (167772288 `div` 128) with 1310721. lia.
Qed.

(** Shadowing removes a rule one higher rule covers, not one that several
    cover together: the compiled list keeps a rule that is never the first match
    of any packet. *)
Theorem union_shadow_kept :
  ∃ dead, match CompileFirewall Demo.as_selector Demo.labels [halves] None with
  | inr fw => dead ∈ cf_Ingress fw ∧
      ∀ pkt, List.find (fun r => compiled_matches r pkt) (cf_Ingress fw) ≠ Some dead
  | inl _ => False
  end.
Proof.
  set (r cidr act := mkCompiledFwRule cidr "" 0 0 None None act). exists (r "10.0.0.0/24" "Deny").
  assert (CompileFirewall Demo.as_selector Demo.labels [halves] None =
    inr (mkCompiledFirewall [r "10.0.0.0/25" "Allow"; r "10.0.0.128/25" "Allow"; r "10.0.0.0/24" "Deny"]
          [r "0.0.0.0/0" "Allow"; r "::/0" "Allow"])) as -> by (vm_compute; reflexivity).
  cbn [cf_Ingress]. split; [set_solver|]. intros pkt. cbn [List.find].
  destruct (compiled_matches (r "10.0.0.0/25" "Allow") pkt) eqn:H1; [intros [=]|].
  destruct (compiled_matches (r "10.0.0.128/25" "Allow") pkt) eqn:H2; [intros [=]|].
  destruct (compiled_matches (r "10.0.0.0/24" "Deny") pkt) eqn:H3; [|done]. exfalso.
  assert (Hsel : ∀ cidr act, compiled_matches (r cidr act) pkt = cidr_matches cidr (peer pkt)).
  { intros cidr act. unfold compiled_matches. cbn. destruct (transport pkt); apply andb_true_r. }
  rewrite Hsel in H1, H2, H3. unfold cidr_matches in *.
  assert (∀ s p, ParsePrefix s = Some p → match ParsePrefix s with Some p => Contains p (peer pkt) | None => false end = Contains p (peer pkt)) as Hp
    by (intros s p Hs; by rewrite Hs).
  rewrite (Hp _ (mkPrefix (Addr4 167772160) 24)) in H3 by (vm_compute; reflexivity).
  rewrite (Hp _ (mkPrefix (Addr4 167772160) 25)) in H1 by (vm_compute; reflexivity).
  rewrite (Hp _ (mkPrefix (Addr4 167772288) 25)) in H2 by (vm_compute; reflexivity).
  destruct (halves_cover _ H3); congruence.
Qed.
