(* ===== verification/FwClass.v ===== *)
(** * The datapath's firewall classifier

    The dataplane turns an interface's first-match rule list into tries a packet
    is classified with in a constant number of lookups.  Module [fwclass] models
    the compiler ([flowplane-control/src/fwclass.rs] and [ports.rs]), the shared
    encodings ([flowplane-common/src/maps/fwclass.rs], [fw.rs]), the evaluator
    ([flowplane-core/src/firewall.rs] and the header readers of [parse.rs]) and the
    first-match reference evaluator the repository tests the classifier against
    ([flowplane-sim/src/fw_oracle.rs]).  Arrays of bytes are lists of [Z]; the
    IPv4 and IPv6 forms of a type differ only in the length of the addresses and
    are one definition.  The longest-prefix-match trie is a kernel map: [Lpm]
    states what it promises, and the simulator's lookup implements it. *)

From S2P Require Import Prelude.

Open Scope Z_scope.

Module fwclass.

Definition FW_DIR_INGRESS : Z := 0.
Definition FW_DIR_EGRESS : Z := 1.
Definition FW_ACTION_DROP : Z := 0.
Definition FW_ACTION_ACCEPT : Z := 1.
Definition FW_CLASS_ANY : Z := 0.
Definition FW_SCOPE_NONE : Z := 0.
Definition FW_SCOPE_MAX_CLASSES : Z := 4096.
Definition FW_SCOPE_MAX_ENTRIES : Z := 16384.
Definition FW_POL_PREFIX_CLASS : Z := 32.
Definition FW_POL_PREFIX_PROTO : Z := 40.
Definition FW_PREC_ALLOW : Z := 1.
Definition FW_PREC_DENY : Z := 255.
Definition FW_RANK_MAX : Z := 16777215.

Definition IPPROTO_ICMP : Z := 1.
Definition IPPROTO_TCP : Z := 6.
Definition IPPROTO_UDP : Z := 17.
Definition IPPROTO_ICMPV6 : Z := 58.

Definition u8 (z : Z) : Z := z `mod` 256.
Definition u16 (z : Z) : Z := z `mod` 65536.

(** [FwRule] and [FwRule6]. *)
Record FwRule := mkFwRule {
  src_ip : list Z;
  src_mask : list Z;
  dst_ip : list Z;
  dst_mask : list Z;
  src_port_min : Z;
  src_port_max : Z;
  dst_port_min : Z;
  dst_port_max : Z;
  icmp_type : Z;
  icmp_code : Z;
  fr_proto : Z;
  action : Z;
  direction : Z;
  enabled : Z
}.

(** ** Precedence *)

Definition fw_precedence (rank : Z) (allow : bool) : Z :=
  let r := if FW_RANK_MAX <? rank then FW_RANK_MAX else rank in
  let verdict := if allow then FW_PREC_ALLOW else FW_PREC_DENY in
  Z.lor (u32 (Z.shiftl (FW_RANK_MAX - r) 8)) verdict.

Definition fw_precedence_allows (precedence : Z) : bool := Z.land precedence 255 =? FW_PREC_ALLOW.

(** ** Bits of byte arrays *)

(** [(len as i32 - 8 * i as i32).clamp(0, 8)] *)
Definition byte_bits (len i : Z) : Z := Z.max 0 (Z.min 8 (len - 8 * i)).

(** [if bits == 0 { 0 } else { 0xffu8 << (8 - bits) }] *)
Definition byte_mask (bits : Z) : Z := if bits =? 0 then 0 else u8 (Z.shiftl 255 (8 - bits)).

Definition count_ones (b : Z) : Z := Z.of_nat (length (List.filter (Z.testbit b) (seqZ 0 8))).

Definition prefix_len (mask : list Z) : option Z :=
  let ones := foldr Z.add 0 (count_ones <$> mask) in
  if forallb id (imap (fun i b => b =? byte_mask (byte_bits ones (Z.of_nat i))) mask)
  then Some (u8 ones) else None.

Definition masked (addr : list Z) (len : Z) : list Z :=
  imap (fun i b => Z.land b (byte_mask (byte_bits len (Z.of_nat i)))) addr.

(** [bits_match]; the index is in range wherever it is called. *)
Definition bits_match (a b : list Z) (len : Z) : bool :=
  let full := Z.to_nat (len / 8) in
  if decide (take full a = take full b) then
    let rem := len mod 8 in
    (rem =? 0) || (Z.land (Z.lxor (a !!! full) (b !!! full)) (u8 (Z.shiftl 255 (8 - rem))) =? 0)
  else false.

(** ** Port ranges as prefixes *)

Definition trailing_zeros (z : Z) : Z := default 32 (list_find (fun i => Z.testbit z i = true) (seqZ 0 32) ≫= fun p => Some p.2).

(** [while lo + size - 1 > hi { size >>= 1; }]; a size is at most [2^16]. *)
Fixpoint shrink (fuel : nat) (lo hi size : Z) : Z :=
  match fuel with
  | O => size
  | S fuel => if hi <? lo + size - 1 then shrink fuel lo hi (Z.shiftr size 1) else size
  end.

Definition block_size (lo hi : Z) : Z :=
  shrink 17 lo hi (if lo =? 0 then Z.shiftl 1 16 else Z.land lo (u32 (- lo))).

(** The loop; every round advances [lo]. *)
Fixpoint port_loop (fuel : nat) (lo hi : Z) : list (Z * Z) :=
  match fuel with
  | O => []
  | S fuel =>
      if lo <=? hi then
        let size := block_size lo hi in
        (u16 lo, 16 - trailing_zeros size) :: port_loop fuel (lo + size) hi
      else []
  end.

Definition port_prefixes (lo hi : Z) : list (Z * Z) := port_loop (Z.to_nat (hi - lo + 1)) lo hi.

(** [port_prefix_count]: the same loop, counting. *)
Fixpoint count_loop (fuel : nat) (lo hi n : Z) : Z :=
  match fuel with
  | O => n
  | S fuel => if lo <=? hi then count_loop fuel (lo + block_size lo hi) hi (n + 1) else n
  end.

Definition port_prefix_count (lo hi : Z) : Z := count_loop (Z.to_nat (hi - lo + 1)) lo hi 0.

(** [u16::to_be_bytes] *)
Definition be16 (v : Z) : list Z := [u8 (Z.shiftr v 8); u8 v].

(** [u32::to_ne_bytes] on a little-endian machine; [u32::to_le_bytes], [u64]. *)
Definition le32 (v : Z) : list Z := [u8 v; u8 (Z.shiftr v 8); u8 (Z.shiftr v 16); u8 (Z.shiftr v 24)].

(** ** Reading a rule *)

Inductive FwError :=
| UnknownInterface
| Unsupported (what : string)
| ScopeTooLarge (family what : string) (count : Z)
| MapError.

Inductive Selector :=
| Any
| Ports (lo hi : Z)
| Icmp (t : Z) (c : option Z).

Record Parsed := mkParsed { p_peer : list Z; p_len : Z; p_proto : Z; p_sel : Selector; p_allow : bool }.

Record RuleView := mkView {
  v_src : list Z;
  v_src_mask : list Z;
  v_dst : list Z;
  v_dst_mask : list Z;
  v_sports : Z * Z;
  v_dports : Z * Z;
  v_icmp : Z * Z;
  v_proto : Z;
  v_allow : bool;
  v_enabled : bool
}.

(** [view4] and [view6]. *)
Definition view (r : FwRule) : RuleView :=
  mkView (src_ip r) (src_mask r) (dst_ip r) (dst_mask r)
    (src_port_min r, src_port_max r) (dst_port_min r, dst_port_max r)
    (icmp_type r, icmp_code r) (fr_proto r)
    (action r =? FW_ACTION_ACCEPT) (negb (enabled r =? 0)).

(** The selector of a rule; [inr None] is a rule that never matches. *)
Definition parse_sel (r : RuleView) (icmp_proto : Z) : FwError + option Selector :=
  let '(dlo, dhi) := v_dports r in
  let '(t, c) := v_icmp r in
  if (v_proto r =? 6) || (v_proto r =? 17) then
    if dhi <? dlo then inr None
    else if (dlo =? 0) && (dhi =? 65535) then inr (Some Any)
    else inr (Some (Ports dlo dhi))
  else if v_proto r =? icmp_proto then
    if (t =? 65535) && (c =? 65535) then inr (Some Any)
    else if t =? 65535 then inl (Unsupported "an ICMP code without a type")
    else if 255 <? t then inl (Unsupported "an ICMP type above 255")
    else if c =? 65535 then inr (Some (Icmp (u8 t) None))
    else if 255 <? c then inl (Unsupported "an ICMP code above 255")
    else inr (Some (Icmp (u8 t) (Some (u8 c))))
  else if (v_proto r =? 0) &&
          (negb ((dlo =? 0) && (dhi =? 65535)) || negb ((t =? 65535) && (c =? 65535)))
  then inl (Unsupported "ports or ICMP selectors on an any-protocol rule")
  else inr (Some Any).

Definition parse (r : RuleView) (dir icmp_proto : Z) : FwError + option Parsed :=
  if negb (v_enabled r) then inr None
  else
    let '(peer, peer_mask, local_mask) :=
      if dir =? FW_DIR_EGRESS then (v_dst r, v_dst_mask r, v_src_mask r)
      else (v_src r, v_src_mask r, v_dst_mask r) in
    if existsb (fun b => negb (b =? 0)) local_mask
    then inl (Unsupported "a rule matching the interface's own address")
    else if negb ((fst (v_sports r) =? 0) && (snd (v_sports r) =? 65535))
    then inl (Unsupported "a source-port restriction")
    else match prefix_len peer_mask with
         | None => inl (Unsupported "a non-contiguous peer mask")
         | Some len =>
             match parse_sel r icmp_proto with
             | inl e => inl e
             | inr None => inr None
             | inr (Some sel) => inr (Some (mkParsed (masked peer len) len (v_proto r) sel (v_allow r)))
             end
         end.

(** ** Policy entries *)

Record FwPolKey := mkPolKey { k_class : Z; k_proto : Z; k_port : list Z }.

Record Entry := mkEntry { plen : Z; key : FwPolKey; prec : Z }.

(** [Entry::bytes], and the simulator's [pol_key_bytes]. *)
Definition key_bytes (k : FwPolKey) : list Z := le32 (k_class k) ++ [k_proto k] ++ k_port k.

Definition covers (e other : Entry) : bool :=
  (plen e <=? plen other) && bits_match (key_bytes (key e)) (key_bytes (key other)) (plen e).

Definition insert (entries : list Entry) (e : Entry) : list Entry :=
  if existsb (fun x => (prec e <? prec x) && covers x e) entries then entries
  else List.filter (fun x => negb ((prec x <? prec e) && covers e x)) entries ++ [e].

(** ** Compiling one family *)

(** [ScopeTries]: the class trie and the policy trie. *)
Record ScopeTries := mkTries {
  classes : list (list Z * Z * Z);
  policy : list (Z * FwPolKey * Z)
}.

(** Lexicographic order on byte arrays. *)
Fixpoint bytes_le (a b : list Z) : bool :=
  match a, b with
  | [], _ => true
  | _ :: _, [] => false
  | x :: a, y :: b => (x <? y) || ((x =? y) && bytes_le a b)
  end.

(** The order of [sort_by(|a, b| (a.1, a.0).cmp(&(b.1, b.0)))]. *)
Definition prefix_le (a b : list Z * Z) : Prop :=
  ((a.2 <? b.2) || ((a.2 =? b.2) && bytes_le a.1 b.1)) = true.

#[export] Instance prefix_le_dec : RelDecision prefix_le.
Proof. intros a b. unfold prefix_le. apply _. Defined.

(** [Vec::dedup]: drop an element equal to the one before it. *)
Fixpoint dedup (l : list (list Z * Z)) : list (list Z * Z) :=
  match l with
  | [] => []
  | x :: l => match dedup l with
              | [] => [x]
              | y :: l' => if decide (x = y) then y :: l' else x :: y :: l'
              end
  end.

Definition prefixes_of (rules : list Parsed) : list (list Z * Z) :=
  dedup (merge_sort prefix_le ((fun r => (p_peer r, p_len r)) <$> List.filter (fun r => 0 <? p_len r) rules)).

Definition number_classes (prefixes : list (list Z * Z)) : list (list Z * Z * Z) :=
  imap (fun i p => (p.1, p.2, Z.of_nat i + 1)) prefixes.

Definition targets_of (classes : list (list Z * Z * Z)) (r : Parsed) : list Z :=
  if p_len r =? 0 then [FW_CLASS_ANY]
  else (fun c => c.2) <$> List.filter (fun c => (p_len r <=? c.1.2) && bits_match c.1.1 (p_peer r) (p_len r)) classes.

Definition suffixes_of (r : Parsed) : list (Z * list Z) :=
  if p_proto r =? 0 then [(FW_POL_PREFIX_CLASS, [0; 0])]
  else match p_sel r with
       | Any => [(FW_POL_PREFIX_PROTO, [0; 0])]
       | Ports lo hi => (fun vb => (FW_POL_PREFIX_PROTO + vb.2, be16 vb.1)) <$> port_prefixes lo hi
       | Icmp t None => [(FW_POL_PREFIX_PROTO + 8, [t; 0])]
       | Icmp t (Some c) => [(FW_POL_PREFIX_PROTO + 16, [t; c])]
       end.

(** The loop body over one target class, and over one rule at its rank. *)
Definition add_class (r : Parsed) (prec : Z) (class : Z) (by_class : gmap Z (list Entry)) : gmap Z (list Entry) :=
  <[class := foldl (fun b s => insert b (mkEntry s.1 (mkPolKey class (p_proto r) s.2) prec))
               (default [] (by_class !! class)) (suffixes_of r)]> by_class.

Definition add_rule (classes : list (list Z * Z * Z)) (rank : Z) (r : Parsed)
    (by_class : gmap Z (list Entry)) : gmap Z (list Entry) :=
  foldl (fun m c => add_class r (fw_precedence (u32 rank) (p_allow r)) c m) by_class (targets_of classes r).

Fixpoint add_rules (classes : list (list Z * Z * Z)) (rank : Z) (rules : list Parsed)
    (by_class : gmap Z (list Entry)) : gmap Z (list Entry) :=
  match rules with
  | [] => by_class
  | r :: rules => add_rules classes (rank + 1) rules (add_rule classes rank r by_class)
  end.

(** The order of [sort_by_key(|(plen, k, _)| (k.class, *plen, k.proto, k.port))]. *)
Definition policy_le (a b : Z * FwPolKey * Z) : Prop :=
  bytes_le ([k_class a.1.2; a.1.1; k_proto a.1.2] ++ k_port a.1.2)
           ([k_class b.1.2; b.1.1; k_proto b.1.2] ++ k_port b.1.2) = true.

#[export] Instance policy_le_dec : RelDecision policy_le.
Proof. intros a b. unfold policy_le. apply _. Defined.

Section compile.
Context {ro : RangeOrder}.

Definition compile_family (rules : list Parsed) (family : string) : FwError + ScopeTries :=
  let prefixes := prefixes_of rules in
  let n := Z.of_nat (length prefixes) in
  if FW_SCOPE_MAX_CLASSES <? n then inl (ScopeTooLarge family "peer classes" n)
  else
    let cls := number_classes prefixes in
    let by_class := add_rules cls 0 rules ∅ in
    let pol := merge_sort policy_le
      ((fun e => (plen e, key e, prec e)) <$> (range_map by_class ≫= snd)) in
    let m := Z.of_nat (length pol) in
    if FW_SCOPE_MAX_ENTRIES <? m then inl (ScopeTooLarge family "policy entries" m)
    else inr (mkTries cls pol).

(** ** Scopes *)

Record Scope := mkScope { scope_id_ : Z; s_v4 : ScopeTries; s_v6 : ScopeTries }.

(** FNV-1a over the compiled tries. *)
Definition feed (h : Z) (bytes : list Z) : Z := foldl (fun h b => u64 (Z.lxor h b * 1099511628211)) h bytes.

Definition feed_tries (h : Z) (t : ScopeTries) : Z :=
  let h := foldl (fun h c => feed (feed (feed h c.1.1) [c.1.2]) (le32 c.2)) h (classes t) in
  let h := feed h [255] in
  foldl (fun h e => feed (feed (feed (feed h (le32 e.1.1)) (le32 (k_class e.1.2)))
           (k_proto e.1.2 :: k_port e.1.2)) (le32 e.2)) h (policy t).

Definition scope_id (v4 v6 : ScopeTries) : Z :=
  let h := feed_tries (feed (feed_tries (feed 14695981039346656037 [4]) v4) [6]) v6 in
  if h =? FW_SCOPE_NONE then 1 else h.

(** The rules of one direction, parsed in order; the first error ends it. *)
Fixpoint parse_all (dir icmp_proto : Z) (l : list FwRule) : FwError + list Parsed :=
  match l with
  | [] => inr []
  | r :: l =>
      if direction r =? dir then
        match parse (view r) dir icmp_proto with
        | inl e => inl e
        | inr o => match parse_all dir icmp_proto l with
                   | inl e => inl e
                   | inr ps => inr (match o with Some p => p :: ps | None => ps end)
                   end
        end
      else parse_all dir icmp_proto l
  end.

Definition compile_scope (dir : Z) (v4 v6 : list FwRule) : FwError + option Scope :=
  match parse_all dir 1 v4 with
  | inl e => inl e
  | inr p4 =>
      match parse_all dir 58 v6 with
      | inl e => inl e
      | inr p6 =>
          if bool_decide (p4 = []) && bool_decide (p6 = []) then inr None
          else match compile_family p4 "IPv4" with
               | inl e => inl e
               | inr t4 =>
                   match compile_family p6 "IPv6" with
                   | inl e => inl e
                   | inr t6 => inr (Some (mkScope (scope_id t4 t6) t4 t6))
                   end
               end
      end
  end.

End compile.

(** ** Longest-prefix match *)

(** Bit [i] of a byte array, from the most significant bit of its first byte. *)
Definition bit (l : list Z) (i : Z) : bool := Z.testbit (l !!! Z.to_nat (i / 8)) (7 - i mod 8).

(** Two arrays agree on their first [n] bits. *)
Definition agree (n : Z) (a b : list Z) : Prop := ∀ i, 0 ≤ i < n → bit a i = bit b i.

Definition bytes_ok (l : list Z) : Prop := Forall (fun b => 0 ≤ b < 256) l.

(** Keys of one width, prefix lengths within it. *)
Definition trie_ok {V : Type} (t : list (Z * list Z * V)) (k : list Z) : Prop :=
  bytes_ok k ∧ Forall (fun e => bytes_ok e.1.2 ∧ length e.1.2 = length k ∧ 0 ≤ e.1.1 ≤ 8 * Z.of_nat (length k)) t.

(** A longest-prefix-match trie: entries are a prefix length, a key and a value;
    a lookup finds the value of an entry of greatest length that agrees with it. *)
Class Lpm := {
  lpm {V : Type} : list (Z * list Z * V) → list Z → option V;
  lpm_some {V : Type} (t : list (Z * list Z * V)) k v :
    trie_ok t k → lpm t k = Some v →
    ∃ n p, (n, p, v) ∈ t ∧ agree n p k ∧ ∀ n' p' v', (n', p', v') ∈ t → agree n' p' k → n' ≤ n;
  lpm_none {V : Type} (t : list (Z * list Z * V)) k :
    trie_ok t k → lpm t k = None → ∀ n p v, (n, p, v) ∈ t → ¬ agree n p k
}.

(** The simulator's lookup: [prefix_match], and [max_by_key], which keeps the last
    of equal keys. *)
Definition prefix_match (a b : list Z) (prefix : Z) : bool :=
  let full := Z.to_nat (prefix / 8) in
  if decide (take full a = take full b) then
    let rem := prefix mod 8 in
    if rem =? 0 then true
    else let mask := u8 (Z.shiftl 255 (8 - rem)) in
         Z.land (a !!! full) mask =? Z.land (b !!! full) mask
  else false.

Fixpoint max_by_len {V : Type} (best : option (Z * list Z * V)) (l : list (Z * list Z * V)) : option (Z * list Z * V) :=
  match l with
  | [] => best
  | e :: l => max_by_len (match best with
                          | Some b => if e.1.1 <? b.1.1 then Some b else Some e
                          | None => Some e
                          end) l
  end.

Definition sim_lpm {V : Type} (t : list (Z * list Z * V)) (k : list Z) : option V :=
  (fun e => e.2) <$> max_by_len None (List.filter (fun e => prefix_match e.1.2 k e.1.1) t).

(** ** Reading a packet *)

Definition read_array (n : nat) (pkt : list Z) (off : Z) : option (list Z) :=
  let l := take n (drop (Z.to_nat off) pkt) in
  if decide (length l = n) then Some l else None.

Definition read_u8 (pkt : list Z) (off : Z) : option Z := pkt !! Z.to_nat off.

(** [u16::from_be_bytes] *)
Definition be (l : list Z) : Z := (l !!! 0%nat) * 256 + l !!! 1%nat.

Definition read_u16_be (pkt : list Z) (off : Z) : option Z := be <$> read_array 2 pkt off.

(** [l4_ports]: protocol, source and destination port (the identifier twice for
    ICMP). *)
Definition l4_ports (pkt : list Z) (ip_off : Z) : option (Z * Z * Z) :=
  hdr ← read_array 20 pkt ip_off;
  if negb (be [Z.land (hdr !!! 6%nat) 31; hdr !!! 7%nat] =? 0) then None
  else
    let ihl := Z.land (hdr !!! 0%nat) 15 * 4 in
    let proto := hdr !!! 9%nat in
    let l4 := ip_off + ihl in
    if (proto =? IPPROTO_TCP) || (proto =? IPPROTO_UDP) then
      sp ← read_u16_be pkt l4; dp ← read_u16_be pkt (l4 + 2); Some (proto, sp, dp)
    else if proto =? IPPROTO_ICMP then
      i ← read_u16_be pkt (l4 + 4); Some (proto, i, i)
    else None.

Definition l4_ports_v6 (pkt : list Z) (ip_off : Z) : option (Z * Z * Z) :=
  nexthdr ← read_u8 pkt (ip_off + 6);
  let l4 := ip_off + 40 in
  if (nexthdr =? IPPROTO_TCP) || (nexthdr =? IPPROTO_UDP) then
    sp ← read_u16_be pkt l4; dp ← read_u16_be pkt (l4 + 2); Some (nexthdr, sp, dp)
  else if nexthdr =? 58 then
    i ← read_u16_be pkt (l4 + 4); Some (nexthdr, i, i)
  else None.

Definition icmp_type_code (pkt : list Z) (ip_off : Z) : Z * Z :=
  match read_array 20 pkt ip_off with
  | None => (0, 0)
  | Some hdr =>
      if negb (Z.land (hdr !!! 0%nat) 15 =? 5) || negb (hdr !!! 9%nat =? IPPROTO_ICMP) then (0, 0)
      else match read_array 2 pkt (ip_off + 20) with
           | Some b => (b !!! 0%nat, b !!! 1%nat)
           | None => (0, 0)
           end
  end.

Definition icmp_type_code_v6 (pkt : list Z) (ip_off : Z) : Z * Z :=
  if decide (read_u8 pkt (ip_off + 6) = Some 58) then
    (default 65535 (read_u8 pkt (ip_off + 40)), default 65535 (read_u8 pkt (ip_off + 41)))
  else (65535, 65535).

(** ** The evaluator *)

Definition fw_probe_verdict (specific any : option Z) : Z :=
  let best := match specific, any with
              | Some a, Some b => Some (if b <? a then a else b)
              | a, None => a
              | None, b => b
              end in
  match best with
  | Some p => if fw_precedence_allows p then FW_ACTION_ACCEPT else FW_ACTION_DROP
  | None => FW_ACTION_DROP
  end.

Definition fw_pol_suffix (proto dport : Z) (icmp : Z * Z) (icmp_proto : Z) : list Z :=
  if proto =? icmp_proto then [u8 icmp.1; u8 icmp.2]
  else if (proto =? IPPROTO_TCP) || (proto =? IPPROTO_UDP) then be16 dport
  else [0; 0].

Record FwBind := mkBind { ingress_scope : Z; egress_scope : Z }.

Definition bind_scope (b : FwBind) (dir : Z) : Z :=
  if dir =? FW_DIR_EGRESS then egress_scope b else ingress_scope b.

(** What the classifier reads of the datapath's maps: the bindings and the tries
    of the scopes. *)
Record FwMaps := mkFwMaps { fw_bind : Z → option FwBind; fw_scope : Z → option Scope }.

Section evaluate.
Context {lp : Lpm}.

(** [fw_class4], [fw_class6]; [fw_policy4], [fw_policy6]. *)
Definition fw_class (t : ScopeTries) (addr : list Z) : option Z :=
  lpm ((fun c => (c.1.2, c.1.1, c.2)) <$> classes t) addr.

Definition fw_policy (t : ScopeTries) (k : FwPolKey) : option Z :=
  lpm ((fun e => (e.1.1, key_bytes e.1.2, e.2)) <$> policy t) (key_bytes k).

(** The two stages: the peer's class, then the two probes.  A scope the maps do
    not hold answers nothing. *)
Definition probe (t : option ScopeTries) (peer : list Z) (proto : Z) (port : list Z) : Z :=
  let specific := t ≫= fun t => fw_class t peer ≫= fun c =>
    if c =? FW_CLASS_ANY then None else fw_policy t (mkPolKey c proto port) in
  let any := t ≫= fun t => fw_policy t (mkPolKey FW_CLASS_ANY proto port) in
  fw_probe_verdict specific any.

Definition fw_classify (pkt : list Z) (maps : FwMaps) (ip_off ifindex dir : Z) : Z :=
  match fw_bind maps ifindex with
  | None => FW_ACTION_DROP
  | Some b =>
      let scope := bind_scope b dir in
      if scope =? FW_SCOPE_NONE then FW_ACTION_DROP
      else match read_array 4 pkt (ip_off + (if dir =? FW_DIR_EGRESS then 16 else 12)) with
           | None => FW_ACTION_DROP
           | Some peer =>
               let '(proto, dport) := match l4_ports pkt ip_off with
                                      | Some (p, _, d) => (p, d)
                                      | None => (default 0 (read_u8 pkt (ip_off + 9)), 0)
                                      end in
               probe (s_v4 <$> fw_scope maps scope) peer proto
                 (fw_pol_suffix proto dport (icmp_type_code pkt ip_off) IPPROTO_ICMP)
           end
  end.

Definition fw_classify6 (pkt : list Z) (maps : FwMaps) (ip_off ifindex dir : Z) : Z :=
  match fw_bind maps ifindex with
  | None => FW_ACTION_DROP
  | Some b =>
      let scope := bind_scope b dir in
      if scope =? FW_SCOPE_NONE then FW_ACTION_DROP
      else match read_array 16 pkt (ip_off + (if dir =? FW_DIR_EGRESS then 24 else 8)) with
           | None => FW_ACTION_DROP
           | Some peer =>
               let '(proto, dport) := match l4_ports_v6 pkt ip_off with
                                      | Some (p, _, d) => (p, d)
                                      | None => (default 0 (read_u8 pkt (ip_off + 6)), 0)
                                      end in
               probe (s_v6 <$> fw_scope maps scope) peer proto
                 (fw_pol_suffix proto dport (icmp_type_code_v6 pkt ip_off) IPPROTO_ICMPV6)
           end
  end.

End evaluate.

(** ** The first-match reference *)

(** [PacketSelectors], of either family. *)
Record PacketSelectors := mkSelectors {
  s_src : list Z;
  s_dst : list Z;
  s_proto : Z;
  s_sport : Z;
  s_dport : Z;
  s_icmp_type : Z;
  s_icmp_code : Z
}.

(** The masked comparison, byte by byte. *)
Fixpoint masked_eq (a b mask : list Z) : bool :=
  match a, b, mask with
  | x :: a, y :: b, m :: mask => (Z.land x m =? Z.land y m) && masked_eq a b mask
  | _, _, _ => true
  end.

(** [fw_rule_matches] ([icmp_proto] 1) and [fw_rule6_matches] (58). *)
Definition fw_rule_matches (icmp_proto : Z) (r : FwRule) (s : PacketSelectors) : bool :=
  if enabled r =? 0 then false
  else if negb (fr_proto r =? 0) && negb (fr_proto r =? s_proto s) then false
  else if negb (masked_eq (s_src s) (src_ip r) (src_mask r) && masked_eq (s_dst s) (dst_ip r) (dst_mask r)) then false
  else if (s_proto s =? 6) || (s_proto s =? 17) then
    (src_port_min r <=? s_sport s) && (s_sport s <=? src_port_max r) &&
    (dst_port_min r <=? s_dport s) && (s_dport s <=? dst_port_max r)
  else if s_proto s =? icmp_proto then
    ((icmp_type r =? 65535) || (s_icmp_type s =? icmp_type r)) &&
    ((icmp_code r =? 65535) || (s_icmp_code s =? icmp_code r))
  else true.

(** [first_match] and [first_match6] over the selectors of a packet. *)
Definition first_match (icmp_proto : Z) (s : PacketSelectors) (rules : list FwRule) (dir : Z) : Z :=
  match List.find (fun r => (direction r =? dir) && fw_rule_matches icmp_proto r s) rules with
  | Some r => action r
  | None => FW_ACTION_DROP
  end.

(** The selectors [first_match] reads off a packet. *)
Definition selectors4 (pkt : list Z) (ip_off : Z) : option PacketSelectors :=
  src ← read_array 4 pkt (ip_off + 12);
  dst ← read_array 4 pkt (ip_off + 16);
  let '(p, sp, dp) := default (default 0 (read_u8 pkt (ip_off + 9)), 0, 0) (l4_ports pkt ip_off) in
  let '(t, c) := icmp_type_code pkt ip_off in
  Some (mkSelectors src dst p sp dp t c).

Definition selectors6 (pkt : list Z) (ip_off : Z) : option PacketSelectors :=
  src ← read_array 16 pkt (ip_off + 8);
  dst ← read_array 16 pkt (ip_off + 24);
  let '(p, sp, dp) := default (default 0 (read_u8 pkt (ip_off + 6)), 0, 0) (l4_ports_v6 pkt ip_off) in
  let '(t, c) := icmp_type_code_v6 pkt ip_off in
  Some (mkSelectors src dst p sp dp t c).

End fwclass.
