(* ===== verification/FwClassFacts.v ===== *)
(** * The classifier: bits, prefixes and port ranges

    What the bit comparisons of the classifier mean, the simulator's trie as an
    instance of [Lpm], and the decomposition of port ranges into prefixes. *)

From S2P Require Import Prelude FwClass.
Import fwclass.

Open Scope Z_scope.

(** ** Bytes *)

Lemma byte_high x j : 0 ≤ x < 256 → 8 ≤ j → Z.testbit x j = false.
Proof.
  intros Hx Hj. destruct (decide (x = 0)) as [->|Hn]; [apply Z.bits_0|].
  apply Z.bits_above_log2; [lia|]. assert (Z.log2 x < 8); [|lia]. apply Z.log2_lt_pow2; lia.
Qed.

Lemma byte_eq x y : 0 ≤ x < 256 → 0 ≤ y < 256 → (∀ j, 0 ≤ j < 8 → Z.testbit x j = Z.testbit y j) → x = y.
Proof.
  intros Hx Hy H. apply Z.bits_inj'. intros j Hj. destruct (decide (j < 8)); [by apply H|].
  by rewrite !byte_high by lia.
Qed.

(** The mask of the top [r] bits of a byte. *)
Lemma mask_bit r j : 0 ≤ r ≤ 8 → 0 ≤ j → Z.testbit (u8 (Z.shiftl 255 (8 - r))) j = (8 - r <=? j) && (j <? 8).
Proof.
  intros Hr Hj. unfold u8. change 256 with (2 ^ 8). change 255 with (Z.ones 8).
  destruct (Z.ltb_spec j 8).
  - rewrite Z.mod_pow2_bits_low by lia. rewrite Z.shiftl_spec by lia. destruct (Z.leb_spec (8 - r) j).
    + rewrite Z.ones_spec_low by lia. done.
    + rewrite Z.testbit_neg_r by lia. done.
  - rewrite Z.mod_pow2_bits_high by lia. by rewrite andb_false_r.
Qed.

Lemma mask_range r : 0 ≤ u8 (Z.shiftl 255 (8 - r)) < 256.
Proof. apply Z.mod_pos_bound. lia. Qed.

(** The top [r] bits of two bytes. *)
Definition top_agree (r x y : Z) : Prop := ∀ j, 8 - r ≤ j < 8 → Z.testbit x j = Z.testbit y j.

Lemma xor_mask_zero r x y :
  0 ≤ r ≤ 8 → Z.land (Z.lxor x y) (u8 (Z.shiftl 255 (8 - r))) = 0 ↔ top_agree r x y.
Proof.
  intros Hr. split.
  - intros H j Hj. assert (Hb : Z.testbit (Z.land (Z.lxor x y) (u8 (Z.shiftl 255 (8 - r)))) j = false) by (rewrite H; apply Z.bits_0).
    rewrite Z.land_spec, mask_bit, Z.lxor_spec in Hb by lia.
    replace ((8 - r <=? j) && (j <? 8)) with true in Hb by lia. destruct (Z.testbit x j), (Z.testbit y j); done.
  - intros H. apply Z.bits_inj'. intros j Hj. rewrite Z.land_spec, mask_bit, Z.lxor_spec, Z.bits_0 by lia.
    destruct ((8 - r <=? j) && (j <? 8)) eqn:E; [|apply andb_false_r]. rewrite (H j) by lia. by destruct (Z.testbit y j).
Qed.

Lemma and_mask_eq r x y :
  0 ≤ r ≤ 8 → Z.land x (u8 (Z.shiftl 255 (8 - r))) = Z.land y (u8 (Z.shiftl 255 (8 - r))) ↔ top_agree r x y.
Proof.
  intros Hr. rewrite <-xor_mask_zero, <-Z.lxor_eq_0_iff by done.
  assert (∀ m, Z.lxor (Z.land x m) (Z.land y m) = Z.land (Z.lxor x y) m) as ->; [|done].
  intros m. apply Z.bits_inj'. intros j _. rewrite !Z.land_spec, !Z.lxor_spec, !Z.land_spec.
  by destruct (Z.testbit x j), (Z.testbit y j), (Z.testbit m j).
Qed.

(** ** Prefixes of byte arrays *)

Lemma bytes_ok_lookup l (k : nat) : bytes_ok l → 0 ≤ l !!! k < 256.
Proof.
  intros H. destruct (decide (k < length l)%nat) as [Hk|Hk].
  - eapply Forall_lookup_1 in H; [exact H|]. by apply list_lookup_lookup_total_lt.
  - rewrite list_lookup_total_alt, lookup_ge_None_2 by lia. cbn. lia.
Qed.

Lemma agree_split n a b :
  0 ≤ n →
  agree n a b ↔
    (∀ k : nat, Z.of_nat k < n / 8 → ∀ j, 0 ≤ j < 8 → Z.testbit (a !!! k) j = Z.testbit (b !!! k) j) ∧
    top_agree (n mod 8) (a !!! Z.to_nat (n / 8)) (b !!! Z.to_nat (n / 8)).
Proof.
  intros Hn. pose proof (Z.div_mod n 8) as Hdm. pose proof (Z.mod_pos_bound n 8) as Hmb. split.
  - intros H. split.
    + intros k Hk j Hj. specialize (H (8 * Z.of_nat k + (7 - j))). unfold bit in H.
      assert ((8 * Z.of_nat k + (7 - j)) / 8 = Z.of_nat k) as E1 by (symmetry; apply Z.div_unique with (7 - j); lia).
      assert ((8 * Z.of_nat k + (7 - j)) mod 8 = 7 - j) as E2 by (symmetry; apply Z.mod_unique with (Z.of_nat k); lia).
      rewrite E1, E2, Nat2Z.id in H. replace (7 - (7 - j)) with j in H by lia. apply H. lia.
    + intros j Hj. specialize (H (8 * (n / 8) + (7 - j))). unfold bit in H.
      assert ((8 * (n / 8) + (7 - j)) / 8 = n / 8) as E1 by (symmetry; apply Z.div_unique with (7 - j); lia).
      assert ((8 * (n / 8) + (7 - j)) mod 8 = 7 - j) as E2 by (symmetry; apply Z.mod_unique with (n / 8); lia).
      rewrite E1, E2 in H. replace (7 - (7 - j)) with j in H by lia. apply H. lia.
  - intros [Hf Ht] i Hi. unfold bit. pose proof (Z.div_mod i 8). pose proof (Z.mod_pos_bound i 8).
    pose proof (Z.div_pos i 8).
    destruct (decide (i / 8 < n / 8)).
    + apply Hf; lia.
    + assert (i / 8 ≤ n / 8) by (apply Z.div_le_mono; lia). replace (i / 8) with (n / 8) by lia. apply Ht. lia.
Qed.

Lemma take_agree (k : nat) a b :
  bytes_ok a → bytes_ok b → length a = length b → (k ≤ length a)%nat →
  take k a = take k b ↔ ∀ i : nat, (i < k)%nat → ∀ j, 0 ≤ j < 8 → Z.testbit (a !!! i) j = Z.testbit (b !!! i) j.
Proof.
  intros Ha Hb Hl Hk. split.
  - intros H i Hi j Hj. assert (a !! i = b !! i) as He by (rewrite <-(lookup_take_lt a k i), <-(lookup_take_lt b k i), H by lia; done).
    by rewrite !list_lookup_total_alt, He.
  - intros H. apply list_eq. intros i. destruct (decide (i < k)%nat).
    + rewrite !lookup_take_lt by lia. rewrite !list_lookup_lookup_total_lt by lia. f_equal.
      apply byte_eq; [by apply bytes_ok_lookup..|]. by apply H.
    + by rewrite !lookup_take_ge by lia.
Qed.

(** Both comparisons of the sources decide agreement. *)
Section matching.
Context (a b : list Z) (n : Z).
Context (Ha : bytes_ok a) (Hb : bytes_ok b) (Hl : length a = length b) (Hn : 0 ≤ n ≤ 8 * Z.of_nat (length a)).

Lemma full_bytes : (Z.to_nat (n / 8) ≤ length a)%nat.
Proof. assert (n / 8 ≤ Z.of_nat (length a)) by (apply Z.div_le_upper_bound; lia). lia. Qed.

Lemma full_agree :
  take (Z.to_nat (n / 8)) a = take (Z.to_nat (n / 8)) b ↔
  ∀ k : nat, Z.of_nat k < n / 8 → ∀ j, 0 ≤ j < 8 → Z.testbit (a !!! k) j = Z.testbit (b !!! k) j.
Proof.
  rewrite take_agree by (done || apply full_bytes). pose proof (Z.div_pos n 8) as Hdp.
  split; intros H' k Hk; apply H'; lia.
Qed.

Lemma bits_match_agree : bits_match a b n = true ↔ agree n a b.
Proof.
  rewrite agree_split by lia. unfold bits_match. rewrite <-full_agree. pose proof (Z.mod_pos_bound n 8) as Hmb.
  destruct (decide (take _ a = take _ b)) as [He|He]; [|naive_solver].
  rewrite orb_true_iff, !Z.eqb_eq, xor_mask_zero by lia. split.
  - intros [H0|Ht]; (split; [done|]); [|done]. intros j Hj. lia.
  - intros [_ Ht]. by right.
Qed.

Lemma prefix_match_agree : prefix_match a b n = true ↔ agree n a b.
Proof.
  rewrite agree_split by lia. unfold prefix_match. rewrite <-full_agree. pose proof (Z.mod_pos_bound n 8) as Hmb.
  destruct (decide (take _ a = take _ b)) as [He|He]; [|naive_solver].
  destruct (Z.eqb_spec (n mod 8) 0) as [E|E].
  - split; [|done]. intros _. split; [done|]. intros j Hj. lia.
  - rewrite Z.eqb_eq, and_mask_eq by lia. naive_solver.
Qed.

End matching.

Lemma agree_refl n a : agree n a a.
Proof. by intros i _. Qed.

Lemma agree_sym n a b : agree n a b → agree n b a.
Proof. intros H i Hi. symmetry. by apply H. Qed.

Lemma agree_trans n m a b d : n ≤ m → agree n a b → agree m b d → agree n a d.
Proof. intros Hnm H1 H2 i Hi. rewrite H1 by lia. apply H2. lia. Qed.

Lemma agree_mono n m a b : n ≤ m → agree m a b → agree n a b.
Proof. intros Hnm H i Hi. apply H. lia. Qed.

(** ** The simulator's trie *)

Lemma max_by_len_spec {V : Type} (best : option (Z * list Z * V)) l :
  match max_by_len best l with
  | Some e => (e ∈ l ∨ best = Some e) ∧ (∀ x, x ∈ l → x.1.1 ≤ e.1.1) ∧ (∀ b, best = Some b → b.1.1 ≤ e.1.1)
  | None => l = [] ∧ best = None
  end.
Proof.
  revert best. induction l as [|x l IH]; intros best; cbn.
  - destruct best as [e|]; [|done]. split_and!; [by right|set_solver|by intros ? [= ->]].
  - specialize (IH (match best with Some b => if x.1.1 <? b.1.1 then Some b else Some x | None => Some x end)).
    destruct (max_by_len _ l) as [e|].
    + destruct IH as (Hin & Hle & Hb). destruct best as [b|]; [destruct (Z.ltb_spec x.1.1 b.1.1)|]; specialize (Hb _ eq_refl);
        (split_and!; [set_solver|intros y [->|Hy]%elem_of_cons; [lia|by apply Hle]|intros ? [= ->]; lia]) ||
        (split_and!; [set_solver|intros y [->|Hy]%elem_of_cons; [lia|by apply Hle]|done]).
    + destruct IH as [_ IH]. exfalso. destruct best as [b|]; [|done]. by destruct (x.1.1 <? b.1.1).
Qed.

Lemma sim_filter {V : Type} (t : list (Z * list Z * V)) k e :
  trie_ok t k → e ∈ List.filter (fun e => prefix_match e.1.2 k e.1.1) t ↔ e ∈ t ∧ agree e.1.1 e.1.2 k.
Proof.
  intros [Hk Ht]. rewrite list_elem_of_In, filter_In, <-list_elem_of_In. split; intros [Hin H]; (split; [done|]);
    rewrite Forall_forall in Ht; destruct (Ht e Hin) as (He & Hl & Hn); apply prefix_match_agree; try done; by rewrite Hl.
Qed.

#[export, refine] Instance sim_Lpm : Lpm := {| lpm V := sim_lpm |}.
Proof.
  all: intros V t k; unfold sim_lpm; pose proof (max_by_len_spec None (List.filter (fun e => prefix_match e.1.2 k e.1.1) t)) as H.
  - intros v Hok Hs. destruct (max_by_len _ _) as [[[n p] w]|]; [|done]. cbn in Hs. injection Hs as ->.
    destruct H as ([[Hin Ha]%sim_filter|] & Hle & _); [|done|done]. exists n, p. split_and!; [done|done|].
    intros n' p' v' Hin' Ha'. apply (Hle (n', p', v')). by apply sim_filter.
  - intros Hok Hs n p v Hin Ha. destruct (max_by_len _ _); [done|]. destruct H as [H _].
    assert ((n, p, v) ∈ List.filter (fun e => prefix_match e.1.2 k e.1.1) t) as Hx by (by apply sim_filter).
    rewrite H in Hx. by apply elem_of_nil in Hx.
Defined.

(** ** Port ranges *)

(** The lowest set bit: [x & -x]. *)
Lemma land_neg_pos (p : positive) : ∃ k q, 0 ≤ k ∧ Z.land (Z.pos p) (- Z.pos p) = 2 ^ k ∧ Z.pos p = 2 ^ k * (2 * q + 1).
Proof.
  induction p as [p IH|p IH|].
  - exists 0, (Z.pos p). split; [lia|]. split; [|change (2 ^ 0) with 1; lia].
    apply Z.bits_inj'. intros j Hj. rewrite Z.land_spec, Z.bits_opp by lia.
    replace (Z.pred (Z.pos p~1)) with (2 * Z.pos p) by lia. replace (Z.pos p~1) with (2 * Z.pos p + 1) by lia.
    change (2 ^ 0) with (2 * 0 + 1). destruct (decide (j = 0)) as [->|].
    + rewrite !Z.testbit_odd_0, Z.testbit_even_0. done.
    + replace j with (Z.succ (j - 1)) by lia. rewrite !Z.testbit_odd_succ, Z.testbit_even_succ, Z.bits_0 by lia. apply andb_negb_r.
  - destruct IH as (k & q & Hk & He & Hd). exists (k + 1), q. split; [lia|].
    replace (Z.pos p~0) with (2 * Z.pos p) by lia. rewrite Z.pow_add_r by lia. split.
    + rewrite <-He. apply Z.bits_inj'. intros j Hj. rewrite Z.land_spec.
      replace (- (2 * Z.pos p)) with (2 * (- Z.pos p)) by lia. rewrite (Z.mul_comm _ (2 ^ 1)). change (2 ^ 1) with 2.
      destruct (decide (j = 0)) as [->|].
      * by rewrite !Z.testbit_even_0.
      * replace j with (Z.succ (j - 1)) by lia. rewrite !Z.testbit_even_succ, Z.land_spec by lia. done.
    + rewrite Hd. change (2 ^ 1) with 2. lia.
  - exists 0, 0. split; [lia|]. split; [done|]. done.
Qed.

Lemma u32_land_neg lo : 0 < lo < 2 ^ 32 → Z.land lo (u32 (- lo)) = Z.land lo (- lo).
Proof.
  intros Hlo. apply Z.bits_inj'. intros j Hj. rewrite !Z.land_spec. unfold u32.
  destruct (decide (j < 32)); [by rewrite Z.mod_pow2_bits_low by lia|].
  rewrite (Z.bits_above_log2 lo); [done|lia|]. assert (Z.log2 lo < 32); [|lia]. apply Z.log2_lt_pow2; lia.
Qed.

Lemma shrink_spec fuel lo hi k :
  0 ≤ k < Z.of_nat fuel → lo ≤ hi →
  ∃ j, 0 ≤ j ≤ k ∧ shrink fuel lo hi (2 ^ k) = 2 ^ j ∧ lo + 2 ^ j - 1 ≤ hi ∧ (j < k → hi < lo + 2 ^ (j + 1) - 1).
Proof.
  revert k. induction fuel as [|fuel IH]; intros k Hk Hle; [lia|]. cbn [shrink].
  destruct (Z.ltb_spec hi (lo + 2 ^ k - 1)) as [Hlt|Hge].
  - destruct (decide (k = 0)) as [->|]; [change (2 ^ 0) with 1 in Hlt; lia|].
    rewrite Z.shiftr_div_pow2 by lia. assert (2 ^ k = 2 ^ (k - 1) * 2 ^ 1) as E by (rewrite <-Z.pow_add_r by lia; f_equal; lia).
    rewrite E, Z.div_mul by lia. destruct (IH (k - 1)) as (j & Hj & Hs & Hf & Hn); [lia|done|].
    exists j. split_and!; [lia|lia|done|done|]. intros Hjk. destruct (decide (j < k - 1)); [by apply Hn|].
    replace (j + 1) with k by lia. done.
  - exists k. split_and!; [lia|lia|done|lia|lia].
Qed.

(** The block starts aligned, stays within the range, and is not smaller than
    alignment and range force it to be. *)
Lemma block_size_spec lo hi :
  0 ≤ lo ≤ hi → hi < 65536 →
  ∃ j, 0 ≤ j ≤ 16 ∧ block_size lo hi = 2 ^ j ∧ (2 ^ j | lo) ∧ lo + 2 ^ j - 1 ≤ hi ∧
    (∀ m, 0 ≤ m ≤ 16 → (2 ^ m | lo) → j < m → hi < lo + 2 ^ m - 1).
Proof.
  intros Hlo Hhi. unfold block_size.
  assert (∃ k, 0 ≤ k ≤ 16 ∧ (if lo =? 0 then Z.shiftl 1 16 else Z.land lo (u32 (- lo))) = 2 ^ k ∧ (2 ^ k | lo) ∧
    ∀ m, 0 ≤ m ≤ 16 → (2 ^ m | lo) → m ≤ k) as (k & Hk & -> & Hd & Hmax).
  { destruct (Z.eqb_spec lo 0) as [->|Hn]; [exists 16; split_and!; try done; [apply Z.divide_0_r|lia]|].
    rewrite u32_land_neg by lia. destruct lo as [|p|p]; [lia| |lia].
    destruct (land_neg_pos p) as (k & q & Hk & -> & Hq).
    assert (2 ^ k | Z.pos p) as Hd by (exists (2 * q + 1); lia).
    assert (2 ^ k ≤ Z.pos p) by (apply Z.divide_pos_le; [lia|done]).
    assert (k < 16) by (apply (Z.pow_lt_mono_r_iff 2); lia). exists k. split_and!; [lia|lia|done|done|].
    intros m Hm Hdm. destruct (decide (m ≤ k)); [done|exfalso].
    assert (2 ^ (k + 1) | Z.pos p) as [c Hc].
    { etrans; [|exact Hdm]. exists (2 ^ (m - (k + 1))). rewrite <-Z.pow_add_r by lia. f_equal. lia. }
    rewrite Hq, Z.pow_add_r in Hc by lia. change (2 ^ 1) with 2 in Hc. assert (0 < 2 ^ k) by (apply Z.pow_pos_nonneg; lia).
    assert (2 * q + 1 = 2 * c); [|lia]. apply (Z.mul_reg_l _ _ (2 ^ k)); [lia|]. rewrite Hc. ring. }
  destruct (shrink_spec 17 lo hi k) as (j & Hj & -> & Hf & Hn); [lia|lia|]. exists j. split_and!; [lia|lia|done| |done|].
  - etrans; [|exact Hd]. exists (2 ^ (k - j)). rewrite <-Z.pow_add_r by lia. f_equal. lia.
  - intros m Hm Hdm Hjm. pose proof (Hmax m Hm Hdm). specialize (Hn ltac:(lia)).
    assert (2 ^ (j + 1) ≤ 2 ^ m) by (apply Z.pow_le_mono_r; lia). lia.
Qed.

Lemma trailing_zeros_pow k : 0 ≤ k < 32 → trailing_zeros (2 ^ k) = k.
Proof.
  intros Hk. assert (H : Forall (fun k => trailing_zeros (2 ^ k) = k) (seqZ 0 32)) by (repeat constructor).
  rewrite Forall_forall in H. apply H. apply elem_of_seqZ. lia.
Qed.

(** A pair covers the ports that share the value's top bits. *)
Definition pair_covers (d : Z) (vb : Z * Z) : Prop := vb.1 ≤ d < vb.1 + 2 ^ (16 - vb.2).

(** A pair is aligned to its own size. *)
Definition pair_ok (vb : Z * Z) : Prop :=
  0 ≤ vb.1 < 65536 ∧ 0 ≤ vb.2 ≤ 16 ∧ (2 ^ (16 - vb.2) | vb.1).

Lemma port_loop_spec fuel lo hi :
  0 ≤ lo → hi < 65536 → hi - lo + 1 ≤ Z.of_nat fuel →
  Forall pair_ok (port_loop fuel lo hi) ∧ ∀ d, Exists (pair_covers d) (port_loop fuel lo hi) ↔ lo ≤ d ≤ hi.
Proof.
  revert lo. induction fuel as [|fuel IH]; intros lo Hlo Hhi Hf; cbn [port_loop].
  { split; [constructor|]. intros d. rewrite Exists_nil. lia. }
  destruct (Z.leb_spec lo hi); [|split; [constructor|intros d; rewrite Exists_nil; lia]].
  destruct (block_size_spec lo hi) as (j & Hj & Hb & Hd & Hle & _); [lia|lia|]. cbv zeta. rewrite Hb, trailing_zeros_pow by lia.
  assert (0 < 2 ^ j) by (apply Z.pow_pos_nonneg; lia).
  destruct (IH (lo + 2 ^ j)) as [Hok Hcov]; [lia|lia|lia|]. unfold u16. rewrite Z.mod_small by lia.
  assert (16 - (16 - j) = j) as Hj' by lia. split.
  - constructor; [|done]. split_and!; cbn; try lia. by rewrite Hj'.
  - intros d. rewrite Exists_cons, Hcov. unfold pair_covers. cbn [fst snd]. rewrite Hj'. lia.
Qed.

Lemma port_loop_empty fuel lo hi : hi < lo → port_loop fuel lo hi = [].
Proof. intros H. destruct fuel; cbn; [done|]. by replace (lo <=? hi) with false by lia. Qed.

(** Below an alignment, the rest of a range takes at most one pair per bit. *)
Lemma port_loop_tail (n : nat) fuel lo hi :
  0 ≤ lo → hi < 65536 → (n ≤ 16)%nat → (2 ^ Z.of_nat n | lo) → hi - lo + 1 < 2 ^ Z.of_nat n →
  (length (port_loop fuel lo hi) ≤ n)%nat.
Proof.
  revert fuel lo. induction n as [|n IH]; intros fuel lo Hlo Hhi Hn Hd Hr.
  { rewrite port_loop_empty; [done|]. change (2 ^ Z.of_nat 0) with 1 in Hr. lia. }
  rewrite Nat2Z.inj_succ in Hd, Hr. assert (2 ^ Z.succ (Z.of_nat n) = 2 * 2 ^ Z.of_nat n) as E by (rewrite Z.pow_succ_r; lia).
  assert (Hdn : (2 ^ Z.of_nat n | lo)) by (etrans; [|exact Hd]; exists 2; lia).
  destruct (decide (hi - lo + 1 < 2 ^ Z.of_nat n)) as [Hs|Hs]; [pose proof (IH fuel lo Hlo Hhi ltac:(lia) Hdn Hs); lia|].
  destruct fuel as [|fuel]; cbn [port_loop]; [cbn; lia|]. destruct (Z.leb_spec lo hi); [|cbn; lia].
  destruct (block_size_spec lo hi) as (j & Hj & -> & _ & Hle & Hmax); [lia|lia|].
  assert (j = Z.of_nat n) as ->.
  { destruct (Z.lt_trichotomy j (Z.of_nat n)) as [Hlt|[->|Hgt]]; [|done|].
    - specialize (Hmax (Z.of_nat n) ltac:(lia) Hdn Hlt). lia.
    - assert (2 ^ (Z.succ (Z.of_nat n)) ≤ 2 ^ j) by (apply Z.pow_le_mono_r; lia). lia. }
  cbn [length]. specialize (IH fuel (lo + 2 ^ Z.of_nat n)). assert (0 < 2 ^ Z.of_nat n) by (apply Z.pow_pos_nonneg; lia).
  assert (2 ^ Z.of_nat n | lo + 2 ^ Z.of_nat n) by (apply Z.divide_add_r; [done|apply Z.divide_refl]).
  specialize (IH ltac:(lia) ltac:(lia) ltac:(lia) ltac:(done) ltac:(lia)). lia.
Qed.

(** From an aligned start that is not 0. *)
Lemma port_loop_bound fuel lo hi a :
  0 < lo → hi < 65536 → 0 ≤ a ≤ 15 → (2 ^ a | lo) →
  Z.of_nat (length (port_loop fuel lo hi)) ≤ 30 - a.
Proof.
  revert lo a. induction fuel as [|fuel IH]; intros lo a Hlo Hhi Ha Hd; cbn [port_loop]; [cbn; lia|].
  destruct (Z.leb_spec lo hi); [|cbn; lia].
  destruct (block_size_spec lo hi) as (j & Hj & Hb & Hdj & Hle & Hmax); [lia|lia|].
  assert (Hj15 : ∀ m, 0 ≤ m → (2 ^ m | lo) → m ≤ 15).
  { intros m Hm Hdm. assert (2 ^ m ≤ lo) by (apply Z.divide_pos_le; [lia|done]). assert (m < 16); [|lia].
    apply (Z.pow_lt_mono_r_iff 2); lia. }
  pose proof (Hj15 j ltac:(lia) Hdj). assert (2 ^ (j + 1) = 2 * 2 ^ j) as E by (rewrite Z.pow_add_r by lia; lia).
  assert (0 < 2 ^ j) by (apply Z.pow_pos_nonneg; lia).
  assert ((2 ^ (j + 1) | lo) ∨ (¬ (2 ^ (j + 1) | lo)) ∧ (2 ^ (j + 1) | lo + 2 ^ j)) as [Hy|[Hn Hd']].
  { destruct Hdj as [c ->]. destruct (Z.Even_or_Odd c) as [[q ->]|[q ->]]; [left; exists q; rewrite E; ring|right].
    split; [|exists (q + 1); rewrite E; ring]. intros [z Hz]. rewrite E in Hz.
    assert (2 * q + 1 = 2 * z); [|lia]. apply (Z.mul_reg_r _ _ (2 ^ j)); lia. }
  - pose proof (Hj15 (j + 1) ltac:(lia) Hy). specialize (Hmax (j + 1) ltac:(lia) Hy ltac:(lia)).
    pose proof (port_loop_tail (Z.to_nat (j + 1)) (S fuel) lo hi) as Ht. rewrite !Z2Nat.id in Ht by lia. cbn [port_loop] in Ht.
    replace (lo <=? hi) with true in Ht by lia. specialize (Ht ltac:(lia) ltac:(lia) ltac:(lia) Hy ltac:(lia)). lia.
  - assert (a ≤ j).
    { destruct (decide (a ≤ j)); [done|]. exfalso. apply Hn. etrans; [|exact Hd]. exists (2 ^ (a - (j + 1))).
      rewrite <-Z.pow_add_r by lia. f_equal. lia. }
    cbv zeta. rewrite Hb. cbn [length]. destruct (decide (j = 15)) as [->|].
    + rewrite port_loop_empty; [cbn; lia|]. assert (2 ^ (15 + 1) ≤ lo + 2 ^ 15) by (apply Z.divide_pos_le; [lia|done]).
      change (2 ^ (15 + 1)) with 65536 in *. lia.
    + specialize (IH (lo + 2 ^ j) (j + 1) ltac:(lia) ltac:(lia) ltac:(lia) Hd'). lia.
Qed.

Lemma port_prefixes_bound lo hi : 0 ≤ lo → hi < 65536 → (length (port_prefixes lo hi) ≤ 30)%nat.
Proof.
  intros Hlo Hhi. unfold port_prefixes. set (fuel := Z.to_nat _). destruct (decide (lo = 0)) as [->|].
  - destruct (decide (hi = 65535)) as [->|].
    + subst fuel. destruct (Z.to_nat (65535 - 0 + 1)) as [|f] eqn:E; [cbn; lia|]. cbn [port_loop].
      destruct (0 <=? 65535); [|cbn; lia]. cbn [length]. assert (block_size 0 65535 = 65536) as -> by done.
      rewrite port_loop_empty by lia. cbn. lia.
    + pose proof (port_loop_tail 16 fuel 0 hi) as H. change (2 ^ Z.of_nat 16) with 65536 in H.
      specialize (H ltac:(lia) ltac:(lia) ltac:(lia) (Z.divide_0_r _) ltac:(lia)). lia.
  - pose proof (port_loop_bound fuel lo hi 0 ltac:(lia) Hhi ltac:(lia) (Z.divide_1_l _)). lia.
Qed.

Lemma count_loop_length fuel lo hi n : count_loop fuel lo hi n = n + Z.of_nat (length (port_loop fuel lo hi)).
Proof.
  revert lo n. induction fuel as [|fuel IH]; intros lo n; cbn; [lia|].
  destruct (lo <=? hi); cbn; [rewrite IH|]; lia.
Qed.

(** ** Port bytes *)

Lemma be16_bit v i : 0 ≤ v < 65536 → 0 ≤ i < 16 → bit (be16 v) i = Z.testbit v (15 - i).
Proof.
  intros Hv Hi. unfold bit.
  assert (H8 : ∀ x j, 0 ≤ j < 8 → Z.testbit (u8 x) j = Z.testbit x j).
  { intros x j Hj. unfold u8. change 256 with (2 ^ 8). by rewrite Z.mod_pow2_bits_low by lia. }
  destruct (decide (i < 8)).
  - rewrite (Z.div_small i 8), (Z.mod_small i 8) by lia. change (be16 v !!! Z.to_nat 0) with (u8 (Z.shiftr v 8)).
    rewrite H8, Z.shiftr_spec by lia. f_equal. lia.
  - replace (i / 8) with 1 by (apply Z.div_unique with (i - 8); lia). replace (i mod 8) with (i - 8) by (apply Z.mod_unique with 1; lia).
    change (be16 v !!! Z.to_nat 1) with (u8 v). rewrite H8 by lia. f_equal. lia.
Qed.

Lemma be16_agree v d b :
  0 ≤ v < 65536 → 0 ≤ d < 65536 → 0 ≤ b ≤ 16 →
  agree b (be16 v) (be16 d) ↔ v / 2 ^ (16 - b) = d / 2 ^ (16 - b).
Proof.
  intros Hv Hd Hb. rewrite <-!Z.shiftr_div_pow2 by lia. split.
  - intros H. apply Z.bits_inj'. intros j Hj. rewrite !Z.shiftr_spec by lia. destruct (decide (j + (16 - b) < 16)).
    + specialize (H (15 - (j + (16 - b)))). rewrite !be16_bit in H by lia.
      replace (15 - (15 - (j + (16 - b)))) with (j + (16 - b)) in H by lia. apply H. lia.
    + assert (Hh : ∀ x, 0 ≤ x < 65536 → Z.testbit x (j + (16 - b)) = false); [|by rewrite !Hh].
      intros x Hx. destruct (decide (x = 0)) as [->|]; [apply Z.bits_0|]. apply Z.bits_above_log2; [lia|].
      assert (Z.log2 x < 16); [|lia]. apply Z.log2_lt_pow2; lia.
  - intros H i Hi. rewrite !be16_bit by lia. replace (15 - i) with (15 - i - (16 - b) + (16 - b)) by lia.
    rewrite <-!Z.shiftr_spec by lia. by rewrite H.
Qed.

(** A pair's key agrees with exactly the ports it covers. *)
Lemma pair_agree vb d : pair_ok vb → 0 ≤ d < 65536 → agree vb.2 (be16 vb.1) (be16 d) ↔ pair_covers d vb.
Proof.
  destruct vb as [v b]. unfold pair_ok, pair_covers. cbn [fst snd]. intros (Hv & Hb & [c Hc]) Hd.
  rewrite be16_agree by lia. assert (0 < 2 ^ (16 - b)) by (apply Z.pow_pos_nonneg; lia).
  rewrite Hc, Z.div_mul by lia. pose proof (Z.div_mod d (2 ^ (16 - b))). pose proof (Z.mod_pos_bound d (2 ^ (16 - b))). split.
  - intros ->. lia.
  - intros Hr. apply Z.div_unique with (d - c * 2 ^ (16 - b)); lia.
Qed.
