(* ===== verification/FwClassTheorems.v ===== *)
(** * The classifier: equivalence with first match

    The compiled tries, probed with a packet, give the verdict the first matching
    rule gives. *)

From S2P Require Import Prelude Shadow FwClass FwClassFacts.
Import fwclass.

Open Scope Z_scope.

(** ** Keys *)

Lemma u8_range z : 0 ≤ u8 z < 256.
Proof. apply Z.mod_pos_bound. lia. Qed.

Lemma le32_ok c : bytes_ok (le32 c).
Proof. repeat constructor; apply u8_range. Qed.

Definition key_ok (k : FwPolKey) : Prop :=
  0 ≤ k_class k < 2 ^ 32 ∧ 0 ≤ k_proto k < 256 ∧ bytes_ok (k_port k) ∧ length (k_port k) = 2%nat.

Lemma key_bytes_ok k : key_ok k → bytes_ok (key_bytes k) ∧ length (key_bytes k) = 7%nat.
Proof.
  intros (_ & Hp & Hb & Hl). split.
  - apply Forall_app. split; [apply le32_ok|]. apply Forall_app. split; [by constructor|done].
  - unfold key_bytes. rewrite !length_app, Hl. done.
Qed.

(** Agreement of concatenations. *)
Lemma bit_app_l l x i : 0 ≤ i < 8 * Z.of_nat (length l) → bit (l ++ x) i = bit l i.
Proof.
  intros Hi. unfold bit. rewrite lookup_total_app_l; [done|].
  assert (i / 8 < Z.of_nat (length l)) by (apply Z.div_lt_upper_bound; lia). pose proof (Z.div_pos i 8). lia.
Qed.

Lemma bit_app_r l x i : 0 ≤ i → bit (l ++ x) (8 * Z.of_nat (length l) + i) = bit x i.
Proof.
  intros Hi. unfold bit. rewrite (Z.mul_comm 8), Z.div_add_l, (Z.add_comm _ i), Z.mod_add by lia. f_equal.
  pose proof (Z.div_pos i 8). rewrite Z2Nat.inj_add, Nat2Z.id by lia. rewrite lookup_total_app_r by lia. f_equal. lia.
Qed.

Lemma agree_app n l x l' y :
  length l = length l' → 0 ≤ n →
  agree (8 * Z.of_nat (length l) + n) (l ++ x) (l' ++ y) ↔ agree (8 * Z.of_nat (length l)) l l' ∧ agree n x y.
Proof.
  intros Hl Hn. split.
  - intros H. split; intros i Hi.
    + specialize (H i ltac:(lia)). rewrite !bit_app_l in H by lia. done.
    + specialize (H (8 * Z.of_nat (length l) + i) ltac:(lia)). rewrite bit_app_r in H by lia. rewrite Hl, bit_app_r in H by lia. done.
  - intros [H1 H2] i Hi. destruct (decide (i < 8 * Z.of_nat (length l))).
    + rewrite !bit_app_l by lia. apply H1. lia.
    + replace i with (8 * Z.of_nat (length l) + (i - 8 * Z.of_nat (length l))) by lia. rewrite bit_app_r by lia.
      rewrite Hl, bit_app_r by lia. apply H2. lia.
Qed.

Lemma agree_full l l' : bytes_ok l → bytes_ok l' → length l = length l' → agree (8 * Z.of_nat (length l)) l l' ↔ l = l'.
Proof.
  intros H1 H2 Hl. rewrite <-bits_match_agree by (done || lia). unfold bits_match.
  rewrite (Z.mul_comm 8), Z.div_mul, Z.mod_mul, Nat2Z.id by lia. cbn. rewrite firstn_all. rewrite Hl, firstn_all.
  by destruct (decide (l = l')).
Qed.

Lemma le32_inj c d : 0 ≤ c < 2 ^ 32 → 0 ≤ d < 2 ^ 32 → le32 c = le32 d → c = d.
Proof.
  intros Hc Hd [= H0 H1 H2 H3]. unfold u8 in *. rewrite !Z.shiftr_div_pow2 in * by lia.
  change (2 ^ 8) with 256 in *. change (2 ^ 16) with (256 * 256) in *. change (2 ^ 24) with (256 * 256 * 256) in *.
  change (2 ^ 32) with (256 * 256 * 256 * 256) in *. rewrite <-!Z.div_div in * by lia.
  assert (Hs : ∀ x, 0 ≤ x < 256 * 256 * 256 * 256 → x / 256 / 256 / 256 < 256).
  { intros x Hx. repeat (apply Z.div_lt_upper_bound; [lia|]). lia. }
  assert (Hp : ∀ x, 0 ≤ x → 0 ≤ x / 256 / 256 / 256) by (intros; repeat (apply Z.div_pos; [|lia]); lia).
  rewrite (Z.mod_small (c / 256 / 256 / 256)), (Z.mod_small (d / 256 / 256 / 256)) in H3 by (split; auto; apply Hp; lia).
  rewrite (Z.div_mod c 256), (Z.div_mod d 256), (Z.div_mod (c / 256) 256), (Z.div_mod (d / 256) 256),
    (Z.div_mod (c / 256 / 256) 256), (Z.div_mod (d / 256 / 256) 256) by lia. congruence.
Qed.

Section key_agree.
Context (k q : FwPolKey) (Hk : key_ok k) (Hq : key_ok q).

Lemma key_agree_class n : 32 ≤ n → agree n (key_bytes k) (key_bytes q) → k_class k = k_class q.
Proof.
  intros Hn H. apply (agree_mono 32) in H; [|done].
  apply (agree_app 0 (le32 (k_class k)) _ (le32 (k_class q))) in H as [H _]; [|done|done].
  destruct Hk as [? _], Hq as [? _]. apply le32_inj; [done..|]. by apply agree_full in H; [|apply le32_ok..|].
Qed.

Lemma key_agree_any : agree 32 (key_bytes k) (key_bytes q) ↔ k_class k = k_class q.
Proof.
  split; [by apply key_agree_class|]. intros He. unfold key_bytes. rewrite He.
  apply (agree_app 0 (le32 (k_class q)) _ (le32 (k_class q))); [done|done|]. split; [apply agree_refl|]. intros i Hi. lia.
Qed.

Lemma key_agree_proto b : 0 ≤ b →
  agree (40 + b) (key_bytes k) (key_bytes q) ↔ k_class k = k_class q ∧ k_proto k = k_proto q ∧ agree b (k_port k) (k_port q).
Proof.
  intros Hb. destruct Hk as (_ & Hkp & _ & _), Hq as (_ & Hqp & _ & _).
  unfold key_bytes. replace (40 + b) with (8 * Z.of_nat (length (le32 (k_class k))) + (8 + b)) by (cbn; lia).
  rewrite agree_app by (done || lia).
  replace (8 + b) with (8 * Z.of_nat (length [k_proto k]) + b) by (cbn; lia).
  rewrite agree_app by (done || lia). rewrite !agree_full by (done || apply le32_ok || (by constructor)).
  split.
  - intros (H1 & [= H2] & H3). split_and!; try done. apply le32_inj; [apply Hk|apply Hq|done].
  - intros (-> & -> & H3). done.
Qed.

End key_agree.

(** ** Shadowing among entries *)

Definition entry_ok (e : Entry) : Prop := key_ok (key e) ∧ 32 ≤ plen e ≤ 56.

(** Higher precedence, and every key the other matches. *)
Definition outranks (x e : Entry) : bool := (prec e <? prec x) && covers x e.

Lemma insert_put s e : insert s e = put outranks e s.
Proof. done. Qed.

Lemma covers_agree x e :
  entry_ok x → entry_ok e → covers x e = true ↔ plen x ≤ plen e ∧ agree (plen x) (key_bytes (key x)) (key_bytes (key e)).
Proof.
  intros [Hx Hpx] [He Hpe]. destruct (key_bytes_ok _ Hx) as [Hbx Hlx], (key_bytes_ok _ He) as [Hbe Hle].
  unfold covers. rewrite andb_true_iff, Z.leb_le, bits_match_agree; [done|done|done|by rewrite Hlx|rewrite Hlx; lia].
Qed.

Lemma outranks_irrefl e : outranks e e = false.
Proof. unfold outranks. by rewrite Z.ltb_irrefl. Qed.

Lemma outranks_trans a b d :
  entry_ok a → entry_ok b → entry_ok d → outranks a b = true → outranks b d = true → outranks a d = true.
Proof.
  unfold outranks. rewrite !andb_true_iff. intros Ha Hb Hd [H1 H2] [H3 H4]. split; [lia|].
  apply covers_agree in H2 as [? H2]; [|done|done]. apply covers_agree in H4 as [? H4]; [|done|done].
  apply covers_agree; [done|done|]. split; [lia|]. by eapply agree_trans.
Qed.

(** [o] is the greatest value of [P], if it has one. *)
Definition greatest (P : Z → Prop) (o : option Z) : Prop :=
  match o with Some p => P p ∧ ∀ q, P q → q ≤ p | None => ∀ q, ¬ P q end.

(** Precedences of the entries that match a key. *)
Definition hit (E : list Entry) (k : FwPolKey) (p : Z) : Prop :=
  ∃ e, e ∈ E ∧ agree (plen e) (key_bytes (key e)) (key_bytes k) ∧ prec e = p.

(** In a settled bucket the longest match has the greatest precedence of all that
    was inserted. *)
Lemma settled_longest E s k x :
  settled outranks E s → Forall entry_ok E → key_ok k →
  x ∈ s → agree (plen x) (key_bytes (key x)) (key_bytes k) →
  (∀ y, y ∈ s → agree (plen y) (key_bytes (key y)) (key_bytes k) → plen y ≤ plen x) →
  ∀ q, hit E k q → q ≤ prec x.
Proof.
  intros Hs Hok Hk Hx Hax Hmax q (e & He & Hae & <-). rewrite Forall_forall in Hok.
  pose proof (st_from _ _ _ Hs) as Hf.
  assert (∃ y, y ∈ s ∧ agree (plen y) (key_bytes (key y)) (key_bytes k) ∧ prec e ≤ prec y) as (y & Hy & Hay & Hle).
  { destruct (st_cover _ _ _ Hs e He) as [Hin|(y & Hy & [Hp Hc]%andb_true_iff)]; [exists e; split_and!; [done..|lia]|].
    apply covers_agree in Hc as [? Hc]; [|auto|auto]. exists y. split_and!; [done|by eapply agree_trans|lia]. }
  destruct (decide (prec y ≤ prec x)) as [|Hgt]; [lia|exfalso]. pose proof (Hmax y Hy Hay).
  assert (outranks y x = true) as Ho; [|by rewrite (st_live _ _ _ Hs y x Hy Hx) in Ho].
  apply andb_true_iff. split; [lia|]. apply covers_agree; [auto|auto|]. split; [done|].
  apply (agree_trans _ (plen x) _ (key_bytes k)); [done|done|by apply agree_sym].
Qed.

(** ** Buckets *)

Definition bucket (m : gmap Z (list Entry)) (c : Z) : list Entry := default [] (m !! c).

Definition rule_entries (p : Z) (r : Parsed) (c : Z) : list Entry :=
  (fun s => mkEntry s.1 (mkPolKey c (p_proto r) s.2) p) <$> suffixes_of r.

(** What one class receives, in order. *)
Fixpoint entries_for (cls : list (list Z * Z * Z)) (c rank : Z) (rules : list Parsed) : list Entry :=
  match rules with
  | [] => []
  | r :: rules =>
      (List.filter (Z.eqb c) (targets_of cls r) ≫= fun _ => rule_entries (fw_precedence (u32 rank) (p_allow r)) r c) ++
      entries_for cls c (rank + 1) rules
  end.

Lemma add_class_bucket r p c m d :
  bucket (add_class r p c m) d = if d =? c then put_all outranks (rule_entries p r c) (bucket m d) else bucket m d.
Proof.
  unfold add_class, bucket. destruct (Z.eqb_spec d c) as [->|Hn].
  - rewrite lookup_insert_eq. cbn. unfold rule_entries, put_all. generalize (default [] (m !! c)).
    induction (suffixes_of r) as [|s l IH]; intros b; cbn; [done|]. apply IH.
  - by rewrite lookup_insert_ne.
Qed.

Lemma add_classes_bucket r p l m d :
  bucket (foldl (fun m c => add_class r p c m) m l) d =
  put_all outranks (List.filter (Z.eqb d) l ≫= fun _ => rule_entries p r d) (bucket m d).
Proof.
  revert m. induction l as [|c l IH]; intros m; cbn; [done|]. rewrite IH, add_class_bucket.
  destruct (Z.eqb_spec d c) as [->|]; [|done]. csimpl. symmetry. apply put_all_app.
Qed.

Lemma add_rules_bucket cls rank rules m d :
  bucket (add_rules cls rank rules m) d = put_all outranks (entries_for cls d rank rules) (bucket m d).
Proof.
  revert rank m. induction rules as [|r rules IH]; intros rank m; cbn; [done|].
  rewrite IH. unfold add_rule. rewrite add_classes_bucket. symmetry. apply put_all_app.
Qed.

Lemma elem_of_entries_for cls c rank rules e :
  e ∈ entries_for cls c rank rules ↔
  ∃ (i : nat) r, rules !! i = Some r ∧ c ∈ targets_of cls r ∧
    e ∈ rule_entries (fw_precedence (u32 (rank + Z.of_nat i)) (p_allow r)) r c.
Proof.
  revert rank. induction rules as [|r rules IH]; intros rank; cbn [entries_for].
  { split; [by intros ?%elem_of_nil|]. by intros (i & r & Hi & _). }
  rewrite elem_of_app, IH, list_elem_of_bind. setoid_rewrite elem_of_list_filter_b. setoid_rewrite Z.eqb_eq. split.
  - intros [(d & He & Hd & ->)|(i & r' & Hi & Ht & He)].
    + exists 0%nat, r. split_and!; [done|done|]. by rewrite Z.add_0_r.
    + exists (S i), r'. split_and!; [done|done|]. by replace (rank + Z.of_nat (S i)) with (rank + 1 + Z.of_nat i) by lia.
  - intros ([|i] & r' & Hi & Ht & He).
    + left. injection Hi as ->. exists c. rewrite Z.add_0_r in He. done.
    + right. exists i, r'. split_and!; [done|done|]. by replace (rank + 1 + Z.of_nat i) with (rank + Z.of_nat (S i)) by lia.
Qed.

(** ** Rules the compiler is given *)

Definition sel_ok (s : Selector) : Prop :=
  match s with
  | Any => True
  | Ports lo hi => 0 ≤ lo ≤ hi ∧ hi < 65536
  | Icmp t c => 0 ≤ t < 256 ∧ (∀ x, c = Some x → 0 ≤ x < 256)
  end.

Record parsed_ok (w : nat) (r : Parsed) : Prop := {
  po_bytes : bytes_ok (p_peer r);
  po_width : length (p_peer r) = w;
  po_len : 0 ≤ p_len r ≤ 8 * Z.of_nat w;
  po_proto : 0 ≤ p_proto r < 256;
  po_sel : sel_ok (p_sel r)
}.

Lemma be16_ok v : bytes_ok (be16 v).
Proof. repeat constructor; apply u8_range. Qed.

Lemma port_prefixes_spec lo hi :
  0 ≤ lo → hi < 65536 →
  Forall pair_ok (port_prefixes lo hi) ∧ ∀ d, Exists (pair_covers d) (port_prefixes lo hi) ↔ lo ≤ d ≤ hi.
Proof. intros. apply port_loop_spec; lia. Qed.

Lemma suffix_ok w r s : parsed_ok w r → s ∈ suffixes_of r → 32 ≤ s.1 ≤ 56 ∧ bytes_ok s.2 ∧ length s.2 = 2%nat.
Proof.
  intros [_ _ _ _ Hs]. unfold suffixes_of, FW_POL_PREFIX_CLASS, FW_POL_PREFIX_PROTO.
  assert (H0 : bytes_ok [0; 0]) by (repeat constructor; lia).
  destruct (p_proto r =? 0); [intros ->%list_elem_of_singleton; cbn; split_and!; (done || lia)|].
  destruct (p_sel r) as [|lo hi|t [c|]]; cbn in Hs.
  - intros ->%list_elem_of_singleton; cbn; split_and!; (done || lia).
  - intros ([v b] & -> & Hin)%list_elem_of_fmap. destruct (port_prefixes_spec lo hi) as [Hok _]; [lia|lia|].
    rewrite Forall_forall in Hok. destruct (Hok _ Hin) as (_ & Hb & _). cbn in *. split_and!; [lia|lia|apply be16_ok|done].
  - destruct Hs as [Ht Hc]. specialize (Hc c eq_refl).
    intros ->%list_elem_of_singleton; cbn; split_and!; [lia|lia|repeat constructor; lia|done].
  - destruct Hs as [Ht _]. intros ->%list_elem_of_singleton; cbn; split_and!; [lia|lia|repeat constructor; lia|done].
Qed.

Lemma rule_entries_ok w r p c e : parsed_ok w r → 0 ≤ c < 2 ^ 32 → e ∈ rule_entries p r c → entry_ok e ∧ k_class (key e) = c ∧ prec e = p.
Proof.
  intros Hr Hc (s & -> & Hs)%list_elem_of_fmap. destruct (suffix_ok w r s Hr Hs) as (Hp & Hb & Hl).
  split_and!; [|done|done]. split; cbn; [|lia]. split_and!; cbn; try done; try lia; apply (po_proto w r Hr).
Qed.

Lemma entries_for_ok w cls c rank rules :
  Forall (parsed_ok w) rules → 0 ≤ c < 2 ^ 32 →
  Forall entry_ok (entries_for cls c rank rules) ∧ Forall (fun e => k_class (key e) = c) (entries_for cls c rank rules).
Proof.
  intros Hr Hc. rewrite !Forall_forall. split; intros e (i & r & Hi & _ & He)%elem_of_entries_for;
    (apply (rule_entries_ok w) in He as (? & ? & _); [done|by eapply Forall_lookup_1|done]).
Qed.

(** ** Classes *)

Lemma elem_of_dedup x l : x ∈ dedup l ↔ x ∈ l.
Proof.
  induction l as [|y l IH]; cbn; [done|]. destruct (dedup l) as [|z l'].
  - rewrite !elem_of_cons, <-IH. set_solver.
  - case_decide; subst; rewrite ?elem_of_cons in *; naive_solver.
Qed.

Lemma elem_of_prefixes a l rules :
  (a, l) ∈ prefixes_of rules ↔ ∃ r, r ∈ rules ∧ 0 < p_len r ∧ a = p_peer r ∧ l = p_len r.
Proof.
  unfold prefixes_of. rewrite elem_of_dedup, merge_sort_Permutation, list_elem_of_fmap.
  setoid_rewrite elem_of_list_filter_b. setoid_rewrite Z.ltb_lt. naive_solver.
Qed.

Lemma elem_of_number a l c prefixes :
  (a, l, c) ∈ number_classes prefixes ↔ ∃ i : nat, prefixes !! i = Some (a, l) ∧ c = Z.of_nat i + 1.
Proof.
  unfold number_classes. rewrite elem_of_lookup_imap. split.
  - intros (i & [a' l'] & [= -> -> ->] & Hi). eauto.
  - intros (i & Hi & ->). exists i, (a, l). done.
Qed.

Lemma elem_of_targets cls r c :
  c ∈ targets_of cls r ↔
  if p_len r =? 0 then c = FW_CLASS_ANY
  else ∃ a l, (a, l, c) ∈ cls ∧ p_len r ≤ l ∧ bits_match a (p_peer r) (p_len r) = true.
Proof.
  unfold targets_of. destruct (p_len r =? 0); [apply list_elem_of_singleton|].
  rewrite list_elem_of_fmap. setoid_rewrite elem_of_list_filter_b. setoid_rewrite andb_true_iff. setoid_rewrite Z.leb_le. split.
  - intros ([[a l] c'] & -> & Hin & Hl & Hb). eauto.
  - intros (a & l & Hin & Hl & Hb). exists (a, l, c). done.
Qed.

(** ** The compiled tries *)

Section tries.
Context {ro : RangeOrder} {lp : Lpm}.
Context (w : nat) (rules : list Parsed) (family : string) (t : ScopeTries).
Context (Hok : Forall (parsed_ok w) rules) (Ht : compile_family rules family = inr t).

Lemma tries_classes : classes t = number_classes (prefixes_of rules) ∧ Z.of_nat (length (prefixes_of rules)) ≤ FW_SCOPE_MAX_CLASSES.
Proof.
  unfold compile_family in Ht. cbv zeta in Ht. destruct (Z.ltb_spec FW_SCOPE_MAX_CLASSES (Z.of_nat (length (prefixes_of rules)))); [done|].
  destruct (FW_SCOPE_MAX_ENTRIES <? _); [done|]. injection Ht as <-. done.
Qed.

Lemma elem_of_policy n k p :
  (n, k, p) ∈ policy t ↔ ∃ c e, e ∈ bucket (add_rules (classes t) 0 rules ∅) c ∧ n = plen e ∧ k = key e ∧ p = prec e.
Proof.
  destruct tries_classes as [-> _]. unfold compile_family in Ht. cbv zeta in Ht.
  destruct (FW_SCOPE_MAX_CLASSES <? _); [done|]. destruct (FW_SCOPE_MAX_ENTRIES <? _); [done|]. injection Ht as <-. cbn [policy].
  rewrite merge_sort_Permutation, list_elem_of_fmap. setoid_rewrite list_elem_of_bind. unfold bucket. split.
  - intros (e & [= -> -> ->] & [c l] & He & Hc%elem_of_range_map). exists c, e. by rewrite Hc.
  - intros (c & e & He & -> & -> & ->). exists e. split; [done|].
    destruct (add_rules _ 0 rules ∅ !! c) as [l|] eqn:Hc; [|by apply elem_of_nil in He].
    exists (c, l). split; [done|]. by apply elem_of_range_map.
Qed.

Lemma class_id_range a l c : (a, l, c) ∈ classes t → 1 ≤ c < 2 ^ 32.
Proof.
  destruct tries_classes as [-> Hn]. intros (i & Hi%lookup_lt_Some & ->)%elem_of_number. unfold FW_SCOPE_MAX_CLASSES in Hn. lia.
Qed.

Lemma bucket_settled c : 0 ≤ c < 2 ^ 32 →
  settled outranks (entries_for (classes t) c 0 rules) (bucket (add_rules (classes t) 0 rules ∅) c).
Proof.
  intros Hc. rewrite add_rules_bucket. unfold bucket. rewrite lookup_empty. cbn [default].
  apply (put_all_settled outranks entry_ok outranks_irrefl outranks_trans _ [] []); [|apply settled_nil].
  by apply (entries_for_ok w).
Qed.

(** Only classes that exist, and class 0, receive entries. *)
Lemma bucket_class c e : e ∈ bucket (add_rules (classes t) 0 rules ∅) c → 0 ≤ c < 2 ^ 32.
Proof.
  rewrite add_rules_bucket. unfold bucket. rewrite lookup_empty. cbn [default]. intros He.
  assert (entries_for (classes t) c 0 rules ≠ []) as Hne by (intros E; rewrite E in He; by apply elem_of_nil in He).
  destruct (entries_for (classes t) c 0 rules) as [|x l] eqn:E; [done|].
  assert (x ∈ entries_for (classes t) c 0 rules) as Hx by (rewrite E; left).
  apply elem_of_entries_for in Hx as (i & r & _ & Hc & _). apply elem_of_targets in Hc.
  destruct (p_len r =? 0); [subst; unfold FW_CLASS_ANY; lia|]. destruct Hc as (a & l' & Hc%class_id_range & _). lia.
Qed.

Lemma bucket_entry c e : e ∈ bucket (add_rules (classes t) 0 rules ∅) c → entry_ok e ∧ k_class (key e) = c.
Proof.
  intros He. pose proof (bucket_class c e He) as Hc. apply (st_from _ _ _ (bucket_settled c Hc)) in He.
  destruct (entries_for_ok w (classes t) c 0 rules Hok Hc) as [H1 H2]. rewrite Forall_forall in H1, H2. auto.
Qed.

Lemma policy_trie_ok k :
  key_ok k → trie_ok ((fun e => (e.1.1, key_bytes e.1.2, e.2)) <$> policy t) (key_bytes k).
Proof.
  intros Hk. destruct (key_bytes_ok k Hk) as [Hb Hl]. split; [done|]. apply Forall_fmap, Forall_forall.
  intros [[n k'] p] (c & e & He & -> & -> & ->)%elem_of_policy. unfold compose. cbn [fst snd]. destruct (bucket_entry c e He) as [[Hke Hp] _].
  destruct (key_bytes_ok _ Hke) as [Hb' Hl']. split_and!; [done|by rewrite Hl', Hl|lia|rewrite Hl; lia].
Qed.

(** A probe finds the greatest precedence among the entries its class received. *)
Lemma fw_policy_greatest k :
  key_ok k → greatest (hit (entries_for (classes t) (k_class k) 0 rules) k) (fw_policy t k).
Proof.
  intros Hk. pose proof (policy_trie_ok k Hk) as Htk. assert (Hc : 0 ≤ k_class k < 2 ^ 32) by apply Hk.
  pose proof (bucket_settled _ Hc) as Hs. unfold fw_policy.
  assert (Hin : ∀ n b p, (n, b, p) ∈ (fun e => (e.1.1, key_bytes e.1.2, e.2)) <$> policy t → agree n b (key_bytes k) →
    ∃ e, e ∈ bucket (add_rules (classes t) 0 rules ∅) (k_class k) ∧ n = plen e ∧ b = key_bytes (key e) ∧ p = prec e).
  { intros n b p ([[n' k'] p'] & [= -> -> ->] & (c & e & He & -> & -> & ->)%elem_of_policy)%list_elem_of_fmap Ha.
    destruct (bucket_entry c e He) as [[Hke Hpe] Hce]. cbn in Ha.
    apply key_agree_class in Ha; [|done|done|lia]. exists e. rewrite Hce in Ha. rewrite <-Ha. done. }
  assert (Hout : ∀ e, e ∈ bucket (add_rules (classes t) 0 rules ∅) (k_class k) →
    (plen e, key_bytes (key e), prec e) ∈ (fun e => (e.1.1, key_bytes e.1.2, e.2)) <$> policy t).
  { intros e He. apply list_elem_of_fmap. exists (plen e, key e, prec e). split; [done|]. apply elem_of_policy. eauto 10. }
  destruct (lpm _ _) as [p|] eqn:Hl.
  - destruct (lpm_some _ _ _ Htk Hl) as (n & b & Hn & Ha & Hmax). destruct (Hin _ _ _ Hn Ha) as (x & Hx & -> & -> & ->). split.
    + exists x. split_and!; [by apply (st_from _ _ _ Hs)|done|done].
    + apply (settled_longest _ _ k x Hs); [by apply (entries_for_ok w)|done|done|done|].
      intros y Hy Hay. eapply Hmax; [by apply Hout|done].
  - pose proof (lpm_none _ _ Htk Hl) as Hno. intros q (e & He & Ha & _).
    destruct (st_cover _ _ _ Hs e He) as [Hb|(y & Hy & [_ Hc']%andb_true_iff)]; [by apply (Hno _ _ _ (Hout e Hb))|].
    apply (Hno _ _ _ (Hout y Hy)). apply covers_agree in Hc' as [Hp Hc'].
    + by eapply agree_trans.
    + by apply (bucket_entry _ _ Hy).
    + destruct (entries_for_ok w (classes t) _ 0 rules Hok Hc) as [H1 _]. by eapply Forall_forall in He.
Qed.

(** *** The class of a peer *)

Lemma class_trie_ok peer : bytes_ok peer → length peer = w → trie_ok ((fun c => (c.1.2, c.1.1, c.2)) <$> classes t) peer.
Proof.
  intros Hb Hl. split; [done|]. apply Forall_fmap, Forall_forall. intros [[a l] c]. destruct tries_classes as [-> _].
  intros (i & Hi%list_elem_of_lookup_2 & _)%elem_of_number. apply elem_of_prefixes in Hi as (r & Hr & _ & -> & ->). cbn.
  rewrite Forall_forall in Hok. destruct (Hok r Hr). split_and!; [done|congruence|lia|rewrite Hl; lia].
Qed.

(** A class of a rule with a peer prefix; the rule's own prefix is a class. *)
Lemma own_class r : r ∈ rules → 0 < p_len r → ∃ c, (p_peer r, p_len r, c) ∈ classes t.
Proof.
  intros Hr Hl. destruct tries_classes as [-> _]. assert ((p_peer r, p_len r) ∈ prefixes_of rules) as Hp by (apply elem_of_prefixes; eauto).
  apply list_elem_of_lookup_1 in Hp as [i Hi]. exists (Z.of_nat i + 1). apply elem_of_number. eauto.
Qed.

Lemma class_prefix a l c : (a, l, c) ∈ classes t → bytes_ok a ∧ length a = w ∧ 0 < l.
Proof.
  destruct tries_classes as [-> _]. intros (i & Hi%list_elem_of_lookup_2 & _)%elem_of_number.
  apply elem_of_prefixes in Hi as (r & Hr & Hl & -> & ->). rewrite Forall_forall in Hok. destruct (Hok r Hr). done.
Qed.

(** A rule with a peer prefix reaches the peer's class exactly when its prefix
    holds the peer. *)
Lemma fw_class_targets peer r :
  bytes_ok peer → length peer = w → r ∈ rules → 0 < p_len r →
  (∃ c, fw_class t peer = Some c ∧ c ∈ targets_of (classes t) r) ↔ agree (p_len r) (p_peer r) peer.
Proof.
  intros Hb Hw Hr Hlen. pose proof (class_trie_ok peer Hb Hw) as Hct. unfold fw_class.
  destruct (proj1 (Forall_forall _ _) Hok r Hr) as [Hpb Hpw Hpl _ _].
  assert (Htar : ∀ c, c ∈ targets_of (classes t) r ↔ ∃ a l, (a, l, c) ∈ classes t ∧ p_len r ≤ l ∧ agree (p_len r) a (p_peer r)).
  { intros c. rewrite elem_of_targets. replace (p_len r =? 0) with false by lia. split; intros (a & l & Hin & Hle & Hm);
      exists a, l; (split_and!; [done|done|]); destruct (class_prefix a l c Hin) as (Ha & Hla & _);
      (apply bits_match_agree; [done|done|congruence|rewrite Hla; lia|done]) || (apply bits_match_agree in Hm; [done|done|done|congruence|rewrite Hla; lia]). }
  split.
  - intros (c & Hl & (a & l & Hin & Hle & Ha)%Htar). destruct (lpm_some _ _ _ Hct Hl) as (n & b & Hn & Hag & Hmax).
    apply list_elem_of_fmap in Hn as ([[b' n'] c'] & [= -> -> ->] & Hin').
    destruct tries_classes as [Hcl _]. rewrite Hcl in Hin, Hin'. apply elem_of_number in Hin as (i & Hi & ->).
    apply elem_of_number in Hin' as (j & Hj & Hij). assert (i = j) as -> by lia. rewrite Hi in Hj. injection Hj as -> ->.
    apply (agree_trans _ n' _ b'); [done|by apply agree_sym|done].
  - intros Ha. destruct (own_class r Hr Hlen) as [c0 Hc0].
    assert (Hx : (p_len r, p_peer r, c0) ∈ (fun c => (c.1.2, c.1.1, c.2)) <$> classes t)
      by (apply list_elem_of_fmap; by exists (p_peer r, p_len r, c0)).
    destruct (lpm _ peer) as [c|] eqn:Hl; [|by destruct (lpm_none _ _ Hct Hl _ _ _ Hx)].
    exists c. split; [done|]. destruct (lpm_some _ _ _ Hct Hl) as (n & b & Hn & Hag & Hmax). specialize (Hmax _ _ _ Hx Ha).
    apply list_elem_of_fmap in Hn as ([[b' n'] c'] & [= -> -> ->] & Hin'). apply Htar. exists b', n'. split_and!; [done|done|].
    apply (agree_trans _ (p_len r) _ peer); [lia|by apply (agree_mono _ n')|by apply agree_sym].
Qed.

Lemma fw_class_nonzero peer c : bytes_ok peer → length peer = w → fw_class t peer = Some c → 1 ≤ c < 2 ^ 32.
Proof.
  intros Hb Hw Hl. destruct (lpm_some _ _ _ (class_trie_ok peer Hb Hw) Hl) as (n & b & Hn & _).
  apply list_elem_of_fmap in Hn as ([[b' n'] c'] & [= -> -> ->] & Hin). by eapply class_id_range.
Qed.

End tries.

(** ** What an entry's suffix matches *)

Definition sel_matches (r : Parsed) (proto : Z) (port : list Z) : bool :=
  (p_proto r =? 0) ||
  ((p_proto r =? proto) &&
   match p_sel r with
   | Any => true
   | Ports lo hi => (lo <=? be port) && (be port <=? hi)
   | Icmp t None => t =? port !!! 0%nat
   | Icmp t (Some c) => bool_decide (port = [t; c])
   end).

Lemma be_range l : bytes_ok l → 0 ≤ be l < 65536.
Proof. intros H. pose proof (bytes_ok_lookup l 0 H). pose proof (bytes_ok_lookup l 1 H). unfold be. lia. Qed.

Lemma be16_be l : bytes_ok l → length l = 2%nat → be16 (be l) = l.
Proof.
  intros Hb Hl. destruct l as [|x [|y [|]]]; try done. apply Forall_cons in Hb as [Hx Hb]. apply Forall_cons in Hb as [Hy _].
  unfold be16, be, u8. cbn [lookup_total list_lookup_total]. rewrite Z.shiftr_div_pow2 by lia. change (2 ^ 8) with 256.
  rewrite Z.div_add_l, (Z.div_small y), Z.add_0_r, (Z.mod_small x), (Z.add_comm _ y), Z.mod_add, Z.mod_small by lia. done.
Qed.

Lemma agree_first t x port : 0 ≤ t < 256 → bytes_ok port → agree 8 (t :: x) port ↔ t = port !!! 0%nat.
Proof.
  intros Ht Hp. rewrite agree_split by lia. change (8 / 8) with 1. change (8 mod 8) with 0. split.
  - intros [H _]. apply byte_eq; [done|by apply bytes_ok_lookup|]. by apply (H 0%nat).
  - intros E. split; [|intros j Hj; lia]. intros k Hk j Hj. assert (k = 0%nat) as -> by lia. cbn. by rewrite E.
Qed.

Section suffix.
Context (w : nat) (r : Parsed) (Hr : parsed_ok w r).
Context (c proto : Z) (port : list Z) (Hq : key_ok (mkPolKey c proto port)).

Lemma suffix_agree :
  (∃ s, s ∈ suffixes_of r ∧ agree s.1 (key_bytes (mkPolKey c (p_proto r) s.2)) (key_bytes (mkPolKey c proto port))) ↔
  sel_matches r proto port = true.
Proof.
  assert (Hb : bytes_ok port ∧ length port = 2%nat) by (destruct Hq as (_ & _ & ? & ?); done). destruct Hb as [Hpb Hpl].
  assert (Hkey : ∀ s, s ∈ suffixes_of r → key_ok (mkPolKey c (p_proto r) s.2)).
  { intros s Hs. destruct (suffix_ok w r s Hr Hs) as (_ & ? & ?). destruct Hq as (? & _). destruct Hr. split_and!; cbn in *; (done || lia). }
  pose proof (po_sel w r Hr) as Hsel. unfold sel_matches, suffixes_of, FW_POL_PREFIX_CLASS, FW_POL_PREFIX_PROTO in *.
  destruct (p_proto r =? 0) eqn:E0.
  { split; [done|]. intros _. eexists. split; [by left|]. by apply key_agree_any; [apply Hkey; left|..]. }
  rewrite orb_false_l, andb_true_iff, Z.eqb_eq.
  assert (Hone : ∀ b x, 0 ≤ b → key_ok (mkPolKey c (p_proto r) x) →
    agree (40 + b) (key_bytes (mkPolKey c (p_proto r) x)) (key_bytes (mkPolKey c proto port)) ↔ p_proto r = proto ∧ agree b x port).
  { intros b x Hb Hk. rewrite key_agree_proto by done. cbn. tauto. }
  destruct (p_sel r) as [|lo hi|t [c'|]]; cbn in Hsel.
  - split.
    + intros (s & ->%list_elem_of_singleton & Ha). apply (Hone 0) in Ha; [|done|apply Hkey; left]. tauto.
    + intros [Hp _]. eexists. split; [by left|]. apply (Hone 0); [done|apply Hkey; left|]. split; [done|]. intros i Hi. lia.
  - destruct (port_prefixes_spec lo hi) as [Hpok Hpcov]; [lia|lia|]. specialize (Hpcov (be port)). rewrite Forall_forall in Hpok.
    pose proof (be_range port Hpb) as Hbr. rewrite Exists_exists in Hpcov.
    assert (Hvb : ∀ vb, vb ∈ port_prefixes lo hi → agree vb.2 (be16 vb.1) port ↔ pair_covers (be port) vb).
    { intros vb Hvb. rewrite <-(pair_agree vb (be port)) by auto. by rewrite be16_be. }
    rewrite andb_true_iff, !Z.leb_le, <-Hpcov. split.
    + intros (s & Hs & Ha). assert (Hs' := Hs). apply list_elem_of_fmap in Hs as (vb & -> & Hin). cbn in Ha.
      apply Hone in Ha as [Hp Ha]; [|apply (Hpok vb Hin)|apply (Hkey _ Hs')]. split; [done|]. exists vb. split; [done|]. by apply Hvb.
    + intros (Hp & vb & Hin & Hcov). assert (Hs : (40 + vb.2, be16 vb.1) ∈ (fun vb => (40 + vb.2, be16 vb.1)) <$> port_prefixes lo hi)
        by (apply list_elem_of_fmap; eauto). eexists. split; [exact Hs|]. cbn. apply Hone; [apply (Hpok vb Hin)|apply (Hkey _ Hs)|].
      split; [done|]. by apply Hvb.
  - destruct Hsel as [Ht Hc]. specialize (Hc c' eq_refl). rewrite bool_decide_eq_true.
    assert (Hx : agree 16 [t; c'] port ↔ port = [t; c']).
    { pose proof (agree_full [t; c'] port) as H. cbn in H. rewrite H; [split; congruence|repeat constructor; lia|done|done]. }
    rewrite <-Hx. split.
    + intros (s & ->%list_elem_of_singleton & Ha). apply (Hone 16) in Ha; [done|done|apply (Hkey (40 + 16, [t; c'])); left].
    + intros Ha. eexists. split; [by left|]. apply (Hone 16); [done|apply (Hkey (40 + 16, [t; c'])); left|done].
  - destruct Hsel as [Ht _]. rewrite Z.eqb_eq, <-(agree_first t [0] port) by done. split.
    + intros (s & ->%list_elem_of_singleton & Ha). apply (Hone 8) in Ha; [done|done|apply (Hkey (40 + 8, [t; 0])); left].
    + intros Ha. eexists. split; [by left|]. apply (Hone 8); [done|apply (Hkey (40 + 8, [t; 0])); left|done].
Qed.

End suffix.

(** ** Precedences *)

Lemma fw_precedence_eq rank allow :
  0 ≤ rank ≤ FW_RANK_MAX → fw_precedence (u32 rank) allow = (FW_RANK_MAX - rank) * 2 ^ 8 + (if allow then 1 else 255).
Proof.
  unfold FW_RANK_MAX. intros Hr. unfold fw_precedence, FW_RANK_MAX, FW_PREC_ALLOW, FW_PREC_DENY. rewrite (u32_small rank) by lia.
  replace (16777215 <? rank) with false by lia. rewrite Z.shiftl_mul_pow2 by lia. rewrite u32_small by lia.
  apply lor_low; [lia|]. destruct allow; lia.
Qed.

Lemma fw_precedence_verdict rank allow :
  0 ≤ rank ≤ FW_RANK_MAX → fw_precedence_allows (fw_precedence (u32 rank) allow) = allow.
Proof.
  intros Hr. rewrite fw_precedence_eq by done. unfold fw_precedence_allows. change 255 with (Z.ones 8) at 2.
  rewrite Z.land_ones, Z.add_comm, Z.mod_add by lia. by destruct allow.
Qed.

Lemma fw_precedence_order i j a b :
  0 ≤ i ≤ FW_RANK_MAX → 0 ≤ j ≤ FW_RANK_MAX →
  fw_precedence (u32 i) a ≤ fw_precedence (u32 j) b → j ≤ i.
Proof. intros Hi Hj. rewrite !fw_precedence_eq by done. change (2 ^ 8) with 256. destruct a, b; lia. Qed.

(** ** The classifier of one family *)

(** A rule matches: its prefix holds the peer and its selector the rest. *)
Definition parsed_matches (peer : list Z) (proto : Z) (port : list Z) (r : Parsed) : bool :=
  bits_match (p_peer r) peer (p_len r) && sel_matches r proto port.

Definition first_parsed (rules : list Parsed) (peer : list Z) (proto : Z) (port : list Z) : Z :=
  match List.find (parsed_matches peer proto port) rules with
  | Some r => if p_allow r then FW_ACTION_ACCEPT else FW_ACTION_DROP
  | None => FW_ACTION_DROP
  end.

Lemma find_first {A : Type} (P : A → bool) l x :
  List.find P l = Some x → ∃ i : nat, l !! i = Some x ∧ P x = true ∧ ∀ (j : nat) y, l !! j = Some y → P y = true → (i ≤ j)%nat.
Proof.
  induction l as [|a l IH]; cbn; [done|]. destruct (P a) eqn:Ha.
  - intros [= ->]. exists 0%nat. split_and!; [done|done|lia].
  - intros (i & Hi & HP & Hmin)%IH. exists (S i). split_and!; [done|done|]. intros [|j] y Hj Hy; [cbn in Hj; congruence|].
    specialize (Hmin j y Hj Hy). lia.
Qed.

Lemma greatest_or P Q a b :
  greatest P a → greatest Q b →
  greatest (fun p => P p ∨ Q p)
    (match a, b with Some a, Some b => Some (if b <? a then a else b) | a, None => a | None, b => b end).
Proof.
  destruct a as [a|], b as [b|]; cbn.
  - intros [Ha Hma] [Hb Hmb]. destruct (Z.ltb_spec b a); (split; [by auto|]); intros q [Hq%Hma|Hq%Hmb]; lia.
  - intros [Ha Hma] Hb. split; [by left|]. intros q [Hq|Hq]; [auto|by apply Hb in Hq].
  - intros Ha [Hb Hmb]. split; [by right|]. intros q [Hq|Hq]; [by apply Ha in Hq|auto].
  - intros Ha Hb q [Hq|Hq]; [by eapply Ha|by eapply Hb].
Qed.

Lemma greatest_ext P Q o : (∀ p, P p ↔ Q p) → greatest P o → greatest Q o.
Proof. unfold greatest. destruct o; [|naive_solver]. intros H [H1 H2]. split; [by apply H|]. intros q Hq. apply H2. by apply H. Qed.

Section family.
Context {ro : RangeOrder} {lp : Lpm}.
Context (w : nat) (rules : list Parsed) (family : string) (t : ScopeTries).
Context (Hok : Forall (parsed_ok w) rules) (Ht : compile_family rules family = inr t).
Context (Hranks : Z.of_nat (length rules) ≤ FW_RANK_MAX + 1).
Context (peer : list Z) (proto : Z) (port : list Z).
Context (Hpb : bytes_ok peer) (Hpw : length peer = w) (Hpr : 0 ≤ proto < 256).
Context (Hqb : bytes_ok port) (Hql : length port = 2%nat).

(** The precedences of the rules that satisfy [Q]. *)
Definition ranks_of (Q : Parsed → Prop) (p : Z) : Prop :=
  ∃ (i : nat) r, rules !! i = Some r ∧ Q r ∧ p = fw_precedence (u32 (Z.of_nat i)) (p_allow r).

Lemma ranks_ext (Q Q' : Parsed → Prop) p : (∀ r, r ∈ rules → Q r ↔ Q' r) → ranks_of Q p ↔ ranks_of Q' p.
Proof.
  intros H. split; intros (i & r & Hi & Hq & ->); exists i, r; (split_and!; [done| |done]);
    apply H; try done; by eapply list_elem_of_lookup_2.
Qed.

Lemma ranks_or (Q Q' : Parsed → Prop) p : ranks_of Q p ∨ ranks_of Q' p ↔ ranks_of (fun r => Q r ∨ Q' r) p.
Proof. unfold ranks_of. naive_solver. Qed.

Lemma probe_hits c :
  0 ≤ c < 2 ^ 32 →
  ∀ p, hit (entries_for (classes t) c 0 rules) (mkPolKey c proto port) p ↔
       ranks_of (fun r => c ∈ targets_of (classes t) r ∧ sel_matches r proto port = true) p.
Proof.
  intros Hc p. assert (Hk : key_ok (mkPolKey c proto port)) by (split_and!; cbn; (done || lia)). unfold hit, ranks_of. split.
  - intros (e & (i & r & Hi & Hin & He)%elem_of_entries_for & Ha & <-). exists i, r.
    assert (Hr : parsed_ok w r) by (by eapply Forall_lookup_1).
    destruct (rule_entries_ok w r _ c e Hr Hc He) as (_ & _ & ->). rewrite Z.add_0_l. split_and!; [done|done| |done].
    apply (suffix_agree w r Hr c proto port Hk). apply list_elem_of_fmap in He as (s & -> & Hs). eauto.
  - intros (i & r & Hi & [Hin Hs] & ->). assert (Hr : parsed_ok w r) by (by eapply Forall_lookup_1).
    apply (suffix_agree w r Hr c proto port Hk) in Hs as (s & Hs & Ha).
    exists (mkEntry s.1 (mkPolKey c (p_proto r) s.2) (fw_precedence (u32 (Z.of_nat i)) (p_allow r))). split_and!; [|done|done].
    apply elem_of_entries_for. exists i, r. rewrite Z.add_0_l. split_and!; [done|done|]. apply list_elem_of_fmap. eauto.
Qed.

(** The two probes together find the greatest precedence of the matching rules. *)
Lemma probes_greatest :
  let specific := fw_class t peer ≫= fun c => if c =? FW_CLASS_ANY then None else fw_policy t (mkPolKey c proto port) in
  let any := fw_policy t (mkPolKey FW_CLASS_ANY proto port) in
  greatest (ranks_of (fun r => parsed_matches peer proto port r = true))
    (match specific, any with Some a, Some b => Some (if b <? a then a else b) | a, None => a | None, b => b end).
Proof.
  intros specific any.
  assert (Hr : ∀ r, r ∈ rules → parsed_ok w r) by (by apply Forall_forall).
  assert (Hm : ∀ r, r ∈ rules → bits_match (p_peer r) peer (p_len r) = true ↔ agree (p_len r) (p_peer r) peer).
  { intros r Hin. destruct (Hr r Hin) as [? Hl ?]. apply bits_match_agree; [done|done|congruence|rewrite Hl; lia]. }
  assert (Hany : greatest (ranks_of (fun r => p_len r = 0 ∧ sel_matches r proto port = true)) any).
  { eapply greatest_ext; [|apply (fw_policy_greatest w rules family t Hok Ht); split_and!; cbn; (done || lia)].
    intros p. cbn [k_class]. rewrite probe_hits by (unfold FW_CLASS_ANY; lia). apply ranks_ext. intros r Hin.
    rewrite elem_of_targets. destruct (Z.eqb_spec (p_len r) 0) as [|Hn]; [tauto|]. split; [|tauto].
    intros [(x & l & Hc%(class_id_range rules family t Ht) & _) _]. unfold FW_CLASS_ANY in Hc. lia. }
  assert (Hspec : greatest (ranks_of (fun r => 0 < p_len r ∧ parsed_matches peer proto port r = true)) specific).
  { assert (Hcls : ∀ r, r ∈ rules → 0 < p_len r → parsed_matches peer proto port r = true ↔
      (∃ c, fw_class t peer = Some c ∧ c ∈ targets_of (classes t) r) ∧ sel_matches r proto port = true).
    { intros r Hin Hl. unfold parsed_matches. rewrite andb_true_iff, Hm by done.
      by rewrite (fw_class_targets w rules family t Hok Ht peer r Hpb Hpw Hin Hl). }
    subst specific. destruct (fw_class t peer) as [c|] eqn:Hc; cbn.
    - pose proof (fw_class_nonzero w rules family t Hok Ht peer c Hpb Hpw Hc) as Hcr. unfold FW_CLASS_ANY.
      replace (c =? 0) with false by lia.
      eapply greatest_ext; [|apply (fw_policy_greatest w rules family t Hok Ht); split_and!; cbn; (done || lia)].
      intros p. cbn [k_class]. rewrite probe_hits by lia. apply ranks_ext. intros r Hin. split.
      + intros [Htar Hs]. assert (0 < p_len r).
        { apply elem_of_targets in Htar. destruct (Z.eqb_spec (p_len r) 0) as [E|]; [unfold FW_CLASS_ANY in Htar; lia|].
          pose proof (po_len w r (Hr r Hin)). lia. }
        split; [done|]. apply Hcls; eauto.
      + intros [Hl Hp]. apply Hcls in Hp as [(c' & [= <-] & Htar) Hs]; done.
    - intros q (i & r & Hi & [Hl Hp] & _). apply Hcls in Hp as [(c' & Hc' & _) _]; [done|by eapply list_elem_of_lookup_2|done]. }
  eapply greatest_ext; [|by apply greatest_or]. intros p. cbn. rewrite ranks_or. apply ranks_ext. intros r Hin.
  pose proof (po_len w r (Hr r Hin)). unfold parsed_matches. rewrite andb_true_iff, Hm by done. split.
  - intros [[_ Hp]|[Hz Hs]]; [done|]. split; [|done]. intros i Hi. lia.
  - intros [Ha Hs]. destruct (decide (p_len r = 0)); [by right|left]. split; [lia|done].
Qed.

(** The probes decide as the first rule that matches. *)
Lemma family_first_match : probe (Some t) peer proto port = first_parsed rules peer proto port.
Proof.
  pose proof probes_greatest as Hg. cbv zeta in Hg. unfold probe, fw_probe_verdict. cbn [mbind option_bind].
  set (best := match _ with Some _ => _ | None => _ end) in Hg |- *.
  unfold first_parsed. destruct (List.find (parsed_matches peer proto port) rules) as [r|] eqn:Hf.
  - apply find_first in Hf as (i & Hi & Hp & Hmin).
    assert (Hrange : ∀ (j : nat) x, rules !! j = Some x → 0 ≤ Z.of_nat j ≤ FW_RANK_MAX) by (intros j x Hj%lookup_lt_Some; lia).
    destruct best as [p|]; cbn in Hg.
    + destruct Hg as [(j & x & Hj & Hx & ->) Hmax].
      assert (Z.of_nat j ≤ Z.of_nat i).
      { apply (fw_precedence_order _ _ (p_allow r) (p_allow x)); [by eapply Hrange|by eapply Hrange|]. apply Hmax. exists i, r. done. }
      specialize (Hmin j x Hj Hx). assert (i = j) as -> by lia. rewrite Hi in Hj. injection Hj as ->.
      by rewrite fw_precedence_verdict by (by eapply Hrange).
    + destruct (Hg (fw_precedence (u32 (Z.of_nat i)) (p_allow r))). exists i, r. done.
  - destruct best as [p|]; [|done]. destruct Hg as [(j & x & Hj & Hx & _) _].
    pose proof (List.find_none _ _ Hf x) as Hno. rewrite Hno in Hx; [done|]. apply list_elem_of_In. by eapply list_elem_of_lookup_2.
Qed.

End family.

(** ** Reading the rules *)

(** What the types of a rule and of the packet's selectors guarantee. *)
Record rule_ok (w : nat) (r : FwRule) : Prop := {
  ro_bytes : Forall (fun l => bytes_ok l ∧ length l = w) [src_ip r; src_mask r; dst_ip r; dst_mask r];
  ro_ports : 0 ≤ dst_port_min r ∧ dst_port_max r < 65536;
  ro_icmp : 0 ≤ icmp_type r ∧ 0 ≤ icmp_code r;
  ro_proto : 0 ≤ fr_proto r < 256;
  ro_action : action r = FW_ACTION_DROP ∨ action r = FW_ACTION_ACCEPT
}.

(** An ICMP type and code are octets of the packet. *)
Record selectors_ok (w : nat) (icmp_proto : Z) (s : PacketSelectors) : Prop := {
  so_bytes : Forall (fun l => bytes_ok l ∧ length l = w) [s_src s; s_dst s];
  so_proto : 0 ≤ s_proto s < 256;
  so_ports : 0 ≤ s_sport s < 65536 ∧ 0 ≤ s_dport s < 65536;
  so_icmp : s_proto s = icmp_proto → 0 ≤ s_icmp_type s < 256 ∧ 0 ≤ s_icmp_code s < 256
}.

Definition peer_of (dir : Z) (s : PacketSelectors) : list Z := if dir =? FW_DIR_EGRESS then s_dst s else s_src s.

Definition suffix_of (icmp_proto : Z) (s : PacketSelectors) : list Z :=
  fw_pol_suffix (s_proto s) (s_dport s) (s_icmp_type s, s_icmp_code s) icmp_proto.

Lemma byte_mask_eq b : 0 ≤ b ≤ 8 → byte_mask b = u8 (Z.shiftl 255 (8 - b)).
Proof. intros Hb. unfold byte_mask. by destruct (Z.eqb_spec b 0) as [->|]. Qed.

Lemma byte_bits_range len i : 0 ≤ byte_bits len i ≤ 8.
Proof. unfold byte_bits. lia. Qed.

(** Agreement, byte by byte. *)
Lemma agree_bytes (w : nat) len x y :
  0 ≤ len ≤ 8 * Z.of_nat w →
  agree len x y ↔ ∀ i : nat, (i < w)%nat → top_agree (byte_bits len (Z.of_nat i)) (x !!! i) (y !!! i).
Proof.
  intros Hl. split.
  - intros H i Hi j Hj. unfold byte_bits in Hj. specialize (H (8 * Z.of_nat i + (7 - j)) ltac:(lia)). unfold bit in H.
    assert ((8 * Z.of_nat i + (7 - j)) / 8 = Z.of_nat i) as E1 by (symmetry; apply Z.div_unique with (7 - j); lia).
    assert ((8 * Z.of_nat i + (7 - j)) mod 8 = 7 - j) as E2 by (symmetry; apply Z.mod_unique with (Z.of_nat i); lia).
    rewrite E1, E2, Nat2Z.id in H. replace (7 - (7 - j)) with j in H by lia. done.
  - intros H k Hk. unfold bit. pose proof (Z.div_mod k 8). pose proof (Z.mod_pos_bound k 8). pose proof (Z.div_pos k 8).
    specialize (H (Z.to_nat (k / 8)) ltac:(lia) (7 - k mod 8)). rewrite Z2Nat.id in H by lia. apply H. unfold byte_bits. lia.
Qed.

Lemma masked_lookup a len (i : nat) : (i < length a)%nat → masked a len !!! i = Z.land (a !!! i) (byte_mask (byte_bits len (Z.of_nat i))).
Proof.
  intros Hi. unfold masked. rewrite !list_lookup_total_alt, list_lookup_imap.
  destruct (lookup_lt_is_Some_2 a i Hi) as [x ->]. done.
Qed.

Lemma top_agree_masked b x y : 0 ≤ b ≤ 8 → top_agree b (Z.land x (byte_mask b)) y ↔ top_agree b y x.
Proof.
  intros Hb. rewrite byte_mask_eq by done. split; intros H j Hj; specialize (H j Hj).
  - rewrite Z.land_spec, mask_bit in H by lia. replace ((8 - b <=? j) && (j <? 8)) with true in H by lia. by rewrite andb_true_r in H.
  - rewrite Z.land_spec, mask_bit by lia. replace ((8 - b <=? j) && (j <? 8)) with true by lia. by rewrite andb_true_r.
Qed.

Lemma masked_eq_spec a b mask :
  length a = length mask → length b = length mask →
  masked_eq a b mask = true ↔ ∀ i : nat, (i < length mask)%nat → Z.land (a !!! i) (mask !!! i) = Z.land (b !!! i) (mask !!! i).
Proof.
  revert a b. induction mask as [|m mask IH]; intros [|x a] [|y b] Ha Hb; try done; cbn in *.
  rewrite andb_true_iff, Z.eqb_eq, IH by lia. split.
  - intros [H0 H] [|i] Hi; [done|]. apply H. lia.
  - intros H. split; [by apply (H 0%nat); lia|]. intros i Hi. apply (H (S i)). lia.
Qed.

Lemma count_ones_range b : 0 ≤ count_ones b ≤ 8.
Proof.
  unfold count_ones. pose proof (filter_length_le (Z.testbit b) (seqZ 0 8)) as H. rewrite length_seqZ in H. lia.
Qed.

Lemma prefix_len_spec mask len :
  (length mask ≤ 16)%nat → prefix_len mask = Some len →
  0 ≤ len ≤ 8 * Z.of_nat (length mask) ∧ ∀ i : nat, (i < length mask)%nat → mask !!! i = byte_mask (byte_bits len (Z.of_nat i)).
Proof.
  intros Hl. unfold prefix_len. set (ones := foldr Z.add 0 (count_ones <$> mask)).
  assert (Ho : 0 ≤ ones ≤ 8 * Z.of_nat (length mask)).
  { subst ones. clear Hl. induction mask as [|m mask IH]; cbn; [lia|]. pose proof (count_ones_range m). lia. }
  destruct (forallb id _) eqn:E; [|done]. intros [= <-]. unfold u8. rewrite Z.mod_small by lia. split; [done|].
  intros i Hi. rewrite forallb_forall in E. apply Z.eqb_eq. apply E. apply list_elem_of_In.
  apply elem_of_lookup_imap. exists i, (mask !!! i). split; [done|]. by apply list_lookup_lookup_total_lt.
Qed.

Lemma masked_length a len : length (masked a len) = length a.
Proof. apply length_imap. Qed.

Lemma masked_ok a len : bytes_ok a → bytes_ok (masked a len).
Proof.
  intros H. apply Forall_forall. intros x (i & y & -> & Hi)%elem_of_lookup_imap. eapply Forall_lookup_1 in Hi; [|exact H]. cbn in Hi.
  pose proof (byte_bits_range len (Z.of_nat i)). rewrite byte_mask_eq by done.
  assert (0 ≤ Z.land y (u8 (Z.shiftl 255 (8 - byte_bits len (Z.of_nat i))))) by (apply Z.land_nonneg; lia). split; [done|].
  destruct (decide (Z.land y (u8 (Z.shiftl 255 (8 - byte_bits len (Z.of_nat i)))) = 0)) as [->|]; [lia|].
  apply Z.log2_lt_cancel. change (Z.log2 256) with 8.
  destruct (decide (y = 0)) as [->|]; [by rewrite Z.land_0_l in *|].
  assert (Z.log2 y < 8) by (apply Z.log2_lt_pow2; lia). pose proof (Z.log2_land y (u8 (Z.shiftl 255 (8 - byte_bits len (Z.of_nat i))))).
  pose proof (mask_range (byte_bits len (Z.of_nat i))). lia.
Qed.

(** The masked comparison of a rule's address is agreement on its prefix. *)
Lemma masked_eq_agree peer ip mask len :
  length peer = length mask → length ip = length mask → (length mask ≤ 16)%nat → prefix_len mask = Some len →
  masked_eq peer ip mask = true ↔ agree len (masked ip len) peer.
Proof.
  intros Hp Hi Hl Hlen. destruct (prefix_len_spec mask len Hl Hlen) as [Hr Hm].
  rewrite masked_eq_spec by done. rewrite (agree_bytes (length mask)) by done.
  split; intros H i Hlt; specialize (H i Hlt); pose proof (byte_bits_range len (Z.of_nat i)) as Hb.
  - rewrite masked_lookup by lia. apply top_agree_masked; [done|]. rewrite Hm, byte_mask_eq in H by done.
    by apply (and_mask_eq _ _ _ Hb) in H.
  - rewrite masked_lookup in H by lia. apply (proj1 (top_agree_masked _ _ _ Hb)) in H. rewrite Hm, byte_mask_eq by done.
    by apply (and_mask_eq _ _ _ Hb).
Qed.

Lemma masked_eq_zero a b mask : existsb (fun b => negb (b =? 0)) mask = false → masked_eq a b mask = true.
Proof.
  revert a b. induction mask as [|m mask IH]; intros [|x a] [|y b]; cbn; try done. intros [Hm H]%orb_false_iff.
  assert (m = 0) as -> by lia. rewrite !Z.land_0_r. cbn. by apply IH.
Qed.

Section read.
Context (w : nat) (icmp_proto : Z) (Hw : (w ≤ 16)%nat) (Hicmp : icmp_proto = 1 ∨ icmp_proto = 58).
Context (s : PacketSelectors) (Hs : selectors_ok w icmp_proto s).

(** The protocol and selector tests of the reference. *)
Definition oracle_sel (r : FwRule) : bool :=
  ((fr_proto r =? 0) || (fr_proto r =? s_proto s)) &&
  (if (s_proto s =? 6) || (s_proto s =? 17) then
     (dst_port_min r <=? s_dport s) && (s_dport s <=? dst_port_max r)
   else if s_proto s =? icmp_proto then
     ((icmp_type r =? 65535) || (s_icmp_type s =? icmp_type r)) && ((icmp_code r =? 65535) || (s_icmp_code s =? icmp_code r))
   else true).

Lemma suffix_ports : (s_proto s = 6 ∨ s_proto s = 17) → suffix_of icmp_proto s = be16 (s_dport s) ∧ be (suffix_of icmp_proto s) = s_dport s.
Proof.
  intros Hp. unfold suffix_of, fw_pol_suffix. cbn [fst snd]. replace (s_proto s =? icmp_proto) with false by lia.
  replace ((s_proto s =? IPPROTO_TCP) || (s_proto s =? IPPROTO_UDP)) with true by (unfold IPPROTO_TCP, IPPROTO_UDP; lia).
  split; [done|]. destruct (so_ports w icmp_proto s Hs) as [_ Hd]. unfold be, be16, u8. cbn [lookup_total list_lookup_total].
  rewrite Z.shiftr_div_pow2 by lia. change (2 ^ 8) with 256. rewrite (Z.mod_small (s_dport s / 256)).
  - pose proof (Z.div_mod (s_dport s) 256). lia.
  - split; [apply Z.div_pos; lia|apply Z.div_lt_upper_bound; lia].
Qed.

Lemma suffix_icmp : s_proto s = icmp_proto → suffix_of icmp_proto s = [s_icmp_type s; s_icmp_code s].
Proof.
  intros Hp. unfold suffix_of, fw_pol_suffix. rewrite Hp, Z.eqb_refl. cbn [fst snd]. destruct (so_icmp w icmp_proto s Hs Hp). unfold u8.
  by rewrite !Z.mod_small by lia.
Qed.

Lemma parse_sel_spec r peer len allow :
  rule_ok w r →
  match parse_sel (view r) icmp_proto with
  | inl _ => True
  | inr None => oracle_sel r = false
  | inr (Some sel) => sel_ok sel ∧ oracle_sel r = sel_matches (mkParsed peer len (fr_proto r) sel allow) (s_proto s) (suffix_of icmp_proto s)
  end.
Proof.
  intros [_ Hp Hi Hpr _]. pose proof (so_ports w icmp_proto s Hs) as [_ Hd]. pose proof suffix_ports as Hsp. pose proof suffix_icmp as Hsi.
  pose proof (so_icmp w icmp_proto s Hs) as Hic.
  unfold parse_sel, view, sel_matches, oracle_sel. cbn [v_dports v_icmp v_proto p_proto p_sel].
  destruct ((fr_proto r =? 6) || (fr_proto r =? 17)) eqn:E1.
  - assert (fr_proto r = 6 ∨ fr_proto r = 17) as Hr by lia. replace (fr_proto r =? 0) with false by lia.
    assert (Hsx : fr_proto r = s_proto s → be (suffix_of icmp_proto s) = s_dport s) by (intros E; apply Hsp; lia).
    destruct (Z.ltb_spec (dst_port_max r) (dst_port_min r)).
    { destruct (Z.eqb_spec (fr_proto r) (s_proto s)) as [E|]; [|done]. rewrite <-E, E1. cbn. lia. }
    destruct (Z.eqb_spec (fr_proto r) (s_proto s)) as [E|E]; [rewrite <-E, E1, Hsx by done|];
      (destruct ((dst_port_min r =? 0) && (dst_port_max r =? 65535)) eqn:E2; (split; [cbn; lia|]); cbn; lia).
  - destruct (Z.eqb_spec (fr_proto r) icmp_proto) as [Hri|Hri].
    + replace (fr_proto r =? 0) with false by lia. unfold u8.
      assert (Hsx : fr_proto r = s_proto s → suffix_of icmp_proto s = [s_icmp_type s; s_icmp_code s]) by (intros; apply Hsi; congruence).
      destruct ((icmp_type r =? 65535) && (icmp_code r =? 65535)) eqn:E2.
      { split; [done|]. destruct (Z.eqb_spec (fr_proto r) (s_proto s)) as [E|]; [|done]. rewrite <-E, E1, Hri, Z.eqb_refl. cbn. lia. }
      destruct (icmp_type r =? 65535) eqn:E3; [done|]. destruct (Z.ltb_spec 255 (icmp_type r)); [done|].
      rewrite (Z.mod_small (icmp_type r)) by lia. destruct (icmp_code r =? 65535) eqn:E4.
      { split; [cbn; split; [lia|done]|]. destruct (Z.eqb_spec (fr_proto r) (s_proto s)) as [E|]; [|done].
        rewrite <-E, E1, Hri, Z.eqb_refl, Hsx by done. cbn. lia. }
      destruct (Z.ltb_spec 255 (icmp_code r)); [done|]. rewrite (Z.mod_small (icmp_code r)) by lia.
      split; [cbn; split; [lia|intros ? [= <-]; lia]|]. destruct (Z.eqb_spec (fr_proto r) (s_proto s)) as [E|]; [|done].
      rewrite <-E, E1, Hri, Z.eqb_refl, Hsx by done. cbn. case_bool_decide as Hb; [injection Hb; lia|].
      destruct (Z.eqb_spec (s_icmp_type s) (icmp_type r)); destruct (Z.eqb_spec (s_icmp_code s) (icmp_code r)); try done. congruence.
    + destruct (Z.eqb_spec (fr_proto r) 0) as [H0|H0].
      * destruct ((dst_port_min r =? 0) && (dst_port_max r =? 65535)) eqn:E2; [|done].
        destruct ((icmp_type r =? 65535) && (icmp_code r =? 65535)) eqn:E3; [|done]. cbn. split; [done|].
        destruct ((s_proto s =? 6) || (s_proto s =? 17)); [lia|]. destruct (s_proto s =? icmp_proto); lia.
      * cbn. split; [done|]. destruct (Z.eqb_spec (fr_proto r) (s_proto s)) as [E|]; [|done]. rewrite <-E, E1.
        replace (fr_proto r =? icmp_proto) with false by lia. done.
Qed.

Lemma fw_rule_matches_eq r :
  enabled r ≠ 0 → src_port_min r = 0 → src_port_max r = 65535 →
  fw_rule_matches icmp_proto r s =
    masked_eq (s_src s) (src_ip r) (src_mask r) && masked_eq (s_dst s) (dst_ip r) (dst_mask r) && oracle_sel r.
Proof.
  intros He H0 H1. destruct (so_ports w icmp_proto s Hs) as [Hsp _]. unfold fw_rule_matches, oracle_sel. rewrite H0, H1.
  replace (enabled r =? 0) with false by lia.
  replace (0 <=? s_sport s) with true by lia. replace (s_sport s <=? 65535) with true by lia.
  destruct (fr_proto r =? 0), (fr_proto r =? s_proto s), (masked_eq _ _ _ && masked_eq _ _ _); cbn; try done;
    by destruct ((s_proto s =? 6) || (s_proto s =? 17)).
Qed.

(** The peer's side of a rule, and the interface's own. *)
Lemma sides r dir :
  dir = FW_DIR_INGRESS ∨ dir = FW_DIR_EGRESS → rule_ok w r →
  let '(peer, peer_mask, local_mask) :=
    if dir =? FW_DIR_EGRESS then (dst_ip r, dst_mask r, src_mask r) else (src_ip r, src_mask r, dst_mask r) in
  bytes_ok peer ∧ length peer = w ∧ length peer_mask = w ∧ length (peer_of dir s) = w ∧
  (existsb (fun b => negb (b =? 0)) local_mask = false →
   masked_eq (s_src s) (src_ip r) (src_mask r) && masked_eq (s_dst s) (dst_ip r) (dst_mask r) =
   masked_eq (peer_of dir s) peer peer_mask).
Proof.
  intros Hdir [Hb _ _ _ _]. pose proof (so_bytes w icmp_proto s Hs) as Hsb. rewrite !Forall_cons in Hb. rewrite !Forall_cons in Hsb.
  destruct Hb as ([Hb1 Hl1] & [Hb2 Hl2] & [Hb3 Hl3] & [Hb4 Hl4] & _), Hsb as ([Hs1 Hs2] & [Hs3 Hs4] & _).
  unfold peer_of. destruct Hdir as [-> | ->]; cbn.
  - split_and!; try done. intros Hz. by rewrite (masked_eq_zero _ _ _ Hz), andb_true_r.
  - split_and!; try done. intros Hz. by rewrite (masked_eq_zero _ _ _ Hz).
Qed.

(** Reading one rule keeps what it matches. *)
Lemma parse_spec r dir :
  rule_ok w r → dir = FW_DIR_INGRESS ∨ dir = FW_DIR_EGRESS →
  match parse (view r) dir icmp_proto with
  | inl _ => True
  | inr None => fw_rule_matches icmp_proto r s = false
  | inr (Some p) => parsed_ok w p ∧ (if p_allow p then FW_ACTION_ACCEPT else FW_ACTION_DROP) = action r ∧
      fw_rule_matches icmp_proto r s = parsed_matches (peer_of dir s) (s_proto s) (suffix_of icmp_proto s) p
  end.
Proof.
  intros Hr Hdir. pose proof (sides r dir Hdir Hr) as Hside.
  unfold parse. cbn [view v_enabled v_sports v_allow v_src v_dst v_src_mask v_dst_mask v_proto fst snd].
  destruct (Z.eqb_spec (enabled r) 0) as [He|He]; cbn [negb]; [unfold fw_rule_matches; by rewrite He|].
  destruct (if dir =? FW_DIR_EGRESS then (dst_ip r, dst_mask r, src_mask r) else (src_ip r, src_mask r, dst_mask r)) as [[peer pm] lm].
  destruct Hside as (Hpb & Hpl & Hpm & Hpe & Heq).
  destruct (existsb _ lm); [done|]. specialize (Heq eq_refl).
  destruct ((src_port_min r =? 0) && (src_port_max r =? 65535)) eqn:Esp; cbn [negb]; [|done].
  destruct (prefix_len pm) as [len|] eqn:Elen; [|done]. rewrite fw_rule_matches_eq, Heq by lia.
  destruct (prefix_len_spec pm len) as [Hlen _]; [lia|done|].
  pose proof (parse_sel_spec r (masked peer len) len (action r =? FW_ACTION_ACCEPT) Hr) as Hsel.
  change (mkView _ _ _ _ _ _ _ _ _ _) with (view r). destruct (parse_sel (view r) icmp_proto) as [|[sel|]]; [done| |by rewrite Hsel, andb_false_r].
  destruct Hsel as [Hsok ->]. cbn [p_allow]. split_and!.
  - split; cbn; [by apply masked_ok|by rewrite masked_length|lia|apply Hr|done].
  - destruct (ro_action w r Hr) as [-> | ->]; done.
  - unfold parsed_matches. cbn [p_peer p_len]. f_equal. apply eq_true_iff_eq.
    rewrite (masked_eq_agree _ _ _ len) by (lia || congruence). symmetry. apply bits_match_agree.
    + by apply masked_ok.
    + unfold peer_of. pose proof (so_bytes w icmp_proto s Hs) as Hsb. rewrite !Forall_cons in Hsb. destruct (dir =? FW_DIR_EGRESS); tauto.
    + rewrite masked_length. congruence.
    + rewrite masked_length. lia.
Qed.

(** Reading a whole list keeps the first match. *)
Lemma parse_all_spec dir l ps :
  Forall (rule_ok w) l → dir = FW_DIR_INGRESS ∨ dir = FW_DIR_EGRESS → parse_all dir icmp_proto l = inr ps →
  Forall (parsed_ok w) ps ∧ (length ps ≤ length l)%nat ∧
  first_match icmp_proto s l dir = first_parsed ps (peer_of dir s) (s_proto s) (suffix_of icmp_proto s).
Proof.
  intros Hl Hdir. revert ps. induction Hl as [|r l Hr Hl IH]; intros ps; cbn [parse_all].
  { intros [= <-]. split_and!; [constructor|done|done]. }
  unfold first_match, first_parsed in *. cbn [List.find]. destruct (direction r =? dir); cbn [andb].
  - pose proof (parse_spec r dir Hr Hdir) as Hp. destruct (parse (view r) dir icmp_proto) as [|[p|]]; [done|..].
    + destruct (parse_all dir icmp_proto l) as [|ps'] eqn:E; [done|]. intros [= <-]. destruct (IH ps' eq_refl) as (H1 & H2 & H3).
      destruct Hp as (Hpo & Hpa & ->). split_and!; [by constructor|cbn; lia|]. cbn [List.find].
      by destruct (parsed_matches _ _ _ p).
    + destruct (parse_all dir icmp_proto l) as [|ps'] eqn:E; [done|]. intros [= <-]. destruct (IH ps' eq_refl) as (H1 & H2 & H3).
      rewrite Hp. split_and!; [done|cbn; lia|done].
  - intros Hps. destruct (IH ps Hps) as (H1 & H2 & H3). split_and!; [done|cbn; lia|done].
Qed.

End read.

(** ** Scopes *)

Section scope.
Context {ro : RangeOrder} {lp : Lpm}.
Context (dir : Z) (v4 v6 : list FwRule) (sc : option Scope).
Context (Hdir : dir = FW_DIR_INGRESS ∨ dir = FW_DIR_EGRESS).
Context (H4 : Forall (rule_ok 4) v4) (H6 : Forall (rule_ok 16) v6).
Context (Hn4 : Z.of_nat (length v4) ≤ FW_RANK_MAX + 1) (Hn6 : Z.of_nat (length v6) ≤ FW_RANK_MAX + 1).
Context (Hsc : compile_scope dir v4 v6 = inr sc).

Lemma suffix_bytes w icmp_proto s : selectors_ok w icmp_proto s → bytes_ok (suffix_of icmp_proto s) ∧ length (suffix_of icmp_proto s) = 2%nat.
Proof.
  intros Hs. unfold suffix_of, fw_pol_suffix. cbn [fst snd].
  destruct (s_proto s =? icmp_proto); [split; [repeat constructor; apply u8_range|done]|].
  destruct (_ || _); [split; [apply be16_ok|done]|]. split; [repeat constructor; lia|done].
Qed.

Lemma peer_bytes w icmp_proto s : selectors_ok w icmp_proto s → bytes_ok (peer_of dir s) ∧ length (peer_of dir s) = w.
Proof.
  intros [Hb _ _ _]. rewrite !Forall_cons in Hb. unfold peer_of. destruct (dir =? FW_DIR_EGRESS); tauto.
Qed.

(** One family's tries against the rules they were compiled from. *)
Lemma family_scope w icmp_proto l ps family t s :
  (w ≤ 16)%nat → icmp_proto = 1 ∨ icmp_proto = 58 → Forall (rule_ok w) l → Z.of_nat (length l) ≤ FW_RANK_MAX + 1 →
  parse_all dir icmp_proto l = inr ps → compile_family ps family = inr t → selectors_ok w icmp_proto s →
  probe (Some t) (peer_of dir s) (s_proto s) (suffix_of icmp_proto s) = first_match icmp_proto s l dir.
Proof.
  intros Hw Hi Hl Hn Hp Ht Hs. destruct (parse_all_spec w icmp_proto Hw Hi s Hs dir l ps Hl Hdir Hp) as (Hok & Hlen & ->).
  destruct (suffix_bytes w icmp_proto s Hs) as [Hb1 Hb2]. destruct (peer_bytes w icmp_proto s Hs) as [Hp1 Hp2].
  apply (family_first_match w ps family t Hok Ht); try done; [lia|apply Hs].
Qed.

Lemma first_match_empty w icmp_proto l s :
  (w ≤ 16)%nat → icmp_proto = 1 ∨ icmp_proto = 58 → Forall (rule_ok w) l → parse_all dir icmp_proto l = inr [] → selectors_ok w icmp_proto s →
  first_match icmp_proto s l dir = FW_ACTION_DROP.
Proof. intros Hw Hi Hl Hp Hs. by destruct (parse_all_spec w icmp_proto Hw Hi s Hs dir l [] Hl Hdir Hp) as (_ & _ & ->). Qed.

Lemma scope_first_match :
  (∀ s, selectors_ok 4 1 s → probe (s_v4 <$> sc) (peer_of dir s) (s_proto s) (suffix_of 1 s) = first_match 1 s v4 dir) ∧
  (∀ s, selectors_ok 16 58 s → probe (s_v6 <$> sc) (peer_of dir s) (s_proto s) (suffix_of 58 s) = first_match 58 s v6 dir).
Proof.
  unfold compile_scope in Hsc. destruct (parse_all dir 1 v4) as [|p4] eqn:E4; [done|]. destruct (parse_all dir 58 v6) as [|p6] eqn:E6; [done|].
  destruct (bool_decide (p4 = []) && bool_decide (p6 = [])) eqn:Ee.
  - injection Hsc as <-. apply andb_true_iff in Ee as [->%bool_decide_eq_true ->%bool_decide_eq_true].
    split; intros s Hs; symmetry; (eapply first_match_empty; [| | | |exact Hs]); (done || lia || auto).
  - destruct (compile_family p4 "IPv4") as [|t4] eqn:C4; [done|]. destruct (compile_family p6 "IPv6") as [|t6] eqn:C6; [done|].
    injection Hsc as <-. split; intros s Hs; cbn [fmap option_fmap option_map s_v4 s_v6].
    + by apply (family_scope 4 1 v4 p4 "IPv4"); auto; lia.
    + by apply (family_scope 16 58 v6 p6 "IPv6"); auto; lia.
Qed.

Lemma scope_id_nonzero x : sc = Some x → scope_id_ x ≠ FW_SCOPE_NONE.
Proof.
  intros ->. unfold compile_scope in Hsc. repeat (case_match; try done). injection Hsc as <-. cbn. unfold scope_id.
  case_match; [done|]. by apply Z.eqb_neq.
Qed.

End scope.

(** ** Packets *)

Lemma read_array_ok n pkt off l : bytes_ok pkt → read_array n pkt off = Some l → bytes_ok l ∧ length l = n.
Proof.
  unfold read_array. intros Hp. case_decide as Hl; [|done]. intros [= <-]. split; [|done].
  by apply Forall_take, Forall_drop.
Qed.

Lemma read_u8_ok pkt off : bytes_ok pkt → 0 ≤ default 0 (read_u8 pkt off) < 256.
Proof.
  intros Hp. unfold read_u8. destruct (pkt !! _) as [x|] eqn:E; cbn; [|lia]. exact (Forall_lookup_1 _ _ _ _ Hp E).
Qed.

Lemma read_u16_ok pkt off v : bytes_ok pkt → read_u16_be pkt off = Some v → 0 ≤ v < 65536.
Proof.
  unfold read_u16_be. intros Hp. destruct (read_array 2 pkt off) as [l|] eqn:E; [|done]. intros [= <-].
  apply be_range. by apply read_array_ok in E as [? _].
Qed.

(** What the header readers return. *)
Definition l4_ok (v : Z * Z * Z) : Prop := 0 ≤ v.1.1 < 256 ∧ 0 ≤ v.1.2 < 65536 ∧ 0 ≤ v.2 < 65536.

Lemma l4_ports_ok pkt off v : bytes_ok pkt → l4_ports pkt off = Some v → l4_ok v.
Proof.
  intros Hp. unfold l4_ports. destruct (read_array 20 pkt off) as [hdr|] eqn:Eh; [|done]. cbn [mbind option_bind].
  apply read_array_ok in Eh as [Hh _]; [|done]. pose proof (bytes_ok_lookup hdr 9 Hh).
  destruct (negb _); [done|]. destruct (_ || _).
  - intros (sp & E1 & (dp & E2 & [= <-])%bind_Some)%bind_Some.
    apply read_u16_ok in E1; [|done]. by apply read_u16_ok in E2.
  - destruct (_ =? IPPROTO_ICMP); [|done]. intros (i & E1 & [= <-])%bind_Some. by apply read_u16_ok in E1.
Qed.

Lemma l4_ports_v6_ok pkt off v : bytes_ok pkt → l4_ports_v6 pkt off = Some v → l4_ok v.
Proof.
  intros Hp. unfold l4_ports_v6. pose proof (read_u8_ok pkt (off + 6) Hp) as Hb.
  destruct (read_u8 pkt (off + 6)) as [nh|]; [|done]. cbn [mbind option_bind default] in *. destruct (_ || _).
  - intros (sp & E1 & (dp & E2 & [= <-])%bind_Some)%bind_Some.
    apply read_u16_ok in E1; [|done]. by apply read_u16_ok in E2.
  - destruct (_ =? 58); [|done]. intros (i & E1 & [= <-])%bind_Some. by apply read_u16_ok in E1.
Qed.

Lemma icmp_type_code_ok pkt off : bytes_ok pkt → let '(t, c) := icmp_type_code pkt off in 0 ≤ t < 256 ∧ 0 ≤ c < 256.
Proof.
  intros Hp. unfold icmp_type_code. destruct (read_array 20 pkt off); [|lia]. destruct (_ || _); [lia|].
  destruct (read_array 2 pkt _) as [b|] eqn:E; [|lia]. apply read_array_ok in E as [Hb _]; [|done].
  split; by apply bytes_ok_lookup.
Qed.

Lemma l4_default_ok o (p : Z) : (∀ v, o = Some v → l4_ok v) → 0 ≤ p < 256 → l4_ok (default (p, 0, 0) o).
Proof. intros H Hp. destruct o; cbn; [by apply H|]. split_and!; cbn; lia. Qed.

Lemma selectors4_ok pkt off s : bytes_ok pkt → selectors4 pkt off = Some s → selectors_ok 4 1 s.
Proof.
  intros Hp. unfold selectors4. destruct (read_array 4 pkt (off + 12)) as [src|] eqn:E1; [|done]. cbn [mbind option_bind].
  destruct (read_array 4 pkt (off + 16)) as [dst|] eqn:E2; [|done]. cbn [mbind option_bind].
  pose proof (l4_default_ok (l4_ports pkt off) _ (fun v => l4_ports_ok pkt off v Hp) (read_u8_ok pkt (off + 9) Hp)) as Hl.
  destruct (default _ (l4_ports pkt off)) as [[p sp] dp]. pose proof (icmp_type_code_ok pkt off Hp) as Hic.
  destruct (icmp_type_code pkt off) as [t c]. intros [= <-]. destruct Hl as (Hl1 & Hl2 & Hl3). cbn in *.
  apply read_array_ok in E1; [|done]. apply read_array_ok in E2; [|done]. split; cbn; [by rewrite !Forall_cons, Forall_nil|lia|lia|lia].
Qed.

(** What the keys of the policy trie keep of the ICMP type and code: an octet each.
    Only a packet too short to hold them loses anything, its type and code are 255. *)
Definition icmp_octets (icmp_proto : Z) (s : PacketSelectors) : PacketSelectors :=
  if s_proto s =? icmp_proto then mkSelectors (s_src s) (s_dst s) (s_proto s) (s_sport s) (s_dport s) (u8 (s_icmp_type s)) (u8 (s_icmp_code s)) else s.

Lemma icmp_octets_id w icmp_proto s : selectors_ok w icmp_proto s → icmp_octets icmp_proto s = s.
Proof.
  intros [_ _ _ Hi]. unfold icmp_octets. destruct (Z.eqb_spec (s_proto s) icmp_proto) as [E|]; [|done]. destruct (Hi E) as [Ht Hc].
  unfold u8. rewrite !Z.mod_small by lia. by destruct s.
Qed.

Lemma icmp_octets_peer icmp_proto dir s : peer_of dir (icmp_octets icmp_proto s) = peer_of dir s.
Proof. unfold icmp_octets. by destruct (_ =? _). Qed.

Lemma icmp_octets_proto icmp_proto s : s_proto (icmp_octets icmp_proto s) = s_proto s.
Proof. unfold icmp_octets. by destruct (_ =? _). Qed.

Lemma icmp_octets_suffix icmp_proto s : suffix_of icmp_proto (icmp_octets icmp_proto s) = suffix_of icmp_proto s.
Proof.
  unfold icmp_octets. destruct (s_proto s =? icmp_proto) eqn:E; [|done]. unfold suffix_of, fw_pol_suffix. cbn [s_proto s_dport s_icmp_type s_icmp_code fst snd].
  rewrite E. unfold u8. by rewrite !Zmod_mod.
Qed.

(** The ICMPv6 octets are there to read. *)
Definition icmp6_readable (pkt : list Z) (off : Z) : Prop :=
  read_u8 pkt (off + 6) = Some 58 → is_Some (read_u8 pkt (off + 41)).

Lemma selectors6_octets_ok pkt off s : bytes_ok pkt → selectors6 pkt off = Some s → selectors_ok 16 58 (icmp_octets 58 s).
Proof.
  intros Hp. unfold selectors6. destruct (read_array 16 pkt (off + 8)) as [src|] eqn:E1; [|done]. cbn [mbind option_bind].
  destruct (read_array 16 pkt (off + 24)) as [dst|] eqn:E2; [|done]. cbn [mbind option_bind].
  pose proof (l4_default_ok (l4_ports_v6 pkt off) _ (fun v => l4_ports_v6_ok pkt off v Hp) (read_u8_ok pkt (off + 6) Hp)) as Hl.
  destruct (default _ (l4_ports_v6 pkt off)) as [[p sp] dp]. destruct (icmp_type_code_v6 pkt off) as [t c]. intros [= <-].
  destruct Hl as (Hl1 & Hl2 & Hl3). cbn in Hl1, Hl2, Hl3. apply read_array_ok in E1; [|done]. apply read_array_ok in E2; [|done].
  unfold icmp_octets. cbn [s_proto]. destruct (Z.eqb_spec p 58); (split; cbn; [by rewrite !Forall_cons, Forall_nil|lia|lia|]); [|done].
  intros _. split; apply u8_range.
Qed.

Lemma selectors6_readable pkt off s : bytes_ok pkt → 0 ≤ off → icmp6_readable pkt off → selectors6 pkt off = Some s → icmp_octets 58 s = s.
Proof.
  intros Hp Hoff Hic Hs. pose proof (selectors6_octets_ok pkt off s Hp Hs) as Hok. revert Hs Hok. unfold selectors6.
  destruct (read_array 16 pkt (off + 8)) as [src|]; [|done]. cbn [mbind option_bind].
  destruct (read_array 16 pkt (off + 24)) as [dst|]; [|done]. cbn [mbind option_bind].
  assert (Hproto : (default (default 0 (read_u8 pkt (off + 6)), 0, 0) (l4_ports_v6 pkt off)).1.1 = default 0 (read_u8 pkt (off + 6))).
  { unfold l4_ports_v6. destruct (read_u8 pkt (off + 6)) as [nh|]; [|done]. cbn [mbind option_bind].
    destruct (_ || _); [|destruct (_ =? 58); [|done]].
    - by destruct (read_u16_be pkt (off + 40)), (read_u16_be pkt (off + 40 + 2)).
    - by destruct (read_u16_be pkt (off + 40 + 4)). }
  destruct (default _ (l4_ports_v6 pkt off)) as [[p sp] dp]. unfold icmp_type_code_v6. cbn in Hproto.
  destruct (decide (read_u8 pkt (off + 6) = Some 58)) as [H58|H58]; intros [= <-] _; unfold icmp_octets; cbn [s_proto]; (destruct (Z.eqb_spec p 58) as [E|]; [|done]).
  - destruct (Hic H58) as [c Hc]. assert (is_Some (read_u8 pkt (off + 40))) as [t Ht].
    { unfold read_u8 in *. apply lookup_lt_is_Some_2. apply lookup_lt_Some in Hc. lia. }
    rewrite Ht, Hc. unfold read_u8 in *. cbn. pose proof (Forall_lookup_1 _ _ _ _ Hp Ht). pose proof (Forall_lookup_1 _ _ _ _ Hp Hc). cbn in *.
    unfold u8. by rewrite !Z.mod_small by lia.
  - exfalso. destruct (read_u8 pkt (off + 6)); cbn in Hproto; congruence.
Qed.

Section packets.
Context {ro : RangeOrder} {lp : Lpm}.

(** The interface is bound to the scope compiled for the direction: to none when
    there is none, else to its id, under which the maps hold it. *)
Definition bound (maps : FwMaps) (ifindex dir : Z) (sc : option Scope) : Prop :=
  ∃ b, fw_bind maps ifindex = Some b ∧
  match sc with
  | None => bind_scope b dir = FW_SCOPE_NONE
  | Some x => bind_scope b dir = scope_id_ x ∧ fw_scope maps (scope_id_ x) = Some x
  end.

Lemma classify_bound dir v4 v6 sc maps ifindex pkt off :
  dir = FW_DIR_INGRESS ∨ dir = FW_DIR_EGRESS →
  Forall (rule_ok 4) v4 → Forall (rule_ok 16) v6 →
  Z.of_nat (length v4) ≤ FW_RANK_MAX + 1 → Z.of_nat (length v6) ≤ FW_RANK_MAX + 1 →
  compile_scope dir v4 v6 = inr sc → bound maps ifindex dir sc → bytes_ok pkt → 0 ≤ off →
  (∀ s, selectors4 pkt off = Some s → fw_classify pkt maps off ifindex dir = first_match 1 s v4 dir) ∧
  (∀ s, selectors6 pkt off = Some s → fw_classify6 pkt maps off ifindex dir = first_match 58 (icmp_octets 58 s) v6 dir).
Proof.
  intros Hdir H4 H6 Hn4 Hn6 Hc (b & Hb & Hsc) Hp Hoff.
  destruct (scope_first_match dir v4 v6 sc Hdir H4 H6 Hn4 Hn6 Hc) as [Hf4 Hf6].
  assert (Hbind : ∀ (f : Scope → ScopeTries) peer proto port,
    (if bind_scope b dir =? FW_SCOPE_NONE then FW_ACTION_DROP else probe (f <$> fw_scope maps (bind_scope b dir)) peer proto port)
    = probe (f <$> sc) peer proto port).
  { intros f peer proto port. destruct sc as [x|]; [|by rewrite Hsc].
    destruct Hsc as [-> ->]. pose proof (scope_id_nonzero dir v4 v6 (Some x) Hc x eq_refl) as Hnz.
    by replace (scope_id_ x =? FW_SCOPE_NONE) with false by lia. }
  split.
  - intros s Hs. rewrite <-(Hf4 s (selectors4_ok _ _ _ Hp Hs)), <-Hbind. unfold fw_classify. rewrite Hb.
    destruct (bind_scope b dir =? FW_SCOPE_NONE); [done|]. unfold selectors4 in Hs.
    destruct (read_array 4 pkt (off + 12)) as [src|] eqn:E1; [|done]. cbn [mbind option_bind] in Hs.
    destruct (read_array 4 pkt (off + 16)) as [dst|] eqn:E2; [|done]. cbn [mbind option_bind] in Hs. unfold peer_of, suffix_of.
    destruct (l4_ports pkt off) as [[[p sp] dp]|]; cbn [default] in Hs; destruct (icmp_type_code pkt off) as [t c]; injection Hs as <-;
      (destruct Hdir as [-> | ->]; [change (FW_DIR_INGRESS =? FW_DIR_EGRESS) with false|rewrite Z.eqb_refl]; cbv iota; [rewrite E1|rewrite E2]; done).
  - intros s Hs. rewrite <-(Hf6 _ (selectors6_octets_ok _ _ _ Hp Hs)), <-Hbind, icmp_octets_peer, icmp_octets_proto, icmp_octets_suffix. unfold fw_classify6. rewrite Hb.
    destruct (bind_scope b dir =? FW_SCOPE_NONE); [done|]. unfold selectors6 in Hs.
    destruct (read_array 16 pkt (off + 8)) as [src|] eqn:E1; [|done]. cbn [mbind option_bind] in Hs.
    destruct (read_array 16 pkt (off + 24)) as [dst|] eqn:E2; [|done]. cbn [mbind option_bind] in Hs. unfold peer_of, suffix_of.
    destruct (l4_ports_v6 pkt off) as [[[p sp] dp]|]; cbn [default] in Hs; destruct (icmp_type_code_v6 pkt off) as [t c]; injection Hs as <-;
      (destruct Hdir as [-> | ->]; [change (FW_DIR_INGRESS =? FW_DIR_EGRESS) with false|rewrite Z.eqb_refl]; cbv iota; [rewrite E1|rewrite E2]; done).
Qed.


End packets.

(** The decomposition of a port range: the pairs are aligned prefixes that cover
    exactly the ports of the range, there are at most 30 of them, and the count
    the capacity check uses is their number. *)
Theorem port_prefixes_exact lo hi :
  0 ≤ lo → hi < 65536 →
  Forall pair_ok (port_prefixes lo hi) ∧
  (∀ d, Exists (pair_covers d) (port_prefixes lo hi) ↔ lo ≤ d ≤ hi) ∧
  (length (port_prefixes lo hi) ≤ 30)%nat ∧
  port_prefix_count lo hi = Z.of_nat (length (port_prefixes lo hi)).
Proof.
  intros Hlo Hhi. destruct (port_prefixes_spec lo hi Hlo Hhi) as [Hok Hcov].
  split_and!; [done|done|by apply port_prefixes_bound|apply count_loop_length].
Qed.

Lemma port_prefixes_exact_witness : Exists (pair_covers 1500) (port_prefixes 1000 2000).
Proof. apply (port_prefixes_exact 1000 2000); lia. Defined.

(** ** A concrete interface *)

Module Demo.

#[local] Existing Instance canonical_order.

Definition any4 : list Z := [0; 0; 0; 0].
Definition any6 : list Z := [0; 0; 0; 0; 0; 0; 0; 0; 0; 0; 0; 0; 0; 0; 0; 0].

Definition rule4 (ip mask : list Z) (proto lo hi icmp act : Z) : FwRule :=
  mkFwRule ip mask any4 any4 0 65535 lo hi icmp 65535 proto act FW_DIR_INGRESS 1.
Definition rule6 (proto icmp act : Z) : FwRule :=
  mkFwRule any6 any6 any6 any6 0 65535 0 65535 icmp 65535 proto act FW_DIR_INGRESS 1.

(** Deny one subnet's port 80, allow ports 80 to 90 of the network around it. *)
Definition v4 : list FwRule :=
  [rule4 [10; 1; 0; 0] [255; 255; 0; 0] 6 80 80 65535 FW_ACTION_DROP;
   rule4 [10; 0; 0; 0] [255; 0; 0; 0] 6 80 90 65535 FW_ACTION_ACCEPT].

(** A TCP segment from [src] to port [dport]. *)
Definition tcp4 (src : list Z) (dport : Z) : list Z :=
  [69; 0; 0; 40; 0; 0; 0; 0; 64; 6; 0; 0] ++ src ++ [10; 9; 9; 9] ++ [200; 0] ++ be16 dport.

Definition maps_of (x : Scope) : FwMaps :=
  mkFwMaps (fun _ => Some (mkBind (scope_id_ x) FW_SCOPE_NONE)) (fun _ => Some x).

Lemma rule4_ok ip mask proto lo hi icmp act :
  bytes_ok ip → length ip = 4%nat → bytes_ok mask → length mask = 4%nat →
  0 ≤ proto < 256 → 0 ≤ lo → hi < 65536 → 0 ≤ icmp → act = FW_ACTION_DROP ∨ act = FW_ACTION_ACCEPT →
  rule_ok 4 (rule4 ip mask proto lo hi icmp act).
Proof.
  intros. assert (bytes_ok any4) by (repeat constructor; lia). split; cbn; try (done || lia).
  by rewrite !Forall_cons, Forall_nil.
Qed.

Lemma v4_ok : Forall (rule_ok 4) v4.
Proof.
  unfold v4. rewrite !Forall_cons, Forall_nil. split_and!; try done;
    (apply rule4_ok; try (done || lia || by left || by right); repeat constructor; lia).
Qed.

Lemma segment_ok : bytes_ok (tcp4 [10; 1; 2; 3] 81).
Proof. unfold bytes_ok, tcp4, be16. cbn -[u8]. rewrite !Forall_cons, Forall_nil. split_and!; (lia || apply u8_range || done). Qed.

End Demo.


(** ** Where the classifier and the first match part *)

(** An ICMPv6 packet that ends after its fixed header. *)
Definition bare_icmp6 : list Z := [96; 0; 0; 0; 0; 0; 58; 64] ++ Demo.any6 ++ Demo.any6.

(** An ICMPv6 packet too short to hold a type is taken for type 255: the
    readers return 0xffff, the probe key keeps its low octet, and a rule for type
    255 accepts the packet although the first-match evaluator drops it. *)
Theorem truncated_icmp6_matches_255 :
  let _ := canonical_order in
  match compile_scope FW_DIR_INGRESS [] [Demo.rule6 58 255 FW_ACTION_ACCEPT], selectors6 bare_icmp6 0 with
  | inr (Some x), Some s =>
      fw_classify6 bare_icmp6 (Demo.maps_of x) 0 7 FW_DIR_INGRESS = FW_ACTION_ACCEPT ∧
      first_match 58 s [Demo.rule6 58 255 FW_ACTION_ACCEPT] FW_DIR_INGRESS = FW_ACTION_DROP
  | _, _ => False
  end.
Proof. vm_compute. done. Qed.

(** A later fragment of an ICMP datagram, its payload beginning with 8. *)
Definition icmp_fragment : list Z :=
  [69; 0; 0; 24; 0; 0; 0; 100; 64; 1; 0; 0] ++ [10; 1; 2; 3] ++ [10; 9; 9; 9] ++ [8; 0; 0; 0; 0; 0; 0; 0].

(** A fragment after the first carries no ICMP header, yet its payload is read
    as type and code: the port reader recognises the fragment, the type reader
    does not, and a rule for echo requests accepts the fragment. *)
Theorem icmp_fragment_reads_payload :
  let _ := canonical_order in
  l4_ports icmp_fragment 0 = None ∧ icmp_type_code icmp_fragment 0 = (8, 0) ∧
  match compile_scope FW_DIR_INGRESS [Demo.rule4 Demo.any4 Demo.any4 1 0 65535 8 FW_ACTION_ACCEPT] [] with
  | inr (Some x) => fw_classify icmp_fragment (Demo.maps_of x) 0 7 FW_DIR_INGRESS = FW_ACTION_ACCEPT
  | _ => False
  end.
Proof. vm_compute. done. Qed.
