(* ===== verification/FwControl.v ===== *)
(** * Firewall programming: bindings and shared scopes

    The control core of the dataplane binds an interface to the scopes its rules
    compile to ([flowplane-control/src/firewall.rs]).  A scope is shared by every
    interface with the same rules and deleted when the last reference goes.  Every
    write of the datapath's maps may fail, and the walk that rebuilds the
    bookkeeping after a restart may be cut short.

    The maps are reached through the trait [MapWriter]: the class [FwWriter] has
    its firewall calls, [FwWriterLaws] what the core relies on.  Module [mem] is
    the in-memory writer of [flowplane-control/src/mem.rs]; module [aya] is the
    writer over kernel maps ([flowplane/src/maps.rs]), whose system calls fail
    where an oracle says so. *)

From S2P Require Import Prelude FwClass.
Import fwclass.

Open Scope Z_scope.

#[export] Instance FwBind_eq_dec : EqDecision FwBind.
Proof. solve_decision. Defined.

(** A walk of a whole map: the entries read, and whether an error cut it short. *)
Record Walk (T : Type) := mkWalk { entries : list T; error : bool }.
Arguments mkWalk {_}.
Arguments entries {_}.
Arguments error {_}.

(** The firewall calls of [MapWriter]; a call that can fail returns whether it
    succeeded.  [binds] and [scopes] are what the datapath reads: the bindings,
    and the scopes all of whose tries the maps hold. *)
Class FwWriter (W : Type) := {
  fw_scope_create : Scope → W → W * bool;
  fw_scope_delete : Z → W → W * bool;
  fw_bind_upsert : Z → FwBind → W → W * bool;
  fw_bind_remove : Z → W → W * bool;
  fw_epoch_bump : W → W * bool;
  fw_bind_entries : W → W * Walk (Z * FwBind);
  fw_scope_ids : W → W * Walk Z;
  binds : W → gmap Z FwBind;
  scopes : W → Z → option Scope
}.

(** What every writer keeps to.  A write touches nothing but its own key, and a
    failed write of a binding changes nothing; a failed creation may leave
    nothing under its id. *)
Class FwWriterLaws (W : Type) `{FwWriter W} := {
  create_binds s w w' ok : fw_scope_create s w = (w', ok) → binds w' = binds w;
  create_scopes_other s w w' ok id :
    fw_scope_create s w = (w', ok) → id ≠ scope_id_ s → scopes w' id = scopes w id;
  create_ok s w w' : fw_scope_create s w = (w', true) → scopes w' (scope_id_ s) = Some s;
  delete_binds id w w' ok : fw_scope_delete id w = (w', ok) → binds w' = binds w;
  delete_scopes_other id w w' ok j : fw_scope_delete id w = (w', ok) → j ≠ id → scopes w' j = scopes w j;
  delete_only id w w' ok x : fw_scope_delete id w = (w', ok) → scopes w' id = Some x → scopes w id = Some x;
  upsert_binds i b w w' ok :
    fw_bind_upsert i b w = (w', ok) → binds w' = if ok : bool then <[i := b]> (binds w) else binds w;
  upsert_scopes i b w w' ok id : fw_bind_upsert i b w = (w', ok) → scopes w' id = scopes w id;
  remove_binds i w w' ok :
    fw_bind_remove i w = (w', ok) → binds w' = if ok : bool then delete i (binds w) else binds w;
  remove_scopes i w w' ok id : fw_bind_remove i w = (w', ok) → scopes w' id = scopes w id;
  bump_frame w w' ok : fw_epoch_bump w = (w', ok) → binds w' = binds w ∧ ∀ id, scopes w' id = scopes w id;
  bind_entries_frame w w' r : fw_bind_entries w = (w', r) → binds w' = binds w ∧ ∀ id, scopes w' id = scopes w id;
  bind_entries_sound w w' r i b : fw_bind_entries w = (w', r) → (i, b) ∈ entries r → binds w !! i = Some b;
  bind_entries_whole w w' r i b :
    fw_bind_entries w = (w', r) → error r = false → binds w !! i = Some b → (i, b) ∈ entries r;
  scope_ids_frame w w' r : fw_scope_ids w = (w', r) → binds w' = binds w ∧ ∀ id, scopes w' id = scopes w id;
  scope_ids_whole w w' r id :
    fw_scope_ids w = (w', r) → error r = false → is_Some (scopes w id) → id ∈ entries r
}.

(** What the core relies on beyond that where it ignores an error: a creation that
    fails leaves a scope already there, and removals succeed. *)
Class FwWriterReliable (W : Type) `{FwWriter W} := {
  create_failed s w w' id : fw_scope_create s w = (w', false) → scopes w' id = scopes w id;
  delete_done id w w' ok : fw_scope_delete id w = (w', ok) → scopes w' id = None;
  remove_done i w w' ok : fw_bind_remove i w = (w', ok) → ok = true
}.

(** [shadow::IfaceMeta]. *)
Record IfaceMeta := mkIfaceMeta {
  im_vni : Z;
  im_ipv4 : list Z;
  im_ipv6 : list Z;
  im_underlay : list Z;
  im_ifindex : Z
}.

(** The fields of [ControlCore] the firewall uses. *)
Record ControlCore (W : Type) := mkCore {
  cw : W;
  ifaces_meta : gmap (list Z) IfaceMeta;
  fw_binds : gmap Z FwBind;
  fw_scope_refs : gmap Z Z;
  fw_partial : bool
}.
Arguments mkCore {_}.
Arguments cw {_}.
Arguments ifaces_meta {_}.
Arguments fw_binds {_}.
Arguments fw_scope_refs {_}.
Arguments fw_partial {_}.

Module fwcontrol.

Section control.
Context {ro : RangeOrder} {W : Type} `{FwWriter W}.
Local Abbreviation Core := (ControlCore W).

(** [ControlCore::new]. *)
Definition new (w : W) : Core := mkCore w ∅ ∅ ∅ false.

Definition register_iface_meta (id : list Z) (m : IfaceMeta) (c : Core) : Core :=
  mkCore (cw c) (<[id := m]> (ifaces_meta c)) (fw_binds c) (fw_scope_refs c) (fw_partial c).

Definition set_w (w : W) (c : Core) : Core :=
  mkCore w (ifaces_meta c) (fw_binds c) (fw_scope_refs c) (fw_partial c).

(** [*refs.entry(id).or_insert(0) += 1], for an id other than [FW_SCOPE_NONE]. *)
Definition reference (id : Z) (refs : gmap Z Z) : gmap Z Z :=
  if id =? FW_SCOPE_NONE then refs else <[id := default 0 (refs !! id) + 1]> refs.

Definition reference_bind (b : FwBind) (refs : gmap Z Z) : gmap Z Z :=
  reference (egress_scope b) (reference (ingress_scope b) refs).

Definition compile_iface (v4 v6 : list FwRule) : FwError + option Scope * option Scope :=
  match compile_scope FW_DIR_INGRESS v4 v6 with
  | inl e => inl e
  | inr i => match compile_scope FW_DIR_EGRESS v4 v6 with
             | inl e => inl e
             | inr e => inr (i, e)
             end
  end.

(** The errors of the deletions are ignored. *)
Definition delete_scopes (ids : list Z) (w : W) : W := foldl (fun w id => (fw_scope_delete id w).1) w ids.

Definition fw_discard_scopes (ids : list Z) (c : Core) : Core :=
  if fw_partial c then c else set_w (delete_scopes ids (cw c)) c.

(** One direction of [fw_release_scopes]. *)
Definition release (id : Z) (c : Core) : Core :=
  if id =? FW_SCOPE_NONE then c
  else match fw_scope_refs c !! id with
       | None => c
       | Some n =>
           if n - 1 =? 0 then
             mkCore (if fw_partial c then cw c else (fw_scope_delete id (cw c)).1)
               (ifaces_meta c) (fw_binds c) (delete id (fw_scope_refs c)) (fw_partial c)
           else mkCore (cw c) (ifaces_meta c) (fw_binds c) (<[id := n - 1]> (fw_scope_refs c)) (fw_partial c)
       end.

Definition fw_release_scopes (old : FwBind) (c : Core) : Core :=
  release (egress_scope old) (release (ingress_scope old) c).

Definition adopt_fw_classifier (c : Core) : Core * bool :=
  let '(w1, bs) := fw_bind_entries (cw c) in
  let bmap := foldl (fun m e => <[e.1 := e.2]> m) ∅ (entries bs) in
  let refs := foldr reference_bind ∅ (map_to_list bmap).*2 in
  let '(w2, ids) := fw_scope_ids w1 in
  let unbound := filter (fun id => refs !! id = None) (entries ids) in
  let w3 := if error bs then w2 else delete_scopes unbound w2 in
  (mkCore w3 (ifaces_meta c) bmap refs (error bs), negb (error bs) && negb (error ids)).

Definition fw_heal (c : Core) : Core := if fw_partial c then (adopt_fw_classifier c).1 else c.

Definition remove_fw_rules (ifindex : Z) (c : Core) : Core :=
  let c := fw_heal c in
  match fw_binds c !! ifindex with
  | None => c
  | Some old =>
      let w := (fw_epoch_bump (fw_bind_remove ifindex (cw c)).1).1 in
      fw_release_scopes old (mkCore w (ifaces_meta c) (delete ifindex (fw_binds c)) (fw_scope_refs c) (fw_partial c))
  end.

(** The creation loop of [fw_bind_scopes]; [None] where a creation failed. *)
Fixpoint create_scopes (l : list Scope) (created : list Z) (c : Core) : Core * option (list Z) :=
  match l with
  | [] => (c, Some created)
  | s :: l =>
      if bool_decide (is_Some (fw_scope_refs c !! scope_id_ s)) || bool_decide (scope_id_ s ∈ created)
      then create_scopes l created c
      else let '(w, ok) := fw_scope_create s (cw c) in
           if ok then create_scopes l (created ++ [scope_id_ s]) (set_w w c)
           else (fw_discard_scopes created (set_w w c), None)
  end.

Definition id_of (s : option Scope) : Z := default FW_SCOPE_NONE (scope_id_ <$> s).

(** The scopes of the two directions, in order: [[&ingress, &egress].flatten()]. *)
Definition flatten (ingress egress : option Scope) : list Scope := omap id [ingress; egress].

Definition fw_bind_scopes (ifindex : Z) (ingress egress : option Scope) (c : Core) : Core * (FwError + unit) :=
  let c := fw_heal c in
  let bind := mkBind (id_of ingress) (id_of egress) in
  let old := fw_binds c !! ifindex in
  if bool_decide (old = Some bind) then (c, inr tt)
  else match create_scopes (flatten ingress egress) [] c with
       | (c, None) => (c, inl MapError)
       | (c, Some created) =>
           let '(w, ok) := fw_bind_upsert ifindex bind (cw c) in
           if negb ok then (fw_discard_scopes created (set_w w c), inl MapError)
           else
             let refs := reference_bind bind (fw_scope_refs c) in
             let '(w, bumped) := fw_epoch_bump w in
             let c := mkCore w (ifaces_meta c) (<[ifindex := bind]> (fw_binds c)) refs (fw_partial c) in
             let c := match old with Some old => fw_release_scopes old c | None => c end in
             (c, if bumped then inr tt else inl MapError)
       end.

Definition fw_ifindex (interface_id : list Z) (c : Core) : FwError + Z :=
  match ifaces_meta c !! interface_id with
  | Some m => inr (im_ifindex m)
  | None => inl UnknownInterface
  end.

(** The ids of the rules play no part. *)
Definition replace_interface_fw (interface_id : list Z) (v4 v6 : list FwRule) (c : Core) : Core * (FwError + unit) :=
  match fw_ifindex interface_id c with
  | inl e => (c, inl e)
  | inr ifindex =>
      match compile_iface v4 v6 with
      | inl e => (c, inl e)
      | inr (ingress, egress) => fw_bind_scopes ifindex ingress egress c
      end
  end.

End control.

End fwcontrol.

(** ** The in-memory writer *)

Module mem.

(** The firewall fields of [MemMapWriter], the test knobs included. *)
Record MemMapWriter := mkMem {
  m_bind : gmap Z FwBind;
  m_scopes : gmap Z Scope;
  m_scope_creates : Z;
  m_bind_writes : Z;
  m_bind_fault : bool;
  m_epoch : Z;
  m_walk_cut : gmap string nat
}.

Definition mem_walk {T : Type} (name : string) (all : list T) (w : MemMapWriter) : MemMapWriter * Walk T :=
  (w, match m_walk_cut w !! name with
      | Some n => mkWalk (take n all) true
      | None => mkWalk all false
      end).

Definition mem_scope_create (s : Scope) (w : MemMapWriter) : MemMapWriter * bool :=
  (mkMem (m_bind w) (<[scope_id_ s := s]> (m_scopes w)) (m_scope_creates w + 1) (m_bind_writes w) (m_bind_fault w)
     (m_epoch w) (m_walk_cut w), true).

Definition mem_scope_delete (id : Z) (w : MemMapWriter) : MemMapWriter * bool :=
  (mkMem (m_bind w) (delete id (m_scopes w)) (m_scope_creates w) (m_bind_writes w) (m_bind_fault w)
     (m_epoch w) (m_walk_cut w), true).

Definition mem_bind_upsert (i : Z) (b : FwBind) (w : MemMapWriter) : MemMapWriter * bool :=
  if m_bind_fault w then (w, false)
  else (mkMem (<[i := b]> (m_bind w)) (m_scopes w) (m_scope_creates w) (m_bind_writes w + 1) (m_bind_fault w)
          (m_epoch w) (m_walk_cut w), true).

Definition mem_bind_remove (i : Z) (w : MemMapWriter) : MemMapWriter * bool :=
  (mkMem (delete i (m_bind w)) (m_scopes w) (m_scope_creates w) (m_bind_writes w) (m_bind_fault w)
     (m_epoch w) (m_walk_cut w), true).

Definition mem_epoch_bump (w : MemMapWriter) : MemMapWriter * bool :=
  (mkMem (m_bind w) (m_scopes w) (m_scope_creates w) (m_bind_writes w) (m_bind_fault w)
     (u32 (m_epoch w + 1)) (m_walk_cut w), true).

#[global] Instance mem_FwWriter : FwWriter MemMapWriter := {|
  fw_scope_create := mem_scope_create;
  fw_scope_delete := mem_scope_delete;
  fw_bind_upsert := mem_bind_upsert;
  fw_bind_remove := mem_bind_remove;
  fw_epoch_bump := mem_epoch_bump;
  fw_bind_entries w := mem_walk "FW_BIND" (map_to_list (m_bind w)) w;
  fw_scope_ids w := mem_walk "FW_SCOPES" (map_to_list (m_scopes w)).*1 w;
  binds := m_bind;
  scopes w id := m_scopes w !! id
|}.

End mem.

(** ** The kernel maps *)

Module aya.

(** The binding map, the four outer maps of the scopes, the epoch; and how many
    system calls were made. *)
Record KernelMaps := mkKernel {
  k_bind : gmap Z FwBind;
  class4 : gmap Z (list (list Z * Z * Z));
  class6 : gmap Z (list (list Z * Z * Z));
  policy4 : gmap Z (list (Z * FwPolKey * Z));
  policy6 : gmap Z (list (Z * FwPolKey * Z));
  k_epoch : Z;
  k_calls : nat
}.

Section aya.
(** Whether the n-th system call fails. *)
Context (fault : nat → bool).

Definition set_calls (n : nat) (w : KernelMaps) : KernelMaps :=
  mkKernel (k_bind w) (class4 w) (class6 w) (policy4 w) (policy6 w) (k_epoch w) n.

Definition syscall (w : KernelMaps) : KernelMaps * bool := (set_calls (S (k_calls w)) w, negb (fault (k_calls w))).

(** [lpm_trie]: creating a trie and filling it with [n] entries, up to the first
    call that fails. *)
Fixpoint lpm_trie (n : nat) (w : KernelMaps) : KernelMaps * bool :=
  let '(w, ok) := syscall w in
  match n with
  | O => (w, ok)
  | S n => if ok then lpm_trie n w else (w, false)
  end.

(** An insertion into, and a removal from, an outer map. *)
Definition set_class4 (m : gmap Z (list (list Z * Z * Z))) (w : KernelMaps) : KernelMaps :=
  mkKernel (k_bind w) m (class6 w) (policy4 w) (policy6 w) (k_epoch w) (k_calls w).

Definition set_class6 (m : gmap Z (list (list Z * Z * Z))) (w : KernelMaps) : KernelMaps :=
  mkKernel (k_bind w) (class4 w) m (policy4 w) (policy6 w) (k_epoch w) (k_calls w).

Definition set_policy4 (m : gmap Z (list (Z * FwPolKey * Z))) (w : KernelMaps) : KernelMaps :=
  mkKernel (k_bind w) (class4 w) (class6 w) m (policy6 w) (k_epoch w) (k_calls w).

Definition set_policy6 (m : gmap Z (list (Z * FwPolKey * Z))) (w : KernelMaps) : KernelMaps :=
  mkKernel (k_bind w) (class4 w) (class6 w) (policy4 w) m (k_epoch w) (k_calls w).

(** A call that, where it succeeds, has the effect [f]. *)
Definition attempt (f : KernelMaps → KernelMaps) (w : KernelMaps) : KernelMaps * bool :=
  let '(w, ok) := syscall w in if ok then (f w, true) else (w, false).

(** [r.and_then(f)]. *)
Definition and_then (r : KernelMaps * bool) (f : KernelMaps → KernelMaps * bool) : KernelMaps * bool :=
  if r.2 then f r.1 else r.

(** [FwScopes::delete]: the errors are ignored. *)
Definition scope_delete (id : Z) (w : KernelMaps) : KernelMaps * bool :=
  let w := (attempt (fun w => set_class4 (delete id (class4 w)) w) w).1 in
  let w := (attempt (fun w => set_class6 (delete id (class6 w)) w) w).1 in
  let w := (attempt (fun w => set_policy4 (delete id (policy4 w)) w) w).1 in
  let w := (attempt (fun w => set_policy6 (delete id (policy6 w)) w) w).1 in
  (w, true).

(** [FwScopes::create]: the four tries, then their insertion, rolled back where
    one of the insertions fails. *)
Definition insert_tries (s : Scope) (w : KernelMaps) : KernelMaps * bool :=
  let id := scope_id_ s in
  and_then (and_then (and_then (attempt (fun w => set_class4 (<[id := classes (s_v4 s)]> (class4 w)) w) w)
    (attempt (fun w => set_class6 (<[id := classes (s_v6 s)]> (class6 w)) w)))
    (attempt (fun w => set_policy4 (<[id := policy (s_v4 s)]> (policy4 w)) w)))
    (attempt (fun w => set_policy6 (<[id := policy (s_v6 s)]> (policy6 w)) w)).

Definition build_tries (s : Scope) (w : KernelMaps) : KernelMaps * bool :=
  and_then (and_then (and_then (lpm_trie (length (classes (s_v4 s))) w) (lpm_trie (length (classes (s_v6 s)))))
    (lpm_trie (length (policy (s_v4 s))))) (lpm_trie (length (policy (s_v6 s)))).

Definition create (s : Scope) (w : KernelMaps) : KernelMaps * bool :=
  let '(w, built) := build_tries s w in
  if negb built then (w, false)
  else let '(w, inserted) := insert_tries s w in
       if inserted then (w, true) else ((scope_delete (scope_id_ s) w).1, false).

Definition bind_upsert (i : Z) (b : FwBind) : KernelMaps → KernelMaps * bool :=
  attempt (fun w => mkKernel (<[i := b]> (k_bind w)) (class4 w) (class6 w) (policy4 w) (policy6 w) (k_epoch w) (k_calls w)).

(** Removing an absent key is an error of the kernel map. *)
Definition bind_remove (i : Z) (w : KernelMaps) : KernelMaps * bool :=
  let '(w, ok) := syscall w in
  if ok && bool_decide (is_Some (k_bind w !! i))
  then (mkKernel (delete i (k_bind w)) (class4 w) (class6 w) (policy4 w) (policy6 w) (k_epoch w) (k_calls w), true)
  else (w, false).

(** [bump]: the read, then the write. *)
Definition epoch_bump (w : KernelMaps) : KernelMaps * bool :=
  and_then (syscall w)
    (attempt (fun w => mkKernel (k_bind w) (class4 w) (class6 w) (policy4 w) (policy6 w) (u32 (k_epoch w + 1)) (k_calls w))).

(** [walk]: an entry whose read fails is left out, and the error is kept. *)
Fixpoint walk {T : Type} (l : list T) (w : KernelMaps) : KernelMaps * Walk T :=
  match l with
  | [] => (w, mkWalk [] false)
  | e :: l =>
      let '(w, ok) := syscall w in
      let '(w, r) := walk l w in
      (w, if ok then mkWalk (e :: entries r) (error r) else mkWalk (entries r) true)
  end.

(** [FwScopes::ids]. *)
Definition ids (w : KernelMaps) : KernelMaps * Walk Z :=
  let '(w, r) := walk ((map_to_list (class4 w)).*1 ++ (map_to_list (class6 w)).*1 ++
                       (map_to_list (policy4 w)).*1 ++ (map_to_list (policy6 w)).*1) w in
  (w, mkWalk (remove_dups (merge_sort Z.le (entries r))) (error r)).

(** The scope under an id, where all four maps hold it. *)
Definition scope_view (w : KernelMaps) (id : Z) : option Scope :=
  c4 ← class4 w !! id; c6 ← class6 w !! id; p4 ← policy4 w !! id; p6 ← policy6 w !! id;
  Some (mkScope id (mkTries c4 p4) (mkTries c6 p6)).

#[export] Instance aya_FwWriter : FwWriter KernelMaps := {|
  fw_scope_create := create;
  fw_scope_delete := scope_delete;
  fw_bind_upsert := bind_upsert;
  fw_bind_remove := bind_remove;
  fw_epoch_bump := epoch_bump;
  fw_bind_entries w := walk (map_to_list (k_bind w)) w;
  fw_scope_ids := ids;
  binds := k_bind;
  scopes := scope_view
|}.

End aya.

End aya.
