(* ===== verification/FwControlFacts.v ===== *)
(** * Firewall programming: the writers keep the laws

    Both writers keep [FwWriterLaws].  The in-memory one is also reliable where
    the core ignores an error; the kernel one is not, which [FwControlTheorems]
    uses.  The rest of the file relates reference counts to bindings. *)

From S2P Require Import Prelude FwClass FwControl.
Import fwclass fwcontrol.

Open Scope Z_scope.

(** ** The in-memory writer *)

#[export] Instance mem_FwWriterLaws : FwWriterLaws mem.MemMapWriter.
Proof.
  split; cbn; unfold mem.mem_scope_create, mem.mem_scope_delete, mem.mem_bind_upsert, mem.mem_bind_remove, mem.mem_epoch_bump, mem.mem_walk;
    intros; repeat case_match; simplify_eq; cbn in *; try done.
  - by apply lookup_insert_ne.
  - by apply lookup_insert_eq.
  - by apply lookup_delete_ne.
  - by rewrite lookup_delete_eq in *.
  - eapply elem_of_map_to_list, subseteq_take; done.
  - by apply elem_of_map_to_list.
  - by apply elem_of_map_to_list.
  - destruct H1 as [x Hx]. apply list_elem_of_fmap. exists (id, x). split; [done|]. by apply elem_of_map_to_list.
Qed.

#[export] Instance mem_FwWriterReliable : FwWriterReliable mem.MemMapWriter.
Proof.
  split; cbn; unfold mem.mem_scope_create, mem.mem_scope_delete, mem.mem_bind_remove; intros; simplify_eq; cbn; try done.
  apply lookup_delete_eq.
Qed.

(** ** The kernel writer *)

Module ayafacts.
Import aya.

Section laws.
Context (fault : nat → bool).

Lemma syscall_spec w w' ok : syscall fault w = (w', ok) → w' = set_calls (S (k_calls w)) w ∧ ok = negb (fault (k_calls w)).
Proof. unfold syscall. by intros [= <- <-]. Qed.

Lemma lpm_trie_frame n w w' ok : lpm_trie fault n w = (w', ok) → ∃ k, w' = set_calls k w.
Proof.
  revert w. induction n as [|n IH]; intros w; cbn.
  - intros [= <- <-]. eauto.
  - destruct (negb (fault (k_calls w))).
    + intros [k ->]%IH. by exists k.
    + intros [= <- <-]. eauto.
Qed.

Lemma build_tries_frame s w w' ok : build_tries fault s w = (w', ok) → ∃ k, w' = set_calls k w.
Proof.
  unfold build_tries, and_then.
  assert (Hstep : ∀ r n, (∃ k, r.1 = set_calls k w) → ∃ k, (if r.2 : bool then lpm_trie fault n r.1 else r).1 = set_calls k w).
  { intros [w1 b] n [k Hk]. cbn in *. subst. destruct b; [|by exists k].
    destruct (lpm_trie fault n (set_calls k w)) as [w2 b2] eqn:E. apply lpm_trie_frame in E as [k2 ->]. by exists k2. }
  intros E. apply (f_equal fst) in E. cbn [fst] in E. rewrite <-E. repeat apply Hstep.
  destruct (lpm_trie fault (length (classes (s_v4 s))) w) as [w2 b2] eqn:E2. by apply lpm_trie_frame in E2.
Qed.

Lemma walk_frame {T} (l : list T) w w' r :
  walk fault l w = (w', r) → (∃ k, w' = set_calls k w) ∧ entries r ⊆ l ∧ (error r = false → entries r = l).
Proof.
  revert w w' r. induction l as [|e l IH]; intros w w' r; cbn.
  - intros [= <- <-]. split_and!; [by exists (k_calls w); destruct w|done|done].
  - destruct (walk fault l (set_calls (S (k_calls w)) w)) as [w1 r1] eqn:E. apply IH in E as ([k ->] & Hsub & Hw).
    intros [= <- <-]. split; [by exists k|]. destruct (negb (fault (k_calls w))); cbn.
    + split; [set_solver|]. intros Hr. by rewrite Hw.
    + split; [set_solver|done].
Qed.

Lemma set_calls_view k w id : scope_view (set_calls k w) id = scope_view w id.
Proof. done. Qed.

(** An operation touches only the entries of [id] in the outer maps. *)
Definition touches (id : Z) (w w' : KernelMaps) : Prop :=
  k_bind w' = k_bind w ∧
  ∀ j, j ≠ id → class4 w' !! j = class4 w !! j ∧ class6 w' !! j = class6 w !! j ∧
    policy4 w' !! j = policy4 w !! j ∧ policy6 w' !! j = policy6 w !! j.

Lemma aya_touches_refl id w : touches id w w.
Proof. done. Qed.

Lemma aya_touches_trans id w1 w2 w3 : touches id w1 w2 → touches id w2 w3 → touches id w1 w3.
Proof.
  intros [Hb1 H1] [Hb2 H2]. split; [congruence|]. intros j Hj.
  destruct (H1 j Hj) as (?&?&?&?), (H2 j Hj) as (?&?&?&?). split_and!; congruence.
Qed.

Lemma touches_view id w w' j : touches id w w' → j ≠ id → scope_view w' j = scope_view w j.
Proof. intros [_ H] Hj. destruct (H j Hj) as (E1&E2&E3&E4). unfold scope_view. by rewrite E1, E2, E3, E4. Qed.

Lemma attempt_touches id f w : (∀ w, touches id w (f w)) → touches id w (attempt fault f w).1.
Proof. intros Hf. unfold attempt, syscall. destruct (negb _); cbn; [|done]. apply (Hf (set_calls _ w)). Qed.

Lemma and_then_touches id w r f : touches id w r.1 → (∀ w, touches id w (f w).1) → touches id w (and_then r f).1.
Proof. intros Hr Hf. unfold and_then. destruct r.2; [|done]. by eapply aya_touches_trans. Qed.

Local Ltac touch :=
  let w := fresh in let j := fresh in let Hj := fresh in
  intros w; split; [done|]; intros j Hj; cbn;
  rewrite ?lookup_insert_ne, ?lookup_delete_ne by congruence; done.

Lemma scope_delete_touches id w : touches id w (scope_delete fault id w).1.
Proof. unfold scope_delete. cbn [fst]. repeat (eapply aya_touches_trans; [|apply attempt_touches; touch]). done. Qed.

Lemma insert_tries_touches s w : touches (scope_id_ s) w (insert_tries fault s w).1.
Proof. unfold insert_tries. repeat apply and_then_touches; intros; apply attempt_touches; touch. Qed.

Lemma create_touches s w : touches (scope_id_ s) w (create fault s w).1.
Proof.
  unfold create. destruct (build_tries fault s w) as [w1 b] eqn:E. apply build_tries_frame in E as [k ->].
  destruct b; cbn; [|done]. pose proof (insert_tries_touches s (set_calls k w)) as Hi.
  destruct (insert_tries fault s (set_calls k w)) as [w2 i]. cbn in Hi. destruct i; cbn; [exact Hi|].
  eapply aya_touches_trans; [exact Hi|apply scope_delete_touches].
Qed.

Lemma attempt_true f w w' : attempt fault f w = (w', true) → ∃ k, w' = f (set_calls k w).
Proof. unfold attempt, syscall. destruct (negb _); [|done]. intros [= <-]. eauto. Qed.

Lemma and_then_true r f w' : and_then r f = (w', true) → ∃ w1, r = (w1, true) ∧ f w1 = (w', true).
Proof. unfold and_then. destruct r as [w1 []]; cbn; [eauto|done]. Qed.

Lemma create_view s w w' : create fault s w = (w', true) → scope_view w' (scope_id_ s) = Some s.
Proof.
  unfold create. destruct (build_tries fault s w) as [w1 b]. destruct b; [|done]. cbn [negb].
  destruct (insert_tries fault s w1) as [w2 i] eqn:E. destruct i; [|done]. intros [= <-].
  apply and_then_true in E as (w3 & E & [k4 ->]%attempt_true). apply and_then_true in E as (w4 & E & [k3 ->]%attempt_true).
  apply and_then_true in E as (w5 & [k1 ->]%attempt_true & [k2 ->]%attempt_true).
  unfold scope_view. cbn. rewrite !lookup_insert_eq. cbn. by destruct s as [? [] []].
Qed.

(** A removal adds nothing. *)
Definition shrinks (w w' : KernelMaps) : Prop :=
  class4 w' ⊆ class4 w ∧ class6 w' ⊆ class6 w ∧ policy4 w' ⊆ policy4 w ∧ policy6 w' ⊆ policy6 w.

Lemma shrinks_view w w' id x : shrinks w w' → scope_view w' id = Some x → scope_view w id = Some x.
Proof.
  intros (H1 & H2 & H3 & H4) (c4 & E1 & (c6 & E2 & (p4 & E3 & (p6 & E4 & Hx)%bind_Some)%bind_Some)%bind_Some)%bind_Some.
  unfold scope_view. rewrite (lookup_weaken _ _ _ _ E1 H1), (lookup_weaken _ _ _ _ E2 H2), (lookup_weaken _ _ _ _ E3 H3),
    (lookup_weaken _ _ _ _ E4 H4). exact Hx.
Qed.

Lemma attempt_shrinks f w0 w : (∀ w, shrinks w (f w)) → shrinks w0 w → shrinks w0 (attempt fault f w).1.
Proof.
  intros Hf H0. unfold attempt, syscall. destruct (negb _); cbn; [|exact H0].
  destruct (Hf (set_calls (S (k_calls w)) w)) as (?&?&?&?), H0 as (?&?&?&?). split_and!; etrans; eauto.
Qed.

Lemma scope_delete_shrinks id w : shrinks w (scope_delete fault id w).1.
Proof.
  unfold scope_delete. cbn [fst].
  repeat (apply attempt_shrinks; [intros ?; split_and!; cbn; (reflexivity || apply delete_subseteq)|]). done.
Qed.

End laws.

#[export] Instance aya_FwWriterLaws fault : @FwWriterLaws KernelMaps (aya_FwWriter fault).
Proof.
  split; cbn.
  - intros s w w' ok E. pose proof (create_touches fault s w) as [H _]. by rewrite E in H.
  - intros s w w' ok id E Hid. pose proof (create_touches fault s w) as H. rewrite E in H. by eapply touches_view.
  - apply create_view.
  - intros id w w' ok E. pose proof (scope_delete_touches fault id w) as [H _]. by rewrite E in H.
  - intros id w w' ok j E Hj. pose proof (scope_delete_touches fault id w) as H. rewrite E in H. by eapply touches_view.
  - intros id w w' ok x E. apply (f_equal fst) in E. cbn [fst] in E. rewrite <-E. apply shrinks_view, scope_delete_shrinks.
  - intros i b w w' ok. unfold bind_upsert, attempt, syscall. case_match; by intros [= <- <-].
  - intros i b w w' ok id. unfold bind_upsert, attempt, syscall. case_match; by intros [= <- <-].
  - intros i w w' ok. unfold bind_remove, syscall. case_match; by intros [= <- <-].
  - intros i w w' ok id. unfold bind_remove, syscall. case_match; by intros [= <- <-].
  - intros w w' ok. unfold epoch_bump, and_then, attempt, syscall. cbn. repeat case_match; by intros [= <- <-].
  - intros w w' r E. apply walk_frame in E as ([k ->] & _). done.
  - intros w w' r i b E Hin. apply walk_frame in E as (_ & Hs & _). by apply elem_of_map_to_list, Hs.
  - intros w w' r i b E He Hb. apply walk_frame in E as (_ & _ & Hw). rewrite Hw by done. by apply elem_of_map_to_list.
  - intros w w' r. unfold ids. destruct (walk _ _ _) as [w1 r1] eqn:E. apply walk_frame in E as ([k ->] & _). by intros [= <- <-].
  - intros w w' r id. unfold ids. destruct (walk _ _ _) as [w1 r1] eqn:E. apply walk_frame in E as (_ & _ & Hw).
    intros [= <- <-] He (x & (c & Hc & _)%bind_Some). cbn in *. apply elem_of_remove_dups. rewrite (merge_sort_Permutation Z.le).
    rewrite Hw by done. apply elem_of_app. left. apply list_elem_of_fmap. exists (id, c). split; [done|]. by apply elem_of_map_to_list.
Qed.

End ayafacts.

(** ** Reference counts *)

(** How often a binding points at a scope, and how often all bindings do. *)
Definition points (b : FwBind) (id : Z) : Z :=
  (if ingress_scope b =? id then 1 else 0) + (if egress_scope b =? id then 1 else 0).

Definition uses (bs : gmap Z FwBind) (id : Z) : Z := map_fold (fun _ b n => points b id + n) 0 bs.

Definition cnt (refs : gmap Z Z) (id : Z) : Z := default 0 (refs !! id).

Definition positive (refs : gmap Z Z) : Prop := ∀ id n, refs !! id = Some n → 0 < n.

(** The counts are those of the bindings, and no count is zero. *)
Definition counted (refs : gmap Z Z) (bs : gmap Z FwBind) : Prop :=
  positive refs ∧ ∀ id, cnt refs id = if id =? FW_SCOPE_NONE then 0 else uses bs id.

Lemma points_nonneg b id : 0 ≤ points b id.
Proof. unfold points. repeat case_match; lia. Qed.

Lemma points_pos b id : 0 < points b id ↔ ingress_scope b = id ∨ egress_scope b = id.
Proof. unfold points. repeat case_match; lia. Qed.

Lemma uses_insert bs i b id : bs !! i = None → uses (<[i := b]> bs) id = points b id + uses bs id.
Proof. intros Hi. unfold uses. rewrite map_fold_insert_L; [done|intros; lia|done]. Qed.

Lemma uses_delete bs i b id : bs !! i = Some b → uses bs id = points b id + uses (delete i bs) id.
Proof. intros Hi. rewrite <-(insert_delete_id bs i b Hi) at 1. apply uses_insert, lookup_delete_eq. Qed.

Lemma uses_replace bs i b id :
  uses (<[i := b]> bs) id = uses bs id + points b id - match bs !! i with Some old => points old id | None => 0 end.
Proof.
  destruct (bs !! i) as [old|] eqn:E.
  - rewrite (uses_delete bs i old) by done. rewrite <-insert_delete_eq, uses_insert by apply lookup_delete_eq. lia.
  - rewrite uses_insert by done. lia.
Qed.

Lemma uses_pos bs id : 0 < uses bs id ↔ ∃ i b, bs !! i = Some b ∧ 0 < points b id.
Proof.
  induction bs as [|i b bs Hi IH] using map_ind.
  - split; [by unfold uses; rewrite map_fold_empty; lia|]. by intros (i & b & ? & _).
  - assert (0 ≤ uses bs id).
    { clear. induction bs as [|i b bs Hi IH] using map_ind; [by unfold uses; rewrite map_fold_empty|].
      rewrite uses_insert by done. pose proof (points_nonneg b id). lia. }
    rewrite uses_insert by done. pose proof (points_nonneg b id). split.
    + intros Hpos. destruct (decide (0 < points b id)) as [Hp|Hp].
      * exists i, b. by rewrite lookup_insert_eq.
      * destruct (proj1 IH) as (j & c & Hj & Hc); [lia|]. exists j, c. rewrite lookup_insert_ne by congruence. done.
    + intros (j & c & [[-> ->]|[? Hj]]%lookup_insert_Some & Hc); [lia|].
      assert (0 < uses bs id) by (apply IH; eauto). lia.
Qed.

Lemma uses_nonneg bs id : 0 ≤ uses bs id.
Proof.
  induction bs as [|i b bs Hi IH] using map_ind; [by unfold uses; rewrite map_fold_empty|].
  rewrite uses_insert by done. pose proof (points_nonneg b id). lia.
Qed.

Lemma uses_ge bs i b id : bs !! i = Some b → points b id ≤ uses bs id.
Proof. intros Hi. rewrite (uses_delete _ _ _ _ Hi). pose proof (uses_nonneg (delete i bs) id). lia. Qed.

Lemma cnt_None refs id : positive refs → refs !! id = None ↔ cnt refs id = 0.
Proof.
  intros Hp. unfold cnt. destruct (refs !! id) as [n|] eqn:E; cbn; [|done]. apply Hp in E. split; [done|lia].
Qed.

Lemma cnt_Some refs id : positive refs → is_Some (refs !! id) ↔ 0 < cnt refs id.
Proof.
  intros Hp. unfold cnt. destruct (refs !! id) as [n|] eqn:E; cbn.
  - apply Hp in E. split; [done|eauto].
  - split; [by intros [? [=]]|lia].
Qed.

(** A count is positive exactly where a binding points. *)
Lemma counted_Some refs bs id :
  counted refs bs → is_Some (refs !! id) ↔ id ≠ FW_SCOPE_NONE ∧ ∃ i b, bs !! i = Some b ∧ 0 < points b id.
Proof.
  intros [Hp Hc]. rewrite cnt_Some, Hc by done. destruct (Z.eqb_spec id FW_SCOPE_NONE); [naive_solver lia|].
  rewrite uses_pos. naive_solver.
Qed.

Lemma reference_positive id refs : positive refs → positive (reference id refs).
Proof.
  intros Hp. unfold reference. destruct (id =? FW_SCOPE_NONE); [done|]. intros j n [[-> <-]|[? Hj]]%lookup_insert_Some; [|by eapply Hp].
  destruct (refs !! j) as [n|] eqn:E; cbn; [|lia]. apply Hp in E. lia.
Qed.

Lemma reference_cnt id refs j :
  cnt (reference id refs) j = cnt refs j + (if negb (j =? FW_SCOPE_NONE) && (id =? j) then 1 else 0).
Proof.
  unfold reference, cnt. destruct (Z.eqb_spec id FW_SCOPE_NONE) as [->|Hid].
  - destruct (Z.eqb_spec j FW_SCOPE_NONE); cbn [negb andb]; [lia|]. destruct (Z.eqb_spec FW_SCOPE_NONE j); [congruence|lia].
  - destruct (Z.eqb_spec id j) as [->|]; [rewrite lookup_insert_eq|rewrite lookup_insert_ne by done].
    + destruct (Z.eqb_spec j FW_SCOPE_NONE); done.
    + rewrite andb_false_r. lia.
Qed.

Lemma reference_bind_cnt b refs j :
  cnt (reference_bind b refs) j = cnt refs j + (if j =? FW_SCOPE_NONE then 0 else points b j).
Proof.
  unfold reference_bind, points. rewrite !reference_cnt. destruct (j =? FW_SCOPE_NONE); cbn [negb andb]; lia.
Qed.

Lemma reference_bind_positive b refs : positive refs → positive (reference_bind b refs).
Proof. intros. by apply reference_positive, reference_positive. Qed.

(** The counts an adopt rebuilds. *)
Lemma rebuilt_counted bs : counted (foldr reference_bind ∅ (map_to_list bs).*2) bs.
Proof.
  assert (Hgen : ∀ l : list FwBind, positive (foldr reference_bind ∅ l) ∧
    ∀ id, cnt (foldr reference_bind ∅ l) id = if id =? FW_SCOPE_NONE then 0 else foldr (fun b n => points b id + n) 0 l).
  { induction l as [|b l [IHp IHc]]; cbn.
    - split; [by intros ??; rewrite lookup_empty|]. intros id. unfold cnt. rewrite lookup_empty. by destruct (id =? _).
    - split; [by apply reference_bind_positive|]. intros id. rewrite reference_bind_cnt, IHc. destruct (id =? _); lia. }
  destruct (Hgen (map_to_list bs).*2) as [Hp Hc]. split; [done|]. intros id. rewrite Hc. destruct (id =? _); [done|].
  clear. unfold uses. rewrite map_fold_foldr, foldr_fmap. induction (map_to_list bs) as [|[i b] l IH]; cbn; [done|by rewrite IH].
Qed.
