(* ===== verification/FwControlTheorems.v ===== *)
(** * Firewall programming: what the datapath can rely on

    The control core keeps its bookkeeping in step with the maps through any
    sequence of changes and restarts, whichever writes fail, and a replacement
    that succeeds makes the classifier decide by the new rules. *)

From S2P Require Import Prelude FwClass FwClassFacts FwClassTheorems FwControl FwControlFacts.
Import fwclass fwcontrol.

Open Scope Z_scope.

(** The core's own records: the counts are those of the bindings it knows, each of
    these is in force, and every scope referenced is in the maps. *)
Record inv {W : Type} `{FwWriter W} (c : ControlCore W) : Prop := {
  inv_counted : counted (fw_scope_refs c) (fw_binds c);
  inv_bound : fw_binds c ⊆ binds (cw c);
  inv_scopes : ∀ id, is_Some (fw_scope_refs c !! id) → is_Some (scopes (cw c) id)
}.

(** The maps alone: no binding points at a scope that is not there. *)
Definition maps_ok {W : Type} `{FwWriter W} (w : W) : Prop :=
  ∀ i b id, binds w !! i = Some b → 0 < points b id → id ≠ FW_SCOPE_NONE → is_Some (scopes w id).

(** Unless a cut walk stands, the core knows every binding. *)
Record synced {W : Type} `{FwWriter W} (c : ControlCore W) : Prop := {
  synced_maps : maps_ok (cw c);
  synced_binds : fw_partial c = false → fw_binds c = binds (cw c)
}.

(** The maps hold no scope that nothing references. *)
Definition collected {W : Type} `{FwWriter W} (c : ControlCore W) : Prop :=
  ∀ id, is_Some (scopes (cw c) id) → is_Some (fw_scope_refs c !! id).

Section control.
Context {W : Type} {FW : FwWriter W} {L : FwWriterLaws W}.
Implicit Types c : ControlCore W.

(** ** Deletions *)

Lemma delete_scopes_spec ids (w : W) :
  binds (delete_scopes ids w) = binds w ∧
  (∀ j, j ∉ ids → scopes (delete_scopes ids w) j = scopes w j) ∧
  (∀ j x, scopes (delete_scopes ids w) j = Some x → scopes w j = Some x).
Proof.
  revert w. induction ids as [|id ids IH]; intros w; [done|]. unfold delete_scopes. cbn.
  destruct (fw_scope_delete id w) as [w1 ok] eqn:E. cbn. destruct (IH w1) as (Hb & Hs & Ho). split_and!.
  - etrans; [exact Hb|]. by eapply delete_binds.
  - intros j Hj. apply not_elem_of_cons in Hj as [? Hj]. etrans; [by apply Hs|]. by eapply delete_scopes_other.
  - intros j x Hx%Ho. destruct (decide (j = id)) as [->|]; [by eapply delete_only|]. by erewrite <-delete_scopes_other.
Qed.

Lemma discard_spec ids c :
  let c' := fw_discard_scopes ids c in
  fw_binds c' = fw_binds c ∧ fw_scope_refs c' = fw_scope_refs c ∧ fw_partial c' = fw_partial c ∧
  ifaces_meta c' = ifaces_meta c ∧ binds (cw c') = binds (cw c) ∧
  (∀ j, j ∉ ids → scopes (cw c') j = scopes (cw c) j) ∧
  (∀ j x, scopes (cw c') j = Some x → scopes (cw c) j = Some x).
Proof.
  unfold fw_discard_scopes. destruct (fw_partial c) eqn:E; cbn; [done|].
  destruct (delete_scopes_spec ids (cw c)) as (?&?&?). done.
Qed.

(** What releasing the references [d] of a binding does. *)
Record released (d : Z → Z) (c c' : ControlCore W) : Prop := {
  rel_positive : positive (fw_scope_refs c');
  rel_cnt j : cnt (fw_scope_refs c') j = cnt (fw_scope_refs c) j - (if j =? FW_SCOPE_NONE then 0 else d j);
  rel_binds : fw_binds c' = fw_binds c;
  rel_partial : fw_partial c' = fw_partial c;
  rel_meta : ifaces_meta c' = ifaces_meta c;
  rel_wbinds : binds (cw c') = binds (cw c);
  rel_scopes j : cnt (fw_scope_refs c') j = cnt (fw_scope_refs c) j ∨ 0 < cnt (fw_scope_refs c') j → scopes (cw c') j = scopes (cw c) j;
  rel_cut : fw_partial c = true → cw c' = cw c;
  rel_only j x : scopes (cw c') j = Some x → scopes (cw c) j = Some x
}.

Definition one (id j : Z) : Z := if id =? j then 1 else 0.

Lemma release_spec id c :
  positive (fw_scope_refs c) → (id ≠ FW_SCOPE_NONE → 0 < cnt (fw_scope_refs c) id) → released (one id) c (release id c).
Proof.
  intros Hp Hc. unfold release, one. destruct (Z.eqb_spec id FW_SCOPE_NONE) as [->|Hid].
  { split; try done. intros j. destruct (Z.eqb_spec j FW_SCOPE_NONE), (Z.eqb_spec FW_SCOPE_NONE j); lia. }
  specialize (Hc Hid). destruct (fw_scope_refs c !! id) as [n|] eqn:En; [|unfold cnt in Hc; rewrite En in Hc; cbn in Hc; lia].
  assert (Hn : cnt (fw_scope_refs c) id = n) by (unfold cnt; by rewrite En).
  assert (Hcnt : ∀ refs, cnt refs id = n - 1 → (∀ j, j ≠ id → refs !! j = fw_scope_refs c !! j) →
    ∀ j, cnt refs j = cnt (fw_scope_refs c) j - (if j =? FW_SCOPE_NONE then 0 else if id =? j then 1 else 0)).
  { intros refs Hr Ho j. destruct (Z.eqb_spec id j) as [<-|Hj].
    - destruct (Z.eqb_spec id FW_SCOPE_NONE); lia.
    - unfold cnt. rewrite Ho by done. destruct (j =? FW_SCOPE_NONE); lia. }
  destruct (Z.eqb_spec (n - 1) 0) as [H0|H0].
  - assert (Hd : ∀ j, cnt (delete id (fw_scope_refs c)) j = cnt (fw_scope_refs c) j - (if j =? FW_SCOPE_NONE then 0 else if id =? j then 1 else 0)).
    { apply Hcnt; [unfold cnt; rewrite lookup_delete_eq; cbn; lia|]. intros. by apply lookup_delete_ne. }
    split; cbn; try done.
    + intros j m [_ Hj]%lookup_delete_Some. by eapply Hp.
    + destruct (fw_partial c); [done|]. by destruct (fw_scope_delete id (cw c)) eqn:E; eapply delete_binds.
    + intros j Hj. destruct (fw_partial c); [done|]. destruct (fw_scope_delete id (cw c)) as [w1 ok] eqn:E.
      eapply delete_scopes_other; [exact E|]. intros ->. rewrite Hd, Z.eqb_refl in Hj. destruct (Z.eqb_spec id FW_SCOPE_NONE); lia.
    + by intros ->.
    + intros j x. destruct (fw_partial c); [done|]. destruct (fw_scope_delete id (cw c)) as [w1 ok] eqn:E. cbn.
      destruct (decide (j = id)) as [->|]; [by eapply delete_only|]. by erewrite delete_scopes_other.
  - split; cbn; try done.
    + intros j m [[<- <-]|[_ Hj]]%lookup_insert_Some; [apply Hp in En; lia|by eapply Hp].
    + apply Hcnt; [unfold cnt; by rewrite lookup_insert_eq|]. intros. by apply lookup_insert_ne.
Qed.

Lemma released_trans d1 d2 c1 c2 c3 :
  (∀ j, 0 ≤ d1 j) → (∀ j, 0 ≤ d2 j) → released d1 c1 c2 → released d2 c2 c3 → released (fun j => d1 j + d2 j) c1 c3.
Proof.
  intros Hd1 Hd2 [] []. split; try (done || congruence).
  - intros j. rewrite rel_cnt1, rel_cnt0. destruct (j =? FW_SCOPE_NONE); lia.
  - intros j Hj. specialize (rel_cnt0 j). specialize (rel_cnt1 j). specialize (Hd1 j). specialize (Hd2 j).
    assert (cnt (fw_scope_refs c3) j = cnt (fw_scope_refs c2) j ∨ 0 < cnt (fw_scope_refs c3) j) by (destruct (j =? FW_SCOPE_NONE); lia).
    assert (cnt (fw_scope_refs c2) j = cnt (fw_scope_refs c1) j ∨ 0 < cnt (fw_scope_refs c2) j) by (destruct (j =? FW_SCOPE_NONE); lia).
    etrans; [by apply rel_scopes1|by apply rel_scopes0].
  - intros Hc. etrans; [apply rel_cut1; congruence|by apply rel_cut0].
  - intros j x Hx. by apply rel_only0, rel_only1.
Qed.

Lemma release_scopes_spec old c :
  positive (fw_scope_refs c) → (∀ j, j ≠ FW_SCOPE_NONE → points old j ≤ cnt (fw_scope_refs c) j) →
  released (points old) c (fw_release_scopes old c).
Proof.
  intros Hp Hc. unfold fw_release_scopes.
  assert (Hone : ∀ id j, 0 ≤ one id j) by (intros; unfold one; case_match; lia).
  assert (Hpt : ∀ j, points old j = one (ingress_scope old) j + one (egress_scope old) j) by done.
  assert (H1 : released (one (ingress_scope old)) c (release (ingress_scope old) c)).
  { apply release_spec; [done|]. intros Hn. specialize (Hc _ Hn). rewrite Hpt in Hc. specialize (Hone (egress_scope old) (ingress_scope old)).
    unfold one at 1 in Hc. rewrite Z.eqb_refl in Hc. lia. }
  apply (released_trans (one (ingress_scope old)) (one (egress_scope old)) c (release (ingress_scope old) c)); try done.
  apply release_spec; [by destruct H1|]. intros Hn. specialize (Hc _ Hn). rewrite Hpt in Hc. rewrite (rel_cnt _ _ _ H1).
  destruct (Z.eqb_spec (egress_scope old) FW_SCOPE_NONE); [done|]. unfold one at 2 in Hc. rewrite Z.eqb_refl in Hc. lia.
Qed.

(** ** Creations *)

(** What the creation loop leaves of the core, and of the scopes in use. *)
Record prepared (c c' : ControlCore W) : Prop := {
  prep_binds : fw_binds c' = fw_binds c;
  prep_refs : fw_scope_refs c' = fw_scope_refs c;
  prep_partial : fw_partial c' = fw_partial c;
  prep_meta : ifaces_meta c' = ifaces_meta c;
  prep_wbinds : binds (cw c') = binds (cw c);
  prep_scopes id : is_Some (fw_scope_refs c !! id) → scopes (cw c') id = scopes (cw c) id
}.

Lemma prepared_refl c : prepared c c.
Proof. by split. Qed.

Lemma prepared_trans c1 c2 c3 : prepared c1 c2 → prepared c2 c3 → prepared c1 c3.
Proof. intros [] []. split; try congruence. intros id Hid. rewrite prep_scopes1 by congruence. by apply prep_scopes0. Qed.

Lemma prepared_inv c c' : prepared c c' → inv c → inv c'.
Proof.
  intros [] []. split; [by rewrite prep_refs0, prep_binds0|by rewrite prep_wbinds0, prep_binds0|].
  intros id. rewrite prep_refs0. intros Hid. rewrite prep_scopes0 by done. by apply inv_scopes0.
Qed.

Lemma discard_prepared ids c : (∀ id, id ∈ ids → fw_scope_refs c !! id = None) → prepared c (fw_discard_scopes ids c).
Proof.
  intros Hids. destruct (discard_spec ids c) as (?&?&?&?&?&Hs&_). split; try done.
  intros id Hid. apply Hs. intros Hin%Hids. rewrite Hin in Hid. by destruct Hid.
Qed.

Lemma create_prepared s w ok c :
  fw_scope_create s (cw c) = (w, ok) → fw_scope_refs c !! scope_id_ s = None → prepared c (set_w w c).
Proof.
  intros E Hs. split; cbn; try done; [by eapply create_binds|]. intros id Hid. eapply create_scopes_other; [exact E|].
  intros ->. rewrite Hs in Hid. by destruct Hid.
Qed.

(** The loop creates only scopes nothing references, ... *)
Lemma create_scopes_prepared l created c c' r :
  create_scopes l created c = (c', r) → (∀ id, id ∈ created → fw_scope_refs c !! id = None) →
  prepared c c' ∧ ∀ ids, r = Some ids → ∀ id, id ∈ ids → fw_scope_refs c !! id = None.
Proof.
  revert created c. induction l as [|s l IH]; intros created c; cbn.
  { intros [= <- <-] Hcr. split; [apply prepared_refl|]. by intros ids [= <-]. }
  destruct (bool_decide (is_Some (fw_scope_refs c !! scope_id_ s))) eqn:Er; cbn; [apply IH|].
  destruct (bool_decide (scope_id_ s ∈ created)) eqn:Ec; [apply IH|].
  apply bool_decide_eq_false, eq_None_not_Some in Er. destruct (fw_scope_create s (cw c)) as [w ok] eqn:E. intros Hc Hcr.
  pose proof (create_prepared _ _ _ _ E Er) as Hp. destruct ok.
  - destruct (IH _ _ Hc) as [Hp' Hids]; cbn; [intros id [Hid|Hid%list_elem_of_singleton]%elem_of_app; [auto|by subst]|].
    split; [by eapply prepared_trans|done].
  - simplify_eq. split; [|done]. eapply prepared_trans; [exact Hp|]. by apply discard_prepared.
Qed.

(** ... and where it succeeds every scope of the list is there, each id holding
    what it held or a scope of the list. *)
Lemma create_scopes_done l created c c' ids :
  create_scopes l created c = (c', Some ids) →
  (∀ id, is_Some (fw_scope_refs c !! id) ∨ id ∈ created → is_Some (scopes (cw c) id)) →
  (∀ s, s ∈ l → is_Some (scopes (cw c') (scope_id_ s))) ∧
  (∀ j, is_Some (scopes (cw c) j) → is_Some (scopes (cw c') j)) ∧
  (∀ j, scopes (cw c') j = scopes (cw c) j ∨ ∃ s, s ∈ l ∧ scope_id_ s = j ∧ scopes (cw c') j = Some s) ∧
  (∀ j, is_Some (scopes (cw c') j) → is_Some (scopes (cw c) j) ∨ j ∈ ids) ∧ (∀ j, j ∈ created → j ∈ ids) ∧
  (∀ j, j ∈ ids → j ∈ created ∨ ∃ s, s ∈ l ∧ scope_id_ s = j).
Proof.
  revert created c. induction l as [|s l IH]; intros created c; cbn.
  { intros [= <- <-] _. split_and!; [set_solver|done|by left|by left|done|by left]. }
  destruct (bool_decide _ || bool_decide _) eqn:Eb.
  { intros Hc Hpre. destruct (IH _ _ Hc Hpre) as (Hl & Hk & Hj & Hi & Hin & Hids). split_and!; try done.
    - intros x [->|Hx]%elem_of_cons; [|by apply Hl]. apply Hk, Hpre. apply orb_true_iff in Eb. rewrite !bool_decide_eq_true in Eb. done.
    - intros j. destruct (Hj j) as [?|(x & ? & ? & ?)]; [by left|right]. exists x. set_solver.
    - intros j Hx%Hids. destruct Hx as [?|(x & ? & ?)]; [by left|right]. exists x. set_solver. }
  destruct (fw_scope_create s (cw c)) as [w ok] eqn:E. destruct ok; [|done]. intros Hc Hpre.
  assert (Hkeep : ∀ j, is_Some (scopes (cw c) j) → is_Some (scopes w j)).
  { intros j Hj. destruct (decide (j = scope_id_ s)) as [->|Hne]; [rewrite (create_ok _ _ _ E); eauto|].
    by rewrite (create_scopes_other _ _ _ _ _ E Hne). }
  destruct (IH _ _ Hc) as (Hl & Hk & Hj & Hi & Hin & Hids); cbn [cw set_w fw_scope_refs] in *.
  { intros id [Hid|[Hid|Hid%list_elem_of_singleton]%elem_of_app]; [by apply Hkeep, Hpre; left|by apply Hkeep, Hpre; right|].
    subst. rewrite (create_ok _ _ _ E). eauto. }
  split_and!.
  - intros x [->|Hx]%elem_of_cons; [|by apply Hl]. apply Hk. rewrite (create_ok _ _ _ E). eauto.
  - auto.
  - intros j. destruct (Hj j) as [Hx|(x & ? & ? & ?)]; [|right; exists x; set_solver].
    destruct (decide (j = scope_id_ s)) as [->|Hne]; [right; exists s; rewrite Hx, (create_ok _ _ _ E); set_solver|].
    left. by rewrite Hx, (create_scopes_other _ _ _ _ _ E Hne).
  - intros j Hx%Hi. destruct (decide (j = scope_id_ s)) as [->|Hne]; [right; apply Hin; set_solver|].
    by rewrite (create_scopes_other _ _ _ _ _ E Hne) in Hx.
  - set_solver.
  - intros j Hx%Hids. destruct Hx as [[?|Hx%list_elem_of_singleton]%elem_of_app|(x & ? & ?)]; [by left|right; exists s; set_solver|right; exists x; set_solver].
Qed.

(** ** Adopting *)

Lemma read_back (l : list (Z * FwBind)) (m : gmap Z FwBind) :
  (∀ i b, (i, b) ∈ l → m !! i = Some b) →
  let r := foldl (fun m e => <[e.1 := e.2]> m) ∅ l in
  r ⊆ m ∧ ((∀ i b, m !! i = Some b → (i, b) ∈ l) → r = m).
Proof.
  intros Hl r.
  assert (Hr : ∀ i b, r !! i = Some b ↔ (i, b) ∈ l).
  { subst r. induction l as [|[i b] l IH] using rev_ind; intros j d; [cbn; rewrite lookup_empty; set_solver|].
    rewrite foldl_app. cbn. rewrite elem_of_app, list_elem_of_singleton, lookup_insert_Some, IH by set_solver. split.
    - intros [[-> ->]|[? ?]]; [by right|by left].
    - intros [Hj|[= -> ->]]; [|by left]. destruct (decide (i = j)) as [->|]; [left|by right].
      split; [done|]. assert (m !! j = Some d) by set_solver. assert (m !! j = Some b) by set_solver. congruence. }
  split.
  - apply map_subseteq_spec. intros i b Hi%Hr. by apply Hl.
  - intros Hm. apply map_eq. intros i. destruct (m !! i) as [b|] eqn:E; [by apply Hr, Hm|].
    destruct (r !! i) as [b|] eqn:Er; [|done]. apply Hr, Hl in Er. congruence.
Qed.

Lemma adopt_spec c c' ok :
  adopt_fw_classifier c = (c', ok) →
  counted (fw_scope_refs c') (fw_binds c') ∧ fw_binds c' ⊆ binds (cw c) ∧ (fw_partial c' = false → fw_binds c' = binds (cw c)) ∧
  ifaces_meta c' = ifaces_meta c ∧ binds (cw c') = binds (cw c) ∧
  (∀ id, fw_partial c' = true ∨ is_Some (fw_scope_refs c' !! id) → scopes (cw c') id = scopes (cw c) id) ∧
  (∀ id x, scopes (cw c') id = Some x → scopes (cw c) id = Some x).
Proof.
  unfold adopt_fw_classifier. destruct (fw_bind_entries (cw c)) as [w1 bs] eqn:Eb. destruct (fw_scope_ids w1) as [w2 ids] eqn:Ei.
  intros [= <- <-]. cbn. destruct (bind_entries_frame _ _ _ Eb) as [Hb1 Hs1]. destruct (scope_ids_frame _ _ _ Ei) as [Hb2 Hs2].
  destruct (read_back (entries bs) (binds (cw c))) as [Hsub Hwhole]; [intros i b; by eapply bind_entries_sound|].
  set (bmap := foldl _ ∅ (entries bs)) in *. set (refs := foldr _ ∅ _).
  destruct (delete_scopes_spec (filter (fun id => refs !! id = None) (entries ids)) w2) as (Hb3 & Hs3 & Ho3).
  split_and!; try done.
  - apply rebuilt_counted.
  - intros He. apply Hwhole. intros i b. by eapply bind_entries_whole.
  - destruct (error bs); congruence.
  - intros id Hid. destruct (error bs); [congruence|]. rewrite Hs3, Hs2, Hs1; [done|].
    rewrite list_elem_of_filter. intros [Hn _]. destruct Hid as [|Hid]; [done|]. rewrite Hn in Hid. by destruct Hid.
  - intros id x. destruct (error bs); [by rewrite Hs2, Hs1|]. intros Hx%Ho3. by rewrite Hs2, Hs1 in Hx.
Qed.

Lemma adopt_inv c c' ok : adopt_fw_classifier c = (c', ok) → maps_ok (cw c) → inv c'.
Proof.
  intros E Hok. destruct (adopt_spec _ _ _ E) as (Hc & Hsub & _ & _ & Hb & Hs & _). split; [done|by rewrite Hb|].
  intros id Hid. rewrite Hs by auto. apply (counted_Some _ _ _ Hc) in Hid as (Hne & i & b & Hi & Hp).
  eapply Hok; [|done|done]. by eapply lookup_weaken.
Qed.

Lemma adopt_synced c c' ok : adopt_fw_classifier c = (c', ok) → maps_ok (cw c) → synced c'.
Proof.
  intros E Hok. pose proof (adopt_inv _ _ _ E Hok) as Hinv. destruct (adopt_spec _ _ _ E) as (Hc & Hsub & Hw & _ & Hb & Hs & _).
  split; [|by rewrite Hb]. intros i b id Hi Hp Hid. destruct (fw_partial c') eqn:Ep.
  - rewrite Hs by auto. rewrite Hb in Hi. by eapply Hok.
  - apply (inv_scopes _ Hinv), (counted_Some _ _ _ Hc). split; [done|]. exists i, b. rewrite Hw, <-Hb by done. done.
Qed.

(** The state a change starts from. *)
Definition ready c : Prop := inv c ∧ (fw_partial c = true → maps_ok (cw c)).

Lemma heal_inv c : ready c → inv (fw_heal c).
Proof.
  intros [Hi Hm]. unfold fw_heal. destruct (fw_partial c); [|done].
  destruct (adopt_fw_classifier c) as [c' ok] eqn:E. eapply adopt_inv; [exact E|auto].
Qed.

Lemma heal_ready c : ready c → ready (fw_heal c).
Proof.
  intros Hr. split; [by apply heal_inv|]. destruct Hr as [Hi Hm]. unfold fw_heal. destruct (fw_partial c) eqn:Ep; [|congruence].
  destruct (adopt_fw_classifier c) as [c' ok] eqn:E. intros _. eapply synced_maps, adopt_synced; [exact E|auto].
Qed.

Lemma heal_synced c : synced c → synced (fw_heal c).
Proof.
  intros Hs. unfold fw_heal. destruct (fw_partial c); [|done].
  destruct (adopt_fw_classifier c) as [c' ok] eqn:E. eapply adopt_synced; [exact E|apply Hs].
Qed.

Lemma heal_meta c : ifaces_meta (fw_heal c) = ifaces_meta c.
Proof.
  unfold fw_heal. destruct (fw_partial c); [|done]. destruct (adopt_fw_classifier c) as [c' ok] eqn:E. by apply adopt_spec in E as (?&?&?&?&?).
Qed.

Lemma heal_only c id x : scopes (cw (fw_heal c)) id = Some x → scopes (cw c) id = Some x.
Proof.
  unfold fw_heal. destruct (fw_partial c); [|done]. destruct (adopt_fw_classifier c) as [c' ok] eqn:E.
  apply adopt_spec in E as (?&?&?&?&?&?&Ho). apply Ho.
Qed.

Lemma heal_whole c : fw_partial c = false → fw_heal c = c.
Proof. unfold fw_heal. by intros ->. Qed.

(** ** Binding *)

(** The references of the binding an interface leaves. *)
Definition left_by (o : option FwBind) (j : Z) : Z := match o with Some old => points old j | None => 0 end.

Definition release_old (o : option FwBind) c : ControlCore W :=
  match o with Some old => fw_release_scopes old c | None => c end.

Lemma release_old_spec o c :
  positive (fw_scope_refs c) → (∀ j, j ≠ FW_SCOPE_NONE → left_by o j ≤ cnt (fw_scope_refs c) j) →
  released (left_by o) c (release_old o c).
Proof.
  intros Hp Hc. destruct o as [old|]; cbn; [by apply release_scopes_spec|].
  split; try done. intros j. cbn. destruct (j =? FW_SCOPE_NONE); cbn; lia.
Qed.

(** The core after the binding was written, before the old references go. *)
Definition written (i : Z) (b : FwBind) (w : W) c : ControlCore W :=
  mkCore w (ifaces_meta c) (<[i := b]> (fw_binds c)) (reference_bind b (fw_scope_refs c)) (fw_partial c).

Lemma written_spec i b w w1 ok c :
  inv c → (∀ id, 0 < points b id → id ≠ FW_SCOPE_NONE → is_Some (scopes (cw c) id)) →
  fw_bind_upsert i b (cw c) = (w1, true) → fw_epoch_bump w1 = (w, ok) →
  let c' := release_old (fw_binds c !! i) (written i b w c) in
  released (left_by (fw_binds c !! i)) (written i b w c) c' ∧ inv c' ∧
  binds (cw c') = <[i := b]> (binds (cw c)) ∧ (∀ j, scopes w j = scopes (cw c) j) ∧
  ∀ j, is_Some (fw_scope_refs c' !! j) → scopes (cw c') j = scopes (cw c) j.
Proof.
  intros [[Hp Hcnt] Hsub Hsc] Hb Eu Ee c'. pose proof (upsert_binds _ _ _ _ _ Eu) as Hwb. destruct (bump_frame _ _ _ Ee) as [Hbb Hbs].
  assert (Hw : ∀ j, scopes w j = scopes (cw c) j) by (intros j; rewrite Hbs; by eapply upsert_scopes).
  assert (Hge : ∀ j, j ≠ FW_SCOPE_NONE → left_by (fw_binds c !! i) j ≤ cnt (fw_scope_refs c) j).
  { intros j Hj. rewrite Hcnt. destruct (Z.eqb_spec j FW_SCOPE_NONE); [done|].
    destruct (fw_binds c !! i) as [old|] eqn:Eo; cbn; [by eapply uses_ge|apply uses_nonneg]. }
  assert (Hrel : released (left_by (fw_binds c !! i)) (written i b w c) c').
  { apply release_old_spec; cbn; [by apply reference_bind_positive|]. intros j Hj. rewrite reference_bind_cnt.
    specialize (Hge j Hj). pose proof (points_nonneg b j). destruct (j =? FW_SCOPE_NONE); lia. }
  assert (Hcounted : counted (fw_scope_refs c') (fw_binds c')).
  { split; [apply (rel_positive _ _ _ Hrel)|]. intros j. rewrite (rel_binds _ _ _ Hrel), (rel_cnt _ _ _ Hrel). cbn.
    rewrite reference_bind_cnt, Hcnt, uses_replace. unfold left_by. destruct (j =? FW_SCOPE_NONE); lia. }
  assert (Hkeep : ∀ j, is_Some (fw_scope_refs c' !! j) → scopes (cw c') j = scopes (cw c) j).
  { intros j Hj. rewrite (rel_scopes _ _ _ Hrel j), <-Hw; [done|]. right. by apply cnt_Some; [apply (rel_positive _ _ _ Hrel)|]. }
  split_and!; try done.
  - split; [done| |].
    + rewrite (rel_binds _ _ _ Hrel), (rel_wbinds _ _ _ Hrel). cbn. rewrite Hbb, Hwb. by apply insert_mono.
    + intros j Hj. rewrite Hkeep by done. apply (counted_Some _ _ _ Hcounted) in Hj as (Hne & k & d & Hk & Hd).
      rewrite (rel_binds _ _ _ Hrel) in Hk. cbn in Hk. apply lookup_insert_Some in Hk as [[-> ->]|[_ Hk]]; [by apply Hb|].
      apply Hsc, (counted_Some _ (fw_binds c)); [done|]. eauto.
  - rewrite (rel_wbinds _ _ _ Hrel). cbn. by rewrite Hbb, Hwb.
Qed.

Lemma flatten_points ig eg id :
  0 < points (mkBind (id_of ig) (id_of eg)) id → id ≠ FW_SCOPE_NONE →
  ∃ s, s ∈ flatten ig eg ∧ scope_id_ s = id.
Proof.
  intros [Hp|Hp]%points_pos Hne; cbn in Hp; unfold id_of, flatten in *.
  - destruct ig as [x|]; cbn in *; [|congruence]. exists x. destruct eg; set_solver.
  - destruct eg as [x|]; cbn in *; [|congruence]. exists x. destruct ig; cbn; set_solver.
Qed.

(** What a change of an interface's binding does to a core that is in step. *)
Record rebinds (i : Z) (ig eg : option Scope) (c1 c' : ControlCore W) (r : FwError + unit) : Prop := {
  reb_inv : inv c';
  reb_partial : fw_partial c' = fw_partial c1;
  reb_meta : ifaces_meta c' = ifaces_meta c1;
  reb_others j : is_Some (fw_scope_refs c1 !! j) → is_Some (fw_scope_refs c' !! j) → scopes (cw c') j = scopes (cw c1) j;
  reb_cases :
    (r = inl MapError ∧ fw_binds c' = fw_binds c1 ∧ binds (cw c') = binds (cw c1)) ∨
    ((r = inr tt ∨ r = inl MapError) ∧
     fw_binds c' = <[i := mkBind (id_of ig) (id_of eg)]> (fw_binds c1) ∧
     binds (cw c') = <[i := mkBind (id_of ig) (id_of eg)]> (binds (cw c1)) ∧
     ∀ j, is_Some (fw_scope_refs c' !! j) →
       scopes (cw c') j = scopes (cw c1) j ∨ ∃ s, s ∈ flatten ig eg ∧ scope_id_ s = j ∧ scopes (cw c') j = Some s)
}.

(** A change that stops after preparing. *)
Lemma rebinds_refused i ig eg c c' : inv c → prepared c c' → rebinds i ig eg c c' (inl MapError).
Proof.
  intros Hi Hp. pose proof (prepared_inv _ _ Hp Hi). destruct Hp. split; try done; [auto|]. by left.
Qed.

Lemma bind_scopes_effect i ig eg c c' r :
  inv (fw_heal c) → fw_bind_scopes i ig eg c = (c', r) → rebinds i ig eg (fw_heal c) c' r.
Proof.
  unfold fw_bind_scopes. set (c1 := fw_heal c). clearbody c1. set (b := mkBind _ _). intros Hinv.
  destruct (bool_decide (fw_binds c1 !! i = Some b)) eqn:Eo.
  { apply bool_decide_eq_true in Eo. intros [= <- <-]. split; try done. right.
    rewrite !insert_id by (done || by eapply lookup_weaken, Hinv). split_and!; auto. }
  destruct (create_scopes (flatten ig eg) [] c1) as [c2 [created|]] eqn:Ec.
  2:{ intros [= <- <-]. apply rebinds_refused; [done|]. eapply create_scopes_prepared; [exact Ec|set_solver]. }
  destruct (create_scopes_prepared _ _ _ _ _ Ec) as [Hp Hcr]; [set_solver|]. specialize (Hcr _ eq_refl).
  pose proof (prepared_inv _ _ Hp Hinv) as Hinv2.
  destruct (create_scopes_done _ _ _ _ _ Ec) as (Hfl & _ & Hcont & _).
  { intros id [Hid|Hid]; [by apply Hinv|set_solver]. }
  destruct (fw_bind_upsert i b (cw c2)) as [w1 ok] eqn:Eu. destruct ok; cbn [negb].
  2:{ intros [= <- <-]. apply rebinds_refused; [done|]. eapply prepared_trans; [exact Hp|].
    eapply prepared_trans; [|apply discard_prepared; cbn; by rewrite (prep_refs _ _ Hp)].
    split; try done; cbn; [by apply (upsert_binds _ _ _ _ _ Eu)|]. intros id _. by eapply upsert_scopes. }
  destruct (fw_epoch_bump w1) as [w2 bumped] eqn:Ee.
  destruct (written_spec i b w2 w1 bumped c2) as (Hrel & Hinv3 & Hwb & _ & Hkeep); [done| |done|done|].
  { intros id Hid Hne. destruct (flatten_points ig eg id Hid Hne) as (x & Hx & <-). by apply Hfl. }
  rewrite <-(prep_binds _ _ Hp). fold (written i b w2 c2). fold (release_old (fw_binds c2 !! i) (written i b w2 c2)).
  set (c3 := release_old _ _) in *. intros [= <- <-]. destruct Hp. split; try done.
  - rewrite (rel_partial _ _ _ Hrel). cbn. congruence.
  - rewrite (rel_meta _ _ _ Hrel). cbn. congruence.
  - intros j Hj Hj'. rewrite Hkeep by done. auto.
  - right. rewrite (rel_binds _ _ _ Hrel), Hwb. cbn. rewrite prep_binds0, prep_wbinds0. split_and!; try done; [by destruct bumped; auto|].
    intros j Hj. by rewrite Hkeep.
Qed.

Context {ro : RangeOrder}.

Lemma replace_effect id v4 v6 c c' r :
  ready c → replace_interface_fw id v4 v6 c = (c', r) →
  (c' = c ∧ ∃ e, r = inl e) ∨
  ∃ m ig eg, ifaces_meta c !! id = Some m ∧ compile_iface v4 v6 = inr (ig, eg) ∧ rebinds (im_ifindex m) ig eg (fw_heal c) c' r.
Proof.
  intros Hr. unfold replace_interface_fw, fw_ifindex. destruct (ifaces_meta c !! id) as [m|]; [|intros [= <- <-]; left; eauto].
  destruct (compile_iface v4 v6) as [e|[ig eg]] eqn:E; [intros [= <- <-]; left; eauto|]. intros Hb. right.
  exists m, ig, eg. split_and!; try done. apply bind_scopes_effect; [by apply heal_inv|done].
Qed.

(** ** Unbinding *)

Lemma remove_effect i c :
  ready c →
  let c1 := fw_heal c in let c' := remove_fw_rules i c in
  inv c' ∧ fw_partial c' = fw_partial c1 ∧ fw_binds c' = delete i (fw_binds c1) ∧
  (∀ j, is_Some (fw_scope_refs c' !! j) → scopes (cw c') j = scopes (cw c1) j) ∧
  (fw_partial c1 = true → ∀ j, scopes (cw c') j = scopes (cw c1) j).
Proof.
  intros Hr%heal_inv. unfold remove_fw_rules. set (c1 := fw_heal c) in *. clearbody c1. cbv zeta.
  destruct (fw_binds c1 !! i) as [old|] eqn:Eo; [|by rewrite delete_id].
  destruct (fw_bind_remove i (cw c1)) as [w1 ok1] eqn:E1. cbn [fst]. destruct (fw_epoch_bump w1) as [w2 ok2] eqn:E2. cbn [fst].
  set (c2 := mkCore _ _ _ _ _). destruct Hr as [[Hp Hcnt] Hsub Hsc].
  pose proof (remove_binds _ _ _ _ E1) as Hwb. destruct (bump_frame _ _ _ E2) as [Hbb Hbs].
  assert (Hw : ∀ j, scopes w2 j = scopes (cw c1) j) by (intros j; rewrite Hbs; by eapply remove_scopes).
  assert (Hrel : released (points old) c2 (fw_release_scopes old c2)).
  { apply release_scopes_spec; [done|]. intros j Hj. cbn. rewrite Hcnt. destruct (Z.eqb_spec j FW_SCOPE_NONE); [done|]. by eapply uses_ge. }
  set (c' := fw_release_scopes old c2) in *.
  assert (Hcounted : counted (fw_scope_refs c') (fw_binds c')).
  { split; [apply (rel_positive _ _ _ Hrel)|]. intros j. rewrite (rel_binds _ _ _ Hrel), (rel_cnt _ _ _ Hrel). cbn.
    rewrite Hcnt, (uses_delete (fw_binds c1) i old) by done. destruct (j =? FW_SCOPE_NONE); lia. }
  assert (Hkeep : ∀ j, is_Some (fw_scope_refs c' !! j) → scopes (cw c') j = scopes (cw c1) j).
  { intros j Hj. rewrite (rel_scopes _ _ _ Hrel j), <-Hw; [done|]. right. by apply cnt_Some; [apply (rel_positive _ _ _ Hrel)|]. }
  split_and!; try done.
  - split; [done| |].
    + rewrite (rel_binds _ _ _ Hrel), (rel_wbinds _ _ _ Hrel). cbn. rewrite Hbb, Hwb. destruct ok1; [by apply delete_mono|].
      etrans; [apply delete_subseteq|done].
    + intros j Hj. rewrite Hkeep by done. apply (counted_Some _ _ _ Hcounted) in Hj as (Hne & k & d & Hk & Hd).
      rewrite (rel_binds _ _ _ Hrel) in Hk. cbn in Hk. apply lookup_delete_Some in Hk as [_ Hk].
      apply Hsc, (counted_Some _ (fw_binds c1)); [done|]. eauto.
  - apply (rel_partial _ _ _ Hrel).
  - apply (rel_binds _ _ _ Hrel).
  - intros Hpart j. rewrite (rel_cut _ _ _ Hrel) by done. apply Hw.
Qed.

End control.

(** ** Writers that are reliable *)

Section reliable.
Context {W : Type} {FW : FwWriter W} {L : FwWriterLaws W} {R : FwWriterReliable W}.
Implicit Types c : ControlCore W.

Lemma delete_scopes_done ids (w : W) j : is_Some (scopes (delete_scopes ids w) j) → j ∉ ids.
Proof.
  revert w. induction ids as [|id ids IH]; intros w; [set_solver|]. unfold delete_scopes. cbn.
  destruct (fw_scope_delete id w) as [w1 ok] eqn:E. cbn. intros Hj. apply not_elem_of_cons. split; [|by eapply IH].
  intros ->. destruct Hj as [x Hx]. apply delete_scopes_spec in Hx. by rewrite (delete_done _ _ _ _ E) in Hx.
Qed.

(** Scopes are in the maps only if referenced, or created and not bound yet. *)
Definition pending (created : list Z) c : Prop :=
  ∀ j, is_Some (scopes (cw c) j) → is_Some (fw_scope_refs c !! j) ∨ j ∈ created.

Lemma discard_collected ids c : fw_partial c = false → pending ids c → collected (fw_discard_scopes ids c).
Proof.
  intros Hp Hc j. unfold fw_discard_scopes. rewrite Hp. cbn. intros Hj.
  pose proof (delete_scopes_done _ _ _ Hj). destruct Hj as [x Hx%delete_scopes_spec]. by destruct (Hc j); eauto.
Qed.

Lemma create_scopes_pending l created c c' r :
  create_scopes l created c = (c', r) → fw_partial c = false → pending created c →
  match r with Some ids => pending ids c' | None => collected c' end.
Proof.
  revert created c. induction l as [|s l IH]; intros created c; cbn; [by intros [= <- <-]|].
  destruct (bool_decide _ || bool_decide _); [apply IH|].
  destruct (fw_scope_create s (cw c)) as [w ok] eqn:E. intros Hc Hp Hpend. destruct ok.
  - apply (IH _ _ Hc); [done|]. intros j Hj. cbn in *. destruct (decide (j = scope_id_ s)) as [->|Hne]; [right; set_solver|].
    rewrite (create_scopes_other _ _ _ _ _ E Hne) in Hj. destruct (Hpend j Hj); [by left|right; set_solver].
  - simplify_eq. apply discard_collected; [done|]. intros j. cbn. rewrite (create_failed _ _ _ _ E). apply Hpend.
Qed.

Lemma release_collected id c : fw_partial c = false → collected c → collected (release id c) ∧ fw_partial (release id c) = false.
Proof.
  intros Hp Hc. unfold release. destruct (id =? FW_SCOPE_NONE); [done|]. destruct (fw_scope_refs c !! id) as [n|] eqn:En; [|done].
  destruct (n - 1 =? 0); split; cbn; try done; intros j; cbn.
  - rewrite Hp. destruct (fw_scope_delete id (cw c)) as [w ok] eqn:E. cbn. destruct (decide (j = id)) as [->|Hj].
    + rewrite (delete_done _ _ _ _ E). by intros [? [=]].
    + rewrite (delete_scopes_other _ _ _ _ _ E Hj), lookup_delete_ne by congruence. apply Hc.
  - intros Hj%Hc. destruct (decide (j = id)) as [->|]; [rewrite lookup_insert_eq; eauto|by rewrite lookup_insert_ne].
Qed.

Lemma release_scopes_collected old c : fw_partial c = false → collected c → collected (fw_release_scopes old c).
Proof. intros Hp Hc. destruct (release_collected (ingress_scope old) c Hp Hc). by apply release_collected. Qed.

Lemma reference_mono id refs j : is_Some (refs !! j) → is_Some (reference id refs !! j).
Proof.
  intros Hj. unfold reference. destruct (id =? FW_SCOPE_NONE); [done|].
  destruct (decide (j = id)) as [->|]; [rewrite lookup_insert_eq; eauto|by rewrite lookup_insert_ne].
Qed.

Lemma reference_bind_Some b refs j :
  is_Some (refs !! j) ∨ (0 < points b j ∧ j ≠ FW_SCOPE_NONE) → is_Some (reference_bind b refs !! j).
Proof.
  unfold reference_bind. intros [Hj|[[<-|<-]%points_pos Hne]]; [by do 2 apply reference_mono|apply reference_mono|];
    unfold reference; (rewrite (proj2 (Z.eqb_neq _ _) Hne)); rewrite lookup_insert_eq; eauto.
Qed.

(** A change of a binding leaks no scope. *)
Lemma bind_scopes_collected i ig eg c c' r :
  (∀ s, s ∈ flatten ig eg → scope_id_ s ≠ FW_SCOPE_NONE) → inv c → fw_partial c = false → collected c →
  fw_bind_scopes i ig eg c = (c', r) → collected c'.
Proof.
  intros Hnz Hinv Hp Hcol. unfold fw_bind_scopes. rewrite (heal_whole c Hp). set (b := mkBind _ _).
  destruct (bool_decide (fw_binds c !! i = Some b)); [by intros [= <- <-]|].
  destruct (create_scopes (flatten ig eg) [] c) as [c2 rc] eqn:Ec.
  destruct (create_scopes_prepared _ _ _ _ _ Ec) as [Hprep _]; [set_solver|].
  pose proof (create_scopes_pending _ _ _ _ _ Ec Hp) as Hpend. destruct rc as [created|]; [|intros [= <- <-]; apply Hpend; by left; auto].
  destruct (create_scopes_done _ _ _ _ _ Ec) as (_ & _ & _ & _ & _ & Hids); [intros id [Hid|Hid]; [by apply Hinv|set_solver]|].
  assert (Hpend2 : pending created c2) by (apply Hpend; by left; auto). destruct Hprep.
  destruct (fw_bind_upsert i b (cw c2)) as [w1 ok] eqn:Eu. destruct ok; cbn [negb].
  2:{ intros [= <- <-]. apply discard_collected; [cbn; congruence|]. intros j. cbn. rewrite (upsert_scopes _ _ _ _ _ _ Eu). apply Hpend2. }
  destruct (fw_epoch_bump w1) as [w2 bumped] eqn:Ee. intros [= <- <-].
  assert (Hcol2 : collected (written i b w2 c2)).
  { intros j. cbn. destruct (bump_frame _ _ _ Ee) as [_ ->]. rewrite (upsert_scopes _ _ _ _ _ _ Eu). intros Hj%Hpend2.
    apply reference_bind_Some. destruct Hj as [?|Hj%Hids]; [by left|]. right.
    destruct Hj as [?|(s & Hs & <-)]; [set_solver|]. split; [|by apply Hnz]. apply points_pos. cbn. unfold flatten, id_of in *.
    destruct ig, eg; cbn in *; set_solver. }
  fold (written i b w2 c2). destruct (fw_binds c !! i); [|done]. apply release_scopes_collected; [cbn; congruence|done].
Qed.

Lemma remove_collected i c : fw_partial c = false → collected c → collected (remove_fw_rules i c).
Proof.
  intros Hp Hcol. unfold remove_fw_rules. rewrite (heal_whole c Hp). destruct (fw_binds c !! i); [|done].
  destruct (fw_bind_remove i (cw c)) as [w1 ok1] eqn:E1. cbn [fst]. destruct (fw_epoch_bump w1) as [w2 ok2] eqn:E2. cbn [fst].
  apply release_scopes_collected; [done|]. intros j. cbn. destruct (bump_frame _ _ _ E2) as [_ ->].
  rewrite (remove_scopes _ _ _ _ _ E1). apply Hcol.
Qed.

(** An adopt both of whose walks are whole collects what is not referenced. *)
Lemma adopt_collected c c' : adopt_fw_classifier c = (c', true) → collected c'.
Proof.
  unfold adopt_fw_classifier. destruct (fw_bind_entries (cw c)) as [w1 bs] eqn:Eb. destruct (fw_scope_ids w1) as [w2 ids] eqn:Ei.
  intros [= <- [Hb Hi]%andb_true_iff]. apply negb_true_iff in Hb, Hi. rewrite Hb. intros j. cbn. intros Hj.
  pose proof (delete_scopes_done _ _ _ Hj) as Hnot. destruct Hj as [x Hx%delete_scopes_spec].
  rewrite list_elem_of_filter in Hnot. apply not_eq_None_Some. intros Hn. apply Hnot. split; [done|].
  destruct (scope_ids_frame _ _ _ Ei) as [_ Hs]. rewrite Hs in Hx. eapply scope_ids_whole; eauto.
Qed.

(** While a cut walk stands, a change removes no scope. *)
Lemma create_scopes_keeps l created c c' r j :
  create_scopes l created c = (c', r) → fw_partial c = true → is_Some (scopes (cw c) j) → is_Some (scopes (cw c') j).
Proof.
  revert created c. induction l as [|s l IH]; intros created c; cbn; [by intros [= <- <-]|].
  destruct (bool_decide _ || bool_decide _); [apply IH|].
  destruct (fw_scope_create s (cw c)) as [w ok] eqn:E. intros Hc Hp Hj. destruct ok.
  - apply (IH _ _ Hc); [done|]. cbn. destruct (decide (j = scope_id_ s)) as [->|Hne]; [rewrite (create_ok _ _ _ E); eauto|].
    by rewrite (create_scopes_other _ _ _ _ _ E Hne).
  - simplify_eq. unfold fw_discard_scopes. cbn. rewrite Hp. cbn. by rewrite (create_failed _ _ _ _ E).
Qed.

Lemma bind_scopes_keeps i ig eg c c' r j :
  inv (fw_heal c) → fw_partial (fw_heal c) = true → fw_bind_scopes i ig eg c = (c', r) →
  is_Some (scopes (cw (fw_heal c)) j) → is_Some (scopes (cw c') j).
Proof.
  unfold fw_bind_scopes. set (c1 := fw_heal c). clearbody c1. intros Hinv Hp. set (b := mkBind _ _).
  destruct (bool_decide (fw_binds c1 !! i = Some b)); [by intros [= <- <-]|].
  destruct (create_scopes (flatten ig eg) [] c1) as [c2 rc] eqn:Ec. intros E Hj.
  pose proof (create_scopes_keeps _ _ _ _ _ j Ec Hp Hj) as Hj2.
  destruct (create_scopes_prepared _ _ _ _ _ Ec) as [Hprep _]; [set_solver|]. destruct rc as [created|]; [|by simplify_eq].
  assert (Hp2 : fw_partial c2 = true) by (by rewrite (prep_partial _ _ Hprep)).
  destruct (fw_bind_upsert i b (cw c2)) as [w1 ok] eqn:Eu. destruct ok; cbn [negb] in E.
  2:{ simplify_eq. unfold fw_discard_scopes. cbn. rewrite Hp2. cbn. by rewrite (upsert_scopes _ _ _ _ _ _ Eu). }
  destruct (fw_epoch_bump w1) as [w2 bumped] eqn:Ee. simplify_eq.
  destruct (create_scopes_done _ _ _ _ _ Ec) as (Hfl & _); [intros id [Hid|Hid]; [by apply Hinv|set_solver]|].
  destruct (written_spec i b w2 w1 bumped c2) as (Hrel & _ & _ & Hw & _); [by eapply prepared_inv| |done|done|].
  { intros id Hid Hne. destruct (flatten_points ig eg id Hid Hne) as (x & Hx & <-). by apply Hfl. }
  rewrite <-(prep_binds _ _ Hprep). fold (written i b w2 c2). fold (release_old (fw_binds c2 !! i) (written i b w2 c2)).
  rewrite (rel_cut _ _ _ Hrel) by done. cbn. by rewrite Hw.
Qed.

(** A core in step with its bindings vouches for the maps. *)
Lemma inv_synced c : inv c → fw_binds c = binds (cw c) → maps_ok (cw c).
Proof.
  intros [Hc _ Hs] Hb i b id Hi Hp Hid. apply Hs, (counted_Some _ _ _ Hc). rewrite Hb. eauto.
Qed.

Lemma bind_scopes_synced i ig eg c c' r :
  inv (fw_heal c) → synced c → fw_bind_scopes i ig eg c = (c', r) → synced c'.
Proof.
  intros Hinv Hsyn%heal_synced E. pose proof (bind_scopes_effect _ _ _ _ _ _ Hinv E) as Hr. destruct Hsyn as [Hok Hsyn].
  assert (Hb : fw_partial c' = false → fw_binds c' = binds (cw c')).
  { rewrite (reb_partial _ _ _ _ _ _ Hr). intros Hp%Hsyn. destruct (reb_cases _ _ _ _ _ _ Hr) as [(_ & -> & ->)|(_ & -> & -> & _)]; congruence. }
  split; [|done]. destruct (fw_partial c') eqn:Ep; [|by apply inv_synced; [apply Hr|auto]].
  rewrite (reb_partial _ _ _ _ _ _ Hr) in Ep. intros k d id Hk Hd Hid.
  assert (Hold : binds (cw (fw_heal c)) !! k = Some d → is_Some (scopes (cw c') id)).
  { intros Hk1. eapply bind_scopes_keeps; [done|done|exact E|]. by eapply Hok. }
  destruct (reb_cases _ _ _ _ _ _ Hr) as [(_ & _ & Hw)|(_ & Hf & Hw & _)]; rewrite Hw in Hk; [auto|].
  apply lookup_insert_Some in Hk as [[<- <-]|[_ Hk]]; [|auto]. destruct (reb_inv _ _ _ _ _ _ Hr) as [Hc _ Hs].
  apply Hs, (counted_Some _ _ _ Hc). split; [done|]. eexists i, _. by rewrite Hf, lookup_insert_eq.
Qed.

Lemma release_binds id c : binds (cw (release id c)) = binds (cw c).
Proof.
  unfold release. destruct (id =? _); [done|]. destruct (fw_scope_refs c !! id) as [n|]; [|done].
  destruct (n - 1 =? 0); [|done]. cbn. destruct (fw_partial c); [done|].
  destruct (fw_scope_delete id (cw c)) as [w ok] eqn:E. cbn. by eapply delete_binds.
Qed.

Lemma remove_synced i c : ready c → synced c → synced (remove_fw_rules i c).
Proof.
  intros Hr Hsyn%heal_synced. destruct (remove_effect i c Hr) as (Hinv & Hpart & Hf & _ & Hcut). destruct Hsyn as [Hok Hsyn].
  set (c' := remove_fw_rules i c) in *.
  assert (Hw : binds (cw c') ⊆ binds (cw (fw_heal c)) ∧ (fw_binds (fw_heal c) = binds (cw (fw_heal c)) → fw_binds c' = binds (cw c'))).
  { subst c'. rewrite Hf. clear Hf. unfold remove_fw_rules in *. set (c1 := fw_heal c) in *. clearbody c1.
    destruct (fw_binds c1 !! i) as [old|] eqn:Eo; [|split; [done|]; by intros <-; apply delete_id].
    destruct (fw_bind_remove i (cw c1)) as [w1 ok1] eqn:E1. cbn [fst] in *. destruct (fw_epoch_bump w1) as [w2 ok2] eqn:E2. cbn [fst] in *.
    pose proof (remove_done _ _ _ _ E1) as ->. pose proof (remove_binds _ _ _ _ E1) as Hwb. destruct (bump_frame _ _ _ E2) as [Hbb _].
    set (c2 := mkCore _ _ _ _ _) in *.
    unfold fw_release_scopes. rewrite !release_binds. cbn. rewrite Hbb, Hwb. split; [apply delete_subseteq|]. by intros ->. }
  destruct Hw as [Hsub Heq].
  assert (Hb : fw_partial c' = false → fw_binds c' = binds (cw c')) by (rewrite Hpart; auto).
  split; [|done]. destruct (fw_partial c') eqn:Ep; [|by apply inv_synced; auto].
  intros k d id Hk Hd Hid. rewrite Hcut by congruence. eapply Hok; [|done|done]. by eapply lookup_weaken.
Qed.

End reliable.

(** ** Sequences of changes *)

(** The changes of the firewall, and a restart of the process over the maps as
    they stand ([Control::bring_up] with [adopt]). *)
Inductive FwOp :=
| Attach (interface_id : list Z) (m : IfaceMeta)
| Replace (interface_id : list Z) (v4 v6 : list FwRule)
| Detach (ifindex : Z)
| Restart.

Definition is_restart (op : FwOp) : bool := match op with Restart => true | _ => false end.

Section runs.
Context {ro : RangeOrder} {W : Type} {FW : FwWriter W}.
Implicit Types c : ControlCore W.

Definition fw_step (c : ControlCore W) (op : FwOp) : ControlCore W :=
  match op with
  | Attach id m => register_iface_meta id m c
  | Replace id v4 v6 => (replace_interface_fw id v4 v6 c).1
  | Detach i => remove_fw_rules i c
  | Restart => (adopt_fw_classifier (new (cw c))).1
  end.

Definition fw_run (c : ControlCore W) (ops : list FwOp) : ControlCore W := foldl fw_step c ops.

(** The maps as the classifier reads them. *)
Definition maps_of (w : W) : FwMaps := mkFwMaps (fun i => binds w !! i) (scopes w).

Context {L : FwWriterLaws W}.

Lemma compiled_nonzero v4 v6 ig eg s : compile_iface v4 v6 = inr (ig, eg) → s ∈ flatten ig eg → scope_id_ s ≠ FW_SCOPE_NONE.
Proof.
  unfold compile_iface. destruct (compile_scope FW_DIR_INGRESS v4 v6) as [|i] eqn:Ei; [done|].
  destruct (compile_scope FW_DIR_EGRESS v4 v6) as [|e] eqn:Ee; [done|]. intros [= -> ->] Hs.
  assert (ig = Some s ∨ eg = Some s) as [->| ->] by (unfold flatten in Hs; destruct ig, eg; cbn in Hs; set_solver).
  - apply (scope_id_nonzero _ _ _ _ Ei s eq_refl).
  - apply (scope_id_nonzero _ _ _ _ Ee s eq_refl).
Qed.

Lemma step_whole c op : is_restart op = false → inv c → fw_partial c = false → inv (fw_step c op) ∧ fw_partial (fw_step c op) = false.
Proof.
  intros Hop Hi Hp. assert (Hr : ready c) by (split; [done|congruence]). destruct op as [id m|id v4 v6|i|]; cbn in *; try done.
  - split; [|done]. by destruct Hi.
  - destruct (replace_interface_fw id v4 v6 c) as [c' r] eqn:E. apply replace_effect in E; [|done].
    destruct E as [[-> _]|(m & ig & eg & _ & _ & Hreb)]; [done|]. split; [apply Hreb|].
    cbn. by rewrite (reb_partial _ _ _ _ _ _ Hreb), heal_whole.
  - destruct (remove_effect i c Hr) as (? & Hpart & _). split; [done|]. by rewrite Hpart, heal_whole.
Qed.

(** C22. Whatever writes fail, the bookkeeping of a running dataplane stays in step
    with the maps: from bookkeeping that is whole, no cut walk standing, and through
    any sequence of attachments, replacements and detachments without a restart, the
    reference counts are those of the bindings, every binding the core knows is the
    one in force, and every scope it references is in the maps, so no interface it
    bound is left without its rules; and the bookkeeping stays whole. *)
Theorem fw_run_inv c ops :
  inv c → fw_partial c = false → forallb (fun op => negb (is_restart op)) ops = true →
  inv (fw_run c ops) ∧ fw_partial (fw_run c ops) = false.
Proof.
  unfold fw_run. revert c. induction ops as [|op ops IH]; intros c Hi Hp; [done|]. cbn.
  intros [Hop%negb_true_iff Hops]%andb_true_iff. destruct (step_whole c op) as [? ?]; [done..|]. by apply IH.
Qed.

End runs.

Section reliable_runs.
Context {ro : RangeOrder} {W : Type} {FW : FwWriter W} {L : FwWriterLaws W} {R : FwWriterReliable W}.
Implicit Types c : ControlCore W.

Lemma step_synced c op : inv c → synced c → inv (fw_step c op) ∧ synced (fw_step c op).
Proof.
  intros Hi Hs. assert (Hr : ready c) by (split; [done|intros _; apply Hs]). destruct op as [id m|id v4 v6|i|]; cbn.
  - destruct Hi, Hs. by split.
  - destruct (replace_interface_fw id v4 v6 c) as [c' r] eqn:E. pose proof E as E0. apply replace_effect in E; [|done].
    destruct E as [[-> _]|(m & ig & eg & Hm & Hc & Hreb)]; [done|]. split; [apply Hreb|]. cbn.
    unfold replace_interface_fw, fw_ifindex in E0. rewrite Hm, Hc in E0. eapply bind_scopes_synced; [by apply heal_inv|done|exact E0].
  - split; [apply remove_effect; done|by apply remove_synced].
  - destruct (adopt_fw_classifier (new (cw c))) as [c' ok] eqn:E. cbn.
    split; [eapply adopt_inv|eapply adopt_synced]; [exact E|apply Hs|exact E|apply Hs].
Qed.

Lemma step_collected c op :
  is_restart op = false → inv c → fw_partial c = false → collected c → collected (fw_step c op).
Proof.
  intros Hop Hi Hp Hc. destruct op as [id m|id v4 v6|i|]; cbn in *; try done.
  - destruct (replace_interface_fw id v4 v6 c) as [c' r] eqn:E. revert E. unfold replace_interface_fw.
    destruct (fw_ifindex id c) as [|k]; [by intros [= <- <-]|]. destruct (compile_iface v4 v6) as [|[ig eg]] eqn:Ec; [by intros [= <- <-]|].
    intros E. eapply bind_scopes_collected; [|done|done|done|exact E]. intros s. by eapply compiled_nonzero.
  - by apply remove_collected.
Qed.

(** C27. Over a writer whose removals succeed and whose failed creations leave a
    scope that was there, the maps themselves stay whole across restarts, cut walks
    included: after any sequence of changes and restarts no binding in force points
    at a scope that is gone, and the core knows every binding unless a cut walk
    stands.  Scopes are collected only while no walk was cut and no restart
    intervenes: from whole bookkeeping, as long as there is no restart, maps that
    hold only scopes some binding uses still do. *)
Theorem fw_run_synced c ops :
  inv c → synced c →
  inv (fw_run c ops) ∧ synced (fw_run c ops) ∧
  (fw_partial c = false → collected c → forallb (fun op => negb (is_restart op)) ops = true → collected (fw_run c ops)).
Proof.
  unfold fw_run. revert c. induction ops as [|op ops IH]; intros c Hi Hs; [done|]. cbn.
  destruct (step_synced c op Hi Hs) as [Hi' Hs']. destruct (IH _ Hi' Hs') as (? & ? & Hcol). split_and!; try done.
  intros Hp Hc [Hop%negb_true_iff Hops]%andb_true_iff. apply Hcol; [by apply step_whole|by apply step_collected|done].
Qed.

End reliable_runs.
