(* ===== verification/FwControlPackets.v ===== *)
(** * Firewall programming: what packets meet

    A successful replacement makes the classifier decide the interface's packets
    by the new rules, and leaves the packets of every other interface alone. *)

From S2P Require Import Prelude FwClass FwClassFacts FwClassTheorems FwControl FwControlFacts FwControlTheorems.
Import fwclass fwcontrol.

Open Scope Z_scope.

(** No scope the change compiles shares its id with different content: the ids
    are 64-bit hashes of the content. *)
Definition no_collision {W : Type} `{FwWriter W} (w : W) (ig eg : option Scope) : Prop :=
  ∀ s, s ∈ flatten ig eg →
    (∀ x, scopes w (scope_id_ s) = Some x → x = s) ∧ (∀ s', s' ∈ flatten ig eg → scope_id_ s' = scope_id_ s → s' = s).

(** The scope compiled for a direction. *)
Definition scope_for (dir : Z) (ig eg : option Scope) : option Scope := if dir =? FW_DIR_EGRESS then eg else ig.

Section packets.
Context {ro : RangeOrder} {lp : Lpm} {W : Type} {FW : FwWriter W} {L : FwWriterLaws W}.
Implicit Types c : ControlCore W.

Lemma compile_iface_dir dir v4 v6 ig eg :
  dir = FW_DIR_INGRESS ∨ dir = FW_DIR_EGRESS → compile_iface v4 v6 = inr (ig, eg) →
  compile_scope dir v4 v6 = inr (scope_for dir ig eg).
Proof.
  unfold compile_iface. destruct (compile_scope FW_DIR_INGRESS v4 v6) as [|i] eqn:Ei; [done|].
  destruct (compile_scope FW_DIR_EGRESS v4 v6) as [|e] eqn:Ee; [done|]. by intros [-> | ->] [= -> ->].
Qed.

(** A binding that is in force binds the interface to what was compiled. *)
Lemma rebinds_bound i ig eg c1 c' dir :
  rebinds i ig eg c1 c' (inr tt) → no_collision (cw c1) ig eg →
  (∀ s, s ∈ flatten ig eg → scope_id_ s ≠ FW_SCOPE_NONE) → dir = FW_DIR_INGRESS ∨ dir = FW_DIR_EGRESS →
  bound (maps_of (cw c')) i dir (scope_for dir ig eg).
Proof.
  intros Hr Hnc Hnz Hdir. destruct (reb_cases _ _ _ _ _ _ Hr) as [[[=] _]|(_ & Hf & Hw & Hcont)].
  exists (mkBind (id_of ig) (id_of eg)). cbn [fw_bind maps_of fw_scope]. rewrite Hw, lookup_insert_eq. split; [done|].
  assert (Hid : bind_scope (mkBind (id_of ig) (id_of eg)) dir = id_of (scope_for dir ig eg)) by (by destruct Hdir as [-> | ->]).
  rewrite Hid. destruct (scope_for dir ig eg) as [s|] eqn:Es; [|done]. split; [done|].
  assert (Hs : s ∈ flatten ig eg).
  { unfold flatten. destruct Hdir as [-> | ->]; cbn in Es; subst; [destruct eg|destruct ig]; cbn; set_solver. }
  assert (His : is_Some (fw_scope_refs c' !! scope_id_ s)).
  { apply (counted_Some _ _ _ (inv_counted _ (reb_inv _ _ _ _ _ _ Hr))). split; [by apply Hnz|].
    eexists i, _. rewrite Hf, lookup_insert_eq. split; [done|]. apply points_pos. cbn.
    destruct Hdir as [-> | ->]; cbn in Es; subst; [by left|by right]. }
  destruct (inv_scopes _ (reb_inv _ _ _ _ _ _ Hr) _ His) as [x Hx]. rewrite Hx. destruct (Hnc s Hs) as [Hheld Hsame].
  destruct (Hcont _ His) as [Heq|(s' & Hs' & Hid' & Hx')].
  - f_equal. apply Hheld. congruence.
  - rewrite Hx in Hx'. injection Hx' as ->. f_equal. by apply Hsame.
Qed.

Lemma replaced_classifies id m v4 v6 ig eg c c' dir pkt off :
  ready c → ifaces_meta c !! id = Some m → replace_interface_fw id v4 v6 c = (c', inr tt) →
  compile_iface v4 v6 = inr (ig, eg) → no_collision (cw c) ig eg →
  Forall (rule_ok 4) v4 → Forall (rule_ok 16) v6 →
  Z.of_nat (length v4) ≤ FW_RANK_MAX + 1 → Z.of_nat (length v6) ≤ FW_RANK_MAX + 1 →
  dir = FW_DIR_INGRESS ∨ dir = FW_DIR_EGRESS → bytes_ok pkt → 0 ≤ off →
  (∀ s, selectors4 pkt off = Some s →
    fw_classify pkt (maps_of (cw c')) off (im_ifindex m) dir = first_match 1 s v4 dir) ∧
  (∀ s, selectors6 pkt off = Some s →
    fw_classify6 pkt (maps_of (cw c')) off (im_ifindex m) dir = first_match 58 (icmp_octets 58 s) v6 dir).
Proof.
  intros Hr Hm E Hc Hnc H4 H6 Hn4 Hn6 Hdir Hp Hoff. apply replace_effect in E; [|done].
  destruct E as [[_ [? [=]]]|(m' & ig' & eg' & Hm' & Hc' & Hreb)]. rewrite Hc in Hc'. injection Hc' as <- <-. rewrite Hm in Hm'. injection Hm' as <-.
  apply (classify_bound dir v4 v6 (scope_for dir ig eg)); try done; [by apply compile_iface_dir|].
  eapply rebinds_bound; [exact Hreb| |intros s; by eapply compiled_nonzero|done].
  intros s Hs. destruct (Hnc s Hs) as [Hheld Hsame]. split; [|done]. intros x Hx%heal_only. by apply Hheld.
Qed.

(** A replacement that succeeds is what the interface's packets meet: whatever
    was bound before, and also where a walk was cut, the classifier over the maps
    the replacement leaves gives every packet of either family and direction the
    action of the first of the new rules that matches it (an ICMPv6 packet too short
    for its type counts as type 255). *)
Theorem replace_classifies id m v4 v6 ig eg c c' dir pkt off :
  ready c → ifaces_meta c !! id = Some m → replace_interface_fw id v4 v6 c = (c', inr tt) →
  compile_iface v4 v6 = inr (ig, eg) → no_collision (cw c) ig eg →
  Forall (rule_ok 4) v4 → Forall (rule_ok 16) v6 →
  Z.of_nat (length v4) ≤ FW_RANK_MAX + 1 → Z.of_nat (length v6) ≤ FW_RANK_MAX + 1 →
  dir = FW_DIR_INGRESS ∨ dir = FW_DIR_EGRESS → bytes_ok pkt → 0 ≤ off →
  (∀ s, selectors4 pkt off = Some s →
    fw_classify pkt (maps_of (cw c')) off (im_ifindex m) dir = first_match 1 s v4 dir) ∧
  (∀ s, selectors6 pkt off = Some s →
    fw_classify6 pkt (maps_of (cw c')) off (im_ifindex m) dir = first_match 58 (icmp_octets 58 s) v6 dir).
Proof. apply replaced_classifies. Qed.

(** The classifier reads only the interface's binding and the scopes it names. *)
Lemma classify_frame (w w' : W) i b :
  binds w !! i = Some b → binds w' !! i = Some b →
  (∀ id, 0 < points b id → id ≠ FW_SCOPE_NONE → scopes w' id = scopes w id) →
  ∀ pkt off dir, fw_classify pkt (maps_of w') off i dir = fw_classify pkt (maps_of w) off i dir ∧
    fw_classify6 pkt (maps_of w') off i dir = fw_classify6 pkt (maps_of w) off i dir.
Proof.
  intros Hb Hb' Hs pkt off dir. unfold fw_classify, fw_classify6. cbn [fw_bind maps_of fw_scope]. rewrite Hb, Hb'.
  destruct (Z.eqb_spec (bind_scope b dir) FW_SCOPE_NONE) as [|Hne]; [done|].
  rewrite Hs; [done| |done]. apply points_pos. unfold bind_scope. destruct (dir =? FW_DIR_EGRESS); auto.
Qed.

(** A replacement, successful or not, disturbs no one else: unless a cut walk
    stands, every interface whose binding it leaves has all its packets classified
    as before; the only binding it may change is the interface's own; and if it
    reports an error that binding is the old one, except that a failed epoch
    bump leaves the new one in force. *)
Theorem replace_isolated id m v4 v6 c c' r :
  inv c → fw_partial c = false → ifaces_meta c !! id = Some m → replace_interface_fw id v4 v6 c = (c', r) →
  (∀ i b, fw_binds c !! i = Some b → fw_binds c' !! i = Some b →
    ∀ pkt off dir, fw_classify pkt (maps_of (cw c')) off i dir = fw_classify pkt (maps_of (cw c)) off i dir ∧
      fw_classify6 pkt (maps_of (cw c')) off i dir = fw_classify6 pkt (maps_of (cw c)) off i dir) ∧
  (∀ i, i ≠ im_ifindex m → fw_binds c' !! i = fw_binds c !! i ∧ binds (cw c') !! i = binds (cw c) !! i) ∧
  (∀ e, r = inl e → binds (cw c') = binds (cw c) ∨
    ∃ ig eg, e = MapError ∧ compile_iface v4 v6 = inr (ig, eg) ∧
      binds (cw c') = <[im_ifindex m := mkBind (id_of ig) (id_of eg)]> (binds (cw c))).
Proof.
  intros Hi Hp Hm E. apply replace_effect in E; [|split; [done|congruence]]. rewrite (heal_whole c Hp) in E.
  destruct E as [[-> [e ->]]|(m' & ig & eg & Hm' & Hc & Hreb)]; [by split_and!; auto|]. simplify_eq. split_and!.
  - intros i b Hb Hb'.
    assert (Hin : ∀ d : ControlCore W, inv d → fw_binds d !! i = Some b → ∀ j, 0 < points b j → j ≠ FW_SCOPE_NONE → is_Some (fw_scope_refs d !! j)).
    { intros d Hd Hdb j Hj Hne. apply (counted_Some _ _ _ (inv_counted _ Hd)). eauto. }
    apply (classify_frame _ _ _ b); [by eapply lookup_weaken, Hi|by eapply lookup_weaken, Hreb|].
    intros j Hj Hne. apply Hreb; [by eapply (Hin c)|eapply (Hin c'); [apply Hreb|done..]].
  - intros i Hne. destruct (reb_cases _ _ _ _ _ _ Hreb) as [(_ & -> & ->)|(_ & -> & -> & _)]; [done|].
    by rewrite !lookup_insert_ne by congruence.
  - intros e ->. destruct (reb_cases _ _ _ _ _ _ Hreb) as [(_ & _ & Hw)|([[=]|[= ->]] & _ & Hw & _)]; [by left|right].
    by exists ig, eg.
Qed.

End packets.

(** ** Examples *)

Module Nodes.

#[local] Existing Instance canonical_order.

Definition meta (ifindex : Z) : IfaceMeta := mkIfaceMeta 0 [] [] [] ifindex.

(** Two interfaces are attached. *)
Definition attached : list FwOp := [Attach [1] (meta 7); Attach [2] (meta 8)].

Definition mem0 : mem.MemMapWriter := mem.mkMem ∅ ∅ 0 0 false 0 ∅.

Definition kernel0 : aya.KernelMaps := aya.mkKernel ∅ ∅ ∅ ∅ ∅ 0 0.

(** The system calls with these numbers fail. *)
Definition fails (l : list nat) : FwWriter aya.KernelMaps := aya.aya_FwWriter (fun n => bool_decide (n ∈ l)).

Definition run_kernel (l : list nat) (ops : list FwOp) : ControlCore aya.KernelMaps :=
  @fw_run _ _ (fails l) (new kernel0) ops.

(** What the segment the rules allow meets at an interface. *)
Definition verdict_at {W : Type} `{FwWriter W} (c : ControlCore W) (ifindex : Z) : Z :=
  @fw_classify sim_Lpm (Demo.tcp4 [10; 1; 2; 3] 81) (maps_of (cw c)) 0 ifindex FW_DIR_INGRESS.

Lemma new_inv {W : Type} `{FwWriter W} (w : W) : inv (new w).
Proof.
  split; cbn; [|apply map_empty_subseteq|by intros id; rewrite lookup_empty; intros [? [=]]].
  split; [by intros ??; rewrite lookup_empty|]. intros id. unfold cnt, uses. rewrite lookup_empty, map_fold_empty. by case_match.
Qed.

Lemma mem0_synced : synced (new mem0).
Proof. split; [|done]. intros i b id. cbn. by rewrite lookup_empty. Qed.

Lemma mem0_collected : collected (new mem0).
Proof. intros id. cbn. by rewrite lookup_empty. Qed.

Lemma attached_ready {W : Type} `{FwWriter W} (w : W) : ready (fw_run (new w) attached).
Proof. pose proof (new_inv w) as []. split; [by split|done]. Qed.

(** The demonstration rules have no egress scope. *)
Lemma demo_compiles : ∃ x, compile_iface Demo.v4 [] = inr (Some x, None).
Proof. destruct (compile_iface Demo.v4 []) as [|[[x|] [y|]]] eqn:E; vm_compute in E; try discriminate. eauto. Qed.

End Nodes.

Lemma fw_run_inv_witness :
  let _ := canonical_order in let fw := Nodes.fails [18%nat] in
  inv (fw_run (new Nodes.kernel0) (Nodes.attached ++ [Replace [1] Demo.v4 []; Replace [2] Demo.v4 []; Detach 7])).
Proof.
  intros ro fw. apply (fw_run_inv (L := ayafacts.aya_FwWriterLaws _)); [apply Nodes.new_inv|reflexivity|reflexivity].
Defined.

Lemma fw_run_synced_witness :
  let _ := canonical_order in
  let ops := Nodes.attached ++ [Replace [1] Demo.v4 []; Restart; Detach 7] in
  inv (fw_run (new Nodes.mem0) ops) ∧ synced (fw_run (new Nodes.mem0) ops).
Proof.
  intros ro ops. destruct (fw_run_synced (new Nodes.mem0) ops) as (? & ? & _); [apply Nodes.new_inv|apply Nodes.mem0_synced|done].
Defined.

Lemma replace_classifies_witness :
  let _ := canonical_order in let _ := sim_Lpm in
  let c := fw_run (new Nodes.mem0) Nodes.attached in
  match replace_interface_fw [1] Demo.v4 [] c with
  | (c', inr tt) => Nodes.verdict_at c' 7 = FW_ACTION_ACCEPT
  | _ => False
  end.
Proof.
  intros ro lp c. destruct (replace_interface_fw [1] Demo.v4 [] c) as [c' [e|[]]] eqn:E; [vm_compute in E; discriminate|].
  destruct Nodes.demo_compiles as [x Hx].
  destruct (replace_classifies [1] (Nodes.meta 7) Demo.v4 [] (Some x) None c c' FW_DIR_INGRESS (Demo.tcp4 [10; 1; 2; 3] 81) 0) as [H _];
    [apply Nodes.attached_ready|reflexivity|exact E|exact Hx| |apply Demo.v4_ok|constructor|cbn; unfold FW_RANK_MAX; lia|
     cbn; unfold FW_RANK_MAX; lia|by left|apply Demo.segment_ok|done|].
  - intros s Hs. split; [done|]. intros s' Hs' _. apply list_elem_of_singleton in Hs, Hs'. congruence.
  - destruct (selectors4 (Demo.tcp4 [10; 1; 2; 3] 81) 0) as [s|] eqn:Es; [|vm_compute in Es; discriminate].
    etrans; [exact (H s eq_refl)|]. vm_compute in Es. injection Es as <-. vm_compute. reflexivity.
Defined.

Lemma replace_isolated_witness :
  let _ := canonical_order in let _ := sim_Lpm in
  let c := fw_run (new Nodes.mem0) (Nodes.attached ++ [Replace [1] Demo.v4 []]) in
  match replace_interface_fw [2] [Demo.rule4 Demo.any4 Demo.any4 6 80 80 65535 FW_ACTION_ACCEPT] [] c with
  | (c', inr tt) => Nodes.verdict_at c' 7 = Nodes.verdict_at c 7
  | _ => False
  end.
Proof.
  intros ro lp c. pose (r2 := [Demo.rule4 Demo.any4 Demo.any4 6 80 80 65535 FW_ACTION_ACCEPT]). fold r2.
  destruct (replace_interface_fw [2] r2 [] c) as [c' [e|[]]] eqn:E; [vm_compute in E; discriminate|].
  assert (Hc : inv c ∧ fw_partial c = false).
  { destruct (Nodes.attached_ready Nodes.mem0) as [Hi _]. apply (step_whole _ (Replace [1] Demo.v4 []) eq_refl Hi). reflexivity. }
  destruct (replace_isolated [2] (Nodes.meta 8) r2 [] c c' (inr tt) (proj1 Hc) (proj2 Hc)) as (H & Hother & _); [vm_compute; reflexivity|exact E|].
  destruct (fw_binds c !! 7) as [b|] eqn:Eb; [|vm_compute in Eb; discriminate].
  apply (H 7 b Eb). destruct (Hother 7) as [-> _]; [done|exact Eb].
Defined.

(** ** Where an ignored error costs a binding its scope *)

(** The walk that rebuilds the bookkeeping after a restart is cut short, so the
    binding of interface 7 is not known.  A second interface is given the same
    rules, which are created again over the live scope; an insertion fails, and
    the roll-back of [FwScopes::create] removes the scope interface 7 uses: its
    packets, allowed before, are dropped.  [fw_discard_scopes] avoids exactly
    this removal while a cut walk stands; the roll-back does not. *)
Theorem cut_create_drops_live_scope :
  let _ := canonical_order in
  let before := Nodes.attached ++ [Replace [1] Demo.v4 []] in
  let faults := [20; 25; 44]%nat in
  @Nodes.verdict_at _ (Nodes.fails faults) (Nodes.run_kernel faults before) 7 = FW_ACTION_ACCEPT ∧
  @Nodes.verdict_at _ (Nodes.fails faults)
    (Nodes.run_kernel faults (before ++ [Restart] ++ Nodes.attached ++ [Replace [2] Demo.v4 []])) 7 = FW_ACTION_DROP.
Proof. vm_compute. done. Qed.

(** The removal of a detached interface's binding fails, and the error is ignored;
    its scope is deleted all the same.  After a restart the stale binding counts as
    a reference to the scope, so an interface given the same rules is bound to it
    without creating it: the replacement reports success, and every packet of the
    interface is dropped. *)
Theorem failed_unbind_drops_later_interface :
  let _ := canonical_order in
  let faults := [20%nat] in
  let c := Nodes.run_kernel faults (Nodes.attached ++ [Replace [1] Demo.v4 []; Detach 7; Restart] ++ Nodes.attached) in
  let r := @replace_interface_fw _ _ (Nodes.fails faults) [2] Demo.v4 [] c in
  r.2 = inr tt ∧ @Nodes.verdict_at _ (Nodes.fails faults) r.1 8 = FW_ACTION_DROP.
Proof. vm_compute. done. Qed.
