(* ===== verification/FwPath.v ===== *)
(** * From compiled rules to the datapath's rules

    The agent lowers the compiled firewall of a NIC into the rules of a
    [ReplaceInterfaceFirewall] request ([mesh/agent/fwreconcile.go] and the adapter
    of [bus.go]); the node service parses each rule and replaces the interface's
    firewall ([flowplane/src/handlers.rs], [parse.rs], [error.rs]).  The request
    itself is a protobuf message: its fields arrive as they were set. *)

From stdpp Require Import pretty.
From S2P Require Import Prelude Net Firewall FwClass FwControl.
Import netip.

Open Scope Z_scope.

(** ** The agent *)

Module fwreconcile.

(** [agent.FwRule], and the message [FwRuleSpec]. *)
Record FwRule := mkAgentRule {
  SrcCIDR : string;
  DstCIDR : string;
  g_Proto : Z;
  DstPortMin : Z;
  DstPortMax : Z;
  IcmpType : option Z;
  IcmpCode : option Z;
  Allow : bool;
  g_Egress : bool
}.

Record FwRuleWithID := mkWithID { ID : string; Rule : FwRule }.

Record FwRuleSpec := mkSpec {
  rule_id : string;
  src_cidr : string;
  dst_cidr : string;
  sp_proto : Z;
  sp_dst_port_min : Z;
  sp_dst_port_max : Z;
  sp_icmp_type : option Z;
  sp_icmp_code : option Z;
  allow : bool;
  egress : bool
}.

Record ReplaceInterfaceFirewallRequest := mkRequest { interface_id : string; rules : list FwRuleSpec }.

Definition u32ptr (p : option Z) : option Z := u32 <$> p.

Definition protoNum (s : string) (v6 : bool) : Z :=
  if decide (s ∈ ["TCP"; "tcp"]) then 6
  else if decide (s ∈ ["UDP"; "udp"]) then 17
  else if decide (s ∈ ["ICMP"; "icmp"]) then (if v6 then 58 else 1)
  else 0.

(** [strings.Contains(s, ":")]. *)
Definition contains_colon (s : string) : bool := bool_decide (":"%char ∈ chars s).

Definition compiledToFw (cr : CompiledFwRule) (eg : bool) : FwRule :=
  let hi := if cr_Port cr <? cr_EndPort cr then cr_EndPort cr else cr_Port cr in
  mkAgentRule (if eg then "" else cr_CIDR cr) (if eg then cr_CIDR cr else "")
    (protoNum (cr_Proto cr) (contains_colon (cr_CIDR cr))) (u32 (cr_Port cr)) (u32 hi)
    (u32ptr (cr_ICMPType cr)) (u32ptr (cr_ICMPCode cr)) (bool_decide (cr_Action cr = "Allow")) eg.

(** The rules of one CompiledNIC: the ingress ones, then the egress ones. *)
Definition rules_of (fw : CompiledFirewall) : list FwRuleWithID :=
  imap (fun idx cr => mkWithID ("fw-in-" +:+ pretty idx) (compiledToFw cr false)) (cf_Ingress fw) ++
  imap (fun idx cr => mkWithID ("fw-eg-" +:+ pretty idx) (compiledToFw cr true)) (cf_Egress fw).

(** [dpAdapter.ReplaceInterfaceFirewall]: the request it sends. *)
Definition to_spec (rr : FwRuleWithID) : FwRuleSpec :=
  let r := Rule rr in
  mkSpec (ID rr) (SrcCIDR r) (DstCIDR r) (g_Proto r) (DstPortMin r) (DstPortMax r) (IcmpType r) (IcmpCode r) (Allow r) (g_Egress r).

Definition request (interfaceID : string) (rules : list FwRuleWithID) : ReplaceInterfaceFirewallRequest :=
  mkRequest interfaceID (to_spec <$> rules).

End fwreconcile.

(** ** The node service *)

Module handlers.
Import fwreconcile.

(** [ServiceError]; the texts of the errors are left out. *)
Inductive ServiceError := Conflict | NotFound | InvalidArg | Exhausted | Internal.

(** [From<FwError> for ServiceError]. *)
Definition of_FwError (e : fwclass.FwError) : ServiceError :=
  match e with
  | fwclass.UnknownInterface => NotFound
  | fwclass.ScopeTooLarge _ _ _ => Exhausted
  | fwclass.Unsupported _ => InvalidArg
  | fwclass.MapError => Internal
  end.

Inductive FwCidr :=
| V4 (ip mask : list Z)
| V6 (ip mask : list Z).

(** The big-endian octets of an [n]-byte integer. *)
Definition be_bytes (n : nat) (v : Z) : list Z :=
  (fun i : nat => fwclass.u8 (Z.shiftr v (8 * (Z.of_nat n - 1 - Z.of_nat i)))) <$> seq 0 n.

(** [u32::from_str], which allows one leading plus sign. *)
Definition parse_u32 (l : list ascii) : option Z :=
  v ← decimal (match l with "+"%char :: l => l | _ => l end);
  if v <? 2 ^ 32 then Some v else None.

(** [MAX << (w - len)] of a [w]-bit integer, zero for an empty prefix. *)
Definition net_mask (w len : Z) : Z :=
  if len =? 0 then 0 else Z.land (Z.shiftl (2 ^ w - 1) (w - len)) (2 ^ w - 1).

(** [parse_fw_cidr]; an IPv4 address is tried before an IPv6 one. *)
Definition parse_fw_cidr (cidr : string) : option FwCidr :=
  if decide (cidr = "") then Some (V4 (replicate 4 0) (replicate 4 0))
  else
    let '(addr, len_str) := match cut "/"%char (chars cidr) with
                            | Some (a, l) => (a, Some l)
                            | None => (chars cidr, None)
                            end in
    let len_or d := match len_str with Some l => parse_u32 l | None => Some d end in
    match parseIPv4 addr with
    | Some v =>
        len ← len_or 32;
        if 32 <? len then None else Some (V4 (be_bytes 4 v) (be_bytes 4 (net_mask 32 len)))
    | None =>
        gs ← parse6_groups addr;
        len ← len_or 128;
        if 128 <? len then None else Some (V6 (be_bytes 16 (of_groups gs)) (be_bytes 16 (net_mask 128 len)))
    end.

Definition port_u16 (p : Z) : option Z := if p <? 65536 then Some p else None.

Definition octet (v : Z) : option Z := if v <? 256 then Some v else None.

Definition parse_icmp_selectors (spec : FwRuleSpec) : option (Z * Z) :=
  if bool_decide (sp_icmp_type spec = None) && bool_decide (sp_icmp_code spec = None) then Some (65535, 65535)
  else if negb (sp_proto spec =? 1) && negb (sp_proto spec =? 58) then None
  else match sp_icmp_type spec, sp_icmp_code spec with
       | Some t, code =>
           t ← octet t;
           c ← match code with Some c => octet c | None => Some 65535 end;
           Some (t, c)
       | None, _ => None
       end.

Inductive ParsedFwRule :=
| PV4 (r : fwclass.FwRule)
| PV6 (r : fwclass.FwRule).

Definition is_v6 (c : FwCidr) : bool := match c with V6 _ _ => true | V4 _ _ => false end.

(** The address and mask of a side of an IPv6 rule: an IPv4 side is the wildcard. *)
Definition side6 (c : FwCidr) : list Z * list Z :=
  match c with V6 i m => (i, m) | V4 _ _ => (replicate 16 0, replicate 16 0) end.

Definition side4 (c : FwCidr) : list Z * list Z := match c with V4 i m => (i, m) | V6 i m => (i, m) end.

(** Every refusal is [ServiceError::Invalid]. *)
Definition parse_fw_rule (spec : FwRuleSpec) : option ParsedFwRule :=
  src ← parse_fw_cidr (src_cidr spec);
  dst ← parse_fw_cidr (dst_cidr spec);
  proto ← octet (sp_proto spec);
  lo ← port_u16 (sp_dst_port_min spec);
  hi ← (if sp_dst_port_max spec =? 0 then Some 65535 else port_u16 (sp_dst_port_max spec));
  if hi <? lo then None
  else
    '(t, c) ← parse_icmp_selectors spec;
    let action := if allow spec then fwclass.FW_ACTION_ACCEPT else fwclass.FW_ACTION_DROP in
    let dir := if egress spec then fwclass.FW_DIR_EGRESS else fwclass.FW_DIR_INGRESS in
    if negb (bool_decide (src_cidr spec = "")) && negb (bool_decide (dst_cidr spec = "")) &&
       negb (Bool.eqb (is_v6 src) (is_v6 dst))
    then None
    else
      let rule f := fwclass.mkFwRule (f src).1 (f src).2 (f dst).1 (f dst).2 0 65535 lo hi t c proto action dir 1 in
      Some (if is_v6 src || is_v6 dst then PV6 (rule side6) else PV4 (rule side4)).

(** The loop of [replace_interface_firewall]: the rules of each family, in order. *)
Fixpoint parse_rules (l : list FwRuleSpec) : option (list fwclass.FwRule * list fwclass.FwRule) :=
  match l with
  | [] => Some ([], [])
  | spec :: l =>
      p ← parse_fw_rule spec;
      '(v4, v6) ← parse_rules l;
      Some (match p with PV4 r => (r :: v4, v6) | PV6 r => (v4, r :: v6) end)
  end.

(** [String::into_bytes]. *)
Definition into_bytes (s : string) : list Z := (fun c => Z.of_N (N_of_ascii c)) <$> chars s.

Definition replace_interface_firewall {ro : RangeOrder} {W : Type} `{FwWriter W}
    (req : ReplaceInterfaceFirewallRequest) (c : ControlCore W) : ControlCore W * (ServiceError + unit) :=
  match parse_rules (rules req) with
  | None => (c, inl InvalidArg)
  | Some (v4, v6) =>
      match fwcontrol.replace_interface_fw (into_bytes (interface_id req)) v4 v6 c with
      | (c, inr tt) => (c, inr tt)
      | (c, inl e) => (c, inl (of_FwError e))
      end
  end.

End handlers.
