(* ===== verification/FwPathFacts.v ===== *)
(** * Texts and octets of addresses

    The two readers of a prefix, Go's in the compiler and Rust's in the node
    service, agree on every prefix the first accepts; and comparing the octets of
    addresses under a mask is comparing the top bits of their values. *)

From S2P Require Import Prelude Net FwClass FwClassFacts FwClassTheorems FwPath.
Import netip.

Open Scope Z_scope.

(** ** Texts of addresses and prefixes *)

Lemma cut_Some c l a b : cut c l = Some (a, b) ↔ l = a ++ c :: b ∧ c ∉ a.
Proof.
  revert a b. induction l as [|x l IH]; intros a b; cbn.
  - split; [done|]. intros [Hl _]. by destruct a.
  - destruct (decide (x = c)) as [->|Hx].
    + split; [by intros [= <- <-]; split; [done|set_solver]|]. intros [Hl Hc]. destruct a as [|y a]; cbn in Hl; simplify_eq; [done|set_solver].
    + destruct (cut c l) as [[a' b']|] eqn:E; cbn.
      * split.
        -- intros [= <- <-]. destruct (proj1 (IH a' b') eq_refl) as [-> ?]. split; [done|set_solver].
        -- intros [Hl Hc]. destruct a as [|y a]; cbn in Hl; simplify_eq. assert (Hab : Some (a', b') = Some (a, b)) by (apply IH; set_solver).
           by simplify_eq.
      * split; [done|]. intros [Hl Hc]. destruct a as [|y a]; cbn in Hl; simplify_eq. assert (Hab : None = Some (a, b)) by (apply IH; set_solver). done.
Qed.

Lemma cut_last_Some c l a b : cut_last c l = Some (a, b) → l = a ++ c :: b.
Proof.
  unfold cut_last. intros ([x y] & [Hl _]%cut_Some & [= <- <-])%bind_Some. apply (f_equal (@rev _)) in Hl.
  rewrite rev_involutive, rev_app_distr in Hl. cbn in Hl. by rewrite <-app_assoc in Hl.
Qed.

Lemma digits_only acc l v c : digits_val acc l = Some v → c ∈ l → is_Some (digit_val c).
Proof.
  revert acc. induction l as [|x l IH]; intros acc; [set_solver|]. cbn. intros (d & Hd & Hv)%bind_Some [->|Hc]%elem_of_cons; [eauto|by eapply IH].
Qed.

Lemma digits_nonneg acc l v : 0 ≤ acc → digits_val acc l = Some v → 0 ≤ v.
Proof.
  revert acc. induction l as [|x l IH]; intros acc Ha; cbn; [by intros [= <-]|]. intros (d & Hd & Hv)%bind_Some.
  apply IH in Hv; [done|]. unfold digit_val in Hd. destruct (_ && _) eqn:E; [|done]. injection Hd as <-. lia.
Qed.

Lemma decimal_strict_spec l v : decimal_strict l = Some v → decimal l = Some v ∧ 0 ≤ v ∧ ∀ c, c ∈ l → is_Some (digit_val c).
Proof.
  intros H. assert (Hd : decimal l = Some v).
  { unfold decimal_strict in H. repeat (case_match; try done). }
  split; [done|]. unfold decimal in Hd. destruct l; [done|]. split; [by eapply digits_nonneg in Hd|]. intros c. by eapply digits_only.
Qed.

Lemma octet_spec l v : netip.octet l = Some v → 0 ≤ v < 256 ∧ ∀ c, c ∈ l → is_Some (digit_val c).
Proof.
  unfold netip.octet. intros (x & (_ & Hx & Hd)%decimal_strict_spec & H)%bind_Some. destruct (Z.leb_spec x 255); [|done].
  injection H as <-. split; [lia|done].
Qed.

Lemma fields_elem sep cur l c : c ∈ l → c = sep ∨ ∃ f, f ∈ fields sep cur l ∧ c ∈ f.
Proof.
  revert cur. assert (Hcur : ∀ l cur c, c ∈ cur → ∃ f, f ∈ fields sep cur l ∧ c ∈ f).
  { clear. induction l as [|x l IH]; intros cur c Hc; cbn.
    - exists (rev cur). split; [set_solver|]. by apply list_elem_of_In, (proj1 (in_rev _ _)), list_elem_of_In.
    - destruct (decide (x = sep)); [|apply IH; set_solver]. exists (rev cur). split; [set_solver|]. by apply list_elem_of_In, (proj1 (in_rev _ _)), list_elem_of_In. }
  induction l as [|x l IH]; intros cur; [set_solver|]. cbn. intros [->|Hc]%elem_of_cons.
  - destruct (decide (x = sep)); [by left|right]. apply Hcur. set_solver.
  - destruct (decide (x = sep)); [destruct (IH [] Hc) as [|(f & ? & ?)]; [by left|right; exists f; set_solver]|by apply IH].
Qed.

(** A character that is not a digit, a hexadecimal digit, a dot or a colon. *)
Lemma parseIPv4_spec l v : parseIPv4 l = Some v → 0 ≤ v < 2 ^ 32 ∧ ∀ c, c ∈ l → c = "."%char ∨ is_Some (digit_val c).
Proof.
  unfold parseIPv4. destruct (fields "."%char [] l) as [|a [|b [|c [|d [|]]]]] eqn:E; try done.
  intros (va & [Ha Ca]%octet_spec & (vb & [Hb Cb]%octet_spec & (vc & [Hc Cc]%octet_spec & (vd & [Hd Cd]%octet_spec & [= <-])%bind_Some)%bind_Some)%bind_Some)%bind_Some.
  split; [lia|]. intros x Hx. destruct (fields_elem "."%char [] l x Hx) as [|(f & Hf & Hxf)]; [by left|right]. rewrite E in Hf. set_solver.
Qed.

Lemma span_hex_spec s vs rest :
  span_hex s = (vs, rest) → ∃ h, s = h ++ rest ∧ (∀ c, c ∈ h → is_Some (hex_val c)) ∧ Forall (fun v => 0 ≤ v < 16) vs.
Proof.
  revert vs rest. induction s as [|c s IH]; intros vs rest; cbn; [by intros [= <- <-]; exists []; set_solver|].
  destruct (hex_val c) as [v|] eqn:E; [|by intros [= <- <-]; exists []; set_solver].
  destruct (span_hex s) as [vs' r]. intros [= <- <-]. destruct (IH _ _ eq_refl) as (h & -> & Hh & Hv). exists (c :: h).
  split_and!; [done|intros x [->|Hx]%elem_of_cons; [eauto|by apply Hh]|]. apply Forall_cons. split; [|done].
  unfold hex_val in E. repeat case_match; simplify_eq; lia.
Qed.

Lemma group_val_range vs : Forall (fun v => 0 ≤ v < 16) vs → (length vs ≤ 4)%nat → 0 ≤ group_val vs < 65536.
Proof.
  intros Hv Hl. unfold group_val. destruct vs as [|a [|b [|c [|d [|]]]]]; cbn in *; try lia; rewrite ?Forall_cons in Hv; lia.
Qed.

Definition group_ok (g : Z) : Prop := 0 ≤ g < 65536.

(** Reading to the end means every character was a hexadecimal digit, a colon or
    part of a dotted quad, and every group fits. *)
Lemma parse6_loop_spec fuel s gs ell gs' ell' :
  parse6_loop fuel s gs ell = Some (gs', ell', []) → Forall group_ok gs →
  Forall group_ok gs' ∧ ∀ c, c ∈ s → c = ":"%char ∨ c = "."%char ∨ is_Some (hex_val c).
Proof.
  revert s gs ell. induction fuel as [|fuel IH]; intros s gs ell; cbn; [by intros [= <- _ ->] ?; split; [done|set_solver]|].
  destruct (span_hex s) as [vs rest] eqn:Es. destruct (span_hex_spec _ _ _ Es) as (h & -> & Hh & Hv).
  destruct (decide _) as [|Hlen]; [done|]. assert (Hg : group_ok (group_val vs)) by (apply group_val_range; [done|lia]).
  assert (Hmore : ∀ k, Forall group_ok k → Forall group_ok (k ++ [group_val vs])) by (intros k Hk; apply Forall_app; split; [done|by apply Forall_singleton]).
  intros H Hgs. destruct rest as [|r rest].
  { injection H as <- <-. split; [by apply Hmore|]. rewrite app_nil_r. auto. }
  destruct (decide (r = "."%char)) as [->|Hdot].
  { destruct (decide _); [done|]. destruct (decide _); [done|]. apply bind_Some in H as (v & [Hr Hc]%parseIPv4_spec & [= <- <-]).
    split.
    - apply Forall_app. split; [done|]. rewrite !Forall_cons, Forall_nil. unfold group_ok. rewrite Z.shiftr_div_pow2 by lia.
      change 65535 with (Z.ones 16). rewrite Z.land_ones by lia. split; [|split; [apply Z.mod_pos_bound; lia|done]].
      split; [apply Z.div_pos; lia|apply Z.div_lt_upper_bound; lia].
    - intros c Hc'%Hc. destruct Hc' as [|[d Hd]]; [by auto|right; right]. unfold digit_val in Hd. unfold hex_val. case_match; [eauto|done]. }
  destruct (decide (r = ":"%char)) as [->|Hcol].
  2:{ exfalso. revert H. repeat (case_match; try done; try congruence). }
  destruct rest as [|x rest]; [done|]. destruct (decide (x = ":"%char)) as [->|Hx].
  - destruct (decide (ell ≠ None)); [done|]. destruct rest as [|y rest].
    + injection H as <- <-. split; [by apply Hmore|]. set_solver.
    + apply IH in H as [? Hc]; [|by apply Hmore]. split; [done|]. set_solver.
  - assert (H' : parse6_loop fuel (x :: rest) (gs ++ [group_val vs]) ell = Some (gs', ell', [])).
    { revert H. repeat (case_match; try done; try congruence). }
    apply IH in H' as [? Hc]; [|by apply Hmore]. split; [done|]. set_solver.
Qed.

Lemma parse6_groups_spec s gs :
  parse6_groups s = Some gs →
  length gs = 8%nat ∧ Forall group_ok gs ∧ ∀ c, c ∈ s → c = ":"%char ∨ c = "."%char ∨ is_Some (hex_val c).
Proof.
  assert (Hfin : ∀ s ell, finish_groups (parse6_loop 8 s [] ell) = Some gs →
    length gs = 8%nat ∧ Forall group_ok gs ∧ ∀ c, c ∈ s → c = ":"%char ∨ c = "."%char ∨ is_Some (hex_val c)).
  { clear s. intros s ell. unfold finish_groups. intros ([[gs' ell'] rest] & E & H)%bind_Some. destruct rest; [|done].
    apply parse6_loop_spec in E as [Hg Hc]; [|constructor]. destruct ell' as [e|]; destruct (decide _) as [Hl|Hl]; try done; injection H as <-.
    - split_and!; [|apply Forall_app; split; [by apply Forall_take|apply Forall_app; split; [apply Forall_replicate; unfold group_ok; lia|by apply Forall_drop]]|done].
      pose proof (f_equal length (take_drop e gs')) as Ht. rewrite length_app in Ht. rewrite !length_app, length_replicate. lia.
    - done. }
  unfold parse6_groups. destruct s as [|c s]; [apply Hfin|]. destruct (decide (c = ":"%char)) as [->|Hc].
  - destruct s as [|x s]; [apply Hfin|]. destruct (decide (x = ":"%char)) as [->|Hx].
    + destruct s as [|y s].
      * intros [= <-]. clear Hfin. split; [done|]. split; [by rewrite !Forall_cons, Forall_nil|]. intros c Hc. left. set_solver.
      * intros H. apply Hfin in H as (? & ? & Hc). split_and!; [done|done|].
        clear Hfin. intros c [->|[->|Hin]%elem_of_cons]%elem_of_cons; [by left|by left|by apply Hc].
    + intros H. apply (Hfin _ None). revert H. repeat (case_match; try done; try congruence).
  - intros H. apply (Hfin _ None). revert H. repeat (case_match; try done; try congruence).
Qed.

Lemma of_groups_range gs : length gs = 8%nat → Forall group_ok gs → 0 ≤ of_groups gs < 2 ^ 128.
Proof.
  unfold group_ok. intros Hl Hg. destruct gs as [|a [|b [|c [|d [|e [|f [|g [|h [|]]]]]]]]]; try done. rewrite !Forall_cons in Hg.
  unfold of_groups. cbn [foldl]. lia.
Qed.

Lemma addr_family_colon l : addr_family l = Some false → ":"%char ∈ l.
Proof.
  induction l as [|c l IH]; [done|]. destruct (decide (c = ":"%char)) as [->|Hc]; [set_solver|].
  intros H. right. apply IH. revert H. cbn. repeat (case_match; try done; try congruence).
Qed.

(** What the text of an address without a zone is. *)
Lemma ParseAddr_spec l ip :
  ParseAddr (string_of_list_ascii l) = Some ip → Zone ip = "" →
  (("/"%char : ascii) ∉ l) ∧ 0 ≤ bits_of ip < 2 ^ BitLen ip ∧ (":"%char ∈ l ↔ Is4 ip = false) ∧
  match ip with
  | Addr4 v => parseIPv4 l = Some v
  | Addr6 v _ => parseIPv4 l = None ∧ ∃ gs, parse6_groups l = Some gs ∧ v = of_groups gs
  end.
Proof.
  unfold ParseAddr, chars. rewrite list_ascii_of_string_of_list_ascii. destruct (addr_family l) as [[]|] eqn:Ef; [| |done].
  - intros (v & E & ->)%fmap_Some Hz. destruct (parseIPv4_spec _ _ E) as [Hr Hc]. split_and!; try done; try apply Hr.
    + by intros [|[? ?]]%Hc.
    + split; [by intros [|[? ?]]%Hc|done].
  - apply addr_family_colon in Ef. intros H Hz.
    assert (Hgs : ∃ gs, ip = Addr6 (of_groups gs) "" ∧ parse6_groups l = Some gs).
    { unfold parseIPv6 in H. destruct (cut "%"%char l) as [[s z]|]; [destruct z as [|z0 z]; [done|]|];
        apply bind_Some in H as (gs & Hg & [= <-]); [|eauto]. done. }
    destruct Hgs as (gs & -> & Hg). destruct (parse6_groups_spec _ _ Hg) as (Hl & Hok & Hc). split_and!.
    + by intros [|[|[? ?]]]%Hc.
    + by apply of_groups_range.
    + by apply of_groups_range.
    + done.
    + destruct (parseIPv4 l) as [v|] eqn:E; [|done]. apply parseIPv4_spec in E as [_ Hd]. by destruct (Hd _ Ef) as [|[? ?]].
    + eauto.
Qed.

(** The text of a prefix. *)
Record prefix_text (s : string) (p : Prefix) : Prop := {
  pt_value : 0 ≤ bits_of (p_addr p) < 2 ^ BitLen (p_addr p);
  pt_bits : 0 ≤ p_bits p ≤ BitLen (p_addr p);
  pt_nonempty : s ≠ "";
  pt_colon : fwreconcile.contains_colon s = Is6 (p_addr p);
  pt_cidr : handlers.parse_fw_cidr s = Some (
    if Is4 (p_addr p)
    then handlers.V4 (handlers.be_bytes 4 (bits_of (p_addr p))) (handlers.be_bytes 4 (handlers.net_mask 32 (p_bits p)))
    else handlers.V6 (handlers.be_bytes 16 (bits_of (p_addr p))) (handlers.be_bytes 16 (handlers.net_mask 128 (p_bits p))))
}.

(** The node service reads every prefix the compiler accepts, as the same prefix. *)
Lemma ParsePrefix_text s p : ParsePrefix s = Some p → prefix_text s p.
Proof.
  unfold ParsePrefix. intros ([a b] & Hs%cut_last_Some & (ip & Hip & H)%bind_Some)%bind_Some.
  destruct (decide (Zone ip ≠ "")) as [|Hz]; [done|]. apply dec_stable in Hz.
  apply bind_Some in H as (bits & Hb & H). destruct (Z.leb_spec bits (BitLen ip)) as [Hle|]; [|done]. injection H as <-.
  destruct (ParseAddr_spec _ _ Hip Hz) as (Hslash & Hr & Hcol & Hv). destruct (decimal_strict_spec _ _ Hb) as (Hdec & H0 & Hdig).
  assert (Hcut : cut "/"%char (chars s) = Some (a, b)) by (by apply cut_Some).
  assert (Hne : s ≠ "") by (intros ->; by destruct a).
  assert (Hlen : handlers.parse_u32 b = Some bits).
  { unfold handlers.parse_u32. assert (Hplus : match b with "+"%char :: l => l | _ => b end = b).
    { destruct b as [|x b]; [done|]. destruct (decide (x = "+"%char)) as [->|]; [by destruct (Hdig "+"%char) as [? ?]; [set_solver|]|].
      repeat (case_match; try done; try congruence). }
    rewrite Hplus, Hdec. cbn. unfold BitLen in Hle. destruct (Z.ltb_spec bits (2 ^ 32)); [done|]. destruct (Is4 ip); lia. }
  split; cbn [p_addr p_bits]; try done.
  - unfold fwreconcile.contains_colon, Is6. rewrite Hs. destruct (Is4 ip) eqn:E4; cbn.
    + apply bool_decide_eq_false. intros [Hin|[Hin|Hin]%elem_of_cons]%elem_of_app; [by apply Hcol in Hin|done|].
      by destruct (Hdig _ Hin) as [? ?].
    + apply bool_decide_eq_true. apply elem_of_app. left. by apply Hcol.
  - unfold handlers.parse_fw_cidr. rewrite decide_False by done. rewrite Hcut. cbv iota beta. destruct ip as [v|v z]; cbn [Is4 bits_of].
    + rewrite Hv, Hlen. cbn. cbn in Hle. by destruct (Z.ltb_spec 32 bits); [lia|].
    + destruct Hv as [-> (gs & -> & ->)]. cbn. rewrite Hlen. cbn. cbn in Hle. by destruct (Z.ltb_spec 128 bits); [lia|].
Qed.

(** ** Octets *)

Section octets.
Import fwclass handlers.

(** The value of octets in network order. *)
Definition of_bytes (l : list Z) : Z := foldl (fun acc b => acc * 256 + b) 0 l.

Lemma of_bytes_app l b : of_bytes (l ++ [b]) = of_bytes l * 256 + b.
Proof. unfold of_bytes. by rewrite foldl_app. Qed.

Lemma push_bit x b k : 0 ≤ b < 256 → 0 ≤ k → Z.testbit (x * 256 + b) k = if k <? 8 then Z.testbit b k else Z.testbit x (k - 8).
Proof.
  intros Hb Hk. destruct (Z.ltb_spec k 8).
  - rewrite <-(Z.mod_pow2_bits_low (x * 256 + b) 8) by lia. change (2 ^ 8) with 256.
    by rewrite Z.add_comm, Z.mod_add, Z.mod_small by lia.
  - replace k with (k - 8 + 8) at 1 by lia. rewrite <-Z.shiftr_spec by lia. rewrite Z.shiftr_div_pow2 by lia. change (2 ^ 8) with 256.
    rewrite Z.div_add_l, Z.div_small by lia. by rewrite Z.add_0_r.
Qed.

Lemma of_bytes_range l : bytes_ok l → 0 ≤ of_bytes l < 2 ^ (8 * Z.of_nat (length l)).
Proof.
  induction l as [|b l IH] using rev_ind; [done|]. intros [Hl Hb]%Forall_app. apply (proj1 (Forall_singleton _ _)) in Hb. cbn beta in Hb.
  rewrite of_bytes_app, length_app. cbn [length]. specialize (IH Hl).
  replace (8 * Z.of_nat (length l + 1)) with (8 * Z.of_nat (length l) + 8) by lia. rewrite Z.pow_add_r by lia. change (2 ^ 8) with 256. lia.
Qed.

(** The bit of an octet, by its place in the value. *)
Lemma bit_split i : 0 ≤ i → i = 8 * (i / 8) + i mod 8 ∧ 0 ≤ i / 8 ∧ 0 ≤ i mod 8 < 8.
Proof. intros Hi. pose proof (Z.div_mod i 8). pose proof (Z.mod_pos_bound i 8). pose proof (Z.div_pos i 8). lia. Qed.

Lemma of_bytes_bit l i : bytes_ok l → 0 ≤ i < 8 * Z.of_nat (length l) → bit l i = Z.testbit (of_bytes l) (8 * Z.of_nat (length l) - 1 - i).
Proof.
  revert i. induction l as [|b l IH] using rev_ind; intros i; [cbn; lia|]. intros [Hl Hb]%Forall_app Hi. apply (proj1 (Forall_singleton _ _)) in Hb. cbn beta in Hb.
  rewrite of_bytes_app. rewrite length_app in *. cbn [length] in *. rewrite push_bit by lia.
  destruct (bit_split i) as (Hs & Hq & Hr); [lia|]. unfold bit in *. rewrite list_lookup_total_alt.
  destruct (Z.ltb_spec (8 * Z.of_nat (length l + 1) - 1 - i) 8).
  - rewrite lookup_app_r by lia. replace (Z.to_nat (i / 8) - length l)%nat with 0%nat by lia. cbn. f_equal. lia.
  - rewrite lookup_app_l, <-list_lookup_total_alt by lia. rewrite IH by (done || lia). f_equal. lia.
Qed.

Lemma be_bytes_length n v : length (be_bytes n v) = n.
Proof. unfold be_bytes. by rewrite length_fmap, length_seq. Qed.

Lemma be_bytes_lookup n v (i : nat) : (i < n)%nat → be_bytes n v !!! i = u8 (Z.shiftr v (8 * (Z.of_nat n - 1 - Z.of_nat i))).
Proof. intros Hi. unfold be_bytes. rewrite list_lookup_total_alt, list_lookup_fmap, lookup_seq_lt by done. done. Qed.

Lemma be_bytes_ok n v : bytes_ok (be_bytes n v).
Proof. apply Forall_fmap, Forall_forall. intros i _. apply u8_range. Qed.

Lemma u8_bit x j : 0 ≤ j < 8 → Z.testbit (u8 x) j = Z.testbit x j.
Proof. intros Hj. unfold u8. change 256 with (2 ^ 8). by rewrite Z.mod_pow2_bits_low by lia. Qed.

Lemma be_bytes_bit n v i : 0 ≤ i < 8 * Z.of_nat n → bit (be_bytes n v) i = Z.testbit v (8 * Z.of_nat n - 1 - i).
Proof.
  intros Hi. destruct (bit_split i) as (Hs & Hq & Hr); [lia|]. unfold bit. rewrite be_bytes_lookup by lia.
  rewrite u8_bit, Z.shiftr_spec by lia. f_equal. lia.
Qed.

(** The octets of a network mask are those the classifier expects. *)
Lemma net_mask_bit w len k : 0 ≤ len ≤ w → 0 ≤ k → Z.testbit (net_mask w len) k = (w - len <=? k) && (k <? w).
Proof.
  intros Hl Hk. unfold net_mask. destruct (Z.eqb_spec len 0) as [->|Hne].
  - rewrite Z.bits_0. lia.
  - replace (2 ^ w - 1) with (Z.ones w) by (rewrite Z.ones_equiv; lia). rewrite Z.land_spec, Z.shiftl_spec by lia.
    destruct (Z.leb_spec (w - len) k); [|rewrite Z.testbit_neg_r by lia; done]. cbn. rewrite !Z.testbit_ones by lia. lia.
Qed.

Lemma net_mask_byte n len (i : nat) :
  0 ≤ len ≤ 8 * Z.of_nat n → (i < n)%nat → be_bytes n (net_mask (8 * Z.of_nat n) len) !!! i = byte_mask (byte_bits len (Z.of_nat i)).
Proof.
  intros Hl Hi. pose proof (byte_bits_range len (Z.of_nat i)) as Hb. rewrite be_bytes_lookup, byte_mask_eq by done.
  apply byte_eq; [apply u8_range|apply mask_range|]. intros j Hj.
  rewrite u8_bit, Z.shiftr_spec, net_mask_bit, mask_bit by lia. unfold byte_bits. lia.
Qed.

(** Comparing under the mask of a prefix is agreeing on its bits, ... *)
Lemma masked_eq_net n a b len :
  length a = n → length b = n → 0 ≤ len ≤ 8 * Z.of_nat n →
  masked_eq a b (be_bytes n (net_mask (8 * Z.of_nat n) len)) = true ↔ agree len a b.
Proof.
  intros Ha Hb Hl. rewrite masked_eq_spec by (by rewrite be_bytes_length). rewrite (agree_bytes n), be_bytes_length by done.
  split; intros H i Hi; specialize (H i Hi); pose proof (byte_bits_range len (Z.of_nat i)) as Hr;
    rewrite net_mask_byte, byte_mask_eq in * by done; by apply (and_mask_eq _ _ _ Hr).
Qed.

Lemma high_bits w v k : 0 ≤ v < 2 ^ w → 0 ≤ w ≤ k → Z.testbit v k = false.
Proof.
  intros Hv Hk. destruct (decide (v = 0)) as [->|]; [apply Z.bits_0|]. apply Z.bits_above_log2; [lia|].
  assert (Z.log2 v < w) by (apply Z.log2_lt_pow2; lia). lia.
Qed.

(** ... and that is agreeing on the top bits of the values. *)
Lemma agree_same_top n peer v len :
  bytes_ok peer → length peer = n → 0 ≤ v < 2 ^ (8 * Z.of_nat n) → 0 ≤ len ≤ 8 * Z.of_nat n →
  agree len peer (be_bytes n v) ↔ same_top (8 * Z.of_nat n) len v (of_bytes peer) = true.
Proof.
  intros Hp Hn Hv Hl. unfold same_top. rewrite Z.eqb_eq. pose proof (of_bytes_range peer Hp) as Hr. rewrite Hn in Hr. split.
  - intros H. apply Z.bits_inj'. intros k Hk. rewrite !Z.shiftr_spec by lia. set (j := k + _).
    destruct (Z.ltb_spec j (8 * Z.of_nat n)) as [Hj|Hj]; [|rewrite !(high_bits (8 * Z.of_nat n)) by (done || lia); done].
    specialize (H (8 * Z.of_nat n - 1 - j)). rewrite of_bytes_bit, be_bytes_bit, Hn in H by (done || lia).
    replace (8 * Z.of_nat n - 1 - (8 * Z.of_nat n - 1 - j)) with j in H by lia. symmetry. apply H. lia.
  - intros H i Hi. rewrite of_bytes_bit, be_bytes_bit, Hn by (done || lia).
    replace (8 * Z.of_nat n - 1 - i) with (8 * Z.of_nat n - 1 - i - (8 * Z.of_nat n - len) + (8 * Z.of_nat n - len)) by lia.
    rewrite <-!Z.shiftr_spec by lia. by rewrite H.
Qed.

End octets.
