(* ===== verification/FwPathTheorems.v ===== *)
(** * From policies to packets

    Every rule the compiler emits is accepted by the node service and means the
    same there, so the verdict packets meet at an interface is the one its
    firewall policies prescribe. *)

From S2P Require Import Prelude Net Firewall FirewallTheorems FwClass FwClassFacts FwClassTheorems FwControl FwControlFacts.
From S2P Require Import FwControlTheorems FwControlPackets FwPath FwPathFacts.
Import netip fwreconcile handlers.

Open Scope Z_scope.

(** What every compiled rule satisfies. *)
Record compiled_ok (cr : CompiledFwRule) : Prop := {
  co_proto : known_proto (cr_Proto cr) = true;
  co_port : 0 ≤ cr_Port cr ≤ 65535;
  co_end : cr_EndPort cr = 0 ∨ (0 < cr_Port cr < cr_EndPort cr ∧ cr_EndPort cr ≤ 65535);
  co_port_proto : cr_Port cr ≠ 0 → cr_Proto cr = "TCP" ∨ cr_Proto cr = "UDP";
  co_type t : cr_ICMPType cr = Some t → cr_Proto cr = "ICMP" ∧ 0 ≤ t ≤ 255;
  co_code c : cr_ICMPCode cr = Some c → cr_ICMPType cr ≠ None ∧ 0 ≤ c ≤ 255
}.

Lemma entry_compiled e : FirewallTheorems.entry_ok e → compiled_ok (e_rule e).
Proof.
  intros He. split; try apply He.
  - split; apply He.
  - intros t Ht. split; [by apply (eo_icmp e He); rewrite Ht|by apply (eo_type_octet e He)].
  - intros c Hc. split; [by apply (eo_code e He); rewrite Hc|by apply (eo_code_octet e He)].
Qed.

(** ** One rule *)

(** The rule of the datapath a compiled rule stands for. *)
Definition datapath_rule (cr : CompiledFwRule) (eg : bool) (p : Prefix) : fwclass.FwRule :=
  let n := if Is4 (p_addr p) then 4%nat else 16%nat in
  let ip := be_bytes n (bits_of (p_addr p)) in
  let mask := be_bytes n (net_mask (8 * Z.of_nat n) (p_bits p)) in
  let any := replicate n 0 in
  let hi := if cr_Port cr =? 0 then 65535 else if cr_EndPort cr =? 0 then cr_Port cr else cr_EndPort cr in
  fwclass.mkFwRule (if eg then any else ip) (if eg then any else mask) (if eg then ip else any) (if eg then mask else any)
    0 65535 (cr_Port cr) hi (default 65535 (cr_ICMPType cr)) (default 65535 (cr_ICMPCode cr))
    (protoNum (cr_Proto cr) (Is6 (p_addr p)))
    (if bool_decide (cr_Action cr = "Allow") then fwclass.FW_ACTION_ACCEPT else fwclass.FW_ACTION_DROP)
    (if eg then fwclass.FW_DIR_EGRESS else fwclass.FW_DIR_INGRESS) 1.

Lemma known_proto_cases s : known_proto s = true → s = "" ∨ s = "TCP" ∨ s = "UDP" ∨ s = "ICMP".
Proof. unfold known_proto. rewrite bool_decide_eq_true. set_solver. Qed.

Lemma protoNum_range s b : 0 ≤ protoNum s b < 256.
Proof. unfold protoNum. repeat case_match; lia. Qed.

Lemma u32ptr_octet o : (∀ x, o = Some x → 0 ≤ x ≤ 255) → u32ptr o = o.
Proof. destruct o as [x|]; [|done]. intros H. specialize (H x eq_refl). cbn. f_equal. apply u32_small. lia. Qed.

(** The selectors of an ICMP rule survive the wire. *)
Lemma icmp_selectors_compiled cr eg id p :
  compiled_ok cr → prefix_text (cr_CIDR cr) p →
  parse_icmp_selectors (to_spec (mkWithID id (compiledToFw cr eg))) =
    Some (default 65535 (cr_ICMPType cr), default 65535 (cr_ICMPCode cr)).
Proof.
  intros [] Hp. unfold parse_icmp_selectors. cbn [to_spec Rule sp_icmp_type sp_icmp_code sp_proto compiledToFw IcmpType IcmpCode g_Proto].
  rewrite !u32ptr_octet by (intros x Hx; (apply co_type0 in Hx || apply co_code0 in Hx); lia). rewrite (pt_colon _ _ Hp).
  destruct (cr_ICMPType cr) as [t|] eqn:Et.
  - destruct (co_type0 t eq_refl) as [-> Ht]. cbn [andb bool_decide]. rewrite bool_decide_eq_false_2 by done. cbn [andb].
    replace (negb (protoNum "ICMP" (Is6 (p_addr p)) =? 1) && negb (protoNum "ICMP" (Is6 (p_addr p)) =? 58)) with false by (by destruct (Is6 (p_addr p))).
    unfold octet. replace (t <? 256) with true by lia. cbn. destruct (cr_ICMPCode cr) as [c|] eqn:Ec; [|done].
    destruct (co_code0 c eq_refl). by replace (c <? 256) with true by lia.
  - destruct (cr_ICMPCode cr) as [c|] eqn:Ec; [by destruct (co_code0 c eq_refl)|]. done.
Qed.

Lemma zeros_be n : replicate n 0 = be_bytes n 0.
Proof.
  unfold be_bytes. symmetry. apply list_eq. intros i. rewrite list_lookup_fmap. destruct (decide (i < n)%nat).
  - rewrite lookup_seq_lt, lookup_replicate_2 by done. cbn. by rewrite Z.shiftr_0_l.
  - rewrite lookup_seq_ge by lia. symmetry. apply lookup_replicate_None. lia.
Qed.

Lemma parse_compiled cr eg id p :
  compiled_ok cr → prefix_text (cr_CIDR cr) p →
  parse_fw_rule (to_spec (mkWithID id (compiledToFw cr eg))) =
    Some ((if Is4 (p_addr p) then PV4 else PV6) (datapath_rule cr eg p)).
Proof.
  intros Hc Hp. pose proof (icmp_selectors_compiled cr eg id p Hc Hp) as Hic. destruct Hc.
  unfold parse_fw_rule. rewrite Hic. cbn [to_spec Rule src_cidr dst_cidr sp_proto sp_dst_port_min sp_dst_port_max allow egress
    compiledToFw SrcCIDR DstCIDR g_Proto DstPortMin DstPortMax Allow g_Egress].
  assert (Hcidr : ∀ b, parse_fw_cidr (if b : bool then "" else cr_CIDR cr) = Some (if b then V4 (replicate 4 0) (replicate 4 0) else
    if Is4 (p_addr p) then V4 (be_bytes 4 (bits_of (p_addr p))) (be_bytes 4 (net_mask 32 (p_bits p)))
    else V6 (be_bytes 16 (bits_of (p_addr p))) (be_bytes 16 (net_mask 128 (p_bits p))))).
  { intros []; [done|apply (pt_cidr _ _ Hp)]. }
  rewrite Hcidr. replace (if eg then cr_CIDR cr else "") with (if negb eg then "" else cr_CIDR cr) by (by destruct eg). rewrite Hcidr.
  cbn [mbind option_bind]. unfold octet. pose proof (protoNum_range (cr_Proto cr) (contains_colon (cr_CIDR cr))).
  replace (protoNum (cr_Proto cr) (contains_colon (cr_CIDR cr)) <? 256) with true by lia. cbn [mbind option_bind].
  rewrite (pt_colon _ _ Hp). unfold port_u16. rewrite (u32_small (cr_Port cr)) by lia.
  replace (cr_Port cr <? 65536) with true by lia. cbn [mbind option_bind].
  rewrite u32_small by (destruct (_ <? _) eqn:E; lia).
  set (hi := if cr_Port cr =? 0 then 65535 else if cr_EndPort cr =? 0 then cr_Port cr else cr_EndPort cr).
  assert (Hhi : (if (if cr_Port cr <? cr_EndPort cr then cr_EndPort cr else cr_Port cr) =? 0 then Some 65535
    else if (if cr_Port cr <? cr_EndPort cr then cr_EndPort cr else cr_Port cr) <? 65536
         then Some (if cr_Port cr <? cr_EndPort cr then cr_EndPort cr else cr_Port cr) else None) = Some hi ∧ (hi <? cr_Port cr) = false).
  { subst hi. destruct (Z.ltb_spec (cr_Port cr) (cr_EndPort cr)), (Z.eqb_spec (cr_Port cr) 0), (Z.eqb_spec (cr_EndPort cr) 0); try lia;
      repeat case_match; (split; [f_equal; lia|lia]) || lia. }
  destruct Hhi as [-> Hle]. cbn [mbind option_bind]. rewrite Hle.
  assert (Hmix : ∀ a b, negb (bool_decide ((if eg then "" else cr_CIDR cr) = "")) &&
    negb (bool_decide ((if negb eg then "" else cr_CIDR cr) = "")) && negb (Bool.eqb a b) = false).
  { intros a b. destruct eg; cbn [negb]; rewrite (bool_decide_eq_true_2 ("" = "")) by done; by rewrite ?andb_false_r. }
  rewrite Hmix. f_equal. unfold datapath_rule. fold hi. destruct eg, (Is4 (p_addr p)) eqn:E4; cbn [negb is_v6 orb]; reflexivity.
Qed.

(** ** What a rule matches *)

(** The packet the policies speak of, from the selectors read off the octets. *)
Definition transport_of (icmp_proto : Z) (s : fwclass.PacketSelectors) : Transport :=
  if fwclass.s_proto s =? 6 then TCP (fwclass.s_dport s)
  else if fwclass.s_proto s =? 17 then UDP (fwclass.s_dport s)
  else if fwclass.s_proto s =? icmp_proto then ICMP (fwclass.s_icmp_type s) (fwclass.s_icmp_code s)
  else OtherProto.

Definition icmp_of (is4 : bool) : Z := if is4 then 1 else 58.
Definition width (is4 : bool) : nat := if is4 then 4%nat else 16%nat.

Definition packet_of (is4 : bool) (dir : Z) (s : fwclass.PacketSelectors) : Packet :=
  mkPacket (if is4 then Addr4 (of_bytes (peer_of dir s)) else Addr6 (of_bytes (peer_of dir s)) "") (transport_of (icmp_of is4) s).

Definition dir_of (eg : bool) : Z := if eg then fwclass.FW_DIR_EGRESS else fwclass.FW_DIR_INGRESS.

Lemma peer_ok is4 dir s : selectors_ok (width is4) (icmp_of is4) s → fwclass.bytes_ok (peer_of dir s) ∧ length (peer_of dir s) = width is4.
Proof. intros [Hb _ _ _]. rewrite !Forall_cons in Hb. unfold peer_of. destruct (dir =? fwclass.FW_DIR_EGRESS); apply Hb. Qed.

Lemma packet_of_ok is4 dir s : selectors_ok (width is4) (icmp_of is4) s → packet_ok (packet_of is4 dir s).
Proof.
  intros [Hb Hl]%(peer_ok is4 dir). pose proof (of_bytes_range _ Hb) as Hr. rewrite Hl in Hr. by destruct is4.
Qed.

Lemma zero_mask n a b : fwclass.masked_eq a b (replicate n 0) = true.
Proof. apply masked_eq_zero. by induction n. Qed.

(** The masked comparison with a prefix is the prefix containing the peer. *)
Lemma masked_contains p dir s :
  selectors_ok (width (Is4 (p_addr p))) (icmp_of (Is4 (p_addr p))) s →
  0 ≤ bits_of (p_addr p) < 2 ^ BitLen (p_addr p) → 0 ≤ p_bits p ≤ BitLen (p_addr p) →
  let n := width (Is4 (p_addr p)) in
  fwclass.masked_eq (peer_of dir s) (be_bytes n (bits_of (p_addr p))) (be_bytes n (net_mask (8 * Z.of_nat n) (p_bits p))) =
  Contains p (peer (packet_of (Is4 (p_addr p)) dir s)).
Proof.
  intros [Hb Hl]%(peer_ok _ dir) Hv Hp n.
  assert (Hw : BitLen (p_addr p) = 8 * Z.of_nat n) by (subst n; unfold BitLen; by destruct (Is4 (p_addr p))). rewrite Hw in *.
  apply eq_true_iff_eq. rewrite masked_eq_net by (done || by rewrite be_bytes_length). rewrite agree_same_top by done.
  unfold Contains, BitLen in *. cbn [peer packet_of]. destruct (Is4 (p_addr p)); cbn; reflexivity.
Qed.

(** The protocol and selector tests agree. *)
Lemma selectors_agree cr is4 s :
  compiled_ok cr → selectors_ok (width is4) (icmp_of is4) s →
  let proto := protoNum (cr_Proto cr) (negb is4) in
  let hi := if cr_Port cr =? 0 then 65535 else if cr_EndPort cr =? 0 then cr_Port cr else cr_EndPort cr in
  ((proto =? 0) || (proto =? fwclass.s_proto s)) &&
  (if (fwclass.s_proto s =? 6) || (fwclass.s_proto s =? 17)
   then (cr_Port cr <=? fwclass.s_dport s) && (fwclass.s_dport s <=? hi)
   else if fwclass.s_proto s =? icmp_of is4
   then ((default 65535 (cr_ICMPType cr) =? 65535) || (fwclass.s_icmp_type s =? default 65535 (cr_ICMPType cr))) &&
        ((default 65535 (cr_ICMPCode cr) =? 65535) || (fwclass.s_icmp_code s =? default 65535 (cr_ICMPCode cr)))
   else true) =
  selector_matches (cr_Proto cr) (cr_Port cr) (if cr_EndPort cr =? 0 then None else Some (cr_EndPort cr))
    (cr_ICMPType cr) (cr_ICMPCode cr) (transport_of (icmp_of is4) s).
Proof.
  intros [] [_ _ [_ Hd] Hic] proto hi.
  assert (Hports : (cr_Port cr <=? fwclass.s_dport s) && (fwclass.s_dport s <=? hi) =
    in_ports (cr_Port cr) (if cr_EndPort cr =? 0 then None else Some (cr_EndPort cr)) (fwclass.s_dport s)).
  { subst hi. unfold in_ports. destruct (Z.eqb_spec (cr_Port cr) 0) as [->|]; [lia|]. cbn [orb]. by destruct (cr_EndPort cr =? 0). }
  assert (Hopt : ∀ o v, (∀ x, o = Some x → 0 ≤ x ≤ 255) → (default 65535 o =? 65535) || (v =? default 65535 o) = opt_is o v).
  { intros [x|] v Hx; [|done]. specialize (Hx x eq_refl). cbn. rewrite (Z.eqb_sym v). by replace (x =? 65535) with false by lia. }
  rewrite Hports, !Hopt by (intros x Hx; (apply co_type0 in Hx || apply co_code0 in Hx); lia).
  assert (Hty : cr_Proto cr ≠ "ICMP" → cr_ICMPType cr = None).
  { intros Hn. destruct (cr_ICMPType cr) as [t|] eqn:E; [|done]. by destruct (co_type0 t eq_refl). }
  assert (Hpt : cr_Proto cr ≠ "TCP" → cr_Proto cr ≠ "UDP" → cr_Port cr = 0) by (intros; apply dec_stable; intros Hn%co_port_proto0; tauto).
  assert (Hcd : cr_ICMPType cr = None → cr_ICMPCode cr = None).
  { intros Hn. destruct (cr_ICMPCode cr) as [c|] eqn:E; [|done]. by destruct (co_code0 c eq_refl). }
  unfold transport_of. clear co_type0 co_code0 co_port_proto0 Hic hi Hports Hopt.
  destruct (Z.eqb_spec (fwclass.s_proto s) 6) as [E6|]; [|destruct (Z.eqb_spec (fwclass.s_proto s) 17) as [E17|];
    [|destruct (Z.eqb_spec (fwclass.s_proto s) (icmp_of is4)) as [Ei|]]]; cbn [orb selector_matches]; subst proto.
  all: destruct (known_proto_cases _ co_proto0) as [E|[E|[E|E]]]; rewrite E in *; unfold proto_is.
  all: try rewrite Hty by done; try rewrite Hcd by (by apply Hty); try rewrite Hpt by done.
  all: destruct is4; cbn -[in_ports]; unfold icmp_of in *; try lia; rewrite ?E6, ?E17, ?Ei, ?andb_true_r; try done.
  all: repeat match goal with |- context [protoNum ?x ?b] => let v := eval vm_compute in (protoNum x b) in change (protoNum x b) with v end.
  all: rewrite bool_decide_eq_false_2 by done; cbn [andb orb]; lia.
Qed.

Lemma datapath_matches cr eg p s :
  compiled_ok cr → ParsePrefix (cr_CIDR cr) = Some p →
  selectors_ok (width (Is4 (p_addr p))) (icmp_of (Is4 (p_addr p))) s →
  fwclass.fw_rule_matches (icmp_of (Is4 (p_addr p))) (datapath_rule cr eg p) s =
  compiled_matches cr (packet_of (Is4 (p_addr p)) (dir_of eg) s).
Proof.
  intros Hc Hp Hs. pose proof (ParsePrefix_text _ _ Hp) as Ht. unfold compiled_matches, cidr_matches. rewrite Hp.
  rewrite <-(masked_contains p (dir_of eg) s Hs (pt_value _ _ Ht) (pt_bits _ _ Ht)).
  cbn [transport packet_of]. rewrite <-(selectors_agree cr (Is4 (p_addr p)) s Hc Hs).
  pose proof (so_ports _ _ _ Hs) as [Hsp _]. unfold fwclass.fw_rule_matches.
  assert (Haddr : fwclass.masked_eq (fwclass.s_src s) (fwclass.src_ip (datapath_rule cr eg p)) (fwclass.src_mask (datapath_rule cr eg p)) &&
    fwclass.masked_eq (fwclass.s_dst s) (fwclass.dst_ip (datapath_rule cr eg p)) (fwclass.dst_mask (datapath_rule cr eg p)) =
    fwclass.masked_eq (peer_of (dir_of eg) s) (be_bytes (width (Is4 (p_addr p))) (bits_of (p_addr p)))
      (be_bytes (width (Is4 (p_addr p))) (net_mask (8 * Z.of_nat (width (Is4 (p_addr p)))) (p_bits p)))).
  { destruct eg; cbn [datapath_rule fwclass.src_ip fwclass.src_mask fwclass.dst_ip fwclass.dst_mask]; rewrite zero_mask, ?andb_true_r; done. }
  rewrite Haddr. set (addr := fwclass.masked_eq _ _ _). clearbody addr.
  cbn [datapath_rule fwclass.enabled fwclass.fr_proto fwclass.src_port_min fwclass.src_port_max fwclass.dst_port_min fwclass.dst_port_max
    fwclass.icmp_type fwclass.icmp_code].
  change (1 =? 0) with false. unfold Is6. set (proto := protoNum _ _). clearbody proto.
  replace (0 <=? fwclass.s_sport s) with true by lia. replace (fwclass.s_sport s <=? 65535) with true by lia. cbn [andb].
  destruct (proto =? 0), (proto =? fwclass.s_proto s), addr; reflexivity.
Qed.

Lemma datapath_rule_ok cr eg p : compiled_ok cr → rule_ok (width (Is4 (p_addr p))) (datapath_rule cr eg p).
Proof.
  intros [].
  assert (Hb : ∀ v, fwclass.bytes_ok (be_bytes (width (Is4 (p_addr p))) v) ∧ length (be_bytes (width (Is4 (p_addr p))) v) = width (Is4 (p_addr p)))
    by (intros v; split; [apply be_bytes_ok|apply be_bytes_length]).
  assert (Hz : fwclass.bytes_ok (replicate (width (Is4 (p_addr p))) 0) ∧ length (replicate (width (Is4 (p_addr p))) 0) = width (Is4 (p_addr p)))
    by (rewrite zeros_be; apply Hb).
  assert (Hopt : ∀ o, (∀ x, o = Some x → 0 ≤ x ≤ 255) → 0 ≤ default 65535 o) by (intros [x|] Hx; [specialize (Hx x eq_refl); cbn; lia|done]).
  split; cbn [datapath_rule fwclass.src_ip fwclass.src_mask fwclass.dst_ip fwclass.dst_mask fwclass.dst_port_min fwclass.dst_port_max
    fwclass.icmp_type fwclass.icmp_code fwclass.fr_proto fwclass.action].
  - rewrite !Forall_cons, Forall_nil. by destruct eg; split_and!; try apply Hb; try apply Hz.
  - destruct (cr_Port cr =? 0), (cr_EndPort cr =? 0); lia.
  - split; apply Hopt; intros x Hx; (apply co_type0 in Hx || apply co_code0 in Hx); lia.
  - apply protoNum_range.
  - case_match; auto.
Qed.

(** ** Lists of rules *)

(** The rules of one direction. *)
Definition of_dir (eg : bool) (l : list (CompiledFwRule * bool)) : list CompiledFwRule :=
  (List.filter (fun x => Bool.eqb x.2 eg) l).*1.

Definition lowers (spec : FwRuleSpec) (x : CompiledFwRule * bool) : Prop :=
  ∃ id, spec = to_spec (mkWithID id (compiledToFw x.1 x.2)).

Definition usable (cr : CompiledFwRule) : Prop := compiled_ok cr ∧ ∃ p, ParsePrefix (cr_CIDR cr) = Some p.

Definition act (allowed : bool) : Z := if allowed then fwclass.FW_ACTION_ACCEPT else fwclass.FW_ACTION_DROP.

(** A rule of the datapath that came from a compiled one of a family. *)
Definition from_compiled (is4 : bool) (r : fwclass.FwRule) : Prop :=
  ∃ cr eg p, r = datapath_rule cr eg p ∧ compiled_ok cr ∧ prefix_text (cr_CIDR cr) p ∧ Is4 (p_addr p) = is4.

(** The rules a request carries decide, in the datapath's order, as the compiled
    lists do. *)
Lemma parse_rules_verdict specs l :
  Forall2 lowers specs l → Forall (fun x => usable x.1) l →
  ∃ v4 v6, parse_rules specs = Some (v4, v6) ∧ Forall (rule_ok 4) v4 ∧ Forall (rule_ok 16) v6 ∧
    (length v4 + length v6 = length l)%nat ∧ Forall (from_compiled true) v4 ∧ Forall (from_compiled false) v6 ∧
    ∀ is4 eg s, selectors_ok (width is4) (icmp_of is4) s →
      fwclass.first_match (icmp_of is4) s (if is4 then v4 else v6) (dir_of eg) = act (verdict (of_dir eg l) (packet_of is4 (dir_of eg) s)).
Proof.
  induction 1 as [|spec [cr eg0] specs l [id ->] Hl IH]; intros Hu.
  { exists [], []. split_and!; try done. by intros []. }
  apply Forall_cons in Hu as [[Hc [p Hp]] Hu]. cbn [fst snd] in *. destruct (IH Hu) as (v4 & v6 & Hparse & H4 & H6 & Hlen & Hf4 & Hf6 & Hver).
  cbn [parse_rules]. rewrite (parse_compiled _ _ _ _ Hc (ParsePrefix_text _ _ Hp)). cbn [mbind option_bind]. rewrite Hparse. cbn [mbind option_bind].
  pose proof (datapath_rule_ok cr eg0 p Hc) as Hok.
  assert (Hfrom : from_compiled (Is4 (p_addr p)) (datapath_rule cr eg0 p)) by (exists cr, eg0, p; split_and!; [done|done|by apply ParsePrefix_text|done]).
  assert (Hmiss : ∀ eg s, verdict (of_dir eg ((cr, eg0) :: l)) (packet_of (negb (Is4 (p_addr p))) (dir_of eg) s) =
    verdict (of_dir eg l) (packet_of (negb (Is4 (p_addr p))) (dir_of eg) s)).
  { intros eg s. unfold of_dir. cbn. destruct (Bool.eqb eg0 eg); [|done]. unfold verdict. cbn. unfold compiled_matches at 1, cidr_matches.
    rewrite Hp. replace (Contains p _) with false; [done|]. unfold Contains. destruct (Is4 (p_addr p)); cbn; by rewrite ?andb_false_r. }
  assert (Hhit : ∀ v eg s, selectors_ok (width (Is4 (p_addr p))) (icmp_of (Is4 (p_addr p))) s →
    fwclass.first_match (icmp_of (Is4 (p_addr p))) s v (dir_of eg) = act (verdict (of_dir eg l) (packet_of (Is4 (p_addr p)) (dir_of eg) s)) →
    fwclass.first_match (icmp_of (Is4 (p_addr p))) s (datapath_rule cr eg0 p :: v) (dir_of eg) =
    act (verdict (of_dir eg ((cr, eg0) :: l)) (packet_of (Is4 (p_addr p)) (dir_of eg) s))).
  { intros v eg s Hs IHv. unfold fwclass.first_match in *. cbn [List.find].
    change (fwclass.direction (datapath_rule cr eg0 p)) with (dir_of eg0). unfold of_dir. cbn [List.filter snd].
    destruct (decide (eg0 = eg)) as [->|Hne].
    - rewrite Z.eqb_refl, eqb_reflx, (datapath_matches cr eg p s Hc Hp Hs). cbn [andb]. rewrite fmap_cons. unfold verdict. cbn [List.find fst].
      destruct (compiled_matches cr _); [by unfold act; cbn [datapath_rule fwclass.action]|exact IHv].
    - replace (dir_of eg0 =? dir_of eg) with false by (by destruct eg0, eg). replace (Bool.eqb eg0 eg) with false by (by destruct eg0, eg).
      exact IHv. }
  destruct (Is4 (p_addr p)) eqn:E4; [exists (datapath_rule cr eg0 p :: v4), v6|exists v4, (datapath_rule cr eg0 p :: v6)].
  all: split_and!; [done|try done; by apply Forall_cons|try done; by apply Forall_cons|cbn; lia|try done; by apply Forall_cons|try done; by apply Forall_cons|].
  all: intros is4 eg s Hs; destruct is4; cbn [negb] in *; first [by apply Hhit, Hver|rewrite Hmiss; by apply (Hver _ eg s Hs)].
Qed.

(** ** The classifier can express every rule *)

Lemma count_ones_mask b : 0 ≤ b ≤ 8 → fwclass.count_ones (fwclass.byte_mask b) = b.
Proof.
  intros Hb. assert (b = 0 ∨ b = 1 ∨ b = 2 ∨ b = 3 ∨ b = 4 ∨ b = 5 ∨ b = 6 ∨ b = 7 ∨ b = 8) as Hc by lia.
  destruct_or! Hc; subst; reflexivity.
Qed.

Lemma sum_byte_bits len (n : nat) : 0 ≤ len →
  foldr Z.add 0 ((fun i : nat => fwclass.byte_bits len (Z.of_nat i)) <$> seq 0 n) = Z.min len (8 * Z.of_nat n).
Proof.
  intros Hl. induction n as [|n IH]; [cbn; lia|]. rewrite seq_S, fmap_app, foldr_app. cbn [foldr fmap list_fmap].
  assert (Hacc : ∀ l a, foldr Z.add a l = foldr Z.add 0 l + a) by (induction l as [|x l IHl]; intros a; cbn; [lia|rewrite IHl; lia]).
  rewrite Hacc, IH. unfold fwclass.byte_bits. lia.
Qed.

Lemma prefix_len_net n len : (n ≤ 16)%nat → 0 ≤ len ≤ 8 * Z.of_nat n → fwclass.prefix_len (be_bytes n (net_mask (8 * Z.of_nat n) len)) = Some len.
Proof.
  intros Hn Hl. set (mask := be_bytes _ _).
  assert (Hmask : mask = (fun i : nat => fwclass.byte_mask (fwclass.byte_bits len (Z.of_nat i))) <$> seq 0 n).
  { apply list_eq_same_length with n; [by rewrite length_fmap, length_seq|apply be_bytes_length|]. intros i x y Hi Hx Hy.
    rewrite list_lookup_fmap, lookup_seq_lt in Hy by done. cbn in Hy. injection Hy as <-.
    apply list_lookup_total_correct in Hx as <-. by apply net_mask_byte. }
  assert (Hones : foldr Z.add 0 (fwclass.count_ones <$> mask) = len).
  { rewrite Hmask, <-list_fmap_compose.
    rewrite (list_fmap_ext _ (fun i : nat => fwclass.byte_bits len (Z.of_nat i))) by (intros; apply count_ones_mask, byte_bits_range).
    rewrite sum_byte_bits by lia. lia. }
  unfold fwclass.prefix_len. rewrite Hones. replace (forallb id _) with true; [unfold fwclass.u8; rewrite Z.mod_small by lia; done|].
  symmetry. apply forallb_forall. intros x Hx%list_elem_of_In. apply elem_of_lookup_imap in Hx as (i & y & -> & Hi). apply Z.eqb_eq.
  pose proof (lookup_lt_Some _ _ _ Hi) as Hlt. unfold mask in Hlt. rewrite be_bytes_length in Hlt.
  apply list_lookup_total_correct in Hi as <-. by apply net_mask_byte.
Qed.

Lemma zeros_no_bits n : existsb (fun b => negb (b =? 0)) (replicate n 0) = false.
Proof. by induction n. Qed.

Lemma parse_from_compiled is4 dir r :
  from_compiled is4 r → fwclass.direction r = dir → ∃ o, fwclass.parse (fwclass.view r) dir (icmp_of is4) = inr o.
Proof.
  intros (cr & eg & p & -> & [] & Ht & <-) Hdir. change (dir_of eg = dir) in Hdir. subst dir.
  assert (Hlen : fwclass.prefix_len (be_bytes (width (Is4 (p_addr p))) (net_mask (8 * Z.of_nat (width (Is4 (p_addr p)))) (p_bits p))) = Some (p_bits p)).
  { apply prefix_len_net; [by destruct (Is4 (p_addr p)); cbn; lia|]. pose proof (pt_bits _ _ Ht). unfold BitLen in *. by destruct (Is4 (p_addr p)). }
  assert (Hsel : ∃ o, fwclass.parse_sel (fwclass.view (datapath_rule cr eg p)) (icmp_of (Is4 (p_addr p))) = inr o).
  { unfold fwclass.parse_sel. cbn [fwclass.view fwclass.v_dports fwclass.v_icmp fwclass.v_proto datapath_rule fwclass.dst_port_min fwclass.dst_port_max
      fwclass.icmp_type fwclass.icmp_code fwclass.fr_proto].
    destruct (known_proto_cases _ co_proto0) as [E|[E|[E|E]]]; rewrite E.
    - assert (cr_Port cr = 0) as -> by (apply dec_stable; intros [?|?]%co_port_proto0; congruence).
      assert (cr_ICMPType cr = None) as Hty by (destruct (cr_ICMPType cr) as [t|] eqn:Et; [|done]; by destruct (co_type0 t eq_refl); congruence).
      assert (cr_ICMPCode cr = None) as -> by (destruct (cr_ICMPCode cr) as [c|] eqn:Ec; [|done]; by destruct (co_code0 c eq_refl)).
      rewrite Hty. destruct (Is4 (p_addr p)); cbn; eauto.
    - change (protoNum "TCP" (Is6 (p_addr p))) with 6. change ((6 =? 6) || (6 =? 17)) with true. cbv iota. repeat case_match; eauto.
    - change (protoNum "UDP" (Is6 (p_addr p))) with 17. change ((17 =? 6) || (17 =? 17)) with true. cbv iota. repeat case_match; eauto.
    - assert (Hgen : ∀ t c, (t = 65535 ∧ c = 65535) ∨ (0 ≤ t ≤ 255 ∧ (c = 65535 ∨ 0 ≤ c ≤ 255)) → ∃ o : option fwclass.Selector,
        (if (t =? 65535) && (c =? 65535) then inr (Some fwclass.Any)
         else if t =? 65535 then inl (fwclass.Unsupported "an ICMP code without a type")
         else if 255 <? t then inl (fwclass.Unsupported "an ICMP type above 255")
         else if c =? 65535 then inr (Some (fwclass.Icmp (fwclass.u8 t) None))
         else if 255 <? c then inl (fwclass.Unsupported "an ICMP code above 255")
         else inr (Some (fwclass.Icmp (fwclass.u8 t) (Some (fwclass.u8 c))))) = inr o).
      { intros t c Htc. repeat case_match; eauto; lia. }
      assert (protoNum "ICMP" (Is6 (p_addr p)) = icmp_of (Is4 (p_addr p))) as -> by (unfold Is6; by destruct (Is4 (p_addr p))).
      replace ((icmp_of (Is4 (p_addr p)) =? 6) || (icmp_of (Is4 (p_addr p)) =? 17)) with false by (by destruct (Is4 (p_addr p))).
      rewrite Z.eqb_refl. apply Hgen. destruct (cr_ICMPType cr) as [t|] eqn:Et, (cr_ICMPCode cr) as [c|] eqn:Ec; cbn;
        try (destruct (co_type0 t eq_refl)); try (destruct (co_code0 c eq_refl)); try done; lia. }
  destruct Hsel as [o Ho]. unfold fwclass.parse. rewrite Ho.
  destruct eg; cbn [dir_of]; [rewrite Z.eqb_refl|change (fwclass.FW_DIR_INGRESS =? fwclass.FW_DIR_EGRESS) with false];
    cbn [fwclass.view fwclass.v_enabled datapath_rule fwclass.enabled fwclass.v_dst fwclass.v_dst_mask fwclass.v_src fwclass.v_src_mask
    fwclass.v_sports fst snd fwclass.src_mask fwclass.dst_mask fwclass.src_ip fwclass.dst_ip fwclass.src_port_min fwclass.src_port_max];
    change (negb (negb (1 =? 0))) with false; change (negb ((0 =? 0) && (65535 =? 65535))) with false; cbv iota beta;
    rewrite zeros_no_bits; fold (width (Is4 (p_addr p))); rewrite Hlen; destruct o; eauto.
Qed.

Lemma parse_all_compiled is4 dir l : Forall (from_compiled is4) l → ∃ ps, fwclass.parse_all dir (icmp_of is4) l = inr ps.
Proof.
  induction 1 as [|r l Hr _ [ps IH]]; cbn; [eauto|]. destruct (Z.eqb_spec (fwclass.direction r) dir) as [Hd|]; [|eauto].
  destruct (parse_from_compiled _ _ _ Hr Hd) as [o ->]. rewrite IH. eauto.
Qed.

(** Compiling such rules can fail only for size. *)
Lemma compile_too_large {ro : RangeOrder} dir v4 v6 e :
  Forall (from_compiled true) v4 → Forall (from_compiled false) v6 → fwclass.compile_scope dir v4 v6 = inl e →
  ∃ family what n, e = fwclass.ScopeTooLarge family what n.
Proof.
  intros H4 H6. unfold fwclass.compile_scope. destruct (parse_all_compiled true dir v4 H4) as [p4 E4]. cbn [icmp_of] in E4.
  destruct (parse_all_compiled false dir v6 H6) as [p6 E6]. cbn [icmp_of] in E6. rewrite E4, E6. destruct (_ && _); [done|].
  assert (Hfam : ∀ ps family e, fwclass.compile_family ps family = inl e → ∃ family what n, e = fwclass.ScopeTooLarge family what n).
  { intros ps family e'. unfold fwclass.compile_family. repeat (case_match; try done); intros [= <-]; eauto. }
  destruct (fwclass.compile_family p4 "IPv4") eqn:Ef4; [intros [= <-]; eauto|].
  destruct (fwclass.compile_family p6 "IPv6") eqn:Ef6; [intros [= <-]; eauto|done].
Qed.

Lemma bind_scopes_error {W : Type} `{FwWriter W} i ig eg (c c' : ControlCore W) e :
  fwcontrol.fw_bind_scopes i ig eg c = (c', inl e) → e = fwclass.MapError.
Proof. unfold fwcontrol.fw_bind_scopes. repeat (case_match; try done); by intros [= _ <-]. Qed.

(** ** A NIC's firewall *)

Definition tagged (fw : CompiledFirewall) : list (CompiledFwRule * bool) :=
  ((fun cr => (cr, false)) <$> cf_Ingress fw) ++ ((fun cr => (cr, true)) <$> cf_Egress fw).

Lemma imap_lowers (f : nat → string) eg l :
  Forall2 lowers (to_spec <$> imap (fun idx cr => mkWithID (f idx) (compiledToFw cr eg)) l) ((fun cr => (cr, eg)) <$> l).
Proof.
  revert f. induction l as [|cr l IH]; intros f; [constructor|]. rewrite imap_cons, !fmap_cons. constructor; [by eexists|].
  apply (IH (fun n => f (S n))).
Qed.

Lemma rules_lowers fw : Forall2 lowers (to_spec <$> rules_of fw) (tagged fw).
Proof. unfold rules_of, tagged. rewrite fmap_app. apply Forall2_app; apply imap_lowers. Qed.

Lemma tagged_dir eg fw : of_dir eg (tagged fw) = if eg then cf_Egress fw else cf_Ingress fw.
Proof.
  assert (Hone : ∀ b (l : list CompiledFwRule), of_dir eg ((fun cr => (cr, b)) <$> l) = if Bool.eqb b eg then l else []).
  { intros b l. unfold of_dir. induction l as [|cr l IH]; cbn; [by destruct (Bool.eqb b eg)|]. destruct (Bool.eqb b eg); cbn; by rewrite IH. }
  unfold tagged, of_dir. rewrite List.filter_app, fmap_app. fold (of_dir eg ((fun cr => (cr, false)) <$> cf_Ingress fw)).
  fold (of_dir eg ((fun cr => (cr, true)) <$> cf_Egress fw)). rewrite !Hone. destruct eg; cbn; by rewrite ?app_nil_r.
Qed.

Section enforced.
Context {L : Type} (LabelSelectorAsSelector : L → option (gmap string string → bool)).
Context (ValidateLabelSelector : L → string → list FieldError).

(** The rules of a compiled firewall are usable, and there are few of them. *)
Lemma compiled_usable nicLabels pols dp fw :
  policies_admitted ValidateLabelSelector pols → CompileFirewall LabelSelectorAsSelector nicLabels pols dp = inr fw →
  Forall (fun x => usable x.1) (tagged fw) ∧ Z.of_nat (length (tagged fw)) ≤ 2 * FirewallRuleBudget.
Proof.
  intros Ha Hc. destruct (compile_admitted LabelSelectorAsSelector ValidateLabelSelector nicLabels pols Ha) as (ei & ee & Hs & _ & _ & Hli & Hle).
  unfold CompileFirewall in Hc. rewrite Hs in Hc. cbv zeta in Hc.
  destruct (Z.ltb_spec FirewallRuleBudget (fwSet_count (add_default dp (insert_all ei [])) false + fwSet_count (add_default dp (insert_all ee [])) false)); [done|].
  destruct (Z.ltb_spec FirewallRuleBudget (fwSet_count (add_default dp (insert_all ei [])) true + fwSet_count (add_default dp (insert_all ee [])) true)); [done|].
  injection Hc as <-. pose proof (direction_kept _ _ dp Hli) as Hi. pose proof (direction_kept _ _ dp Hle) as He.
  set (si := add_default dp (insert_all ei [])) in *. set (se := add_default dp (insert_all ee [])) in *.
  assert (Hu : ∀ s, Forall FirewallTheorems.entry_ok s → Forall usable (fwSet_rules s)).
  { intros s Hok. unfold fwSet_rules. apply Forall_fmap, Forall_forall. intros e Hin. rewrite (merge_sort_Permutation rank_le) in Hin.
    rewrite Forall_forall in Hok. specialize (Hok e Hin). split; [by apply entry_compiled|]. eexists. apply (eo_prefix e Hok). }
  assert (Hn : ∀ s, Z.of_nat (length (fwSet_rules s)) = fwSet_count s false + fwSet_count s true).
  { intros s. unfold fwSet_rules, fwSet_count. rewrite length_fmap, (Permutation_length (merge_sort_Permutation rank_le s)).
    induction s as [|e s IH]; [done|]. cbn. destruct (v6 e); cbn; lia. }
  unfold tagged. cbn [cf_Ingress cf_Egress]. split.
  - apply Forall_app. split; apply Forall_fmap; (eapply Forall_impl; [apply Hu; done|done]).
  - rewrite length_app, !length_fmap, Nat2Z.inj_add, !Hn. lia.
Qed.

Context {ro : RangeOrder} {lp : fwclass.Lpm} {W : Type} {FW : FwWriter W} {La : FwWriterLaws W}.
Implicit Types c : ControlCore W.

(** No scope the request compiles to shares its id with different content. *)
Definition request_distinct (req : ReplaceInterfaceFirewallRequest) c : Prop :=
  ∀ v4 v6 ig eg, parse_rules (rules req) = Some (v4, v6) → fwcontrol.compile_iface v4 v6 = inr (ig, eg) → no_collision (cw c) ig eg.


(** C38. The node service never refuses the agent's request as invalid: whatever
    admitted policies compile to parses and can be expressed by the classifier, so
    a request fails only because the interface is unknown, because a direction is
    too large for a scope, or because a map write failed. *)
Theorem firewall_accepted nicLabels pols dp fw iface c c' e :
  policies_admitted ValidateLabelSelector pols →
  CompileFirewall LabelSelectorAsSelector nicLabels pols dp = inr fw →
  replace_interface_firewall (request iface (rules_of fw)) c = (c', inl e) →
  (e = NotFound ∧ ifaces_meta c !! into_bytes iface = None) ∨ e = Exhausted ∨ e = Internal.
Proof.
  intros Ha Hc. destruct (compiled_usable _ _ _ _ Ha Hc) as [Hu _].
  destruct (parse_rules_verdict _ _ (rules_lowers fw) Hu) as (v4 & v6 & Hp & _ & _ & _ & Hf4 & Hf6 & _).
  unfold replace_interface_firewall. cbn [rules interface_id request]. rewrite Hp.
  destruct (fwcontrol.replace_interface_fw (into_bytes iface) v4 v6 c) as [c1 [e1|[]]] eqn:E; [|done]. intros [= _ <-].
  unfold fwcontrol.replace_interface_fw, fwcontrol.fw_ifindex in E. destruct (ifaces_meta c !! into_bytes iface) as [m|]; [|injection E as _ <-; by left].
  right. destruct (fwcontrol.compile_iface v4 v6) as [e2|[ig eg]] eqn:Eci; [|apply bind_scopes_error in E as ->; by right].
  injection E as _ <-. left. unfold fwcontrol.compile_iface in Eci.
  destruct (fwclass.compile_scope fwclass.FW_DIR_INGRESS v4 v6) eqn:E1; [injection Eci as <-; by destruct (compile_too_large _ _ _ _ Hf4 Hf6 E1) as (?&?&?&->)|].
  destruct (fwclass.compile_scope fwclass.FW_DIR_EGRESS v4 v6) eqn:E2; [|done].
  injection Eci as <-; by destruct (compile_too_large _ _ _ _ Hf4 Hf6 E2) as (?&?&?&->).
Qed.

End enforced.

(** ** Examples *)

Module Wire.

#[local] Existing Instance canonical_order.

Definition pols : list (FirewallPolicy (string * string)) := [FirewallTheorems.Demo.web; FirewallTheorems.Demo.lockdown].
Definition labels : gmap string string := FirewallTheorems.Demo.labels.
Definition as_selector := FirewallTheorems.Demo.as_selector.

(** A node with two interfaces attached, one of them named by the request. *)
Definition node : ControlCore mem.MemMapWriter := fwcontrol.register_iface_meta (into_bytes "eth") (Nodes.meta 9) (fwcontrol.new Nodes.mem0).

Lemma node_ready : ready node.
Proof. pose proof (Nodes.new_inv Nodes.mem0) as []. split; [by split|done]. Qed.

(** Whether the request for the compiled policies succeeded, and what a segment
    from 10.1.2.3 to port 81 then meets. *)
Definition outcome : option Z :=
  match CompileFirewall as_selector labels pols None with
  | inl _ => None
  | inr fw =>
      match replace_interface_firewall (request "eth" (rules_of fw)) node with
      | (c', inr tt) => Some (@fwclass.fw_classify sim_Lpm (FwClassTheorems.Demo.tcp4 [10; 1; 2; 3] 81) (maps_of (cw c')) 0 9 fwclass.FW_DIR_INGRESS)
      | _ => None
      end
  end.

End Wire.


Lemma firewall_accepted_witness :
  match CompileFirewall Wire.as_selector Wire.labels Wire.pols None with
  | inr fw =>
      match @replace_interface_firewall canonical_order _ _ (request "no-such-interface" (rules_of fw)) Wire.node with
      | (_, inl e) => e = NotFound ∨ e = Exhausted ∨ e = Internal
      | _ => False
      end
  | inl _ => False
  end.
Proof.
  pose (ro := canonical_order).
  destruct (CompileFirewall Wire.as_selector Wire.labels Wire.pols None) as [err|fw] eqn:Ec; [vm_compute in Ec; discriminate|].
  destruct (replace_interface_firewall (request "no-such-interface" (rules_of fw)) Wire.node) as [c' [e|[]]] eqn:E.
  - destruct (firewall_accepted Wire.as_selector FirewallTheorems.Demo.validate_selector Wire.labels Wire.pols None fw "no-such-interface"
      Wire.node c' e FirewallTheorems.Demo.all_admitted Ec E) as [[-> _]|H]; [by left|by right].
  - exfalso. vm_compute in Ec. injection Ec as <-. vm_compute in E. discriminate.
Defined.
