(* ===== verification/Reconciler.v ===== *)
(** * The agent's reconciler

    Every tick the agent of a node reads the interfaces attached on the node and
    the CompiledNICs of its cluster, and derives what to announce on the route bus
    and what to program on the local dataplane: [mesh/agent/reconcile.go],
    [natreconcile.go], [lbreconcile.go], [importreconcile.go], [fwreconcile.go],
    [qosreconcile.go], [DesiredPublic] of [public.go], and the tick of
    [cmd/agent/main.go].  The API server is an argument: the list it answers with,
    or nothing where it fails. *)

From S2P Require Import Prelude Net Wire Rib Server Desired Dataplane Bus Firewall FwPath.
Import fwreconcile.

Open Scope Z_scope.

(** ** What is read *)

Record CompiledNATSource := mkNATSource { SourceIP : string; NATIP : string; ns_PortMin : Z; ns_PortMax : Z }.
Record CompiledLBPort := mkLBPort { lp_Port : Z; lp_Proto : string }.
Record CompiledLB := mkLB { lb_IP : string; lb_Ports : list CompiledLBPort }.
Record CompiledPeerImport := mkCompiledImport { ci_PeerVNI : Z; ci_ImportPrefixes : list string }.
Record CompiledQoS := mkQoS { q_EgressMbps : Z; q_PublicMbps : Z; q_IngressMbps : Z }.

(** The fields of [CompiledNICSpec] the agent reads. *)
Record CompiledNIC := mkCompiledNIC {
  VNI : Z;
  OverlayIPs : list string;
  Firewall : CompiledFirewall;
  NAT : list CompiledNATSource;
  LB : list CompiledLB;
  PeerImports : list CompiledPeerImport;
  QoS : option CompiledQoS
}.

Definition ipKey : Type := Z * string.

(** ** The local dataplane *)

Record compiledQoSCaps := mkCaps { EgressMbps : Z; PublicMbps : Z; IngressMbps : Z }.

#[export] Instance compiledQoSCaps_eq_dec : EqDecision compiledQoSCaps.
Proof. solve_decision. Defined.

(** The calls of the interface [Dataplane] the reconciler makes; [false] and
    [None] are an error. *)
Class NodeDataplane (D : Type) := {
  AddNatSource : Z → string → string → Z → Z → D → D * bool;
  ReplaceInterfaceFirewall : string → list FwRuleWithID → D → D * bool;
  ConfigureQoS : string → compiledQoSCaps → D → D * bool;
  ListLocal : D → option (list LocalInterface)
}.

(** ** The reconciler *)

Record tickSnapshot := mkSnapshot {
  sn_locals : list LocalInterface;
  haveLoc : bool;
  sn_cnics : list CompiledNIC;
  haveCNICs : bool
}.

(** [Reconciler]; whether it has a client and a dataplane. *)
Record Reconciler := mkReconciler {
  rc_client : bool;
  rc_underlay : string;
  rc_edgeLoopback : string;
  rc_dp : bool;
  appliedQoS : gmap string compiledQoSCaps;
  tick : option tickSnapshot
}.

Definition set_tick (t : option tickSnapshot) (r : Reconciler) : Reconciler :=
  mkReconciler (rc_client r) (rc_underlay r) (rc_edgeLoopback r) (rc_dp r) (appliedQoS r) t.

Definition set_applied (m : gmap string compiledQoSCaps) (r : Reconciler) : Reconciler :=
  mkReconciler (rc_client r) (rc_underlay r) (rc_edgeLoopback r) (rc_dp r) m (tick r).

Definition BeginTick (r : Reconciler) : Reconciler := set_tick (Some (mkSnapshot [] false [] false)) r.
Definition EndTick (r : Reconciler) : Reconciler := set_tick None r.

Module reconciler.

Section reconciler.
Context {ro : RangeOrder} {D : Type} `{NodeDataplane D}.
(** What the API server answers a list with. *)
Context (api : option (list CompiledNIC)).

(** A method of the reconciler: it may change the reconciler and the dataplane,
    and returns a value or an error. *)
Definition RM (A : Type) : Type := Reconciler → D → Reconciler * D * option A.

Definition ret {A : Type} (a : A) : RM A := fun r d => (r, d, Some a).
Definition fail {A : Type} : RM A := fun r d => (r, d, None).
Definition bind {A B : Type} (m : RM A) (k : A → RM B) : RM B := fun r d =>
  match m r d with
  | (r, d, Some a) => k a r d
  | (r, d, None) => (r, d, None)
  end.
Definition lift {A : Type} (o : option A) : RM A := fun r d => (r, d, o).
Definition ask {A : Type} (f : Reconciler → A) : RM A := fun r d => (r, d, Some (f r)).

Local Notation "x ←r m ; k" := (bind m (fun x => k)) (at level 20, m at level 100, k at level 200, right associativity).

Definition listCNICs : RM (list CompiledNIC) := fun r d =>
  match tick r with
  | Some t =>
      if haveCNICs t then (r, d, Some (sn_cnics t))
      else if negb (rc_client r) then (r, d, Some [])
      else match api with
           | None => (r, d, None)
           | Some l => (set_tick (Some (mkSnapshot (sn_locals t) (haveLoc t) l true)) r, d, Some l)
           end
  | None => (r, d, if negb (rc_client r) then Some [] else api)
  end.

Definition listLocalIfaces : RM (list LocalInterface) := fun r d =>
  match tick r with
  | Some t =>
      if haveLoc t then (r, d, Some (sn_locals t))
      else if negb (rc_dp r) then (r, d, Some [])
      else match ListLocal d with
           | None => (r, d, None)
           | Some l => (set_tick (Some (mkSnapshot l true (sn_cnics t) (haveCNICs t))) r, d, Some l)
           end
  | None => (r, d, if negb (rc_dp r) then Some [] else ListLocal d)
  end.

(** The addresses of the attached interfaces, in order: the interface and the
    address.  Interfaces without a VNI are left out. *)
Definition addresses (locals : list LocalInterface) : list (LocalInterface * string) :=
  locals ≫= fun li => if li_Vni li =? 0 then [] else (fun ip => (li, ip)) <$> li_OverlayIPs li.

Definition nexthop_of (underlay : string) (li : LocalInterface) : string :=
  if decide (li_Underlay li = "") then underlay else li_Underlay li.

(** The maps [ulByKey], [out] and [localSet]; a later interface overrides. *)
Definition by_key {A : Type} (f : LocalInterface → A) (locals : list LocalInterface) : gmap ipKey A :=
  foldl (fun m '(li, ip) => <[(li_Vni li, ip) := f li]> m) ∅ (addresses locals).

Definition localSet_of (locals : list LocalInterface) : gset ipKey :=
  list_to_set ((fun '(li, ip) => (li_Vni li, ip)) <$> addresses locals).

Definition localNIC (c : CompiledNIC) (local : gset ipKey) : bool :=
  any (fun ip => bool_decide ((u32 (VNI c), ip) ∈ local)) (OverlayIPs c).

Definition underlayByKey : RM (gmap ipKey string * gset ipKey) :=
  locals ←r listLocalIfaces;
  u ←r ask rc_underlay;
  ret (by_key (nexthop_of u) locals, localSet_of locals).

Definition interfaceIDByKey : RM (gmap ipKey string * gset ipKey) :=
  locals ←r listLocalIfaces;
  ret (by_key li_InterfaceID locals, localSet_of locals).

(** The first overlay address of a NIC a map knows, and what the map has for it. *)
Definition first_known {A : Type} (c : CompiledNIC) (m : gmap ipKey A) : option (string * A) :=
  head (omap (fun ip => x ← m !! (u32 (VNI c), ip); Some (ip, x)) (OverlayIPs c)).

(** *** Load balancers *)

Record lbBacking := mkBacking {
  bk_IP : string;
  bk_Vni : Z;
  NicUnderlay : string;
  bk_OverlayIP : string;
  bk_Ports : list LbPort
}.

Definition nic_backings (ulByKey : gmap ipKey string) (local : gset ipKey) (c : CompiledNIC) : list lbBacking :=
  if negb (localNIC c local) || bool_decide (LB c = []) then []
  else match first_known c ulByKey with
       | None => []
       | Some (ip, ul) =>
           if decide (ul = "") then []
           else (fun lb => mkBacking (lb_IP lb) (u32 (VNI c)) ul ip
                  ((fun p => mkLbPort (u32 (lp_Port p)) (protoNum (lp_Proto p) (contains_colon (lb_IP lb)))) <$> lb_Ports lb)) <$> LB c
       end.

Definition desiredLB (ulByKey : gmap ipKey string) (local : gset ipKey) : RM (list lbBacking) :=
  cnics ←r listCNICs;
  ret (cnics ≫= nic_backings ulByKey local).

(** *** Imports *)

Definition needs_egress (c : CompiledNIC) : bool := negb (bool_decide (NAT c = [])) || negb (bool_decide (LB c = [])).

Definition desiredEgressVNIs : RM (list Z) :=
  ul ←r underlayByKey;
  cnics ←r listCNICs;
  let chosen := List.filter (fun c => localNIC c ul.2 && negb (VNI c =? 0) && needs_egress c) cnics in
  ret (range_set (list_to_set ((fun c => u32 (VNI c)) <$> chosen) : gset Z)).

(** [acc]: per local VNI and peer VNI, the prefixes. *)
Definition add_import (local : Z) (acc : gmap Z (gmap Z (gset string))) (pi : CompiledPeerImport) : gmap Z (gmap Z (gset string)) :=
  if ci_PeerVNI pi =? 0 then acc
  else
    let pv := u32 (ci_PeerVNI pi) in
    let peers := default ∅ (acc !! local) in
    <[local := <[pv := default ∅ (peers !! pv) ∪ list_to_set (ci_ImportPrefixes pi)]> peers]> acc.

Definition add_imports (local : gset ipKey) (acc : gmap Z (gmap Z (gset string))) (c : CompiledNIC) : gmap Z (gmap Z (gset string)) :=
  if negb (localNIC c local) || (VNI c =? 0) then acc
  else foldl (add_import (u32 (VNI c))) acc (PeerImports c).

(** Peers in the order the map is ranged over, the prefixes of each sorted. *)
Definition imports_of (peers : gmap Z (gset string)) : list PeerImport :=
  (fun '(pv, prefs) => mkPeerImport pv (sort_strings (range_set prefs))) <$> range_map peers.

Definition desiredPeeringImports : RM (gmap Z (list PeerImport)) :=
  ul ←r underlayByKey;
  cnics ←r listCNICs;
  let acc := foldl (add_imports ul.2) ∅ cnics in
  ret (imports_of <$> acc).

(** *** Announcements *)

Record ExternalRoute := mkExternal { x_Vni : Z; x_Prefix : string; x_Nexthop : string; x_External : bool }.

Definition nat64WellKnownPrefix : string := "64:ff9b::/96".

Definition DesiredExternalRoutes (underlay edgeLoopback : string) : list ExternalRoute :=
  if decide (edgeLoopback = "") then []
  else [mkExternal PublicVNI "0.0.0.0/0" underlay true; mkExternal PublicVNI nat64WellKnownPrefix underlay true;
        mkExternal PublicVNI "::/0" underlay true].

(** The host routes of the attached interfaces; an address that is none is an
    error. *)
Definition host_routes (underlay : string) (locals : list LocalInterface) : option (list Route) :=
  mapM (fun '(li, ip) => prefix ← hostPrefix ip; Some (mkRoute (li_Vni li) prefix (nexthop_of underlay li) false (li_Vni li)))
    (addresses locals).

(** One NAT source: programmed first, announced only if that succeeded. *)
Definition nat_source (vni : Z) (ulByKey : gmap ipKey string) (src : CompiledNATSource) (acc : list NatBlock) : RM (list NatBlock) := fun r d =>
  match ulByKey !! (vni, SourceIP src) with
  | None => (r, d, Some acc)
  | Some owner =>
      if vni =? 0 then (r, d, Some acc)
      else
        let portMaxExcl := u32 (u32 (ns_PortMax src) + 1) in
        let '(d, ok) := if rc_dp r then AddNatSource vni (SourceIP src) (NATIP src) (u32 (ns_PortMin src)) portMaxExcl d else (d, true) in
        if ok
        then (r, d, Some (acc ++ [mkNatBlock vni (SourceIP src) (NATIP src) (u32 (ns_PortMin src)) portMaxExcl owner]))
        else (r, d, Some acc)
  end.

(** A loop that carries a value. *)
Fixpoint loop {A B : Type} (f : A → B → RM B) (l : list A) (b : B) : RM B :=
  match l with
  | [] => ret b
  | a :: l => b ←r f a b; loop f l b
  end.

Definition nic_nats (ulByKey : gmap ipKey string) (local : gset ipKey) (c : CompiledNIC) (acc : list NatBlock) : RM (list NatBlock) :=
  if negb (localNIC c local) then ret acc
  else loop (nat_source (u32 (VNI c)) ulByKey) (NAT c) acc.

Definition lb_routes (lbs : list lbBacking) : option (list Route) :=
  mapM (fun lb => prefix ← hostPrefix (bk_IP lb); Some (mkRoute (bk_Vni lb) prefix (NicUnderlay lb) false (bk_Vni lb))) lbs.

(** The peers' VNIs joined to the subscriptions. *)
Definition peer_vnis (imports : gmap Z (list PeerImport)) : list Z :=
  List.filter (fun v => negb (v =? 0)) (range_map imports ≫= fun kl => pi_PeerVNI <$> kl.2).

Record Desired := mkDesiredResult {
  d_subs : list Z;
  d_announce : list Route;
  d_announceNat : list NatBlock;
  d_egressVNIs : list Z;
  d_peeringImports : gmap Z (list PeerImport)
}.

Definition DesiredOf : RM Desired :=
  locals ←r listLocalIfaces;
  u ←r ask rc_underlay;
  let ulByKey := by_key (nexthop_of u) locals in
  let local := localSet_of locals in
  hosts ←r lift (host_routes u locals);
  cnics ←r listCNICs;
  nats ←r loop (nic_nats ulByKey local) cnics [];
  edge ←r ask rc_edgeLoopback;
  let ext := DesiredExternalRoutes u edge in
  lbs ←r desiredLB ulByKey local;
  lbr ←r lift (lb_routes lbs);
  egress ←r desiredEgressVNIs;
  imports ←r desiredPeeringImports;
  let ext_routes := (fun x => mkRoute (x_Vni x) (x_Prefix x) (x_Nexthop x) (x_External x) (x_Vni x)) <$> ext in
  let vnis : gset Z :=
    list_to_set (PublicVNI :: List.filter (fun v => negb (v =? 0)) (li_Vni <$> locals) ++ (x_Vni <$> ext) ++ peer_vnis imports) in
  ret (mkDesiredResult (merge_sort Z.le (range_set vnis)) (hosts ++ ext_routes ++ lbr) nats egress imports).

Definition lb_records (lbs : list lbBacking) : option (list PublicPrefix) :=
  mapM (fun lb => prefix ← hostPrefix (bk_IP lb);
    Some (mkPublicPrefix PUBLIC_KIND_LB_IP prefix (NicUnderlay lb) (bk_Vni lb) 0 0 (bk_OverlayIP lb) (bk_Ports lb))) lbs.

Definition DesiredPublic : RM (list PublicPrefix) :=
  edge ←r ask rc_edgeLoopback;
  u ←r ask rc_underlay;
  let recs := if decide (edge = "") then []
              else [mkPublicPrefix PUBLIC_KIND_EDGE_UNDERLAY (u +:+ "/128") edge 0 0 0 "" []] in
  ul ←r underlayByKey;
  lbs ←r desiredLB ul.1 ul.2;
  more ←r lift (lb_records lbs);
  ret (recs ++ more).

(** *** Firewall *)

Definition nic_rules (ifaceByKey : gmap ipKey string) (local : gset ipKey) (desired : gmap string (list FwRuleWithID)) (c : CompiledNIC)
    : gmap string (list FwRuleWithID) :=
  if negb (localNIC c local) then desired
  else match first_known c ifaceByKey with
       | None => desired
       | Some (_, iface) =>
           if decide (iface = "") then desired
           else <[iface := default [] (desired !! iface) ++ rules_of (Firewall c)]> desired
       end.

(** The calls; an error is collected and the loop goes on. *)
Fixpoint push_rules (l : list (string * list FwRuleWithID)) (ok : bool) (d : D) : D * bool :=
  match l with
  | [] => (d, ok)
  | (iface, rules) :: l => let '(d, ok') := ReplaceInterfaceFirewall iface rules d in push_rules l (ok && ok') d
  end.

Definition ReconcileFirewall : RM unit := fun r d =>
  if negb (rc_dp r) then (r, d, Some tt)
  else bind interfaceIDByKey (fun ids => bind listCNICs (fun cnics r d =>
    let desired := foldl (nic_rules ids.1 ids.2) ∅ cnics in
    let '(d, ok) := push_rules (range_map desired) true d in
    (r, d, if ok then Some tt else None))) r d.

(** *** QoS *)

Definition qosCapsFromCompiled (q : option CompiledQoS) : compiledQoSCaps :=
  match q with
  | None => mkCaps 0 0 0
  | Some q => mkCaps (q_EgressMbps q) (q_PublicMbps q) (q_IngressMbps q)
  end.

Definition add_caps (ifaceByKey : gmap ipKey string) (local : gset ipKey) (desired : gmap string compiledQoSCaps) (c : CompiledNIC)
    : gmap string compiledQoSCaps :=
  if bool_decide (QoS c = None) || negb (localNIC c local) then desired
  else match first_known c ifaceByKey with
       | None => desired
       | Some (_, iface) => if decide (iface = "") then desired else <[iface := qosCapsFromCompiled (QoS c)]> desired
       end.

(** The two loops, over the interfaces ranged in [l]. *)
Fixpoint clear_qos (desired : gmap string compiledQoSCaps) (l : list string) (applied : gmap string compiledQoSCaps) (ok : bool) (d : D)
    : gmap string compiledQoSCaps * bool * D :=
  match l with
  | [] => (applied, ok, d)
  | iface :: l =>
      if bool_decide (is_Some (desired !! iface)) then clear_qos desired l applied ok d
      else let '(d, ok') := ConfigureQoS iface (mkCaps 0 0 0) d in
           clear_qos desired l (if ok' then delete iface applied else applied) (ok && ok') d
  end.

Fixpoint push_qos (l : list (string * compiledQoSCaps)) (applied : gmap string compiledQoSCaps) (ok : bool) (d : D)
    : gmap string compiledQoSCaps * bool * D :=
  match l with
  | [] => (applied, ok, d)
  | (iface, caps) :: l =>
      if bool_decide (applied !! iface = Some caps) then push_qos l applied ok d
      else let '(d, ok') := ConfigureQoS iface caps d in
           push_qos l (if ok' then <[iface := caps]> applied else applied) (ok && ok') d
  end.

Definition ReconcileQoS : RM unit := fun r d =>
  if negb (rc_dp r) then (r, d, Some tt)
  else bind interfaceIDByKey (fun ids => bind listCNICs (fun cnics r d =>
    let desired := foldl (add_caps ids.1 ids.2) ∅ cnics in
    let '(applied, ok, d) := clear_qos desired (range_map (appliedQoS r)).*1 (appliedQoS r) true d in
    let '(applied, ok, d) := push_qos (range_map desired) applied ok d in
    (set_applied applied r, d, if ok then Some tt else None))) r d.

(** *** A tick *)

(** Its error is logged. *)
Definition logged (m : RM unit) : RM unit := fun r d => let '(r, d, _) := m r d in (r, d, Some tt).

(** The closure of [main]; stamping the node's prefix is left out. *)
Definition reconcile : RM DesiredState := fun r d =>
  let '(r, d, res) :=
    bind DesiredOf (fun des =>
    bind (logged ReconcileFirewall) (fun _ =>
    bind (logged ReconcileQoS) (fun _ =>
    bind DesiredPublic (fun pubs =>
    ret (mkDesired (d_subs des) (d_announce des) (d_announceNat des) pubs (d_egressVNIs des) (d_peeringImports des)))))) (BeginTick r) d in
  (EndTick r, d, res).

End reconciler.

End reconciler.
