(* ===== verification/ReconcilerTheorems.v ===== *)
(** * The reconciler: what a tick guarantees

    What a node announces is exactly what is attached, and consistent where its
    interfaces agree on one underlay, a NAT block is announced
    only after the local dataplane holds it, the subscriptions are exactly those
    needed, and the QoS programmed follows the CompiledNICs as long as interfaces
    are not detached. *)

From S2P Require Import Prelude Net Wire Rib Server Desired Dataplane Bus Firewall FwPath Reconciler.
Import fwreconcile reconciler.

Open Scope Z_scope.

(** What the reconciler relies on: a call changes what it is for, on its own key
    where it fails. *)
Class NodeLaws (D : Type) `{NodeDataplane D} := {
  snat : D → gmap ipKey (string * Z * Z);
  qos : D → gmap string compiledQoSCaps;
  snat_add vni src nat lo hi d d' : AddNatSource vni src nat lo hi d = (d', true) → snat d' = <[(vni, src) := (nat, lo, hi)]> (snat d);
  snat_add_other vni src nat lo hi d d' ok k :
    AddNatSource vni src nat lo hi d = (d', ok) → k ≠ (vni, src) → snat d' !! k = snat d !! k;
  snat_firewall i rs d : snat (ReplaceInterfaceFirewall i rs d).1 = snat d;
  snat_qos i q d : snat (ConfigureQoS i q d).1 = snat d;
  qos_configure i q d d' :
    ConfigureQoS i q d = (d', true) → qos d' = if decide (q = mkCaps 0 0 0) then delete i (qos d) else <[i := q]> (qos d);
  qos_configure_other i q d d' ok j : ConfigureQoS i q d = (d', ok) → j ≠ i → qos d' !! j = qos d !! j
}.

Section tick.
Context {ro : RangeOrder} {D : Type} {ND : NodeDataplane D}.
Context (api : option (list CompiledNIC)).
Implicit Types (r : Reconciler) (d : D) (c : CompiledNIC).

(** ** The monad and the reads *)

Lemma bind_Some_inv {A B : Type} (m : RM A) (k : A → RM B) r d r' d' b :
  bind m k r d = (r', d', Some b) → ∃ r1 d1 a, m r d = (r1, d1, Some a) ∧ k a r1 d1 = (r', d', Some b).
Proof. unfold bind. destruct (m r d) as [[r1 d1] [a|]] eqn:E; [|done]. eauto 10. Qed.

Definition same_config r r' : Prop :=
  rc_client r' = rc_client r ∧ rc_underlay r' = rc_underlay r ∧ rc_edgeLoopback r' = rc_edgeLoopback r ∧ rc_dp r' = rc_dp r ∧
  appliedQoS r' = appliedQoS r.

Lemma same_config_trans r1 r2 r3 : same_config r1 r2 → same_config r2 r3 → same_config r1 r3.
Proof. intros (?&?&?&?&?) (?&?&?&?&?). split_and!; congruence. Qed.

(** Within a tick the reads are settled once made. *)
Definition loc_is r (l : list LocalInterface) : Prop :=
  ∃ t, tick r = Some t ∧ if haveLoc t then sn_locals t = l else rc_dp r = false ∧ l = [].
Definition cnic_is r (l : list CompiledNIC) : Prop :=
  ∃ t, tick r = Some t ∧ if haveCNICs t then sn_cnics t = l else rc_client r = false ∧ l = [].

Definition read_locals r d : option (list LocalInterface) := if rc_dp r then ListLocal d else Some [].
Definition read_cnics r : option (list CompiledNIC) := if rc_client r then api else Some [].

Lemma loc_again r d l : loc_is r l → listLocalIfaces r d = (r, d, Some l).
Proof.
  intros (t & Ht & H). unfold listLocalIfaces. rewrite Ht. destruct (haveLoc t); [by rewrite H|]. destruct H as [-> ->]. done.
Qed.

Lemma cnic_again r d l : cnic_is r l → listCNICs api r d = (r, d, Some l).
Proof.
  intros (t & Ht & H). unfold listCNICs. rewrite Ht. destruct (haveCNICs t); [by rewrite H|]. destruct H as [-> ->]. done.
Qed.

Lemma loc_read r d r' d' l t :
  tick r = Some t → haveLoc t = false → listLocalIfaces r d = (r', d', Some l) →
  d' = d ∧ loc_is r' l ∧ same_config r r' ∧ read_locals r d = Some l ∧ (∃ t', tick r' = Some t' ∧ haveCNICs t' = haveCNICs t).
Proof.
  intros Ht Hh. unfold listLocalIfaces, read_locals, loc_is. rewrite Ht, Hh. destruct (rc_dp r) eqn:Ed; cbn [negb].
  - destruct (ListLocal d) as [l'|]; [|done]. intros [= <- <- <-]. cbn. split_and!; try done; eexists; by split.
  - intros [= <- <- <-]. split_and!; try done; exists t; rewrite ?Hh; by split.
Qed.

Lemma cnic_read r d r' d' l t :
  tick r = Some t → haveCNICs t = false → listCNICs api r d = (r', d', Some l) →
  d' = d ∧ cnic_is r' l ∧ same_config r r' ∧ read_cnics r = Some l ∧ (∀ k, loc_is r k → loc_is r' k).
Proof.
  intros Ht Hh. unfold listCNICs, read_cnics, cnic_is, loc_is. rewrite Ht, Hh. destruct (rc_client r) eqn:Ec; cbn [negb].
  - destruct api as [l'|]; [|done]. intros [= <- <- <-]. cbn. split_and!; try done; [eexists; by split|].
    intros k (t' & [= <-] & Hk). eexists. split; [done|]. by destruct t.
  - intros [= <- <- <-]. split_and!; try done; [exists t; rewrite Hh; by split|]. rewrite Ht. eauto.
Qed.

(** ** What [Desired] returns *)

(** The NAT loop changes the dataplane alone. *)
Lemma nat_source_reconciler vni ul src acc r d : ∃ d' acc', nat_source vni ul src acc r d = (r, d', Some acc').
Proof.
  unfold nat_source. destruct (ul !! _); [|eauto]. destruct (vni =? 0); [eauto|].
  destruct (if rc_dp r then _ else _) as [d' []]; eauto.
Qed.

Lemma loop_reconciler {A B : Type} (f : A → B → RM B) (l : list A) b r d :
  (∀ a b d, ∃ d' b', f a b r d = (r, d', Some b')) → ∃ d' b', loop f l b r d = (r, d', Some b').
Proof.
  intros Hf. revert b d. induction l as [|a l IH]; intros b d; cbn; [by eexists _, _|]. unfold bind.
  destruct (Hf a b d) as (d1 & b1 & ->). apply IH.
Qed.

Lemma nic_nats_reconciler ul local c acc r d : ∃ d' acc', nic_nats ul local c acc r d = (r, d', Some acc').
Proof.
  unfold nic_nats. destruct (negb _); [by eexists _, _|]. apply loop_reconciler. intros. apply nat_source_reconciler.
Qed.

Lemma underlayByKey_again r d l : loc_is r l → underlayByKey r d = (r, d, Some (by_key (nexthop_of (rc_underlay r)) l, localSet_of l)).
Proof. intros Hl. unfold underlayByKey, bind. rewrite (loc_again r d l Hl). done. Qed.

(** A tick that returns read the interfaces and the NICs once; what it returns is
    a function of the two. *)
Record ticked r d (r' : Reconciler) (d' : D) (des : Desired) (locals : list LocalInterface) (cnics : list CompiledNIC)
    (hosts lbr : list Route) (nats : list NatBlock) : Prop := {
  tk_locals : read_locals r d = Some locals;
  tk_cnics : read_cnics r = Some cnics;
  tk_config : same_config r r';
  tk_loc : loc_is r' locals;
  tk_cnic : cnic_is r' cnics;
  tk_hosts : host_routes (rc_underlay r) locals = Some hosts;
  tk_lbr : lb_routes (cnics ≫= nic_backings (by_key (nexthop_of (rc_underlay r)) locals) (localSet_of locals)) = Some lbr;
  tk_nats : ∃ r1, same_config r r1 ∧
    loop (nic_nats (by_key (nexthop_of (rc_underlay r)) locals) (localSet_of locals)) cnics [] r1 d = (r1, d', Some nats);
  tk_announce : d_announce des = hosts ++
    ((fun x => mkRoute (x_Vni x) (x_Prefix x) (x_Nexthop x) (x_External x) (x_Vni x)) <$> DesiredExternalRoutes (rc_underlay r) (rc_edgeLoopback r)) ++ lbr;
  tk_announceNat : d_announceNat des = nats;
  tk_imports : d_peeringImports des = imports_of <$> foldl (add_imports (localSet_of locals)) ∅ cnics;
  tk_subs : d_subs des = merge_sort Z.le (range_set (list_to_set (PublicVNI :: List.filter (fun v => negb (v =? 0)) (li_Vni <$> locals) ++
    (x_Vni <$> DesiredExternalRoutes (rc_underlay r) (rc_edgeLoopback r)) ++ peer_vnis (d_peeringImports des)) : gset Z))
}.

Lemma DesiredOf_ticked r d r' d' des :
  tick r = Some (mkSnapshot [] false [] false) → DesiredOf api r d = (r', d', Some des) →
  ∃ locals cnics hosts lbr nats, ticked r d r' d' des locals cnics hosts lbr nats.
Proof.
  intros Ht. unfold DesiredOf. intros (r1 & d1 & locals & E1 & H)%bind_Some_inv.
  destruct (loc_read _ _ _ _ _ _ Ht eq_refl E1) as (-> & Hl1 & Hc1 & Hrl & t1 & Ht1 & Hh1). cbn in Hh1.
  apply bind_Some_inv in H as (r2 & d2 & u & [= <- <- <-] & H). destruct Hc1 as (Hc1a & Hc1b & Hc1c & Hc1d & Hc1e). rewrite Hc1b in *.
  apply bind_Some_inv in H as (r2 & d2 & hosts & E2 & H). injection E2 as <- <- Hhosts.
  apply bind_Some_inv in H as (r2 & d2 & cnics & E2 & H).
  destruct (cnic_read _ _ _ _ _ _ Ht1 Hh1 E2) as (-> & Hn2 & Hc2 & Hrc & Hkeep). pose proof (Hkeep _ Hl1) as Hl2.
  apply bind_Some_inv in H as (r3 & d3 & nats & E3 & H).
  assert (r3 = r2) as ->.
  { destruct (loop_reconciler (nic_nats (by_key (nexthop_of (rc_underlay r)) locals) (localSet_of locals)) cnics [] r2 d) as (dx & bx & Ex);
      [intros; apply nic_nats_reconciler|]. congruence. }
  destruct Hc2 as (Hc2a & Hc2b & Hc2c & Hc2d & Hc2e).
  apply bind_Some_inv in H as (r4 & d4 & edge & [= <- <- <-] & H).
  unfold desiredLB in H. apply bind_Some_inv in H as (r4 & d4 & lbs & E4 & H). unfold bind in E4. rewrite (cnic_again _ _ _ Hn2) in E4. injection E4 as <- <- <-.
  apply bind_Some_inv in H as (r4 & d4 & lbr & E4 & H). injection E4 as <- <- Hlbr.
  apply bind_Some_inv in H as (r4 & d4 & egress & E4 & H).
  unfold desiredEgressVNIs, bind in E4. rewrite (underlayByKey_again _ _ _ Hl2), (cnic_again _ _ _ Hn2) in E4. injection E4 as <- <- <-.
  apply bind_Some_inv in H as (r4 & d4 & imports & E4 & H).
  unfold desiredPeeringImports, bind in E4. rewrite (underlayByKey_again _ _ _ Hl2), (cnic_again _ _ _ Hn2) in E4. injection E4 as <- <- <-.
  injection H as <- <- <-. exists locals, cnics, hosts, lbr, nats.
  assert (Hcfg : same_config r r2) by (split_and!; congruence).
  split; cbn [d_announce d_announceNat d_peeringImports d_subs]; try done.
  - unfold read_cnics in *. by rewrite Hc1a in Hrc.
  - exists r2. done.
  - rewrite Hc2c, Hc1c. done.
  - rewrite Hc2c, Hc1c. done.
Qed.

(** ** Announcements *)

(** A route as every tick announces it: by this node, in its own VNI. *)
Definition announced_by (u : string) (x : Route) : Prop :=
  r_Nexthop x = u ∧ r_DeliveryVNI x = r_Vni x ∧ r_External x = (r_Vni x =? PublicVNI).

Lemma announced_consistent u l : Forall (announced_by u) l → consistent route_ref l.
Proof.
  intros Hl v w Hv Hw Hk. rewrite Forall_forall in Hl. destruct (Hl v Hv) as (Hv1 & Hv2 & Hv3), (Hl w Hw) as (Hw1 & Hw2 & Hw3).
  unfold route_ref in Hk. destruct v, w; cbn in *. simplify_eq. congruence.
Qed.

(** Every interface reports the node's own underlay, or none yet. *)
Definition one_underlay r (locals : list LocalInterface) : Prop :=
  Forall (fun li => li_Underlay li = "" ∨ li_Underlay li = rc_underlay r) locals.

Lemma elem_of_addresses locals li ip : (li, ip) ∈ addresses locals ↔ li ∈ locals ∧ li_Vni li ≠ 0 ∧ ip ∈ li_OverlayIPs li.
Proof.
  unfold addresses. rewrite list_elem_of_bind. split.
  - intros (li' & Hin & Hl). destruct (Z.eqb_spec (li_Vni li') 0); [set_solver|].
    apply list_elem_of_fmap in Hin as (ip' & [= -> ->] & Hip). done.
  - intros (Hl & Hv & Hip). exists li. split; [|done]. destruct (Z.eqb_spec (li_Vni li) 0); [done|]. apply list_elem_of_fmap. eauto.
Qed.

Lemma nexthop_underlay r locals li : one_underlay r locals → li ∈ locals → nexthop_of (rc_underlay r) li = rc_underlay r.
Proof.
  unfold one_underlay. rewrite Forall_forall. intros Ho Hl. unfold nexthop_of. destruct (Ho li Hl) as [-> | ->]; [done|]. by destruct (decide _).
Qed.

Lemma by_key_Some {A : Type} (f : LocalInterface → A) locals k x :
  by_key f locals !! k = Some x → ∃ li ip, (li, ip) ∈ addresses locals ∧ k = (li_Vni li, ip) ∧ x = f li.
Proof.
  unfold by_key. induction (addresses locals) as [|[li ip] l IH] using rev_ind; cbn; [by rewrite lookup_empty|].
  rewrite foldl_app. cbn. intros [[<- <-]|[_ Hx]]%lookup_insert_Some.
  - exists li, ip. split_and!; [apply elem_of_app; right; by left|done|done].
  - destruct (IH Hx) as (li' & ip' & ? & ? & ?). exists li', ip'. split_and!; [apply elem_of_app; by left|done|done].
Qed.

Lemma first_known_Some {A : Type} (c : CompiledNIC) (m : gmap ipKey A) ip x : first_known c m = Some (ip, x) → ip ∈ OverlayIPs c ∧ m !! (u32 (VNI c), ip) = Some x.
Proof.
  unfold first_known. intros H%head_Some_elem_of. apply list_elem_of_omap in H as (ip' & Hip & (y & Hy & [= -> ->])%bind_Some). done.
Qed.

Lemma host_routes_spec u locals hosts :
  host_routes u locals = Some hosts →
  ∀ x, x ∈ hosts ↔ ∃ li ip prefix, (li, ip) ∈ addresses locals ∧ hostPrefix ip = Some prefix ∧
    x = mkRoute (li_Vni li) prefix (nexthop_of u li) false (li_Vni li).
Proof.
  unfold host_routes. intros Hm%mapM_Some_1 x. induction Hm as [|[li ip] y l k Hy _ IH]; [set_solver|].
  apply bind_Some in Hy as (prefix & Hp & [= <-]). rewrite elem_of_cons, IH. split.
  - intros [->|(li' & ip' & p' & Hin & Hp' & ->)]; [exists li, ip, prefix; set_solver|exists li', ip', p'; set_solver].
  - intros (li' & ip' & p' & [[= -> ->]|Hin]%elem_of_cons & Hp' & ->); [left; congruence|right; eauto 10].
Qed.

(** ** What is attached *)

(** An address of a VNI attached on the node, and a NIC one of whose addresses is. *)
Definition attached_at (locals : list LocalInterface) (k : ipKey) : Prop :=
  ∃ li ip, li ∈ locals ∧ li_Vni li ≠ 0 ∧ ip ∈ li_OverlayIPs li ∧ k = (li_Vni li, ip).
Definition attached_nic (locals : list LocalInterface) (c : CompiledNIC) : Prop :=
  ∃ ip, ip ∈ OverlayIPs c ∧ attached_at locals (u32 (VNI c), ip).

Lemma elem_of_localSet locals k : k ∈ localSet_of locals ↔ attached_at locals k.
Proof.
  unfold localSet_of, attached_at. rewrite elem_of_list_to_set, list_elem_of_fmap. split.
  - intros ([li ip] & -> & (? & ? & ?)%elem_of_addresses). eauto 10.
  - intros (li & ip & ? & ? & ? & ->). exists (li, ip). split; [done|]. by apply elem_of_addresses.
Qed.

Lemma by_key_attached {A : Type} (f : LocalInterface → A) locals k : is_Some (by_key f locals !! k) ↔ attached_at locals k.
Proof.
  split.
  - intros [x (li & ip & (? & ? & ?)%elem_of_addresses & -> & _)%by_key_Some]. exists li, ip. done.
  - intros (li & ip & Hl & Hv & Hip & ->). assert (Hin : (li, ip) ∈ addresses locals) by by apply elem_of_addresses.
    unfold by_key. clear Hl Hv Hip. induction (addresses locals) as [|[li' ip'] l IH] using rev_ind; [by apply elem_of_nil in Hin|].
    rewrite foldl_app. cbn. rewrite lookup_insert. destruct (decide _) as [|Hne]; [done|].
    apply IH. apply elem_of_app in Hin as [?|[= -> ->]%list_elem_of_singleton]; done.
Qed.

Lemma localNIC_attached locals c : localNIC c (localSet_of locals) = true ↔ attached_nic locals c.
Proof.
  unfold localNIC, any, attached_nic. rewrite existsb_exists. split.
  - intros (ip & Hip%list_elem_of_In & Hk%bool_decide_eq_true%elem_of_localSet). eauto.
  - intros (ip & Hip & Hk%elem_of_localSet). exists ip. split; [by apply list_elem_of_In|by apply bool_decide_eq_true].
Qed.

Lemma first_known_attached {A : Type} (f : LocalInterface → A) locals c :
  attached_nic locals c → is_Some (first_known c (by_key f locals)).
Proof.
  intros (ip & Hip & [x Hx]%(by_key_attached f)). unfold first_known. destruct (omap _ (OverlayIPs c)) as [|y l] eqn:E; [|done].
  exfalso. assert (Hin : (ip, x) ∈ omap (fun ip => x ← by_key f locals !! (u32 (VNI c), ip); Some (ip, x)) (OverlayIPs c)).
  { apply list_elem_of_omap. exists ip. split; [done|]. apply bind_Some. by exists x. }
  rewrite E in Hin. by apply elem_of_nil in Hin.
Qed.

(** Where a load balancer of a NIC is announced at: the underlay of the interface
    that holds the first attached address of the NIC. *)
Definition backs (u : string) (locals : list LocalInterface) (c : CompiledNIC) (ip ul : string) : Prop :=
  first_known c (by_key (nexthop_of u) locals) = Some (ip, ul).

Lemma backs_attached u locals c ip ul : backs u locals c ip ul → attached_nic locals c ∧ ∃ li, li ∈ locals ∧ ul = nexthop_of u li.
Proof.
  intros [Hip Hk]%first_known_Some. split; [exists ip; split; [done|]; apply (by_key_attached (nexthop_of u)); eauto|].
  apply by_key_Some in Hk as (li & ip' & (Hl & _)%elem_of_addresses & _ & ->). eauto.
Qed.

(** The backings of a node: one per load balancer of every attached NIC. *)
Lemma backings_elem u locals cnics (Q : string → Z → string → Prop) :
  (∃ b, b ∈ (cnics ≫= nic_backings (by_key (nexthop_of u) locals) (localSet_of locals)) ∧ Q (bk_IP b) (bk_Vni b) (NicUnderlay b)) ↔
  ∃ c lb ip ul, c ∈ cnics ∧ backs u locals c ip ul ∧ ul ≠ "" ∧ lb ∈ LB c ∧ Q (lb_IP lb) (u32 (VNI c)) ul.
Proof.
  split.
  - intros (b & (c & Hin & Hc)%list_elem_of_bind & HQ). unfold nic_backings in Hin.
    destruct (localNIC c (localSet_of locals)); cbn [negb orb] in Hin; [|set_solver].
    destruct (bool_decide _); [set_solver|]. destruct (first_known c _) as [[ip ul]|] eqn:Ef; [|set_solver].
    destruct (decide (ul = "")); [set_solver|]. apply list_elem_of_fmap in Hin as (lb & -> & Hlb). exists c, lb, ip, ul. done.
  - intros (c & lb & ip & ul & Hc & Hb & Hul & Hlb & HQ). eexists. split; [apply list_elem_of_bind; exists c; split; [|done]|].
    { unfold nic_backings. rewrite (proj2 (localNIC_attached locals c)) by by eapply backs_attached. cbn [negb orb].
      rewrite bool_decide_eq_false_2 by (intros E; rewrite E in Hlb; by apply elem_of_nil in Hlb).
      rewrite Hb, decide_False by done. apply list_elem_of_fmap. exists lb. done. }
    exact HQ.
Qed.

(** The load balancer routes of a node. *)
Lemma lb_routes_spec u locals cnics lbr :
  lb_routes (cnics ≫= nic_backings (by_key (nexthop_of u) locals) (localSet_of locals)) = Some lbr →
  ∀ x, x ∈ lbr ↔ ∃ c lb ip ul, c ∈ cnics ∧ backs u locals c ip ul ∧ ul ≠ "" ∧ lb ∈ LB c ∧
    ∃ p, hostPrefix (lb_IP lb) = Some p ∧ x = mkRoute (u32 (VNI c)) p ul false (u32 (VNI c)).
Proof.
  intros Hm%mapM_Some_1 x.
  rewrite <-(backings_elem u locals cnics (fun a v ul => ∃ p, hostPrefix a = Some p ∧ x = mkRoute v p ul false v)). split.
  - intros Hx. apply list_elem_of_lookup in Hx as [i Hi]. destruct (Forall2_lookup_r _ _ _ _ _ Hm Hi) as (b & Hbi & (p & Hp & [= <-])%bind_Some).
    exists b. split; [by eapply list_elem_of_lookup_2|]. by exists p.
  - intros (b & Hb & p & Hp & ->). apply list_elem_of_lookup in Hb as [i Hi].
    destruct (Forall2_lookup_l _ _ _ _ _ Hm Hi) as (y & Hy & (p' & Hp' & [= <-])%bind_Some). apply list_elem_of_lookup_2 in Hy. congruence.
Qed.

Lemma attached_nic_vni locals c : attached_nic locals c → u32 (VNI c) ≠ 0.
Proof. intros (ip & _ & li & ip' & _ & Hv & _ & [= -> _]). done. Qed.

Lemma lb_routes_announced r locals cnics lbr :
  one_underlay r locals →
  lb_routes (cnics ≫= nic_backings (by_key (nexthop_of (rc_underlay r)) locals) (localSet_of locals)) = Some lbr →
  Forall (announced_by (rc_underlay r)) lbr.
Proof.
  intros Ho Hm. apply Forall_forall. intros x (c & lb & ip & ul & _ & Hb & _ & _ & p & _ & ->)%(lb_routes_spec _ _ _ _ Hm).
  apply backs_attached in Hb as (Ha & li & Hl & ->).
  split_and!; cbn; [by eapply nexthop_underlay|done|]. symmetry. by apply Z.eqb_neq, (attached_nic_vni locals).
Qed.

Lemma ticked_announced r d r' d' des locals cnics hosts lbr nats :
  ticked r d r' d' des locals cnics hosts lbr nats → one_underlay r locals → Forall (announced_by (rc_underlay r)) (d_announce des).
Proof.
  intros [] Ho. rewrite tk_announce0. rewrite !Forall_app. split_and!.
  - apply Forall_forall. intros x (li & ip & prefix & (Hl & Hv & _)%elem_of_addresses & _ & ->)%(host_routes_spec _ _ _ tk_hosts0).
    split_and!; cbn; [by eapply nexthop_underlay|done|]. symmetry. by apply Z.eqb_neq.
  - unfold DesiredExternalRoutes. destruct (decide _); cbn; [constructor|]. rewrite !Forall_cons, Forall_nil. done.
  - by eapply lb_routes_announced.
Qed.

(** ** The dataplane *)

Context {NL : NodeLaws D}.

(** The reads leave the dataplane alone. *)
Lemma listLocalIfaces_dp r d : (listLocalIfaces r d).1.2 = d.
Proof. unfold listLocalIfaces. repeat case_match; done. Qed.

Lemma listCNICs_dp r d : (listCNICs api r d).1.2 = d.
Proof. unfold listCNICs. repeat case_match; done. Qed.

(** What a method keeps of the dataplane: [P] holds of every result. *)
Definition keeps {A : Type} (m : RM A) : Prop := ∀ r d, snat (m r d).1.2 = snat d.

Lemma keeps_bind {A B : Type} (m : RM A) (k : A → RM B) : keeps m → (∀ a, keeps (k a)) → keeps (bind m k).
Proof. intros Hm Hk r d. unfold bind. specialize (Hm r d). destruct (m r d) as [[r1 d1] [a|]]; cbn in *; [by rewrite Hk|done]. Qed.

Lemma keeps_locals : keeps listLocalIfaces.
Proof. intros r d. by rewrite listLocalIfaces_dp. Qed.

Lemma keeps_cnics : keeps (listCNICs api).
Proof. intros r d. by rewrite listCNICs_dp. Qed.

Lemma keeps_ids : keeps interfaceIDByKey.
Proof. apply keeps_bind; [apply keeps_locals|]. intros l r d. done. Qed.

Lemma push_rules_snat l ok d : snat (push_rules l ok d).1 = snat d.
Proof.
  revert ok d. induction l as [|[i rs] l IH]; intros ok d; [done|]. cbn. pose proof (snat_firewall i rs d) as Hs.
  destruct (ReplaceInterfaceFirewall i rs d) as [d1 ok1]. cbn in Hs. by rewrite IH.
Qed.

Lemma clear_qos_snat desired l applied ok d : snat (clear_qos desired l applied ok d).2 = snat d.
Proof.
  revert applied ok d. induction l as [|i l IH]; intros applied ok d; [done|]. cbn. destruct (bool_decide _); [apply IH|].
  pose proof (snat_qos i (mkCaps 0 0 0) d) as Hs. destruct (ConfigureQoS i (mkCaps 0 0 0) d) as [d1 ok1]. cbn in Hs. by rewrite IH.
Qed.

Lemma push_qos_snat l applied ok d : snat (push_qos l applied ok d).2 = snat d.
Proof.
  revert applied ok d. induction l as [|[i q] l IH]; intros applied ok d; [done|]. cbn. destruct (bool_decide _); [apply IH|].
  pose proof (snat_qos i q d) as Hs. destruct (ConfigureQoS i q d) as [d1 ok1]. cbn in Hs. by rewrite IH.
Qed.

Lemma keeps_firewall : keeps (logged (ReconcileFirewall api)).
Proof.
  intros r d. unfold logged, ReconcileFirewall. destruct (rc_dp r); [|done]. cbn [negb].
  match goal with |- context [bind interfaceIDByKey ?k r d] => assert (Hk : keeps (bind interfaceIDByKey k)) end.
  { apply keeps_bind; [apply keeps_ids|]. intros ids. apply keeps_bind; [apply keeps_cnics|]. intros cnics r1 d1.
    pose proof (push_rules_snat (range_map (foldl (nic_rules ids.1 ids.2) ∅ cnics)) true d1) as Hp.
    destruct (push_rules _ true d1) as [d2 ok]. done. }
  specialize (Hk r d). destruct (bind _ _ r d) as [[r1 d1] o]. done.
Qed.

Lemma keeps_qos : keeps (logged (ReconcileQoS api)).
Proof.
  intros r d. unfold logged, ReconcileQoS. destruct (rc_dp r); [|done]. cbn [negb].
  match goal with |- context [bind interfaceIDByKey ?k r d] => assert (Hk : keeps (bind interfaceIDByKey k)) end.
  { apply keeps_bind; [apply keeps_ids|]. intros ids. apply keeps_bind; [apply keeps_cnics|]. intros cnics r1 d1.
    pose proof (clear_qos_snat (foldl (add_caps ids.1 ids.2) ∅ cnics) (range_map (appliedQoS r1)).*1 (appliedQoS r1) true d1) as Hc.
    destruct (clear_qos _ _ _ true d1) as [[applied ok] d2]. cbn in Hc.
    pose proof (push_qos_snat (range_map (foldl (add_caps ids.1 ids.2) ∅ cnics)) applied ok d2) as Hp.
    destruct (push_qos _ applied ok d2) as [[applied' ok'] d3]. cbn in *. congruence. }
  specialize (Hk r d). destruct (bind _ _ r d) as [[r1 d1] o]. done.
Qed.

Lemma keeps_public : keeps (DesiredPublic api).
Proof.
  unfold DesiredPublic, underlayByKey, desiredLB.
  repeat first [apply keeps_locals | apply keeps_cnics | apply keeps_bind | intros ?]; done.
Qed.

(** A tick that returns is one that [DesiredOf_ticked] describes; what follows
    it keeps the NAT sources. *)
Lemma reconcile_ticked r d r' d' st :
  reconcile api r d = (r', d', Some st) →
  ∃ r1 d1 des locals cnics hosts lbr nats, ticked (BeginTick r) d r1 d1 des locals cnics hosts lbr nats ∧
    Routes st = d_announce des ∧ Nats st = d_announceNat des ∧ Subs st = d_subs des ∧ PeeringImports st = d_peeringImports des ∧
    snat d' = snat d1.
Proof.
  unfold reconcile. set (m := bind (DesiredOf api) _). destruct (m (BeginTick r) d) as [[r0 d0] o] eqn:E. intros [= _ -> ->].
  apply bind_Some_inv in E as (r1 & d1 & des & E1 & E2).
  destruct (DesiredOf_ticked (BeginTick r) _ _ _ _ eq_refl E1) as (locals & cnics & hosts & lbr & nats & Ht).
  exists r1, d1, des, locals, cnics, hosts, lbr, nats. split; [done|].
  apply bind_Some_inv in E2 as (r2 & d2 & [] & E2 & E3). apply bind_Some_inv in E3 as (r3 & d3 & [] & E3 & E4).
  apply bind_Some_inv in E4 as (r4 & d4 & pubs & E4 & [= <- <- <-]).
  pose proof (keeps_firewall r1 d1) as K1. rewrite E2 in K1. pose proof (keeps_qos r2 d2) as K2. rewrite E3 in K2.
  pose proof (keeps_public r3 d3) as K3. rewrite E4 in K3. cbn in *. split_and!; congruence.
Qed.

(** ** NAT sources *)

Definition snat_key (b : NatBlock) : ipKey := (nb_Vni b, nb_SourceIP b).
Definition source_key (s : Z * CompiledNATSource) : ipKey := (s.1, SourceIP s.2).
Definition programmed_nat d (b : NatBlock) : Prop := snat d !! snat_key b = Some (nb_NatIP b, nb_PortMin b, nb_PortMax b).

(** The block of a source, its last port made exclusive. *)
Definition block_for (s : Z * CompiledNATSource) (owner : string) : NatBlock :=
  mkNatBlock s.1 (SourceIP s.2) (NATIP s.2) (u32 (ns_PortMin s.2)) (u32 (u32 (ns_PortMax s.2) + 1)) owner.

(** The sources of the attached NICs, in the order they are visited. *)
Definition sources (local : gset ipKey) (cnics : list CompiledNIC) : list (Z * CompiledNATSource) :=
  cnics ≫= fun c => if localNIC c local then (fun s => (u32 (VNI c), s)) <$> NAT c else [].

Lemma loop_app {A B : Type} (f : A → B → RM B) (l k : list A) b r d : loop f (l ++ k) b r d = bind (loop f l b) (loop f k) r d.
Proof.
  revert b r d. induction l as [|a l IH]; intros b r d; [done|]. cbn. unfold bind at 1 2.
  destruct (f a b r d) as [[r1 d1] [b1|]] eqn:E; cbn; unfold bind at 1; rewrite ?E; [|done]. apply IH.
Qed.

Lemma loop_sources (ul : gmap ipKey string) local cnics acc r d :
  loop (nic_nats ul local) cnics acc r d = loop (fun s => nat_source s.1 ul s.2) (sources local cnics) acc r d.
Proof.
  revert acc r d. induction cnics as [|c cnics IH]; intros acc r d; [done|]. unfold sources. cbn [mbind list_bind]. rewrite loop_app.
  cbn [loop]. unfold bind at 1 2.
  assert (Hc : nic_nats ul local c acc r d =
    loop (fun s => nat_source s.1 ul s.2) (if localNIC c local then (fun s => (u32 (VNI c), s)) <$> NAT c else []) acc r d).
  { unfold nic_nats. destruct (localNIC c local); cbn [negb]; [|done]. generalize (NAT c) as l. intros l. revert acc r d.
    induction l as [|s l IHl]; intros acc r d; [done|]. cbn. unfold bind. destruct (nat_source _ _ _ _ r d) as [[r1 d1] [b1|]]; [|done]. apply IHl. }
  rewrite Hc. destruct (loop _ (if localNIC c local then _ else _) acc r d) as [[r1 d1] [b1|]]; [apply IH|done].
Qed.

(** One source: announced when the dataplane took it, else only its own key may
    have changed. *)
Lemma nat_source_spec (vni : Z) (ul : gmap ipKey string) (src : CompiledNATSource) acc r d r' d' acc' :
  rc_dp r = true → nat_source vni ul src acc r d = (r', d', Some acc') →
  r' = r ∧ (∀ k, k ≠ (vni, SourceIP src) → snat d' !! k = snat d !! k) ∧
  (acc' = acc ∨ ∃ owner, ul !! (vni, SourceIP src) = Some owner ∧ acc' = acc ++ [block_for (vni, src) owner] ∧
    programmed_nat d' (block_for (vni, src) owner)) ∧
  ((∀ v s n lo hi d, (AddNatSource v s n lo hi d).2 = true) → vni ≠ 0 →
    ∀ owner, ul !! (vni, SourceIP src) = Some owner → acc' = acc ++ [block_for (vni, src) owner]).
Proof.
  intros Hd. unfold nat_source. destruct (ul !! (vni, SourceIP src)) as [owner|]; [|intros [= <- <- <-]; split_and!; auto; done].
  destruct (Z.eqb_spec vni 0); [intros [= <- <- <-]; split_and!; auto; done|]. rewrite Hd.
  destruct (AddNatSource _ _ _ _ _ d) as [d1 ok] eqn:E.
  destruct ok; intros [= <- <- <-].
  - split_and!; [done|intros k; by apply (snat_add_other _ _ _ _ _ _ _ _ _ E)| |by intros _ _ o [= <-]].
    right. exists owner. split_and!; [done|done|]. unfold programmed_nat, snat_key, block_for. cbn. rewrite (snat_add _ _ _ _ _ _ _ E). apply lookup_insert_eq.
  - split_and!; [done|intros k; by apply (snat_add_other _ _ _ _ _ _ _ _ _ E)|by left|].
    intros Hall. specialize (Hall vni (SourceIP src) (NATIP src) (u32 (ns_PortMin src)) (u32 (u32 (ns_PortMax src) + 1)) d). by rewrite E in Hall.
Qed.

Lemma nats_loop (ul : gmap ipKey string) (l : list (Z * CompiledNATSource)) acc r d r' d' acc' :
  rc_dp r = true → loop (fun s => nat_source s.1 ul s.2) l acc r d = (r', d', Some acc') → NoDup (source_key <$> l) →
  (∀ b, b ∈ acc → programmed_nat d b ∧ snat_key b ∉ source_key <$> l) →
  (∀ b, b ∈ acc' → programmed_nat d' b ∧ (b ∈ acc ∨ ∃ s owner, s ∈ l ∧ ul !! source_key s = Some owner ∧ b = block_for s owner)) ∧
  (∀ b, b ∈ acc → b ∈ acc') ∧
  ((∀ v s n lo hi d, (AddNatSource v s n lo hi d).2 = true) →
    ∀ s owner, s ∈ l → s.1 ≠ 0 → ul !! source_key s = Some owner → block_for s owner ∈ acc').
Proof.
  intros Hd. revert acc d. induction l as [|[vni src] l IH]; intros acc d.
  { intros [= <- <- <-] _ Hacc. split_and!; [intros b Hb; split; [by apply Hacc|by left]|done|]. intros _ s o Hs. by apply elem_of_nil in Hs. }
  cbn [loop fst snd]. intros (r1 & d1 & acc1 & E1 & E2)%bind_Some_inv [Hn Hnd]%NoDup_cons Hacc.
  destruct (nat_source_spec _ _ _ _ _ _ _ _ _ Hd E1) as (-> & Hk & Hcase & Hall).
  destruct (IH _ _ E2 Hnd) as (I1 & I2 & I3).
  { destruct Hcase as [->|(owner & Hul & -> & Hp)].
    - intros b Hb. destruct (Hacc b Hb) as [Hp [Hb1 Hb2]%not_elem_of_cons]. unfold programmed_nat. by rewrite Hk by done.
    - intros b [Hb| ->%list_elem_of_singleton]%elem_of_app; [|done].
      destruct (Hacc b Hb) as [Hpb [Hb1 Hb2]%not_elem_of_cons]. unfold programmed_nat. by rewrite Hk by done. }
  split_and!.
  - intros b Hb. destruct (I1 b Hb) as [Hp [Hb1|(s & o & Hs & Hu & ->)]]; split; try done; [|right; exists s, o; set_solver].
    destruct Hcase as [->|(owner & Hul & -> & Hp1)]; [by left|]. apply elem_of_app in Hb1 as [Hb1| ->%list_elem_of_singleton]; [by left|].
    right. exists (vni, src), owner. set_solver.
  - intros b Hb. apply I2. destruct Hcase as [->|(owner & Hul & -> & Hp1)]; [done|]. apply elem_of_app. by left.
  - intros Hs s o [->|Hin]%elem_of_cons Hv Hu; [|by apply I3]. apply I2. rewrite (Hall Hs Hv o Hu). apply elem_of_app. right. by apply list_elem_of_singleton.
Qed.

(** ** QoS *)

(** All-zero caps are no entry. *)
Definition shaped (q : compiledQoSCaps) : option compiledQoSCaps := if decide (q = mkCaps 0 0 0) then None else Some q.

(** What was applied is what is programmed. *)
Definition qos_tracks (applied : gmap string compiledQoSCaps) d : Prop := ∀ i, qos d !! i = applied !! i ≫= shaped.

Lemma tracks_configure applied i q d d' :
  qos_tracks applied d → ConfigureQoS i q d = (d', true) → qos_tracks (<[i := q]> applied) d'.
Proof.
  intros Ht E j. rewrite (qos_configure _ _ _ _ E). unfold shaped. destruct (decide (i = j)) as [->|Hne].
  - rewrite lookup_insert_eq. cbn. destruct (decide _); [by rewrite lookup_delete_eq|by rewrite lookup_insert_eq].
  - rewrite lookup_insert_ne by done. fold shaped. destruct (decide _); [rewrite lookup_delete_ne by done|rewrite lookup_insert_ne by done]; apply Ht.
Qed.

Lemma tracks_clear applied i d d' :
  qos_tracks applied d → ConfigureQoS i (mkCaps 0 0 0) d = (d', true) → qos_tracks (delete i applied) d'.
Proof.
  intros Ht E j. rewrite (qos_configure _ _ _ _ E), decide_True by done. destruct (decide (i = j)) as [->|Hne].
  - by rewrite !lookup_delete_eq.
  - rewrite !lookup_delete_ne by done. apply Ht.
Qed.

(** An error is remembered. *)
Lemma clear_qos_flag desired l applied ok d applied' d' : clear_qos desired l applied ok d = (applied', true, d') → ok = true.
Proof.
  revert applied ok d. induction l as [|j l IH]; intros applied ok d; cbn; [by intros [= _ -> _]|]. destruct (bool_decide _); [apply IH|].
  destruct (ConfigureQoS _ _ d) as [d1 ok1]. intros [? _]%IH%andb_true_iff. done.
Qed.

Lemma push_qos_flag l applied ok d applied' d' : push_qos l applied ok d = (applied', true, d') → ok = true.
Proof.
  revert applied ok d. induction l as [|[j c] l IH]; intros applied ok d; cbn; [by intros [= _ -> _]|]. destruct (bool_decide _); [apply IH|].
  destruct (ConfigureQoS _ _ d) as [d1 ok1]. intros [? _]%IH%andb_true_iff. done.
Qed.

Lemma clear_qos_ok desired l applied ok d applied' d' :
  clear_qos desired l applied ok d = (applied', true, d') → qos_tracks applied d →
  ok = true ∧ qos_tracks applied' d' ∧ ∀ i, applied' !! i = if bool_decide (i ∈ l ∧ desired !! i = None) then None else applied !! i.
Proof.
  revert applied ok d. induction l as [|i l IH]; intros applied ok d.
  { intros [= <- -> <-] Ht. split_and!; [done|done|]. intros i. rewrite bool_decide_eq_false_2; [done|]. intros [H%elem_of_nil _]. done. }
  cbn [clear_qos]. case_bool_decide as Hd.
  - intros E Ht. destruct (IH _ _ _ E Ht) as (? & ? & Ha). split_and!; [done|done|]. intros j. rewrite Ha.
    assert (Heq : (j ∈ l ∧ desired !! j = None) ↔ (j ∈ i :: l ∧ desired !! j = None)); [|by rewrite (bool_decide_ext _ _ Heq)].
    rewrite elem_of_cons. destruct Hd as [x Hx]. naive_solver congruence.
  - destruct (ConfigureQoS i (mkCaps 0 0 0) d) as [d1 ok1] eqn:Eq. intros E Ht. destruct ok1.
    + destruct (IH _ _ _ E (tracks_clear _ _ _ _ Ht Eq)) as (Hok & ? & Ha). rewrite andb_true_r in Hok. split_and!; [done|done|]. intros j. rewrite Ha.
      apply eq_None_not_Some in Hd. destruct (decide (i = j)) as [->|Hne].
      * rewrite lookup_delete_eq, (bool_decide_eq_true_2 (j ∈ j :: l ∧ _)) by (split; [by left|done]). by destruct (bool_decide _).
      * rewrite lookup_delete_ne by done.
        assert (Heq : (j ∈ l ∧ desired !! j = None) ↔ (j ∈ i :: l ∧ desired !! j = None)); [|by rewrite (bool_decide_ext _ _ Heq)].
        rewrite elem_of_cons. naive_solver.
    + by apply clear_qos_flag, andb_true_iff in E as [_ ?].
Qed.

Lemma push_qos_ok l applied ok d applied' d' :
  push_qos l applied ok d = (applied', true, d') → NoDup l.*1 → qos_tracks applied d →
  ok = true ∧ qos_tracks applied' d' ∧ (∀ i q, (i, q) ∈ l → applied' !! i = Some q) ∧ (∀ i, i ∉ l.*1 → applied' !! i = applied !! i).
Proof.
  revert applied ok d. induction l as [|[i q] l IH]; intros applied ok d.
  { intros [= <- -> <-] _ Ht. split_and!; [done|done|set_solver|done]. }
  cbn [push_qos]. intros E [Hi Hnd]%NoDup_cons Ht. cbn in Hi.
  assert (Hstep : ∃ a d1, push_qos l a ok d1 = (applied', true, d') ∧ qos_tracks a d1 ∧ a = <[i := q]> applied).
  { case_bool_decide as Ha; [exists applied, d; split_and!; [done|done|by rewrite insert_id]|].
    destruct (ConfigureQoS i q d) as [d1 ok1] eqn:Eq. destruct ok1.
    - rewrite andb_true_r in E. exists (<[i := q]> applied), d1. split_and!; [done|by eapply tracks_configure|done].
    - by apply push_qos_flag, andb_true_iff in E as [_ ?]. }
  destruct Hstep as (a & d1 & E1 & Ht1 & ->). destruct (IH _ _ _ E1 Hnd Ht1) as (? & ? & H1 & H2). split_and!; [done|done| |].
  - intros j c [[= -> ->]|Hin]%elem_of_cons; [by rewrite H2, lookup_insert_eq|by apply H1].
  - intros j [Hj1 Hj2]%not_elem_of_cons. by rewrite H2, lookup_insert_ne by done.
Qed.

(** The interface a NIC is attached as: that of its first attached address. *)
Definition runs_on (locals : list LocalInterface) (c : CompiledNIC) (i : string) : Prop :=
  i ≠ "" ∧ ∃ ip, first_known c (by_key li_InterfaceID locals) = Some (ip, i).

(** NICs attached as the same interface ask for the same caps. *)
Definition one_qos (locals : list LocalInterface) (cnics : list CompiledNIC) : Prop :=
  ∀ c1 c2 i q1 q2, c1 ∈ cnics → c2 ∈ cnics → runs_on locals c1 i → runs_on locals c2 i → QoS c1 = Some q1 → QoS c2 = Some q2 → q1 = q2.

Lemma runs_on_attached locals c i : runs_on locals c i → attached_nic locals c.
Proof. intros [_ [ip [Hip Hx]%first_known_Some]]. exists ip. split; [done|]. apply (by_key_attached li_InterfaceID). eauto. Qed.

Lemma add_caps_cases locals desired c :
  (∃ i q, runs_on locals c i ∧ QoS c = Some q ∧
    add_caps (by_key li_InterfaceID locals) (localSet_of locals) desired c = <[i := qosCapsFromCompiled (Some q)]> desired) ∨
  ((∀ i q, runs_on locals c i → QoS c ≠ Some q) ∧ add_caps (by_key li_InterfaceID locals) (localSet_of locals) desired c = desired).
Proof.
  unfold add_caps. case_bool_decide as Hq; [right; by rewrite Hq|]. cbn [orb]. destruct (QoS c) as [q|] eqn:Eq; [|done].
  destruct (localNIC c (localSet_of locals)) eqn:El; cbn [negb].
  - destruct (first_known c _) as [[ip i]|] eqn:Ef.
    + destruct (decide (i = "")) as [->|Hi]; [right; split; [|done]; intros i q' [Hi [ip' Hx]]; congruence|]. left. exists i, q. split_and!; [|done|done]. by split; [|exists ip].
    + right. split; [|done]. intros i q' [_ [ip' Hx]]. congruence.
  - right. split; [|done]. intros i q' Hr%runs_on_attached%localNIC_attached. congruence.
Qed.

Lemma desired_caps locals cnics i q :
  one_qos locals cnics →
  foldl (add_caps (by_key li_InterfaceID locals) (localSet_of locals)) ∅ cnics !! i = Some q ↔
  ∃ c q0, c ∈ cnics ∧ runs_on locals c i ∧ QoS c = Some q0 ∧ q = qosCapsFromCompiled (Some q0).
Proof.
  induction cnics as [|c cnics IH] using rev_ind; intros Ho; [cbn; rewrite lookup_empty; set_solver|].
  assert (Ho' : one_qos locals cnics) by (intros c1 c2 j q1 q2 H1 H2; apply Ho; apply elem_of_app; by left).
  specialize (IH Ho'). rewrite foldl_app. cbn [foldl].
  destruct (add_caps_cases locals (foldl (add_caps (by_key li_InterfaceID locals) (localSet_of locals)) ∅ cnics) c) as [(j & qc & Hr & Hq & ->)|[Hn ->]].
  - rewrite lookup_insert_Some, IH. split.
    + intros [[-> <-]|[_ (c' & q0 & Hc & ?)]]; [exists c, qc; set_solver|exists c', q0; set_solver].
    + intros (c' & q0 & Hc & Hr' & Hq' & ->). destruct (decide (j = i)) as [->|]; [left|right; split; [done|]].
      * split; [done|]. do 2 f_equal. apply (Ho c c' i); [set_solver|done..].
      * apply elem_of_app in Hc as [Hc| ->%list_elem_of_singleton]; [by exists c', q0|]. exfalso. destruct Hr as [_ [? Hr]], Hr' as [_ [? Hr']]. congruence.
  - rewrite IH. split; intros (c' & q0 & Hc & Hr' & Hq' & ->).
    + exists c', q0. set_solver.
    + apply elem_of_app in Hc as [Hc| ->%list_elem_of_singleton]; [by exists c', q0|]. by destruct (Hn i q0).
Qed.

Lemma external_routes_elem u edge x :
  x ∈ (fun e => mkRoute (x_Vni e) (x_Prefix e) (x_Nexthop e) (x_External e) (x_Vni e)) <$> DesiredExternalRoutes u edge ↔
  edge ≠ "" ∧ ∃ p, p ∈ ["0.0.0.0/0"; nat64WellKnownPrefix; "::/0"] ∧ x = mkRoute PublicVNI p u true PublicVNI.
Proof.
  unfold DesiredExternalRoutes. destruct (decide _) as [->|Hne]; cbn; [set_solver|]. rewrite !elem_of_cons, elem_of_nil.
  split; [|intros (_ & p & Hin & ->); rewrite !elem_of_cons, elem_of_nil in Hin; naive_solver].
  intros Hx. split; [done|]. destruct Hx as [-> |[-> |[-> |[]]]]; eexists; (split; [|done]); set_solver.
Qed.

Lemma hosts_elem u locals hosts x :
  host_routes u locals = Some hosts →
  x ∈ hosts ↔ ∃ li ip p, li ∈ locals ∧ li_Vni li ≠ 0 ∧ ip ∈ li_OverlayIPs li ∧ hostPrefix ip = Some p ∧
    x = mkRoute (li_Vni li) p (nexthop_of u li) false (li_Vni li).
Proof.
  intros Hh. rewrite (host_routes_spec _ _ _ Hh x). split.
  - intros (li & ip & p & (? & ? & ?)%elem_of_addresses & ? & ->). exists li, ip, p. done.
  - intros (li & ip & p & ? & ? & ? & ? & ->). exists li, ip, p. by rewrite elem_of_addresses.
Qed.

Lemma subs_elem (u edge : string) locals (imports : gmap Z (list PeerImport)) v :
  v ∈ PublicVNI :: List.filter (fun v => negb (v =? 0)) (li_Vni <$> locals) ++ (x_Vni <$> DesiredExternalRoutes u edge) ++ peer_vnis imports ↔
  v = PublicVNI ∨ v ≠ 0 ∧ ((∃ li, li ∈ locals ∧ li_Vni li = v) ∨ ∃ k l pi, imports !! k = Some l ∧ pi ∈ l ∧ pi_PeerVNI pi = v).
Proof.
  assert (Hf : ∀ (l : list Z), v ∈ List.filter (fun v => negb (v =? 0)) l ↔ v ≠ 0 ∧ v ∈ l).
  { intros l. rewrite !list_elem_of_In, filter_In, negb_true_iff, Z.eqb_neq. tauto. }
  assert (He : v ∈ x_Vni <$> DesiredExternalRoutes u edge → v = PublicVNI).
  { unfold DesiredExternalRoutes. destruct (decide _); cbn; set_solver. }
  unfold peer_vnis. rewrite elem_of_cons, !elem_of_app, !Hf, list_elem_of_fmap, list_elem_of_bind.
  assert (Hp : (∃ y, v ∈ pi_PeerVNI <$> y.2 ∧ y ∈ range_map imports) ↔ ∃ k l pi, imports !! k = Some l ∧ pi ∈ l ∧ pi_PeerVNI pi = v).
  { split.
    - intros ([k l] & (pi & -> & Hin)%list_elem_of_fmap & Hk%elem_of_range_map). eauto 10.
    - intros (k & l & pi & Hk & Hin & <-). exists (k, l). rewrite elem_of_range_map, list_elem_of_fmap. eauto. }
  assert (Hli : (∃ y, v = li_Vni y ∧ y ∈ locals) ↔ ∃ li, li ∈ locals ∧ li_Vni li = v) by naive_solver.
  rewrite Hp, Hli. tauto.
Qed.

Lemma or_iff (P P' Q Q' : Prop) : (P ↔ P') → (Q ↔ Q') → (P ∨ Q) ↔ (P' ∨ Q').
Proof. tauto. Qed.

(** The tick read what could be read. *)
Lemma ticked_reads r d r1 d1 des l cs hosts lbr nats locals cnics :
  ticked (BeginTick r) d r1 d1 des l cs hosts lbr nats → read_locals r d = Some locals → read_cnics r = Some cnics → l = locals ∧ cs = cnics.
Proof.
  intros [Hl Hc _ _ _ _ _ _ _ _ _ _]. change (read_locals (BeginTick r) d) with (read_locals r d) in Hl.
  change (read_cnics (BeginTick r)) with (read_cnics r) in Hc. intros ??. split; congruence.
Qed.

(** ** Properties *)

(** C34. When a tick returns, the routes it announces are exactly: the host route of
    every address attached in a VNI, at the underlay its interface reports or, for
    want of one, the node's; on an edge, the two public defaults and the NAT64 prefix
    in the public VNI, external, at the node's underlay; and, for each NIC with an
    address attached, the addresses of its load balancers, at the underlay of the
    interface that holds the first such address, if it is not empty.  The
    subscriptions are exactly the public VNI, the VNIs attached and the peers,
    sorted and without repetition.  Where every interface reports the node's
    underlay or none, as the dataplane documents, and the session's guard permits
    that underlay, what is announced can be sent as it is: no two routes with the
    same reference differ, and every nexthop is permitted. *)
Theorem reconcile_announces r d r' d' st ss locals cnics :
  reconcile api r d = (r', d', Some st) → read_locals r d = Some locals → read_cnics r = Some cnics →
  (∀ x, x ∈ Routes st ↔
    (∃ li ip p, li ∈ locals ∧ li_Vni li ≠ 0 ∧ ip ∈ li_OverlayIPs li ∧ hostPrefix ip = Some p ∧
      x = mkRoute (li_Vni li) p (nexthop_of (rc_underlay r) li) false (li_Vni li)) ∨
    (rc_edgeLoopback r ≠ "" ∧ ∃ p, p ∈ ["0.0.0.0/0"; nat64WellKnownPrefix; "::/0"] ∧ x = mkRoute PublicVNI p (rc_underlay r) true PublicVNI) ∨
    (∃ c lb ip ul, c ∈ cnics ∧ backs (rc_underlay r) locals c ip ul ∧ ul ≠ "" ∧ lb ∈ LB c ∧
      ∃ p, hostPrefix (lb_IP lb) = Some p ∧ x = mkRoute (u32 (VNI c)) p ul false (u32 (VNI c)))) ∧
  Sorted Z.le (Subs st) ∧ NoDup (Subs st) ∧
  (∀ v, v ∈ Subs st ↔ v = PublicVNI ∨ v ≠ 0 ∧ ((∃ li, li ∈ locals ∧ li_Vni li = v) ∨
    ∃ k l pi, PeeringImports st !! k = Some l ∧ pi ∈ l ∧ pi_PeerVNI pi = v)) ∧
  (one_underlay r locals → permits (ss_guard ss) (rc_underlay r) = true → announceable ss st).
Proof.
  intros E Hl Hc. destruct (reconcile_ticked _ _ _ _ _ E) as (r1 & d1 & des & l' & c' & hosts & lbr & nats & Ht & ER & _ & ES & EI & _).
  destruct (ticked_reads _ _ _ _ _ _ _ _ _ _ _ _ Ht Hl Hc) as [-> ->].
  pose proof (ticked_announced _ _ _ _ _ _ _ _ _ _ Ht) as Ha. change (rc_underlay (BeginTick r)) with (rc_underlay r) in Ha.
  destruct Ht as [_ _ _ _ _ Th Tl _ Ta _ _ Ts]. rewrite ER, ES, EI, Ts. split_and!.
  - intros x. rewrite Ta, !elem_of_app. apply or_iff; [by apply hosts_elem|]. apply or_iff; [apply external_routes_elem|].
    by apply (lb_routes_spec (rc_underlay r)).
  - apply Sorted_merge_sort. intros x y. lia.
  - rewrite merge_sort_Permutation. apply NoDup_range_set.
  - intros v. rewrite merge_sort_Permutation, elem_of_range_set, elem_of_list_to_set. apply subs_elem.
  - intros Ho Hp. specialize (Ha Ho). split; rewrite ER; [by eapply announced_consistent|].
    intros x Hx. rewrite Forall_forall in Ha. destruct (Ha x Hx) as (-> & _). done.
Qed.

(** A NAT block is announced only while the local dataplane holds it: after a
    tick, every announced block is programmed under its VNI and source with its
    address and ports, whatever calls failed, and belongs to a source of an attached
    NIC.  If no call fails, every such source is announced. *)
Theorem reconcile_nats_programmed r d r' d' st locals cnics :
  reconcile api r d = (r', d', Some st) → read_locals r d = Some locals → read_cnics r = Some cnics →
  rc_dp r = true → one_underlay r locals → NoDup (source_key <$> sources (localSet_of locals) cnics) →
  (∀ b, b ∈ Nats st → programmed_nat d' b ∧
    ∃ c s, c ∈ cnics ∧ attached_nic locals c ∧ s ∈ NAT c ∧ attached_at locals (u32 (VNI c), SourceIP s) ∧ b = block_for (u32 (VNI c), s) (rc_underlay r)) ∧
  ((∀ v s n lo hi d, (AddNatSource v s n lo hi d).2 = true) →
    ∀ c s, c ∈ cnics → attached_nic locals c → s ∈ NAT c → attached_at locals (u32 (VNI c), SourceIP s) →
    block_for (u32 (VNI c), s) (rc_underlay r) ∈ Nats st).
Proof.
  intros E Hl Hc Hd Ho Hnd. destruct (reconcile_ticked _ _ _ _ _ E) as (r1 & d1 & des & l' & c' & hosts & lbr & nats & Ht & _ & EN & _ & _ & ED).
  destruct (ticked_reads _ _ _ _ _ _ _ _ _ _ _ _ Ht Hl Hc) as [-> ->].
  destruct Ht as [_ _ _ _ _ _ _ (r0 & (_ & _ & _ & Hd0 & _) & Hloop) _ Tn _ _]. rewrite loop_sources in Hloop. change (rc_underlay (BeginTick r)) with (rc_underlay r) in Hloop.
  assert (Hsrc : ∀ s, s ∈ sources (localSet_of locals) cnics ↔ ∃ c x, c ∈ cnics ∧ attached_nic locals c ∧ x ∈ NAT c ∧ s = (u32 (VNI c), x)).
  { intros s. unfold sources. rewrite list_elem_of_bind. setoid_rewrite <-localNIC_attached. split.
    - intros (c & Hin & Hcc). destruct (localNIC c _) eqn:El; [|by apply elem_of_nil in Hin]. apply list_elem_of_fmap in Hin as (x & -> & Hx). eauto 10.
    - intros (c & x & Hcc & El & Hx & ->). exists c. rewrite El. split; [|done]. apply list_elem_of_fmap. eauto. }
  assert (Hul : ∀ k owner, by_key (nexthop_of (rc_underlay r)) locals !! k = Some owner → owner = rc_underlay r ∧ attached_at locals k).
  { intros k owner Hk. split; [|by apply (by_key_attached (nexthop_of (rc_underlay r))); eauto].
    apply by_key_Some in Hk as (li & ip & (Hli & _)%elem_of_addresses & _ & ->). by eapply nexthop_underlay. }
  destruct (nats_loop _ _ _ _ _ _ _ _ (eq_trans Hd0 Hd) Hloop Hnd) as (H1 & _ & H3); [set_solver|]. rewrite EN, Tn. split.
  - intros b Hb. destruct (H1 b Hb) as [Hp [Hn|(s & owner & (c & x & ? & ? & ? & ->)%Hsrc & [-> Hat]%Hul & ->)]]; [by apply elem_of_nil in Hn|].
    unfold programmed_nat in *. rewrite ED. eauto 10.
  - intros Hall c s ? ? ? Hat. pose proof Hat as [owner Hk]%(by_key_attached (nexthop_of (rc_underlay r))). destruct (Hul _ _ Hk) as [-> _].
    apply H3; [done|apply Hsrc; eauto 10|by eapply attached_nic_vni|done].
Qed.

(** When every call of a QoS pass succeeds, the caps on the dataplane are
    exactly those of the attached NICs that ask for any: caps no longer asked for
    are cleared, changed ones replaced, and what was recorded as applied is what is
    programmed. *)
Theorem ReconcileQoS_exact r d r' d' locals cnics :
  ReconcileQoS api r d = (r', d', Some tt) → loc_is r locals → cnic_is r cnics → rc_dp r = true →
  one_qos locals cnics → qos_tracks (appliedQoS r) d →
  qos_tracks (appliedQoS r') d' ∧
  (∀ i q, qos d' !! i = Some q ↔ ∃ c q0, c ∈ cnics ∧ runs_on locals c i ∧ QoS c = Some q0 ∧ shaped (qosCapsFromCompiled (Some q0)) = Some q).
Proof.
  intros E Hl Hc Hd Ho Ht. unfold ReconcileQoS in E. rewrite Hd in E. cbn [negb] in E. unfold interfaceIDByKey, bind in E.
  rewrite (loc_again _ _ _ Hl) in E. cbn [ret] in E. rewrite (cnic_again _ _ _ Hc) in E. cbn [fst snd] in E.
  set (desired := foldl (add_caps (by_key li_InterfaceID locals) (localSet_of locals)) ∅ cnics) in E.
  destruct (clear_qos desired (range_map (appliedQoS r)).*1 (appliedQoS r) true d) as [[a1 ok1] d1] eqn:E1.
  destruct (push_qos (range_map desired) a1 ok1 d1) as [[a2 ok2] d2] eqn:E2. destruct ok2; [|done]. injection E as <- <-.
  assert (ok1 = true) as -> by by eapply push_qos_flag.
  destruct (clear_qos_ok _ _ _ _ _ _ _ E1 Ht) as (_ & T1 & A1).
  destruct (push_qos_ok _ _ _ _ _ _ E2 (NoDup_range_map_fst _) T1) as (_ & T2 & A2 & A3).
  split; [done|]. intros i q. cbn [appliedQoS set_applied]. rewrite (T2 i).
  assert (Ha : a2 !! i = desired !! i).
  { destruct (desired !! i) as [c|] eqn:Ei; [by apply A2, elem_of_range_map|]. rewrite A3.
    - rewrite A1. case_bool_decide as Hb; [done|]. destruct (appliedQoS r !! i) as [c|] eqn:Ea; [|done]. destruct Hb. split; [|done].
      apply list_elem_of_fmap. exists (i, c). by rewrite elem_of_range_map.
    - intros ([i' c] & -> & Hin%elem_of_range_map)%list_elem_of_fmap. cbn in Ei. congruence. }
  rewrite Ha, bind_Some. split.
  - intros (y & (c & q0 & ? & ? & ? & ->)%(desired_caps _ _ _ _ Ho) & ?). eauto 10.
  - intros (c & q0 & ? & ? & ? & ?). exists (qosCapsFromCompiled (Some q0)). split; [|done]. apply (desired_caps _ _ _ _ Ho). eauto 10.
Qed.

End tick.

(** ** A node *)

Module Node.

Record Node := mkNode {
  n_locals : list LocalInterface;
  n_snat : gmap ipKey (string * Z * Z);
  n_qos : gmap string compiledQoSCaps
}.

(** Programming an interface the node does not know is an error. *)
Definition knows (i : string) (d : Node) : bool := any (fun li => bool_decide (li_InterfaceID li = i)) (n_locals d).

#[global] Instance node_dataplane : NodeDataplane Node := {
  AddNatSource vni src nat lo hi d := (mkNode (n_locals d) (<[(vni, src) := (nat, lo, hi)]> (n_snat d)) (n_qos d), true);
  ReplaceInterfaceFirewall i rs d := (d, knows i d);
  ConfigureQoS i q d :=
    if knows i d
    then (mkNode (n_locals d) (n_snat d) (if decide (q = mkCaps 0 0 0) then delete i (n_qos d) else <[i := q]> (n_qos d)), true)
    else (d, false);
  ListLocal d := Some (n_locals d)
}.

#[global] Program Instance node_laws : NodeLaws Node := {| snat := n_snat; qos := n_qos |}.
Next Obligation. by intros * [= <-]. Qed.
Next Obligation. intros * [= <- <-] ?. cbn. by rewrite lookup_insert_ne. Qed.
Next Obligation. done. Qed.
Next Obligation. intros. cbn. by destruct (knows i d). Qed.
Next Obligation. intros i q d d'. cbn. destruct (knows i d); [|done]. by intros [= <-]. Qed.
Next Obligation.
  intros i q d d' ok j. cbn. destruct (knows i d); intros [= <- <-] ?; [|done]. cbn.
  destruct (decide _); [by rewrite lookup_delete_ne|by rewrite lookup_insert_ne].
Qed.

Definition tap : LocalInterface := mkLocalInterface "vm1" 7 ["10.0.0.5"] "".
Definition nic : CompiledNIC :=
  mkCompiledNIC 7 ["10.0.0.5"] (mkCompiledFirewall [] []) [mkNATSource "10.0.0.5" "203.0.113.1" 1024 2047]
    [mkLB "203.0.113.9" [mkLBPort 443 "TCP"]] [mkCompiledImport 9 ["10.9.0.0/16"]] (Some (mkQoS 100 0 50)).
Definition agent : Reconciler := mkReconciler true "fd00::a" "" true ∅ None.
Definition node (locals : list LocalInterface) : Node := mkNode locals ∅ ∅.
Definition tick_on (r : Reconciler) (d : Node) : Reconciler * Node * option DesiredState := reconcile (ro := canonical_order) (Some [nic]) r d.

(** The interface is detached, with what was programmed on it, or attached. *)
Definition detach (d : Node) : Node := mkNode [] (n_snat d) (delete "vm1" (n_qos d)).
Definition attach (d : Node) : Node := mkNode [tap] (n_snat d) (n_qos d).

End Node.
Import Node.

(** An interface that is detached and attached again with the same caps stays
    unlimited.  While it is detached its caps cannot be cleared, the call being an
    error, so they stay recorded as applied and the next pass skips them. *)
Theorem qos_lost_on_reattach :
  let '(r1, d1, o1) := tick_on agent (node [tap]) in
  let '(r2, d2, o2) := tick_on r1 (detach d1) in
  let '(r3, d3, o3) := tick_on r2 (attach d2) in
  is_Some o1 ∧ is_Some o2 ∧ is_Some o3 ∧ n_qos d1 = {["vm1" := mkCaps 100 0 50]} ∧ n_qos d3 = ∅.
Proof. vm_compute. repeat (split; [first [by eexists | reflexivity]|]). reflexivity. Qed.

Lemma reconcile_announces_witness :
  let ss := mkSession (mkGuard [] false) 1 (mkSink 1 "node-a") in
  ∃ r' d' st, tick_on agent (node [tap]) = (r', d', Some st) ∧ announceable ss st ∧
    mkRoute 7 "10.0.0.5/32" "fd00::a" false 7 ∈ Routes st ∧ NoDup (Subs st) ∧ 9 ∈ Subs st.
Proof.
  intros ss. destruct (tick_on agent (node [tap])) as [[r' d'] [st|]] eqn:E; [|vm_compute in E; discriminate]. exists r', d', st. split; [done|].
  destruct (reconcile_announces (ro := canonical_order) (Some [nic]) agent (node [tap]) r' d' st ss [tap] [nic] E eq_refl eq_refl)
    as (Hr & _ & Hn & Hs & Ha).
  split; [apply Ha; [by repeat constructor|reflexivity]|]. split; [apply Hr; left; exists tap, "10.0.0.5", "10.0.0.5/32"; split_and!; [by left|discriminate|by left|reflexivity|reflexivity]|].
  split; [done|]. vm_compute in E. injection E as _ _ <-. vm_compute. right. right. left.
Defined.

Lemma reconcile_nats_programmed_witness :
  ∃ r' d' st, tick_on agent (node [tap]) = (r', d', Some st) ∧
    mkNatBlock 7 "10.0.0.5" "203.0.113.1" 1024 2048 "fd00::a" ∈ Nats st ∧ n_snat d' !! (7, "10.0.0.5") = Some ("203.0.113.1", 1024, 2048).
Proof.
  destruct (tick_on agent (node [tap])) as [[r' d'] [st|]] eqn:E; [|vm_compute in E; discriminate]. exists r', d', st. split; [done|].
  destruct (reconcile_nats_programmed (ro := canonical_order) (Some [nic]) agent (node [tap]) r' d' st [tap] [nic] E eq_refl eq_refl eq_refl)
    as (Hb & Hall); [repeat constructor|vm_compute; apply NoDup_singleton|].
  assert (Hat : attached_at [tap] (7, "10.0.0.5")) by (exists tap, "10.0.0.5"; split_and!; [by left|discriminate|by left|done]).
  assert (Hin : mkNatBlock 7 "10.0.0.5" "203.0.113.1" 1024 2048 "fd00::a" ∈ Nats st).
  { apply (Hall (fun _ _ _ _ _ _ => eq_refl) nic (mkNATSource "10.0.0.5" "203.0.113.1" 1024 2047)); [by left|exists "10.0.0.5"; split; [by left|done]|by left|done]. }
  split; [done|]. destruct (Hb _ Hin) as [Hp _]. exact Hp.
Defined.

Lemma ReconcileQoS_exact_witness :
  let r := set_tick (Some (mkSnapshot [tap] true [nic] true)) agent in
  ∃ r' d', ReconcileQoS (ro := canonical_order) (Some [nic]) r (node [tap]) = (r', d', Some tt) ∧ n_qos d' !! "vm1" = Some (mkCaps 100 0 50).
Proof.
  intros r. destruct (ReconcileQoS (ro := canonical_order) (Some [nic]) r (node [tap])) as [[r' d'] [[]|]] eqn:E; [|vm_compute in E; discriminate].
  exists r', d'. split; [done|].
  destruct (ReconcileQoS_exact (ro := canonical_order) (Some [nic]) r (node [tap]) r' d' [tap] [nic] E) as [_ Hq].
  - exists (mkSnapshot [tap] true [nic] true). split; reflexivity.
  - exists (mkSnapshot [tap] true [nic] true). split; reflexivity.
  - reflexivity.
  - intros c1 c2 i q1 q2 ->%list_elem_of_singleton ->%list_elem_of_singleton _ _ H1 H2. congruence.
  - intros i. clear E. cbn. rewrite !lookup_empty. reflexivity.
  - apply Hq. exists nic, (mkQoS 100 0 50). split_and!; [by left|split; [discriminate|exists "10.0.0.5"; reflexivity]|reflexivity|reflexivity].
Defined.
