(* ===== verification/Meter.v ===== *)
(** * Rate metering

    The per-interface rate lanes of the datapath ([flowplane-core/src/meter.rs])
    and the state the control core programs for them
    ([flowplane-control/src/interface.rs], [meter_state]).  Two lanes police with a
    token bucket; the egress lane shapes by an earliest departure time.

    The arithmetic is that of a release build: [+] and [*] on [u64] wrap, the
    saturating operations stop at the bounds. *)

From S2P Require Import Prelude FwClass FwControl.

Open Scope Z_scope.

Module meter.

(** ** [u64] *)

Definition u64_max : Z := 2 ^ 64 - 1.
Definition saturating_sub (a b : Z) : Z := Z.max 0 (a - b).
Definition saturating_add (a b : Z) : Z := Z.min u64_max (a + b).
Definition saturating_mul (a b : Z) : Z := Z.min u64_max (a * b).

Definition SEC : Z := 1000000000.

(** [flowplane_common::MeterState]. *)
Record MeterState := mkMeter {
  total_bps : Z;
  total_burst : Z;
  total_tokens : Z;
  total_last_ns : Z;
  public_bps : Z;
  public_burst : Z;
  public_tokens : Z;
  public_last_ns : Z;
  ingress_bps : Z;
  ingress_burst : Z;
  ingress_tokens : Z;
  ingress_last_ns : Z
}.

(** Caps in Mbit/s. *)
Definition meter_state (egress_mbps public_mbps ingress_mbps : Z) : MeterState :=
  let e := saturating_mul egress_mbps 1000000 / 8 in
  let p := saturating_mul public_mbps 1000000 / 8 in
  let i := saturating_mul ingress_mbps 1000000 / 8 in
  mkMeter e 0 0 0 p (Z.max (p / 8) 2000) (p / 8) 0 i (Z.max (i / 8) 2000) (i / 8) 0.

(** ** The lanes *)

Definition refill (bps elapsed : Z) : Z :=
  let elapsed_capped := if SEC <? elapsed then SEC else elapsed in
  u64 (u64 (elapsed_capped / SEC * bps) + u64 (elapsed_capped `mod` SEC * bps) / SEC).

Definition take (bps burst tokens last_ns now len : Z) : bool * Z :=
  if bps =? 0 then (true, tokens)
  else
    let t := saturating_add tokens (refill bps (saturating_sub now last_ns)) in
    let t := if burst <? t then burst else t in
    if len <=? t then (true, t - len) else (false, t).

Definition edt_departure (rate_bps wire_len t_last now : Z) : Z * Z :=
  if rate_bps =? 0 then (now, now)
  else
    let delay := saturating_mul wire_len SEC / rate_bps in
    let t_sched := if now <? t_last then t_last else now in
    (t_sched, saturating_add t_sched delay).

(** The map [METER]. *)
Abbreviation Meters := (gmap Z MeterState).

Definition edt_egress (ifindex wire_len now : Z) (maps : Meters) : Meters * option Z :=
  match maps !! ifindex with
  | None => (maps, None)
  | Some m =>
      if total_bps m =? 0 then (maps, None)
      else
        let '(tstamp, t_last) := edt_departure (total_bps m) wire_len (total_last_ns m) now in
        (<[ifindex := mkMeter (total_bps m) (total_burst m) (total_tokens m) t_last (public_bps m) (public_burst m) (public_tokens m) (public_last_ns m)
             (ingress_bps m) (ingress_burst m) (ingress_tokens m) (ingress_last_ns m)]> maps, Some tstamp)
  end.

Definition public_pass (ifindex len : Z) (is_external : bool) (now : Z) (maps : Meters) : Meters * bool :=
  if negb is_external then (maps, true)
  else match maps !! ifindex with
       | None => (maps, true)
       | Some m =>
           if public_bps m =? 0 then (maps, true)
           else
             let '(pass, tok) := take (public_bps m) (public_burst m) (public_tokens m) (public_last_ns m) now len in
             (<[ifindex := mkMeter (total_bps m) (total_burst m) (total_tokens m) (total_last_ns m) (public_bps m) (public_burst m) tok now
                  (ingress_bps m) (ingress_burst m) (ingress_tokens m) (ingress_last_ns m)]> maps, pass)
       end.

Definition ingress_pass (ifindex len now : Z) (maps : Meters) : Meters * bool :=
  match maps !! ifindex with
  | None => (maps, true)
  | Some m =>
      if ingress_bps m =? 0 then (maps, true)
      else
        let '(pass, tok) := take (ingress_bps m) (ingress_burst m) (ingress_tokens m) (ingress_last_ns m) now len in
        (<[ifindex := mkMeter (total_bps m) (total_burst m) (total_tokens m) (total_last_ns m) (public_bps m) (public_burst m) (public_tokens m) (public_last_ns m)
             (ingress_bps m) (ingress_burst m) tok now]> maps, pass)
  end.

(** ** Programming *)

(** The two calls of the map writer, as the in-memory writer has them. *)
Definition meter_upsert (ifindex : Z) (m : MeterState) (maps : Meters) : Meters := <[ifindex := m]> maps.
Definition meter_remove (ifindex : Z) (maps : Meters) : Meters := delete ifindex maps.

(** [None]: an unknown interface. *)
Definition set_qos (ifaces : gmap (list Z) IfaceMeta) (interface_id : list Z) (egress_mbps public_mbps ingress_mbps : Z) (maps : Meters)
    : option Meters :=
  match ifaces !! interface_id with
  | None => None
  | Some im =>
      let tap := im_ifindex im in
      if (egress_mbps =? 0) && (public_mbps =? 0) && (ingress_mbps =? 0) then Some (meter_remove tap maps)
      else Some (meter_upsert tap (meter_state egress_mbps public_mbps ingress_mbps) maps)
  end.

End meter.
