(* ===== verification/MeterTheorems.v ===== *)
(** * Rate metering: what the lanes guarantee

    A policed lane is the textbook token bucket, so the bytes it lets through in
    any window are bounded by the burst and the rate; the shaped lane spaces
    departures by the airtime of what went before.  Both hold for caps up to
    147573 Mbit/s; above, the refill overflows. *)

From S2P Require Import Prelude FwClass FwControl Meter.
Import meter.

Open Scope Z_scope.

(** ** One step of the bucket *)

(** The largest rate, in bytes per second, whose refill stays within 64 bits. *)
Definition max_bps : Z := 18446744073.

(** The bucket without machine integers, and without the one-second cap. *)
Definition ideal (bps burst tokens elapsed len : Z) : bool * Z :=
  let t := Z.min burst (tokens + bps * elapsed / SEC) in
  if len <=? t then (true, t - len) else (false, t).

(** A lane as it is programmed: a second refills at least a full bucket. *)
Record lane_ok (bps burst tokens : Z) : Prop := {
  lo_bps : 0 < bps ≤ max_bps;
  lo_burst : 0 ≤ burst ≤ bps;
  lo_tokens : 0 ≤ tokens ≤ burst
}.

Lemma refill_exact bps elapsed : 0 < bps ≤ max_bps → 0 ≤ elapsed → refill bps elapsed = Z.min bps (bps * elapsed / SEC).
Proof.
  unfold refill, max_bps. intros Hb He.
  assert (Hu : ∀ z, 0 ≤ z < 2 ^ 64 → u64 z = z) by (intros z Hz; unfold u64; by apply Z.mod_small).
  assert (Hfull : u64 (u64 (1 * bps) + u64 (0 * bps) / SEC) = bps).
  { rewrite Z.mul_1_l, Z.mul_0_l, (Hu bps), (Hu 0) by lia. rewrite Z.div_0_l by (unfold SEC; lia). rewrite Z.add_0_r. apply Hu. lia. }
  destruct (Z.ltb_spec SEC elapsed) as [Hc|Hc].
  - change (SEC / SEC) with 1. change (SEC `mod` SEC) with 0. rewrite Hfull. symmetry. apply Z.min_l. apply Z.div_le_lower_bound; unfold SEC in *; nia.
  - assert (Hcase : elapsed = SEC ∨ elapsed < SEC) by lia. destruct Hcase as [->|Hlt].
    + change (SEC / SEC) with 1. change (SEC `mod` SEC) with 0. rewrite Hfull, Z.div_mul by (unfold SEC; lia). lia.
    + rewrite (Z.div_small elapsed), (Z.mod_small elapsed) by lia. rewrite Z.mul_0_l.
      assert (Hm : 0 ≤ elapsed * bps < 2 ^ 64) by (unfold SEC in *; nia).
      assert (Hd : 0 ≤ elapsed * bps / SEC ≤ bps).
      { split; [apply Z.div_pos; unfold SEC in *; nia|]. apply Z.div_le_upper_bound; unfold SEC in *; nia. }
      rewrite (Hu 0), (Hu (elapsed * bps)) by lia. rewrite Z.add_0_l, Hu by lia. rewrite (Z.mul_comm bps). lia.
Qed.

Lemma take_ideal_eq bps burst tokens last now len :
  lane_ok bps burst tokens → last ≤ now → take bps burst tokens last now len = ideal bps burst tokens (now - last) len.
Proof.
  intros [Hb Hbu Ht] Hn. unfold take, ideal. destruct (Z.eqb_spec bps 0); [lia|].
  unfold saturating_sub. rewrite Z.max_r, refill_exact by lia. unfold max_bps in *.
  assert (Hp : 0 ≤ bps * (now - last) / SEC) by (apply Z.div_pos; unfold SEC; nia).
  unfold saturating_add, u64_max. rewrite (Z.min_r _ (tokens + _)) by lia.
  replace (if burst <? tokens + Z.min bps (bps * (now - last) / SEC) then burst else tokens + Z.min bps (bps * (now - last) / SEC))
    with (Z.min burst (tokens + bps * (now - last) / SEC)); [done|].
  destruct (Z.ltb_spec burst (tokens + Z.min bps (bps * (now - last) / SEC))); lia.
Qed.

Lemma ideal_step bps burst tokens elapsed len pass tok :
  lane_ok bps burst tokens → 0 ≤ elapsed → 0 ≤ len → ideal bps burst tokens elapsed len = (pass, tok) →
  lane_ok bps burst tok ∧ tok + (if pass then len else 0) ≤ burst ∧
  SEC * (tok + if pass then len else 0) ≤ SEC * tokens + bps * elapsed.
Proof.
  intros [Hb Hbu Ht] He Hl. unfold ideal.
  assert (Hp : 0 ≤ bps * elapsed / SEC) by (apply Z.div_pos; unfold SEC; nia).
  assert (Hm : SEC * (bps * elapsed / SEC) ≤ bps * elapsed) by (apply Z.mul_div_le; unfold SEC; lia).
  set (t := Z.min burst (tokens + bps * elapsed / SEC)). assert (Ht' : 0 ≤ t ≤ burst ∧ t ≤ tokens + bps * elapsed / SEC) by lia.
  assert (HS : SEC * t ≤ SEC * tokens + bps * elapsed) by (unfold SEC in *; lia).
  destruct (Z.leb_spec len t); intros [= <- <-]; (split; [split; lia|]); rewrite ?Z.sub_add, ?Z.add_0_r; lia.
Qed.

(** ** Traffic *)

(** What arrives: the interface, the time and the length. *)
Record Arrival := mkArrival { a_if : Z; a_now : Z; a_len : Z }.

Fixpoint police (l : list Arrival) (maps : Meters) : Meters * list (Arrival * bool) :=
  match l with
  | [] => (maps, [])
  | a :: l =>
      let '(maps, pass) := ingress_pass (a_if a) (a_len a) (a_now a) maps in
      let '(maps, rest) := police l maps in
      (maps, (a, pass) :: rest)
  end.

(** The bytes let through to an interface. *)
Definition passed (i : Z) (l : list (Arrival * bool)) : Z :=
  foldr Z.add 0 ((fun e => if (a_if e.1 =? i) && e.2 then a_len e.1 else 0) <$> l).

Lemma passed_cons i a pass l : passed i ((a, pass) :: l) = (if (a_if a =? i) && pass then a_len a else 0) + passed i l.
Proof. done. Qed.

(** The clock does not run backwards, and lengths are not negative. *)
Definition timed (t0 t1 : Z) (l : list Arrival) : Prop :=
  StronglySorted (fun a b => a_now a ≤ a_now b) l ∧ Forall (fun a => t0 ≤ a_now a ≤ t1 ∧ 0 ≤ a_len a) l.

Lemma timed_cons t0 t1 a l : timed t0 t1 (a :: l) → t0 ≤ a_now a ≤ t1 ∧ 0 ≤ a_len a ∧ timed (a_now a) t1 l.
Proof.
  intros [Hs Hf]. apply StronglySorted_inv in Hs as [Hs Ha]. apply Forall_cons in Hf as [[? ?] Hf]. split_and!; try lia. split; [done|].
  rewrite Forall_forall in *. intros b Hb. specialize (Hf b Hb). specialize (Ha b Hb). lia.
Qed.

Lemma timed_weaken t0 t0' t1 l : t0' ≤ t0 → timed t0 t1 l → timed t0' t1 l.
Proof. intros ? [Hs Hf]. split; [done|]. eapply Forall_impl; [exact Hf|]. intros a ?. cbn in *. lia. Qed.

(** The ingress lane of an interface is programmed. *)
Definition lane (i bps burst tokens last : Z) (maps : Meters) : Prop :=
  ∃ m, maps !! i = Some m ∧ ingress_bps m = bps ∧ ingress_burst m = burst ∧ ingress_tokens m = tokens ∧ ingress_last_ns m = last.

Lemma ingress_other i j len now maps : i ≠ j → (ingress_pass j len now maps).1 !! i = maps !! i.
Proof.
  intros Hij. unfold ingress_pass. destruct (maps !! j); [|done]. destruct (_ =? 0); [done|]. destruct (take _ _ _ _ _ _). cbn. by rewrite lookup_insert_ne.
Qed.

Lemma ingress_same i bps burst tokens last len now maps :
  lane i bps burst tokens last maps → bps ≠ 0 →
  (ingress_pass i len now maps).2 = (take bps burst tokens last now len).1 ∧
  lane i bps burst (take bps burst tokens last now len).2 now (ingress_pass i len now maps).1.
Proof.
  intros (m & Hm & <- & <- & <- & <-) Hb. unfold ingress_pass. rewrite Hm. apply Z.eqb_neq in Hb as ->.
  destruct (take _ _ _ _ now len) as [pass tok]. split; [done|]. eexists. cbn. by rewrite lookup_insert_eq.
Qed.

(** From a state of the bucket on: what passes is paid by the tokens and the time. *)
Lemma police_paid i bps burst l : ∀ tokens last t1 maps,
  lane i bps burst tokens last maps → lane_ok bps burst tokens → timed last t1 l → last ≤ t1 →
  SEC * passed i (police l maps).2 ≤ SEC * tokens + bps * (t1 - last).
Proof.
  induction l as [|a l IH]; intros tokens last t1 maps Hl Hok Ht Hle; cbn [police].
  { cbn. destruct Hok. unfold SEC. nia. }
  destruct (timed_cons _ _ _ _ Ht) as (Hn & Hlen & Ht'). destruct (decide (i = a_if a)) as [->|Hne].
  - destruct (ingress_same _ _ _ _ _ (a_len a) (a_now a) _ Hl) as [Hp Hl']; [destruct Hok; lia|].
    rewrite take_ideal_eq in Hp, Hl' by (done || lia). destruct (ideal _ _ _ _ _) as [pass tok] eqn:Ei.
    destruct (ideal_step _ _ _ _ _ _ _ Hok (proj2 (Z.sub_nonneg _ _) (proj1 Hn)) Hlen Ei) as (Hok' & _ & Hpay).
    destruct (ingress_pass _ _ _ _) as [maps' pass'] eqn:E. cbn in Hp, Hl'. subst pass'.
    specialize (IH _ _ t1 _ Hl' Hok' Ht' ltac:(lia)). destruct (police l maps') as [maps2 rest]. cbn [snd] in *. rewrite passed_cons, Z.eqb_refl. cbn [andb]. unfold SEC in *. destruct pass; lia.
  - pose proof (ingress_other i (a_if a) (a_len a) (a_now a) maps Hne) as Ho.
    destruct (ingress_pass _ _ _ _) as [maps' pass'] eqn:E. cbn in Ho.
    assert (Hl' : lane i bps burst tokens last maps') by (destruct Hl as (m & Hm & Hr); exists m; by rewrite Ho).
    specialize (IH _ _ t1 _ Hl' Hok (timed_weaken _ _ _ _ (proj1 Hn) Ht') Hle). destruct (police l maps') as [maps2 rest]. cbn [snd] in *. rewrite passed_cons.
    destruct (Z.eqb_spec (a_if a) i); [congruence|]. cbn [andb]. by rewrite Z.add_0_l.
Qed.

(** The state of a lane after some traffic. *)
Lemma police_lane i bps burst l : ∀ tokens last t1 maps,
  lane i bps burst tokens last maps → lane_ok bps burst tokens → timed last t1 l → last ≤ t1 →
  ∃ tokens' last', lane i bps burst tokens' last' (police l maps).1 ∧ lane_ok bps burst tokens' ∧ last ≤ last' ≤ t1.
Proof.
  induction l as [|a l IH]; intros tokens last t1 maps Hl Hok Ht Hle; cbn [police]; [exists tokens, last; cbn; split_and!; done || lia|].
  destruct (timed_cons _ _ _ _ Ht) as (Hn & Hlen & Ht'). destruct (decide (i = a_if a)) as [->|Hne].
  - destruct (ingress_same _ _ _ _ _ (a_len a) (a_now a) _ Hl) as [_ Hl']; [destruct Hok; lia|].
    rewrite take_ideal_eq in Hl' by (done || lia). destruct (ideal _ _ _ _ _) as [pass tok] eqn:Ei.
    destruct (ideal_step _ _ _ _ _ _ _ Hok (proj2 (Z.sub_nonneg _ _) (proj1 Hn)) Hlen Ei) as (Hok' & _).
    destruct (ingress_pass _ _ _ _) as [maps' pass'] eqn:E. cbn in Hl'. destruct (IH _ _ t1 _ Hl' Hok' Ht' ltac:(lia)) as (x & y & H1 & H2 & H3).
    destruct (police l maps') as [maps2 rest]. exists x, y. cbn in H1 |- *. split; [done|]. split; [done|lia].
  - pose proof (ingress_other i (a_if a) (a_len a) (a_now a) maps Hne) as Ho. destruct (ingress_pass _ _ _ _) as [maps' pass']. cbn in Ho.
    assert (Hl' : lane i bps burst tokens last maps') by (destruct Hl as (m & Hm & Hr); exists m; by rewrite Ho).
    destruct (IH _ _ t1 _ Hl' Hok (timed_weaken _ _ _ _ (proj1 Hn) Ht') Hle) as (x & y & H1 & H2 & H3).
    destruct (police l maps') as [maps2 rest]. exists x, y. cbn in H1 |- *. split; [done|]. split; [done|lia].
Qed.

(** A window starts with an empty or a full bucket: what passes in it is bounded
    by the burst and its own length. *)
Lemma police_window i bps burst l : ∀ t0 tokens last t1 maps,
  lane i bps burst tokens last maps → lane_ok bps burst tokens → last ≤ t0 → timed t0 t1 l → t0 ≤ t1 →
  SEC * passed i (police l maps).2 ≤ SEC * burst + bps * (t1 - t0).
Proof.
  induction l as [|a l IH]; intros t0 tokens last t1 maps Hl Hok Hlast Ht Hle; cbn [police].
  { cbn. destruct Hok. unfold SEC. nia. }
  destruct (timed_cons _ _ _ _ Ht) as (Hn & Hlen & Ht'). destruct (decide (i = a_if a)) as [->|Hne].
  - destruct (ingress_same _ _ _ _ _ (a_len a) (a_now a) _ Hl) as [Hp Hl']; [destruct Hok; lia|].
    rewrite take_ideal_eq in Hp, Hl' by (done || lia). destruct (ideal _ _ _ _ _) as [pass tok] eqn:Ei.
    destruct (ideal_step bps burst tokens (a_now a - last) (a_len a) pass tok Hok ltac:(lia) Hlen Ei) as (Hok' & Hcap & _).
    destruct (ingress_pass _ _ _ _) as [maps' pass'] eqn:E. cbn in Hp, Hl'. subst pass'.
    pose proof (police_paid _ _ _ _ _ _ t1 _ Hl' Hok' Ht' ltac:(lia)) as Hpay. destruct (police l maps') as [maps2 rest].
    cbn [snd] in *. rewrite passed_cons, Z.eqb_refl. cbn [andb]. destruct Hok. unfold SEC in *. destruct pass; nia.
  - pose proof (ingress_other i (a_if a) (a_len a) (a_now a) maps Hne) as Ho.
    destruct (ingress_pass _ _ _ _) as [maps' pass'] eqn:E. cbn in Ho.
    assert (Hl' : lane i bps burst tokens last maps') by (destruct Hl as (m & Hm & Hr); exists m; by rewrite Ho).
    specialize (IH t0 _ _ t1 _ Hl' Hok Hlast (timed_weaken _ _ _ _ (proj1 Hn) Ht') Hle). destruct (police l maps') as [maps2 rest].
    cbn [snd] in *. rewrite passed_cons. destruct (Z.eqb_spec (a_if a) i); [congruence|]. cbn [andb]. by rewrite Z.add_0_l.
Qed.

(** The verdicts of the ideal bucket on the arrivals of one interface. *)
Fixpoint ideal_run (i bps burst tokens last : Z) (l : list Arrival) : list bool :=
  match l with
  | [] => []
  | a :: l =>
      if a_if a =? i then
        let '(pass, tok) := ideal bps burst tokens (a_now a - last) (a_len a) in
        pass :: ideal_run i bps burst tok (a_now a) l
      else ideal_run i bps burst tokens last l
  end.

(** The verdicts on one interface. *)
Definition verdicts (i : Z) (l : list (Arrival * bool)) : list bool := (List.filter (fun e => a_if e.1 =? i) l).*2.

Lemma police_ideal i bps burst l : ∀ tokens last t1 maps,
  lane i bps burst tokens last maps → lane_ok bps burst tokens → timed last t1 l →
  verdicts i (police l maps).2 = ideal_run i bps burst tokens last l.
Proof.
  induction l as [|a l IH]; intros tokens last t1 maps Hl Hok Ht; [done|]. cbn [police ideal_run].
  destruct (timed_cons _ _ _ _ Ht) as (Hn & Hlen & Ht'). destruct (Z.eqb_spec (a_if a) i) as [<-|Hne].
  - destruct (ingress_same _ _ _ _ _ (a_len a) (a_now a) _ Hl) as [Hp Hl']; [destruct Hok; lia|].
    rewrite take_ideal_eq in Hp, Hl' by (done || lia). destruct (ideal _ _ _ _ _) as [pass tok] eqn:Ei.
    destruct (ideal_step bps burst tokens (a_now a - last) (a_len a) pass tok Hok ltac:(lia) Hlen Ei) as (Hok' & _ & _).
    destruct (ingress_pass _ _ _ _) as [maps' pass'] eqn:E. cbn in Hp, Hl'. subst pass'.
    specialize (IH _ _ t1 _ Hl' Hok' Ht'). destruct (police l maps') as [maps2 rest]. unfold verdicts in *. cbn [snd List.filter fst] in *.
    rewrite Z.eqb_refl. cbn. by rewrite IH.
  - pose proof (ingress_other i (a_if a) (a_len a) (a_now a) maps ltac:(congruence)) as Ho.
    destruct (ingress_pass _ _ _ _) as [maps' pass'] eqn:E. cbn in Ho.
    assert (Hl' : lane i bps burst tokens last maps') by (destruct Hl as (m & Hm & Hr); exists m; by rewrite Ho).
    specialize (IH _ _ t1 _ Hl' Hok (timed_weaken _ _ _ _ (proj1 Hn) Ht')). destruct (police l maps') as [maps2 rest]. unfold verdicts in *. cbn [snd List.filter fst] in *.
    apply Z.eqb_neq in Hne as ->. done.
Qed.

(** What [set_qos] programs. *)
Lemma set_qos_lane ifaces id im e p mbps maps maps' :
  1 ≤ mbps ≤ 147573 → ifaces !! id = Some im → set_qos ifaces id e p mbps maps = Some maps' →
  lane (im_ifindex im) (mbps * 125000) (mbps * 15625) (mbps * 15625) 0 maps' ∧ lane_ok (mbps * 125000) (mbps * 15625) (mbps * 15625).
Proof.
  intros Hm Hi. unfold set_qos. rewrite Hi. rewrite (proj2 (Z.eqb_neq mbps 0)) by lia. rewrite andb_false_r. intros [= <-].
  assert (H1 : saturating_mul mbps 1000000 / 8 = mbps * 125000).
  { unfold saturating_mul, u64_max. rewrite Z.min_r by lia. replace (mbps * 1000000) with (mbps * 125000 * 8) by lia. by apply Z.div_mul. }
  assert (H2 : mbps * 125000 / 8 = mbps * 15625) by (replace (mbps * 125000) with (mbps * 15625 * 8) by lia; by apply Z.div_mul).
  split; [|split; unfold max_bps; lia]. eexists. split; [apply lookup_insert_eq|]. unfold meter_state. cbn. rewrite H1, H2. split_and!; lia.
Qed.

(** ** Shaping *)

Fixpoint shape (l : list Arrival) (maps : Meters) : Meters * list (Arrival * option Z) :=
  match l with
  | [] => (maps, [])
  | a :: l =>
      let '(maps, dep) := edt_egress (a_if a) (a_len a) (a_now a) maps in
      let '(maps, rest) := shape l maps in
      (maps, (a, dep) :: rest)
  end.

Definition airtime (rate len : Z) : Z := len * SEC / rate.

(** Departures one after the other: each as soon as it may, the next not before
    the airtime of this one is over. *)
Fixpoint spaced (rate cursor : Z) (l : list (Arrival * option Z)) : Prop :=
  match l with
  | [] => True
  | (a, dep) :: l => dep = Some (Z.max cursor (a_now a)) ∧ spaced rate (Z.max cursor (a_now a) + airtime rate (a_len a)) l
  end.

Definition total_airtime (rate : Z) (l : list Arrival) : Z := foldr Z.add 0 ((fun a => airtime rate (a_len a)) <$> l).

Definition on_if {B : Type} (i : Z) (l : list (Arrival * B)) : list (Arrival * B) := List.filter (fun e => a_if e.1 =? i) l.

Definition egress_lane (i rate cursor : Z) (maps : Meters) : Prop :=
  ∃ m, maps !! i = Some m ∧ total_bps m = rate ∧ total_last_ns m = cursor.

Lemma airtime_nonneg rate len : 0 < rate → 0 ≤ len → 0 ≤ airtime rate len.
Proof. intros. apply Z.div_pos; unfold SEC; lia. Qed.

Lemma total_airtime_nonneg rate t0 t1 l : 0 < rate → timed t0 t1 l → 0 ≤ total_airtime rate l.
Proof.
  intros Hr [_ Hf]. unfold total_airtime. induction l as [|a l IH]; cbn; [done|]. apply Forall_cons in Hf as [[_ Hl] Hf].
  pose proof (airtime_nonneg rate (a_len a) Hr Hl). specialize (IH Hf). lia.
Qed.

(** Shaping drops and reorders nothing. *)
Lemma shape_arrivals l maps : (shape l maps).2.*1 = l.
Proof.
  revert maps. induction l as [|a l IH]; intros maps; [done|]. cbn. destruct (edt_egress _ _ _ _) as [maps' dep].
  specialize (IH maps'). destruct (shape l maps') as [maps2 rest]. cbn in *. by rewrite IH.
Qed.

Lemma shape_spaced i rate l : ∀ cursor t0 t1 maps,
  egress_lane i rate cursor maps → 0 < rate → timed t0 t1 l → Forall (fun a => a_len a ≤ 2 ^ 30) l →
  0 ≤ cursor → 0 ≤ t0 → Z.max cursor t1 + total_airtime rate l ≤ u64_max →
  spaced rate cursor (on_if i (shape l maps).2).
Proof.
  induction l as [|a l IH]; intros cursor t0 t1 maps Hl Hr Ht Hlen Hc H0 Hmax; [done|]. cbn [shape].
  destruct (timed_cons _ _ _ _ Ht) as (Hn & Hlen0 & Ht'). apply Forall_cons in Hlen as [Ha Hlen].
  pose proof (airtime_nonneg rate (a_len a) Hr Hlen0) as Hair. pose proof (total_airtime_nonneg _ _ _ _ Hr Ht') as Htot.
  assert (Hsum : total_airtime rate (a :: l) = airtime rate (a_len a) + total_airtime rate l) by done. rewrite Hsum in Hmax.
  destruct (Z.eqb_spec (a_if a) i) as [<-|Hne].
  - unfold edt_egress. destruct Hl as (m & Hm & Hmr & Hmc). rewrite Hm, Hmr. rewrite (proj2 (Z.eqb_neq rate 0)) by lia.
    unfold edt_departure. rewrite (proj2 (Z.eqb_neq rate 0)) by lia. rewrite Hmc.
    replace (if a_now a <? cursor then cursor else a_now a) with (Z.max cursor (a_now a)) by (destruct (Z.ltb_spec (a_now a) cursor); lia).
    replace (saturating_mul (a_len a) SEC) with (a_len a * SEC) by (unfold saturating_mul, u64_max, SEC in *; lia).
    fold (airtime rate (a_len a)). replace (saturating_add (Z.max cursor (a_now a)) (airtime rate (a_len a)))
      with (Z.max cursor (a_now a) + airtime rate (a_len a)) by (unfold saturating_add; lia).
    match goal with |- context [shape l ?maps] => specialize (IH (Z.max cursor (a_now a) + airtime rate (a_len a)) (a_now a) t1 maps);
      destruct (shape l maps) as [maps2 rest] end.
    unfold on_if in *. cbn [snd List.filter fst] in *. rewrite Z.eqb_refl. cbn [spaced]. split; [done|]. apply IH; try done; try lia.
    eexists. split; [apply lookup_insert_eq|]. done.
  - assert (Ho : (edt_egress (a_if a) (a_len a) (a_now a) maps).1 !! i = maps !! i).
    { unfold edt_egress. destruct (maps !! a_if a); [|done]. destruct (_ =? 0); [done|]. destruct (edt_departure _ _ _ _). cbn. by rewrite lookup_insert_ne. }
    destruct (edt_egress _ _ _ _) as [maps' dep]. cbn in Ho.
    specialize (IH cursor (a_now a) t1 maps'). destruct (shape l maps') as [maps2 rest]. unfold on_if in *. cbn [snd List.filter fst] in *.
    rewrite (proj2 (Z.eqb_neq _ _) Hne). apply IH; try done; try lia. destruct Hl as (m & Hm & ?). exists m. by rewrite Ho.
Qed.

(** Between a departure and a later one lies the airtime of everything sent from
    the first on. *)
Lemma spaced_between rate l1 : ∀ cursor a d l2 b d' l3,
  0 < rate → Forall (fun e => 0 ≤ a_len e.1) (l1 ++ (a, d) :: l2) → spaced rate cursor (l1 ++ (a, d) :: l2 ++ (b, d') :: l3) →
  ∃ t t', d = Some t ∧ d' = Some t' ∧ a_now a ≤ t ∧ t + airtime rate (a_len a) + total_airtime rate l2.*1 ≤ t'.
Proof.
  assert (Hlater : ∀ l2 cursor b d' l3, 0 < rate → Forall (fun e => 0 ≤ a_len e.1) l2 → spaced rate cursor (l2 ++ (b, d') :: l3) →
    ∃ t', d' = Some t' ∧ cursor + total_airtime rate l2.*1 ≤ t').
  { induction l2 as [|[c e] l2 IH]; intros cursor b d' l3 Hr Hf; cbn.
    - intros [-> _]. eexists. split; [done|]. unfold total_airtime. cbn. lia.
    - intros [_ Hs]. apply Forall_cons in Hf as [_ Hf]. destruct (IH _ _ _ _ Hr Hf Hs) as (t' & -> & Hle). exists t'. split; [done|].
      unfold total_airtime in *. cbn. lia. }
  induction l1 as [|[c e] l1 IH]; intros cursor a d l2 b d' l3 Hr Hf; cbn.
  - intros [-> Hs]. apply Forall_cons in Hf as [_ Hf]. destruct (Hlater _ _ _ _ _ Hr Hf Hs) as (t' & -> & Hle). eexists _, _. split_and!; [done|done|lia|lia].
  - intros [_ Hs]. apply Forall_cons in Hf as [_ Hf]. by eapply IH.
Qed.

(** ** Properties *)

(** C37. The ingress lane is a token bucket.  For an interface programmed with an
    ingress cap of [mbps], at least 1 and at most 147573 Mbit/s (above, the refill
    overflows 64 bits, [refill_overflows]), whatever arrives in order of time at it
    and at other interfaces, the verdicts are those of the bucket of [mbps] computed
    without machine integers, and in every window of time the bytes let through are
    at most an eighth of a second of the rate plus the rate times the length of the
    window. *)
Theorem police_rate ifaces id im e p mbps maps maps' pre win t0 t1 :
  1 ≤ mbps ≤ 147573 → ifaces !! id = Some im → set_qos ifaces id e p mbps maps = Some maps' →
  0 ≤ t0 ≤ t1 → timed 0 t0 pre → timed t0 t1 win →
  verdicts (im_ifindex im) (police pre maps').2 = ideal_run (im_ifindex im) (mbps * 125000) (mbps * 15625) (mbps * 15625) 0 pre ∧
  SEC * passed (im_ifindex im) (police win (police pre maps').1).2 ≤ SEC * (mbps * 15625) + mbps * 125000 * (t1 - t0).
Proof.
  intros Hm Hi Hq Ht Hpre Hwin. destruct (set_qos_lane _ _ _ _ _ _ _ _ Hm Hi Hq) as [Hl Hok]. split; [by eapply police_ideal|].
  destruct (police_lane _ _ _ _ _ _ _ _ Hl Hok Hpre (proj1 Ht)) as (tok & last & Hl' & Hok' & Hlast).
  eapply (police_window _ _ _ _ t0 tok last t1); [done|done|lia|done|lia].
Qed.

(** The egress lane paces: packets of an interface with an egress cap leave in
    order, none before it is sent, each as soon as the airtime of those before it
    is over; between two departures lies the airtime of all that was sent from the
    first on. *)
Theorem edt_paces ifaces id im mbps p i maps maps' l t1 :
  1 ≤ mbps ≤ 147573 → ifaces !! id = Some im → set_qos ifaces id mbps p i maps = Some maps' →
  timed 0 t1 l → Forall (fun a => a_len a ≤ 2 ^ 30) l → 0 ≤ t1 → t1 + total_airtime (mbps * 125000) l ≤ u64_max →
  spaced (mbps * 125000) 0 (on_if (im_ifindex im) (shape l maps').2) ∧
  ∀ l1 a d l2 b d' l3, on_if (im_ifindex im) (shape l maps').2 = l1 ++ (a, d) :: l2 ++ (b, d') :: l3 →
    ∃ t t', d = Some t ∧ d' = Some t' ∧ a_now a ≤ t ∧ t + airtime (mbps * 125000) (a_len a) + total_airtime (mbps * 125000) l2.*1 ≤ t'.
Proof.
  intros Hm Hi Hq Ht Hlen H1 Hmax.
  assert (Hl : egress_lane (im_ifindex im) (mbps * 125000) 0 maps').
  { unfold set_qos in Hq. rewrite Hi in Hq. rewrite (proj2 (Z.eqb_neq mbps 0)) in Hq by lia. injection Hq as <-.
    eexists. split; [apply lookup_insert_eq|]. unfold meter_state, saturating_mul, u64_max. cbn. split; [|done]. rewrite Z.min_r by lia.
    replace (mbps * 1000000) with (mbps * 125000 * 8) by lia. by apply Z.div_mul. }
  assert (Hs : spaced (mbps * 125000) 0 (on_if (im_ifindex im) (shape l maps').2)).
  { eapply (shape_spaced _ _ _ 0 0 t1); try done; lia. }
  split; [done|]. intros l1 a d l2 b d' l3 E. rewrite E in Hs. eapply spaced_between; [lia| |exact Hs].
  assert (Hf : Forall (fun e => 0 ≤ a_len e.1) (on_if (im_ifindex im) (shape l maps').2)).
  { apply Forall_forall. intros [x dx] Hx. apply list_elem_of_In in Hx. apply filter_In in Hx as [Hx _]. apply list_elem_of_In in Hx.
    destruct Ht as [_ Hf]. rewrite Forall_forall in Hf. apply (Hf x). rewrite <- (shape_arrivals l maps'). apply list_elem_of_fmap. by exists (x, dx). }
  rewrite E in Hf. apply Forall_app in Hf as [Hf1 Hf2]. apply Forall_app. split; [done|]. rewrite app_comm_cons in Hf2. by apply Forall_app in Hf2 as [? _].
Qed.

(** A cap above 147573 Mbit/s overflows the refill: at 200 Gbit/s an empty bucket
    idle for 737869763 ns is refilled with one byte, where 18446744075 bytes are due
    and the bucket holds 3125000000. *)
Theorem refill_overflows :
  refill (200000 * 125000) 737869763 = 1 ∧ 200000 * 125000 * 737869763 / SEC = 18446744075 ∧
  ingress_burst (meter_state 0 0 200000) = 3125000000.
Proof. vm_compute. done. Qed.

(** ** One interface *)

Module Capped.

Definition ifaces : gmap (list Z) IfaceMeta := {[ [118; 109] := mkIfaceMeta 100 [10; 0; 0; 2] [] [] 3 ]}.
Definition pre : list Arrival := [mkArrival 3 10 15000; mkArrival 4 20 9000; mkArrival 3 30 1000].
Definition win : list Arrival := [mkArrival 3 1000000 700; mkArrival 3 2000000 1500].

(** The meters of the two caps. *)
Definition policed : Meters := {[ 3 := meter_state 0 0 1 ]}.
Definition shaped : Meters := {[ 3 := meter_state 1 0 0 ]}.

End Capped.

Lemma police_rate_witness :
  set_qos Capped.ifaces [118; 109] 0 0 1 ∅ = Some Capped.policed ∧ verdicts 3 (police Capped.pre Capped.policed).2 = [true; false] ∧
  passed 3 (police Capped.win (police Capped.pre Capped.policed).1).2 = 700 ∧
  SEC * passed 3 (police Capped.win (police Capped.pre Capped.policed).1).2 ≤ SEC * (1 * 15625) + 1 * 125000 * (2000000 - 40).
Proof.
  assert (Hq : set_qos Capped.ifaces [118; 109] 0 0 1 ∅ = Some Capped.policed) by (vm_compute; reflexivity).
  split; [exact Hq|]. split; [vm_compute; reflexivity|]. split; [vm_compute; reflexivity|].
  apply (police_rate Capped.ifaces [118; 109] (mkIfaceMeta 100 [10; 0; 0; 2] [] [] 3) 0 0 1 ∅ Capped.policed Capped.pre Capped.win 40 2000000).
  - lia.
  - vm_compute. reflexivity.
  - exact Hq.
  - lia.
  - split; repeat constructor; cbn; lia.
  - split; repeat constructor; cbn; lia.
Defined.

Lemma edt_paces_witness :
  set_qos Capped.ifaces [118; 109] 1 0 0 ∅ = Some Capped.shaped ∧
  (on_if 3 (shape Capped.pre Capped.shaped).2).*2 = [Some 10; Some 120000010] ∧ spaced (1 * 125000) 0 (on_if 3 (shape Capped.pre Capped.shaped).2).
Proof.
  assert (Hq : set_qos Capped.ifaces [118; 109] 1 0 0 ∅ = Some Capped.shaped) by (vm_compute; reflexivity).
  split; [exact Hq|]. split; [vm_compute; reflexivity|].
  apply (edt_paces Capped.ifaces [118; 109] (mkIfaceMeta 100 [10; 0; 0; 2] [] [] 3) 1 0 0 ∅ Capped.shaped Capped.pre 40).
  - lia.
  - vm_compute. reflexivity.
  - exact Hq.
  - split; repeat constructor; cbn; lia.
  - repeat constructor; cbn; lia.
  - lia.
  - vm_compute. discriminate.
Defined.
