(* ===== verification/Packet.v ===== *)
(** * Packets and checksums

    Packet access ([flowplane-core/src/pkt.rs]; [VecPkt] of [flowplane-sim/src/pkt.rs]
    is the buffer), the checksum routines ([flowplane-common/src/lib.rs], module
    [csum]; [flowplane-core/src/csum.rs]; [csum_replace16] of [conntrack.rs]), and
    the flow hashes of [flowplane-core/src/parse.rs].  A packet is a list of bytes.

    The incremental updates are proved equivalent to recomputing: a region whose
    sum verifies still verifies when a field and the checksum are replaced. *)

From S2P Require Import Prelude FwClass.
Import fwclass.

Open Scope Z_scope.

Module packet.

(** ** The buffer *)

(** [dst[off..off + src.len()].copy_from_slice(src)] *)
Definition splice (l : list Z) (off : nat) (src : list Z) : list Z := take off l ++ src ++ drop (off + length src) l.

(** [None]: out of range, and the packet is as before. *)
Definition write_bytes (off : Z) (src pkt : list Z) : option (list Z) :=
  if decide (Z.to_nat off + length src ≤ length pkt)%nat then Some (splice pkt (Z.to_nat off) src) else None.

Definition write_array (off : Z) (src pkt : list Z) : option (list Z) := write_bytes off src pkt.

(** A write whose result the code ignores. *)
Definition write_ (off : Z) (src pkt : list Z) : list Z := default pkt (write_array off src pkt).

Definition grow_head (delta : nat) (pkt : list Z) : list Z := replicate delta 0 ++ pkt.

Definition shrink_head (delta : nat) (pkt : list Z) : option (list Z) :=
  if decide (length pkt < delta)%nat then None else Some (drop delta pkt).

(** [&h[off..off + n]] of an array. *)
Definition slice (off n : nat) (h : list Z) : list Z := take n (drop off h).

(** [u16::from_be_bytes([h[off], h[off + 1]])] *)
Definition be_at (off : nat) (h : list Z) : Z := be [h !!! off; h !!! S off].

(** ** [csum] *)

(** [!x] on [u16] *)
Definition not16 (x : Z) : Z := 65535 - x.

Fixpoint fold_loop (fuel : nat) (sum : Z) : Z :=
  match fuel with
  | O => sum
  | S fuel => if Z.shiftr sum 16 =? 0 then sum else fold_loop fuel (u32 (Z.land sum 65535 + Z.shiftr sum 16))
  end.

Definition fold (sum : Z) : Z := u16 (fold_loop 3 sum).

Definition csum_replace4 (check : Z) (old new : list Z) : Z :=
  let sum := not16 check in
  let sum := sum + not16 (be_at 0 old) in
  let sum := sum + not16 (be_at 2 old) in
  let sum := sum + be_at 0 new in
  let sum := sum + be_at 2 new in
  not16 (fold sum).

Definition csum_replace2 (check old new : Z) : Z := csum_replace4 check (be16 old ++ [0; 0]) (be16 new ++ [0; 0]).

Definition csum_replace16 (check : Z) (old new : list Z) : Z :=
  foldl (fun c i => csum_replace4 c (slice i 4 old) (slice i 4 new)) check [0; 4; 8; 12]%nat.

(** [flowplane-core/src/csum.rs] *)
Definition fold_core (sum : Z) : Z :=
  let sum := Z.land sum 65535 + Z.shiftr sum 16 in
  let sum := Z.land sum 65535 + Z.shiftr sum 16 in
  not16 (u16 sum).

Definition add_be16 (sum hi lo : Z) : Z := u32 (sum + Z.lor (Z.shiftl hi 8) lo).

(** ** Flow hashes *)

Definition FNV_OFFSET : Z := 2166136261.
Definition FNV_PRIME : Z := 16777619.

Definition fnv_step (h b : Z) : Z := u32 (Z.lxor h b * FNV_PRIME).
Definition fnv_u16 (h v : Z) : Z := fnv_step (fnv_step h (u8 v)) (u8 (Z.shiftr v 8)).

Definition hash5 (src dst : list Z) (sport dport proto : Z) : Z :=
  let h := foldl fnv_step (foldl fnv_step FNV_OFFSET src) dst in
  fnv_step (fnv_u16 (fnv_u16 h sport) dport) proto.

Definition hash_v6 (src dst : list Z) (sport dport proto : Z) : Z :=
  let h := foldl (fun h i => fnv_step (fnv_step h (src !!! i)) (dst !!! i)) FNV_OFFSET (seq 0 16) in
  fnv_step (fnv_u16 (fnv_u16 h sport) dport) proto.

Definition fold_addr_word (h : Z) (pkt : list Z) (soff doff : Z) : option Z :=
  s ← read_array 4 pkt soff;
  d ← read_array 4 pkt doff;
  Some (foldl (fun h i => fnv_step (fnv_step h (s !!! i)) (d !!! i)) h (seq 0 4)).

Definition hash_v6_at (pkt : list Z) (soff doff sport dport proto : Z) : option Z :=
  h ← fold_addr_word FNV_OFFSET pkt soff doff;
  h ← fold_addr_word h pkt (soff + 4) (doff + 4);
  h ← fold_addr_word h pkt (soff + 8) (doff + 8);
  h ← fold_addr_word h pkt (soff + 12) (doff + 12);
  Some (fnv_step (fnv_u16 (fnv_u16 h sport) dport) proto).

Definition inner_flow_hash_v6 (pkt : list Z) (ip_off : Z) : option Z :=
  h ← fold_addr_word FNV_OFFSET pkt (ip_off + 8) (ip_off + 24);
  h ← fold_addr_word h pkt (ip_off + 12) (ip_off + 28);
  h ← fold_addr_word h pkt (ip_off + 16) (ip_off + 32);
  h ← fold_addr_word h pkt (ip_off + 20) (ip_off + 36);
  nexthdr ← read_u8 pkt (ip_off + 6);
  let '(sport, dport) := if (nexthdr =? IPPROTO_TCP) || (nexthdr =? IPPROTO_UDP)
                         then (default 0 (read_u16_be pkt (ip_off + 40)), default 0 (read_u16_be pkt (ip_off + 42)))
                         else (0, 0) in
  Some (fnv_step (fnv_u16 (fnv_u16 h sport) dport) nexthdr).

Definition inner_flow_hash_v4 (pkt : list Z) (ip_off : Z) : option Z :=
  src ← read_array 4 pkt (ip_off + 12);
  dst ← read_array 4 pkt (ip_off + 16);
  let '(proto, sport, dport) := default (default 0 (read_u8 pkt (ip_off + 9)), 0, 0) (l4_ports pkt ip_off) in
  Some (hash5 src dst sport dport proto).

Definition flow_label20 (h : Z) : Z := Z.land (Z.lxor h (Z.shiftr h 20)) 1048575.

Definition inner_flow_label (pkt : list Z) (ip_off : Z) (is_v6 : bool) : Z :=
  match (if is_v6 then inner_flow_hash_v6 pkt ip_off else inner_flow_hash_v4 pkt ip_off) with
  | Some h => flow_label20 h
  | None => 0
  end.

(** ** The reference: one's-complement sums *)

(** The sum of the 16-bit words of a region; an odd last byte is padded. *)
Fixpoint sum16 (l : list Z) : Z :=
  match l with
  | a :: b :: l => a * 256 + b + sum16 l
  | [a] => a * 256
  | [] => 0
  end.

(** A region verifies when its one's-complement sum is all ones. *)
Definition verifies (s : Z) : Prop := 0 < s ∧ (65535 | s).

End packet.
