(* ===== verification/PacketFacts.v ===== *)
(** * Packets and checksums: lemmas

    Reads and writes through a prefix, sums of regions, and the equivalence of the
    incremental checksum updates with recomputing. *)

From S2P Require Import Prelude FwClass FwClassFacts Packet.
Import fwclass packet.

Open Scope Z_scope.

(** ** Reads and writes *)

Lemma splice_length l off src : (off + length src ≤ length l)%nat → length (splice l off src) = length l.
Proof. intros. unfold splice. rewrite !length_app, length_take, length_drop. lia. Qed.

Lemma splice_app_r l1 l2 off src : splice (l1 ++ l2) (length l1 + off) src = l1 ++ splice l2 off src.
Proof.
  unfold splice. rewrite take_app_add, <- app_assoc. f_equal. f_equal. f_equal. rewrite drop_app_ge by lia. f_equal. lia.
Qed.

Lemma splice_app_l l1 l2 off src : (off + length src ≤ length l1)%nat → splice (l1 ++ l2) off src = splice l1 off src ++ l2.
Proof. intros. unfold splice. rewrite take_app_le, drop_app_le by lia. by rewrite <- !app_assoc. Qed.

Lemma splice_bytes_ok l off src : bytes_ok l → bytes_ok src → bytes_ok (splice l off src).
Proof. intros. unfold splice, bytes_ok in *. apply Forall_app. split; [by apply Forall_take|]. apply Forall_app. split; [done|by apply Forall_drop]. Qed.

Lemma read_array_app_r n l1 l2 off : Z.of_nat (length l1) ≤ off → read_array n (l1 ++ l2) off = read_array n l2 (off - Z.of_nat (length l1)).
Proof.
  intros. unfold read_array. rewrite drop_app_ge by lia. by replace (Z.to_nat off - length l1)%nat with (Z.to_nat (off - Z.of_nat (length l1))) by lia.
Qed.

Lemma read_u16_app_r l1 l2 off : Z.of_nat (length l1) ≤ off → read_u16_be (l1 ++ l2) off = read_u16_be l2 (off - Z.of_nat (length l1)).
Proof. intros. unfold read_u16_be. by rewrite read_array_app_r. Qed.

Lemma read_u8_app_r l1 l2 off : Z.of_nat (length l1) ≤ off → read_u8 (l1 ++ l2) off = read_u8 l2 (off - Z.of_nat (length l1)).
Proof. intros. unfold read_u8. rewrite lookup_app_r by lia. f_equal. lia. Qed.

Lemma write_array_app_r l1 l2 off src :
  Z.of_nat (length l1) ≤ off → write_array off src (l1 ++ l2) = app l1 <$> write_array (off - Z.of_nat (length l1)) src l2.
Proof.
  intros. unfold write_array, write_bytes. rewrite length_app.
  replace (Z.to_nat off) with (length l1 + Z.to_nat (off - Z.of_nat (length l1)))%nat by lia.
  rewrite splice_app_r. case_decide; case_decide; try done; lia.
Qed.

Lemma read_array_Some n pkt off : 0 ≤ off → (Z.to_nat off + n ≤ length pkt)%nat → read_array n pkt off = Some (slice (Z.to_nat off) n pkt).
Proof. intros. unfold read_array, slice. rewrite decide_True; [done|]. rewrite length_take, length_drop. lia. Qed.

Lemma read_array_inv n pkt off l : read_array n pkt off = Some l → l = slice (Z.to_nat off) n pkt ∧ (n = 0%nat ∨ Z.to_nat off + n ≤ length pkt)%nat ∧ length l = n.
Proof.
  unfold read_array, slice. case_decide as Hl; [|done]. intros [= <-]. split; [done|]. split; [|done]. rewrite length_take, length_drop in Hl. lia.
Qed.

Lemma write_array_length off src pkt pkt' : write_array off src pkt = Some pkt' → length pkt' = length pkt.
Proof. unfold write_array, write_bytes. case_decide; [|done]. intros [= <-]. by apply splice_length. Qed.

Lemma write__length off src pkt : length (write_ off src pkt) = length pkt.
Proof. unfold write_. destruct (write_array off src pkt) eqn:E; [|done]. cbn. by eapply write_array_length. Qed.

Lemma write_array_bytes_ok off src pkt pkt' : bytes_ok pkt → bytes_ok src → write_array off src pkt = Some pkt' → bytes_ok pkt'.
Proof. intros ? ?. unfold write_array, write_bytes. case_decide; [|done]. intros [= <-]. by apply splice_bytes_ok. Qed.

Lemma write__bytes_ok off src pkt : bytes_ok pkt → bytes_ok src → bytes_ok (write_ off src pkt).
Proof. intros H H0. unfold write_. destruct (write_array off src pkt) eqn:E; [|done]. cbn. exact (write_array_bytes_ok _ _ _ _ H H0 E). Qed.

(** ** Sums *)

Lemma sum16_app l1 l2 : Nat.even (length l1) = true → sum16 (l1 ++ l2) = sum16 l1 + sum16 l2.
Proof.
  induction l1 as [l1 IH] using (well_founded_induction (well_founded_ltof _ (@length Z))). destruct l1 as [|a [|b l1]]; intros He; [done|done|].
  cbn [app sum16]. rewrite IH; [lia|unfold ltof; cbn; lia|done].
Qed.

Lemma sum16_nonneg l : bytes_ok l → 0 ≤ sum16 l.
Proof.
  induction l as [l IH] using (well_founded_induction (well_founded_ltof _ (@length Z))). destruct l as [|a [|b l]]; cbn [sum16]; intros Hl; [lia| |].
  - apply Forall_cons in Hl as [? _]. lia.
  - apply Forall_cons in Hl as [? Hl]. apply Forall_cons in Hl as [? Hl]. specialize (IH l ltac:(unfold ltof; cbn; lia) Hl). lia.
Qed.

(** Replacing words of a region. *)
Lemma sum16_splice l off src :
  (off + length src ≤ length l)%nat → Nat.even off = true → Nat.even (length src) = true →
  sum16 (splice l off src) = sum16 l - sum16 (slice off (length src) l) + sum16 src.
Proof.
  intros Hlen Ho Hs. unfold splice, slice.
  rewrite <- (take_drop off l) at 3. rewrite <- (take_drop (length src) (drop off l)) at 1. rewrite drop_drop.
  assert (He : Nat.even (length (take off l)) = true) by (rewrite length_take; by replace (off `min` length l)%nat with off by lia).
  assert (He' : Nat.even (length (take (length src) (drop off l))) = true).
  { rewrite length_take, length_drop. by replace (length src `min` (length l - off))%nat with (length src) by lia. }
  rewrite !(sum16_app (take off l)) by done. rewrite (sum16_app src) by done. rewrite (sum16_app (take (length src) (drop off l))) by done. lia.
Qed.

(** ** Folding *)

Lemma shiftr16 s : Z.shiftr s 16 = s / 65536.
Proof. by rewrite Z.shiftr_div_pow2. Qed.

Lemma land16 s : Z.land s 65535 = s mod 65536.
Proof. change 65535 with (Z.ones 16). by rewrite Z.land_ones. Qed.

(** One round keeps the residue and does not reach zero. *)
Lemma round_spec s : 0 ≤ s → let r := s mod 65536 + s / 65536 in (65535 | s - r) ∧ 0 ≤ r ∧ (r = 0 → s = 0).
Proof.
  intros Hs r. pose proof (Z.div_mod s 65536 ltac:(lia)). pose proof (Z.mod_pos_bound s 65536 ltac:(lia)).
  assert (0 ≤ s / 65536) by (apply Z.div_pos; lia). unfold r. split_and!; [exists (s / 65536); lia|lia|lia].
Qed.

Lemma fold_spec s : 0 ≤ s < 2 ^ 32 → 0 ≤ fold s ≤ 65535 ∧ (65535 | s - fold s) ∧ (fold s = 0 ↔ s = 0).
Proof.
  intros Hs. destruct (decide (s = 0)) as [->|Hs0]; [change (fold 0) with 0; split; [lia|split; [by exists 0|done]]|]. unfold fold, u16.
  assert (H : ∃ r, fold_loop 3 s = r ∧ 0 ≤ r ≤ 65535 ∧ (65535 | s - r) ∧ (r = 0 → s = 0)).
  { assert (Hstep : ∀ k s, 0 ≤ s < 2 ^ 32 → fold_loop (S k) s = if s / 65536 =? 0 then s else fold_loop k (s mod 65536 + s / 65536)).
    { intros k z Hz. cbn [fold_loop]. rewrite shiftr16, land16. destruct (_ =? 0); [done|]. f_equal. apply u32_small.
      pose proof (Z.mod_pos_bound z 65536 ltac:(lia)). assert (0 ≤ z / 65536 < 65536) by (split; [apply Z.div_pos; lia|apply Z.div_lt_upper_bound; lia]). lia. }
    rewrite Hstep by done. destruct (Z.eqb_spec (s / 65536) 0) as [E|E].
    { exists s. split; [done|]. assert (s < 65536) by (apply Z.div_small_iff in E; lia). split; [lia|]. split; [exists 0; lia|done]. }
    destruct (round_spec s) as (Hd1 & Hp1 & Hz1); [lia|]. set (r1 := s mod 65536 + s / 65536) in *.
    assert (Hr1 : r1 ≤ 131070).
    { unfold r1. pose proof (Z.mod_pos_bound s 65536 ltac:(lia)). assert (s / 65536 < 65536) by (apply Z.div_lt_upper_bound; lia). lia. }
    rewrite Hstep by lia. destruct (Z.eqb_spec (r1 / 65536) 0) as [E1|E1].
    { exists r1. split; [done|]. assert (r1 < 65536) by (apply Z.div_small_iff in E1; lia). split; [lia|]. split; [done|]. intros. apply Hz1. lia. }
    destruct (round_spec r1) as (Hd2 & Hp2 & Hz2); [lia|]. set (r2 := r1 mod 65536 + r1 / 65536) in *.
    assert (Hr2 : r2 < 65536).
    { unfold r2. pose proof (Z.div_mod r1 65536 ltac:(lia)). pose proof (Z.mod_pos_bound r1 65536 ltac:(lia)).
      assert (r1 / 65536 = 1). { assert (0 ≤ r1 / 65536 < 2) by (split; [apply Z.div_pos; lia|apply Z.div_lt_upper_bound; lia]). lia. } lia. }
    exists r2. rewrite Hstep by lia. rewrite (proj2 (Z.eqb_eq (r2 / 65536) 0)) by (apply Z.div_small; lia). split; [done|]. split; [lia|].
    split; [|intros; apply Hz1, Hz2; lia]. replace (s - r2) with ((s - r1) + (r1 - r2)) by lia. by apply Z.divide_add_r. }
  destruct H as (r & -> & Hr & Hd & Hz). rewrite Z.mod_small by lia. split; [lia|]. split; [done|]. split; [done|]. done.
Qed.

(** The core's two rounds are enough for any 32-bit sum. *)
Lemma fold_core_spec s : 0 ≤ s < 2 ^ 32 → fold_core s = not16 (fold s).
Proof.
  intros Hs. unfold fold_core, fold. f_equal. f_equal. cbn [fold_loop]. rewrite !shiftr16, !land16.
  pose proof (Z.mod_pos_bound s 65536 ltac:(lia)). assert (Hq : 0 ≤ s / 65536 < 65536) by (split; [apply Z.div_pos; lia|apply Z.div_lt_upper_bound; lia]).
  set (r1 := s mod 65536 + s / 65536). assert (Hr1 : 0 ≤ r1 ≤ 131070) by (unfold r1; lia).
  pose proof (Z.mod_pos_bound r1 65536 ltac:(lia)). pose proof (Z.div_mod r1 65536 ltac:(lia)).
  assert (Hq1 : 0 ≤ r1 / 65536 < 2) by (split; [apply Z.div_pos; lia|apply Z.div_lt_upper_bound; lia]).
  rewrite !(u32_small r1) by lia. set (r2 := r1 mod 65536 + r1 / 65536) in *. rewrite !(u32_small r2) by lia.
  assert (Hr2 : r2 / 65536 = 0) by (apply Z.div_small; lia). rewrite Hr2.
  destruct (Z.eqb_spec (s / 65536) 0) as [E|E].
  - assert (r1 = s) by (unfold r1; rewrite E, Z.mod_small; [lia|apply Z.div_small_iff in E; lia]). unfold r2. subst r1. rewrite H2, E, Z.mod_small by (apply Z.div_small_iff in E; lia). lia.
  - destruct (Z.eqb_spec (r1 / 65536) 0) as [E1|E1]; [unfold r2; rewrite E1, Z.mod_small by (apply Z.div_small_iff in E1; lia); lia|done].
Qed.

(** A sum verifies when the receiver's fold of it is zero. *)
Lemma fold_core_verifies s : 0 ≤ s < 2 ^ 32 → fold_core s = 0 ↔ verifies s.
Proof.
  intros Hs. rewrite fold_core_spec by done. destruct (fold_spec s Hs) as (Hr & Hd & Hz). unfold not16, verifies. split.
  - intros Hf. assert (Hf' : fold s = 65535) by lia. rewrite Hf' in *. split; [|replace s with (s - 65535 + 65535) by lia; apply Z.divide_add_r; [done|by exists 1]].
    destruct (decide (s = 0)) as [E|]; [|lia]. apply Hz in E. lia.
  - intros [Hp Hv]. assert (Hd' : (65535 | fold s)) by (replace (fold s) with (s - (s - fold s)) by lia; by apply Z.divide_sub_r).
    destruct Hd' as [q Hq]. assert (fold s ≠ 0) by (intros E; apply Hz in E; lia). lia.
Qed.

(** ** Incremental updates *)

Lemma be_at_range off h : bytes_ok h → 0 ≤ be_at off h ≤ 65535.
Proof. intros Hh. unfold be_at, be. cbn. pose proof (bytes_ok_lookup h off Hh). pose proof (bytes_ok_lookup h (S off) Hh). lia. Qed.

Lemma sum16_4 l : length l = 4%nat → sum16 l = be_at 0 l + be_at 2 l.
Proof. intros Hl. destruct l as [|a [|b [|c [|d [|]]]]]; try discriminate. unfold be_at, be. cbn. lia. Qed.

(** [c] verifies a region [c'] verified: what both make of the rest is the same. *)
Definition updates (c c' old new : Z) : Prop := 0 ≤ c' ≤ 65535 ∧ (65535 | c' + new - (c + old)).

Lemma csum_replace4_spec c old new :
  0 ≤ c ≤ 65535 → bytes_ok old → bytes_ok new → length old = 4%nat → length new = 4%nat →
  updates c (csum_replace4 c old new) (sum16 old) (sum16 new).
Proof.
  intros Hc Ho Hn Hlo Hln. unfold csum_replace4, not16, updates. rewrite !sum16_4 by done.
  pose proof (be_at_range 0 old Ho). pose proof (be_at_range 2 old Ho). pose proof (be_at_range 0 new Hn). pose proof (be_at_range 2 new Hn).
  match goal with |- context [fold ?s] => destruct (fold_spec s) as (Hr & [q Hq] & _); [lia|] end.
  split; [lia|]. exists (q - 2). lia.
Qed.

Lemma be16_bytes v : bytes_ok (be16 v) ∧ length (be16 v) = 2%nat.
Proof. split; [|done]. unfold be16, u8. repeat constructor; apply Z.mod_pos_bound; lia. Qed.

Lemma be_of_be16 v : 0 ≤ v ≤ 65535 → be (be16 v) = v.
Proof.
  intros Hv. unfold be, be16, u8. cbn. rewrite Z.shiftr_div_pow2 by lia. change (2 ^ 8) with 256. pose proof (Z.div_mod v 256 ltac:(lia)).
  rewrite (Z.mod_small (v / 256)); [lia|]. split; [apply Z.div_pos; lia|apply Z.div_lt_upper_bound; lia].
Qed.

Lemma sum16_be16 v : 0 ≤ v ≤ 65535 → sum16 (be16 v) = v.
Proof. intros Hv. rewrite <- (be_of_be16 v Hv) at 2. unfold be16, be. cbn. lia. Qed.

Lemma csum_replace2_spec c old new :
  0 ≤ c ≤ 65535 → 0 ≤ old ≤ 65535 → 0 ≤ new ≤ 65535 → updates c (csum_replace2 c old new) old new.
Proof.
  intros Hc Ho Hn. unfold csum_replace2.
  destruct (be16_bytes old) as [Hob Hol], (be16_bytes new) as [Hnb Hnl].
  destruct (csum_replace4_spec c (be16 old ++ [0; 0]) (be16 new ++ [0; 0])) as [Hr Hd]; [done| | |done|done|].
  - apply Forall_app. split; [done|]. repeat constructor; lia.
  - apply Forall_app. split; [done|]. repeat constructor; lia.
  - rewrite !sum16_app, !sum16_be16 in Hd by done. split; [done|]. cbn [sum16] in Hd. by replace (csum_replace4 c (be16 old ++ [0; 0]) (be16 new ++ [0; 0]) + new - (c + old))
      with (csum_replace4 c (be16 old ++ [0; 0]) (be16 new ++ [0; 0]) + (new + (0 * 256 + 0 + 0)) - (c + (old + (0 * 256 + 0 + 0)))) by lia.
Qed.

Lemma updates_trans c c' c'' o n o' n' : updates c c' o n → updates c' c'' o' n' → updates c c'' (o + o') (n + n').
Proof. intros [_ H1] [Hr H2]. split; [done|]. replace (c'' + (n + n') - (c + (o + o'))) with ((c' + n - (c + o)) + (c'' + n' - (c' + o'))) by lia. by apply Z.divide_add_r. Qed.

Lemma slice_ok off n l : bytes_ok l → (off + n ≤ length l)%nat → bytes_ok (slice off n l) ∧ length (slice off n l) = n.
Proof. intros Hl Hn. unfold slice. split; [by apply Forall_take, Forall_drop|]. rewrite length_take, length_drop. lia. Qed.

Lemma csum_replace16_spec c old new :
  0 ≤ c ≤ 65535 → bytes_ok old → bytes_ok new → length old = 16%nat → length new = 16%nat →
  updates c (csum_replace16 c old new) (sum16 old) (sum16 new).
Proof.
  intros Hc Ho Hn Hlo Hln. unfold csum_replace16. cbn [foldl].
  assert (Hs : ∀ l, length l = 16%nat → sum16 l = sum16 (slice 0 4 l) + sum16 (slice 4 4 l) + sum16 (slice 8 4 l) + sum16 (slice 12 4 l)).
  { intros l Hl. do 16 (destruct l as [|? l]; [discriminate|]). destruct l; [|discriminate]. unfold slice. cbn. lia. }
  rewrite (Hs old), (Hs new) by done.
  assert (Hstep : ∀ c i, 0 ≤ c ≤ 65535 → (i + 4 ≤ 16)%nat → updates c (csum_replace4 c (slice i 4 old) (slice i 4 new)) (sum16 (slice i 4 old)) (sum16 (slice i 4 new))).
  { intros c0 i Hc0 Hi. destruct (slice_ok i 4 old Ho ltac:(lia)), (slice_ok i 4 new Hn ltac:(lia)). by apply csum_replace4_spec. }
  pose proof (Hstep c 0%nat Hc ltac:(lia)) as H0. pose proof (Hstep _ 4%nat (proj1 H0) ltac:(lia)) as H1.
  pose proof (Hstep _ 8%nat (proj1 H1) ltac:(lia)) as H2. pose proof (Hstep _ 12%nat (proj1 H2) ltac:(lia)) as H3.
  pose proof (updates_trans _ _ _ _ _ _ _ (updates_trans _ _ _ _ _ _ _ (updates_trans _ _ _ _ _ _ _ H0 H1) H2) H3) as H. exact H.
Qed.

(** The point: a region that verifies with the old words and checksum verifies
    with the new ones. *)
Lemma updates_verifies rest c c' old new : updates c c' old new → 0 < rest + c' + new → verifies (rest + c + old) → verifies (rest + c' + new).
Proof.
  intros [_ Hd] Hp [_ Hv]. split; [done|]. replace (rest + c' + new) with ((rest + c + old) + (c' + new - (c + old))) by lia. by apply Z.divide_add_r.
Qed.

(** ** Regions of a rewritten buffer *)

Lemma slice_length off n l : (off + n ≤ length l)%nat → length (slice off n l) = n.
Proof. intros. unfold slice. rewrite length_take, length_drop. lia. Qed.

Lemma slice_lookup off n l i : (i < n)%nat → slice off n l !! i = l !! (off + i)%nat.
Proof. intros. unfold slice. by rewrite lookup_take_lt, lookup_drop by lia. Qed.

Lemma slice_total off n l i : (i < n)%nat → slice off n l !!! i = l !!! (off + i)%nat.
Proof. intros. rewrite !list_lookup_total_alt. by rewrite slice_lookup. Qed.

Lemma splice_lookup_in l off src i :
  (off ≤ i < off + length src)%nat → (off ≤ length l)%nat → splice l off src !! i = src !! (i - off)%nat.
Proof.
  intros Hi Hl. unfold splice. rewrite lookup_app_r; rewrite length_take, Nat.min_l by lia; [|lia]. apply lookup_app_l. lia.
Qed.

Lemma splice_lookup_out l off src i :
  (off + length src ≤ length l)%nat → (i < off ∨ off + length src ≤ i)%nat → splice l off src !! i = l !! i.
Proof.
  intros Hl [Hi|Hi]; unfold splice.
  - rewrite lookup_app_l by (rewrite length_take; lia). by apply lookup_take_lt.
  - rewrite lookup_app_r; rewrite length_take, Nat.min_l by lia; [|lia].
    rewrite lookup_app_r by lia. rewrite lookup_drop. f_equal. lia.
Qed.

Lemma splice_total_out l off src i :
  (off + length src ≤ length l)%nat → (i < off ∨ off + length src ≤ i)%nat → splice l off src !!! i = l !!! i.
Proof. intros. rewrite !list_lookup_total_alt. by rewrite splice_lookup_out. Qed.

(** What is written is read back; the rest is as before. *)
Lemma slice_splice_same l off src : (off + length src ≤ length l)%nat → slice off (length src) (splice l off src) = src.
Proof.
  intros. unfold slice, splice. rewrite drop_app_ge by (rewrite length_take; lia). rewrite length_take, Nat.min_l by lia.
  replace (off - off)%nat with 0%nat by lia. rewrite drop_0. by rewrite take_app_le, firstn_all by lia.
Qed.

Lemma slice_splice_out l off src o n :
  (off + length src ≤ length l)%nat → (o + n ≤ off ∨ off + length src ≤ o)%nat → slice o n (splice l off src) = slice o n l.
Proof.
  intros Hl Ho. apply list_eq. intros i. destruct (decide (i < n)%nat).
  - rewrite !slice_lookup by done. apply splice_lookup_out; [done|lia].
  - unfold slice. rewrite !lookup_take_ge by lia. done.
Qed.

Lemma slice_splice_in l off src o n :
  (off + length src ≤ length l)%nat → (o ≤ off)%nat → (off + length src ≤ o + n)%nat → (o + n ≤ length l)%nat →
  slice o n (splice l off src) = splice (slice o n l) (off - o) src.
Proof.
  intros Hl H1 H2 H3. pose proof (slice_length o n l H3). apply list_eq. intros i. destruct (decide (i < n)%nat) as [Hi|Hi].
  - rewrite slice_lookup by done. destruct (decide (off ≤ o + i < off + length src)%nat) as [Hin|Hout].
    + rewrite !splice_lookup_in by lia. f_equal. lia.
    + rewrite !splice_lookup_out by lia. by rewrite slice_lookup.
  - rewrite !lookup_ge_None_2; [done| |]; rewrite ?splice_length, ?slice_length; rewrite ?splice_length; lia.
Qed.

(** Reading a window, changing part of it and writing it back. *)
Lemma window_splice l o n off src :
  (o + n ≤ length l)%nat → (off + length src ≤ n)%nat → splice l o (splice (slice o n l) off src) = splice l (o + off) src.
Proof.
  intros H1 H2. pose proof (slice_length o n l H1) as Hsl.
  assert (Hw : length (splice (slice o n l) off src) = n) by (rewrite splice_length; lia).
  apply list_eq. intros i. destruct (decide (o ≤ i < o + n)%nat) as [Hi|Hi].
  - rewrite splice_lookup_in by lia. destruct (decide (off ≤ i - o < off + length src)%nat).
    + rewrite !splice_lookup_in by lia. f_equal. lia.
    + rewrite !splice_lookup_out by lia. rewrite slice_lookup by lia. f_equal. lia.
  - rewrite !splice_lookup_out by lia. done.
Qed.

Lemma window_id l o n : (o + n ≤ length l)%nat → splice l o (slice o n l) = l.
Proof.
  intros H. pose proof (slice_length o n l H). apply list_eq. intros i. destruct (decide (o ≤ i < o + n)%nat).
  - rewrite splice_lookup_in, slice_lookup by lia. f_equal. lia.
  - by rewrite splice_lookup_out by lia.
Qed.

Lemma splice_comm l o1 s1 o2 s2 :
  (o1 + length s1 ≤ length l)%nat → (o2 + length s2 ≤ length l)%nat → (o1 + length s1 ≤ o2 ∨ o2 + length s2 ≤ o1)%nat →
  splice (splice l o1 s1) o2 s2 = splice (splice l o2 s2) o1 s1.
Proof.
  intros H1 H2 Hd. apply list_eq. intros i.
  assert (Hl1 : length (splice l o1 s1) = length l) by (by apply splice_length).
  assert (Hl2 : length (splice l o2 s2) = length l) by (by apply splice_length).
  destruct (decide (o1 ≤ i < o1 + length s1)%nat) as [Hi|Hi].
  { rewrite (splice_lookup_out (splice l o1 s1)), (splice_lookup_in l), (splice_lookup_in (splice l o2 s2)) by lia. done. }
  rewrite (splice_lookup_out (splice l o2 s2)) by lia. destruct (decide (o2 ≤ i < o2 + length s2)%nat).
  - rewrite (splice_lookup_in (splice l o1 s1)), (splice_lookup_in l) by lia. done.
  - rewrite (splice_lookup_out (splice l o1 s1)), !(splice_lookup_out l) by lia. done.
Qed.
