(* ===== verification/Conntrack.v ===== *)
(** * Connection tracking

    The conntrack tables and what the datapath does with them
    ([flowplane-core/src/conntrack.rs], [flowplane-common/src/maps/ct.rs]) and the
    aging sweep ([flowplane/src/conntrack_gc.rs]).  The IPv4 and IPv6 keys differ
    only in the length of the addresses and are one type; so are the tables
    [CONNTRACK] and [CONNTRACK6].  Packet rewriting returns the packet, and whether
    it succeeded. *)

From S2P Require Import Prelude FwClass Packet.
Import fwclass packet.

Open Scope Z_scope.

Module conntrack.

(** ** Keys and entries *)

(** [CtKey], [CtKey6]. *)
Record CtKey := mkCtKey { vni : Z; src_ip : list Z; dst_ip : list Z; src_port : Z; dst_port : Z; proto : Z }.

#[export] Instance CtKey_eq : EqDecision CtKey.
Proof. solve_decision. Defined.

#[export] Instance CtKey_countable : Countable CtKey.
Proof.
  apply (inj_countable' (fun k => (vni k, src_ip k, dst_ip k, src_port k, dst_port k, proto k))
    (fun t => let '(v, s, d, sp, dp, p) := t in mkCtKey v s d sp dp p)). by intros [].
Defined.

Record CtEntry := mkCtEntry {
  last_seen : Z;
  xlate_ip : list Z;
  xlate_port : Z;
  flags : Z;
  tcp_state : Z;
  fwall_action : Z;
  policy_epoch : Z
}.

(** [NAT_CT6] values. *)
Record CtEntry6 := mkCtEntry6 { last_seen6 : Z; xlate_ip6 : list Z; xlate_port6 : Z; flags6 : Z; tcp_state6 : Z }.

Abbreviation Conntrack := (gmap CtKey CtEntry).

Definition CT_REWRITE_SRC : Z := 1.
Definition CT_REWRITE_DST : Z := 2.
Definition CT_F_SRC_NAT : Z := 4.
Definition CT_F_DST_LB : Z := 8.
Definition CT_F_DEFAULT : Z := 16.
Definition CT_F_NAT64 : Z := 64.
Definition CT_F_REPLY : Z := 128.

Definition TCP_NEW_SYN : Z := 1.
Definition TCP_NEW_SYNACK : Z := 2.
Definition TCP_ESTABLISHED : Z := 3.
Definition TCP_FINWAIT : Z := 4.
Definition TCP_RST_FIN : Z := 5.

(** [e.flags & mask != 0] *)
Definition has (e : CtEntry) (mask : Z) : bool := negb (Z.land (flags e) mask =? 0).

(** ** Keying *)

Definition ct_key (pkt : list Z) (ip_off v : Z) : option CtKey :=
  src ← read_array 4 pkt (ip_off + 12);
  dst ← read_array 4 pkt (ip_off + 16);
  let '(p, sport, dport) := default (default 0 (read_u8 pkt (ip_off + 9)), 0, 0) (l4_ports pkt ip_off) in
  Some (mkCtKey v src dst sport dport p).

Definition ct_key6 (pkt : list Z) (ip_off v : Z) : option CtKey :=
  src ← read_array 16 pkt (ip_off + 8);
  dst ← read_array 16 pkt (ip_off + 24);
  let '(p, sport, dport) := default (default 0 (read_u8 pkt (ip_off + 6)), 0, 0) (l4_ports_v6 pkt ip_off) in
  Some (mkCtKey v src dst sport dport p).

(** [invert_key], [invert_key6]. *)
Definition invert_key (k : CtKey) : CtKey := mkCtKey (vni k) (dst_ip k) (src_ip k) (dst_port k) (src_port k) (proto k).

(** ** TCP state *)

Definition TCP_FIN : Z := 1.
Definition TCP_SYN : Z := 2.
Definition TCP_RST : Z := 4.
Definition TCP_ACK : Z := 16.

Definition tcp_advance (state fl : Z) : Z :=
  if negb (Z.land fl TCP_RST =? 0) then TCP_RST_FIN
  else if negb (Z.land fl TCP_FIN =? 0) then TCP_FINWAIT
  else if negb (Z.land fl TCP_SYN =? 0) then if negb (Z.land fl TCP_ACK =? 0) then TCP_NEW_SYNACK else TCP_NEW_SYN
  else if negb (Z.land fl TCP_ACK =? 0) && ((state =? TCP_NEW_SYNACK) || (state =? TCP_NEW_SYN) || (state =? TCP_ESTABLISHED)) then TCP_ESTABLISHED
  else state.

Definition tcp_flags (pkt : list Z) (ip_off : Z) : option Z :=
  hdr ← read_array 20 pkt ip_off;
  if negb (hdr !!! 9%nat =? IPPROTO_TCP) then None
  else if negb (Z.land (hdr !!! 0%nat) 15 =? 5) then None
  else read_u8 pkt (ip_off + 20 + 13).

Definition tcp_flags_v6 (pkt : list Z) (ip_off : Z) : option Z :=
  if decide (read_u8 pkt (ip_off + 6) = Some IPPROTO_TCP) then read_u8 pkt (ip_off + 40 + 13) else None.

(** ** Aging *)

Definition DEFAULT_TIMEOUT_NS : Z := 30 * 1000000000.
Definition TCP_ESTABLISHED_TIMEOUT_NS : Z := 24 * 60 * 60 * 1000000000.

Definition timeout_ns (e : CtEntry) : Z := if tcp_state e =? TCP_ESTABLISHED then TCP_ESTABLISHED_TIMEOUT_NS else DEFAULT_TIMEOUT_NS.

Definition ct_is_expired (e : CtEntry) (now : Z) : bool := timeout_ns e <? Z.max 0 (now - last_seen e).

(** One pass of the sweep ([conntrack_gc::run]). *)
Definition sweep (now : Z) (ct : Conntrack) : Conntrack := filter (fun ke => ct_is_expired ke.2 now = false) ct.

(** ** Re-evaluation *)

Definition ct_needs_recheck (e : CtEntry) (epoch : Z) (fl : option Z) : bool :=
  let bare_syn := match fl with Some f => Z.land f (Z.lor TCP_SYN TCP_ACK) =? TCP_SYN | None => false end in
  let reply := has e (Z.lor CT_F_REPLY CT_REWRITE_DST) in
  bare_syn || (negb reply && negb (policy_epoch e =? epoch)).

Definition ct_hit_recheck (pkt : list Z) (ip_off : Z) (e : CtEntry) (epoch : Z) : bool := ct_needs_recheck e epoch (tcp_flags pkt ip_off).
Definition ct_hit_recheck6 (pkt : list Z) (ip_off : Z) (e : CtEntry) (epoch : Z) : bool := ct_needs_recheck e epoch (tcp_flags_v6 pkt ip_off).

(** Hardware offload. *)
Definition DISQUALIFY : Z := Z.lor (Z.lor (Z.lor (Z.lor CT_REWRITE_SRC CT_REWRITE_DST) CT_F_SRC_NAT) CT_F_DST_LB) CT_F_NAT64.

Definition offload_eligible (e : CtEntry) (epoch : Z) : bool :=
  has e CT_F_DEFAULT && (Z.land (flags e) DISQUALIFY =? 0) && bool_decide (xlate_ip e = replicate 4 0) &&
  (tcp_state e =? TCP_ESTABLISHED) && negb (ct_needs_recheck e epoch None).

Definition offload_eligible6 (e : CtEntry6) : bool :=
  negb (Z.land (flags6 e) CT_F_DEFAULT =? 0) && (Z.land (flags6 e) DISQUALIFY =? 0) && bool_decide (xlate_ip6 e = replicate 16 0) &&
  (tcp_state6 e =? TCP_ESTABLISHED).

(** ** The table *)

(** [ct_refresh], [ct_refresh6]: the flags are those of the packet. *)
Definition refreshed (fl : option Z) (e : CtEntry) (now epoch : Z) : CtEntry :=
  mkCtEntry now (xlate_ip e) (xlate_port e) (flags e) (match fl with Some f => tcp_advance (tcp_state e) f | None => tcp_state e end) (fwall_action e) epoch.

Definition ct_refresh (pkt : list Z) (ip_off : Z) (key : CtKey) (e : CtEntry) (now epoch : Z) (ct : Conntrack) : Conntrack :=
  <[key := refreshed (tcp_flags pkt ip_off) e now epoch]> ct.

Definition ct_refresh6 (pkt : list Z) (ip_off : Z) (key : CtKey) (e : CtEntry) (now epoch : Z) (ct : Conntrack) : Conntrack :=
  <[key := refreshed (tcp_flags_v6 pkt ip_off) e now epoch]> ct.

(** A default entry and, unless there is one, its reply entry. *)
Definition default_entry (fl : option Z) (fs now epoch : Z) : CtEntry :=
  mkCtEntry now (replicate 4 0) 0 fs (match fl with Some f => tcp_advance 0 f | None => 0 end) 0 epoch.

Definition insert_default (fl : option Z) (key : CtKey) (now epoch : Z) (ct : Conntrack) : Conntrack :=
  let ct := <[key := default_entry fl CT_F_DEFAULT now epoch]> ct in
  let rev := invert_key key in
  match ct !! rev with
  | None => <[rev := default_entry fl (Z.lor CT_F_DEFAULT CT_F_REPLY) now epoch]> ct
  | Some _ => ct
  end.

Definition ct_create_default (pkt : list Z) (ip_off v now epoch : Z) (ct : Conntrack) : Conntrack :=
  match ct_key pkt ip_off v with
  | None => ct
  | Some key => insert_default (tcp_flags pkt ip_off) key now epoch ct
  end.

Definition ct_create_default6 (pkt : list Z) (ip_off v now epoch : Z) (ct : Conntrack) : Conntrack :=
  match ct_key6 pkt ip_off v with
  | None => ct
  | Some key => insert_default (tcp_flags_v6 pkt ip_off) key now epoch ct
  end.

Definition forget (key : CtKey) (ct : Conntrack) : Conntrack :=
  let ct := delete key ct in
  let rev := invert_key key in
  match ct !! rev with
  | Some e => if flags e =? Z.lor CT_F_DEFAULT CT_F_REPLY then delete rev ct else ct
  | None => ct
  end.

Definition ct_forget_default (pkt : list Z) (ip_off v : Z) (ct : Conntrack) : Conntrack :=
  match ct_key pkt ip_off v with None => ct | Some key => forget key ct end.

Definition ct_forget_default6 (pkt : list Z) (ip_off v : Z) (ct : Conntrack) : Conntrack :=
  match ct_key6 pkt ip_off v with None => ct | Some key => forget key ct end.

(** ** Direct server return *)

Record DsrLbIP := mkDsr { lb_ip : list Z; dsr_last_seen : Z }.

(** [dsr_stash], [dsr_stash6]. *)
Definition dsr_stash (rev : CtKey) (ip : list Z) (now : Z) (dsr : gmap CtKey DsrLbIP) : gmap CtKey DsrLbIP :=
  match dsr !! rev with Some _ => dsr | None => <[rev := mkDsr ip now]> dsr end.

Definition dsr_note (pkt : list Z) (ip_off v : Z) (lb_ip4 : list Z) (now : Z) (dsr : gmap CtKey DsrLbIP) : gmap CtKey DsrLbIP :=
  match ct_key pkt ip_off v with
  | None => dsr
  | Some fwd => dsr_stash (invert_key fwd) (splice (replicate 16 0) 0 lb_ip4) now dsr
  end.

Definition dsr_note6 (pkt : list Z) (ip_off v : Z) (ip : list Z) (now : Z) (dsr : gmap CtKey DsrLbIP) : gmap CtKey DsrLbIP :=
  match ct_key6 pkt ip_off v with
  | None => dsr
  | Some fwd => dsr_stash (invert_key fwd) ip now dsr
  end.

(** ** Rewriting *)

(** The TCP and UDP windows of [ct_apply]: [port_rel] is the offset of the port. *)
Definition apply_tcp (l4 : Z) (port_rel : nat) (old new : list Z) (port : Z) (pkt : list Z) : list Z :=
  match read_array 18 pkt l4 with
  | None => pkt
  | Some h =>
      let c1 := csum_replace4 (be_at 16 h) old new in
      let c2 := if port =? 0 then c1 else csum_replace2 c1 (be_at port_rel h) port in
      let h := splice h 16 (be16 c2) in
      let h := if port =? 0 then h else splice h port_rel (be16 port) in
      write_ l4 h pkt
  end.

Definition apply_udp (l4 : Z) (port_rel : nat) (old new : list Z) (port : Z) (pkt : list Z) : list Z :=
  match read_array 8 pkt l4 with
  | None => pkt
  | Some h =>
      let c0 := be_at 6 h in
      let h := if c0 =? 0 then h
               else let c1 := csum_replace4 c0 old new in
                    splice h 6 (be16 (if port =? 0 then c1 else csum_replace2 c1 (be_at port_rel h) port)) in
      let h := if port =? 0 then h else splice h port_rel (be16 port) in
      write_ l4 h pkt
  end.

Definition apply_icmp (l4 port : Z) (pkt : list Z) : list Z :=
  match read_array 8 pkt l4 with
  | None => pkt
  | Some h =>
      let c1 := csum_replace2 (be_at 2 h) (be_at 4 h) port in
      write_ l4 (splice (splice h 2 (be16 c1)) 4 (be16 port)) pkt
  end.

Definition ct_apply (pkt : list Z) (ip_off : Z) (e : CtEntry) : list Z * bool :=
  if Z.land (flags e) (Z.lor CT_REWRITE_SRC CT_REWRITE_DST) =? 0 then (pkt, true)
  else match read_array 20 pkt ip_off with
       | None => (pkt, false)
       | Some ip =>
           if negb (Z.land (ip !!! 0%nat) 15 =? 5) then (pkt, false)
           else
             let p := ip !!! 9%nat in
             let rewrite_src := has e CT_REWRITE_SRC in
             let addr_rel := if rewrite_src then 12%nat else 16%nat in
             let old_addr := slice addr_rel 4 ip in
             let new_addr := xlate_ip e in
             let ip := splice ip 10 (be16 (csum_replace4 (be_at 10 ip) old_addr new_addr)) in
             let ip := splice ip addr_rel new_addr in
             match write_array ip_off ip pkt with
             | None => (pkt, false)
             | Some pkt =>
                 let l4 := ip_off + 20 in
                 let port_rel := if rewrite_src then 0%nat else 2%nat in
                 (if p =? IPPROTO_TCP then apply_tcp l4 port_rel old_addr new_addr (xlate_port e) pkt
                  else if p =? IPPROTO_UDP then apply_udp l4 port_rel old_addr new_addr (xlate_port e) pkt
                  else if (p =? IPPROTO_ICMP) && negb (xlate_port e =? 0) then apply_icmp l4 (xlate_port e) pkt
                  else pkt, true)
             end
       end.

Definition rewrite_v6_addr (pkt : list Z) (ip_off addr_off nexthdr : Z) (old new : list Z) : list Z * bool :=
  match write_array addr_off new pkt with
  | None => (pkt, false)
  | Some pkt =>
      let l4 := ip_off + 40 in
      (if nexthdr =? IPPROTO_TCP then
         match read_array 18 pkt l4 with
         | None => pkt
         | Some h => write_ l4 (splice h 16 (be16 (csum_replace16 (be_at 16 h) old new))) pkt
         end
       else if nexthdr =? IPPROTO_UDP then
         match read_array 8 pkt l4 with
         | None => pkt
         | Some h => write_ l4 (if be_at 6 h =? 0 then h else splice h 6 (be16 (csum_replace16 (be_at 6 h) old new))) pkt
         end
       else pkt, true)
  end.

(** The 1:1 destination rewrite of a floating IP ([datapath/mod.rs]). *)
Definition floating_ip_dnat_rewrite (pkt : list Z) (ip_off : Z) (old new : list Z) : list Z :=
  match write_array (ip_off + 16) new pkt with
  | None => pkt
  | Some pkt =>
      let pkt := match read_u16_be pkt (ip_off + 10) with
                 | Some ipc => write_ (ip_off + 10) (be16 (csum_replace4 ipc old new)) pkt
                 | None => pkt
                 end in
      match read_u8 pkt ip_off, read_u8 pkt (ip_off + 9) with
      | Some b, Some p =>
          let l4 := ip_off + Z.land b 15 * 4 in
          if p =? IPPROTO_TCP then apply_tcp l4 0 old new 0 pkt
          else if p =? IPPROTO_UDP then apply_udp l4 0 old new 0 pkt
          else pkt
      | _, _ => pkt
      end
  end.

End conntrack.
