(* ===== verification/Nat.v ===== *)
(** * Network address translation

    The source translation of guest traffic to the outside, IPv4 and IPv6, and the
    reverse translation of what comes back, the ICMP errors that quote a translated
    packet included ([flowplane-core/src/nat.rs]).  The port of a flow is found by
    probing for a reverse entry nobody holds, from a slot the flow hashes to. *)

From S2P Require Import Prelude FwClass Packet Conntrack.
Import fwclass packet conntrack.

Open Scope Z_scope.

Module nat.

(** [NatValue], [NatValue6]. *)
Record NatValue := mkNat { nat_ip : list Z; port_min : Z; port_max : Z }.

(** [NatOwner]. *)
Record NatOwner := mkOwner { underlay : list Z; owner_vni : Z; o_port_min : Z; o_port_max : Z }.

Definition PROBE_LIMIT : nat := 64.

(** [neighbor_nat_owner], [neighbor_nat_owner6]: [owner] is the answer of the map. *)
Definition neighbor_nat_owner (owner : option NatOwner) (v : Z) : option (list Z) :=
  match owner with
  | Some o => if owner_vni o =? v then Some (underlay o) else None
  | None => None
  end.

Inductive SnatOutcome := Continue | Exhausted | Untranslatable.

(** ** Ports *)

(** [port_max.wrapping_sub(port_min)] *)
Definition port_range (nat : NatValue) : Z := u16 (port_max nat - port_min nat).

(** The reverse entry of a port does not name the peer. *)
Definition rev_key (v p : Z) (ip : list Z) (port : Z) : CtKey := mkCtKey v (replicate (length ip) 0) ip 0 port p.

Definition candidate (nat : NatValue) (start i : Z) : Z := u16 (port_min nat + u16 (start + i) mod port_range nat).

Fixpoint find_port {E : Type} (fuel : nat) (i : Z) (nat : NatValue) (v p start : Z) (ct : gmap CtKey E) : option Z :=
  match fuel with
  | O => None
  | S fuel =>
      let cand := candidate nat start i in
      match ct !! rev_key v p (nat_ip nat) cand with
      | None => Some cand
      | Some _ => find_port fuel (i + 1) nat v p start ct
      end
  end.

Definition rev_entry (src : list Z) (sport now : Z) : CtEntry := mkCtEntry now src sport (Z.lor CT_REWRITE_DST CT_F_SRC_NAT) 0 0 0.
Definition fwd_entry (ip : list Z) (port now epoch : Z) : CtEntry := mkCtEntry now ip port (Z.lor CT_REWRITE_SRC CT_F_SRC_NAT) 0 0 epoch.

(** The port of a flow, and the table with both its entries. *)
Definition snat_port (nat : NatValue) (fwd : CtKey) (now epoch : Z) (ct : Conntrack) : option (Z * Conntrack) :=
  let alloc :=
    let start := u16 (hash5 (src_ip fwd) (dst_ip fwd) (src_port fwd) (dst_port fwd) (proto fwd) mod port_range nat) in
    match find_port PROBE_LIMIT 0 nat (vni fwd) (proto fwd) start ct with
    | None => None
    | Some chosen =>
        let ct := <[rev_key (vni fwd) (proto fwd) (nat_ip nat) chosen := rev_entry (src_ip fwd) (src_port fwd) now]> ct in
        Some (chosen, <[fwd := fwd_entry (nat_ip nat) chosen now epoch]> ct)
    end in
  match ct !! fwd with
  | Some e => if has e CT_F_SRC_NAT then Some (xlate_port e, ct) else alloc
  | None => alloc
  end.

(** ** IPv4 *)

(** The rewrite of the source address and port. *)
Definition snat_rewrite (pkt hdr : list Z) (ip_off : Z) (nat : NatValue) (p sport nat_port : Z) : list Z :=
  let src := slice 12 4 hdr in
  let ihl := Z.land (hdr !!! 0%nat) 15 * 4 in
  match write_array (ip_off + 12) (nat_ip nat) pkt with
  | None => pkt
  | Some pkt =>
      let pkt := match read_u16_be pkt (ip_off + 10) with
                 | Some ipc => write_ (ip_off + 10) (be16 (csum_replace4 ipc src (nat_ip nat))) pkt
                 | None => pkt
                 end in
      let l4 := ip_off + ihl in
      if p =? IPPROTO_TCP then
        match read_array 18 pkt l4 with
        | None => pkt
        | Some h =>
            let c1 := csum_replace4 (be_at 16 h) src (nat_ip nat) in
            let c2 := csum_replace2 c1 sport nat_port in
            write_ l4 (splice (splice h 16 (be16 c2)) 0 (be16 nat_port)) pkt
        end
      else if p =? IPPROTO_UDP then
        match read_array 8 pkt l4 with
        | None => pkt
        | Some h =>
            let c0 := be_at 6 h in
            let h := if c0 =? 0 then h else splice h 6 (be16 (csum_replace2 (csum_replace4 c0 src (nat_ip nat)) sport nat_port)) in
            write_ l4 (splice h 0 (be16 nat_port)) pkt
        end
      else if p =? IPPROTO_ICMP then
        match read_array 8 pkt l4 with
        | None => pkt
        | Some h =>
            let c1 := csum_replace2 (be_at 2 h) sport nat_port in
            write_ l4 (splice (splice h 2 (be16 c1)) 4 (be16 nat_port)) pkt
        end
      else pkt
  end.

(** [nats] is the map [NAT]. *)
Definition snat_egress (nats : gmap (Z * list Z) NatValue) (pkt : list Z) (ct : Conntrack) (ip_off v : Z) (is_external : bool) (now epoch : Z)
    : SnatOutcome * list Z * Conntrack :=
  if negb is_external then (Continue, pkt, ct)
  else match read_array 20 pkt ip_off with
       | None => (Continue, pkt, ct)
       | Some hdr =>
           let src := slice 12 4 hdr in
           let dst := slice 16 4 hdr in
           match nats !! (v, src) with
           | None => (Continue, pkt, ct)
           | Some nat =>
               if port_range nat =? 0 then (Continue, pkt, ct)
               else match l4_ports pkt ip_off with
                    | None => (Untranslatable, pkt, ct)
                    | Some (p, sport, dport) =>
                        match snat_port nat (mkCtKey v src dst sport dport p) now epoch ct with
                        | None => (Exhausted, pkt, ct)
                        | Some (nat_port, ct) => (Continue, snat_rewrite pkt hdr ip_off nat p sport nat_port, ct)
                        end
                    end
           end
       end.

(** ** ICMP errors *)

Definition is_icmp_error_type (t : Z) : bool := (t =? 3) || (t =? 11) || (t =? 12).

Definition nat_icmp_error_origin (pkt : list Z) (ip_off : Z) : option (list Z * Z * Z) :=
  b ← read_u8 pkt ip_off;
  if negb (Z.land b 15 =? 5) then None
  else
    p ← read_u8 pkt (ip_off + 9);
    if negb (p =? IPPROTO_ICMP) then None
    else
      let icmp_off := ip_off + 20 in
      t ← read_u8 pkt icmp_off;
      if negb (is_icmp_error_type t) then None
      else
        let q := icmp_off + 8 in
        b ← read_u8 pkt q;
        if negb (Z.land b 15 =? 5) then None
        else
          quoted_proto ← read_u8 pkt (q + 9);
          if negb (quoted_proto =? IPPROTO_TCP) && negb (quoted_proto =? IPPROTO_UDP) then None
          else
            quoted_src ← read_array 4 pkt (q + 12);
            quoted_sport ← read_u16_be pkt (q + 20);
            Some (quoted_src, quoted_sport, quoted_proto).

Definition nat_icmp_error_relay_port (pkt : list Z) (ip_off : Z) (expect_src : list Z) : option Z :=
  '(quoted_src, quoted_sport, _) ← nat_icmp_error_origin pkt ip_off;
  if decide (quoted_src = expect_src) then Some quoted_sport else None.

Definition nat_icmp_error_return_rewrite (pkt : list Z) (ip_off : Z) (e : CtEntry) : list Z * bool :=
  match nat_icmp_error_origin pkt ip_off with
  | None => (pkt, false)
  | Some (_, _, quoted_proto) =>
      let new_ip := xlate_ip e in
      let new_port := xlate_port e in
      match read_array 20 pkt ip_off with
      | None => (pkt, false)
      | Some outer =>
          let old_dst := slice 16 4 outer in
          let outer := splice outer 10 (be16 (csum_replace4 (be_at 10 outer) old_dst new_ip)) in
          match write_array ip_off (splice outer 16 new_ip) pkt with
          | None => (pkt, false)
          | Some pkt =>
              let icmp_off := ip_off + 20 in
              match read_array 36 pkt icmp_off with
              | None => (pkt, false)
              | Some w =>
                  let old_src := slice 20 4 w in
                  let old_sport := be_at 28 w in
                  let icmp_c := be_at 2 w in
                  let q_old_c := be_at 18 w in
                  let q_new_c := csum_replace4 q_old_c old_src new_ip in
                  let icmp_c := csum_replace2 icmp_c q_old_c q_new_c in
                  let icmp_c := csum_replace4 icmp_c old_src new_ip in
                  let icmp_c := csum_replace2 icmp_c old_sport new_port in
                  let '(icmp_c, w) :=
                    if quoted_proto =? IPPROTO_UDP then
                      let u_old := be_at 34 w in
                      if u_old =? 0 then (icmp_c, w)
                      else
                        let u_new := csum_replace2 (csum_replace4 u_old old_src new_ip) old_sport new_port in
                        (csum_replace2 icmp_c u_old u_new, splice w 34 (be16 u_new))
                    else (icmp_c, w) in
                  let w := splice w 2 (be16 icmp_c) in
                  let w := splice w 18 (be16 q_new_c) in
                  let w := splice w 20 new_ip in
                  let w := splice w 28 (be16 new_port) in
                  match write_array icmp_off w pkt with Some pkt => (pkt, true) | None => (pkt, false) end
              end
          end
      end
  end.

(** ** IPv6 *)

Definition is_icmpv6_error_type (t : Z) : bool := (t =? 1) || (t =? 2) || (t =? 3) || (t =? 4).

Definition nat_icmp_error_origin6 (pkt : list Z) (ip_off : Z) : option (list Z * Z * Z) :=
  p ← read_u8 pkt (ip_off + 6);
  if negb (p =? IPPROTO_ICMPV6) then None
  else
    let icmp_off := ip_off + 40 in
    t ← read_u8 pkt icmp_off;
    if negb (is_icmpv6_error_type t) then None
    else
      let q := icmp_off + 8 in
      quoted_next_hdr ← read_u8 pkt (q + 6);
      if negb (quoted_next_hdr =? IPPROTO_TCP) && negb (quoted_next_hdr =? IPPROTO_UDP) then None
      else
        quoted_src ← read_array 16 pkt (q + 8);
        quoted_sport ← read_u16_be pkt (q + 40);
        Some (quoted_src, quoted_sport, quoted_next_hdr).

(** The source is compared a word at a time. *)
Fixpoint same_words (pkt : list Z) (off : Z) (expect : list Z) (words : list nat) : option bool :=
  match words with
  | [] => Some true
  | i :: words =>
      w ← read_array 4 pkt (off + Z.of_nat i);
      if decide (w = slice i 4 expect) then same_words pkt off expect words else Some false
  end.

Definition nat_icmp_error_relay_port6 (pkt : list Z) (ip_off : Z) (expect_src : list Z) : option Z :=
  p ← read_u8 pkt (ip_off + 6);
  if negb (p =? IPPROTO_ICMPV6) then None
  else
    let icmp_off := ip_off + 40 in
    t ← read_u8 pkt icmp_off;
    if negb (is_icmpv6_error_type t) then None
    else
      let q := icmp_off + 8 in
      quoted_next_hdr ← read_u8 pkt (q + 6);
      if negb (quoted_next_hdr =? IPPROTO_TCP) && negb (quoted_next_hdr =? IPPROTO_UDP) then None
      else
        same ← same_words pkt (q + 8) expect_src [0; 4; 8; 12]%nat;
        if (same : bool) then read_u16_be pkt (q + 40) else None.

Definition nat_icmp_error_return_rewrite6 (pkt : list Z) (ip_off : Z) (e : CtEntry6) : list Z * bool :=
  match nat_icmp_error_origin6 pkt ip_off with
  | None => (pkt, false)
  | Some (_, _, quoted_next_hdr) =>
      let new_port := xlate_port6 e in
      let icmp_off := ip_off + 40 in
      let q := icmp_off + 8 in
      match read_u16_be pkt (icmp_off + 2), read_u16_be pkt (q + 40), read_array 16 pkt (q + 8) with
      | Some icmp_c, Some old_sport, Some old_src =>
          let udp := if quoted_next_hdr =? IPPROTO_UDP then
                       match read_u16_be pkt (q + 46) with
                       | Some u_old =>
                           if u_old =? 0 then Some (icmp_c, pkt)
                           else
                             let u_new := csum_replace2 (csum_replace16 u_old old_src (xlate_ip6 e)) old_sport new_port in
                             match write_array (q + 46) (be16 u_new) pkt with
                             | Some pkt => Some (csum_replace2 icmp_c u_old u_new, pkt)
                             | None => None
                             end
                       | None => Some (icmp_c, pkt)
                       end
                     else Some (icmp_c, pkt) in
          match udp with
          | None => (pkt, false)
          | Some (icmp_c, pkt) =>
              let icmp_c := csum_replace16 icmp_c old_src (xlate_ip6 e) in
              match write_array (q + 8) (xlate_ip6 e) pkt with
              | None => (pkt, false)
              | Some pkt =>
                  let icmp_c := csum_replace2 icmp_c old_sport new_port in
                  match write_array (q + 40) (be16 new_port) pkt with
                  | None => (pkt, false)
                  | Some pkt =>
                      match read_array 16 pkt (ip_off + 24) with
                      | None => (pkt, false)
                      | Some old_dst =>
                          let icmp_c := csum_replace16 icmp_c old_dst (xlate_ip6 e) in
                          match write_array (ip_off + 24) (xlate_ip6 e) pkt with
                          | None => (pkt, false)
                          | Some pkt => match write_array (icmp_off + 2) (be16 icmp_c) pkt with Some pkt => (pkt, true) | None => (pkt, false) end
                          end
                      end
                  end
              end
          end
      | _, _, _ => (pkt, false)
      end
  end.

(** One rewrite of an IPv6 L4 header: the checksum at [c], the port at [at_], both
    within a window of [n] bytes. *)
Definition fold_l4_6 (n c at_ : nat) (zero_stays : bool) (l4 : Z) (old new : list Z) (old_port : option Z) (port : Z) (pkt : list Z) : list Z :=
  match read_array n pkt l4 with
  | None => pkt
  | Some h =>
      let old_port := default (be_at at_ h) old_port in
      let c0 := be_at c h in
      let h := if zero_stays && (c0 =? 0) then h else splice h c (be16 (csum_replace2 (csum_replace16 c0 old new) old_port port)) in
      write_ l4 (splice h at_ (be16 port)) pkt
  end.

Definition nat_return_rewrite6 (pkt : list Z) (ip_off : Z) (e : CtEntry6) : list Z :=
  match read_array 16 pkt (ip_off + 24) with
  | None => pkt
  | Some old_dst =>
      let p := default 0 (read_u8 pkt (ip_off + 6)) in
      match write_array (ip_off + 24) (xlate_ip6 e) pkt with
      | None => pkt
      | Some pkt =>
          let l4 := ip_off + 40 in
          if p =? IPPROTO_TCP then fold_l4_6 18 16 2 false l4 old_dst (xlate_ip6 e) None (xlate_port6 e) pkt
          else if p =? IPPROTO_UDP then fold_l4_6 8 6 2 true l4 old_dst (xlate_ip6 e) None (xlate_port6 e) pkt
          else if p =? IPPROTO_ICMPV6 then fold_l4_6 8 2 4 false l4 old_dst (xlate_ip6 e) None (xlate_port6 e) pkt
          else pkt
      end
  end.

Definition snat6_pick_port (nat : NatValue) (fwd : CtKey) (now : Z) (ct : gmap CtKey CtEntry6) : option (Z * gmap CtKey CtEntry6) :=
  let alloc :=
    if port_range nat =? 0 then None
    else
      let start := u16 (hash_v6 (src_ip fwd) (dst_ip fwd) (src_port fwd) (dst_port fwd) (proto fwd) mod port_range nat) in
      match find_port PROBE_LIMIT 0 nat (vni fwd) (proto fwd) start ct with
      | None => None
      | Some cand =>
          let ct := <[rev_key (vni fwd) (proto fwd) (nat_ip nat) cand := mkCtEntry6 now (src_ip fwd) (src_port fwd) (Z.lor CT_REWRITE_DST CT_F_SRC_NAT) 0]> ct in
          Some (cand, <[fwd := mkCtEntry6 now (nat_ip nat) cand (Z.lor CT_REWRITE_SRC CT_F_SRC_NAT) 0]> ct)
      end in
  match ct !! fwd with
  | Some e => if Z.land (flags6 e) CT_F_SRC_NAT =? 0 then alloc else Some (xlate_port6 e, ct)
  | None => alloc
  end.

Definition snat6_apply_rewrite (pkt : list Z) (ip_off : Z) (fwd : CtKey) (nat : NatValue) (nat_port : Z) : list Z :=
  match write_array (ip_off + 8) (nat_ip nat) pkt with
  | None => pkt
  | Some pkt =>
      let l4 := ip_off + 40 in
      if proto fwd =? IPPROTO_TCP then
        match read_u16_be pkt (l4 + 16) with
        | None => pkt
        | Some c0 =>
            let c2 := csum_replace2 (csum_replace16 c0 (src_ip fwd) (nat_ip nat)) (src_port fwd) nat_port in
            write_ l4 (be16 nat_port) (write_ (l4 + 16) (be16 c2) pkt)
        end
      else if proto fwd =? IPPROTO_UDP then fold_l4_6 8 6 0 true l4 (src_ip fwd) (nat_ip nat) (Some (src_port fwd)) nat_port pkt
      else if proto fwd =? IPPROTO_ICMPV6 then fold_l4_6 8 2 4 false l4 (src_ip fwd) (nat_ip nat) (Some (src_port fwd)) nat_port pkt
      else pkt
  end.

Definition snat_egress6 (nats : gmap (Z * list Z) NatValue) (pkt : list Z) (ct : gmap CtKey CtEntry6) (ip_off v : Z) (is_external : bool) (now : Z)
    : SnatOutcome * list Z * gmap CtKey CtEntry6 :=
  if negb is_external then (Continue, pkt, ct)
  else match read_array 16 pkt (ip_off + 8) with
       | None => (Continue, pkt, ct)
       | Some src =>
           match nats !! (v, src) with
           | None => (Continue, pkt, ct)
           | Some nat =>
               if port_range nat =? 0 then (Continue, pkt, ct)
               else match l4_ports_v6 pkt ip_off, read_array 16 pkt (ip_off + 24) with
                    | Some (p, sport, dport), Some dst =>
                        let fwd := mkCtKey v src dst sport dport p in
                        match snat6_pick_port nat fwd now ct with
                        | None => (Exhausted, pkt, ct)
                        | Some (nat_port, ct) => (Continue, snat6_apply_rewrite pkt ip_off fwd nat nat_port, ct)
                        end
                    | _, _ => (Continue, pkt, ct)
                    end
           end
       end.

End nat.
