(* ===== verification/Nat64.v ===== *)
(** * NAT64

    The translation between a guest's IPv6 packets to [64:ff9b::/96] and IPv4
    ([flowplane-core/src/nat64.rs]).  Both directions are a reader that runs on the
    frame as it came and a writer that runs on the resized frame.  Checksums are
    kept in host order; the code keeps them as they lie in the packet. *)

From S2P Require Import Prelude FwClass Packet Conntrack Nat.
Import fwclass packet conntrack nat.

Open Scope Z_scope.

Module nat64.

Definition ETH_LEN : Z := 14.
Definition IPV6_LEN : Z := 40.
Definition ETH_P_IP : Z := 2048.
Definition ETH_P_IPV6 : Z := 34525.

Definition ICMPV6_ECHO_REQUEST : Z := 128.
Definition ICMP_ECHO_REQUEST : Z := 8.
Definition ICMPV6_ECHO_REPLY : Z := 129.

Definition NAT64_PFX : list Z := [0; 100; 255; 155; 0; 0; 0; 0; 0; 0; 0; 0].

Definition is_nat64_addr (addr : list Z) : bool := bool_decide (take 12 addr = NAT64_PFX).
Definition nat64_embed (ipv4 : list Z) : list Z := NAT64_PFX ++ ipv4.

(** ** Checksums *)

(** [csum_add16] over the pairs of an array of even length. *)
Fixpoint add_words (s : Z) (l : list Z) : Z :=
  match l with
  | hi :: lo :: l => add_words (add_be16 s hi lo) l
  | _ => s
  end.

Definition ipv4_hdr_checksum (hdr : list Z) : Z := fold_core (add_words 0 hdr).
Definition icmpv4_echo_checksum (hdr : list Z) : Z := fold_core (add_words 0 hdr).

(** The two rounds at the end of both pseudo-header sums. *)
Definition rounds (s : Z) : Z :=
  let s := Z.land s 65535 + Z.shiftr s 16 in
  Z.land s 65535 + Z.shiftr s 16.

Definition pseudo_v4 (src dst : list Z) (p l4_len : Z) : Z :=
  rounds (add_words 0 (src ++ dst ++ [0; p] ++ be16 l4_len)).

Definition pseudo_v6 (src dst : list Z) (p l4_len : Z) : Z :=
  rounds (add_words 0 (src ++ dst ++ [0; 0] ++ be16 l4_len ++ [0; p])).

Definition tcp_udp_v6_to_v4 (cksum : Z) (src6 dst6 src4 dst4 : list Z) (p l4_len old_sport new_sport : Z) : Z :=
  let pv6 := pseudo_v6 src6 dst6 p l4_len in
  let pv4 := pseudo_v4 src4 dst4 p l4_len in
  let sum := u32 (u32 (u32 (u32 (not16 cksum + not16 (u16 pv6)) + pv4) + not16 old_sport) + new_sport) in
  not16 (u16 (rounds sum)).

Definition icmpv6_echo_checksum (src dst hdr : list Z) : Z :=
  fold_core (add_words 0 (src ++ dst ++ [0; 8] ++ [0; IPPROTO_ICMPV6] ++ hdr)).

Definition tcp_udp_v4_to_v6 (cksum : Z) (src4 dst4 src6 dst6 : list Z) (p l4_len : Z) : Z :=
  let pv4 := pseudo_v4 src4 dst4 p l4_len in
  let pv6 := pseudo_v6 src6 dst6 p l4_len in
  let sum := u32 (u32 (not16 cksum + not16 (u16 pv4)) + pv6) in
  not16 (u16 (rounds sum)).

(** ** Out *)

Record Nat64Xlate := mkXlate {
  x_nat_ipv4 : list Z;
  x_ipv4_dst : list Z;
  x_nat_port : Z;
  x_l4_proto_v4 : Z;
  x_sport : Z;
  x_l4_len : Z;
  x_hop_limit : Z;
  x_ip6_src : list Z;
  x_ip6_dst : list Z;
  x_old_l4_cksum : Z;
  x_eth_dst : list Z;
  x_eth_src : list Z
}.

(** Protocol, ports and checksum of what can be translated. *)
Definition egress_l4 (pkt : list Z) (l4 nh : Z) : option (Z * Z * Z * Z) :=
  if nh =? IPPROTO_ICMPV6 then
    t ← read_u8 pkt l4;
    if negb (t =? ICMPV6_ECHO_REQUEST) then None
    else i ← read_u16_be pkt (l4 + 4); c ← read_u16_be pkt (l4 + 2); Some (IPPROTO_ICMP, i, i, c)
  else if nh =? IPPROTO_TCP then
    sp ← read_u16_be pkt l4; dp ← read_u16_be pkt (l4 + 2); c ← read_u16_be pkt (l4 + 16); Some (IPPROTO_TCP, sp, dp, c)
  else if nh =? IPPROTO_UDP then
    sp ← read_u16_be pkt l4; dp ← read_u16_be pkt (l4 + 2); c ← read_u16_be pkt (l4 + 6); Some (IPPROTO_UDP, sp, dp, c)
  else None.

(** [snat_port] with the NAT64 flag on both entries; no epoch is claimed. *)
Definition nat64_port (nat : NatValue) (fwd : CtKey) (now : Z) (ct : Conntrack) : option (Z * Conntrack) :=
  let alloc :=
    let start := u16 (hash5 (src_ip fwd) (dst_ip fwd) (src_port fwd) (dst_port fwd) (proto fwd) mod port_range nat) in
    match find_port PROBE_LIMIT 0 nat (vni fwd) (proto fwd) start ct with
    | None => None
    | Some chosen =>
        let ct := <[rev_key (vni fwd) (proto fwd) (nat_ip nat) chosen :=
                      mkCtEntry now (src_ip fwd) (src_port fwd) (Z.lor (Z.lor CT_REWRITE_DST CT_F_SRC_NAT) CT_F_NAT64) 0 0 0]> ct in
        Some (chosen, <[fwd := mkCtEntry now (nat_ip nat) chosen (Z.lor (Z.lor CT_REWRITE_SRC CT_F_SRC_NAT) CT_F_NAT64) 0 0 0]> ct)
    end in
  match ct !! fwd with
  | Some e => if has e CT_F_SRC_NAT then Some (xlate_port e, ct) else alloc
  | None => alloc
  end.

(** The table is changed once a port is allocated, also when a later read fails. *)
Definition nat64_egress_parse (nats : gmap (Z * list Z) NatValue) (pkt : list Z) (ip6_off v : Z) (meta_guest_ipv4 : list Z) (now : Z) (ct : Conntrack)
    : option Nat64Xlate * Conntrack :=
  let before :=
    ip6_dst ← read_array 16 pkt (ip6_off + 24);
    if negb (is_nat64_addr ip6_dst) then None
    else
      nat ← nats !! (v, meta_guest_ipv4);
      if port_range nat =? 0 then None
      else
        ip6_src ← read_array 16 pkt (ip6_off + 8);
        nh ← read_u8 pkt (ip6_off + 6);
        l4_len ← read_u16_be pkt (ip6_off + 4);
        if (0 <? l4_len) && bool_decide (read_u8 pkt (ip6_off + IPV6_LEN + l4_len - 1) = None) then None
        else
          '(p, sport, dport, cksum) ← egress_l4 pkt (ip6_off + IPV6_LEN) nh;
          Some (ip6_dst, nat, ip6_src, l4_len, p, sport, dport, cksum) in
  match before with
  | None => (None, ct)
  | Some (ip6_dst, nat, ip6_src, l4_len, p, sport, dport, cksum) =>
      let ipv4_dst := slice 12 4 ip6_dst in
      match nat64_port nat (mkCtKey v meta_guest_ipv4 ipv4_dst sport dport p) now ct with
      | None => (None, ct)
      | Some (nat_port, ct) =>
          (hop_limit ← read_u8 pkt (ip6_off + 7);
           eth_dst ← read_array 6 pkt (ip6_off - ETH_LEN);
           eth_src ← read_array 6 pkt (ip6_off - ETH_LEN + 6);
           Some (mkXlate (nat_ip nat) ipv4_dst nat_port p sport l4_len hop_limit ip6_src ip6_dst cksum eth_dst eth_src), ct)
      end
  end.

Definition ipv4_header (x : Nat64Xlate) : list Z :=
  let total_len := u16 (20 + x_l4_len x) in
  let hdr := [69; 0] ++ be16 total_len ++ [0; 0; 0; 0; x_hop_limit x; x_l4_proto_v4 x; 0; 0] ++ x_nat_ipv4 x ++ x_ipv4_dst x in
  splice hdr 10 (be16 (ipv4_hdr_checksum hdr)).

(** [None] is [false]. *)
Definition nat64_egress_write (pkt : list Z) (ip4_off : Z) (write_eth : bool) (x : Nat64Xlate) : option (list Z) :=
  pkt ← (if write_eth then write_array (ip4_off - ETH_LEN) (x_eth_dst x ++ x_eth_src x ++ be16 ETH_P_IP) pkt else Some pkt);
  pkt ← write_array ip4_off (ipv4_header x) pkt;
  let l4 := ip4_off + 20 in
  if x_l4_proto_v4 x =? IPPROTO_ICMP then
    h ← read_array 8 pkt l4;
    let icmp4 := [ICMP_ECHO_REQUEST; 0; 0; 0] ++ be16 (x_nat_port x) ++ slice 6 2 h in
    write_array l4 (splice icmp4 2 (be16 (icmpv4_echo_checksum icmp4))) pkt
  else if (x_l4_proto_v4 x =? IPPROTO_TCP) || (x_l4_proto_v4 x =? IPPROTO_UDP) then
    let tcp := x_l4_proto_v4 x =? IPPROTO_TCP in
    let new_ck := tcp_udp_v6_to_v4 (x_old_l4_cksum x) (x_ip6_src x) (x_ip6_dst x) (x_nat_ipv4 x) (x_ipv4_dst x)
                    (x_l4_proto_v4 x) (x_l4_len x) (x_sport x) (x_nat_port x) in
    h ← read_array (if tcp then 18 else 8) pkt l4;
    write_array l4 (splice (splice h 0 (be16 (x_nat_port x))) (if tcp then 16 else 6) (be16 new_ck)) pkt
  else None.

(** ** In *)

Record Nat64InXlate := mkInXlate {
  i_l4_proto : Z;
  i_ttl : Z;
  i_inner_src_v4 : list Z;
  i_inner_dst_v4 : list Z;
  i_l4_len : Z;
  i_old_l4_cksum : Z;
  i_ipv6_src : list Z;
  i_guest_ipv6 : list Z;
  i_guest_mac : list Z;
  i_orig_sport : Z
}.

Definition nat64_ingress_parse (pkt : list Z) (inner_off : Z) (guest_ipv6 guest_mac : list Z) (orig_sport : Z) : option Nat64InXlate :=
  inner ← read_array 20 pkt inner_off;
  if negb (Z.land (inner !!! 0%nat) 15 =? 5) then None
  else
    let p := inner !!! 9%nat in
    if negb ((p =? IPPROTO_ICMP) || (p =? IPPROTO_TCP) || (p =? IPPROTO_UDP)) then None
    else
      let inner_total_len := be_at 2 inner in
      if inner_total_len <? 20 then None
      else
        let l4_off := inner_off + 20 in
        c ← read_u16_be pkt (l4_off + (if p =? IPPROTO_TCP then 16 else if p =? IPPROTO_UDP then 6 else 2));
        if decide (guest_ipv6 = replicate 16 0) then None
        else Some (mkInXlate p (inner !!! 8%nat) (slice 12 4 inner) (slice 16 4 inner) (inner_total_len - 20) c
                     (nat64_embed (slice 12 4 inner)) guest_ipv6 guest_mac orig_sport).

Definition nat64_ingress_write (pkt : list Z) (ip6_off : Z) (gw_mac : list Z) (x : Nat64InXlate) : option (list Z) :=
  pkt ← write_array (ip6_off - ETH_LEN) (i_guest_mac x ++ gw_mac ++ be16 ETH_P_IPV6) pkt;
  let l4_proto_v6 := if i_l4_proto x =? IPPROTO_ICMP then IPPROTO_ICMPV6 else i_l4_proto x in
  pkt ← write_array ip6_off ([96; 0; 0; 0] ++ be16 (i_l4_len x) ++ [l4_proto_v6; i_ttl x] ++ i_ipv6_src x ++ i_guest_ipv6 x) pkt;
  let l4 := ip6_off + IPV6_LEN in
  if i_l4_proto x =? IPPROTO_ICMP then
    h ← read_array 8 pkt l4;
    let icmp6 := [ICMPV6_ECHO_REPLY; 0; 0; 0] ++ be16 (i_orig_sport x) ++ slice 6 2 h in
    write_array l4 (splice icmp6 2 (be16 (icmpv6_echo_checksum (i_ipv6_src x) (i_guest_ipv6 x) icmp6))) pkt
  else if (i_l4_proto x =? IPPROTO_TCP) || (i_l4_proto x =? IPPROTO_UDP) then
    let tcp := i_l4_proto x =? IPPROTO_TCP in
    let new_ck := tcp_udp_v4_to_v6 (i_old_l4_cksum x) (i_inner_src_v4 x) (i_inner_dst_v4 x) (i_ipv6_src x) (i_guest_ipv6 x) (i_l4_proto x) (i_l4_len x) in
    h ← read_array (if tcp then 18 else 8) pkt l4;
    write_array l4 (splice h (if tcp then 16 else 6) (be16 new_ck)) pkt
  else None.

End nat64.
