(* ===== verification/Checksum.v ===== *)
(** * Checksums of translated packets

    A frame whose IPv4 header checksum and TCP, UDP or ICMP checksum verify still
    verifies after the source translation ([snat_rewrite]) and after the conntrack
    rewrite ([ct_apply]): the incremental updates of the code are right in every
    combination of protocol, direction and field it uses them in.  The rewrite of
    an established flow is the one its first packet met. *)

From S2P Require Import Prelude FwClass FwClassFacts Packet PacketFacts Conntrack Nat Nat64.
Import fwclass packet conntrack nat nat64.

Open Scope Z_scope.

(** ** What a receiver checks *)

(** The frame has no tag: the header starts at 14. *)
Definition ihl (pkt : list Z) : nat := Z.to_nat (Z.land (pkt !!! 14%nat) 15 * 4).
Definition l4_off (pkt : list Z) : nat := (14 + ihl pkt)%nat.
Definition ip_proto (pkt : list Z) : Z := pkt !!! 23%nat.
Definition seg_len (pkt : list Z) : nat := (Z.to_nat (be_at 16 pkt) - ihl pkt)%nat.
Definition header (pkt : list Z) : list Z := slice 14 (ihl pkt) pkt.
Definition segment (pkt : list Z) : list Z := slice (l4_off pkt) (seg_len pkt) pkt.

(** The sum of the pseudo-header: both addresses, the protocol, the length. *)
Definition pseudo (pkt : list Z) : Z := sum16 (slice 26 8 pkt) + ip_proto pkt + Z.of_nat (seg_len pkt).

Definition l4_checksum_ok (pkt : list Z) : Prop :=
  if ip_proto pkt =? IPPROTO_TCP then (18 ≤ seg_len pkt)%nat ∧ verifies (pseudo pkt + sum16 (segment pkt))
  else if ip_proto pkt =? IPPROTO_UDP then
    (8 ≤ seg_len pkt)%nat ∧ (be_at 6 (segment pkt) = 0 ∨ verifies (pseudo pkt + sum16 (segment pkt)))
  else if ip_proto pkt =? IPPROTO_ICMP then (8 ≤ seg_len pkt)%nat ∧ verifies (sum16 (segment pkt))
  else True.

(** Both checksums verify, and the frame holds the datagram. *)
Definition checksums_ok (pkt : list Z) : Prop :=
  bytes_ok pkt ∧ (20 ≤ ihl pkt)%nat ∧ (l4_off pkt + seg_len pkt ≤ length pkt)%nat ∧ verifies (sum16 (header pkt)) ∧ l4_checksum_ok pkt.

(** ** Writes at offsets *)

Lemma write_array_splice off src pkt :
  (Z.to_nat off + length src ≤ length pkt)%nat → write_array off src pkt = Some (splice pkt (Z.to_nat off) src).
Proof. intros. unfold write_array, write_bytes. by rewrite decide_True. Qed.

Lemma write__splice off src pkt : (Z.to_nat off + length src ≤ length pkt)%nat → write_ off src pkt = splice pkt (Z.to_nat off) src.
Proof. intros. unfold write_. by rewrite write_array_splice. Qed.

Lemma be_slice off l : be (slice off 2 l) = be_at off l.
Proof. unfold be, be_at. rewrite !slice_total by lia. cbn. by rewrite Nat.add_0_r, Nat.add_1_r. Qed.

Lemma be_at_slice off o n l : (off + 2 ≤ n)%nat → be_at off (slice o n l) = be_at (o + off) l.
Proof. intros. unfold be_at. rewrite !slice_total by lia. by rewrite Nat.add_succ_r. Qed.

Lemma read_u16_be_at pkt off : 0 ≤ off → (Z.to_nat off + 2 ≤ length pkt)%nat → read_u16_be pkt off = Some (be_at (Z.to_nat off) pkt).
Proof. intros. unfold read_u16_be. rewrite read_array_Some by done. cbn. by rewrite be_slice. Qed.

Lemma be_at_splice_out l off src o :
  (off + length src ≤ length l)%nat → (o + 2 ≤ off ∨ off + length src ≤ o)%nat → be_at o (splice l off src) = be_at o l.
Proof. intros. unfold be_at. by rewrite !splice_total_out by lia. Qed.

Lemma sum16_be_at off l : (off + 2 ≤ length l)%nat → sum16 (slice off 2 l) = be_at off l.
Proof.
  intros H. pose proof (slice_length off 2 l H) as Hl. rewrite <- be_slice. destruct (slice off 2 l) as [|a [|b [|]]]; try discriminate. unfold be. cbn. lia.
Qed.

Lemma slice_slice a m o n l : (a + m ≤ n)%nat → slice a m (slice o n l) = slice (o + a) m l.
Proof.
  intros. apply list_eq. intros i. destruct (decide (i < m)%nat).
  - rewrite !slice_lookup by lia. f_equal. lia.
  - unfold slice. by rewrite !(lookup_take_ge _ m) by lia.
Qed.

(** ** The address *)

(** What every rewrite does to the header: the source (12) or destination (16)
    address and the header checksum. *)
Definition addr_patch (rel : nat) (new pkt : list Z) : list Z :=
  splice (splice pkt (14 + rel) new) 24 (be16 (csum_replace4 (be_at 24 pkt) (slice (14 + rel) 4 pkt) new)).

Definition addr_field (rel : nat) : Prop := rel = 12%nat ∨ rel = 16%nat.

Lemma ihl_nonneg (pkt : list Z) : 0 ≤ Z.land (pkt !!! 14%nat) 15 * 4.
Proof. apply Z.mul_nonneg_nonneg; [|lia]. apply Z.land_nonneg. right. lia. Qed.

Lemma bytes_ok_splice_be16 l off v : bytes_ok l → bytes_ok (splice l off (be16 v)).
Proof. intros. apply splice_bytes_ok; [done|]. apply be16_bytes. Qed.

Lemma sum16_pos l : bytes_ok l → (2 ≤ length l)%nat → 0 < l !!! 0%nat → 0 < sum16 l.
Proof.
  intros Hl Hn Hp. destruct l as [|a [|b l]]; cbn in Hn; [lia|lia|]. cbn in Hp. apply Forall_cons in Hl as [? Hl]. apply Forall_cons in Hl as [? Hl].
  cbn [sum16]. pose proof (sum16_nonneg l Hl). lia.
Qed.

Lemma ihl_byte pkt : bytes_ok pkt → (20 ≤ ihl pkt)%nat → 0 < pkt !!! (14 + 0)%nat.
Proof.
  intros Hb Hi. cbn. pose proof (bytes_ok_lookup pkt 14 Hb). destruct (decide (pkt !!! 14%nat = 0)) as [E|]; [|lia].
  unfold ihl in Hi. rewrite E in Hi. change (Z.to_nat (Z.land 0 15 * 4)) with 0%nat in Hi. lia.
Qed.

Section addr.
Context (rel : nat) (new pkt : list Z).
Context (Hrel : addr_field rel) (Hnew : bytes_ok new) (Hlen : length new = 4%nat).
Context (Hok : bytes_ok pkt) (Hihl : (20 ≤ ihl pkt)%nat) (Hpkt : (l4_off pkt ≤ length pkt)%nat).

Let old := slice (14 + rel) 4 pkt.
Let ck := csum_replace4 (be_at 24 pkt) old new.

Lemma addr_patch_length : length (addr_patch rel new pkt) = length pkt.
Proof.
  unfold addr_patch, l4_off in *. destruct Hrel; subst rel; rewrite !splice_length; rewrite ?splice_length; cbn [be16 length]; lia.
Qed.

Lemma addr_patch_bytes : bytes_ok (addr_patch rel new pkt).
Proof. apply bytes_ok_splice_be16. by apply splice_bytes_ok. Qed.

Lemma addr_patch_out o n :
  (o + n ≤ 24 ∨ 34 ≤ o ∨ (o + n ≤ 14 + rel ∧ 26 ≤ o) ∨ (14 + rel + 4 ≤ o))%nat → slice o n (addr_patch rel new pkt) = slice o n pkt.
Proof.
  intros Ho. unfold addr_patch, l4_off in *.
  rewrite slice_splice_out by (destruct Hrel; subst rel; rewrite ?splice_length; cbn [be16 length]; lia).
  apply slice_splice_out; destruct Hrel; subst rel; lia.
Qed.

Lemma addr_patch_total i : (i < 24)%nat → addr_patch rel new pkt !!! i = pkt !!! i.
Proof.
  intros Hi. unfold addr_patch, l4_off in *.
  rewrite splice_total_out by (destruct Hrel; subst rel; rewrite ?splice_length; cbn [be16 length]; lia).
  apply splice_total_out; destruct Hrel; subst rel; lia.
Qed.

Lemma addr_patch_ihl : ihl (addr_patch rel new pkt) = ihl pkt.
Proof. unfold ihl. by rewrite addr_patch_total by lia. Qed.

Lemma old_ok : bytes_ok old ∧ length old = 4%nat.
Proof. apply slice_ok; [done|]. unfold l4_off in *. destruct Hrel; subst rel; lia. Qed.

Lemma ck_updates : updates (be_at 24 pkt) ck (sum16 old) (sum16 new).
Proof. destruct old_ok. apply csum_replace4_spec; try done. by apply be_at_range. Qed.

(** The address is the new one. *)
Lemma addr_patch_addr : slice (14 + rel) 4 (addr_patch rel new pkt) = new.
Proof.
  unfold addr_patch, l4_off in *.
  rewrite slice_splice_out by (destruct Hrel; subst rel; rewrite ?splice_length; cbn [be16 length]; lia).
  rewrite <- Hlen. apply slice_splice_same. destruct Hrel; subst rel; lia.
Qed.

Lemma addr_patch_pseudo :
  sum16 (slice 26 8 (addr_patch rel new pkt)) = sum16 (slice 26 8 pkt) - sum16 old + sum16 new.
Proof.
  unfold addr_patch, l4_off in *. assert (Hp : (34 ≤ length pkt)%nat) by lia.
  rewrite slice_splice_out by (destruct Hrel; subst rel; rewrite ?splice_length; cbn [be16 length]; lia).
  rewrite slice_splice_in by (destruct Hrel; subst rel; lia).
  rewrite sum16_splice by (rewrite ?slice_length by lia; destruct Hrel; subst rel; rewrite ?Hlen; cbn; first [lia|done]).
  rewrite Hlen, slice_slice by (destruct Hrel; subst rel; lia). unfold old. do 4 f_equal. destruct Hrel; subst rel; lia.
Qed.

Lemma addr_patch_header : verifies (sum16 (header pkt)) → verifies (sum16 (header (addr_patch rel new pkt))).
Proof.
  intros Hv. unfold header in *. rewrite addr_patch_ihl. set (n := ihl pkt) in *. unfold l4_off in Hpkt. fold n in Hpkt.
  assert (Hs : sum16 (slice 14 n (addr_patch rel new pkt)) = sum16 (slice 14 n pkt) - sum16 old + sum16 new - be_at 24 pkt + ck).
  { unfold addr_patch. fold old. fold ck. pose proof (slice_length 14 n pkt ltac:(lia)) as Hsl. pose proof (proj1 ck_updates).
    assert (Hl1 : length (splice pkt (14 + rel) new) = length pkt) by (apply splice_length; destruct Hrel; subst rel; lia).
    rewrite slice_splice_in by (rewrite ?Hl1; cbn [be16 length]; lia). rewrite slice_splice_in by (destruct Hrel; subst rel; lia).
    assert (Hl2 : length (splice (slice 14 n pkt) (14 + rel - 14) new) = n) by (rewrite splice_length; destruct Hrel; subst rel; lia).
    rewrite sum16_splice by (rewrite ?Hl2; cbn [be16 length]; first [lia|done]). rewrite sum16_be16 by lia.
    rewrite sum16_splice by (rewrite ?Hlen; destruct Hrel; subst rel; first [lia|done]).
    change (length (be16 ck)) with 2%nat. rewrite sum16_be_at by (rewrite Hl2; lia). rewrite be_at_splice_out by (destruct Hrel; subst rel; lia).
    rewrite be_at_slice by lia. rewrite Hlen. f_equal. f_equal. f_equal. f_equal.
    rewrite slice_slice by (destruct Hrel; subst rel; lia). unfold old. f_equal. f_equal. lia. }
  rewrite Hs. replace (_ - _ + _ - _ + _) with (sum16 (slice 14 n pkt) - sum16 old - be_at 24 pkt + ck + sum16 new) by lia.
  apply (updates_verifies _ (be_at 24 pkt) _ (sum16 old)); [apply ck_updates| |by replace (_ + _ + _) with (sum16 (slice 14 n pkt)) by lia].
  rewrite <- Z.add_assoc. replace (_ - _ - _ + _) with (sum16 (slice 14 n (addr_patch rel new pkt))) by lia.
  apply sum16_pos.
  - apply Forall_take, Forall_drop, addr_patch_bytes.
  - rewrite slice_length; [lia|]. rewrite addr_patch_length. lia.
  - rewrite slice_total, addr_patch_total by lia. by apply ihl_byte.
Qed.

End addr.

(** ** The transport header *)

(** [q] is [p] with the transport part rewritten. *)
Record rewrites_l4 (p q : list Z) : Prop := mkRewrites {
  rw_length : length q = length p;
  rw_prefix : ∀ o n, (o + n ≤ l4_off p)%nat → slice o n q = slice o n p
}.

Lemma rewrites_l4_refl p : rewrites_l4 p p.
Proof. by split. Qed.

Lemma rewrites_l4_splice p q o src :
  rewrites_l4 p q → (l4_off p ≤ o)%nat → (o + length src ≤ length p)%nat → rewrites_l4 p (splice q o src).
Proof.
  intros [Hl Hp] Ho Hlen. split; [by rewrite splice_length, Hl by lia|].
  intros o' n Hn. rewrite slice_splice_out by lia. by apply Hp.
Qed.

Lemma slice_1 (l : list Z) i : l !!! i = slice i 1 l !!! 0%nat.
Proof. rewrite slice_total by lia. by rewrite Nat.add_0_r. Qed.

Lemma be_at_slice_2 (l : list Z) i : be_at i l = be_at 0 (slice i 2 l).
Proof. rewrite be_at_slice by lia. by rewrite Nat.add_0_r. Qed.

Lemma rewrites_l4_fields p q : rewrites_l4 p q → (20 ≤ ihl p)%nat → ihl q = ihl p ∧ ip_proto q = ip_proto p ∧ seg_len q = seg_len p ∧
  header q = header p ∧ pseudo q = pseudo p.
Proof.
  intros [_ Hp] Hi. unfold l4_off in Hp.
  assert (Hih : ihl q = ihl p) by (unfold ihl; rewrite (slice_1 q), (slice_1 p), Hp by lia; done).
  assert (Hpr : ip_proto q = ip_proto p) by (unfold ip_proto; rewrite (slice_1 q), (slice_1 p), Hp by lia; done).
  assert (Hsl : seg_len q = seg_len p) by (unfold seg_len; rewrite Hih, (be_at_slice_2 q), (be_at_slice_2 p), Hp by lia; done).
  split_and!; try done.
  - unfold header. rewrite Hih. apply Hp. lia.
  - unfold pseudo. rewrite Hpr, Hsl, Hp by lia. done.
Qed.

(** The checksums of a frame whose address and transport part are rewritten. *)
Lemma patched_ok rel new pkt q :
  addr_field rel → bytes_ok new → length new = 4%nat → checksums_ok pkt → rewrites_l4 (addr_patch rel new pkt) q → bytes_ok q →
  (pseudo q = pseudo pkt - sum16 (slice (14 + rel) 4 pkt) + sum16 new → ip_proto q = ip_proto pkt → seg_len q = seg_len pkt → ihl q = ihl pkt → l4_checksum_ok q) →
  checksums_ok q.
Proof.
  intros Hrel Hn Hl (Hb & Hi & Hlen & Hh & _) Hq Hqb Hl4. assert (Hpl : (l4_off pkt ≤ length pkt)%nat) by lia.
  pose proof (addr_patch_ihl rel new pkt Hrel Hl Hi Hpl) as Hpi. assert (Hi' : (20 ≤ ihl (addr_patch rel new pkt))%nat) by lia.
  destruct (rewrites_l4_fields _ _ Hq Hi') as (Hqi & Hqp & Hqs & Hqh & Hqs').
  assert (Hpp : ip_proto (addr_patch rel new pkt) = ip_proto pkt) by (unfold ip_proto; by apply addr_patch_total; try lia).
  assert (Hps : seg_len (addr_patch rel new pkt) = seg_len pkt).
  { unfold seg_len. rewrite Hpi. f_equal. f_equal. unfold be_at. by rewrite !addr_patch_total by (done || lia). }
  assert (Hql : length q = length pkt) by (rewrite (rw_length _ _ Hq); by apply addr_patch_length).
  split_and!.
  - done.
  - lia.
  - unfold l4_off in *. rewrite Hqi, Hpi, Hqs, Hps, Hql. done.
  - rewrite Hqh. by apply addr_patch_header.
  - apply Hl4; try congruence. rewrite Hqs'. unfold pseudo. rewrite Hpp, Hps, addr_patch_pseudo by done. lia.
Qed.

(** Replacing the checksum, and a port, of a segment. *)
Lemma seg_sum_ck l o n ck c :
  (o + n ≤ length l)%nat → (ck + 2 ≤ n)%nat → Nat.even ck = true → 0 ≤ c ≤ 65535 →
  sum16 (slice o n (splice l (o + ck) (be16 c))) = sum16 (slice o n l) - be_at (o + ck) l + c.
Proof.
  intros Ho Hck He Hc. pose proof (slice_length o n l Ho) as Hs. rewrite slice_splice_in by (cbn [be16 length]; lia).
  replace (o + ck - o)%nat with ck by lia. rewrite sum16_splice by (cbn [be16 length]; first [lia|done]). rewrite sum16_be16 by done.
  change (length (be16 c)) with 2%nat. rewrite slice_slice, sum16_be_at by lia. done.
Qed.

Lemma seg_sum_port l o n ck c rel port :
  (o + n ≤ length l)%nat → (ck + 2 ≤ n)%nat → (rel + 2 ≤ n)%nat → (ck + 2 ≤ rel ∨ rel + 2 ≤ ck)%nat → Nat.even ck = true → Nat.even rel = true →
  0 ≤ c ≤ 65535 → 0 ≤ port ≤ 65535 →
  sum16 (slice o n (splice (splice l (o + ck) (be16 c)) (o + rel) (be16 port))) =
    sum16 (slice o n l) - be_at (o + ck) l - be_at (o + rel) l + c + port.
Proof.
  intros. assert (Hl : length (splice l (o + ck) (be16 c)) = length l) by (apply splice_length; cbn [be16 length]; lia).
  rewrite seg_sum_ck by (rewrite ?Hl; done || lia). rewrite seg_sum_ck by done.
  rewrite be_at_splice_out by (cbn [be16 length]; lia). lia.
Qed.

(** ** The reference translation *)

(** The frame with an address, and unless it is 0 a port, replaced, and every
    checksum that covers them updated; [rel] and [prel] are the offsets of the
    address in the header and of the port in the transport header. *)
Definition fix_l4 (c prel : nat) (with_addr : bool) (old new : list Z) (port : Z) (L : nat) (p : list Z) : list Z :=
  let ck := if with_addr then csum_replace4 (be_at (L + c) p) old new else be_at (L + c) p in
  if port =? 0 then splice p (L + c) (be16 ck)
  else splice (splice p (L + c) (be16 (csum_replace2 ck (be_at (L + prel) p) port))) (L + prel) (be16 port).

Definition set_port (prel : nat) (port : Z) (L : nat) (p : list Z) : list Z := if port =? 0 then p else splice p (L + prel) (be16 port).

Definition translate (rel prel : nat) (new : list Z) (port : Z) (pkt : list Z) : list Z :=
  let p := addr_patch rel new pkt in
  let L := l4_off pkt in
  let old := slice (14 + rel) 4 pkt in
  if ip_proto pkt =? IPPROTO_TCP then if decide (L + 18 ≤ length pkt)%nat then fix_l4 16 prel true old new port L p else p
  else if ip_proto pkt =? IPPROTO_UDP then
    if decide (L + 8 ≤ length pkt)%nat then
      if be_at (L + 6) p =? 0 then set_port prel port L p else fix_l4 6 prel true old new port L p
    else p
  else if (ip_proto pkt =? IPPROTO_ICMP) && negb (port =? 0) then
    if decide (L + 8 ≤ length pkt)%nat then fix_l4 2 4 false old new port L p else p
  else p.

Definition port_field (prel : nat) : Prop := prel = 0%nat ∨ prel = 2%nat.

Lemma fix_l4_rewrites c prel wa old new port p :
  (l4_off p + c + 2 ≤ length p)%nat → (l4_off p + prel + 2 ≤ length p)%nat → rewrites_l4 p (fix_l4 c prel wa old new port (l4_off p) p).
Proof.
  intros Hc Hp. pose proof (rewrites_l4_refl p) as Hr. unfold fix_l4.
  destruct (port =? 0); repeat (apply rewrites_l4_splice; [|lia|cbn [be16 length]; lia]); done.
Qed.

Lemma fix_l4_bytes c prel wa old new port L p : bytes_ok p → bytes_ok (fix_l4 c prel wa old new port L p).
Proof. intros. unfold fix_l4. destruct (port =? 0); repeat apply bytes_ok_splice_be16; done. Qed.

Lemma translate_bytes rel prel new port pkt : bytes_ok pkt → bytes_ok new → bytes_ok (translate rel prel new port pkt).
Proof.
  intros Hb Hn. pose proof (addr_patch_bytes rel new pkt Hn Hb) as Hp. unfold translate, set_port.
  repeat first [done | apply fix_l4_bytes | apply bytes_ok_splice_be16 | case_match | case_decide].
Qed.

Lemma fix_l4_sum c prel wa old new port L n p :
  bytes_ok p → (L + n ≤ length p)%nat → (c + 2 ≤ n)%nat → (prel + 2 ≤ n)%nat → (c + 2 ≤ prel ∨ prel + 2 ≤ c)%nat → Nat.even c = true → Nat.even prel = true →
  (wa = true → bytes_ok old ∧ length old = 4%nat ∧ bytes_ok new ∧ length new = 4%nat) → 0 ≤ port ≤ 65535 →
  ∃ rest c', 0 ≤ rest ∧ sum16 (slice L n p) = rest + be_at (L + c) p + (if port =? 0 then 0 else be_at (L + prel) p) ∧
    sum16 (slice L n (fix_l4 c prel wa old new port L p)) = rest + c' + port ∧
    updates (be_at (L + c) p) c' ((if wa then sum16 old else 0) + (if port =? 0 then 0 else be_at (L + prel) p)) ((if wa then sum16 new else 0) + port).
Proof.
  intros Hb Hn Hc Hp Hd He He' Hwa Hport. pose proof (be_at_range (L + c) p Hb) as Hr. pose proof (be_at_range (L + prel) p Hb) as Hr'.
  set (ck := if wa then csum_replace4 (be_at (L + c) p) old new else be_at (L + c) p).
  assert (Hu : updates (be_at (L + c) p) ck (if wa then sum16 old else 0) (if wa then sum16 new else 0)).
  { unfold ck. destruct wa; [destruct (Hwa eq_refl) as (? & ? & ? & ?); by apply csum_replace4_spec|]. split; [done|]. exists 0. lia. }
  assert (Hz : ∀ l, bytes_ok l → 0 ≤ sum16 (slice L n l)) by (intros; by apply sum16_nonneg, Forall_take, Forall_drop).
  unfold fix_l4. fold ck. destruct (Z.eqb_spec port 0) as [->|Hp0].
  - exists (sum16 (slice L n p) - be_at (L + c) p), ck.
    split; [pose proof (seg_sum_ck p L n c 0 Hn Hc He ltac:(lia)); pose proof (Hz (splice p (L + c) (be16 0)) ltac:(by apply bytes_ok_splice_be16)); lia|]. split; [lia|]. split; [rewrite seg_sum_ck by (done || apply Hu); lia|]. by rewrite !Z.add_0_r.
  - pose proof (csum_replace2_spec ck (be_at (L + prel) p) port (proj1 Hu) Hr' Hport) as Hu2.
    exists (sum16 (slice L n p) - be_at (L + c) p - be_at (L + prel) p), (csum_replace2 ck (be_at (L + prel) p) port).
    split; [pose proof (seg_sum_port p L n c 0 prel 0 Hn Hc Hp Hd He He' ltac:(lia) ltac:(lia)); pose proof (Hz (splice (splice p (L + c) (be16 0)) (L + prel) (be16 0)) ltac:(by apply bytes_ok_splice_be16, bytes_ok_splice_be16)); lia|].
    split; [lia|]. split; [rewrite seg_sum_port by (done || apply Hu2); lia|]. by eapply updates_trans.
Qed.

Lemma translate_rewrites rel prel new port pkt :
  addr_field rel → port_field prel → length new = 4%nat → (20 ≤ ihl pkt)%nat → (l4_off pkt ≤ length pkt)%nat →
  rewrites_l4 (addr_patch rel new pkt) (translate rel prel new port pkt).
Proof.
  intros Hrel Hprel Hlen Hi HL. pose proof (addr_patch_length rel new pkt Hrel Hlen Hi HL) as Hpl. set (p := addr_patch rel new pkt) in *.
  assert (HpL : l4_off p = l4_off pkt) by (unfold p, l4_off; by rewrite addr_patch_ihl). pose proof (rewrites_l4_refl p) as Hrefl.
  unfold translate. fold p. rewrite <- HpL. assert (Hpr : (prel ≤ 2)%nat) by (destruct Hprel; lia).
  destruct (_ =? IPPROTO_TCP); [case_decide; [apply fix_l4_rewrites; lia|done]|].
  destruct (_ =? IPPROTO_UDP).
  - case_decide; [|done]. destruct (_ =? 0); [|apply fix_l4_rewrites; lia]. unfold set_port. destruct (port =? 0); [done|].
    apply rewrites_l4_splice; [done|lia|cbn [be16 length]; lia].
  - destruct (_ && _); [|done]. case_decide; [apply fix_l4_rewrites; lia|done].
Qed.

Section translate.
Context (rel prel : nat) (new : list Z) (port : Z) (pkt : list Z).
Context (Hrel : addr_field rel) (Hprel : port_field prel) (Hnew : bytes_ok new) (Hlen : length new = 4%nat) (Hport : 0 ≤ port ≤ 65535).
Context (Hok : checksums_ok pkt).

Let p := addr_patch rel new pkt.
Let L := l4_off pkt.
Let n := seg_len pkt.
Let old := slice (14 + rel) 4 pkt.

Lemma tr_base : bytes_ok pkt ∧ (20 ≤ ihl pkt)%nat ∧ (L ≤ length pkt)%nat ∧ (L + n ≤ length pkt)%nat ∧ (34 ≤ L)%nat.
Proof. destruct Hok as (Hb & Hi & Hl & _). fold L n in Hl. unfold L in *. unfold l4_off in *. split_and!; done || lia. Qed.

Lemma tr_p : bytes_ok p ∧ length p = length pkt ∧ l4_off p = L ∧ (∀ o m, (34 ≤ o)%nat → slice o m p = slice o m pkt) ∧ (∀ o, (34 ≤ o)%nat → be_at o p = be_at o pkt).
Proof.
  destruct tr_base as (Hb & Hi & HL & _). split_and!.
  - by apply addr_patch_bytes.
  - by apply addr_patch_length.
  - unfold p, l4_off. by rewrite addr_patch_ihl.
  - intros. apply addr_patch_out; try done. lia.
  - intros o Ho. rewrite (be_at_slice_2 p), (be_at_slice_2 pkt). f_equal. apply addr_patch_out; try done. lia.
Qed.

Lemma tr_old : bytes_ok old ∧ length old = 4%nat.
Proof. destruct tr_base as (Hb & Hi & HL & _). by apply old_ok with new. Qed.

(** The part the pseudo-header covers. *)
Lemma tr_pseudo c q :
  (c = 16 ∨ c = 6)%nat → (c + 2 ≤ n)%nat → 0 < ip_proto pkt → q = fix_l4 c prel true old new port L p →
  pseudo q = pseudo pkt - sum16 old + sum16 new → ip_proto q = ip_proto pkt → seg_len q = n → ihl q = ihl pkt →
  verifies (pseudo pkt + sum16 (segment pkt)) → verifies (pseudo q + sum16 (segment q)).
Proof.
  intros Hc Hcn Hpr -> Hps Hprq Hsl Hih Hv. destruct tr_base as (Hb & Hi & HL & HLn & HL34), tr_p as (Hpb & Hpl & HpL & Hpo & Hpbe), tr_old as [Hob Hol].
  destruct (fix_l4_sum c prel true old new port L n p) as (rest & c' & Hr0 & E1 & E2 & Hu); try done; try lia.
  { destruct Hc; subst c; destruct Hprel; subst prel; lia. } { destruct Hc; subst c; destruct Hprel; subst prel; lia. }
  { destruct Hc; by subst c. } { destruct Hprel; by subst prel. }
  set (q := fix_l4 c prel true old new port L p) in *. unfold segment in *. rewrite Hsl. replace (l4_off q) with L by (unfold L, l4_off; by rewrite Hih).
  fold L n in Hv. rewrite Hpo in E1 by done. rewrite E1, Hpbe in Hv by lia. rewrite Hps, E2. rewrite !Hpbe in Hu by lia. rewrite Hpbe in Hv by lia.
  replace (_ + (rest + c' + port)) with (pseudo pkt - sum16 old + rest + c' + (sum16 new + port)) by lia.
  eapply updates_verifies; [exact Hu| |by match goal with |- verifies ?x => match type of Hv with verifies ?y => replace x with y by lia end end].
  assert (Hqb : bytes_ok q) by (by apply fix_l4_bytes). assert (Hfin : bytes_ok (slice L n q)) by (by apply Forall_take, Forall_drop).
  pose proof (sum16_nonneg _ Hfin) as Hnn. rewrite E2 in Hnn. pose proof (sum16_nonneg (slice 26 8 q)) as Hnq.
  unfold pseudo at 1 in Hps. rewrite Hprq in Hps.
  assert (0 ≤ sum16 (slice 26 8 q)); [by apply Hnq, Forall_take, Forall_drop|lia].
Qed.

Lemma tr_l4_ok q : q = translate rel prel new port pkt → rewrites_l4 p q →
  pseudo q = pseudo pkt - sum16 old + sum16 new → ip_proto q = ip_proto pkt → seg_len q = n → ihl q = ihl pkt → l4_checksum_ok q.
Proof.
  intros Hq Hrw Hps Hpr Hsl Hih. pose proof tr_base as (Hb & Hi & HL & HLn & HL34). pose proof tr_p as (Hpb & Hpl & HpL & Hpo & Hpbe).
  pose proof (proj2 (proj2 (proj2 (proj2 Hok)))) as H4. unfold l4_checksum_ok in *. rewrite Hpr, Hsl. fold n in H4. unfold translate in Hq. fold L in Hq. fold p in Hq. fold old in Hq.
  destruct (Z.eqb_spec (ip_proto pkt) IPPROTO_TCP) as [E|_].
  { destruct H4 as [H18 Hv]. split; [done|]. rewrite decide_True in Hq by lia. apply (tr_pseudo 16); [by left|lia|rewrite E; reflexivity|done..]. }
  destruct (Z.eqb_spec (ip_proto pkt) IPPROTO_UDP) as [E|_].
  { destruct H4 as [H8 Hv]. split; [done|]. rewrite decide_True in Hq by lia. destruct (Z.eqb_spec (be_at (L + 6) p) 0) as [E0|E0].
    - left. unfold segment. rewrite be_at_slice by lia. replace (l4_off q) with L by (unfold L, l4_off; by rewrite Hih). rewrite <- E0, Hq. unfold set_port.
      destruct (port =? 0); [done|]. apply be_at_splice_out; cbn [be16 length]; destruct Hprel; subst prel; lia.
    - right. destruct Hv as [Hv|Hv]; [exfalso; apply E0; unfold segment in Hv; rewrite be_at_slice in Hv by lia; rewrite Hpbe by lia; exact Hv|].
      apply (tr_pseudo 6); [by right|lia|rewrite E; reflexivity|done..]. }
  destruct (Z.eqb_spec (ip_proto pkt) IPPROTO_ICMP) as [E|_]; [|done]. destruct H4 as [H8 Hv]. split; [done|].
  unfold segment in *. rewrite Hsl. replace (l4_off q) with L by (unfold L, l4_off; by rewrite Hih). fold L n in Hv.
  destruct (Z.eqb_spec port 0) as [->|Hp0]; cbn [negb andb] in Hq; [by rewrite Hq, Hpo by lia|]. rewrite decide_True in Hq by lia.
  destruct (fix_l4_sum 2 4 false old new port L n p) as (rest & c' & Hr0 & E1 & E2 & Hu); try done; try lia.
  rewrite Hpo in E1 by lia. rewrite E1 in Hv. rewrite Hq, E2. destruct (Z.eqb_spec port 0); [done|]. cbn in Hu.
  eapply updates_verifies; [exact Hu|pose proof (proj1 Hu); lia|exact Hv].
Qed.
Lemma translate_ok : checksums_ok (translate rel prel new port pkt).
Proof.
  pose proof tr_base as (Hb & Hi & HL & _). 
  assert (Hrw : rewrites_l4 p (translate rel prel new port pkt)) by (by apply translate_rewrites).
  apply (patched_ok rel new pkt); [done|done|done|done|done|by apply translate_bytes|]. intros. by apply tr_l4_ok.
Qed.

End translate.

(** ** The code is the reference *)

(** A window that is read, changed twice and written back. *)
Lemma window_splice2 l o n a s1 b s2 :
  (o + n ≤ length l)%nat → (a + length s1 ≤ n)%nat → (b + length s2 ≤ n)%nat →
  splice l o (splice (splice (slice o n l) a s1) b s2) = splice (splice l (o + a) s1) (o + b) s2.
Proof.
  intros Ho Ha Hb. pose proof (slice_length o n l Ho) as Hs. assert (Hs1 : length (splice (slice o n l) a s1) = n) by (rewrite splice_length; lia).
  assert (Hs2 : length (splice (splice (slice o n l) a s1) b s2) = n) by (rewrite splice_length; lia).
  assert (Hs3 : length (splice l (o + a) s1) = length l) by (apply splice_length; lia).
  apply list_eq. intros i. destruct (decide (o ≤ i < o + n)%nat) as [Hi|Hi].
  - rewrite splice_lookup_in by lia. destruct (decide (b ≤ i - o < b + length s2)%nat).
    + rewrite !splice_lookup_in by lia. f_equal. lia.
    + rewrite !(splice_lookup_out _ _ s2) by lia. destruct (decide (a ≤ i - o < a + length s1)%nat).
      * rewrite !splice_lookup_in by lia. f_equal. lia.
      * rewrite !(splice_lookup_out _ _ s1) by lia. rewrite slice_lookup by lia. f_equal. lia.
  - rewrite !splice_lookup_out by lia. done.
Qed.

Lemma read_array_None n pkt off : 0 ≤ off → (0 < n)%nat → (length pkt < Z.to_nat off + n)%nat → read_array n pkt off = None.
Proof. intros. unfold read_array. rewrite decide_False; [done|]. rewrite length_take, length_drop. lia. Qed.

Section code.
Context (pkt : list Z) (Hihl : (20 ≤ ihl pkt)%nat) (HL : (l4_off pkt ≤ length pkt)%nat).

Lemma read_hdr : read_array 20 pkt ETH_LEN = Some (slice 14 20 pkt).
Proof. rewrite read_array_Some; [done|done|]. unfold l4_off in HL. change (Z.to_nat ETH_LEN) with 14%nat. lia. Qed.

Lemma l4_off_Z : Z.to_nat (ETH_LEN + Z.land (slice 14 20 pkt !!! 0%nat) 15 * 4) = l4_off pkt ∧ 0 ≤ ETH_LEN + Z.land (slice 14 20 pkt !!! 0%nat) 15 * 4.
Proof. rewrite slice_total by lia. pose proof (ihl_nonneg pkt). unfold l4_off, ihl, ETH_LEN. cbn [Nat.add]. lia. Qed.

Context (new : list Z) (Hlen : length new = 4%nat).

Lemma addr_write rel : addr_field rel →
  write_array (ETH_LEN + Z.of_nat rel) new pkt = Some (splice pkt (14 + rel) new) ∧
  read_u16_be (splice pkt (14 + rel) new) (ETH_LEN + 10) = Some (be_at 24 pkt) ∧
  (∀ c, write_ (ETH_LEN + 10) (be16 c) (splice pkt (14 + rel) new) = splice (splice pkt (14 + rel) new) 24 (be16 c)).
Proof.
  intros Hrel. unfold l4_off in HL. assert (Hl : length (splice pkt (14 + rel) new) = length pkt) by (apply splice_length; destruct Hrel; subst rel; lia).
  replace (14 + rel)%nat with (Z.to_nat (ETH_LEN + Z.of_nat rel)) in * by (unfold ETH_LEN; lia).
  split_and!.
  - apply write_array_splice. unfold ETH_LEN. destruct Hrel; subst rel; lia.
  - rewrite read_u16_be_at by (rewrite ?Hl; unfold ETH_LEN; lia). f_equal. apply be_at_splice_out; unfold ETH_LEN; destruct Hrel; subst rel; lia.
  - intros c. apply write__splice. rewrite Hl. unfold ETH_LEN. cbn [be16 length]. lia.
Qed.

End code.

(** The transport windows of the code, read, changed and written back. *)
Section windows.
Context (L : nat) (off : Z) (q : list Z) (HL : Z.to_nat off = L) (Hoff : 0 ≤ off).

Lemma l4_read n : (0 < n)%nat → read_array n q off = if decide (L + n ≤ length q)%nat then Some (slice L n q) else None.
Proof. intros Hn. case_decide; [by rewrite read_array_Some, HL by lia|apply read_array_None; lia]. Qed.

Lemma l4_write n h : length h = n → (L + n ≤ length q)%nat → write_ off h q = splice q L h.
Proof. intros <- Hn. by rewrite write__splice, HL by lia. Qed.

Lemma window_fix (c prel : nat) (wa : bool) (old new : list Z) (port : Z) (n : nat) :
  (L + n ≤ length q)%nat → (c + 2 ≤ n)%nat → (prel + 2 ≤ n)%nat →
  let ck := if wa then csum_replace4 (be_at (L + c) q) old new else be_at (L + c) q in
  let h1 := splice (slice L n q) c (be16 (if port =? 0 then ck else csum_replace2 ck (be_at (L + prel) q) port)) in
  write_ off (if port =? 0 then h1 else splice h1 prel (be16 port)) q = fix_l4 c prel wa old new port L q.
Proof.
  intros Hn Hc Hp. cbn zeta. pose proof (slice_length L n q Hn) as Hs.
  rewrite (l4_write n) by first [done|destruct (port =? 0); rewrite ?splice_length; rewrite ?splice_length; cbn [be16 length]; lia].
  unfold fix_l4. destruct (port =? 0); [apply window_splice|apply window_splice2]; cbn [be16 length]; lia.
Qed.

Lemma apply_tcp_fix prel old new port : port_field prel →
  apply_tcp off prel old new port q = if decide (L + 18 ≤ length q)%nat then fix_l4 16 prel true old new port L q else q.
Proof.
  intros Hp. unfold apply_tcp. rewrite l4_read by lia. case_decide; [|done].
  rewrite <- (window_fix 16 prel true old new port 18) by (try lia; destruct Hp; subst prel; lia). cbn zeta.
  rewrite be_at_slice by lia. rewrite be_at_slice by (destruct Hp; subst prel; lia). done.
Qed.

Lemma apply_udp_fix prel old new port : port_field prel →
  apply_udp off prel old new port q =
    if decide (L + 8 ≤ length q)%nat then if be_at (L + 6) q =? 0 then set_port prel port L q else fix_l4 6 prel true old new port L q else q.
Proof.
  intros Hp. unfold apply_udp. rewrite l4_read by lia. case_decide; [|done]. rewrite be_at_slice by lia.
  destruct (be_at (L + 6) q =? 0) eqn:E.
  - unfold set_port. destruct (port =? 0); [rewrite (l4_write 8), window_id by (rewrite ?slice_length; lia); done|].
    assert (Hl : length (splice (slice L 8 q) prel (be16 port)) = 8%nat) by (rewrite splice_length; rewrite ?slice_length; cbn [be16 length]; destruct Hp; subst prel; lia).
    rewrite (l4_write 8) by (done || lia). apply window_splice; cbn [be16 length]; destruct Hp; subst prel; lia.
  - rewrite <- (window_fix 6 prel true old new port 8) by (try lia; destruct Hp; subst prel; lia). cbn zeta.
    rewrite be_at_slice by (destruct Hp; subst prel; lia). done.
Qed.

Lemma apply_icmp_fix old new port : port ≠ 0 →
  apply_icmp off port q = if decide (L + 8 ≤ length q)%nat then fix_l4 2 4 false old new port L q else q.
Proof.
  intros Hp. unfold apply_icmp. rewrite l4_read by lia. case_decide; [|done].
  rewrite <- (window_fix 2 4 false old new port 8) by lia. cbn zeta. rewrite !be_at_slice by lia. destruct (Z.eqb_spec port 0); [done|]. done.
Qed.

End windows.

Lemma l4_ports_fields pkt p sport dport :
  (20 ≤ ihl pkt)%nat → (l4_off pkt ≤ length pkt)%nat → l4_ports pkt ETH_LEN = Some (p, sport, dport) →
  p = ip_proto pkt ∧
  (((p = IPPROTO_TCP ∨ p = IPPROTO_UDP) ∧ sport = be_at (l4_off pkt + 0) pkt ∧ dport = be_at (l4_off pkt + 2) pkt ∧ (l4_off pkt + 4 ≤ length pkt)%nat) ∨
   (p = IPPROTO_ICMP ∧ sport = be_at (l4_off pkt + 4) pkt ∧ dport = sport ∧ (l4_off pkt + 6 ≤ length pkt)%nat)).
Proof.
  intros Hi HL. unfold l4_ports. rewrite read_hdr by done. cbn [mbind option_bind]. destruct (negb _); [done|]. destruct (l4_off_Z pkt Hi HL) as [Ho Hpos].
  rewrite (slice_total 14 20 pkt 9) by lia. change (pkt !!! (14 + 9)%nat) with (ip_proto pkt).
  set (off := ETH_LEN + _) in *. destruct (_ || _) eqn:E.
  - destruct (read_u16_be pkt off) as [sp|] eqn:E1; [|done]. destruct (read_u16_be pkt (off + 2)) as [dp|] eqn:E2; [|done]. cbn. intros [= <- <- <-].
    assert (Hlen : (l4_off pkt + 4 ≤ length pkt)%nat).
    { unfold read_u16_be in E2. destruct (read_array 2 pkt (off + 2)) eqn:E3; [|done]. apply read_array_inv in E3 as (_ & ? & _). lia. }
    rewrite read_u16_be_at in E1, E2 by lia. injection E1 as <-. injection E2 as <-. split; [done|]. left. apply orb_true_iff in E. rewrite !Z.eqb_eq in E.
    split_and!; [done| | |done]; f_equal; unfold l4_off in *; lia.
  - destruct (Z.eqb_spec (ip_proto pkt) IPPROTO_ICMP) as [Ei|]; [|done]. destruct (read_u16_be pkt (off + 4)) as [i|] eqn:E1; [|done]. cbn. intros [= <- <- <-].
    assert (Hlen : (l4_off pkt + 6 ≤ length pkt)%nat).
    { unfold read_u16_be in E1. destruct (read_array 2 pkt (off + 4)) eqn:E3; [|done]. apply read_array_inv in E3 as (_ & ? & _). lia. }
    rewrite read_u16_be_at in E1 by lia. injection E1 as <-. split; [done|]. right. split_and!; [done| |done|done]. f_equal. unfold l4_off in *. lia.
Qed.

Definition nat_addr_ok (ip : list Z) : Prop := bytes_ok ip ∧ length ip = 4%nat.

(** The source translation of a new flow is the reference. *)
Lemma snat_rewrite_translate pkt nat p sport dport nat_port :
  (20 ≤ ihl pkt)%nat → (l4_off pkt ≤ length pkt)%nat → length (nat_ip nat) = 4%nat → nat_port ≠ 0 →
  l4_ports pkt ETH_LEN = Some (p, sport, dport) →
  snat_rewrite pkt (slice 14 20 pkt) ETH_LEN nat p sport nat_port = translate 12 0 (nat_ip nat) nat_port pkt.
Proof.
  intros Hi HL Hn Hp0 Hports. destruct (l4_ports_fields _ _ _ _ Hi HL Hports) as (Hp & Hf). subst p.
  destruct (l4_off_Z pkt Hi HL) as [Ho Hpos]. destruct (addr_write pkt Hi HL (nat_ip nat) Hn 12) as (Hw & Hr & Hc); [by left|].
  pose proof (addr_patch_length 12 (nat_ip nat) pkt ltac:(by left) Hn Hi HL) as Hpl.
  unfold snat_rewrite, translate. rewrite slice_slice by lia. change (ETH_LEN + 12) with (ETH_LEN + Z.of_nat 12). rewrite Hw, Hr, Hc.
  change (splice (splice pkt (14 + 12) (nat_ip nat)) 24 _) with (addr_patch 12 (nat_ip nat) pkt). set (q := addr_patch 12 (nat_ip nat) pkt) in *.
  set (off := ETH_LEN + Z.land _ 15 * 4) in *. set (L := l4_off pkt) in *. set (old := slice (14 + 12) 4 pkt) in *.
  assert (HL34 : (34 ≤ L)%nat) by (unfold L, l4_off; lia). assert (Hz : (nat_port =? 0) = false) by (by apply Z.eqb_neq).
  assert (Hq : ∀ o, (34 ≤ o)%nat → be_at o q = be_at o pkt).
  { intros o Hoo. rewrite (be_at_slice_2 q), (be_at_slice_2 pkt). f_equal. apply addr_patch_out; try done; [by left|lia]. }
  rewrite <- Hpl, <- (apply_tcp_fix L off q Ho Hpos 0 old) by (by left). rewrite <- (apply_udp_fix L off q Ho Hpos 0 old) by (by left).
  rewrite <- (apply_icmp_fix L off q Ho Hpos old) by done. unfold apply_tcp, apply_udp, apply_icmp. rewrite Hz, !(l4_read L off q Ho Hpos) by lia. rewrite andb_true_r.
  destruct Hf as [([Ht|Ht] & -> & _ & _)|(Ht & -> & _ & _)]; rewrite Ht; cbn [Z.eqb IPPROTO_TCP IPPROTO_UDP IPPROTO_ICMP Pos.eqb];
    (case_decide; [rewrite !be_at_slice, !Hq by lia; reflexivity|reflexivity]).
Qed.

(** The rewrite of a conntrack entry is the reference, with the entry's address and
    port, of the side its flags name. *)
Definition entry_rel (e : CtEntry) : nat := if has e CT_REWRITE_SRC then 12%nat else 16%nat.
Definition entry_prel (e : CtEntry) : nat := if has e CT_REWRITE_SRC then 0%nat else 2%nat.

Lemma entry_fields e : addr_field (entry_rel e) ∧ port_field (entry_prel e).
Proof. unfold addr_field, port_field, entry_rel, entry_prel. destruct (has e CT_REWRITE_SRC); auto. Qed.

Lemma ct_apply_translate pkt e :
  ihl pkt = 20%nat → (34 ≤ length pkt)%nat → Z.land (flags e) (Z.lor CT_REWRITE_SRC CT_REWRITE_DST) ≠ 0 → length (xlate_ip e) = 4%nat →
  ct_apply pkt ETH_LEN e = (translate (entry_rel e) (entry_prel e) (xlate_ip e) (xlate_port e) pkt, true).
Proof.
  intros Hi Hl Hf Hx. destruct (entry_fields e) as [Hrel Hprel]. assert (HL : l4_off pkt = 34%nat) by (unfold l4_off; lia). assert (HLp : (l4_off pkt ≤ length pkt)%nat) by lia.
  assert (Hi' : (20 ≤ ihl pkt)%nat) by lia. pose proof (addr_patch_length (entry_rel e) (xlate_ip e) pkt Hrel Hx Hi' HLp) as Hpl.
  unfold ct_apply. apply Z.eqb_neq in Hf. rewrite Hf, read_hdr by done. rewrite (slice_total 14 20 pkt 0) by lia. rewrite (slice_total 14 20 pkt 9) by lia.
  assert (H5 : Z.land (pkt !!! (14 + 0)%nat) 15 = 5) by (unfold ihl in Hi; cbn [Nat.add]; pose proof (ihl_nonneg pkt); lia). rewrite H5. cbn [Z.eqb Pos.eqb negb].
  change (if has e CT_REWRITE_SRC then 12%nat else 16%nat) with (entry_rel e). change (if has e CT_REWRITE_SRC then 0%nat else 2%nat) with (entry_prel e).
  change (pkt !!! (14 + 9)%nat) with (ip_proto pkt).
  set (new := xlate_ip e) in *. rewrite slice_slice by (destruct Hrel; lia). rewrite be_at_slice by lia. set (old := slice (14 + entry_rel e) 4 pkt) in *.
  set (ck := be16 (csum_replace4 (be_at (14 + 10) pkt) old new)).
  assert (Hck : length ck = 2%nat) by done. pose proof (slice_length 14 20 pkt ltac:(lia)) as Hs.
  assert (Hw : write_array ETH_LEN (splice (splice (slice 14 20 pkt) 10 ck) (entry_rel e) new) pkt = Some (addr_patch (entry_rel e) new pkt)).
  { rewrite write_array_splice; change (Z.to_nat ETH_LEN) with 14%nat.
    2:{ rewrite !splice_length; rewrite ?splice_length; destruct Hrel; lia. }
    rewrite window_splice2 by (destruct Hrel; lia). f_equal. unfold addr_patch. fold old. apply splice_comm; destruct Hrel; cbn [be16 length]; lia. }
  rewrite Hw. set (q := addr_patch (entry_rel e) new pkt) in *. unfold translate. fold q. fold old. rewrite HL, <- Hpl. change (Z.to_nat (ETH_LEN + 20)) with 34%nat.
  rewrite <- (apply_tcp_fix 34 (ETH_LEN + 20) q eq_refl ltac:(done) _ old) by done. rewrite <- (apply_udp_fix 34 (ETH_LEN + 20) q eq_refl ltac:(done) _ old) by done. f_equal.
  destruct (_ =? IPPROTO_TCP); [reflexivity|]. destruct (_ =? IPPROTO_UDP); [reflexivity|]. destruct (_ =? IPPROTO_ICMP); [|reflexivity]. cbn [andb].
  destruct (Z.eqb_spec (xlate_port e) 0); [reflexivity|]. cbn [negb]. by apply apply_icmp_fix.
Qed.
