(* ===== verification/Datapath.v ===== *)
(** * The datapath

    What a node does with a packet ([flowplane-core/src/datapath], [egress.rs],
    [encap.rs], [decap.rs], [lb.rs], [dsr.rs]; the production egress
    [forward_decision_v4] and the floating-IP rewrite of [flowplane-ebpf/src]).
    [Config] is what the control plane programs and the datapath only reads; [State]
    is what packets change.  A handler takes both, the packet and its inputs, and
    returns the verdict, the packet and the state.  The longest-prefix-match tries
    are kernel maps ([Lpm]); an address is a list of bytes of either family. *)

From S2P Require Import Prelude FwClass Packet Conntrack Nat Nat64 Meter.
Import fwclass packet conntrack nat nat64 meter.

Open Scope Z_scope.

Module datapath.

(** ** Map values *)

Record Local := mkLocal { uplink_ifindex : Z; uplink_mac : list Z; gateway_mac : list Z; underlay_ipv6 : list Z }.

Record UnderlayValue := mkUnderlay { u_vni : Z; u_tap_ifindex : Z; u_guest_mac : list Z }.

Definition UNDERLAY_LOCAL_DELIVER : Z := 2 ^ 32 - 1.

Record IfaceValue := mkIfaceValue { tap_ifindex : Z; is_local : Z; if_underlay : list Z; guest_mac : list Z; peer_capable : Z }.

Record PortMeta := mkPortMeta {
  pm_vni : Z;
  pm_guest_ipv4 : list Z;
  pm_gateway_ipv4 : list Z;
  pm_guest_mac : list Z;
  pm_l3 : Z;
  pm_offloaded : Z;
  pm_underlay : list Z;
  pm_gateway_ipv6 : list Z;
  pm_guest_ipv6 : list Z
}.

Record RouteValue := mkRoute { nexthop_vni : Z; nexthop_ipv6 : list Z; is_external : Z }.

(** [LbKey], [LbKey6]: VNI, address, port, protocol. *)
Abbreviation LbKey := (Z * list Z * Z * Z)%type.
Record LbValue := mkLbValue { table_id : Z; size : Z }.
Record LbBackend := mkBackend { node_vtep : list Z; overlay_ip : list Z; be_vni : Z; is_v6 : Z }.

Record DsrOpt := mkDsrOpt { family : Z; dsr_port : Z; dsr_lb_ip : list Z }.

Record TunnelEncap := mkTunnel { t_vni : Z; remote : list Z }.

Inductive Action := Pass | Drop | Redirect (ifindex : Z) | RedirectPeer (ifindex : Z) | PassToStack.

(** ** The maps *)

Record Config := mkConfig {
  local : option Local;
  underlay_map : gmap (list Z) UnderlayValue;
  lb : gmap LbKey LbValue;
  lb6 : gmap LbKey LbValue;
  maglev : gmap (Z * Z) LbBackend;
  nats : gmap (Z * list Z) NatValue;
  nat_ips : gset (Z * list Z);
  nat_owners : list (Z * list Z * NatOwner);
  nats6 : gmap (Z * list Z) NatValue;
  nat_ips6 : gset (Z * list Z);
  nat_owners6 : list (Z * list Z * NatOwner);
  routes : list (Z * list Z * RouteValue);
  routes6 : list (Z * list Z * RouteValue);
  port_meta : gmap Z PortMeta;
  ifaces : gmap (Z * list Z) IfaceValue;
  ifaces6 : gmap (Z * list Z) IfaceValue;
  floating_ips : gmap (Z * list Z) (list Z);
  fw : FwMaps;
  fw_epoch : Z
}.

Record State := mkState {
  conntrack : Conntrack;
  conntrack6 : Conntrack;
  dsr : gmap CtKey DsrLbIP;
  dsr6 : gmap CtKey DsrLbIP;
  nat_ct6 : gmap CtKey CtEntry6;
  meters : Meters
}.

Definition set_ct (ct : Conntrack) (s : State) : State := mkState ct (conntrack6 s) (dsr s) (dsr6 s) (nat_ct6 s) (meters s).
Definition set_ct6 (ct : Conntrack) (s : State) : State := mkState (conntrack s) ct (dsr s) (dsr6 s) (nat_ct6 s) (meters s).
Definition set_nat_ct6 (ct : gmap CtKey CtEntry6) (s : State) : State := mkState (conntrack s) (conntrack6 s) (dsr s) (dsr6 s) ct (meters s).
Definition set_meters (m : Meters) (s : State) : State := mkState (conntrack s) (conntrack6 s) (dsr s) (dsr6 s) (nat_ct6 s) m.

(** [u32::to_be_bytes] *)
Definition be32 (v : Z) : list Z := [u8 (Z.shiftr v 24); u8 (Z.shiftr v 16); u8 (Z.shiftr v 8); u8 v].

(** ** Tunnels and frames *)

Definition tunnel_encap (route : RouteValue) : TunnelEncap := mkTunnel (nexthop_vni route) (nexthop_ipv6 route).
Definition reforward (v : Z) (backend : list Z) : TunnelEncap := mkTunnel v backend.

Definition GW_MAC : list Z := [2; 0; 0; 0; 0; 1].
Definition GENEVE_OVERHEAD : Z := 56.

(** The Ethernet header, field by field; [None] if a write is out of range. *)
Definition write_eth (dst_mac : list Z) (ethertype : Z) (pkt : list Z) : option (list Z) :=
  if decide (length pkt < 14)%nat then None
  else pkt ← write_bytes 0 dst_mac pkt; pkt ← write_bytes 6 GW_MAC pkt; write_bytes 12 (be16 ethertype) pkt.

(** [None] is [Err(Bounds)]. *)
Definition decap_and_rewrite (pkt : list Z) (tap : Z) (mac : list Z) (ethertype : Z) (l3 peer : bool) : option (list Z * Action) :=
  pkt ← write_eth (if l3 then replicate 6 0 else mac) ethertype pkt;
  Some (pkt, if peer then RedirectPeer tap else Redirect tap).

Definition edge_local_deliver (pkt mac : list Z) (ethertype : Z) : list Z * Action :=
  match write_eth mac ethertype pkt with
  | Some pkt => (pkt, PassToStack)
  | None => (pkt, Drop)
  end.

(** ** The DSR option *)

Definition OPT_CLASS : Z := 264.
Definition OPT_TYPE : Z := 1.
Definition OPT_LEN_WORDS : Z := 5.

Definition encode (opt : DsrOpt) : list Z := be16 OPT_CLASS ++ [OPT_TYPE; OPT_LEN_WORDS; family opt; 0] ++ be16 (dsr_port opt) ++ dsr_lb_ip opt.

Definition decode (b : list Z) : option DsrOpt :=
  if negb (be_at 0 b =? OPT_CLASS) || negb (b !!! 2%nat =? OPT_TYPE) then None
  else Some (mkDsrOpt (b !!! 4%nat) (be_at 6 b) (slice 8 16 b)).

(** ** Load balancing *)

Definition select (c : Config) (v : option LbValue) (hash : option Z) : option LbBackend :=
  lb ← v;
  if size lb =? 0 then None
  else h ← hash; maglev c !! (table_id lb, h mod size lb).

Definition lb_select_forward (c : Config) (pkt : list Z) (ip_off v : Z) : option LbBackend :=
  dst ← read_array 4 pkt (ip_off + 16);
  src ← read_array 4 pkt (ip_off + 12);
  '(p, sport, dport) ← l4_ports pkt ip_off;
  let lookup_port := if p =? 1 then 0 else dport in
  select c (lb c !! (v, dst, lookup_port, p)) (Some (hash5 src dst sport dport p)).

Definition lb_select_forward_v6 (c : Config) (pkt : list Z) (ip_off v : Z) : option LbBackend :=
  nexthdr ← read_u8 pkt (ip_off + 6);
  if negb (nexthdr =? 6) && negb (nexthdr =? 17) then None
  else
    dst6 ← read_array 16 pkt (ip_off + 24);
    sport ← read_u16_be pkt (ip_off + 40);
    dport ← read_u16_be pkt (ip_off + 42);
    select c (lb6 c !! (v, dst6, dport, nexthdr)) (hash_v6_at pkt (ip_off + 8) (ip_off + 24) sport dport nexthdr).

(** The errors quote a packet the balanced address sent. *)
Definition lb_select_forward_icmp_error (c : Config) (pkt : list Z) (ip_off v : Z) : option LbBackend :=
  b ← read_u8 pkt ip_off;
  if negb (Z.land b 15 =? 5) then None
  else
    p ← read_u8 pkt (ip_off + 9);
    if negb (p =? 1) then None
    else
      let icmp_off := ip_off + 20 in
      t ← read_u8 pkt icmp_off;
      if negb (t =? 3) && negb (t =? 11) && negb (t =? 12) then None
      else
        let inner_ip_off := icmp_off + 8 in
        b ← read_u8 pkt inner_ip_off;
        if negb (Z.land b 15 =? 5) then None
        else
          inner_proto ← read_u8 pkt (inner_ip_off + 9);
          if negb (inner_proto =? 6) && negb (inner_proto =? 17) then None
          else
            inner_src ← read_array 4 pkt (inner_ip_off + 12);
            inner_dst ← read_array 4 pkt (inner_ip_off + 16);
            let inner_l4_off := inner_ip_off + 20 in
            inner_sport ← read_u16_be pkt inner_l4_off;
            inner_dport ← read_u16_be pkt (inner_l4_off + 2);
            select c (lb c !! (v, inner_src, inner_sport, inner_proto)) (Some (hash5 inner_dst inner_src inner_dport inner_sport inner_proto)).

Definition lb_select_forward_icmp_error_v6 (c : Config) (pkt : list Z) (ip_off v : Z) : option LbBackend :=
  p ← read_u8 pkt (ip_off + 6);
  if negb (p =? 58) then None
  else
    let icmp_off := ip_off + 40 in
    t ← read_u8 pkt icmp_off;
    if negb (t =? 1) && negb (t =? 2) && negb (t =? 3) && negb (t =? 4) then None
    else
      let inner_ip_off := icmp_off + 8 in
      inner_nexthdr ← read_u8 pkt (inner_ip_off + 6);
      if negb (inner_nexthdr =? 6) && negb (inner_nexthdr =? 17) then None
      else
        inner_src ← read_array 16 pkt (inner_ip_off + 8);
        inner_sport ← read_u16_be pkt (inner_ip_off + 40);
        inner_dport ← read_u16_be pkt (inner_ip_off + 42);
        select c (lb6 c !! (v, inner_src, inner_sport, inner_nexthdr))
          (hash_v6_at pkt (inner_ip_off + 24) (inner_ip_off + 8) inner_dport inner_sport inner_nexthdr).

Section handlers.
Context {lp : Lpm}.

(** ** Routing *)

(** [route4], [route6]; [nat_owner], [nat_owner6]. *)
Definition route4 (c : Config) (v : Z) (dst : list Z) : option RouteValue := lpm (routes c) (be32 v ++ dst).
Definition route6 (c : Config) (v : Z) (dst : list Z) : option RouteValue := lpm (routes6 c) (be32 v ++ dst).
Definition nat_owner (c : Config) (ip : list Z) (port : Z) : option NatOwner := lpm (nat_owners c) (ip ++ be16 port).
Definition nat_owner6 (c : Config) (ip : list Z) (port : Z) : option NatOwner := lpm (nat_owners6 c) (ip ++ be16 port).

Inductive Deliver := DPass | DLocal (tap : Z) (mac : list Z) | DEncap (tunnel : TunnelEncap) (uplink : Z).

Definition deliver (c : Config) (v : Z) (dst : list Z) (v6 : bool) (route : RouteValue) : Deliver :=
  let iface := if v6 then ifaces6 c !! (v, dst) else ifaces c !! (v, slice 0 4 dst) in
  let encap := match local c with
               | None => DPass
               | Some l => DEncap (tunnel_encap route) (uplink_ifindex l)
               end in
  match iface with
  | Some iv => if is_local iv =? 0 then encap else DLocal (tap_ifindex iv) (guest_mac iv)
  | None => encap
  end.

(** ** Guest egress, IPv4 *)

Record GuestTxIn := mkTxIn { meta : PortMeta; src_ifindex : Z; tx_now : Z }.
Record GuestTxOut := mkTxOut { action : Action; edt_tstamp : option Z; tunnel : option TunnelEncap }.

Definition drop_out : GuestTxOut := mkTxOut Drop None None.
Definition pass_out : GuestTxOut := mkTxOut Pass None None.

(** Step 1: the source's firewall.  [None]: drop.  Otherwise whether the flow met
    the firewall here. *)
Definition guest_admit (c : Config) (in_ : GuestTxIn) (pkt : list Z) (s : State) : option bool * State :=
  let v := pm_vni (meta in_) in
  match ct_key pkt ETH_LEN v with
  | None => (None, s)
  | Some key =>
      let hit := conntrack s !! key in
      let recheck := match hit with None => true | Some e => ct_hit_recheck pkt ETH_LEN e (fw_epoch c) end in
      if negb recheck then (Some false, s)
      else if fw_classify pkt (fw c) ETH_LEN (src_ifindex in_) FW_DIR_EGRESS =? FW_ACTION_DROP then
        (None, match hit with Some _ => set_ct (ct_forget_default pkt ETH_LEN v (conntrack s)) s | None => s end)
      else
        (Some true, match hit with
                    | Some e => set_ct (<[key := mkCtEntry (last_seen e) (xlate_ip e) (xlate_port e) (flags e) (tcp_state e) (fwall_action e) (fw_epoch c)]>
                                          (conntrack s)) s
                    | None => s
                    end)
  end.

(** The entry the reply of a balanced flow is rewritten with. *)
Definition dsr_entry (d : DsrLbIP) : CtEntry := mkCtEntry 0 (slice 0 4 (lb_ip d)) 0 CT_REWRITE_SRC 0 0 0.

(** [None]: drop.  Otherwise the packet and whether it was rewritten. *)
Definition guest_dsr (v : Z) (pkt : list Z) (s : State) : option (list Z * bool) :=
  match ct_key pkt ETH_LEN v with
  | None => Some (pkt, false)
  | Some key =>
      match dsr s !! key with
      | None => Some (pkt, false)
      | Some d => let '(pkt, ok) := ct_apply pkt ETH_LEN (dsr_entry d) in if ok then Some (pkt, true) else None
      end
  end.

(** Step 5. *)
Definition track_flow (c : Config) (v now : Z) (pkt : list Z) (s : State) : State :=
  match ct_key pkt ETH_LEN v with
  | None => s
  | Some key =>
      match conntrack s !! key with
      | None => set_ct (ct_create_default pkt ETH_LEN v now (fw_epoch c) (conntrack s)) s
      | Some e => set_ct (ct_refresh pkt ETH_LEN key e now (fw_epoch c) (conntrack s)) s
      end
  end.

(** Step 7. *)
Definition guest_deliver (c : Config) (in_ : GuestTxIn) (check_dest : bool) (dst : list Z) (route : RouteValue) (pkt : list Z) (s : State)
    : GuestTxOut * list Z * State :=
  let v := pm_vni (meta in_) in
  match deliver c v (splice (replicate 16 0) 0 dst) false route with
  | DLocal tap mac =>
      if check_dest && (fw_classify pkt (fw c) ETH_LEN tap FW_DIR_INGRESS =? FW_ACTION_DROP) then
        (drop_out, pkt, set_ct (ct_forget_default pkt ETH_LEN v (conntrack s)) s)
      else (mkTxOut (Redirect tap) None None, write_ 6 GW_MAC (write_ 0 mac pkt), s)
  | DEncap t uplink =>
      let '(m, tstamp) := edt_egress (src_ifindex in_) (Z.of_nat (length pkt) + GENEVE_OVERHEAD) (tx_now in_) (meters s) in
      (mkTxOut (Redirect uplink) tstamp (Some t), pkt, set_meters m s)
  | DPass => (pass_out, pkt, s)
  end.

Definition process_guest_tx (c : Config) (in_ : GuestTxIn) (pkt : list Z) (s : State) : GuestTxOut * list Z * State :=
  let v := pm_vni (meta in_) in
  let now := tx_now in_ in
  let '(admitted, s) := guest_admit c in_ pkt s in
  match admitted with
  | None => (drop_out, pkt, s)
  | Some check_dest =>
      match guest_dsr v pkt s with
      | None => (drop_out, (match ct_key pkt ETH_LEN v ≫= (dsr s !!.) with Some d => (ct_apply pkt ETH_LEN (dsr_entry d)).1 | None => pkt end), s)
      | Some (pkt, is_dsr) =>
          match read_array 4 pkt (ETH_LEN + 16) with
          | None => (drop_out, pkt, s)
          | Some dst =>
              match route4 c v dst with
              | None => (pass_out, pkt, s)
              | Some route =>
                  let is_ext := negb (is_external route =? 0) in
                  let '(out, pkt, ct) := if (is_dsr : bool) then (Continue, pkt, conntrack s)
                                         else snat_egress (nats c) pkt (conntrack s) ETH_LEN v is_ext now (fw_epoch c) in
                  let s := set_ct ct s in
                  match out with
                  | Continue =>
                      let s := track_flow c v now pkt s in
                      let '(m, pass) := public_pass (src_ifindex in_) (Z.of_nat (length pkt) + GENEVE_OVERHEAD) is_ext now (meters s) in
                      let s := set_meters m s in
                      if negb pass then (drop_out, pkt, s) else guest_deliver c in_ check_dest dst route pkt s
                  | _ => (drop_out, pkt, s)
                  end
              end
          end
      end
  end.

(** ** Guest egress, IPv4, in production *)

Inductive EgressVerdict := EPass | EDrop | ELocal (tap : Z) (mac : list Z) | EEncap (t : TunnelEncap).

(** The floating-IP rewrite ([rewrite_raw]). *)
Definition rewrite_raw (c : Config) (pkt : list Z) (ip_off v : Z) (is_src : bool) : list Z :=
  match read_array 20 pkt ip_off with
  | None => pkt
  | Some hdr =>
      let rel := if is_src then 12%nat else 16%nat in
      let old := slice rel 4 hdr in
      match floating_ips c !! (v, old) with
      | None => pkt
      | Some new =>
          let l4 := ip_off + Z.land (hdr !!! 0%nat) 15 * 4 in
          let p := hdr !!! 9%nat in
          let pkt := write_ (ip_off + Z.of_nat rel) new pkt in
          let pkt := match read_u16_be pkt (ip_off + 10) with
                     | Some ipc => write_ (ip_off + 10) (be16 (csum_replace4 ipc old new)) pkt
                     | None => pkt
                     end in
          if p =? IPPROTO_TCP then
            match read_array 18 pkt l4 with
            | Some h => write_ (l4 + 16) (be16 (csum_replace4 (be_at 16 h) old new)) pkt
            | None => pkt
            end
          else if p =? IPPROTO_UDP then
            match read_array 8 pkt l4 with
            | Some h => if be_at 6 h =? 0 then pkt else write_ (l4 + 6) (be16 (csum_replace4 (be_at 6 h) old new)) pkt
            | None => pkt
            end
          else pkt
      end
  end.

(** The conntrack and firewall step.  A hit is translated and refreshed. *)
Definition forward_admit (c : Config) (ifindex : Z) (m : PortMeta) (now : Z) (pkt : list Z) (s : State) : option bool * list Z * State :=
  let v := pm_vni m in
  match ct_key pkt ETH_LEN v with
  | None => (Some false, pkt, s)
  | Some key =>
      let hit := conntrack s !! key in
      let recheck := match hit with None => true | Some e => ct_hit_recheck pkt ETH_LEN e (fw_epoch c) end in
      if recheck && (fw_classify pkt (fw c) ETH_LEN ifindex FW_DIR_EGRESS =? FW_ACTION_DROP) then
        (None, pkt, match hit with Some _ => set_ct (ct_forget_default pkt ETH_LEN v (conntrack s)) s | None => s end)
      else match hit with
           | None => (Some recheck, pkt, s)
           | Some e =>
               let '(pkt, ok) := if has e CT_REWRITE_SRC then ct_apply pkt ETH_LEN e else (pkt, true) in
               if negb ok then (None, pkt, s)
               else (Some recheck, pkt, set_ct (ct_refresh pkt ETH_LEN key e now (fw_epoch c) (conntrack s)) s)
           end
  end.

Definition ensure_tracked (c : Config) (v now : Z) (pkt : list Z) (s : State) : State :=
  match ct_key pkt ETH_LEN v with
  | None => s
  | Some key =>
      match conntrack s !! key with
      | None => set_ct (ct_create_default pkt ETH_LEN v now (fw_epoch c) (conntrack s)) s
      | Some _ => s
      end
  end.

(** The caller checked that the frame holds an IPv4 header. *)
Definition forward_decision_v4 (c : Config) (ifindex : Z) (m : PortMeta) (now : Z) (pkt : list Z) (s : State) : EgressVerdict * list Z * State :=
  let v := pm_vni m in
  let '(admitted, pkt, s) := forward_admit c ifindex m now pkt s in
  match admitted with
  | None => (EDrop, pkt, s)
  | Some check_dest =>
      match guest_dsr v pkt s with
      | None => (EDrop, (match ct_key pkt ETH_LEN v ≫= (dsr s !!.) with Some d => (ct_apply pkt ETH_LEN (dsr_entry d)).1 | None => pkt end), s)
      | Some (pkt, _) =>
          let pkt := rewrite_raw c pkt ETH_LEN v true in
          let pkt := rewrite_raw c pkt ETH_LEN v false in
          let dst := slice 30 4 pkt in
          match route4 c v dst with
          | None => (EPass, pkt, s)
          | Some route =>
              let is_ext := negb (is_external route =? 0) in
              let '(out, pkt, ct) := snat_egress (nats c) pkt (conntrack s) ETH_LEN v is_ext now (fw_epoch c) in
              let s := set_ct ct s in
              match out with
              | Continue =>
                  let s := ensure_tracked c v now pkt s in
                  let '(mt, pass) := public_pass ifindex (Z.of_nat (length pkt)) is_ext now (meters s) in
                  let s := set_meters mt s in
                  if negb pass then (EDrop, pkt, s)
                  else match deliver c v (splice (replicate 16 0) 0 dst) false route with
                       | DLocal tap mac =>
                           if check_dest && (fw_classify pkt (fw c) ETH_LEN tap FW_DIR_INGRESS =? FW_ACTION_DROP) then
                             (EDrop, pkt, set_ct (ct_forget_default pkt ETH_LEN v (conntrack s)) s)
                           else (ELocal tap mac, pkt, s)
                       | DEncap t _ => (EEncap t, pkt, s)
                       | DPass => (EPass, pkt, s)
                       end
              | _ => (EDrop, pkt, s)
              end
          end
      end
  end.

(** ** Guest egress, IPv6 *)

Inductive EgressCt6 := Established | Recheck | Miss | Unkeyable.

Definition egress_ct6 (c : Config) (pkt : list Z) (ip_off v now : Z) (s : State) : EgressCt6 * State :=
  match ct_key6 pkt ip_off v with
  | None => (Unkeyable, s)
  | Some key =>
      match conntrack6 s !! key with
      | Some e =>
          let recheck := ct_hit_recheck6 pkt ip_off e (fw_epoch c) in
          (if recheck then Recheck else Established, set_ct6 (ct_refresh6 pkt ip_off key e now (fw_epoch c) (conntrack6 s)) s)
      | None => (Miss, s)
      end
  end.

(** [None] is [EgressFwCt6::Drop]. *)
Definition egress_fw_ct6 (c : Config) (pkt : list Z) (ip_off ifindex v now : Z) (s : State) : option bool * State :=
  let '(r, s) := egress_ct6 c pkt ip_off v now s in
  match r with
  | Established => (Some false, s)
  | Unkeyable => (None, s)
  | Miss =>
      if fw_classify6 pkt (fw c) ip_off ifindex FW_DIR_EGRESS =? FW_ACTION_DROP then (None, s)
      else (Some true, set_ct6 (ct_create_default6 pkt ip_off v now (fw_epoch c) (conntrack6 s)) s)
  | Recheck =>
      if fw_classify6 pkt (fw c) ip_off ifindex FW_DIR_EGRESS =? FW_ACTION_DROP then
        (None, set_ct6 (ct_forget_default6 pkt ip_off v (conntrack6 s)) s)
      else (Some true, s)
  end.

Definition route_decision6 (c : Config) (pkt : list Z) (m : PortMeta) : Deliver :=
  match read_array 16 pkt (ETH_LEN + 24) with
  | None => DPass
  | Some dst =>
      match route6 c (pm_vni m) dst with
      | None => DPass
      | Some route => deliver c (pm_vni m) dst true route
      end
  end.

(** The reply of a balanced flow: the packet, and whether it was one. *)
Definition guest_dsr6 (v : Z) (pkt : list Z) (s : State) : list Z * bool :=
  match ct_key6 pkt ETH_LEN v ≫= (dsr6 s !!.), read_array 16 pkt (ETH_LEN + 8) with
  | Some d, Some src =>
      ((rewrite_v6_addr pkt ETH_LEN (ETH_LEN + 8) (default 0 (read_u8 pkt (ETH_LEN + 6))) src (lb_ip d)).1, true)
  | _, _ => (pkt, false)
  end.

Definition process_guest_tx_v6 (c : Config) (in_ : GuestTxIn) (pkt : list Z) (s : State) : GuestTxOut * list Z * State :=
  let v := pm_vni (meta in_) in
  let '(admitted, s) := egress_fw_ct6 c pkt ETH_LEN (src_ifindex in_) v (tx_now in_) s in
  match admitted with
  | None => (drop_out, pkt, s)
  | Some check_dest =>
      let '(pkt, did_dsr) := guest_dsr6 v pkt s in
      let is_ext6 := match read_array 16 pkt (ETH_LEN + 24) ≫= route6 c v with Some r => negb (is_external r =? 0) | None => false end in
      let '(out, pkt, ct) := if (did_dsr : bool) then (Continue, pkt, nat_ct6 s)
                             else snat_egress6 (nats6 c) pkt (nat_ct6 s) ETH_LEN v is_ext6 (tx_now in_) in
      let s := set_nat_ct6 ct s in
      match out with
      | Continue =>
          match route_decision6 c pkt (meta in_) with
          | DLocal tap mac =>
              if check_dest && (fw_classify6 pkt (fw c) ETH_LEN tap FW_DIR_INGRESS =? FW_ACTION_DROP) then
                (drop_out, pkt, set_ct6 (ct_forget_default6 pkt ETH_LEN v (conntrack6 s)) s)
              else (mkTxOut (Redirect tap) None None, write_ 6 GW_MAC (write_ 0 mac pkt), s)
          | DEncap t uplink =>
              let '(m, tstamp) := edt_egress (src_ifindex in_) (Z.of_nat (length pkt) + GENEVE_OVERHEAD) (tx_now in_) (meters s) in
              (mkTxOut (Redirect uplink) tstamp (Some t), pkt, set_meters m s)
          | DPass => (pass_out, pkt, s)
          end
      | _ => (drop_out, pkt, s)
      end
  end.

(** ** Guest egress, NAT64 *)

Definition process_guest_tx_nat64 (c : Config) (m : PortMeta) (l : Local) (pkt : list Z) (s : State) : Action * option TunnelEncap * list Z * State :=
  let '(x, ct) := nat64_egress_parse (nats c) pkt ETH_LEN (pm_vni m) (pm_guest_ipv4 m) 0 (conntrack s) in
  let s := set_ct ct s in
  match x with
  | None => (Pass, None, pkt, s)
  | Some x =>
      match shrink_head 20 pkt with
      | None => (Drop, None, pkt, s)
      | Some pkt =>
          match nat64_egress_write pkt ETH_LEN true x with
          | None => (Drop, None, pkt, s)
          | Some pkt =>
              match route4 c (pm_vni m) (x_ipv4_dst x) with
              | None => (Pass, None, pkt, s)
              | Some route => (Redirect (uplink_ifindex l), Some (tunnel_encap route), pkt, s)
              end
          end
      end
  end.

(** ** From the uplink, IPv4 *)

Record UplinkIn := mkUpIn { up_vni : Z; up_local : Local; up_now : Z }.
Record UplinkOut := mkUpOut { up_action : Action; up_tunnel : option TunnelEncap }.

Inductive UplinkTarget := TLocal (tap : Z) (mac : list Z) (peer : bool) | TEdgeLocalDeliver | TDrop.

(** [resolve_uplink_target], [resolve_uplink_target6]: [m] is the map of the
    interfaces of the family. *)
Definition resolve_uplink_target (c : Config) (m : gmap (Z * list Z) IfaceValue) (v : Z) (dst : list Z) (l : Local) : UplinkTarget :=
  let miss := match underlay_map c !! underlay_ipv6 l with
              | Some u => if u_tap_ifindex u =? UNDERLAY_LOCAL_DELIVER then TEdgeLocalDeliver else TDrop
              | None => TDrop
              end in
  match m !! (v, dst) with
  | Some iv => if is_local iv =? 0 then miss else TLocal (tap_ifindex iv) (guest_mac iv) (negb (peer_capable iv =? 0))
  | None => miss
  end.

(** The epoch the packet was admitted under; [None]: drop. *)
Definition uplink_ingress_firewall (c : Config) (pkt : list Z) (v tap : Z) (s : State) : option Z * State :=
  match ct_key pkt ETH_LEN v with
  | None => (None, s)
  | Some key =>
      let '(hit, recheck) := match conntrack s !! key with
                             | None => (false, true)
                             | Some e => (true, ct_hit_recheck pkt ETH_LEN e (fw_epoch c))
                             end in
      if recheck && (fw_classify pkt (fw c) ETH_LEN tap FW_DIR_INGRESS =? FW_ACTION_DROP) then
        (None, if (hit : bool) then set_ct (ct_forget_default pkt ETH_LEN v (conntrack s)) s else s)
      else (Some (fw_epoch c), s)
  end.

Definition resolve_nat64_guest_ipv6 (c : Config) (tap : Z) : list Z :=
  match port_meta c !! tap with Some m => pm_guest_ipv6 m | None => replicate 16 0 end.

Definition resolve_delivery_l3 (c : Config) (tap : Z) : bool :=
  match port_meta c !! tap with Some m => negb (pm_l3 m =? 0) | None => false end.

(** Where the packet goes: a tap, and whether it is load balanced; or at once a
    verdict. *)
Definition uplink_target (c : Config) (in_ : UplinkIn) (pkt : list Z) (lb_ul : option LbBackend) : (UplinkOut + Z * list Z * bool * bool) * list Z :=
  let out a t := inl (mkUpOut a t) in
  match lb_ul with
  | Some be =>
      if decide (node_vtep be = underlay_ipv6 (up_local in_)) then
        match ifaces c !! (be_vni be, slice 0 4 (overlay_ip be)) with
        | Some iv => if is_local iv =? 0 then (out Drop None, pkt)
                     else (inr (tap_ifindex iv, guest_mac iv, true, negb (peer_capable iv =? 0)), pkt)
        | None => (out Drop None, pkt)
        end
      else (out (Redirect (uplink_ifindex (up_local in_))) (Some (reforward (be_vni be) (node_vtep be))), pkt)
  | None =>
      match read_array 4 pkt (ETH_LEN + 16) with
      | None => (out Drop None, pkt)
      | Some dst =>
          let relay := match floating_ips c !! (up_vni in_, dst) with
                       | Some _ => None
                       | None => match l4_ports pkt ETH_LEN with
                                 | Some (_, _, dport) => neighbor_nat_owner (nat_owner c dst dport) (up_vni in_)
                                 | None => None
                                 end
                       end in
          match relay with
          | Some owner_ul => (out (Redirect (uplink_ifindex (up_local in_))) (Some (reforward (up_vni in_) owner_ul)), pkt)
          | None =>
              let '(pkt, deliver_dst) := match floating_ips c !! (up_vni in_, dst) with
                                         | Some g => (floating_ip_dnat_rewrite pkt ETH_LEN dst g, g)
                                         | None => (pkt, dst)
                                         end in
              match resolve_uplink_target c (ifaces c) (up_vni in_) deliver_dst (up_local in_) with
              | TLocal tap mac peer => (inr (tap, mac, false, peer), pkt)
              | TEdgeLocalDeliver => let '(pkt, a) := edge_local_deliver pkt (uplink_mac (up_local in_)) ETH_P_IP in (out a None, pkt)
              | TDrop => (out Drop None, pkt)
              end
          end
      end
  end.

Definition process_uplink (c : Config) (in_ : UplinkIn) (pkt : list Z) (s : State) : UplinkOut * list Z * State :=
  let icmp_relay := lb_select_forward_icmp_error c pkt ETH_LEN (up_vni in_) in
  let is_icmp_relay := match icmp_relay with Some _ => true | None => false end in
  let lb_ul := match icmp_relay with Some b => Some b | None => lb_select_forward c pkt ETH_LEN (up_vni in_) end in
  let '(target, pkt) := uplink_target c in_ pkt lb_ul in
  match target with
  | inl out => (out, pkt, s)
  | inr (tap, mac, is_lb, peer) =>
      let '(admitted, s) := if is_icmp_relay then (Some (fw_epoch c), s) else uplink_ingress_firewall c pkt (up_vni in_) tap s in
      match admitted with
      | None => (mkUpOut Drop None, pkt, s)
      | Some _ =>
          let s := if (is_lb : bool) then s else track_flow c (up_vni in_) (up_now in_) pkt s in
          match decap_and_rewrite pkt tap mac ETH_P_IP (resolve_delivery_l3 c tap) peer with
          | None => (mkUpOut Drop None, pkt, s)
          | Some (pkt, a) =>
              let '(m, pass) := ingress_pass tap (Z.of_nat (length pkt)) (up_now in_) (meters s) in
              let s := set_meters m s in
              (mkUpOut (if (pass : bool) then a else Drop) None, pkt, s)
          end
      end
  end.

(** ** Returns of translated flows *)

Definition nat_return_key (c : Config) (pkt : list Z) (v : Z) : option (CtKey * bool) :=
  key ← ct_key pkt ETH_LEN v;
  if decide ((v, dst_ip key) ∈ nat_ips c) then
    let plain := mkCtKey (vni key) (replicate 4 0) (dst_ip key) 0 (dst_port key) (proto key) in
    match nat_icmp_error_origin pkt ETH_LEN with
    | Some (quoted_src, quoted_sport, quoted_proto) =>
        if decide (quoted_src = dst_ip key) then Some (mkCtKey (vni key) (replicate 4 0) (dst_ip key) 0 quoted_sport quoted_proto, true)
        else Some (plain, false)
    | None => Some (plain, false)
    end
  else Some (key, false).

(** The state is not changed. *)
Definition process_uplink_nat_return (c : Config) (v : Z) (l : Local) (pkt : list Z) (s : State) : Action * list Z :=
  match nat_return_key c pkt v with
  | None => (Drop, pkt)
  | Some (key, is_icmp_error) =>
      match conntrack s !! key with
      | None => (Drop, pkt)
      | Some e =>
          if negb (has e CT_REWRITE_DST) then (Drop, pkt)
          else
            let '(pkt, applied) := if (is_icmp_error : bool) then nat_icmp_error_return_rewrite pkt ETH_LEN e else ct_apply pkt ETH_LEN e in
            if negb applied then (Drop, pkt)
            else match resolve_uplink_target c (ifaces c) v (xlate_ip e) l with
                 | TLocal tap mac peer =>
                     match decap_and_rewrite pkt tap mac ETH_P_IP (resolve_delivery_l3 c tap) peer with
                     | Some (pkt, a) => (a, pkt)
                     | None => (Drop, pkt)
                     end
                 | _ => (Drop, pkt)
                 end
      end
  end.

Definition process_uplink_nat64_ingress (tap : Z) (mac ipv6 : list Z) (rev : CtEntry) (pkt : list Z) : Action * list Z :=
  let '(pkt, ok) := ct_apply pkt ETH_LEN rev in
  if negb ok then (Drop, pkt)
  else match nat64_ingress_parse pkt ETH_LEN ipv6 mac (xlate_port rev) with
       | None => (Pass, pkt)
       | Some x =>
           let pkt := grow_head 20 pkt in
           match nat64_ingress_write pkt ETH_LEN GW_MAC x with
           | None => (Drop, pkt)
           | Some pkt => (Redirect tap, pkt)
           end
       end.

Definition process_uplink_rx (c : Config) (in_ : UplinkIn) (pkt : list Z) (s : State) : UplinkOut * list Z * State :=
  let v := up_vni in_ in
  let ret := match lb_select_forward c pkt ETH_LEN v with
             | Some _ => None
             | None =>
                 '(key, _) ← nat_return_key c pkt v;
                 e ← conntrack s !! key;
                 if has e CT_REWRITE_DST then Some (key, e) else None
             end in
  match ret with
  | None => process_uplink c in_ pkt s
  | Some (key, e) =>
      if has e CT_F_NAT64 then
        let r := refreshed (tcp_flags pkt ETH_LEN) e (up_now in_) (fw_epoch c) in
        let s := set_ct (ct_refresh pkt ETH_LEN key e (up_now in_) (fw_epoch c) (conntrack s)) s in
        match resolve_uplink_target c (ifaces c) v (xlate_ip r) (up_local in_) with
        | TLocal tap mac _ =>
            let '(a, pkt) := process_uplink_nat64_ingress tap mac (resolve_nat64_guest_ipv6 c tap) r pkt in
            (mkUpOut a None, pkt, s)
        | _ => (mkUpOut Drop None, pkt, s)
        end
      else
        let '(a, pkt) := process_uplink_nat_return c v (up_local in_) pkt s in
        (mkUpOut a None, pkt, s)
  end.

(** ** From the uplink, IPv6 *)

Definition uplink_ingress_firewall6 (c : Config) (pkt : list Z) (v tap : Z) (s : State) : option Z * State :=
  match ct_key6 pkt ETH_LEN v with
  | None => (None, s)
  | Some key =>
      let '(hit, recheck) := match conntrack6 s !! key with
                             | None => (false, true)
                             | Some e => (true, ct_hit_recheck6 pkt ETH_LEN e (fw_epoch c))
                             end in
      if recheck && (fw_classify6 pkt (fw c) ETH_LEN tap FW_DIR_INGRESS =? FW_ACTION_DROP) then
        (None, if (hit : bool) then set_ct6 (ct_forget_default6 pkt ETH_LEN v (conntrack6 s)) s else s)
      else (Some (fw_epoch c), s)
  end.

Definition uplink_track_flow6 (c : Config) (in_ : UplinkIn) (pkt : list Z) (s : State) : State :=
  match ct_key6 pkt ETH_LEN (up_vni in_) with
  | None => s
  | Some key =>
      match conntrack6 s !! key with
      | None => set_ct6 (ct_create_default6 pkt ETH_LEN (up_vni in_) (up_now in_) (fw_epoch c) (conntrack6 s)) s
      | Some e => set_ct6 (ct_refresh6 pkt ETH_LEN key e (up_now in_) (fw_epoch c) (conntrack6 s)) s
      end
  end.

Definition nat_return_dnat6 (c : Config) (v : Z) (pkt : list Z) (s : State) : list Z * bool :=
  match ct_key6 pkt ETH_LEN v with
  | None => (pkt, false)
  | Some key =>
      if decide ((v, dst_ip key) ∈ nat_ips6 c) then
        let '(dport, p, is_icmp_error) :=
          match nat_icmp_error_origin6 pkt ETH_LEN with
          | Some (quoted_src, quoted_sport, quoted_proto) =>
              if decide (quoted_src = dst_ip key) then (quoted_sport, quoted_proto, true) else (dst_port key, proto key, false)
          | None => (dst_port key, proto key, false)
          end in
        match nat_ct6 s !! mkCtKey (vni key) (replicate 16 0) (dst_ip key) 0 dport p with
        | Some e =>
            if Z.land (flags6 e) CT_REWRITE_DST =? 0 then (pkt, false)
            else (if (is_icmp_error : bool) then (nat_icmp_error_return_rewrite6 pkt ETH_LEN e).1 else nat_return_rewrite6 pkt ETH_LEN e, true)
        | None => (pkt, false)
        end
      else (pkt, false)
  end.

Definition uplink_target6 (c : Config) (in_ : UplinkIn) (pkt : list Z) (lb_ul : option LbBackend) : (UplinkOut + Z * list Z * bool * bool) * list Z :=
  let out a t := inl (mkUpOut a t) in
  match lb_ul with
  | Some be =>
      if decide (node_vtep be = underlay_ipv6 (up_local in_)) then
        match ifaces6 c !! (be_vni be, overlay_ip be) with
        | Some iv => if is_local iv =? 0 then (out Drop None, pkt)
                     else (inr (tap_ifindex iv, guest_mac iv, true, negb (peer_capable iv =? 0)), pkt)
        | None => (out Drop None, pkt)
        end
      else (out (Redirect (uplink_ifindex (up_local in_))) (Some (reforward (be_vni be) (node_vtep be))), pkt)
  | None =>
      match read_array 16 pkt (ETH_LEN + 24) with
      | None => (out Drop None, pkt)
      | Some dst =>
          let relay := match l4_ports_v6 pkt ETH_LEN with
                       | Some (_, _, dport) => neighbor_nat_owner (nat_owner6 c dst dport) (up_vni in_)
                       | None => None
                       end in
          match relay with
          | Some owner_ul => (out (Redirect (uplink_ifindex (up_local in_))) (Some (reforward (up_vni in_) owner_ul)), pkt)
          | None =>
              match resolve_uplink_target c (ifaces6 c) (up_vni in_) dst (up_local in_) with
              | TLocal tap mac peer => (inr (tap, mac, false, peer), pkt)
              | TEdgeLocalDeliver => let '(pkt, a) := edge_local_deliver pkt (uplink_mac (up_local in_)) ETH_P_IPV6 in (out a None, pkt)
              | TDrop => (out Drop None, pkt)
              end
          end
      end
  end.

Definition process_uplink_v6 (c : Config) (in_ : UplinkIn) (pkt : list Z) (s : State) : UplinkOut * list Z * State :=
  let v := up_vni in_ in
  let '(pkt, is_nat_return) := nat_return_dnat6 c v pkt s in
  let icmp_relay := lb_select_forward_icmp_error_v6 c pkt ETH_LEN v in
  let is_icmp_relay := match icmp_relay with Some _ => true | None => false end in
  let lb_ul := match icmp_relay with Some b => Some b | None => lb_select_forward_v6 c pkt ETH_LEN v end in
  let '(target, pkt) := uplink_target6 c in_ pkt lb_ul in
  match target with
  | inl out => (out, pkt, s)
  | inr (tap, mac, is_lb, peer) =>
      let '(admitted, s) := if is_nat_return || is_icmp_relay then (Some (fw_epoch c), s) else uplink_ingress_firewall6 c pkt v tap s in
      match admitted with
      | None => (mkUpOut Drop None, pkt, s)
      | Some _ =>
          let s := if is_lb || is_nat_return then s else uplink_track_flow6 c in_ pkt s in
          match decap_and_rewrite pkt tap mac ETH_P_IPV6 (resolve_delivery_l3 c tap) peer with
          | None => (mkUpOut Drop None, pkt, s)
          | Some (pkt, a) => (mkUpOut a None, pkt, s)
          end
      end
  end.

(** ** From the WAN *)

Record WanRxOut := mkWanOut { w_action : Action; w_tunnel : option TunnelEncap; w_dsr : option DsrOpt }.

(** The balanced address is noted in the option and replaced by the backend's. *)
Definition dsr_encode (backend : LbBackend) (v6 : bool) (pkt : list Z) : option (DsrOpt * list Z) :=
  if (v6 : bool) then
    ip ← read_array 16 pkt (ETH_LEN + 24);
    let port := default 0 (read_u16_be pkt (ETH_LEN + 40 + 2)) in
    let nexthdr := default 0 (read_u8 pkt (ETH_LEN + 6)) in
    Some (mkDsrOpt 1 port ip, (rewrite_v6_addr pkt ETH_LEN (ETH_LEN + 24) nexthdr ip (overlay_ip backend)).1)
  else
    ip4 ← read_array 4 pkt (ETH_LEN + 16);
    let port := default 0 (read_u16_be pkt (ETH_LEN + 20 + 2)) in
    Some (mkDsrOpt 0 port (splice (replicate 16 0) 0 ip4), floating_ip_dnat_rewrite pkt ETH_LEN ip4 (slice 0 4 (overlay_ip backend))).

(** The owner of the port a packet from the WAN is for. *)
Definition wan_owner (c : Config) (v6 : bool) (pkt : list Z) : option NatOwner :=
  if (v6 : bool) then
    dst ← read_array 16 pkt (ETH_LEN + 24);
    port ← match nat_icmp_error_relay_port6 pkt ETH_LEN dst with
           | Some p => Some p
           | None => (fun '(_, _, d) => d) <$> l4_ports_v6 pkt ETH_LEN
           end;
    nat_owner6 c dst port
  else
    dst ← read_array 4 pkt (ETH_LEN + 16);
    port ← match nat_icmp_error_relay_port pkt ETH_LEN dst with
           | Some p => Some p
           | None => (fun '(_, _, d) => d) <$> l4_ports pkt ETH_LEN
           end;
    nat_owner c dst port.

Definition process_wan_rx (c : Config) (l : Local) (pkt : list Z) : WanRxOut * list Z :=
  let ethertype := match read_array 2 pkt 12 with Some b => be b | None => 0 end in
  let v6 := ethertype =? 34525 in
  let selected := if v6 then lb_select_forward_v6 c pkt ETH_LEN 0 else lb_select_forward c pkt ETH_LEN 0 in
  match selected with
  | Some backend =>
      match dsr_encode backend v6 pkt with
      | None => (mkWanOut Drop None None, pkt)
      | Some (opt, pkt) => (mkWanOut (Redirect (uplink_ifindex l)) (Some (mkTunnel (be_vni backend) (node_vtep backend))) (Some opt), pkt)
      end
  | None =>
      match wan_owner c v6 pkt with
      | Some owner => (mkWanOut (Redirect (uplink_ifindex l)) (Some (mkTunnel (owner_vni owner) (underlay owner))) None, pkt)
      | None => (mkWanOut Pass None None, pkt)
      end
  end.

End handlers.

End datapath.
