(* ===== verification/NatTable.v ===== *)
(** * The translation table

    Everything the datapath does to the IPv4 conntrack table is one of a few
    operations ([ct_op]): an entry is refreshed, a default pair is created, a flow
    is forgotten, a port is allocated.  Each keeps the table consistent ([nat_wf]):
    the entry of a translated flow names a port of the guest's block, the reverse
    entry of that port leads back to the flow, and no other flow has it. *)

From S2P Require Import Prelude FwClass Packet PacketFacts Conntrack Nat Nat64 Checksum.
Import fwclass packet conntrack nat nat64.

Open Scope Z_scope.

Definition zero4 : list Z := replicate 4 0.

(** Reverse entries live at keys that name no peer. *)
Definition is_rev_key (k : CtKey) : Prop := src_ip k = zero4 ∧ src_port k = 0.

#[export] Instance is_rev_key_dec k : Decision (is_rev_key k) := and_dec _ _.

Definition same_xlate (e e' : CtEntry) : Prop := xlate_ip e' = xlate_ip e ∧ xlate_port e' = xlate_port e ∧ flags e' = flags e.

Lemma same_xlate_refl e : same_xlate e e.
Proof. done. Qed.

Lemma same_xlate_trans e e' e'' : same_xlate e e' → same_xlate e' e'' → same_xlate e e''.
Proof. intros (? & ? & ?) (? & ? & ?). split_and!; congruence. Qed.

Lemma same_xlate_has e e' m : same_xlate e e' → has e' m = has e m.
Proof. intros (_ & _ & H). unfold has. by rewrite H. Qed.

(** A binding the control plane programs. *)
Definition nat_ok (n : NatValue) : Prop := nat_addr_ok (nat_ip n) ∧ nat_ip n ≠ zero4 ∧ 0 < port_min n ≤ port_max n ∧ port_max n ≤ 65535.

Definition nats_ok (nt : gmap (Z * list Z) NatValue) : Prop := ∀ k n, nt !! k = Some n → k.2 ≠ zero4 ∧ nat_ok n.

(** ** Ports *)

Lemma port_range_ok n : nat_ok n → port_range n = port_max n - port_min n.
Proof. intros (_ & _ & ? & ?). unfold port_range, u16. apply Z.mod_small. lia. Qed.

Lemma candidate_range n start i : nat_ok n → port_range n ≠ 0 → port_min n ≤ candidate n start i < port_max n.
Proof.
  intros Hn H0. unfold candidate. pose proof (port_range_ok n Hn) as Hr. destruct Hn as (_ & _ & ? & ?).
  pose proof (Z.mod_pos_bound (u16 (start + i)) (port_range n) ltac:(lia)) as Hm. set (x := _ mod port_range n) in *.
  unfold u16. rewrite Z.mod_small; lia.
Qed.

(** A port that is found is free and in the block. *)
Lemma find_port_free {E : Type} fuel i n v p start (ct : gmap CtKey E) port :
  nat_ok n → port_range n ≠ 0 → find_port fuel i n v p start ct = Some port →
  ct !! rev_key v p (nat_ip n) port = None ∧ port_min n ≤ port < port_max n.
Proof.
  intros Hn H0. revert i. induction fuel as [|fuel IH]; intros i; cbn [find_port]; [done|].
  destruct (ct !! rev_key v p (nat_ip n) (candidate n start i)) eqn:E1; [apply IH|]. intros [= <-]. split; [done|]. by apply candidate_range.
Qed.

(** None is found only when every probe is taken. *)
Lemma find_port_None {E : Type} fuel i n v p start (ct : gmap CtKey E) :
  find_port fuel i n v p start ct = None ↔ ∀ j, (j < fuel)%nat → is_Some (ct !! rev_key v p (nat_ip n) (candidate n start (i + Z.of_nat j))).
Proof.
  revert i. induction fuel as [|fuel IH]; intros i; cbn [find_port]; [split; [intros; lia|done]|].
  destruct (ct !! rev_key v p (nat_ip n) (candidate n start i)) as [x|] eqn:E1.
  - rewrite IH. split.
    + intros H [|j] Hj; [rewrite Z.add_0_r, E1; by eexists|]. replace (i + Z.of_nat (S j)) with (i + 1 + Z.of_nat j) by lia. apply H. lia.
    + intros H j Hj. replace (i + 1 + Z.of_nat j) with (i + Z.of_nat (S j)) by lia. apply H. lia.
  - split; [done|]. intros H. specialize (H 0%nat ltac:(lia)). rewrite Z.add_0_r, E1 in H. by destruct H.
Qed.

Lemma rev_key_is_rev v p ip port : length ip = 4%nat → is_rev_key (rev_key v p ip port).
Proof. intros H. unfold is_rev_key, rev_key, zero4. cbn. by rewrite H. Qed.

Lemma rev_key_inj v p ip port v' p' ip' port' : rev_key v p ip port = rev_key v' p' ip' port' → v = v' ∧ p = p' ∧ ip = ip' ∧ port = port'.
Proof. by intros [= -> _ -> -> ->]. Qed.

(** The key of a packet, from its header. *)
Lemma hdr_key pkt off v hdr p sport dport :
  0 ≤ off → read_array 20 pkt off = Some hdr → l4_ports pkt off = Some (p, sport, dport) → ct_key pkt off v = Some (mkCtKey v (slice 12 4 hdr) (slice 16 4 hdr) sport dport p).
Proof.
  intros Ho Hr Hp. apply read_array_inv in Hr as (-> & [|Hl] & _); [done|]. unfold ct_key. rewrite Hp, !read_array_Some by lia. cbn [mbind option_bind default].
  rewrite !slice_slice by lia. do 2 f_equal; f_equal; lia.
Qed.

Section table.
Context (nt : gmap (Z * list Z) NatValue) (Hnt : nats_ok nt).

(** ** Consistency *)

(** [k] is a translated flow, and [e] its entry. *)
Definition nat_flow (ct : Conntrack) (k : CtKey) (e : CtEntry) : Prop := ct !! k = Some e ∧ has e CT_F_SRC_NAT = true ∧ ¬ is_rev_key k.

Record nat_wf (ct : Conntrack) : Prop := mkNatWf {
  wf_fwd : ∀ k e, nat_flow ct k e → ∃ n r,
    nt !! (vni k, src_ip k) = Some n ∧ xlate_ip e = nat_ip n ∧ port_min n ≤ xlate_port e < port_max n ∧ has e CT_REWRITE_SRC = true ∧
    ct !! rev_key (vni k) (proto k) (xlate_ip e) (xlate_port e) = Some r ∧ has r CT_REWRITE_DST = true ∧
    xlate_ip r = src_ip k ∧ xlate_port r = src_port k ∧ has r CT_F_NAT64 = has e CT_F_NAT64;
  wf_dst : ∀ k e, ct !! k = Some e → has e CT_REWRITE_DST = true → is_rev_key k;
  wf_src : ∀ k e, ct !! k = Some e → has e CT_REWRITE_SRC = true → nat_flow ct k e;
  wf_unique : ∀ k k' e e', nat_flow ct k e → nat_flow ct k' e' → vni k = vni k' → proto k = proto k' →
    xlate_ip e = xlate_ip e' → xlate_port e = xlate_port e' → k = k'
}.

Lemma nat_wf_empty : nat_wf ∅.
Proof. split; unfold nat_flow; intros *; rewrite ?lookup_empty; naive_solver. Qed.

(** Default entries translate nothing. *)
Lemma default_entry_has fl fs now epoch m : has (default_entry fl fs now epoch) m = negb (Z.land fs m =? 0).
Proof. done. Qed.

Lemma insert_default_lookup fl key now epoch (ct : Conntrack) k e :
  ct !! key = None → insert_default fl key now epoch ct !! k = Some e →
  ct !! k = Some e ∨ (ct !! k = None ∧ has e CT_F_SRC_NAT = false ∧ has e CT_REWRITE_SRC = false ∧ has e CT_REWRITE_DST = false).
Proof.
  intros Hk. unfold insert_default.
  assert (H : <[key := default_entry fl CT_F_DEFAULT now epoch]> ct !! k = Some e →
    ct !! k = Some e ∨ (ct !! k = None ∧ has e CT_F_SRC_NAT = false ∧ has e CT_REWRITE_SRC = false ∧ has e CT_REWRITE_DST = false)).
  { rewrite lookup_insert_Some. intros [[<- <-]|[_ ?]]; [right|by left]. split; [done|]. by rewrite !default_entry_has. }
  destruct (<[key := _]> ct !! invert_key key) eqn:E; [done|]. rewrite lookup_insert_Some. intros [[<- <-]|[_ ?]]; [|by apply H].
  apply lookup_insert_None in E as [? _]. right. split; [done|]. by rewrite !default_entry_has.
Qed.

Lemma insert_default_keeps fl key now epoch (ct : Conntrack) k e :
  ct !! key = None → ct !! k = Some e → insert_default fl key now epoch ct !! k = Some e.
Proof.
  intros Hk He. unfold insert_default. assert (key ≠ k) by congruence.
  destruct (<[key := _]> ct !! invert_key key) eqn:E; rewrite ?lookup_insert_ne by congruence; [done|].
  destruct (decide (invert_key key = k)) as [<-|]; [rewrite lookup_insert_ne in E by done; congruence|]. by rewrite !lookup_insert_ne.
Qed.

Lemma forget_lookup key (ct : Conntrack) k e : forget key ct !! k = Some e → ct !! k = Some e ∧ k ≠ key.
Proof.
  assert (H : delete key ct !! k = Some e → ct !! k = Some e ∧ k ≠ key) by (rewrite lookup_delete_Some; intros [? ?]; done).
  unfold forget. destruct (delete key ct !! invert_key key); [|done]. destruct (_ =? _); [|done]. rewrite lookup_delete_Some. intros [_ ?]. by apply H.
Qed.

Lemma ct_forget_keeps key (ct : Conntrack) k e :
  ct !! k = Some e → k ≠ key → has e CT_REWRITE_DST = true ∨ has e CT_F_SRC_NAT = true → forget key ct !! k = Some e.
Proof.
  intros He Hk Hf. assert (H : delete key ct !! k = Some e) by (by rewrite lookup_delete_ne).
  unfold forget. destruct (delete key ct !! invert_key key) as [e'|] eqn:E; [|done]. destruct (Z.eqb_spec (flags e') (Z.lor CT_F_DEFAULT CT_F_REPLY)) as [Ef|]; [|done].
  rewrite lookup_delete_ne; [done|]. intros <-. rewrite E in H. injection H as ->. unfold has in Hf. rewrite Ef in Hf. by destruct Hf.
Qed.

Definition leads_to (k : CtKey) (b : bool) (r : CtEntry) : Prop :=
  has r CT_REWRITE_DST = true ∧ xlate_ip r = src_ip k ∧ xlate_port r = src_port k ∧ has r CT_F_NAT64 = b.

Lemma flow_keeps (ct ct' : Conntrack) (kr k : CtKey) (b : bool) (r : CtEntry) :
  (∀ e0, ct !! kr = Some e0 → has e0 CT_REWRITE_DST = true → ∃ e1, ct' !! kr = Some e1 ∧ same_xlate e0 e1) →
  ct !! kr = Some r → leads_to k b r → ∃ r', ct' !! kr = Some r' ∧ leads_to k b r'.
Proof.
  intros H Hr (Hd & Hi & Hp & Hn). destruct (H r Hr Hd) as (r' & Hr' & Hs). exists r'. destruct (Hs) as (Hs1 & Hs2 & _).
  unfold leads_to. rewrite !(same_xlate_has _ _ _ Hs). split_and!; congruence.
Qed.

(** An operation that adds no translated flow keeps the table consistent. *)
Lemma nat_wf_mono (ct ct' : Conntrack) :
  nat_wf ct →
  (∀ k e', ct' !! k = Some e' → (∃ e, ct !! k = Some e ∧ same_xlate e e') ∨ (has e' CT_F_SRC_NAT = false ∧ has e' CT_REWRITE_SRC = false ∧ has e' CT_REWRITE_DST = false)) →
  (∀ k r, ct !! k = Some r → has r CT_REWRITE_DST = true → ∃ r', ct' !! k = Some r' ∧ same_xlate r r') → nat_wf ct'.
Proof.
  intros Hwf Hold Hrev.
  assert (Hflow : ∀ k e', nat_flow ct' k e' → ∃ e, nat_flow ct k e ∧ same_xlate e e').
  { intros k e' (He & Hn & Hk). destruct (Hold _ _ He) as [(e & He0 & Hs)|(? & _)]; [|congruence]. exists e. split; [|done].
    split_and!; [done|by rewrite <- (same_xlate_has _ _ _ Hs)|done]. }
  split.
  - intros k e' Hf. destruct (Hflow _ _ Hf) as (e & He & Hs). destruct (wf_fwd _ Hwf _ _ He) as (n & r & Hn & Hx & Hp & Hsrc & Hr & Hrest).
    destruct (flow_keeps _ _ _ _ _ _ (Hrev _) Hr Hrest) as (r' & Hr' & Hrest'). rewrite !(same_xlate_has _ _ _ Hs). destruct Hs as (-> & -> & _).
    exists n, r'. done.
  - intros k e' He Hd. destruct (Hold _ _ He) as [(e & He0 & Hs)|(_ & _ & ?)]; [|congruence]. apply (wf_dst _ Hwf _ _ He0). by rewrite <- (same_xlate_has _ _ _ Hs).
  - intros k e' He Hd. destruct (Hold _ _ He) as [(e & He0 & Hs)|(_ & ? & _)]; [|congruence].
    rewrite (same_xlate_has _ _ _ Hs) in Hd. destruct (wf_src _ Hwf _ _ He0 Hd) as (_ & Hn & Hk). split_and!; [done|by rewrite (same_xlate_has _ _ _ Hs)|done].
  - intros k1 k2 e1 e2 H1 H2 Hv Hp Hx Hpo. destruct (Hflow _ _ H1) as (f1 & Hf1 & (? & ? & _)), (Hflow _ _ H2) as (f2 & Hf2 & (? & ? & _)).
    apply (wf_unique _ Hwf k1 k2 f1 f2); congruence.
Qed.

(** ** The operations *)

(** Both entries of a new port. *)
Record allocates (fwd : CtKey) (n : NatValue) (port : Z) (er ef : CtEntry) : Prop := mkAllocates {
  al_nat : nt !! (vni fwd, src_ip fwd) = Some n;
  al_range : port_min n ≤ port < port_max n;
  al_rev : has er CT_REWRITE_DST = true ∧ has er CT_F_SRC_NAT = true ∧ has er CT_REWRITE_SRC = false ∧ xlate_ip er = src_ip fwd ∧ xlate_port er = src_port fwd;
  al_fwd : has ef CT_REWRITE_DST = false ∧ has ef CT_F_SRC_NAT = true ∧ has ef CT_REWRITE_SRC = true ∧ xlate_ip ef = nat_ip n ∧ xlate_port ef = port;
  al_nat64 : has er CT_F_NAT64 = has ef CT_F_NAT64
}.

(** [P] holds of the keys at which a flow may be entered.  Where [strict], no packet has
    the key of a reverse entry. *)
Context (strict : bool) (P : CtKey → Prop).

Inductive ct_op : Conntrack → Conntrack → Prop :=
| op_stamp ct key e e' : ct !! key = Some e → same_xlate e e' → ct_op ct (<[key := e']> ct)
| op_create ct fl key now epoch : P key → ct !! key = None → ct_op ct (insert_default fl key now epoch ct)
| op_forget ct key : (strict = true → ¬ is_rev_key key) → ct_op ct (forget key ct)
| op_alloc ct fwd n port er ef :
    P fwd → allocates fwd n port er ef → ct !! rev_key (vni fwd) (proto fwd) (nat_ip n) port = None → (∀ e, ct !! fwd = Some e → has e CT_F_SRC_NAT = false) →
    ct_op ct (<[fwd := ef]> (<[rev_key (vni fwd) (proto fwd) (nat_ip n) port := er]> ct)).

Abbreviation ct_ops := (rtc ct_op).

(** ** Every operation keeps the table consistent *)

(** Reverse entries persist: no operation but the sweep removes one. *)
Lemma ct_op_rev (ct ct' : Conntrack) (k : CtKey) (r : CtEntry) : strict = true → nat_wf ct → ct_op ct ct' → ct !! k = Some r → has r CT_REWRITE_DST = true → ∃ r', ct' !! k = Some r' ∧ same_xlate r r'.
Proof.
  intros Hst Hwf Hop Hr Hd. pose proof (wf_dst _ Hwf _ _ Hr Hd) as Hk. destruct Hop as [ct key e e' He Hs|ct fl key now epoch _ Hn|ct key Hkey|ct fwd n port er ef _ Hal Hrev Hfwd].
  - destruct (decide (key = k)) as [->|]; [|rewrite lookup_insert_ne by done; eauto using same_xlate_refl].
    rewrite lookup_insert_eq. exists e'. split; [done|]. congruence.
  - exists r. split; [by apply insert_default_keeps|done].
  - exists r. split; [|done]. apply ct_forget_keeps; [done| |by left]. intros ->. by apply (Hkey Hst).
  - exists r. split; [|done]. rewrite lookup_insert_ne; [rewrite lookup_insert_ne; [done|by intros <-; congruence]|]. intros ->.
    apply (proj1 (Hnt _ _ (al_nat _ _ _ _ _ Hal))). apply Hk.
Qed.

Section alloc.
Context (ct : Conntrack) (fwd : CtKey) (n : NatValue) (port : Z) (er ef : CtEntry).
Context (Hst : strict = true) (Hwf : nat_wf ct) (HP : P fwd) (Hal : allocates fwd n port er ef).

Let rk := rev_key (vni fwd) (proto fwd) (nat_ip n) port.
Let ct' := <[fwd := ef]> (<[rk := er]> ct).

Context (Hrev : ct !! rk = None) (Hfwd : ∀ e, ct !! fwd = Some e → has e CT_F_SRC_NAT = false).

Lemma alloc_keys : ¬ is_rev_key fwd ∧ is_rev_key rk.
Proof.
  destruct (Hnt _ _ (al_nat _ _ _ _ _ Hal)) as [Hz Hn]. split; [intros [? _]; done|]. apply rev_key_is_rev. apply Hn.
Qed.

Lemma alloc_lookup k e : ct' !! k = Some e → (k = fwd ∧ e = ef) ∨ (k = rk ∧ e = er) ∨ (ct !! k = Some e ∧ k ≠ fwd ∧ k ≠ rk).
Proof. unfold ct'. rewrite !lookup_insert_Some. naive_solver. Qed.

Lemma alloc_flow k e : nat_flow ct' k e → (k = fwd ∧ e = ef) ∨ (nat_flow ct k e ∧ k ≠ fwd).
Proof.
  destruct alloc_keys as [Hf Hr]. intros (He & Hn & Hk). destruct (alloc_lookup _ _ He) as [?|[[-> ->]|(? & ? & ?)]]; [by left|done|right; done].
Qed.

Lemma alloc_taken k e : nat_flow ct k e → rev_key (vni k) (proto k) (xlate_ip e) (xlate_port e) ≠ rk.
Proof. intros Hf Heq. destruct (wf_fwd _ Hwf _ _ Hf) as (? & r & _ & _ & _ & _ & Hr & _). congruence. Qed.

Lemma alloc_wf : nat_wf ct'.
Proof.
  destruct alloc_keys as [Hnf Hrk]. destruct (al_rev _ _ _ _ _ Hal) as (Hr1 & Hr2 & Hr3 & Hr4 & Hr5), (al_fwd _ _ _ _ _ Hal) as (Hf1 & Hf2 & Hf3 & Hf4 & Hf5).
  assert (Hkeep : ∀ k r, ct !! k = Some r → has r CT_REWRITE_DST = true → ∃ r', ct' !! k = Some r' ∧ same_xlate r r').
  { intros k r Hk Hd. by apply (ct_op_rev ct); [| |apply op_alloc with (n := n)|..]. }
  assert (Hne : fwd ≠ rk) by congruence. split.
  - intros k e Hf. destruct (alloc_flow _ _ Hf) as [[-> ->]|[Hf' Hk]].
    + exists n, er. split_and!; try done; [apply Hal|rewrite Hf5; apply Hal|rewrite Hf5; apply Hal| |apply Hal]. rewrite Hf4, Hf5. fold rk. unfold ct'.
      by rewrite lookup_insert_ne, lookup_insert_eq.
    + destruct (wf_fwd _ Hwf _ _ Hf') as (m & r & Hm & Hx & Hp & Hs & Hr & Hrest). destruct (flow_keeps _ _ _ _ _ _ (Hkeep _) Hr Hrest) as (r' & ? & ?). exists m, r'. done.
  - intros k e He Hd. destruct (alloc_lookup _ _ He) as [[-> ->]|[[-> ->]|(? & _)]]; [congruence|done|by eapply wf_dst].
  - intros k e He Hs. destruct (alloc_lookup _ _ He) as [[-> ->]|[[-> ->]|(Hk & ? & ?)]]; [done|congruence|].
    destruct (wf_src _ Hwf _ _ Hk Hs) as (_ & ? & ?). done.
  - intros k1 k2 e1 e2 H1 H2 Hv Hp Hx Hpo. destruct (alloc_flow _ _ H1) as [[-> ->]|[F1 _]], (alloc_flow _ _ H2) as [[-> ->]|[F2 _]].
    + done.
    + exfalso. apply (alloc_taken _ _ F2). unfold rk. by rewrite <- Hv, <- Hp, <- Hx, <- Hpo, Hf4, Hf5.
    + exfalso. apply (alloc_taken _ _ F1). unfold rk. by rewrite Hv, Hp, Hx, Hpo, Hf4, Hf5.
    + by apply (wf_unique _ Hwf k1 k2 e1 e2).
Qed.

End alloc.

Lemma ct_op_wf ct ct' : strict = true → nat_wf ct → ct_op ct ct' → nat_wf ct'.
Proof.
  intros Hst Hwf Hop. pose proof (λ k r, ct_op_rev ct ct' k r Hst Hwf Hop) as Hkeep. destruct Hop as [ct key e e' He Hs|ct fl key now epoch _ Hn|ct key Hkey|].
  - apply (nat_wf_mono ct); [done| |done]. intros k e0. rewrite lookup_insert_Some. intros [[<- <-]|[_ ?]]; left; eauto using same_xlate_refl.
  - apply (nat_wf_mono ct); [done| |done]. intros k e0 H. destruct (insert_default_lookup _ _ _ _ _ _ _ Hn H) as [?|[_ ?]]; [left; eauto using same_xlate_refl|by right].
  - apply (nat_wf_mono ct); [done| |done]. intros k e0 H. apply forget_lookup in H as [? _]. left. eauto using same_xlate_refl.
  - by apply alloc_wf.
Qed.

Lemma ct_ops_wf ct ct' : strict = true → nat_wf ct → ct_ops ct ct' → nat_wf ct'.
Proof. intros Hst Hwf. induction 1; [done|]. eauto using ct_op_wf. Qed.

Lemma ct_ops_rev (ct ct' : Conntrack) (k : CtKey) (r : CtEntry) : strict = true → nat_wf ct → ct_ops ct ct' → ct !! k = Some r → has r CT_REWRITE_DST = true → ∃ r', ct' !! k = Some r' ∧ same_xlate r r'.
Proof.
  intros Hst Hwf Hops. revert r. induction Hops as [|? y ? Hop Hops IH]; intros r Hr Hd; [eauto using same_xlate_refl|].
  destruct (ct_op_rev _ _ _ _ Hst Hwf Hop Hr Hd) as (r1 & Hr1 & Hs1). destruct (IH (ct_op_wf _ _ Hst Hwf Hop) r1 Hr1) as (r2 & Hr2 & Hs2).
  - by rewrite (same_xlate_has _ _ _ Hs1).
  - exists r2. split; [done|]. by eapply same_xlate_trans.
Qed.

(** ** What the code does to the table *)

Lemma refresh_ops pkt off key e now epoch ct : ct !! key = Some e → ct_ops ct (ct_refresh pkt off key e now epoch ct).
Proof. intros He. apply rtc_once, (op_stamp _ _ e); done. Qed.

Lemma create_ops pkt off v key now epoch ct : P key → ct_key pkt off v = Some key → ct !! key = None → ct_ops ct (ct_create_default pkt off v now epoch ct).
Proof. intros HP Hk Hn. unfold ct_create_default. rewrite Hk. by apply rtc_once, op_create. Qed.

Lemma forget_ops pkt off v ct : (∀ key, ct_key pkt off v = Some key → strict = true → ¬ is_rev_key key) → ct_ops ct (ct_forget_default pkt off v ct).
Proof. intros Hk. unfold ct_forget_default. destruct (ct_key pkt off v) as [key|]; [|done]. apply rtc_once, op_forget. by apply Hk. Qed.

(** The port of a flow: the one it has, or a free one of its block; [mk] makes the
    entries of a new one. *)
Definition take_port (n : NatValue) (fwd : CtKey) (mk : Z → CtEntry * CtEntry) (ct : Conntrack) : option (Z * Conntrack) :=
  let alloc :=
    let start := u16 (hash5 (src_ip fwd) (dst_ip fwd) (src_port fwd) (dst_port fwd) (proto fwd) mod port_range n) in
    match find_port PROBE_LIMIT 0 n (vni fwd) (proto fwd) start ct with
    | None => None
    | Some c => Some (c, <[fwd := (mk c).2]> (<[rev_key (vni fwd) (proto fwd) (nat_ip n) c := (mk c).1]> ct))
    end in
  match ct !! fwd with
  | Some e => if has e CT_F_SRC_NAT then Some (xlate_port e, ct) else alloc
  | None => alloc
  end.

Lemma take_port_ops n fwd mk ct port ct' :
  P fwd → nt !! (vni fwd, src_ip fwd) = Some n → port_range n ≠ 0 → (∀ p, port_min n ≤ p < port_max n → allocates fwd n p (mk p).1 (mk p).2) →
  take_port n fwd mk ct = Some (port, ct') →
  ct_ops ct ct' ∧ (nat_wf ct → ∃ e, nat_flow ct' fwd e ∧ xlate_ip e = nat_ip n ∧ xlate_port e = port).
Proof.
  intros HP Hn Hr Hmk. destruct (Hnt _ _ Hn) as [Hz Hok]. assert (Hk : ¬ is_rev_key fwd) by (by intros [? _]). unfold take_port. set (start := u16 _).
  destruct (match ct !! fwd with Some e => has e CT_F_SRC_NAT | None => false end) eqn:E.
  - destruct (ct !! fwd) as [e|] eqn:He; [|done]. rewrite E. intros [= <- <-]. split; [done|]. intros Hwf. exists e. assert (Hfl : nat_flow ct fwd e) by done.
    destruct (wf_fwd _ Hwf _ _ Hfl) as (m & r & Hm & Hx & _). split_and!; [done|congruence|done].
  - intros Ht. assert (∃ c, find_port PROBE_LIMIT 0 n (vni fwd) (proto fwd) start ct = Some c ∧ c = port ∧
      ct' = <[fwd := (mk c).2]> (<[rev_key (vni fwd) (proto fwd) (nat_ip n) c := (mk c).1]> ct)) as (c & Hf & <- & ->).
    { destruct (ct !! fwd) as [e|]; [rewrite E in Ht|]; destruct (find_port _ _ _ _ _ _ _) as [c|]; try done; injection Ht as <- <-; eauto. }
    destruct (find_port_free _ _ _ _ _ _ _ _ Hok Hr Hf) as [Hfree Hrange]. pose proof (Hmk _ Hrange) as Hal. split.
    + apply rtc_once, op_alloc; [done|done|done|]. intros e He. by rewrite He in E.
    + intros _. exists (mk c).2. pose proof (al_fwd _ _ _ _ _ Hal) as (_ & ? & _ & ? & ?). split; [|done]. split; [by rewrite lookup_insert_eq|done].
Qed.

Lemma snat_port_ops n fwd now epoch ct port ct' :
  P fwd → nt !! (vni fwd, src_ip fwd) = Some n → port_range n ≠ 0 → snat_port n fwd now epoch ct = Some (port, ct') →
  ct_ops ct ct' ∧ (nat_wf ct → ∃ e, nat_flow ct' fwd e ∧ xlate_ip e = nat_ip n ∧ xlate_port e = port).
Proof.
  intros HP Hn Hr Hp. eapply (take_port_ops n fwd (λ p, (rev_entry (src_ip fwd) (src_port fwd) now, fwd_entry (nat_ip n) p now epoch))); [done|done|done|by split|exact Hp].
Qed.

Lemma nat64_port_ops n fwd now ct port ct' :
  P fwd → nt !! (vni fwd, src_ip fwd) = Some n → port_range n ≠ 0 → nat64_port n fwd now ct = Some (port, ct') →
  ct_ops ct ct' ∧ (nat_wf ct → ∃ e, nat_flow ct' fwd e ∧ xlate_ip e = nat_ip n ∧ xlate_port e = port).
Proof.
  intros HP Hn Hr Hp. eapply (take_port_ops n fwd (λ p,
    (mkCtEntry now (src_ip fwd) (src_port fwd) (Z.lor (Z.lor CT_REWRITE_DST CT_F_SRC_NAT) CT_F_NAT64) 0 0 0,
     mkCtEntry now (nat_ip n) p (Z.lor (Z.lor CT_REWRITE_SRC CT_F_SRC_NAT) CT_F_NAT64) 0 0 0))); [done|done|done|by split|exact Hp].
Qed.

(** The flow of a packet to the NAT64 prefix, as its guest's IPv4 flow. *)
Definition nat64_flow (pkt : list Z) (off v : Z) (guest : list Z) : option CtKey :=
  ip6_dst ← read_array 16 pkt (off + 24);
  nh ← read_u8 pkt (off + 6);
  '(p, sport, dport, _) ← egress_l4 pkt (off + IPV6_LEN) nh;
  if is_nat64_addr ip6_dst then Some (mkCtKey v guest (slice 12 4 ip6_dst) sport dport p) else None.

Lemma nat64_egress_ops pkt off v guest now ct x ct' :
  (∀ k, nat64_flow pkt off v guest = Some k → P k) → nat64_egress_parse nt pkt off v guest now ct = (x, ct') → ct_ops ct ct'.
Proof.
  intros HP. unfold nat64_egress_parse. destruct (_ ≫= _) as [[[[[[[[ip6_dst n] ip6_src] l4_len] p] sport] dport] cksum]|] eqn:E; [|by intros [= _ <-]].
  assert (Hn : nt !! (v, guest) = Some n ∧ port_range n ≠ 0 ∧ nat64_flow pkt off v guest = Some (mkCtKey v guest (slice 12 4 ip6_dst) sport dport p)).
  { apply bind_Some in E as (d & Hd & E). destruct (is_nat64_addr d) eqn:E64; [|done]. apply bind_Some in E as (m & Hm & E).
    destruct (Z.eqb_spec (port_range m) 0); [done|]. apply bind_Some in E as (? & _ & E). apply bind_Some in E as (nh & Hnh & E). apply bind_Some in E as (? & _ & E).
    destruct (_ && _); [done|]. apply bind_Some in E as ([[[? ?] ?] ?] & Hl4 & E). simplify_eq. split_and!; try done.
    unfold nat64_flow. rewrite Hd. cbn [mbind option_bind]. rewrite Hnh. cbn [mbind option_bind]. rewrite Hl4. cbn [mbind option_bind]. by rewrite E64. }
  destruct (nat64_port _ _ _ _) as [[port ct1]|] eqn:Ep; [|by intros [= _ <-]]. intros [= _ <-].
  eapply nat64_port_ops; [| | |exact Ep]; [apply HP, Hn|apply Hn|apply Hn].
Qed.

(** What the source translation does to the table, and to the packet. *)
Lemma snat_egress_ops pkt off v ext now epoch ct out pkt' ct' :
  0 ≤ off → (∀ k, ct_key pkt off v = Some k → P k) → snat_egress nt pkt ct off v ext now epoch = (out, pkt', ct') → ct_ops ct ct'.
Proof.
  intros Ho HP. unfold snat_egress. destruct (negb ext); [by intros [= _ _ <-]|]. destruct (read_array 20 pkt off) as [hdr|] eqn:Er; [|by intros [= _ _ <-]].
  destruct (nt !! _) as [n|] eqn:En; [|by intros [= _ _ <-]]. destruct (Z.eqb_spec (port_range n) 0); [by intros [= _ _ <-]|].
  destruct (l4_ports pkt off) as [[[p sport] dport]|] eqn:El; [|by intros [= _ _ <-]].
  destruct (snat_port _ _ _ _ _) as [[port ct1]|] eqn:Ep; [|by intros [= _ _ <-]]. intros [= _ _ <-]. eapply snat_port_ops; [| | |exact Ep]; [|done|done].
  apply HP. by apply hdr_key.
Qed.

End table.
