(* ===== verification/NatTrace.v ===== *)
(** * Translation over a run of the node

    The handlers of the datapath change the IPv4 conntrack table only by the
    operations of [NatTable]; so every table a run reaches is consistent, and a
    reverse entry, once there, stays until the aging sweep.  A sweep that spares the
    reverse entries of the flows it spares keeps the table consistent. *)

From S2P Require Import Prelude FwClass FwClassFacts Packet PacketFacts Conntrack Nat Nat64 Checksum Meter Datapath NatTable.
Import fwclass packet conntrack nat nat64 meter datapath.

Open Scope Z_scope.

(** ** Packets with a source *)

(** A whole header, and a source that is not the unspecified address. *)
Definition pkt_ok (pkt : list Z) : Prop := (20 ≤ ihl pkt)%nat ∧ slice 26 4 pkt ≠ zero4.

Lemma ct_key_src pkt v k : ct_key pkt ETH_LEN v = Some k → src_ip k = slice 26 4 pkt ∧ vni k = v ∧ dst_ip k = slice 30 4 pkt ∧ (34 ≤ length pkt)%nat.
Proof.
  unfold ct_key. intros H. apply bind_Some in H as (src & Hs & H). apply bind_Some in H as (dst & Hd & H).
  apply read_array_inv in Hs as (-> & _ & _), Hd as (-> & Hl & _).
  destruct (default _ _) as [[p sp] dp]. injection H as <-. change (Z.to_nat (ETH_LEN + 12)) with 26%nat. change (Z.to_nat (ETH_LEN + 16)) with 30%nat in *. split_and!; done || lia.
Qed.

Lemma pkt_ok_key pkt v k : pkt_ok pkt → ct_key pkt ETH_LEN v = Some k → ¬ is_rev_key k.
Proof. intros [_ Hs] Hk [Hz _]. apply ct_key_src in Hk as (Hk & _). congruence. Qed.

Lemma pkt_ok_prefix p q : pkt_ok p → slice 14 1 q = slice 14 1 p → slice 26 4 q = slice 26 4 p → pkt_ok q.
Proof. intros [Hi Hs] H14 H26. split; [|congruence]. unfold ihl in *. rewrite (slice_1 q), H14, <- slice_1. done. Qed.

Lemma pkt_ok_write off src p : pkt_ok p → 30 ≤ off ∨ (off = 24 ∧ length src = 2%nat) → pkt_ok (write_ off src p).
Proof.
  intros Hp Ho. unfold write_, write_array, write_bytes. case_decide as Hl; [|done]. cbn [default].
  apply (pkt_ok_prefix p); [done|apply slice_splice_out; lia|apply slice_splice_out; lia].
Qed.

Lemma pkt_ok_write_array off src p q : pkt_ok p → 30 ≤ off → write_array off src p = Some q → pkt_ok q.
Proof. intros Hp Ho Hw. pose proof (pkt_ok_write off src p Hp (or_introl Ho)) as H. unfold write_ in H. by rewrite Hw in H. Qed.

Lemma pkt_ok_src new p q : pkt_ok p → length new = 4%nat → new ≠ zero4 → write_array 26 new p = Some q → pkt_ok q.
Proof.
  intros [Hi _] Hl Hn. unfold write_array, write_bytes. case_decide as Hw; [|done]. change (Z.to_nat 26) with 26%nat in *. intros [= <-]. split.
  - unfold ihl in *. rewrite splice_total_out by lia. done.
  - pose proof (slice_splice_same p 26 new Hw) as H. rewrite Hl in H. congruence.
Qed.

(** ** Each rewrite keeps a source *)

Definition entry_ok (e : CtEntry) : Prop := length (xlate_ip e) = 4%nat ∧ (has e CT_REWRITE_SRC = true → xlate_ip e ≠ zero4).

Lemma apply_l4_ok l4 prel old new port p : pkt_ok p → 30 ≤ l4 → pkt_ok (apply_tcp l4 prel old new port p) ∧ pkt_ok (apply_udp l4 prel old new port p) ∧ pkt_ok (apply_icmp l4 port p).
Proof. intros Hp Hl. unfold apply_tcp, apply_udp, apply_icmp. split_and!; case_match; try done; apply pkt_ok_write; auto. Qed.

Lemma ct_apply_ok pkt e q b : pkt_ok pkt → entry_ok e → ct_apply pkt ETH_LEN e = (q, b) → pkt_ok q.
Proof.
  intros Hp [Hl Hz] Ha. destruct (decide (Z.land (flags e) (Z.lor CT_REWRITE_SRC CT_REWRITE_DST) = 0)) as [Hf|Hf].
  { unfold ct_apply in Ha. apply Z.eqb_eq in Hf. rewrite Hf in Ha. by injection Ha as <- _. }
  destruct (decide (ihl pkt = 20%nat ∧ (34 ≤ length pkt)%nat)) as [[Hi Hlen]|Hn].
  - rewrite ct_apply_translate in Ha by done. injection Ha as <- _. destruct (entry_fields e) as [Hrel Hprel].
    assert (Hi' : (20 ≤ ihl pkt)%nat) by lia. assert (HL : (l4_off pkt ≤ length pkt)%nat) by (unfold l4_off; lia).
    pose proof (translate_rewrites _ _ (xlate_ip e) (xlate_port e) pkt Hrel Hprel Hl Hi' HL) as Hrw.
    apply (pkt_ok_prefix (addr_patch (entry_rel e) (xlate_ip e) pkt)).
    + split; [by rewrite addr_patch_ihl|]. unfold entry_rel in *. destruct (has e CT_REWRITE_SRC) eqn:E.
      * change 26%nat with (14 + 12)%nat. rewrite addr_patch_addr by done. by apply Hz.
      * rewrite addr_patch_out by (done || lia). apply Hp.
    + apply Hrw. unfold l4_off. rewrite addr_patch_ihl by done. lia.
    + apply Hrw. unfold l4_off. rewrite addr_patch_ihl by done. lia.
  - unfold ct_apply in Ha. apply Z.eqb_neq in Hf. rewrite Hf in Ha. destruct (read_array 20 pkt ETH_LEN) as [ip|] eqn:Er; [|by injection Ha as <- _].
    destruct (Z.eqb_spec (Z.land (ip !!! 0%nat) 15) 5) as [H5|]; cbn [negb] in Ha; [|by injection Ha as <- _]. exfalso. apply Hn.
    apply read_array_inv in Er as (-> & [|Hlen] & _); [done|]. change (Z.to_nat ETH_LEN) with 14%nat in *. rewrite slice_total in H5 by lia.
    split; [unfold ihl; change (14 + 0)%nat with 14%nat in H5; rewrite H5; done|lia].
Qed.

Lemma l4_ports_len pkt x : (20 ≤ ihl pkt)%nat → l4_ports pkt ETH_LEN = Some x → (l4_off pkt ≤ length pkt)%nat ∧ read_array 20 pkt ETH_LEN = Some (slice 14 20 pkt).
Proof.
  intros Hi H. unfold l4_ports in H. apply bind_Some in H as (hdr & Hr & H). pose proof Hr as Hr'. apply read_array_inv in Hr as (-> & _ & _). change (Z.to_nat ETH_LEN) with 14%nat in *.
  split; [|done]. rewrite (slice_total 14 20 pkt 0) in H by lia. change (14 + 0)%nat with 14%nat in H. pose proof (ihl_nonneg pkt) as Hn.
  assert (Ho : ∀ d y, 0 ≤ d → read_u16_be pkt (ETH_LEN + Z.land (pkt !!! 14%nat) 15 * 4 + d) = Some y → (l4_off pkt ≤ length pkt)%nat).
  { intros d y Hd Hy. unfold read_u16_be in Hy. destruct (read_array 2 pkt _) eqn:E; [|done]. apply read_array_inv in E as (_ & [|Hl] & _); [done|]. unfold l4_off, ihl, ETH_LEN in *. lia. }
  destruct (negb _); [done|]. destruct (_ || _).
  - apply bind_Some in H as (sp & Hs & H). apply bind_Some in H as (dp & Hd & _). by apply (Ho 2 dp).
  - destruct (_ =? _); [|done]. apply bind_Some in H as (i & Hd & _). by apply (Ho 4 i).
Qed.

(** The packet of the source translation: as it was, or the reference. *)
Lemma snat_egress_packet nt pkt ct v ext now epoch q ct' :
  nats_ok nt → pkt_ok pkt → snat_egress nt pkt ct ETH_LEN v ext now epoch = (Continue, q, ct') →
  (q = pkt ∧ ct' = ct ∧ (∀ k n, ext = true → ct_key pkt ETH_LEN v = Some k → nt !! (v, src_ip k) = Some n → port_range n = 0)) ∨
  ∃ n k port, ct_key pkt ETH_LEN v = Some k ∧ nt !! (v, src_ip k) = Some n ∧ port_range n ≠ 0 ∧
    l4_ports pkt ETH_LEN = Some (proto k, src_port k, dst_port k) ∧
    snat_port n k now epoch ct = Some (port, ct') ∧ q = snat_rewrite pkt (slice 14 20 pkt) ETH_LEN n (proto k) (src_port k) port.
Proof.
  intros Hnt [Hi Hs]. unfold snat_egress. destruct ext; cbn [negb]; [|intros [= <- <-]; by left]. destruct (read_array 20 pkt ETH_LEN) as [hdr|] eqn:Er.
  2:{ intros [= <- <-]. left. split_and!; try done. intros k n _ Hk. apply ct_key_src in Hk as (_ & _ & _ & Hl). rewrite read_array_Some in Er by (done || (unfold ETH_LEN; lia)). done. }
  apply read_array_inv in Er as (-> & _ & Hlen). change (Z.to_nat ETH_LEN) with 14%nat in *. rewrite !slice_slice in * by lia.
  change (14 + 12)%nat with 26%nat. change (14 + 16)%nat with 30%nat. destruct (nt !! _) as [n|] eqn:En.
  2:{ intros [= <- <-]. left. split_and!; try done. intros k n _ Hk. apply ct_key_src in Hk as (-> & _). by rewrite En. }
  destruct (Z.eqb_spec (port_range n) 0).
  { intros [= <- <-]. left. split_and!; try done. intros k n' _ Hk. apply ct_key_src in Hk as (-> & _). rewrite En. by intros [= <-]. }
  destruct (l4_ports pkt ETH_LEN) as [[[p sport] dport]|] eqn:Ep; [|done]. destruct (snat_port _ _ _ _ _) as [[port ct1]|] eqn:Esp; [|done]. intros [= <- <-]. right.
  exists n, (mkCtKey v (slice 26 4 pkt) (slice 30 4 pkt) sport dport p), port. destruct (l4_ports_len _ _ Hi Ep) as [HL _]. unfold l4_off in HL.
  split_and!; try done. unfold ct_key. rewrite !read_array_Some by (unfold ETH_LEN; lia). cbn [mbind option_bind]. by rewrite Ep.
Qed.

Lemma snat_rewrite_ok pkt n p sport port : pkt_ok pkt → nat_ok n → pkt_ok (snat_rewrite pkt (slice 14 20 pkt) ETH_LEN n p sport port).
Proof.
  intros Hp (Ha & Hz & _). unfold snat_rewrite. change (ETH_LEN + 12) with 26. destruct (write_array 26 (nat_ip n) pkt) as [q|] eqn:Ew; [|done].
  pose proof (pkt_ok_src _ _ _ Hp (proj2 Ha) Hz Ew) as Hq. change (ETH_LEN + 10) with 24.
  assert (Hq' : pkt_ok (match read_u16_be q 24 with Some ipc => write_ 24 (be16 (csum_replace4 ipc (slice 12 4 (slice 14 20 pkt)) (nat_ip n))) q | None => q end)).
  { destruct (read_u16_be q 24); [|done]. apply pkt_ok_write; [done|]. right. done. }
  assert (Hl : 30 ≤ ETH_LEN + Z.land (slice 14 20 pkt !!! 0%nat) 15 * 4).
  { rewrite slice_total by lia. destruct Hp as [Hi _]. unfold ihl in Hi. pose proof (ihl_nonneg pkt). unfold ETH_LEN. cbn [Nat.add]. lia. }
  set (q' := match read_u16_be q 24 with Some _ => _ | None => _ end) in *.
  repeat case_match; try done; (apply pkt_ok_write; [done|by left]).
Qed.

(** ** Frames that differ in the Ethernet header *)

Definition same_ip (p q : list Z) : Prop := length q = length p ∧ drop 14 q = drop 14 p.

Lemma same_ip_read n p q off : same_ip p q → 14 ≤ off → read_array n q off = read_array n p off.
Proof.
  intros [_ Hd] Ho. unfold read_array. replace (Z.to_nat off) with (14 + (Z.to_nat off - 14))%nat by lia. by rewrite <- !drop_drop, Hd.
Qed.

Lemma same_ip_slice o n p q : same_ip p q → (14 ≤ o)%nat → slice o n q = slice o n p.
Proof. intros [_ Hd] Ho. unfold slice. replace o with (14 + (o - 14))%nat by lia. by rewrite <- !drop_drop, Hd. Qed.

Lemma same_ip_total i p q : same_ip p q → (14 ≤ i)%nat → q !!! i = p !!! i.
Proof. intros H Hi. rewrite (slice_1 q), (slice_1 p). by rewrite (same_ip_slice _ _ _ _ H). Qed.

Lemma same_ip_ports p q : same_ip p q → l4_ports q ETH_LEN = l4_ports p ETH_LEN.
Proof.
  intros H. unfold l4_ports. rewrite (same_ip_read _ _ _ _ H) by done. destruct (read_array 20 p ETH_LEN) as [hdr|]; [|done]. cbn [mbind option_bind].
  assert (0 ≤ Z.land (hdr !!! 0%nat) 15) by (apply Z.land_nonneg; right; lia). unfold read_u16_be. by rewrite !(same_ip_read _ _ _ _ H) by (unfold ETH_LEN; lia).
Qed.

Lemma same_ip_key p q v : same_ip p q → ct_key q ETH_LEN v = ct_key p ETH_LEN v.
Proof.
  intros H. unfold ct_key. rewrite !(same_ip_read _ _ _ _ H), (same_ip_ports _ _ H) by done. unfold read_u8. destruct H as [_ Hd].
  replace (Z.to_nat (ETH_LEN + 9)) with (14 + 9)%nat by done. by rewrite <- !lookup_drop, Hd.
Qed.

Lemma same_ip_checksums p q : same_ip p q → bytes_ok q → checksums_ok p → checksums_ok q.
Proof.
  intros H Hb (_ & Hi & Hl & Hh & H4). assert (Hih : ihl q = ihl p) by (unfold ihl; by rewrite (same_ip_total _ _ _ H) by lia).
  assert (Hsl : seg_len q = seg_len p) by (unfold seg_len, be_at; by rewrite Hih, !(same_ip_total _ _ _ H) by lia).
  assert (HL : l4_off q = l4_off p) by (unfold l4_off; by rewrite Hih).
  assert (Hpr : ip_proto q = ip_proto p) by (unfold ip_proto; by rewrite (same_ip_total _ _ _ H) by lia).
  assert (Hsg : segment q = segment p) by (unfold segment; rewrite HL, Hsl; apply same_ip_slice; [done|unfold l4_off; lia]).
  split_and!; [done|lia|rewrite HL, Hsl, (proj1 H); done|unfold header; rewrite Hih, (same_ip_slice _ _ _ _ H) by lia; done|].
  unfold l4_checksum_ok, pseudo in *. by rewrite Hpr, Hsl, Hsg, (same_ip_slice _ _ _ _ H) by lia.
Qed.

Lemma same_ip_write off src p q : same_ip p q → 0 ≤ off → off + Z.of_nat (length src) ≤ 14 → same_ip p (write_ off src q).
Proof.
  intros [Hl Hd] Ho Hs. destruct (decide (Z.to_nat off + length src ≤ length q)%nat) as [Hlen|Hlen].
  2:{ unfold write_, write_array, write_bytes. by rewrite decide_False. }
  rewrite write__splice by done. split; [by rewrite splice_length|].
  rewrite <- Hd. apply list_eq. intros i. rewrite !lookup_drop. apply splice_lookup_out; lia.
Qed.

Lemma write_eth_same mac ty p q : write_eth mac ty p = Some q → length mac = 6%nat → bytes_ok mac → bytes_ok p → same_ip p q ∧ bytes_ok q.
Proof.
  unfold write_eth. destruct (decide _); [done|]. intros H Hm Hmb Hpb. apply bind_Some in H as (p1 & H1 & H). apply bind_Some in H as (p2 & H2 & H3).
  assert (Hw : ∀ off src a b, write_bytes off src a = Some b → write_ off src a = b) by (intros * E; unfold write_, write_array; by rewrite E).
  apply Hw in H1 as <-, H2 as <-, H3 as <-. split.
  - repeat (apply same_ip_write; [|done|cbn [length GW_MAC be16]; lia]). done.
  - repeat apply write__bytes_ok; try done; [|apply be16_bytes]. repeat constructor; lia.
Qed.

Section run.
Context {lp : Lpm} (nt : gmap (Z * list Z) NatValue) (Hnt : nats_ok nt).

(** What the control plane programs, as far as translation goes. *)
Record cfg_ok (c : Config) : Prop := mkCfgOk {
  cfg_nats : nats c = nt;
  cfg_floating : ∀ k g, floating_ips c !! k = Some g → length g = 4%nat ∧ g ≠ zero4;
  cfg_macs : ∀ k iv, ifaces c !! k = Some iv → length (guest_mac iv) = 6%nat ∧ bytes_ok (guest_mac iv)
}.

Definition dsr_ok (s : State) : Prop := ∀ k d, dsr s !! k = Some d → length (slice 0 4 (lb_ip d)) = 4%nat ∧ slice 0 4 (lb_ip d) ≠ zero4.

(** From one state to another by table operations, that enter only flows of [P].  Where
    [strict], packets name a source. *)
Context (strict : bool) (P : CtKey → Prop).

Definition pkt_if (pkt : list Z) : Prop := strict = true → pkt_ok pkt.

Definition tracks (s s' : State) : Prop := rtc (ct_op nt strict P) (conntrack s) (conntrack s') ∧ dsr s' = dsr s.

Lemma tracks_refl s : tracks s s.
Proof. done. Qed.

Lemma tracks_trans s1 s2 s3 : tracks s1 s2 → tracks s2 s3 → tracks s1 s3.
Proof. intros [H1 E1] [H2 E2]. split; [by etrans|congruence]. Qed.

Lemma tracks_ct ct s : rtc (ct_op nt strict P) (conntrack s) ct → tracks s (set_ct ct s).
Proof. done. Qed.

Lemma tracks_forget pkt v s : pkt_if pkt → tracks s (set_ct (ct_forget_default pkt ETH_LEN v (conntrack s)) s).
Proof. intros Hp. apply tracks_ct, forget_ops. intros key Hk Hs. by eapply pkt_ok_key; [apply Hp|]. Qed.

Lemma tracks_dsr_ok s s' : tracks s s' → dsr_ok s → dsr_ok s'.
Proof. intros [_ E] H. unfold dsr_ok. by rewrite E. Qed.

Hint Resolve tracks_refl tracks_forget : core.

(** ** Guest egress *)

Lemma guest_admit_tracks c in_ pkt s r s' : pkt_if pkt → guest_admit c in_ pkt s = (r, s') → tracks s s'.
Proof.
  intros Hp. unfold guest_admit. destruct (ct_key pkt ETH_LEN _) as [key|] eqn:Ek; [|by intros [= _ <-]]. destruct (negb _); [by intros [= _ <-]|].
  destruct (conntrack s !! key) as [e|] eqn:Ee; destruct (_ =? FW_ACTION_DROP); intros [= _ <-]; auto.
  apply tracks_ct, rtc_once, (op_stamp _ _ _ _ _ e); done.
Qed.

Lemma track_flow_tracks c v now pkt s : (∀ k, ct_key pkt ETH_LEN v = Some k → conntrack s !! k = None → P k) → tracks s (track_flow c v now pkt s).
Proof.
  intros HP. unfold track_flow. destruct (ct_key pkt ETH_LEN v) as [key|] eqn:Ek; [|done]. destruct (conntrack s !! key) as [e|] eqn:Ee; apply tracks_ct.
  - by apply refresh_ops.
  - eapply create_ops; [by apply HP|done|done].
Qed.

Lemma ensure_tracked_tracks c v now pkt s : (∀ k, ct_key pkt ETH_LEN v = Some k → P k) → tracks s (ensure_tracked c v now pkt s).
Proof.
  intros HP. unfold ensure_tracked. destruct (ct_key pkt ETH_LEN v) as [key|] eqn:Ek; [|done]. destruct (conntrack s !! key) as [e|] eqn:Ee; [done|]. apply tracks_ct. eapply create_ops; [by apply HP|done|done].
Qed.

Lemma guest_dsr_ok v pkt s q b : dsr_ok s → pkt_ok pkt → guest_dsr v pkt s = Some (q, b) → pkt_ok q.
Proof.
  intros Hd Hp. unfold guest_dsr. destruct (ct_key pkt ETH_LEN v) as [key|]; [|by intros [= <- _]]. destruct (dsr s !! key) as [d|] eqn:Ed; [|by intros [= <- _]].
  destruct (ct_apply pkt ETH_LEN (dsr_entry d)) as [q' ok] eqn:Ea. destruct ok; [|done]. intros [= <- _].
  destruct (Hd _ _ Ed). by apply (ct_apply_ok pkt (dsr_entry d) _ true).
Qed.

Lemma guest_deliver_tracks c in_ b dst route pkt s out q s' : pkt_if pkt → guest_deliver c in_ b dst route pkt s = (out, q, s') → tracks s s'.
Proof.
  intros Hp. unfold guest_deliver. destruct (deliver _ _ _ _ _).
  - by intros [= _ _ <-].
  - destruct (_ && _); intros [= _ _ <-]; auto.
  - destruct (edt_egress _ _ _ _). by intros [= _ _ <-].
Qed.

Lemma guest_deliver_packet c in_ b dst route pkt s out q s' :
  cfg_ok c → guest_deliver c in_ b dst route pkt s = (out, q, s') → same_ip pkt q ∧ (bytes_ok pkt → bytes_ok q).
Proof.
  intros Hc. unfold guest_deliver. destruct (deliver _ _ _ _ _) as [|tap mac|t u] eqn:Ed; [by intros [= _ <- _]| |destruct (edt_egress _ _ _ _); by intros [= _ <- _]].
  destruct (_ && _); intros [= _ <- _]; [done|]. unfold deliver in Ed. destruct (ifaces c !! _) as [iv|] eqn:Ei; [|by destruct (local c)].
  destruct (is_local iv =? 0); [by destruct (local c)|]. injection Ed as _ <-. destruct (cfg_macs _ Hc _ _ Ei) as [Hm Hmb]. split.
  - repeat (apply same_ip_write; [|done|cbn [length GW_MAC]; lia]). done.
  - intros Hb. repeat apply write__bytes_ok; try done. repeat constructor; lia.
Qed.

Lemma guest_dsr_false v pkt s q : guest_dsr v pkt s = Some (q, false) → q = pkt.
Proof.
  unfold guest_dsr. destruct (ct_key pkt ETH_LEN v) as [k|]; [|congruence]. destruct (dsr s !! k); [|congruence].
  destruct (ct_apply _ _ _) as [x ok]. destruct ok; congruence.
Qed.

Lemma snat_egress_ok pkt ct v ext now epoch q ct' : pkt_ok pkt → snat_egress nt pkt ct ETH_LEN v ext now epoch = (Continue, q, ct') → pkt_ok q.
Proof.
  intros Hp Hs. destruct (snat_egress_packet _ _ _ _ _ _ _ _ _ Hnt Hp Hs) as [(-> & _)|(n & k & port & _ & Hn & _ & _ & _ & ->)]; [done|].
  apply snat_rewrite_ok; [done|]. by apply (Hnt _ _ Hn).
Qed.

(** The flows a guest's packet may enter: the one it comes with and the one it leaves
    with. *)
Lemma process_guest_tx_tracks c in_ pkt s out q s' :
  cfg_ok c → dsr_ok s → pkt_if pkt → process_guest_tx c in_ pkt s = (out, q, s') →
  (∀ b s1 k, guest_admit c in_ pkt s = (Some b, s1) → ct_key pkt ETH_LEN (pm_vni (meta in_)) = Some k ∨ ct_key q ETH_LEN (pm_vni (meta in_)) = Some k → P k) → tracks s s'.
Proof.
  intros Hc Hd Hp Hg HP. revert Hg. unfold process_guest_tx.
  destruct (guest_admit c in_ pkt s) as [[b|] s1] eqn:Ea; pose proof (guest_admit_tracks _ _ _ _ _ _ Hp Ea) as H1; [|by intros [= _ _ <-]].
  specialize (HP b s1). destruct (guest_dsr _ pkt s1) as [[q1 is_dsr]|] eqn:Eg; [|by intros [= _ _ <-]]. assert (Hq1 : pkt_if q1) by (intros Hs; exact (guest_dsr_ok _ _ _ _ _ (tracks_dsr_ok _ _ H1 Hd) (Hp Hs) Eg)).
  destruct (read_array 4 q1 _) as [dst|]; [|by intros [= _ _ <-]]. destruct (route4 _ _ _) as [route|]; [|by intros [= _ _ <-]].
  rewrite (cfg_nats _ Hc). destruct (if is_dsr then _ else _) as [[o q2] ct2] eqn:Es.
  assert (Hops : rtc (ct_op nt strict P) (conntrack s1) ct2).
  { destruct is_dsr; [by injection Es as <- <- <-|]. apply guest_dsr_false in Eg as ->. eapply (snat_egress_ops nt Hnt strict P _ ETH_LEN); [done| |exact Es]. eauto. }
  assert (H2 : tracks s (set_ct ct2 s1)) by (eapply tracks_trans; [exact H1|by apply tracks_ct]).
  assert (Hq2 : o = Continue → pkt_if q2) by (intros -> Hs; specialize (Hq1 Hs); destruct is_dsr; [by injection Es as <- <-|by eapply snat_egress_ok]).
  destruct o; [|by intros [= _ _ <-]..]. specialize (Hq2 eq_refl).
  set (s3 := track_flow _ _ _ _ _). destruct (public_pass _ _ _ _ _) as [m pass]. intros Hg.
  assert (Hkey : ct_key q ETH_LEN (pm_vni (meta in_)) = ct_key q2 ETH_LEN (pm_vni (meta in_)) ∧ tracks s3 s').
  { destruct (negb pass); [by injection Hg as _ <- <-|]. destruct (guest_deliver_packet _ _ _ _ _ _ _ _ _ _ Hc Hg) as [Hsame _].
    split; [by apply same_ip_key|]. by eapply (guest_deliver_tracks _ _ _ _ _ _ (set_meters m _)). }
  eapply tracks_trans; [exact H2|]. eapply tracks_trans; [|apply Hkey]. apply track_flow_tracks. intros k Hk _. apply (HP k eq_refl). right. by rewrite (proj1 Hkey).
Qed.

(** An entry that rewrites the source holds the address of a binding. *)
Definition src_ok (ct : Conntrack) : Prop := ∀ key e, ct !! key = Some e → has e CT_REWRITE_SRC = true → entry_ok e.

Lemma nat_wf_src_ok ct : nat_wf nt ct → src_ok ct.
Proof.
  intros Hwf key e He Hs. destruct (wf_fwd _ _ Hwf _ _ (wf_src _ _ Hwf _ _ He Hs)) as (n & _ & Hn & Hx & _).
  destruct (Hnt _ _ Hn) as [_ ((_ & Hl) & Hz & _)]. split; congruence.
Qed.

Lemma src_ok_op ct ct' : ct_op nt strict P ct ct' → src_ok ct → src_ok ct'.
Proof.
  intros [ct0 key e e' He Hs|ct0 fl key now epoch _ Hn|ct0 key _|ct0 fwd n port er ef _ Hal _ _] Hsrc k x Hx Hr.
  - apply lookup_insert_Some in Hx as [[<- <-]|[_ Hx]]; [|eauto]. destruct (Hsrc _ _ He) as [? Hz]; [by rewrite <- (same_xlate_has _ _ _ Hs)|].
    rewrite (same_xlate_has _ _ _ Hs) in Hr. destruct Hs as (Hs & _). split; rewrite Hs; auto.
  - destruct (insert_default_lookup _ _ _ _ _ _ _ Hn Hx) as [?|(_ & _ & ? & _)]; [eauto|congruence].
  - apply forget_lookup in Hx as [Hx _]. eauto.
  - apply lookup_insert_Some in Hx as [[<- <-]|[_ Hx]]; [|apply lookup_insert_Some in Hx as [[<- <-]|[_ Hx]]; [|eauto]].
    + destruct (al_fwd _ _ _ _ _ _ Hal) as (_ & _ & _ & Hx & _). destruct (Hnt _ _ (al_nat _ _ _ _ _ _ Hal)) as [_ ((_ & Hl) & Hz & _)]. split; congruence.
    + destruct (al_rev _ _ _ _ _ _ Hal) as (_ & _ & ? & _). congruence.
Qed.

Lemma src_ok_ops ct ct' : rtc (ct_op nt strict P) ct ct' → src_ok ct → src_ok ct'.
Proof. induction 1; [done|]. eauto using src_ok_op. Qed.

Lemma forward_admit_tracks c ifindex m now pkt s r q s' :
  src_ok (conntrack s) → pkt_if pkt → forward_admit c ifindex m now pkt s = (r, q, s') → tracks s s' ∧ pkt_if q.
Proof.
  intros Hwf Hp. unfold forward_admit. destruct (ct_key pkt ETH_LEN _) as [key|] eqn:Ek; [|by intros [= _ <- <-]].
  destruct (conntrack s !! key) as [e|] eqn:Ee; destruct (_ && _); [intros [= _ <- <-]; auto| |by intros [= _ <- <-]..].
  destruct (if has e CT_REWRITE_SRC then _ else _) as [q1 ok] eqn:Ea.
  assert (Hq1 : pkt_if q1).
  { intros Hs. specialize (Hp Hs). destruct (has e CT_REWRITE_SRC) eqn:Es; [|by injection Ea as <- _]. eapply ct_apply_ok; [done| |done]. by eapply Hwf. }
  destruct (negb ok); intros [= _ <- <-]; [done|]. split; [|done]. by apply tracks_ct, refresh_ops.
Qed.

Lemma rewrite_raw_ok c pkt v is_src : cfg_ok c → pkt_ok pkt → pkt_ok (rewrite_raw c pkt ETH_LEN v is_src).
Proof.
  intros Hc Hp. unfold rewrite_raw. destruct (read_array 20 pkt ETH_LEN) as [hdr|] eqn:Er; [|done].
  destruct (floating_ips c !! _) as [new|] eqn:Ef; [|done]. destruct (cfg_floating _ Hc _ _ Ef) as [Hl Hz].
  set (p1 := write_ _ new pkt). assert (H1 : pkt_ok p1).
  { unfold p1. destruct is_src; [|apply pkt_ok_write; [done|by left]]. change (ETH_LEN + Z.of_nat 12) with 26. unfold write_.
    destruct (write_array 26 new pkt) eqn:Ew; [|done]. by eapply pkt_ok_src. }
  set (p2 := match read_u16_be p1 _ with Some _ => _ | None => _ end). assert (H2 : pkt_ok p2).
  { unfold p2. destruct (read_u16_be p1 _); [|done]. apply pkt_ok_write; [done|by right]. }
  assert (H4 : 30 ≤ ETH_LEN + Z.land (hdr !!! 0%nat) 15 * 4).
  { apply read_array_inv in Er as (-> & _). change (Z.to_nat ETH_LEN) with 14%nat. rewrite slice_total by lia. destruct Hp as [Hi _]. unfold ihl in Hi.
    pose proof (ihl_nonneg pkt). unfold ETH_LEN. cbn [Nat.add]. lia. }
  repeat case_match; try done; (apply pkt_ok_write; [done|left; lia]).
Qed.

(** The packet the production program translates, once the floating addresses are
    rewritten. *)
Definition forward_mid (c : Config) (ifindex : Z) (m : PortMeta) (now : Z) (pkt : list Z) (s : State) : option (list Z) :=
  let '(admitted, q0, s1) := forward_admit c ifindex m now pkt s in
  match admitted, guest_dsr (pm_vni m) q0 s1 with
  | Some _, Some (q1, _) => Some (rewrite_raw c (rewrite_raw c q1 ETH_LEN (pm_vni m) true) ETH_LEN (pm_vni m) false)
  | _, _ => None
  end.

Lemma forward_decision_v4_tracks c ifindex m now pkt s out q s' :
  cfg_ok c → src_ok (conntrack s) → dsr_ok s → pkt_if pkt → forward_decision_v4 c ifindex m now pkt s = (out, q, s') →
  (∀ mid k, forward_mid c ifindex m now pkt s = Some mid → ct_key mid ETH_LEN (pm_vni m) = Some k ∨ ct_key q ETH_LEN (pm_vni m) = Some k → P k) → tracks s s'.
Proof.
  intros Hc Hwf Hd Hp Hg HP. revert Hg HP. unfold forward_decision_v4, forward_mid. destruct (forward_admit c ifindex m now pkt s) as [[[b|] q0] s1] eqn:Ea;
    destruct (forward_admit_tracks _ _ _ _ _ _ _ _ _ Hwf Hp Ea) as [H1 Hq0]; [|by intros [= _ _ <-]].
  destruct (guest_dsr _ q0 s1) as [[q1 is_dsr]|] eqn:Eg; [|by intros [= _ _ <-]]. assert (Hq1 : pkt_if q1) by (intros Hs; exact (guest_dsr_ok _ _ _ _ _ (tracks_dsr_ok _ _ H1 Hd) (Hq0 Hs) Eg)).
  set (q2 := rewrite_raw c (rewrite_raw c q1 ETH_LEN (pm_vni m) true) ETH_LEN (pm_vni m) false). assert (Hq2 : pkt_if q2) by (intros Hs; repeat (apply rewrite_raw_ok; [done|]); by apply Hq1).
  intros Hg HP. specialize (HP q2). revert Hg.
  destruct (route4 _ _ _) as [route|]; [|by intros [= _ _ <-]]. rewrite (cfg_nats _ Hc). destruct (snat_egress _ _ _ _ _ _ _ _) as [[o q3] ct3] eqn:Es.
  assert (H2 : tracks s (set_ct ct3 s1)) by (eapply tracks_trans; [exact H1|]; apply tracks_ct; eapply (snat_egress_ops nt Hnt strict P _ ETH_LEN); [done| |exact Es]; eauto).
  destruct o; [|by intros [= _ _ <-]..]. assert (Hq3 : pkt_if q3) by (intros Hs; exact (snat_egress_ok _ _ _ _ _ _ _ _ (Hq2 Hs) Es)). set (s3 := ensure_tracked _ _ _ _ _).
  destruct (public_pass _ _ _ _ _) as [mt pass]. intros Hg.
  assert (Hkey : q = q3 ∧ tracks s3 s').
  { destruct (negb pass); [by injection Hg as _ <- <-|]. destruct (deliver _ _ _ _ _); [by injection Hg as _ <- <-| |by injection Hg as _ <- <-].
    destruct (_ && _); injection Hg as _ <- <-; [|done]. split; [done|]. by apply (tracks_forget _ _ (set_meters mt _)). }
  destruct Hkey as [-> H3]. eapply tracks_trans; [exact H2|]. eapply tracks_trans; [|exact H3]. apply ensure_tracked_tracks. eauto.
Qed.

Lemma process_guest_tx_nat64_tracks c m l pkt s a t q s' :
  cfg_ok c → process_guest_tx_nat64 c m l pkt s = (a, t, q, s') → (∀ k, nat64_flow pkt ETH_LEN (pm_vni m) (pm_guest_ipv4 m) = Some k → P k) → tracks s s'.
Proof.
  intros Hc Hg HP. revert Hg. unfold process_guest_tx_nat64. rewrite (cfg_nats _ Hc). destruct (nat64_egress_parse _ _ _ _ _ _ _) as [x ct] eqn:Ep.
  assert (H : tracks s (set_ct ct s)) by (apply tracks_ct; by eapply nat64_egress_ops). repeat case_match; by intros [= _ _ _ <-].
Qed.

Lemma process_guest_tx_v6_tracks c in_ pkt s out q s' : process_guest_tx_v6 c in_ pkt s = (out, q, s') → tracks s s'.
Proof.
  unfold process_guest_tx_v6, egress_fw_ct6, egress_ct6. intros H. split; repeat (case_match; simplify_eq); done.
Qed.

(** ** From the uplink *)

Lemma uplink_ingress_firewall_tracks c pkt v tap s r s' : pkt_if pkt → uplink_ingress_firewall c pkt v tap s = (r, s') → tracks s s'.
Proof.
  intros Hp. unfold uplink_ingress_firewall. destruct (ct_key pkt ETH_LEN v) as [key|]; [|by intros [= _ <-]].
  destruct (match conntrack s !! key with Some _ => _ | None => _ end) as [hit recheck]. destruct (_ && _); [|by intros [= _ <-]]. destruct hit; intros [= _ <-]; auto.
Qed.

Lemma floating_ip_dnat_rewrite_ok pkt old new : pkt_ok pkt → pkt_ok (floating_ip_dnat_rewrite pkt ETH_LEN old new).
Proof.
  intros Hp. unfold floating_ip_dnat_rewrite. destruct (write_array _ new pkt) as [p1|] eqn:Ew; [|done]. pose proof (pkt_ok_write_array _ _ _ _ Hp ltac:(done) Ew) as H1.
  set (p2 := match read_u16_be p1 _ with Some _ => _ | None => _ end). assert (H2 : pkt_ok p2).
  { unfold p2. destruct (read_u16_be p1 _); [|done]. apply pkt_ok_write; [done|by right]. }
  destruct (read_u8 p2 ETH_LEN) as [b|] eqn:Eb; [|done]. destruct (read_u8 p2 (ETH_LEN + 9)) as [p|]; [|done].
  assert (H4 : 30 ≤ ETH_LEN + Z.land b 15 * 4).
  { destruct H2 as [Hi _]. unfold ihl in Hi. unfold read_u8 in Eb. change (Z.to_nat ETH_LEN) with 14%nat in Eb.
    rewrite (list_lookup_total_correct _ _ _ Eb) in Hi. assert (0 ≤ Z.land b 15) by (apply Z.land_nonneg; right; lia). unfold ETH_LEN. lia. }
  destruct (apply_l4_ok (ETH_LEN + Z.land b 15 * 4) 0 old new 0 p2 H2 H4) as (? & ? & _). repeat case_match; done.
Qed.

Lemma uplink_target_ok c in_ pkt lb_ul x q : pkt_ok pkt → uplink_target c in_ pkt lb_ul = (inr x, q) → pkt_ok q.
Proof.
  intros Hp. unfold uplink_target. destruct lb_ul as [be|].
  - destruct (decide _); [|done]. destruct (ifaces c !! _) as [iv|]; [|done]. destruct (_ =? 0); [done|]. by intros [= _ <-].
  - destruct (read_array 4 pkt _) as [dst|]; [|done]. destruct (floating_ips c !! _) as [g|].
    + destruct (resolve_uplink_target _ _ _ _ _); [|destruct (edge_local_deliver _ _ _); done|done]. intros [= _ <-]. by apply floating_ip_dnat_rewrite_ok.
    + destruct (match l4_ports pkt ETH_LEN with Some _ => _ | None => _ end); [done|].
      destruct (resolve_uplink_target _ _ _ _ _); [|destruct (edge_local_deliver _ _ _); done|done]. by intros [= _ <-].
Qed.

Lemma uplink_ingress_firewall_new c pkt v tap s ep s' k :
  uplink_ingress_firewall c pkt v tap s = (Some ep, s') → ct_key pkt ETH_LEN v = Some k → conntrack s' !! k = None → fw_classify pkt (fw c) ETH_LEN tap FW_DIR_INGRESS ≠ FW_ACTION_DROP.
Proof.
  unfold uplink_ingress_firewall. intros Hf Hk Hn. rewrite Hk in Hf. destruct (conntrack s !! k) as [e|] eqn:Ee.
  - destruct (_ && _); [done|]. injection Hf as _ <-. congruence.
  - cbn [andb] in Hf. destruct (Z.eqb_spec (fw_classify pkt (fw c) ETH_LEN tap FW_DIR_INGRESS) FW_ACTION_DROP); done.
Qed.

Lemma uplink_target_lb c in_ pkt lb_ul t mac peer q : uplink_target c in_ pkt lb_ul = (inr (t, mac, false, peer), q) → lb_ul = None.
Proof. destruct lb_ul as [be|]; [|done]. unfold uplink_target. repeat case_match; done. Qed.

(** A packet of the fabric enters its flow when the policy of its interface accepts. *)
Definition accepted_in (c : Config) (in_ : UplinkIn) (pkt : list Z) (k : CtKey) : Prop :=
  ∃ t mac peer q, uplink_target c in_ pkt None = (inr (t, mac, false, peer), q) ∧ fw_classify q (fw c) ETH_LEN t FW_DIR_INGRESS ≠ FW_ACTION_DROP ∧
    ct_key q ETH_LEN (up_vni in_) = Some k.

Lemma process_uplink_tracks c in_ pkt s out q s' :
  pkt_if pkt → process_uplink c in_ pkt s = (out, q, s') → (∀ k, accepted_in c in_ pkt k → P k) → tracks s s'.
Proof.
  intros Hp Hg HP. revert Hg. unfold process_uplink. destruct (uplink_target _ _ _ _) as [[o|[[[tap mac] is_lb] peer]] q1] eqn:Et; [by intros [= _ _ <-]|].
  assert (Hq1 : pkt_if q1) by (intros Hs; exact (uplink_target_ok _ _ _ _ _ _ (Hp Hs) Et)).
  match goal with |- context [if ?b then (Some (fw_epoch c), s) else ?y] => destruct (if b then (Some (fw_epoch c), s) else y) as [adm s1] eqn:Ea end.
  assert (H1 : tracks s s1) by (destruct (lb_select_forward_icmp_error _ _ _ _); [by injection Ea as _ <-|by eapply uplink_ingress_firewall_tracks]).
  destruct adm as [?|]; [|by intros [= _ _ <-]]. set (s2 := if is_lb then s1 else _).
  assert (H2 : tracks s s2).
  { unfold s2. destruct is_lb; [done|]. eapply tracks_trans; [exact H1|]. apply track_flow_tracks. intros k Hk Hn. pose proof (uplink_target_lb _ _ _ _ _ _ _ _ Et) as Hlb.
    destruct (lb_select_forward_icmp_error _ _ _ _); [done|]. rewrite Hlb in Et. apply HP. exists tap, mac, peer, q1. split_and!; [done| |done]. by eapply uplink_ingress_firewall_new. }
  destruct (decap_and_rewrite _ _ _ _ _ _) as [[q2 a]|]; [|by intros [= _ _ <-]]. destruct (ingress_pass _ _ _ _). by intros [= _ _ <-].
Qed.

Lemma process_uplink_rx_tracks c in_ pkt s out q s' :
  pkt_if pkt → process_uplink_rx c in_ pkt s = (out, q, s') → (∀ k, accepted_in c in_ pkt k → P k) → tracks s s'.
Proof.
  intros Hp Hg HP. revert Hg. unfold process_uplink_rx.
  destruct (match lb_select_forward _ _ _ _ with Some _ => _ | None => _ end) as [[key e]|] eqn:Er; [|intros Hg; by eapply process_uplink_tracks].
  assert (He : conntrack s !! key = Some e).
  { destruct (lb_select_forward _ _ _ _); [done|]. apply bind_Some in Er as ([k b] & _ & Er). apply bind_Some in Er as (e' & He & Er). destruct (has e' _); [|done]. by injection Er as <- <-. }
  destruct (has e CT_F_NAT64).
  - assert (H : tracks s (set_ct (ct_refresh pkt ETH_LEN key e (up_now in_) (fw_epoch c) (conntrack s)) s)) by (by apply tracks_ct, refresh_ops).
    destruct (resolve_uplink_target _ _ _ _ _); [destruct (process_uplink_nat64_ingress _ _ _ _ _)|..]; by intros [= _ _ <-].
  - destruct (process_uplink_nat_return _ _ _ _ _). by intros [= _ _ <-].
Qed.

Lemma process_uplink_v6_tracks c in_ pkt s out q s' : process_uplink_v6 c in_ pkt s = (out, q, s') → tracks s s'.
Proof.
  unfold process_uplink_v6, uplink_ingress_firewall6, uplink_track_flow6. intros H. split; repeat (case_match; simplify_eq); done.
Qed.

End run.

(** ** Runs *)

(** What a node does: a packet of a guest, of the core or of the production
    program; a packet of the fabric; a note of the balancer. *)
Variant event :=
| EvGuest (c : Config) (in_ : GuestTxIn) (pkt : list Z)
| EvForward (c : Config) (ifindex : Z) (m : PortMeta) (now : Z) (pkt : list Z)
| EvGuest6 (c : Config) (in_ : GuestTxIn) (pkt : list Z)
| EvNat64 (c : Config) (m : PortMeta) (l : Local) (pkt : list Z)
| EvUplink (c : Config) (in_ : UplinkIn) (pkt : list Z)
| EvUplink6 (c : Config) (in_ : UplinkIn) (pkt : list Z)
| EvNote (pkt : list Z) (v : Z) (lb_ip4 : list Z) (now : Z).

Section runs.
Context {lp : Lpm} (nt : gmap (Z * list Z) NatValue) (Hnt : nats_ok nt).

Definition exec (ev : event) (s : State) : State :=
  match ev with
  | EvGuest c in_ pkt => (process_guest_tx c in_ pkt s).2
  | EvForward c ifindex m now pkt => (forward_decision_v4 c ifindex m now pkt s).2
  | EvGuest6 c in_ pkt => (process_guest_tx_v6 c in_ pkt s).2
  | EvNat64 c m l pkt => (process_guest_tx_nat64 c m l pkt s).2
  | EvUplink c in_ pkt => (process_uplink_rx c in_ pkt s).2
  | EvUplink6 c in_ pkt => (process_uplink_v6 c in_ pkt s).2
  | EvNote pkt v lb_ip4 now => mkState (conntrack s) (conntrack6 s) (dsr_note pkt ETH_LEN v lb_ip4 now (dsr s)) (dsr6 s) (nat_ct6 s) (meters s)
  end.

(** A configuration with these bindings; where [strict], a packet that names a source. *)
Definition event_ok (strict : bool) (ev : event) : Prop :=
  match ev with
  | EvGuest c _ pkt | EvUplink c _ pkt => cfg_ok nt c ∧ pkt_if strict pkt
  | EvForward c _ _ _ pkt => cfg_ok nt c ∧ pkt_if strict pkt ∧ (34 ≤ length pkt)%nat
  | EvGuest6 c _ _ | EvNat64 c _ _ _ | EvUplink6 c _ _ => cfg_ok nt c
  | EvNote _ _ lb_ip4 _ => length lb_ip4 = 4%nat ∧ lb_ip4 ≠ zero4
  end.

(** The flows an event may enter: [P] holds of them. *)
Definition enters (ev : event) (s : State) (P : CtKey → Prop) : Prop :=
  match ev with
  | EvGuest c in_ pkt => ∀ b s1 k, guest_admit c in_ pkt s = (Some b, s1) →
      ct_key pkt ETH_LEN (pm_vni (meta in_)) = Some k ∨ ct_key (process_guest_tx c in_ pkt s).1.2 ETH_LEN (pm_vni (meta in_)) = Some k → P k
  | EvForward c ifindex m now pkt => ∀ mid k, forward_mid c ifindex m now pkt s = Some mid →
      ct_key mid ETH_LEN (pm_vni m) = Some k ∨ ct_key (forward_decision_v4 c ifindex m now pkt s).1.2 ETH_LEN (pm_vni m) = Some k → P k
  | EvNat64 c m l pkt => ∀ k, nat64_flow pkt ETH_LEN (pm_vni m) (pm_guest_ipv4 m) = Some k → P k
  | EvUplink c in_ pkt => ∀ k, accepted_in c in_ pkt k → P k
  | _ => True
  end.

Inductive step : State → State → Prop :=
| st_event ev s : event_ok true ev → step s (exec ev s).

(** The aging sweep, where it spares the reverse entry of every flow it spares. *)
Inductive aged_step : State → State → Prop :=
| as_step s s' : step s s' → aged_step s s'
| as_sweep s now :
    (∀ k e, nat_flow (sweep now (conntrack s)) k e → is_Some (sweep now (conntrack s) !! rev_key (vni k) (proto k) (xlate_ip e) (xlate_port e))) →
    aged_step s (set_ct (sweep now (conntrack s)) s).

Definition init : State := mkState ∅ ∅ ∅ ∅ ∅ ∅.

Definition state_ok (s : State) : Prop := nat_wf nt (conntrack s) ∧ dsr_ok s.

Lemma init_ok : state_ok init.
Proof. split; [apply nat_wf_empty|]. intros k d. cbn. by rewrite lookup_empty. Qed.

Lemma sweep_lookup now (ct : Conntrack) k e : sweep now ct !! k = Some e → ct !! k = Some e.
Proof. unfold sweep. by intros [? _]%map_lookup_filter_Some. Qed.

Lemma exec_tracks strict P ev s : src_ok (conntrack s) → dsr_ok s → event_ok strict ev → enters ev s P → rtc (ct_op nt strict P) (conntrack s) (conntrack (exec ev s)) ∧ dsr_ok (exec ev s).
Proof.
  intros Hwf Hd Hev HP. assert (Ht : ∀ s', tracks nt strict P s s' → rtc (ct_op nt strict P) (conntrack s) (conntrack s') ∧ dsr_ok s').
  { intros s1 H1. split; [apply H1|by eapply tracks_dsr_ok]. }
  destruct ev as [c in_ pkt|c ifindex m now pkt|c in_ pkt|c m l pkt|c in_ pkt|c in_ pkt|pkt v lb_ip4 now]; cbn [exec event_ok enters] in *.
  - apply Ht. destruct Hev as [Hc Hp]. destruct (process_guest_tx c in_ pkt s) as [[o q] s1] eqn:E. by eapply process_guest_tx_tracks.
  - apply Ht. destruct Hev as (Hc & Hp & _). destruct (forward_decision_v4 c ifindex m now pkt s) as [[o q] s1] eqn:E. by eapply forward_decision_v4_tracks.
  - apply Ht. destruct (process_guest_tx_v6 c in_ pkt s) as [[o q] s1] eqn:E. by eapply process_guest_tx_v6_tracks.
  - apply Ht. destruct (process_guest_tx_nat64 c m l pkt s) as [[[o t] q] s1] eqn:E. by eapply process_guest_tx_nat64_tracks.
  - apply Ht. destruct Hev as [Hc Hp]. destruct (process_uplink_rx c in_ pkt s) as [[o q] s1] eqn:E. by eapply process_uplink_rx_tracks.
  - apply Ht. destruct (process_uplink_v6 c in_ pkt s) as [[o q] s1] eqn:E. by eapply process_uplink_v6_tracks.
  - split; [done|]. destruct Hev as [Hl Hz]. intros k d. cbn. unfold dsr_note, dsr_stash. destruct (ct_key _ _ _); [|apply Hd]. destruct (dsr s !! _); [apply Hd|].
    rewrite lookup_insert_Some. intros [[<- <-]|[_ ?]]; [|by eapply Hd]. cbn. unfold slice, splice. cbn [take app drop replicate]. rewrite Hl.
    destruct lb_ip4 as [|? [|? [|? [|? [|]]]]]; try discriminate. done.
Qed.

Lemma enters_any ev s : enters ev s (λ _, True).
Proof. destruct ev; repeat intro; exact I. Qed.

Abbreviation ct_runs := (rtc (ct_op nt true (λ _, True))).

Lemma step_tracks s s' : state_ok s → step s s' → ct_runs (conntrack s) (conntrack s') ∧ dsr_ok s'.
Proof. intros Hs Hst. revert Hs. destruct Hst as [ev s Hev]. intros [Hwf Hd]. apply exec_tracks; [by apply (nat_wf_src_ok nt)|done|done|apply enters_any]. Qed.

Lemma step_ok s s' : state_ok s → step s s' → state_ok s'.
Proof. intros Hs Hst. destruct (step_tracks _ _ Hs Hst) as [Hops Hd]. split; [|done]. eapply ct_ops_wf; [done|done|apply Hs|exact Hops]. Qed.

Lemma node_run_ok s s' : state_ok s → rtc step s s' → state_ok s' ∧ ct_runs (conntrack s) (conntrack s').
Proof.
  intros Hs Hr. induction Hr as [|s s1 s2 Hst _ IH]; [done|]. destruct (IH (step_ok _ _ Hs Hst)) as [Hok Hops]. split; [done|]. etrans; [by apply step_tracks|done].
Qed.

Lemma sweep_wf now ct :
  (∀ k e, nat_flow (sweep now ct) k e → is_Some (sweep now ct !! rev_key (vni k) (proto k) (xlate_ip e) (xlate_port e))) → nat_wf nt ct → nat_wf nt (sweep now ct).
Proof.
  intros Hrev [H1 H2 H3 H4]. assert (Hf : ∀ k e, nat_flow (sweep now ct) k e → nat_flow ct k e) by (intros k e (He%sweep_lookup & ?); done). split.
  - intros k e He. destruct (H1 k e (Hf _ _ He)) as (n & r & ? & ? & ? & ? & Hr & ?). destruct (Hrev _ _ He) as [r' Hr']. assert (r' = r) as -> by (apply sweep_lookup in Hr'; congruence).
    exists n, r. done.
  - intros k e He%sweep_lookup. by apply H2.
  - intros k e He Hs. destruct (H3 k e (sweep_lookup _ _ _ _ He) Hs) as (_ & ? & ?). done.
  - intros k k' e e' He%Hf He'%Hf. by apply H4.
Qed.

Lemma aged_step_ok s s' : state_ok s → aged_step s s' → state_ok s'.
Proof. intros Hs Hst. destruct Hst as [s s' Hst|s now Hk]; [by eapply step_ok|]. destruct Hs as [Hwf Hd]. split; [by apply sweep_wf|done]. Qed.

Lemma aged_run_ok s s' : state_ok s → rtc aged_step s s' → state_ok s'.
Proof. intros Hs Hr. induction Hr as [|s s1 s2 Hst _ IH]; [done|]. eauto using aged_step_ok. Qed.

End runs.
