(* ===== verification/Sample.v ===== *)
(** * A sample node

    One node with two guests of one VPC behind a public address, a load balanced
    address, and an allow-all policy; and packets with valid checksums: what the
    theorems on the datapath are evaluated on. *)

From S2P Require Import Prelude FwClass FwClassFacts Packet Conntrack Nat Nat64 Meter Datapath.
Import fwclass packet conntrack nat nat64 meter datapath.

Open Scope Z_scope.

Module sample.

Definition vpc : Z := 7.
Definition guest : list Z := [10; 0; 0; 5].
Definition guest2 : list Z := [10; 0; 0; 6].
Definition server : list Z := [198; 51; 100; 7].
Definition public : list Z := [203; 0; 113; 9].
Definition tap : Z := 11.
Definition tap2 : Z := 12.
Definition mac : list Z := [2; 0; 0; 0; 0; 5].
Definition vtep : list Z := [253] ++ replicate 14 0 ++ [1].
Definition edge : list Z := [253] ++ replicate 14 0 ++ [9].

(** ** Frames *)

Definition eth : list Z := mac ++ GW_MAC ++ [8; 0].

Definition ipv4 (p : Z) (src dst payload : list Z) : list Z :=
  let hdr := [69; 0] ++ be16 (20 + Z.of_nat (length payload)) ++ [0; 0; 0; 0; 64; p; 0; 0] ++ src ++ dst in
  eth ++ splice hdr 10 (be16 (ipv4_hdr_checksum hdr)) ++ payload.

(** A datagram without a checksum. *)
Definition udp (src dst : list Z) (sport dport : Z) : list Z := ipv4 17 src dst (be16 sport ++ be16 dport ++ be16 8 ++ [0; 0]).

(** A segment with flags [fl] and its checksum. *)
Definition tcp (src dst : list Z) (sport dport fl : Z) : list Z :=
  let seg := be16 sport ++ be16 dport ++ [0; 0; 0; 1; 0; 0; 0; 1; 80; fl; 16; 0; 0; 0; 0; 0] in
  let sum := add_words (add_words 26 seg) (src ++ dst) in
  ipv4 6 src dst (splice seg 16 (be16 (fold_core sum))).

(** ** What is programmed *)

Definition node : Local := mkLocal 2 mac GW_MAC vtep.

(** Everything, from every peer. *)
Definition allow_all : Scope := mkScope 1 (mkTries [] [(32, mkPolKey FW_CLASS_ANY 0 [0; 0], fw_precedence 0 true)]) (mkTries [] [(32, mkPolKey FW_CLASS_ANY 0 [0; 0], fw_precedence 0 true)]).

Definition policy : FwMaps := mkFwMaps (fun i => if (i =? tap) || (i =? tap2) then Some (mkBind 1 1) else None) (fun i => if i =? 1 then Some allow_all else None).

Definition port (ip : list Z) : PortMeta := mkPortMeta vpc ip [10; 0; 0; 1] mac 0 0 vtep (replicate 16 0) ([253; 1] ++ replicate 10 0 ++ ip).

Definition iface (t : Z) : IfaceValue := mkIfaceValue t 1 vtep mac 0.

(** The public address has a block of one port. *)
Definition binding : NatValue := mkNat public 1000 1001.

Definition bindings : gmap (Z * list Z) NatValue := {[(vpc, guest) := binding]}.

Definition cfg : Config := mkConfig (Some node) ∅ ∅ ∅ ∅ bindings {[(vpc, public)]} [] ∅ ∅ []
  [(32, be32 vpc ++ replicate 4 0, mkRoute 0 edge 1); (64, be32 vpc ++ guest, mkRoute vpc vtep 0); (64, be32 vpc ++ guest2, mkRoute vpc vtep 0)] []
  {[tap := port guest; tap2 := port guest2]} {[(vpc, guest) := iface tap; (vpc, guest2) := iface tap2]} ∅ ∅ policy 1.

Definition SEC : Z := 1000000000.

Definition from_guest (now : Z) : GuestTxIn := mkTxIn (port guest) tap now.
Definition from_fabric (now : Z) : UplinkIn := mkUpIn vpc node now.

End sample.
