(* ===== verification/NatTheorems.v ===== *)
(** * Translation is transparent

    In every table a run of the node reaches, a translated flow has a port of its
    guest's block, nobody else has it, and what comes back to it leads to the guest.
    So a guest's packet leaves under the public address, and the reply to it, until
    the next aging sweep and under the same bindings, reaches the guest's interface as
    the reply to what the guest sent, with checksums that verify.  And what the code does not guarantee: reverse
    entries that expire under a live flow. *)

From S2P Require Import Prelude FwClass FwClassFacts Packet PacketFacts Conntrack Nat Nat64 Checksum Meter Datapath NatTable NatTrace Sample.
Import fwclass packet conntrack nat nat64 meter datapath.

Open Scope Z_scope.

(** ** The key of a translated packet *)

Lemma be_at_splice_same l o v : (o + 2 ≤ length l)%nat → 0 ≤ v ≤ 65535 → be_at o (splice l o (be16 v)) = v.
Proof.
  intros Hl Hv. rewrite <- be_slice. change 2%nat with (length (be16 v)). rewrite slice_splice_same by (cbn [be16 length]; lia). by apply be_of_be16.
Qed.

(** The fragment offset is zero. *)
Definition unfragmented (pkt : list Z) : Prop := be [Z.land (pkt !!! 20%nat) 31; pkt !!! 21%nat] = 0.

Definition is_icmp (p : Z) : bool := p =? IPPROTO_ICMP.
Definition portless (p : Z) : bool := negb (p =? IPPROTO_TCP) && negb (p =? IPPROTO_UDP) && negb (p =? IPPROTO_ICMP).

Lemma l4_ports_intro pkt :
  (20 ≤ ihl pkt)%nat → (l4_off pkt + 8 ≤ length pkt)%nat → unfragmented pkt →
  l4_ports pkt ETH_LEN = if portless (ip_proto pkt) then None
                         else if is_icmp (ip_proto pkt) then Some (ip_proto pkt, be_at (l4_off pkt + 4) pkt, be_at (l4_off pkt + 4) pkt)
                         else Some (ip_proto pkt, be_at (l4_off pkt + 0) pkt, be_at (l4_off pkt + 2) pkt).
Proof.
  intros Hi HL Hf. unfold l4_ports. rewrite read_hdr by lia. cbn [mbind option_bind]. rewrite (slice_total 14 20 pkt 6), (slice_total 14 20 pkt 7), (slice_total 14 20 pkt 9) by lia.
  change (14 + 6)%nat with 20%nat. change (14 + 7)%nat with 21%nat. unfold unfragmented in Hf. rewrite Hf. cbn [Z.eqb negb]. change (pkt !!! (14 + 9)%nat) with (ip_proto pkt).
  destruct (l4_off_Z pkt Hi ltac:(lia)) as [Ho Hpos]. set (off := ETH_LEN + _) in *. unfold portless, is_icmp.
  rewrite !read_u16_be_at by lia. replace (Z.to_nat (off + 2)) with (l4_off pkt + 2)%nat by lia. replace (Z.to_nat (off + 4)) with (l4_off pkt + 4)%nat by lia. rewrite Ho, Nat.add_0_r.
  cbn [mbind option_bind]. destruct (Z.eqb_spec (ip_proto pkt) IPPROTO_TCP) as [->|]; [done|]. destruct (Z.eqb_spec (ip_proto pkt) IPPROTO_UDP) as [->|]; [done|].
  destruct (Z.eqb_spec (ip_proto pkt) IPPROTO_ICMP); done.
Qed.

Lemma l4_ports_unfragmented pkt x : (20 ≤ ihl pkt)%nat → l4_ports pkt ETH_LEN = Some x → unfragmented pkt.
Proof.
  intros Hi H. destruct (l4_ports_len _ _ Hi H) as [_ Hr]. unfold l4_ports in H. rewrite Hr in H. cbn [mbind option_bind] in H.
  rewrite (slice_total 14 20 pkt 6), (slice_total 14 20 pkt 7) in H by lia. unfold unfragmented. destruct (Z.eqb_spec (be [Z.land (pkt !!! (14 + 6)%nat) 31; pkt !!! (14 + 7)%nat]) 0); done.
Qed.

Lemma fix_l4_port (c pr : nat) (wa : bool) (old new : list Z) (port : Z) (L : nat) (p : list Z) :
  0 < port ≤ 65535 → (L + c + 2 ≤ length p)%nat → (L + pr + 2 ≤ length p)%nat → be_at (L + pr) (fix_l4 c pr wa old new port L p) = port.
Proof.
  intros Hport Hc Hp. unfold fix_l4. destruct (Z.eqb_spec port 0); [lia|]. apply be_at_splice_same; [rewrite splice_length; cbn [be16 length]; lia|lia].
Qed.

Lemma fix_l4_other (c pr o : nat) (wa : bool) (old new : list Z) (port : Z) (L : nat) (p : list Z) :
  (L + c + 2 ≤ length p)%nat → (L + pr + 2 ≤ length p)%nat → (o + 2 ≤ pr ∨ pr + 2 ≤ o)%nat → (o + 2 ≤ c ∨ c + 2 ≤ o)%nat →
  be_at (L + o) (fix_l4 c pr wa old new port L p) = be_at (L + o) p.
Proof.
  intros Hc Hp H1 H2. unfold fix_l4. destruct (port =? 0); rewrite ?be_at_splice_out; try done; rewrite ?splice_length; cbn [be16 length]; lia.
Qed.

Lemma set_port_port (pr : nat) (port : Z) (L : nat) (p : list Z) : 0 < port ≤ 65535 → (L + pr + 2 ≤ length p)%nat → be_at (L + pr) (set_port pr port L p) = port.
Proof. intros Hport Hp. unfold set_port. destruct (Z.eqb_spec port 0); [lia|]. apply be_at_splice_same; lia. Qed.

Lemma set_port_other (pr o : nat) (port : Z) (L : nat) (p : list Z) :
  (L + pr + 2 ≤ length p)%nat → (o + 2 ≤ pr ∨ pr + 2 ≤ o)%nat → be_at (L + o) (set_port pr port L p) = be_at (L + o) p.
Proof. intros Hp Ho. unfold set_port. destruct (port =? 0); [done|]. apply be_at_splice_out; cbn [be16 length]; lia. Qed.

Section key.
Context (rel prel : nat) (new : list Z) (port : Z) (pkt : list Z).
Context (Hside : (rel = 12 ∧ prel = 0)%nat ∨ (rel = 16 ∧ prel = 2)%nat) (Hnew : bytes_ok new) (Hlen : length new = 4%nat) (Hport : 0 < port ≤ 65535).
Context (Hok : checksums_ok pkt).

Let q := translate rel prel new port pkt.

Lemma key_fields : addr_field rel ∧ port_field prel.
Proof. unfold addr_field, port_field. destruct Hside as [[-> ->]|[-> ->]]; auto. Qed.

Lemma key_base : (20 ≤ ihl pkt)%nat ∧ (l4_off pkt ≤ length pkt)%nat ∧ bytes_ok pkt ∧ (34 ≤ l4_off pkt)%nat ∧ rewrites_l4 (addr_patch rel new pkt) q.
Proof.
  destruct Hok as (Hb & Hi & Hl & _). destruct key_fields. split_and!; [done|lia|done|unfold l4_off; lia|]. apply translate_rewrites; done || lia.
Qed.

Lemma key_q : length q = length pkt ∧ ihl q = ihl pkt ∧ ip_proto q = ip_proto pkt ∧ slice (14 + rel) 4 q = new ∧ slice (42 - rel) 4 q = slice (42 - rel) 4 pkt ∧
  (unfragmented pkt → unfragmented q).
Proof.
  destruct key_base as (Hi & HL & Hb & H34 & Hrw), key_fields as [Hrel Hprel]. set (p := addr_patch rel new pkt) in *.
  assert (Hpi : ihl p = ihl pkt) by (by apply addr_patch_ihl). assert (HpL : l4_off p = l4_off pkt) by (unfold l4_off; by rewrite Hpi).
  assert (Hpre : ∀ o n, (o + n ≤ 34)%nat → slice o n q = slice o n p) by (intros; apply Hrw; lia).
  assert (Hb1 : ∀ i, (i < 24)%nat → q !!! i = pkt !!! i).
  { intros i H. rewrite (slice_1 q), Hpre, <- slice_1 by lia. by apply addr_patch_total. }
  split_and!.
  - rewrite (rw_length _ _ Hrw). by apply addr_patch_length.
  - unfold ihl. by rewrite Hb1 by lia.
  - unfold ip_proto. by rewrite Hb1 by lia.
  - rewrite Hpre by (destruct Hside; lia). by apply addr_patch_addr.
  - rewrite Hpre by (destruct Hside; lia). apply addr_patch_out; try done. destruct Hside; lia.
  - unfold unfragmented. by rewrite !Hb1 by lia.
Qed.

(** What the ports become. *)
Lemma key_ports p sp dp :
  l4_ports pkt ETH_LEN = Some (p, sp, dp) →
  l4_ports q ETH_LEN = Some (p, if is_icmp p then port else if (prel =? 0)%nat then port else sp, if is_icmp p then port else if (prel =? 0)%nat then dp else port) ∧
  (is_icmp p = true → dp = sp).
Proof.
  intros Hp. destruct key_base as (Hi & HL & Hb & H34 & Hrw), key_q as (Hql & Hqi & Hqp & _ & _ & Hqf), key_fields as [Hrel Hprel].
  destruct (l4_ports_fields _ _ _ _ Hi HL Hp) as [Hpr Hf]. pose proof (Hqf (l4_ports_unfragmented _ _ Hi Hp)) as Huf. subst p.
  destruct Hok as (_ & _ & Hlen' & _ & H4). unfold l4_checksum_ok in H4. set (p := addr_patch rel new pkt) in *.
  assert (Hpl : length p = length pkt) by (by apply addr_patch_length). assert (HqL : l4_off q = l4_off pkt) by (unfold l4_off; by rewrite Hqi).
  assert (Hpo : ∀ o, (34 ≤ o)%nat → be_at o p = be_at o pkt).
  { intros o Ho. rewrite (be_at_slice_2 p), (be_at_slice_2 pkt). f_equal. apply addr_patch_out; try done. lia. }
  assert (Hpr2 : prel = 0%nat ∨ prel = 2%nat) by done.
  assert (Hq : q = translate rel prel new port pkt) by done. unfold translate in Hq. fold p in Hq.
  destruct Hf as [([Ht|Ht] & -> & -> & _)|(Ht & -> & -> & _)]; rewrite Ht in *; cbn [Z.eqb IPPROTO_TCP IPPROTO_UDP IPPROTO_ICMP Pos.eqb andb] in H4, Hq; destruct H4 as [Hn _].
  - rewrite decide_True in Hq by lia. rewrite l4_ports_intro, HqL, Hqp by (rewrite ?HqL, ?Hql; done || lia). cbn [portless is_icmp Z.eqb IPPROTO_TCP IPPROTO_UDP IPPROTO_ICMP Pos.eqb andb negb].
    split; [|done]. rewrite Hq. destruct Hpr2 as [E|E]; rewrite E in *; cbn [Nat.eqb]; rewrite fix_l4_port, fix_l4_other, Hpo by lia; done.
  - rewrite decide_True in Hq by lia. rewrite l4_ports_intro, HqL, Hqp by (rewrite ?HqL, ?Hql; done || lia). cbn [portless is_icmp Z.eqb IPPROTO_TCP IPPROTO_UDP IPPROTO_ICMP Pos.eqb andb negb].
    split; [|done]. rewrite Hq. destruct Hpr2 as [E|E]; rewrite E in *; cbn [Nat.eqb]; destruct (_ =? 0).
    all: first [rewrite fix_l4_port, fix_l4_other, Hpo by lia; done|rewrite set_port_port, set_port_other, Hpo by lia; done].
  - destruct (Z.eqb_spec port 0); [lia|]. cbn [negb] in Hq. rewrite decide_True in Hq by lia. rewrite l4_ports_intro, HqL, Hqp by (rewrite ?HqL, ?Hql; done || lia).
    cbn [portless is_icmp Z.eqb IPPROTO_TCP IPPROTO_UDP IPPROTO_ICMP Pos.eqb andb negb]. split; [|done]. rewrite Hq. by rewrite fix_l4_port by lia.
Qed.

Lemma key_translate v k :
  ct_key pkt ETH_LEN v = Some k → is_Some (l4_ports pkt ETH_LEN) →
  ct_key q ETH_LEN v = Some (mkCtKey v (if (prel =? 0)%nat then new else src_ip k) (if (prel =? 0)%nat then dst_ip k else new)
    (if is_icmp (proto k) then port else if (prel =? 0)%nat then port else src_port k)
    (if is_icmp (proto k) then port else if (prel =? 0)%nat then dst_port k else port) (proto k)) ∧
  (is_icmp (proto k) = true → dst_port k = src_port k).
Proof.
  intros Hk [[[p sp] dp] Hp]. destruct key_base as (Hi & HL & Hb & H34 & Hrw), key_q as (Hql & Hqi & Hqp & Hq1 & Hq2 & _). destruct (key_ports _ _ _ Hp) as [Hqports Hicmp].
  unfold ct_key in Hk |- *. rewrite Hp in Hk. rewrite Hqports. rewrite !read_array_Some in * by (rewrite ?Hql; unfold ETH_LEN; lia). cbn [mbind option_bind default] in *.
  injection Hk as <-. cbn [src_ip dst_ip src_port dst_port proto]. change (Z.to_nat (ETH_LEN + 12)) with 26%nat. change (Z.to_nat (ETH_LEN + 16)) with 30%nat.
  split; [|done]. do 2 f_equal; destruct Hside as [[-> ->]|[-> ->]]; cbn [Nat.eqb]; done.
Qed.
End key.

(** ** Out *)

Lemma guest_admit_entries {lp : Lpm} c in_ pkt s b s' k e' :
  guest_admit c in_ pkt s = (Some b, s') → conntrack s' !! k = Some e' → ∃ e, conntrack s !! k = Some e ∧ same_xlate e e'.
Proof.
  unfold guest_admit. destruct (ct_key pkt ETH_LEN _) as [key|] eqn:Ek; [|done]. destruct (negb _); [intros [= _ <-]; eauto using same_xlate_refl|].
  destruct (_ =? FW_ACTION_DROP); [done|]. destruct (conntrack s !! key) as [e|] eqn:Ee; intros [= _ <-]; [|eauto using same_xlate_refl].
  cbn [set_ct conntrack]. rewrite lookup_insert_Some. intros [[<- <-]|[_ ?]]; [|eauto using same_xlate_refl]. exists e. done.
Qed.

Lemma snat_port_nat64 n fwd now epoch ct port ct' e' :
  snat_port n fwd now epoch ct = Some (port, ct') → (∀ e, ct !! fwd = Some e → has e CT_F_NAT64 = false) → ct' !! fwd = Some e' → has e' CT_F_NAT64 = false.
Proof.
  unfold snat_port. intros H Hno He'. destruct (ct !! fwd) as [e|] eqn:Ee; [destruct (has e CT_F_SRC_NAT)|]; [injection H as <- <-; apply Hno; congruence| |];
    (destruct (find_port _ _ _ _ _ _ _); [|done]); injection H as <- <-; rewrite lookup_insert_eq in He'; by injection He' as <-.
Qed.

(** The key of a packet of flow [k] after the source translation. *)
Definition translated (k : CtKey) (ip : list Z) (port : Z) : CtKey :=
  mkCtKey (vni k) ip (dst_ip k) port (if is_icmp (proto k) then port else dst_port k) (proto k).

Lemma checksums_pkt_ok pkt : checksums_ok pkt → slice 26 4 pkt ≠ zero4 → pkt_ok pkt.
Proof. intros (_ & Hi & _) Hs. done. Qed.

(** What the source translation emits, and what it leaves in the table. *)
Lemma snat_egress_emits nt pkt ct v ext now epoch k n q ct' :
  nats_ok nt → nat_wf nt ct → checksums_ok pkt → slice 26 4 pkt ≠ zero4 → ct_key pkt ETH_LEN v = Some k → is_Some (l4_ports pkt ETH_LEN) →
  nt !! (v, src_ip k) = Some n → port_range n ≠ 0 → ext = true → (∀ e, ct !! k = Some e → has e CT_F_NAT64 = false) →
  snat_egress nt pkt ct ETH_LEN v ext now epoch = (Continue, q, ct') →
  ∃ port r, 0 < port ≤ 65535 ∧ port_min n ≤ port < port_max n ∧ checksums_ok q ∧ ct_key q ETH_LEN v = Some (translated k (nat_ip n) port) ∧
    ct' !! rev_key v (proto k) (nat_ip n) port = Some r ∧ leads_to k false r.
Proof.
  intros Hnt Hwf Hok Hsrc Hk Hports Hn Hr -> H64 Hs. pose proof (checksums_pkt_ok _ Hok Hsrc) as Hp. pose proof (ct_key_src _ _ _ Hk) as (Hks & Hkv & _ & Hlen).
  destruct (Hnt _ _ Hn) as [Hz Hnok]. destruct (Hnok) as ((Hnb & Hnl) & Hnz & Hmin & Hmax).
  destruct (snat_egress_packet _ _ _ _ _ _ _ _ _ Hnt Hp Hs) as [(_ & _ & Hno)|(m & k' & port & Hk' & Hm & _ & Hl4 & Hsp & ->)]; [exfalso; eauto|].
  assert (k' = k) as -> by congruence. assert (m = n) as -> by congruence. rewrite <- Hkv in Hn.
  destruct (snat_port_ops nt Hnt true (λ _, True) n k now epoch ct port ct' I Hn Hr Hsp) as [Hops Hfl]. destruct (Hfl Hwf) as (e & Hf & Hx & Hxp).
  destruct (wf_fwd _ _ (ct_ops_wf _ Hnt true _ _ _ eq_refl Hwf Hops) _ _ Hf) as (n' & r & Hn' & _ & Hrange & _ & Hrev & Hd & Hi & Hpo & H64r). assert (n' = n) as -> by congruence.
  rewrite Hx, Hxp in *. assert (Hport : 0 < port ≤ 65535) by lia.
  rewrite (snat_rewrite_translate pkt n (proto k) (src_port k) (dst_port k)) by (done || lia || (destruct Hok as (_ & ? & ? & _); lia)).
  destruct (key_translate 12 0 (nat_ip n) port pkt ltac:(by left) Hnl Hport Hok v k Hk Hports) as [Hkq _]. exists port, r. split_and!; try lia.
  - apply translate_ok; try done; [by left|by left|lia].
  - rewrite Hkq. unfold translated. rewrite Hkv. cbn [Nat.eqb]. by destruct (is_icmp (proto k)).
  - by rewrite <- Hkv.
  - split_and!; try done. rewrite H64r. eapply snat_port_nat64; [exact Hsp|done|apply Hf].
Qed.

(** A guest's packet of flow [k] is to be translated with binding [n]. *)
Record outbound {lp : Lpm} (nt : gmap (Z * list Z) NatValue) (c : Config) (in_ : GuestTxIn) (pkt : list Z) (s : State) (k : CtKey) (n : NatValue) : Prop := mkOutbound {
  ob_cfg : cfg_ok nt c;
  ob_pkt : checksums_ok pkt;
  ob_src : slice 26 4 pkt ≠ zero4;
  ob_key : ct_key pkt ETH_LEN (pm_vni (meta in_)) = Some k;
  ob_ports : is_Some (l4_ports pkt ETH_LEN);
  ob_nat : nt !! (pm_vni (meta in_), src_ip k) = Some n ∧ port_range n ≠ 0;
  ob_route : ∃ route, route4 c (pm_vni (meta in_)) (dst_ip k) = Some route ∧ is_external route ≠ 0;
  ob_dsr : dsr s !! k = None;
  ob_nat64 : ∀ e, conntrack s !! k = Some e → has e CT_F_NAT64 = false
}.

Lemma guest_tx_emits {lp : Lpm} nt c in_ pkt s k n out q s' :
  nats_ok nt → state_ok nt s → outbound nt c in_ pkt s k n → process_guest_tx c in_ pkt s = (out, q, s') → action out ≠ Drop →
  ∃ port r, 0 < port ≤ 65535 ∧ port_min n ≤ port < port_max n ∧ checksums_ok q ∧ ct_key q ETH_LEN (vni k) = Some (translated k (nat_ip n) port) ∧
    conntrack s' !! rev_key (vni k) (proto k) (nat_ip n) port = Some r ∧ leads_to k false r.
Proof.
  intros Hnt [Hwf Hd] [Hc Hok Hsrc Hk Hports [Hn Hr] (route & Hroute & Hext) Hdsr H64] Hg Hout. pose proof (checksums_pkt_ok _ Hok Hsrc) as Hp.
  pose proof (ct_key_src _ _ _ Hk) as (_ & Hkv & Hkd & Hlen). revert Hg. unfold process_guest_tx.
  destruct (guest_admit c in_ pkt s) as [[b|] s1] eqn:Ea; [|intros [= <- _ _]; done]. pose proof (guest_admit_tracks nt true (λ _, True) _ _ _ _ _ _ (λ _, Hp) Ea) as H1.
  assert (Hgd : guest_dsr (pm_vni (meta in_)) pkt s1 = Some (pkt, false)) by (unfold guest_dsr; by rewrite Hk, (proj2 H1), Hdsr).
  rewrite Hgd, read_array_Some by (done || (unfold ETH_LEN; lia)). change (Z.to_nat (ETH_LEN + 16)) with 30%nat. rewrite <- Hkd, Hroute. apply Z.eqb_neq in Hext. rewrite Hext. cbn [negb].
  rewrite (cfg_nats _ _ Hc). destruct (snat_egress _ _ _ _ _ _ _ _) as [[o q2] ct2] eqn:Es. destruct o; [|intros [= <- _ _]; done..].
  assert (H64' : ∀ e, conntrack s1 !! k = Some e → has e CT_F_NAT64 = false).
  { intros e He. destruct (guest_admit_entries _ _ _ _ _ _ _ _ Ea He) as (e0 & He0 & Hs). rewrite (same_xlate_has _ _ _ Hs). by apply H64. }
  pose proof (ct_ops_wf _ Hnt true _ _ _ eq_refl Hwf (proj1 H1)) as Hwf1.
  destruct (snat_egress_emits _ _ _ _ _ _ _ _ _ _ _ Hnt Hwf1 Hok Hsrc Hk Hports Hn Hr eq_refl H64' Es) as (port & r & Hport & Hrange & Hq2 & Hkq & Hrev & Hlead).
  
  pose proof (ct_ops_wf _ Hnt true _ _ _ eq_refl Hwf1 (snat_egress_ops _ Hnt true (λ _, True) _ ETH_LEN _ _ _ _ _ _ _ _ ltac:(done) (λ _ _, I) Es)) as Hwf2. pose proof (snat_egress_ok _ Hnt _ _ _ _ _ _ _ _ Hp Es) as Hpq2.
  destruct (public_pass _ _ _ _ _) as [m pass]. destruct (negb pass); [intros [= <- _ _]; done|]. intros Hg.
  destruct (guest_deliver_packet _ _ _ _ _ _ _ _ _ _ _ Hc Hg) as [Hsame Hqb]. specialize (Hqb (proj1 Hq2)). pose proof (guest_deliver_tracks nt true (λ _, True) _ _ _ _ _ _ _ _ _ _ (λ _, Hpq2) Hg) as H3.
  pose proof (tracks_trans _ _ _ _ _ _ (track_flow_tracks nt true (λ _, True) c (pm_vni (meta in_)) (tx_now in_) q2 (set_ct ct2 s1) (λ _ _ _, I)) H3) as [Hops _].
  destruct (ct_ops_rev _ Hnt true _ _ _ _ _ eq_refl Hwf2 Hops Hrev (proj1 Hlead)) as (r' & Hr' & Hs'). exists port, r'. rewrite Hkv. split_and!; try done || lia.
  - by eapply same_ip_checksums.
  - by rewrite (same_ip_key _ _ _ Hsame).
  - unfold leads_to. rewrite !(same_xlate_has _ _ _ Hs'). destruct Hlead as (? & ? & ? & ?), Hs' as (? & ? & _). split_and!; congruence.
Qed.

(** ** In *)

(** The fabric delivers [r], the reply to a packet of flow [k] translated to [port]. *)
Record inbound {lp : Lpm} (nt : gmap (Z * list Z) NatValue) (c : Config) (in_ : UplinkIn) (r : list Z) (k : CtKey) (n : NatValue) (port : Z) (iv : IfaceValue) : Prop := mkInbound {
  ib_cfg : cfg_ok nt c;
  ib_pkt : checksums_ok r ∧ ihl r = 20%nat;
  ib_vni : up_vni in_ = vni k;
  ib_key : ct_key r ETH_LEN (vni k) = Some (invert_key (translated k (nat_ip n) port));
  ib_ports : is_Some (l4_ports r ETH_LEN);
  ib_echo : nat_icmp_error_origin r ETH_LEN = None;
  ib_nat_ip : (vni k, nat_ip n) ∈ nat_ips c;
  ib_lb : lb_select_forward c r ETH_LEN (vni k) = None;
  ib_iface : ifaces c !! (vni k, src_ip k) = Some iv ∧ is_local iv ≠ 0
}.

Definition redirected (iv : IfaceValue) : Action := if negb (peer_capable iv =? 0) then RedirectPeer (tap_ifindex iv) else Redirect (tap_ifindex iv).

Lemma has_either e : has e CT_REWRITE_DST = true → Z.land (flags e) (Z.lor CT_REWRITE_SRC CT_REWRITE_DST) ≠ 0.
Proof.
  unfold has. intros H E. apply negb_true_iff, Z.eqb_neq in H. apply H.
  change CT_REWRITE_DST with (Z.land (Z.lor CT_REWRITE_SRC CT_REWRITE_DST) CT_REWRITE_DST). by rewrite Z.land_assoc, E.
Qed.

Lemma write_eth_Some mac ty p : length mac = 6%nat → (14 ≤ length p)%nat → is_Some (write_eth mac ty p).
Proof.
  intros Hm Hl. unfold write_eth. rewrite decide_False by lia.
  assert (Hw : ∀ off src a, (Z.to_nat off + length src ≤ length a)%nat → write_bytes off src a = Some (splice a (Z.to_nat off) src)) by (intros; by apply write_array_splice).
  rewrite Hw by lia. cbn [mbind option_bind]. rewrite Hw by (rewrite splice_length; cbn [length GW_MAC]; lia). cbn [mbind option_bind].
  rewrite Hw by (rewrite !splice_length; rewrite ?splice_length; cbn [length GW_MAC be16]; lia). by eexists.
Qed.

Lemma uplink_returns {lp : Lpm} nt c in_ r k n port iv e s :
  inbound nt c in_ r k n port iv → nat_wf nt (conntrack s) → 0 < src_port k ≤ 65535 → bytes_ok (src_ip k) → length (src_ip k) = 4%nat → length (nat_ip n) = 4%nat →
  (is_icmp (proto k) = true → dst_port k = src_port k) →
  conntrack s !! rev_key (vni k) (proto k) (nat_ip n) port = Some e → leads_to k false e →
  ∃ q, process_uplink_rx c in_ r s = (mkUpOut (redirected iv) None, q, s) ∧ checksums_ok q ∧ ct_key q ETH_LEN (vni k) = Some (invert_key k).
Proof.
  intros [Hc [Hok Hih] Hv Hk Hports Hecho Hnip Hlb [Hif Hloc]] Hwf Hsp Hsb Hsl Hnl Hicmp He (Hd & Hx & Hxp & H64).
  assert (Hrk : nat_return_key c r (vni k) = Some (rev_key (vni k) (proto k) (nat_ip n) port, false)).
  { unfold nat_return_key. rewrite Hk. cbn [mbind option_bind invert_key translated vni src_ip dst_ip src_port dst_port proto]. rewrite decide_True by done. rewrite Hecho.
    unfold rev_key. by rewrite Hnl. }
  assert (Hns : has e CT_REWRITE_SRC = false).
  { destruct (has e CT_REWRITE_SRC) eqn:E; [|done]. destruct (wf_src _ _ Hwf _ _ He E) as (_ & _ & Hnr). destruct Hnr. by apply rev_key_is_rev. }
  assert (Hlen : (34 ≤ length r)%nat) by (by apply ct_key_src in Hk as (_ & _ & _ & ?)).
  destruct (key_translate 16 2 (src_ip k) (src_port k) r ltac:(by right) Hsl Hsp Hok _ _ Hk Hports) as [Hkq _].
  assert (Hokq : checksums_ok (translate 16 2 (src_ip k) (src_port k) r)) by (apply translate_ok; try done; [by right|by right|lia]).
  unfold process_uplink_rx. rewrite Hv, Hlb, Hrk. cbn [mbind option_bind]. rewrite He. cbn [mbind option_bind]. rewrite Hd, H64.
  unfold process_uplink_nat_return. rewrite Hrk, He, Hd. cbn [negb].
  rewrite ct_apply_translate; [|done|done|by apply has_either|congruence]. unfold entry_rel, entry_prel. rewrite Hns, Hx, Hxp. cbn [negb].
  unfold resolve_uplink_target. rewrite Hif. apply Z.eqb_neq in Hloc. rewrite Hloc. set (q := translate 16 2 (src_ip k) (src_port k) r) in *.
  destruct (cfg_macs _ _ Hc _ _ Hif) as [Hm Hmb]. set (mac := if resolve_delivery_l3 c (tap_ifindex iv) then replicate 6 0 else guest_mac iv).
  assert (Hm' : length mac = 6%nat ∧ bytes_ok mac) by (unfold mac; destruct (resolve_delivery_l3 _ _); split; done || (repeat constructor; lia)).
  assert (Hql : length q = length r) by (by apply (key_q 16 2 (src_ip k) (src_port k) r); [right|..]).
  unfold decap_and_rewrite. fold mac. destruct (write_eth_Some mac ETH_P_IP q (proj1 Hm') ltac:(lia)) as [q' Hw]. rewrite Hw. cbn [mbind option_bind].
  destruct (write_eth_same _ _ _ _ Hw (proj1 Hm') (proj2 Hm') (proj1 Hokq)) as [Hsame Hqb]. exists q'. split_and!; [done|by eapply same_ip_checksums|].
  rewrite (same_ip_key _ _ _ Hsame), Hkq. cbn [Nat.eqb invert_key translated vni src_ip dst_ip src_port dst_port proto]. unfold invert_key.
  destruct (is_icmp (proto k)) eqn:E; [|done]. by rewrite Hicmp.
Qed.

(** ** The claims *)

(** C15. The conntrack table of a node is consistent.  Take any run from empty tables
    under one set of NAT bindings, with addresses other than 0.0.0.0 and ports above 0:
    packets of guests and of the fabric, IPv4 and IPv6, with a whole header and a source
    other than 0.0.0.0, translated or not, NAT64 packets, whatever the policies; and aging
    sweeps, where they spare the reverse entry of every translated flow they spare.  In
    every state it reaches: a translated flow has the public address and a port of its
    guest's block, and the reverse entry of that port leads back to the address and port
    of the flow; entries that translate are those of such flows and ports; and two flows
    of one VNI and protocol never share a public address and port. *)
Theorem nat_run_consistent {lp : Lpm} nt s : nats_ok nt → rtc (aged_step nt) init s → nat_wf nt (conntrack s).
Proof. intros Hnt Hr. by apply (aged_run_ok nt Hnt init s (init_ok nt) Hr). Qed.

(** C10. Translation goes both ways.  In a state a run of that kind reaches, let a guest
    send a packet with valid checksums, an address other than 0.0.0.0, a port or ICMP
    identifier other than 0, and a NAT binding, along an external route, of a flow that is
    neither the answer of a balanced service nor a NAT64 flow.  If the packet is not
    dropped it leaves with the public address, a port of the guest's block, and valid
    checksums.  And in any later state, whatever packets (under the same bindings) come in
    between, as long as no aging sweep does, the reply to what left, with valid checksums,
    a header of 20 bytes and no ICMP error, for an interface of this node and no balanced
    service, is delivered to the guest's interface as the reply to what the guest sent,
    with valid checksums. *)
Theorem nat_round_trip {lp : Lpm} nt s c in_ pkt k n out q s1 :
  nats_ok nt → rtc (aged_step nt) init s → outbound nt c in_ pkt s k n → 0 < src_port k →
  process_guest_tx c in_ pkt s = (out, q, s1) → action out ≠ Drop →
  ∃ port, port_min n ≤ port < port_max n ∧ checksums_ok q ∧ ct_key q ETH_LEN (vni k) = Some (translated k (nat_ip n) port) ∧
    ∀ s2 c' in' r iv, rtc (step nt) s1 s2 → inbound nt c' in' r k n port iv →
      ∃ q', process_uplink_rx c' in' r s2 = (mkUpOut (redirected iv) None, q', s2) ∧ checksums_ok q' ∧ ct_key q' ETH_LEN (vni k) = Some (invert_key k).
Proof.
  intros Hnt Hr Hob Hsp Hg Hout. pose proof (aged_run_ok nt Hnt init s (init_ok nt) Hr) as Hs.
  destruct (guest_tx_emits nt c in_ pkt s k n out q s1 Hnt Hs Hob Hg Hout) as (port & e & Hport & Hrange & Hq & Hkq & He & Hlead).
  exists port. split_and!; [lia|lia|done|done|]. intros s2 c' in' r iv Hr2 Hin. destruct Hob as [Hc Hok Hsrc Hk Hports [Hn _] _ _ _].
  assert (Hs1 : state_ok nt s1) by (apply (step_ok nt Hnt s); [done|]; pose proof (st_event nt (EvGuest c in_ pkt) s (conj Hc (λ _, checksums_pkt_ok _ Hok Hsrc))) as H; cbn [exec] in H; by rewrite Hg in H).
  destruct (node_run_ok nt Hnt s1 s2 Hs1 Hr2) as [Hs2 Hops]. destruct (ct_ops_rev _ Hnt true _ _ _ _ _ eq_refl (proj1 Hs1) Hops He (proj1 Hlead)) as (e2 & He2 & Hsame).
  pose proof (ct_key_src _ _ _ Hk) as (Hks & Hkv & _ & Hlen). destruct (Hnt _ _ Hn) as [_ ((_ & Hnl) & _)].
  destruct (key_translate 12 0 (nat_ip n) port pkt ltac:(by left) Hnl Hport Hok _ _ Hk Hports) as [_ Hicmp].
  assert (Hsp' : 0 < src_port k ≤ 65535).
  { split; [done|]. destruct Hports as [[[p sp] dp] Hp]. destruct (l4_ports_fields pkt p sp dp) as [_ Hf]; [apply Hok|destruct Hok as (_ & _ & ? & _); lia|done|].
    unfold ct_key in Hk. rewrite Hp in Hk. apply bind_Some in Hk as (? & _ & Hk). apply bind_Some in Hk as (? & _ & Hk). injection Hk as <-. cbn.
    destruct Hf as [(_ & -> & _)|(_ & -> & _)]; apply be_at_range; apply Hok. }
  apply (uplink_returns nt c' in' r k n port iv e2); try done.
  - apply Hs2.
  - rewrite Hks. apply Forall_take, Forall_drop, Hok.
  - rewrite Hks. apply slice_length. lia.
  - unfold leads_to. rewrite !(same_xlate_has _ _ _ Hsame). destruct Hlead as (? & ? & ? & ?), Hsame as (? & ? & _). split_and!; congruence.
Qed.

(** The rewrite of an established flow's packet ([ct_apply] with the flow's entry,
    the production hit path) is the translation its packets meet in the allocator's
    path ([snat_egress]): the same packet, and the table unchanged. *)
Theorem established_rewrite_agrees nt ct pkt v k e n now epoch :
  nats_ok nt → nat_wf nt ct → ihl pkt = 20%nat → ct_key pkt ETH_LEN v = Some k → slice 26 4 pkt ≠ zero4 → is_Some (l4_ports pkt ETH_LEN) →
  nat_flow ct k e → nt !! (v, src_ip k) = Some n →
  ∃ q, ct_apply pkt ETH_LEN e = (q, true) ∧ snat_egress nt pkt ct ETH_LEN v true now epoch = (Continue, q, ct).
Proof.
  intros Hnt Hwf Hi Hk Hs [[[p sp] dp] Hp] Hf Hn. pose proof (ct_key_src _ _ _ Hk) as (Hks & Hkv & Hkd & Hlen).
  destruct (wf_fwd _ _ Hwf _ _ Hf) as (n' & r & Hn' & Hx & Hrange & Hsrc & _). rewrite Hkv in Hn'. assert (n' = n) as -> by congruence.
  destruct (Hnt _ _ Hn) as [_ Hok]. destruct (Hok) as ((_ & Hnl) & _ & Hmin & Hmax).
  assert (HL : (l4_off pkt ≤ length pkt)%nat) by (unfold l4_off; lia). assert (Hi' : (20 ≤ ihl pkt)%nat) by lia.
  exists (translate 12 0 (nat_ip n) (xlate_port e) pkt). split.
  - rewrite ct_apply_translate; [|done|done| |congruence].
    + unfold entry_rel, entry_prel. by rewrite Hsrc, Hx.
    + intros E. unfold has in Hsrc. apply negb_true_iff, Z.eqb_neq in Hsrc. apply Hsrc.
      change CT_REWRITE_SRC with (Z.land (Z.lor CT_REWRITE_SRC CT_REWRITE_DST) CT_REWRITE_SRC). by rewrite Z.land_assoc, E.
  - unfold snat_egress. cbn [negb]. rewrite read_hdr by done. rewrite !slice_slice by lia. change (14 + 12)%nat with 26%nat. change (14 + 16)%nat with 30%nat. rewrite <- Hks, Hn.
    destruct (Z.eqb_spec (port_range n) 0) as [E|_]; [rewrite port_range_ok in E by done; lia|]. rewrite Hp.
    assert (Hkk : mkCtKey v (src_ip k) (slice 30 4 pkt) sp dp p = k).
    { unfold ct_key in Hk. rewrite Hp in Hk. apply bind_Some in Hk as (? & _ & Hk). apply bind_Some in Hk as (? & _ & Hk). injection Hk as <-. by cbn in *; subst. }
    rewrite Hkk. unfold snat_port. destruct Hf as (Hce & Hsn & _). rewrite Hce, Hsn. f_equal. f_equal.
    apply (snat_rewrite_translate pkt n p sp dp); done || lia.
Qed.

(** ** The sample node *)

Lemma surjective_triple {A B C : Type} (x : A * B * C) : x = (x.1.1, x.1.2, x.2).
Proof. by destruct x as [[a b] c]. Qed.

Module nat_example.
Import sample.

Definition query : list Z := udp guest server 5000 53.
Definition answer : list Z := udp server public 53 1000.
Definition after_query : State := (process_guest_tx cfg (from_guest 0) query init).2.
Definition flow : CtKey := mkCtKey vpc guest server 5000 53 17.

Lemma bindings_ok : nats_ok bindings.
Proof.
  intros k n. unfold bindings. rewrite lookup_singleton_Some. intros [<- <-]. split; [done|]. split_and!; try done. repeat constructor; lia.
Qed.

Lemma config_ok : cfg_ok bindings cfg.
Proof.
  split; [done|intros k g; cbn; by rewrite lookup_empty|]. intros k iv. cbn. rewrite lookup_insert_Some, lookup_singleton_Some.
  intros [[_ <-]|[_ [_ <-]]]; (split; [done|repeat constructor; lia]).
Qed.

Lemma checksums_by_computation pkt :
  forallb (fun b => (0 <=? b) && (b <? 256)) pkt = true → (20 <=? ihl pkt)%nat = true → (l4_off pkt + seg_len pkt <=? length pkt)%nat = true →
  (0 <? sum16 (header pkt)) && (sum16 (header pkt) mod 65535 =? 0) = true → ip_proto pkt = IPPROTO_UDP → (8 <=? seg_len pkt)%nat = true → be_at 6 (segment pkt) = 0 → checksums_ok pkt.
Proof.
  intros Hb Hi Hl Hh Hp Hs Hz. apply andb_true_iff in Hh as [Hh1 Hh2]. apply Nat.leb_le in Hi, Hl, Hs. split_and!; [|done|done| |].
  - apply Forall_forall. intros b Hin. rewrite forallb_forall in Hb. specialize (Hb b ltac:(by apply list_elem_of_In)). lia.
  - split; [lia|]. apply Z.mod_divide; lia.
  - unfold l4_checksum_ok. rewrite Hp. cbn. split; [done|by left].
Qed.

Lemma query_outbound : outbound bindings cfg (from_guest 0) query init flow binding.
Proof.
  split; [apply config_ok|apply checksums_by_computation; vm_compute; reflexivity|vm_compute; congruence|vm_compute; reflexivity|vm_compute; by eexists|..].
  - split; [apply lookup_singleton_eq|vm_compute; congruence].
  - exists (mkRoute 0 edge 1). split; [vm_compute; reflexivity|done].
  - apply lookup_empty.
  - intros e. cbn. by rewrite lookup_empty.
Qed.

Lemma answer_inbound : inbound bindings cfg (from_fabric 10) answer flow binding 1000 (iface tap).
Proof.
  split; [apply config_ok|split; [apply checksums_by_computation|]; vm_compute; reflexivity|done|vm_compute; reflexivity|vm_compute; by eexists|vm_compute; reflexivity|..].
  - cbn. set_solver.
  - vm_compute; reflexivity.
  - split; [vm_compute; reflexivity|done].
Qed.

Lemma query_reached : rtc (aged_step bindings) init after_query.
Proof. apply rtc_once, as_step, (st_event bindings (EvGuest cfg (from_guest 0) query)). split; [apply config_ok|]. split; [vm_compute; lia|vm_compute; congruence]. Qed.

(** A second flow of the guest. *)
Definition query2 : list Z := udp guest server 5001 53.

(** Egress of the production program, and the garbage collector. *)
Definition send (now : Z) (pkt : list Z) (s : State) : EgressVerdict * list Z * State := forward_decision_v4 cfg tap (port guest) now pkt s.
Definition collect (now : Z) (s : State) : State := set_ct (sweep now (conntrack s)) s.

(** The flow is alive: a packet at 0, an answer at 20 seconds, a packet at 25. *)
Definition alive : State := (send (25 * SEC) query (process_uplink_rx cfg (from_fabric (20 * SEC)) answer (send 0 query init).2).2).2.

Definition swept : State := collect (31 * SEC) alive.

(** The source port a frame leaves with. *)
Definition left_as (r : EgressVerdict * list Z * State) : option Z := (fun k => src_port k) <$> ct_key r.1.2 ETH_LEN vpc.
End nat_example.

Import nat_example sample.

Lemma nat_run_consistent_witness : rtc (aged_step bindings) init after_query ∧ nat_wf bindings (conntrack after_query) ∧ is_Some (conntrack after_query !! flow).
Proof.
  split; [exact query_reached|]. split; [|vm_compute; by eexists].
  apply (nat_run_consistent bindings after_query bindings_ok query_reached).
Defined.

Lemma nat_round_trip_witness :
  ∃ port, port_min binding ≤ port < port_max binding ∧
    ∀ s2 c' in' r iv, rtc (step bindings) after_query s2 → inbound bindings c' in' r flow binding port iv →
      ∃ q', process_uplink_rx c' in' r s2 = (mkUpOut (redirected iv) None, q', s2) ∧ ct_key q' ETH_LEN vpc = Some (invert_key flow).
Proof.
  destruct (nat_round_trip bindings init cfg (from_guest 0) query flow binding
    (process_guest_tx cfg (from_guest 0) query init).1.1 (process_guest_tx cfg (from_guest 0) query init).1.2 after_query) as (port & Hp & _ & _ & Hret).
  - exact bindings_ok.
  - apply rtc_refl.
  - exact query_outbound.
  - reflexivity.
  - apply surjective_triple.
  - vm_compute. discriminate.
  - exists port. split; [exact Hp|]. intros s2 c' in' r iv Hr Hin. destruct (Hret s2 c' in' r iv Hr Hin) as (q' & H1 & _ & H2). exists q'. split; [exact H1|exact H2].
Defined.

Lemma established_rewrite_agrees_witness :
  ∃ q e, conntrack after_query !! flow = Some e ∧ ct_apply query ETH_LEN e = (q, true) ∧
    snat_egress bindings query (conntrack after_query) ETH_LEN vpc true 0 1 = (Continue, q, conntrack after_query).
Proof.
  destruct (established_rewrite_agrees bindings (conntrack after_query) query vpc flow (mkCtEntry 0 public 1000 5 0 0 1) binding 0 1) as (q & H1 & H2).
  - exact bindings_ok.
  - exact (proj1 (aged_run_ok bindings bindings_ok init after_query (init_ok bindings) query_reached)).
  - vm_compute. reflexivity.
  - vm_compute. reflexivity.
  - vm_compute. congruence.
  - vm_compute. by eexists.
  - split; [vm_compute; reflexivity|]. split; [vm_compute; reflexivity|]. intros [H _]. vm_compute in H. discriminate.
  - apply lookup_singleton_eq.
  - exists q, (mkCtEntry 0 public 1000 5 0 0 1). split; [vm_compute; reflexivity|]. split; [exact H1|exact H2].
Defined.

(** ** A reverse entry does not outlive thirty seconds

    Nothing refreshes it: the return path reads it, egress refreshes the forward
    entry. *)

(** Code defect.  A flow with traffic in both directions within the last eleven
    seconds loses its replies once the collector runs at 31 seconds; its packets
    still leave under port 1000; and the next flow of the guest is given port 1000 as
    well, so that the replies to the first flow are delivered to the second. *)
Theorem nat_return_expires :
  up_action (process_uplink_rx cfg (from_fabric (30 * SEC)) answer alive).1.1 = Redirect tap ∧
  up_action (process_uplink_rx cfg (from_fabric (31 * SEC)) answer swept).1.1 = Drop ∧
  left_as (send (31 * SEC) query swept) = Some 1000 ∧
  left_as (send (31 * SEC) query2 swept) = Some 1000 ∧
  left_as (send (32 * SEC) query (send (31 * SEC) query2 swept).2) = Some 1000 ∧
  ct_key (process_uplink_rx cfg (from_fabric (33 * SEC)) answer (send (31 * SEC) query2 swept).2).1.2 ETH_LEN vpc = Some (mkCtKey vpc server guest 53 5001 17).
Proof. split_and!; vm_compute; reflexivity. Qed.
