(* ===== verification/Stateful.v ===== *)
(** * The stateful firewall

    Established flows skip the policy.  Over a run of the node from empty tables this
    is sound: a flow is in the table only because a policy accepted one of its
    packets, or a packet it replies to, or the packet it was rewritten from
    ([legit]); or because NAT64, which asks no policy, opened it ([unasked]); or because a
    guest sent from 0.0.0.0, port 0, which is the key of a reverse NAT entry ([forged]).
    So nothing else passes, out of a guest or into one; a flow the policy no longer
    accepts is refused, and forgotten, on the next packet of the direction that opened
    it. *)

From S2P Require Import Prelude FwClass FwClassFacts Packet PacketFacts Conntrack Nat Nat64 Checksum Meter Datapath NatTable NatTrace Sample.
Import fwclass packet conntrack nat nat64 meter datapath.

Open Scope Z_scope.

(** ** Histories *)

Section history.
Context {lp : Lpm}.

(** What a node did, last first, each event with the state it met, under the policies and
    NAT bindings of its moment; the aging sweep may run at any moment. *)
Inductive history : list (event * State) → State → Prop :=
| hist_init : history [] init
| hist_sweep h s now : history h s → history h (set_ct (sweep now (conntrack s)) s)
| hist_event h s nt ev : history h s → nats_ok nt → event_ok nt false ev → history ((ev, s) :: h) (exec ev s).

(** A policy accepts the packet of the event, of flow [k]: its own, on the way out of
    a guest; its interface's, on the way in. *)
Definition admits (ev : event) (k : CtKey) : Prop :=
  match ev with
  | EvGuest c in_ pkt => ct_key pkt ETH_LEN (pm_vni (meta in_)) = Some k ∧ fw_classify pkt (fw c) ETH_LEN (src_ifindex in_) FW_DIR_EGRESS ≠ FW_ACTION_DROP
  | EvForward c ifindex m _ pkt => ct_key pkt ETH_LEN (pm_vni m) = Some k ∧ fw_classify pkt (fw c) ETH_LEN ifindex FW_DIR_EGRESS ≠ FW_ACTION_DROP
  | EvUplink c in_ pkt => accepted_in c in_ pkt k
  | _ => False
  end.

(** NAT64 opens flow [k]; it asks no policy. *)
Definition nat64_opens (ev : event) (k : CtKey) : Prop :=
  match ev with EvNat64 _ m _ pkt => nat64_flow pkt ETH_LEN (pm_vni m) (pm_guest_ipv4 m) = Some k | _ => False end.

(** A guest sends from 0.0.0.0, port 0, and meets a reverse NAT entry: no policy is asked
    either. *)
Definition forges (ev : event) (s : State) (k : CtKey) : Prop :=
  match ev with
  | EvGuest _ in_ pkt => ct_key pkt ETH_LEN (pm_vni (meta in_)) = Some k ∧ is_rev_key k ∧ is_Some (conntrack s !! k)
  | EvForward _ _ m _ pkt => ct_key pkt ETH_LEN (pm_vni m) = Some k ∧ is_rev_key k ∧ is_Some (conntrack s !! k)
  | _ => False
  end.

(** The event rewrites a packet of flow [k] to one of flow [k']. *)
Definition rewrites (ev : event) (s : State) (k k' : CtKey) : Prop :=
  match ev with
  | EvGuest c in_ pkt => ct_key pkt ETH_LEN (pm_vni (meta in_)) = Some k ∧ ct_key (process_guest_tx c in_ pkt s).1.2 ETH_LEN (pm_vni (meta in_)) = Some k'
  | EvForward c ifindex m now pkt => ct_key pkt ETH_LEN (pm_vni m) = Some k ∧
      (ct_key (forward_decision_v4 c ifindex m now pkt s).1.2 ETH_LEN (pm_vni m) = Some k' ∨
       ∃ mid, forward_mid c ifindex m now pkt s = Some mid ∧ ct_key mid ETH_LEN (pm_vni m) = Some k')
  | _ => False
  end.

(** The flows that go back to an event with [origin]: its own, their replies, and those
    their packets are rewritten to. *)
Inductive flow_of (origin : event → State → CtKey → Prop) (h : list (event * State)) : CtKey → Prop :=
| fo_origin ev s k : (ev, s) ∈ h → origin ev s k → flow_of origin h k
| fo_reply k : flow_of origin h k → flow_of origin h (invert_key k)
| fo_rewritten ev s k k' : (ev, s) ∈ h → rewrites ev s k k' → flow_of origin h k → flow_of origin h k'.

(** A policy accepted the flow; NAT64 opened it; a packet from 0.0.0.0 did. *)
Definition legit : list (event * State) → CtKey → Prop := flow_of (λ ev _, admits ev).
Definition unasked : list (event * State) → CtKey → Prop := flow_of (λ ev _, nat64_opens ev).
Definition forged : list (event * State) → CtKey → Prop := flow_of forges.
Definition tracked : list (event * State) → CtKey → Prop := flow_of (λ ev s k, admits ev k ∨ nat64_opens ev k ∨ forges ev s k).

Lemma tracked_split h k : tracked h k → legit h k ∨ unasked h k ∨ forged h k.
Proof.
  unfold tracked, legit, unasked, forged. induction 1 as [ev s k Hin [Ho|[Ho|Ho]]|k _ [IH|[IH|IH]]|ev s k k' Hin Hr _ [IH|[IH|IH]]].
  1,4,7: left. 4,6,8: right; left. 7-9: right; right.
  all: first [by eapply fo_origin|by apply fo_reply|by eapply fo_rewritten].
Qed.

Lemma tracked_cons h x k : tracked h k → tracked (x :: h) k.
Proof. induction 1; [eapply fo_origin; [by apply list_elem_of_further|done]|by apply fo_reply|eapply fo_rewritten; [by apply list_elem_of_further|done|done]]. Qed.

(** ** The flows the table holds *)

Definition holds_only (Q : CtKey → Prop) (ct : Conntrack) : Prop := ∀ k, is_Some (ct !! k) → ¬ is_rev_key k → Q k.

Lemma ct_op_only nt (Q : CtKey → Prop) ct ct' : (∀ k, Q k → Q (invert_key k)) → nats_ok nt → ct_op nt false Q ct ct' → holds_only Q ct → holds_only Q ct'.
Proof.
  intros Hinv Hnt [ct0 key e e' He _|ct0 fl key now epoch HP Hn|ct0 key _|ct0 fwd n port er ef HP Hal _ _] Hq k [x Hx] Hk.
  - apply lookup_insert_Some in Hx as [[<- _]|[_ Hx]]; eauto.
  - unfold insert_default in Hx. destruct (<[key := _]> ct0 !! invert_key key); [|apply lookup_insert_Some in Hx as [[<- _]|[_ Hx]]; [by apply Hinv|]];
      apply lookup_insert_Some in Hx as [[<- _]|[_ Hx]]; eauto.
  - apply forget_lookup in Hx as [Hx _]. eauto.
  - apply lookup_insert_Some in Hx as [[<- _]|[_ Hx]]; [done|]. apply lookup_insert_Some in Hx as [[<- _]|[_ Hx]]; [|eauto].
    destruct Hk. apply rev_key_is_rev. apply (Hnt _ _ (al_nat _ _ _ _ _ _ Hal)).
Qed.

Lemma ct_ops_only nt (Q : CtKey → Prop) ct ct' : (∀ k, Q k → Q (invert_key k)) → nats_ok nt → rtc (ct_op nt false Q) ct ct' → holds_only Q ct → holds_only Q ct'.
Proof. intros Hinv Hnt. induction 1; [done|]. eauto using ct_op_only. Qed.

(** Whether a guest's packet met the policy, and what if not. *)
Definition bare_syn (pkt : list Z) : bool := match tcp_flags pkt ETH_LEN with Some f => Z.land f (Z.lor TCP_SYN TCP_ACK) =? TCP_SYN | None => false end.

Lemma no_recheck pkt e epoch : ct_hit_recheck pkt ETH_LEN e epoch = false → bare_syn pkt = false ∧ (has e (Z.lor CT_F_REPLY CT_REWRITE_DST) = true ∨ policy_epoch e = epoch).
Proof.
  unfold ct_hit_recheck, ct_needs_recheck, bare_syn. intros H. apply orb_false_iff in H as [-> H]. split; [done|]. apply andb_false_iff in H as [H|H]; [left; by apply negb_false_iff|right].
  by apply negb_false_iff, Z.eqb_eq in H.
Qed.

Lemma guest_admit_inv c in_ pkt s b s1 :
  guest_admit c in_ pkt s = (Some b, s1) → ∃ k, ct_key pkt ETH_LEN (pm_vni (meta in_)) = Some k ∧
    (fw_classify pkt (fw c) ETH_LEN (src_ifindex in_) FW_DIR_EGRESS ≠ FW_ACTION_DROP ∨ (is_Some (conntrack s !! k) ∧ bare_syn pkt = false)).
Proof.
  unfold guest_admit. destruct (ct_key pkt ETH_LEN _) as [k|]; [|done]. intros H. exists k. split; [done|].
  destruct (match conntrack s !! k with Some _ => _ | None => _ end) eqn:Er; cbn [negb] in H.
  - left. destruct (Z.eqb_spec (fw_classify pkt (fw c) ETH_LEN (src_ifindex in_) FW_DIR_EGRESS) FW_ACTION_DROP); done.
  - right. destruct (conntrack s !! k) as [e|]; [|done]. split; [by eexists|]. by apply no_recheck in Er as [? _].
Qed.

Lemma forward_admit_inv c ifindex m now pkt s b q s1 :
  (34 ≤ length pkt)%nat → forward_admit c ifindex m now pkt s = (Some b, q, s1) → ∃ k, ct_key pkt ETH_LEN (pm_vni m) = Some k ∧
    (fw_classify pkt (fw c) ETH_LEN ifindex FW_DIR_EGRESS ≠ FW_ACTION_DROP ∨ (is_Some (conntrack s !! k) ∧ bare_syn pkt = false)).
Proof.
  intros Hl. unfold forward_admit. destruct (ct_key pkt ETH_LEN _) as [k|] eqn:Ek.
  2:{ unfold ct_key in Ek. rewrite !read_array_Some in Ek by (unfold ETH_LEN; lia). cbn [mbind option_bind] in Ek. by destruct (default _ _) as [[? ?] ?]. }
  intros H. exists k. split; [done|]. destruct (match conntrack s !! k with Some _ => _ | None => _ end) eqn:Er; cbn [andb] in H.
  - left. destruct (Z.eqb_spec (fw_classify pkt (fw c) ETH_LEN ifindex FW_DIR_EGRESS) FW_ACTION_DROP); done.
  - right. destruct (conntrack s !! k) as [e|]; [|done]. split; [by eexists|]. by apply no_recheck in Er as [? _].
Qed.

Lemma forward_mid_admit c ifindex m now pkt s mid : forward_mid c ifindex m now pkt s = Some mid → ∃ b q s1, forward_admit c ifindex m now pkt s = (Some b, q, s1).
Proof. unfold forward_mid. destruct (forward_admit c ifindex m now pkt s) as [[[b|] q] s1]; [eauto|done]. Qed.

Lemma enters_tracked nt h s ev : holds_only (tracked h) (conntrack s) → event_ok nt false ev → enters ev s (tracked ((ev, s) :: h)).
Proof.
  intros Ho Hev. assert (Hin : (ev, s) ∈ (ev, s) :: h) by set_solver.
  destruct ev as [c in_ pkt|c ifindex m now pkt|c in_ pkt|c m l pkt|c in_ pkt|c in_ pkt|pkt v lb_ip4 now]; cbn [enters event_ok] in *; try done.
  - intros b s1 k' Ha Hk'. destruct (guest_admit_inv _ _ _ _ _ _ Ha) as (k & Hk & Hacc).
    assert (Hl : tracked ((EvGuest c in_ pkt, s) :: h) k).
    { destruct Hacc as [Hacc|[Hhit _]]; [by apply (fo_origin _ _ (EvGuest c in_ pkt) s); [|left]|]. destruct (decide (is_rev_key k)); [by apply (fo_origin _ _ (EvGuest c in_ pkt) s); [|right; right]|]. by apply tracked_cons, Ho. }
    destruct Hk' as [Hk'|Hk']; [congruence|]. by apply (fo_rewritten _ _ (EvGuest c in_ pkt) s k).
  - intros mid k' Hm Hk'. destruct (forward_mid_admit _ _ _ _ _ _ _ Hm) as (b & q & s1 & Ha). destruct (forward_admit_inv _ _ _ _ _ _ _ _ _ (proj2 (proj2 Hev)) Ha) as (k & Hk & Hacc).
    assert (Hl : tracked ((EvForward c ifindex m now pkt, s) :: h) k).
    { destruct Hacc as [Hacc|[Hhit _]]; [by apply (fo_origin _ _ (EvForward c ifindex m now pkt) s); [|left]|]. destruct (decide (is_rev_key k)); [by apply (fo_origin _ _ (EvForward c ifindex m now pkt) s); [|right; right]|]. by apply tracked_cons, Ho. }
    apply (fo_rewritten _ _ (EvForward c ifindex m now pkt) s k); [done| |done]. split; [done|]. destruct Hk' as [Hk'|Hk']; eauto.
  - intros k Hk. by apply (fo_origin _ _ (EvNat64 c m l pkt) s); [|right; left].
  - intros k Hk. by apply (fo_origin _ _ (EvUplink c in_ pkt) s); [|left].
Qed.

(** What a reverse entry leads to is a flow of a guest. *)
Definition returns (Q : CtKey → Prop) (ct : Conntrack) : Prop := ∀ k r, ct !! k = Some r → has r CT_REWRITE_DST = true →
  ∃ fwd, Q fwd ∧ vni fwd = vni k ∧ proto fwd = proto k ∧ src_ip fwd = xlate_ip r ∧ src_port fwd = xlate_port r.

Lemma ct_op_returns nt (Q : CtKey → Prop) ct ct' : ct_op nt false Q ct ct' → returns Q ct → returns Q ct'.
Proof.
  intros [ct0 key e e' He Hs|ct0 fl key now epoch HP Hn|ct0 key _|ct0 fwd n port er ef HP Hal _ _] Hq k r Hr Hd.
  - apply lookup_insert_Some in Hr as [[<- <-]|[_ Hr]]; [|eauto]. rewrite (same_xlate_has _ _ _ Hs) in Hd. destruct (Hq _ _ He Hd) as (fwd & ? & ? & ? & ? & ?).
    destruct Hs as (-> & -> & _). eauto 10.
  - destruct (insert_default_lookup _ _ _ _ _ _ _ Hn Hr) as [?|(_ & _ & _ & ?)]; [eauto|congruence].
  - apply forget_lookup in Hr as [Hr _]. eauto.
  - apply lookup_insert_Some in Hr as [[<- <-]|[_ Hr]]; [pose proof (proj1 (al_fwd _ _ _ _ _ _ Hal)); congruence|]. apply lookup_insert_Some in Hr as [[<- <-]|[_ Hr]]; [|eauto].
    destruct (al_rev _ _ _ _ _ _ Hal) as (_ & _ & _ & Hx & Hp). exists fwd. done.
Qed.

Lemma ct_ops_returns nt (Q : CtKey → Prop) ct ct' : rtc (ct_op nt false Q) ct ct' → returns Q ct → returns Q ct'.
Proof. induction 1; [done|]. eauto using ct_op_returns. Qed.

Lemma history_ok h s : history h s → (src_ok (conntrack s) ∧ dsr_ok s) ∧ holds_only (tracked h) (conntrack s) ∧ returns (tracked h) (conntrack s).
Proof.
  induction 1 as [|h s now _ ([Hs Hd] & Ho & Hr)|h s nt ev _ ([Hs Hd] & Ho & Hr) Hnt Hev].
  { split; [split; [intros k x Hx|intros k x Hx]|split; [intros k [x Hx]|intros k x Hx]]; cbn in Hx; by rewrite lookup_empty in Hx. }
  { split; [split; [|done]|split]; cbn [conntrack set_ct].
    - intros k x Hx. apply sweep_lookup in Hx. by eapply Hs.
    - intros k [x Hx]. apply sweep_lookup in Hx. apply Ho. by eexists.
    - intros k x Hx. apply sweep_lookup in Hx. by eapply Hr. }
  destruct (exec_tracks nt Hnt false (tracked ((ev, s) :: h)) ev s Hs Hd Hev (enters_tracked _ _ _ _ Ho Hev)) as [Hops Hd']. split_and!; [|done|..].
  - by eapply (src_ok_ops nt Hnt).
  - eapply ct_ops_only; [intros k; apply fo_reply|exact Hnt|exact Hops|]. intros k Hk Hk'. apply tracked_cons. by apply Ho.
  - eapply ct_ops_returns; [exact Hops|]. intros k r Hk Hx. destruct (Hr k r Hk Hx) as (fwd & ? & ?). exists fwd. split; [by apply tracked_cons|done].
Qed.

(** ** In *)

Lemma uplink_firewall_inv c pkt v tap s ep s' :
  uplink_ingress_firewall c pkt v tap s = (Some ep, s') → ∃ k, ct_key pkt ETH_LEN v = Some k ∧
    (fw_classify pkt (fw c) ETH_LEN tap FW_DIR_INGRESS ≠ FW_ACTION_DROP ∨ (is_Some (conntrack s !! k) ∧ bare_syn pkt = false)).
Proof.
  unfold uplink_ingress_firewall. destruct (ct_key pkt ETH_LEN v) as [k|]; [|done]. intros H. exists k. split; [done|]. destruct (conntrack s !! k) as [e|].
  - destruct (ct_hit_recheck pkt ETH_LEN e (fw_epoch c)) eqn:Er; cbn [andb] in H.
    + left. destruct (Z.eqb_spec (fw_classify pkt (fw c) ETH_LEN tap FW_DIR_INGRESS) FW_ACTION_DROP); done.
    + right. split; [by eexists|]. by apply no_recheck in Er as [? _].
  - cbn [andb] in H. left. destruct (Z.eqb_spec (fw_classify pkt (fw c) ETH_LEN tap FW_DIR_INGRESS) FW_ACTION_DROP); done.
Qed.

(** The action delivers to an interface. *)
Definition delivers (a : Action) (t : Z) : Prop := a = Redirect t ∨ a = RedirectPeer t.

Definition is_relay (c : Config) (in_ : UplinkIn) (pkt : list Z) : bool := match lb_select_forward_icmp_error c pkt ETH_LEN (up_vni in_) with Some _ => true | None => false end.

(** The backend a packet of the fabric is for. *)
Definition lb_choice (c : Config) (in_ : UplinkIn) (pkt : list Z) : option LbBackend :=
  match lb_select_forward_icmp_error c pkt ETH_LEN (up_vni in_) with Some b => Some b | None => lb_select_forward c pkt ETH_LEN (up_vni in_) end.

Lemma process_uplink_inv c in_ pkt s out q s' t :
  process_uplink c in_ pkt s = (out, q, s') → up_tunnel out = None → delivers (up_action out) t →
  is_relay c in_ pkt = true ∨ ∃ mac is_lb peer q1 k, uplink_target c in_ pkt (lb_choice c in_ pkt) = (inr (t, mac, is_lb, peer), q1) ∧ ct_key q1 ETH_LEN (up_vni in_) = Some k ∧
    (fw_classify q1 (fw c) ETH_LEN t FW_DIR_INGRESS ≠ FW_ACTION_DROP ∨ (is_Some (conntrack s !! k) ∧ bare_syn q1 = false)).
Proof.
  unfold process_uplink. fold (is_relay c in_ pkt). fold (lb_choice c in_ pkt). intros Hg Htun Ha. destruct (is_relay c in_ pkt) eqn:Erel; [by left|right].
  destruct (uplink_target _ _ _ _) as [[o|[[[tap mac] is_lb] peer]] q1] eqn:Et.
  { injection Hg as <- _ _. exfalso. revert Et Htun Ha. unfold uplink_target. repeat (case_match; simplify_eq); intros; simplify_eq; destruct Ha as [Ha|Ha]; cbn in *; try done.
    all: unfold edge_local_deliver in *; repeat (case_match; simplify_eq). }
  destruct (uplink_ingress_firewall c q1 (up_vni in_) tap s) as [[ep|] s1] eqn:Ef; [|injection Hg as <- _ _; by destruct Ha].
  destruct (uplink_firewall_inv _ _ _ _ _ _ _ Ef) as (k & Hk & Hacc). unfold decap_and_rewrite in Hg. destruct (write_eth _ _ q1) as [q2|]; cbn [mbind option_bind] in Hg; [|injection Hg as <- _ _; by destruct Ha].
  destruct (ingress_pass _ _ _ _) as [mt pass]. injection Hg as <- _ _. cbn in Ha. exists mac, is_lb, peer, q1, k. split_and!; [|done|].
  - do 3 f_equal. destruct pass, peer; destruct Ha as [Ha|Ha]; congruence.
  - assert (tap = t) as <- by (destruct pass, peer; destruct Ha as [Ha|Ha]; congruence). done.
Qed.

End history.

(** ** The claims *)

(** C5. Out of a guest.  Take any history of the node from empty tables, under policies,
    NAT bindings and routes that change at will, whenever its aging sweep runs.  An IPv4
    packet of a guest that the datapath does not drop, in the core or (a frame of at least
    34 bytes) in the production program, is one the egress policy of its interface
    accepts; or it does not open a TCP connection and belongs to a flow that was let in:
    one that goes back, through replies and rewrites, to a packet a policy accepted, or to
    one of the two kinds no policy is asked about, a NAT64 packet and a packet from
    0.0.0.0, port 0, that meets a reverse NAT entry, or it is itself of the latter kind. *)
Theorem egress_firewalled {lp : Lpm} h s nt ev :
  history h s → event_ok nt false ev →
  let let_in k pkt := bare_syn pkt = false ∧ (legit h k ∨ unasked h k ∨ forged h k ∨ forges ev s k) in
  match ev with
  | EvGuest c in_ pkt => action (process_guest_tx c in_ pkt s).1.1 ≠ Drop →
      ∃ k, ct_key pkt ETH_LEN (pm_vni (meta in_)) = Some k ∧ (fw_classify pkt (fw c) ETH_LEN (src_ifindex in_) FW_DIR_EGRESS ≠ FW_ACTION_DROP ∨ let_in k pkt)
  | EvForward c ifindex m now pkt => (forward_decision_v4 c ifindex m now pkt s).1.1 ≠ EDrop →
      ∃ k, ct_key pkt ETH_LEN (pm_vni m) = Some k ∧ (fw_classify pkt (fw c) ETH_LEN ifindex FW_DIR_EGRESS ≠ FW_ACTION_DROP ∨ let_in k pkt)
  | _ => True
  end.
Proof.
  intros Hh Hev. destruct (history_ok h s Hh) as (_ & Ho & _).
  assert (Hin : ∀ k, is_Some (conntrack s !! k) → ¬ is_rev_key k → legit h k ∨ unasked h k ∨ forged h k) by (intros k Hk Hr; by apply tracked_split, Ho).
  destruct ev as [c in_ pkt|c ifindex m now pkt| | | | |]; try done; intros let_in Hd.
  - revert Hd. unfold process_guest_tx. destruct (guest_admit c in_ pkt s) as [[b|] s1] eqn:Ea; [intros _|done].
    destruct (guest_admit_inv _ _ _ _ _ _ Ea) as (k & Hk & Hacc). exists k. split; [done|]. destruct Hacc as [?|[Hhit ?]]; [by left|right]. split; [done|].
    destruct (decide (is_rev_key k)); [by do 3 right|]. destruct (Hin k) as [?|[?|?]]; auto.
  - revert Hd. unfold forward_decision_v4. destruct (forward_admit c ifindex m now pkt s) as [[[b|] q] s1] eqn:Ea; [intros _|done].
    destruct (forward_admit_inv _ _ _ _ _ _ _ _ _ (proj2 (proj2 Hev)) Ea) as (k & Hk & Hacc). exists k. split; [done|]. destruct Hacc as [?|[Hhit ?]]; [by left|right]. split; [done|].
    destruct (decide (is_rev_key k)); [by do 3 right|]. destruct (Hin k) as [?|[?|?]]; auto.
Qed.

(** C7. Into a guest.  Take any history as before.  An IPv4 packet of the fabric that is
    delivered to an interface is one of these: a packet the ingress policy of the
    interface accepts, as it stands after a floating address is replaced; a packet that
    opens no TCP connection and belongs to a flow that was let in, or comes from 0.0.0.0,
    port 0, and meets a reverse NAT entry; a packet to a NAT port that leads back to a
    flow that was let in; an ICMP error about a balanced flow.  A flow was let in if it
    goes back, through replies and rewrites, to a packet a policy accepted, or to one no
    policy is asked about: a NAT64 packet, or a guest's packet from 0.0.0.0, port 0. *)
Theorem ingress_firewalled {lp : Lpm} h s c in_ pkt t :
  history h s → up_tunnel (process_uplink_rx c in_ pkt s).1.1 = None → delivers (up_action (process_uplink_rx c in_ pkt s).1.1) t →
  let let_in k := legit h k ∨ unasked h k ∨ forged h k in
  (∃ mac is_lb peer q k, uplink_target c in_ pkt (lb_choice c in_ pkt) = (inr (t, mac, is_lb, peer), q) ∧ ct_key q ETH_LEN (up_vni in_) = Some k ∧
     (fw_classify q (fw c) ETH_LEN t FW_DIR_INGRESS ≠ FW_ACTION_DROP ∨
      (bare_syn q = false ∧ (let_in k ∨ is_rev_key k ∧ is_Some (conntrack s !! k))))) ∨
  (∃ k b r fwd, nat_return_key c pkt (up_vni in_) = Some (k, b) ∧ conntrack s !! k = Some r ∧ let_in fwd ∧
     vni fwd = vni k ∧ proto fwd = proto k ∧ src_ip fwd = xlate_ip r ∧ src_port fwd = xlate_port r) ∨
  is_relay c in_ pkt = true.
Proof.
  intros Hh. destruct (history_ok h s Hh) as (_ & Ho & Hret). unfold process_uplink_rx.
  destruct (match lb_select_forward _ _ _ _ with Some _ => _ | None => _ end) as [[key e]|] eqn:Er.
  - intros _ _. right. left. destruct (lb_select_forward _ _ _ _); [done|]. apply bind_Some in Er as ([k b] & Hk & Er). apply bind_Some in Er as (r & Hr & Er).
    destruct (has r CT_REWRITE_DST) eqn:Ed; [|done]. destruct (Hret _ _ Hr Ed) as (fwd & ?%tracked_split & ? & ? & ? & ?). exists k, b, r, fwd. done.
  - intros Htun Ha. destruct (process_uplink c in_ pkt s) as [[out q] s'] eqn:Eu. destruct (process_uplink_inv _ _ _ _ _ _ _ _ Eu Htun Ha) as [?|(mac & is_lb & peer & q1 & k & Ht & Hk & Hacc)]; [by auto|].
    left. exists mac, is_lb, peer, q1, k. split_and!; [done|done|]. destruct Hacc as [?|[Hhit ?]]; [by left|right]. split; [done|].
    destruct (decide (is_rev_key k)); [by right|left]. by apply tracked_split, Ho.
Qed.

Lemma forget_both k (ct : Conntrack) : k ≠ invert_key k → forget k ct !! k = None ∧
  ∀ r, forget k ct !! invert_key k = Some r → ct !! invert_key k = Some r ∧ flags r ≠ Z.lor CT_F_DEFAULT CT_F_REPLY.
Proof.
  intros Hne. split; [destruct (forget k ct !! k) eqn:E; [|done]; by apply forget_lookup in E as [_ ?]|].
  intros r. unfold forget. rewrite lookup_delete_ne by done. destruct (ct !! invert_key k) as [e|] eqn:E; [|by rewrite lookup_delete_ne, E by done].
  destruct (Z.eqb_spec (flags e) (Z.lor CT_F_DEFAULT CT_F_REPLY)); [by rewrite lookup_delete_eq|]. rewrite lookup_delete_ne, E by done. by intros [= <-].
Qed.

(** C29. A policy change reaches established flows.  When the table holds a flow entered
    under another policy epoch, and the present policy refuses the next packet of the
    direction that opened it, then the packet is dropped and the flow is forgotten: out of
    a guest, in the core and in the production program, and into a guest, from the fabric.
    With the flow goes the entry for its replies, where it was made with the flow, so that
    they too meet the policy.  Until then they do not: a packet that hits the entry for
    replies, or a reverse NAT entry, passes whatever the policy and its epoch, unless it
    opens a TCP connection. *)
Theorem revoked_flow_dropped {lp : Lpm} c k e s :
  conntrack s !! k = Some e → k ≠ invert_key k →
  let forgotten s' := conntrack s' !! k = None ∧ ∀ r, conntrack s' !! invert_key k = Some r → conntrack s !! invert_key k = Some r ∧ flags r ≠ Z.lor CT_F_DEFAULT CT_F_REPLY in
  (has e (Z.lor CT_F_REPLY CT_REWRITE_DST) = false → policy_epoch e ≠ fw_epoch c →
    (∀ ifindex m now pkt, ct_key pkt ETH_LEN (pm_vni m) = Some k → fw_classify pkt (fw c) ETH_LEN ifindex FW_DIR_EGRESS = FW_ACTION_DROP →
      (∃ s', process_guest_tx c (mkTxIn m ifindex now) pkt s = (drop_out, pkt, s') ∧ forgotten s') ∧
      (∃ s', forward_decision_v4 c ifindex m now pkt s = (EDrop, pkt, s') ∧ forgotten s')) ∧
    (∀ in_ pkt t mac is_lb peer q, is_relay c in_ pkt = false → uplink_target c in_ pkt (lb_choice c in_ pkt) = (inr (t, mac, is_lb, peer), q) →
      ct_key q ETH_LEN (up_vni in_) = Some k → fw_classify q (fw c) ETH_LEN t FW_DIR_INGRESS = FW_ACTION_DROP →
      ∃ s', process_uplink c in_ pkt s = (mkUpOut Drop None, q, s') ∧ forgotten s')) ∧
  (has e (Z.lor CT_F_REPLY CT_REWRITE_DST) = true → ∀ in_ pkt, ct_key pkt ETH_LEN (pm_vni (meta in_)) = Some k → bare_syn pkt = false →
    guest_admit c in_ pkt s = (Some false, s)).
Proof.
  intros He Hne forgotten. split.
  - intros Hr Hep. assert (Hre : ∀ pkt, ct_hit_recheck pkt ETH_LEN e (fw_epoch c) = true).
    { intros pkt. unfold ct_hit_recheck, ct_needs_recheck. rewrite Hr. apply Z.eqb_neq in Hep. rewrite Hep. apply orb_true_r. }
    assert (Hfg : ∀ pkt v, ct_key pkt ETH_LEN v = Some k → forgotten (set_ct (ct_forget_default pkt ETH_LEN v (conntrack s)) s)).
    { intros pkt v Hk. unfold forgotten, ct_forget_default. cbn [conntrack set_ct]. rewrite Hk. by apply forget_both. }
    split; [intros ifindex m now pkt Hk Hfw; split; (eexists; split; [|by apply (Hfg pkt (pm_vni m))])|intros in_ pkt t mac is_lb peer q Hrel Ht Hk Hfw; eexists; split; [|by apply (Hfg q (up_vni in_))]].
    + unfold process_guest_tx, guest_admit. cbn [meta src_ifindex]. by rewrite Hk, He, Hre, Hfw.
    + unfold forward_decision_v4, forward_admit. by rewrite Hk, He, Hre, Hfw.
    + unfold process_uplink. fold (is_relay c in_ pkt). fold (lb_choice c in_ pkt). rewrite Hrel, Ht. unfold uplink_ingress_firewall. by rewrite Hk, He, Hre, Hfw.
  - intros Hr in_ pkt Hk Hs. unfold guest_admit. rewrite Hk, He. unfold ct_hit_recheck, ct_needs_recheck. rewrite Hr. unfold bare_syn in Hs. by rewrite Hs.
Qed.

(** ** The sample node *)

Module stateful_example.
Import sample.

Lemma no_bindings_ok : nats_ok bindings.
Proof.
  intros k n. unfold bindings. rewrite lookup_singleton_Some. intros [<- <-]. split; [done|]. split_and!; try done. repeat constructor; lia.
Qed.

Lemma sample_cfg_ok : cfg_ok bindings cfg.
Proof.
  split; [done|intros k g; cbn; by rewrite lookup_empty|]. intros k iv. cbn. rewrite lookup_insert_Some, lookup_singleton_Some.
  intros [[_ <-]|[_ [_ <-]]]; (split; [done|repeat constructor; lia]).
Qed.

(** The same node, whose policy refuses everything, two epochs later. *)
Definition deny_all : FwMaps := mkFwMaps (λ _, None) (λ _, None).

Definition with_policy (f : FwMaps) (epoch : Z) (c : Config) : Config :=
  mkConfig (local c) (underlay_map c) (lb c) (lb6 c) (maglev c) (nats c) (nat_ips c) (nat_owners c) (nats6 c) (nat_ips6 c) (nat_owners6 c)
    (routes c) (routes6 c) (port_meta c) (ifaces c) (ifaces6 c) (floating_ips c) f epoch.

Definition closed : Config := with_policy deny_all 3 cfg.

(** A connection between the two guests: it is opened, answered, and goes on. *)
Definition syn : list Z := tcp guest guest2 4000 80 2.
Definition syn_ack : list Z := tcp guest2 guest 80 4000 18.
Definition ack : list Z := tcp guest guest2 4000 80 16.
Definition from_guest2 (now : Z) : GuestTxIn := mkTxIn (port guest2) tap2 now.
Definition opened : State := exec (EvGuest cfg (from_guest 0) syn) init.
Definition flow12 : CtKey := mkCtKey vpc guest guest2 4000 80 6.

Lemma syn_ok : event_ok bindings false (EvGuest cfg (from_guest 0) syn).
Proof. split; [apply sample_cfg_ok|done]. Qed.

Lemma opened_history : history [(EvGuest cfg (from_guest 0) syn, init)] opened.
Proof. apply (hist_event _ _ bindings); [apply hist_init|apply no_bindings_ok|apply syn_ok]. Qed.

Lemma closed_ok : cfg_ok bindings closed.
Proof. split; [done|apply sample_cfg_ok|apply sample_cfg_ok]. Qed.

(** Its reply, from the fabric, under a policy that refuses everything. *)
Definition back : list Z := tcp guest2 guest 80 4000 18.

(** A packet of the guest to the NAT64 prefix, and its opposite without it. *)
Definition eth6 : list Z := mac ++ GW_MAC ++ [134; 221].
Definition tcp6 (dst : list Z) : list Z :=
  eth6 ++ [96; 0; 0; 0; 0; 20; 6; 64] ++ pm_guest_ipv6 (port guest) ++ dst ++ be16 4000 ++ be16 443 ++ [0; 0; 0; 1; 0; 0; 0; 0; 80; 2; 16; 0; 0; 0; 0; 0].
Definition to_nat64 : list Z := tcp6 (nat64_embed server).
Definition to_native : list Z := tcp6 ([253; 2] ++ replicate 14 0).

(** A connection of the guest through the public address; and segments from 0.0.0.0, port
    0, to the port it was translated to, that open a connection or not. *)
Definition translated_syn : State := exec (EvGuest cfg (from_guest 0) (tcp guest server 4000 443 2)) init.
Definition zero_source (fl : Z) : list Z := tcp (replicate 4 0) public 0 1000 fl.
Definition reverse : CtKey := mkCtKey vpc (replicate 4 0) public 0 1000 6.
Definition forward : CtKey := mkCtKey vpc guest server 4000 443 6.
End stateful_example.

Import sample stateful_example.

(** Under the policy that refuses everything the answer of the second guest still
    leaves: it is the reply to an accepted flow. *)
Lemma egress_firewalled_witness :
  let h := [(EvGuest cfg (from_guest 0) syn, init)] in
  ∃ k, ct_key syn_ack ETH_LEN vpc = Some k ∧
    (fw_classify syn_ack (fw closed) ETH_LEN tap2 FW_DIR_EGRESS ≠ FW_ACTION_DROP ∨
     (bare_syn syn_ack = false ∧ (legit h k ∨ unasked h k ∨ forged h k ∨ forges (EvGuest closed (from_guest2 1) syn_ack) opened k))).
Proof.
  apply (egress_firewalled _ opened bindings (EvGuest closed (from_guest2 1) syn_ack) opened_history); [split; [apply closed_ok|done]|].
  vm_compute. discriminate.
Defined.

Lemma ingress_firewalled_witness :
  let h := [(EvGuest cfg (from_guest 0) syn, init)] in
  delivers (up_action (process_uplink_rx closed (from_fabric 1) back opened).1.1) tap ∧
  ((∃ mac is_lb peer q k, uplink_target closed (from_fabric 1) back (lb_choice closed (from_fabric 1) back) = (inr (tap, mac, is_lb, peer), q) ∧ ct_key q ETH_LEN vpc = Some k ∧
     (fw_classify q (fw closed) ETH_LEN tap FW_DIR_INGRESS ≠ FW_ACTION_DROP ∨
      (bare_syn q = false ∧ ((legit h k ∨ unasked h k ∨ forged h k) ∨ is_rev_key k ∧ is_Some (conntrack opened !! k))))) ∨
   (∃ k b r fwd, nat_return_key closed back vpc = Some (k, b) ∧ conntrack opened !! k = Some r ∧ (legit h fwd ∨ unasked h fwd ∨ forged h fwd) ∧
     vni fwd = vni k ∧ proto fwd = proto k ∧ src_ip fwd = xlate_ip r ∧ src_port fwd = xlate_port r) ∨
   is_relay closed (from_fabric 1) back = true).
Proof.
  intros h. split; [left; vm_compute; reflexivity|].
  apply (ingress_firewalled h opened closed (from_fabric 1) back tap opened_history); [vm_compute; reflexivity|left; vm_compute; reflexivity].
Defined.

Lemma revoked_flow_dropped_witness :
  ∃ s', process_guest_tx closed (mkTxIn (port guest) tap 1) ack opened = (drop_out, ack, s') ∧ conntrack s' !! flow12 = None.
Proof.
  destruct (revoked_flow_dropped closed flow12 (mkCtEntry 0 (replicate 4 0) 0 CT_F_DEFAULT TCP_NEW_SYN 0 1) opened) as [H _]; [vm_compute; reflexivity|vm_compute; discriminate|].
  destruct (proj1 (H ltac:(vm_compute; reflexivity) ltac:(vm_compute; discriminate)) tap (port guest) 1 ack ltac:(vm_compute; reflexivity) ltac:(vm_compute; reflexivity)) as [(s' & Hs & Hf & _) _].
  by exists s'.
Defined.

(** Security defect.  A packet from 0.0.0.0, port 0, to a public address and a port in use
    has the key of the reverse NAT entry of that port.  On a node that refuses everything
    a guest's segment of this kind is sent, where the same segment from the guest's own
    address is dropped; and a connection request of this kind, which is dropped, removes
    the reverse entry of the flow that has the port, whose own entry stays. *)
Theorem zero_source_bypasses :
  action (process_guest_tx closed (from_guest 1) (zero_source 16) translated_syn).1.1 ≠ Drop ∧
  action (process_guest_tx closed (from_guest 1) (tcp guest public 0 1000 16) translated_syn).1.1 = Drop ∧
  is_Some (conntrack translated_syn !! reverse) ∧
  action (process_guest_tx closed (from_guest2 1) (zero_source 2) translated_syn).1.1 = Drop ∧
  conntrack (process_guest_tx closed (from_guest2 1) (zero_source 2) translated_syn).2 !! reverse = None ∧
  is_Some (conntrack (process_guest_tx closed (from_guest2 1) (zero_source 2) translated_syn).2 !! forward).
Proof. split_and!; vm_compute; try discriminate; try reflexivity; by eexists. Qed.

(** Security defect.  The NAT64 egress path asks no policy: its verdict, packet and
    state do not depend on the programmed policy; and on a node that refuses all
    egress a guest's connection request to the NAT64 prefix is translated and sent to
    the fabric, while the same request to a native address is dropped. *)
Theorem nat64_bypasses_policy :
  (∀ f epoch c m l pkt s, process_guest_tx_nat64 (lp := sim_Lpm) (with_policy f epoch c) m l pkt s = process_guest_tx_nat64 c m l pkt s) ∧
  (process_guest_tx_nat64 closed (port guest) node to_nat64 init).1.1.1 = Redirect 2 ∧
  action (process_guest_tx_v6 closed (from_guest 0) to_native init).1.1 = Drop ∧
  action (process_guest_tx closed (from_guest 0) (tcp guest server 4000 443 2) init).1.1 = Drop.
Proof. split; [reflexivity|]. split_and!; vm_compute; reflexivity. Qed.
