(* ===== verification/GuestLocal.v ===== *)
(** * The responders a guest talks to on its own node

    The gateway answers address resolution, neighbour and router solicitations, and DHCP
    requests of a guest by rewriting the frame in place ([flowplane-core/src/arp_nd.rs],
    [dhcp.rs], [datapath/guest_local.rs]); [tc_guest_gateway] is the part of the guest
    classifier of the eBPF program that calls them ([flowplane-ebpf/src/tc.rs]).  A frame
    is a list of bytes, as in [Packet]; a responder returns whether it answered, and the
    frame. *)

From S2P Require Import Prelude FwClass Packet Nat64 Datapath.
Import fwclass packet nat64 datapath.

Open Scope Z_scope.

Module guest_local.

(** Writes in sequence; one that does not fit does nothing. *)
Definition writes (l : list (Z * list Z)) (pkt : list Z) : list Z := foldl (fun pkt w => write_ w.1 w.2 pkt) pkt l.

(** ** Address resolution and neighbour discovery *)

Definition ETH_P_ARP : Z := 2054.
Definition ARP_LEN : Z := 28.
Definition IPPROTO_ICMPV6 : Z := 58.
Definition ND_NS : Z := 135.
Definition ND_NA : Z := 136.
Definition ND_RS : Z := 133.
Definition ND_RA : Z := 134.
Definition RA_LEN : Z := ETH_LEN + IPV6_LEN + 32.

(** Add the word at an offset, where there is one. *)
Definition add_word (pkt : list Z) (off sum : Z) : Z := match read_array 2 pkt off with Some b => u32 (sum + be b) | None => sum end.

Definition csum16 (sum : Z) (pkt : list Z) (off : Z) (len : nat) : Z :=
  fold_core (foldl (fun sum i => add_word pkt (off + 2 * Z.of_nat i) sum) sum (seq 0 (len / 2))).

(** The sum over the pseudo-header of a 32-byte ICMPv6 message. *)
Definition pseudo_sum (pkt : list Z) (ip : Z) : Z :=
  let sum := foldl (fun sum i => add_word pkt (ip + 24 + 2 * Z.of_nat i) (add_word pkt (ip + 8 + 2 * Z.of_nat i) sum)) 0 (seq 0 8) in
  let sum := u32 (sum + 32) in
  u32 (sum + IPPROTO_ICMPV6).

Definition zeros (n : nat) : list Z := replicate n 0.

Definition na_writes (gateway_ipv6 reply_mac req_mac req_src : list Z) : list (Z * list Z) :=
  let ip := ETH_LEN in
  let icmp := ETH_LEN + IPV6_LEN in
  [(0, req_mac); (6, reply_mac);
   (ip + 8, gateway_ipv6); (ip + 24, req_src); (ip + 7, [255]); (ip + 4, be16 32);
   (icmp, [ND_NA]); (icmp + 1, [0]); (icmp + 2, [0; 0]); (icmp + 4, [96]); (icmp + 5, [0]); (icmp + 6, [0; 0]);
   (icmp + 24, [2]); (icmp + 25, [1]); (icmp + 26, reply_mac)].

(** The checksum of the message is written last. *)
Definition seal (pkt : list Z) : list Z :=
  let icmp := ETH_LEN + IPV6_LEN in
  write_ (icmp + 2) (be16 (csum16 (pseudo_sum pkt ETH_LEN) pkt icmp 32)) pkt.

Definition nd_reply (pkt gateway_ipv6 reply_mac : list Z) : bool * list Z :=
  let ip := ETH_LEN in
  let icmp := ETH_LEN + IPV6_LEN in
  if bool_decide (gateway_ipv6 = zeros 16) then (false, pkt)
  else if bool_decide (read_array 2 pkt (ETH_LEN + IPV6_LEN + 32 - 2) = None) then (false, pkt)
  else match read_u16_be pkt 12 with
  | None => (false, pkt)
  | Some ethertype =>
      if negb (ethertype =? ETH_P_IPV6) then (false, pkt)
      else if negb (bool_decide (read_u8 pkt (ip + 6) = Some IPPROTO_ICMPV6)) then (false, pkt)
      else if negb (bool_decide (read_u8 pkt icmp = Some ND_NS)) then (false, pkt)
      else match read_array 16 pkt (icmp + 8) with
           | None => (false, pkt)
           | Some target =>
               if negb (bool_decide (target = gateway_ipv6)) then (false, pkt)
               else match read_array 6 pkt 6, read_array 16 pkt (ip + 8) with
                    | Some req_mac, Some req_src => (true, seal (writes (na_writes gateway_ipv6 reply_mac req_mac req_src) pkt))
                    | _, _ => (false, pkt)
                    end
           end
  end.

(** [u32::to_be_bytes] *)
Definition be32 (v : Z) : list Z := [u8 (Z.shiftr v 24); u8 (Z.shiftr v 16); u8 (Z.shiftr v 8); u8 v].

Definition ra_writes (gateway_ipv6 reply_mac req_mac req_src : list Z) (mtu : Z) : list (Z * list Z) :=
  let ip := ETH_LEN in
  let icmp := ETH_LEN + IPV6_LEN in
  [(0, req_mac); (6, reply_mac);
   (ip + 8, gateway_ipv6); (ip + 24, req_src); (ip + 6, [IPPROTO_ICMPV6]); (ip + 7, [255]); (ip + 4, be16 32);
   (icmp, [ND_RA]); (icmp + 1, [0]); (icmp + 2, [0; 0]); (icmp + 4, [64]); (icmp + 5, [128]); (icmp + 6, be16 1800); (icmp + 8, zeros 4); (icmp + 12, zeros 4);
   (icmp + 16, [1]); (icmp + 17, [1]); (icmp + 18, reply_mac);
   (icmp + 24, [5]); (icmp + 25, [1]); (icmp + 26, [0; 0]); (icmp + 28, be32 mtu)].

Definition ra_reply (pkt gateway_ipv6 reply_mac : list Z) (mtu : Z) : bool * list Z :=
  let ip := ETH_LEN in
  let icmp := ETH_LEN + IPV6_LEN in
  if bool_decide (gateway_ipv6 = zeros 16) then (false, pkt)
  else if bool_decide (read_array 2 pkt (RA_LEN - 2) = None) then (false, pkt)
  else if negb (bool_decide (read_u16_be pkt 12 = Some ETH_P_IPV6)) then (false, pkt)
  else if negb (bool_decide (read_u8 pkt (ip + 6) = Some IPPROTO_ICMPV6)) then (false, pkt)
  else if negb (bool_decide (read_u8 pkt icmp = Some ND_RS)) then (false, pkt)
  else match read_array 6 pkt 6, read_array 16 pkt (ip + 8) with
       | Some req_mac, Some req_src => (true, seal (writes (ra_writes gateway_ipv6 reply_mac req_mac req_src mtu) pkt))
       | _, _ => (false, pkt)
       end.

Definition arp_writes (gateway_ipv4 reply_mac sender_mac spa : list Z) : list (Z * list Z) :=
  let arp := ETH_LEN in
  [(0, sender_mac); (6, reply_mac);
   (arp + 6, be16 2); (arp + 8, reply_mac); (arp + 14, gateway_ipv4); (arp + 18, sender_mac); (arp + 24, spa)].

Definition arp_reply (pkt gateway_ipv4 reply_mac : list Z) : bool * list Z :=
  let arp := ETH_LEN in
  if bool_decide (gateway_ipv4 = zeros 4) then (false, pkt)
  else if bool_decide (read_array 2 pkt (ETH_LEN + ARP_LEN - 2) = None) then (false, pkt)
  else match read_u16_be pkt 12, read_u16_be pkt (arp + 6), read_array 4 pkt (arp + 24), read_array 6 pkt (arp + 8), read_array 4 pkt (arp + 14) with
       | Some ethertype, Some opcode, Some tpa, Some sender_mac, Some spa =>
           if negb (ethertype =? ETH_P_ARP) then (false, pkt)
           else if negb (opcode =? 1) then (false, pkt)
           else if negb (bool_decide (tpa = gateway_ipv4)) then (false, pkt)
           else (true, writes (arp_writes gateway_ipv4 reply_mac sender_mac spa) pkt)
       | _, _, _, _, _ => (false, pkt)
       end.

Record GuestArpNdIn := mkArpNdIn { an_gateway_ipv4 : list Z; an_gateway_ipv6 : list Z; an_ifindex : Z }.

Definition process_guest_arp_nd (pkt : list Z) (in_ : GuestArpNdIn) : Action * list Z :=
  let '(ok, pkt) := arp_reply pkt (an_gateway_ipv4 in_) GW_MAC in
  if ok then (Redirect (an_ifindex in_), pkt)
  else let '(ok, pkt) := nd_reply pkt (an_gateway_ipv6 in_) GW_MAC in
       if ok then (Redirect (an_ifindex in_), pkt) else (Pass, pkt).

(** ** DHCP *)

Definition DHCP_MAGIC : Z := 1669485411.
Definition OPT_PAD : Z := 0.
Definition OPT_END : Z := 255.
Definition OPT_MESSAGE_TYPE : Z := 53.
Definition OPT_LEASE_TIME : Z := 51.
Definition OPT_SERVER_ID : Z := 54.
Definition OPT_CLASSLESS_ROUTE : Z := 121.
Definition OPT_SUBNET_MASK : Z := 1.
Definition OPT_DNS : Z := 6.
Definition OPT_HOSTNAME : Z := 12.
Definition OPT_MTU : Z := 26.
Definition DHCP_MSG_DISCOVER : Z := 1.
Definition DHCP_MSG_REQUEST : Z := 3.
Definition DHCP_MSG_OFFER : Z := 2.
Definition DHCP_MSG_ACK : Z := 5.
Definition F_BOOTP : Z := ETH_LEN + 20 + 8.
Definition BOOTP_MAGIC_OFF : Z := 236.
Definition BOOTP_OPTIONS_OFF : Z := 240.
Definition F_OPTS : Z := F_BOOTP + BOOTP_OPTIONS_OFF.
Definition OPTS_SCAN_BYTES : nat := 128.
Definition O_MSGTYPE : Z := 0.
Definition O_LEASE : Z := 3.
Definition O_SERVERID : Z := 9.
Definition O_CLASSLESS : Z := 15.
Definition O_SUBNET : Z := 29.
Definition O_MTU : Z := 35.
Definition O_ROUTER : Z := 39.
Definition O_DNS : Z := 45.
Definition O_HOSTNAME : Z := 79.
Definition OPT_BLOCK_MAX : Z := 146.
Definition REPLY_LEN : Z := F_OPTS + OPT_BLOCK_MAX.
Definition MAX_HOSTNAME : nat := 64.
Definition MAX_DNS : nat := 8.
Definition ENCAP_OVERHEAD_V6 : Z := 56 + 24.

Record Dhcpv4Request := mkRequest { reply_type : Z; client_mac : list Z; xid_secs_flags : list Z }.

(** The option scan: what byte is expected, how many are left of a value, and the
    message type so far. *)
Inductive ScanState := ExpectCode | ExpectLength | InValue.

Record Scan := mkScan { msg_type : Z; sm_state : ScanState; sm_remain : Z; sm_is_msgtype : bool }.

(** One byte; nothing at the end of the options. *)
Definition scan_byte (s : Scan) (b : Z) : option Scan :=
  match sm_state s with
  | ExpectCode =>
      if b =? OPT_PAD then Some s
      else if b =? OPT_END then None
      else Some (mkScan (msg_type s) ExpectLength (sm_remain s) (b =? OPT_MESSAGE_TYPE))
  | ExpectLength => Some (mkScan (msg_type s) (if b =? 0 then ExpectCode else InValue) b (sm_is_msgtype s))
  | InValue =>
      let msg := if sm_is_msgtype s && (sm_remain s =? 1) then b else msg_type s in
      let remain := sm_remain s - 1 in
      Some (mkScan msg (if remain =? 0 then ExpectCode else InValue) remain (sm_is_msgtype s))
  end.

Fixpoint scan (n : nat) (pkt : list Z) (off : Z) (s : Scan) : Scan :=
  match n with
  | O => s
  | S n =>
      match read_u8 pkt off with
      | None => s
      | Some b => match scan_byte s b with None => s | Some s => scan n pkt (off + 1) s end
      end
  end.

(** [u32::from_be_bytes] *)
Definition of_be32 (l : list Z) : Z := be (take 2 l) * 65536 + be (drop 2 l).

Definition parse (pkt : list Z) : option Dhcpv4Request :=
  magic ← read_array 4 pkt (F_BOOTP + BOOTP_MAGIC_OFF);
  ethertype ← read_u16_be pkt 12;
  vihl ← read_u8 pkt ETH_LEN;
  proto ← read_u8 pkt (ETH_LEN + 9);
  dport ← read_u16_be pkt (ETH_LEN + 22);
  if negb (ethertype =? ETH_P_IP) || negb (Z.land vihl 15 =? 5) || negb (proto =? IPPROTO_UDP) || negb (dport =? 67) || negb (of_be32 magic =? DHCP_MAGIC) then None
  else
    let msg := msg_type (scan OPTS_SCAN_BYTES pkt F_OPTS (mkScan 0 ExpectCode 0 false)) in
    if negb (msg =? DHCP_MSG_DISCOVER) && negb (msg =? DHCP_MSG_REQUEST) then None
    else
      mac ← read_array 6 pkt 6;
      xid ← read_array 8 pkt (F_BOOTP + 4);
      Some (mkRequest (if msg =? DHCP_MSG_DISCOVER then DHCP_MSG_OFFER else DHCP_MSG_ACK) mac xid).

(** The fields of the configuration maps the IPv4 responder reads. *)
Record DhcpConfig := mkDhcpConfig { cfg_mtu : Z; dns4_len : Z; dns4 : list (list Z) }.
Record DhcpMeta := mkDhcpMeta { hostname : list Z; hostname_len : Z }.

Definition bootp_writes (req : Dhcpv4Request) (guest_ipv4 gw : list Z) : list (Z * list Z) :=
  [(F_BOOTP, [2]); (F_BOOTP + 4, xid_secs_flags req); (F_BOOTP + 16, guest_ipv4); (F_BOOTP + 20, gw); (F_BOOTP + 24, gw); (F_BOOTP + 28, client_mac req); (F_BOOTP + 44, zeros 192)].

Definition option_writes (req : Dhcpv4Request) (gw : list Z) (mtu : Z) : list (Z * list Z) :=
  [(F_OPTS + O_MSGTYPE, [OPT_MESSAGE_TYPE; 1; reply_type req]);
   (F_OPTS + O_LEASE, [OPT_LEASE_TIME; 4] ++ be32 4294967295);
   (F_OPTS + O_SERVERID, [OPT_SERVER_ID; 4] ++ gw);
   (F_OPTS + O_CLASSLESS, [OPT_CLASSLESS_ROUTE; 12; 16; 169; 254; 0; 0; 0; 0; 0] ++ gw);
   (F_OPTS + O_SUBNET, [OPT_SUBNET_MASK; 4; 255; 255; 255; 255]);
   (F_OPTS + O_MTU, if negb (mtu =? 0) then [OPT_MTU; 2] ++ be16 mtu else zeros 4);
   (F_OPTS + O_ROUTER, zeros 6)].

(** The servers go to fixed slots, as many as there are. *)
Definition dns_writes (cfg : option DhcpConfig) : list (Z * list Z) :=
  let dns_len := match cfg with Some c => Z.min (dns4_len c) (Z.of_nat MAX_DNS) | None => 0 end in
  (F_OPTS + O_DNS, zeros 34) ::
  match cfg with
  | Some c =>
      if 0 <? dns_len
      then (F_OPTS + O_DNS, [OPT_DNS; u8 (dns_len * 4)]) :: ((fun j => (F_OPTS + O_DNS + 2 + Z.of_nat j * 4, dns4 c !!! j)) <$> List.filter (fun j => Z.of_nat j <? dns_len) (seq 0 MAX_DNS))
      else []
  | None => []
  end.

Definition hostname_writes (dm : option DhcpMeta) : list (Z * list Z) :=
  let hn_len := match dm with Some d => Z.min (hostname_len d) (Z.of_nat MAX_HOSTNAME) | None => 0 end in
  (F_OPTS + O_HOSTNAME, zeros 66) ::
  match dm with
  | Some d =>
      if 0 <? hn_len
      then (F_OPTS + O_HOSTNAME, [OPT_HOSTNAME; u8 hn_len]) :: ((fun k => (F_OPTS + O_HOSTNAME + 2 + Z.of_nat k, [hostname d !!! k])) <$> List.filter (fun k => Z.of_nat k <? hn_len) (seq 0 MAX_HOSTNAME))
      else []
  | None => []
  end.

Definition ip_header (vihl tos : Z) (gw : list Z) : list Z :=
  let ip_total := REPLY_LEN - ETH_LEN in
  [vihl; tos; u8 (Z.shiftr ip_total 8); u8 (Z.land ip_total 255); 0; 0; 0; 0; 64; IPPROTO_UDP; 0; 0] ++ gw ++ [255; 255; 255; 255].

(** The words of the header but the checksum. *)
Definition header_sum (h : list Z) : Z := foldl (fun s i => add_be16 s (h !!! i) (h !!! S i)) 0 [0; 2; 4; 6; 8; 12; 14; 16; 18]%nat.

Definition header_writes (vihl tos : Z) (gw : list Z) : list (Z * list Z) :=
  let ip_hdr := ip_header vihl tos gw in
  [(ETH_LEN, ip_hdr); (ETH_LEN + 10, be16 (fold_core (header_sum ip_hdr)));
   (ETH_LEN + 20, be16 67); (ETH_LEN + 22, be16 68); (ETH_LEN + 24, be16 (REPLY_LEN - ETH_LEN - 20)); (ETH_LEN + 26, [0; 0])].

Definition write (pkt : list Z) (req : Dhcpv4Request) (guest_ipv4 gateway_ipv4 server_mac : list Z) (cfg : option DhcpConfig) (dm : option DhcpMeta) : bool * list Z :=
  if bool_decide (read_array 1 pkt (REPLY_LEN - 1) = None) then (false, pkt)
  else
    let mtu := match cfg with Some c => cfg_mtu c | None => 1500 - ENCAP_OVERHEAD_V6 end in
    let pkt := writes (bootp_writes req guest_ipv4 gateway_ipv4) pkt in
    let pkt := writes (option_writes req gateway_ipv4 mtu) pkt in
    let pkt := writes (dns_writes cfg) pkt in
    let pkt := writes (hostname_writes dm) pkt in
    let pkt := writes [(F_OPTS + OPT_BLOCK_MAX - 1, [OPT_END]); (0, client_mac req); (6, server_mac); (12, be16 ETH_P_IP)] pkt in
    let vihl := default 69 (read_u8 pkt ETH_LEN) in
    let tos := default 0 (read_u8 pkt (ETH_LEN + 1)) in
    (true, writes (header_writes vihl tos gateway_ipv4) pkt).

(** [VecPkt::set_tail] *)
Definition set_tail (n : nat) (pkt : list Z) : list Z := take n pkt ++ replicate (n - length pkt) 0.

Record GuestDhcp4In := mkDhcp4In { d_guest_ipv4 : list Z; d_gateway_ipv4 : list Z; d_ifindex : Z }.

(** The maps: the server's configuration, and one for each interface. *)
Definition process_guest_dhcp4 (pkt : list Z) (dhcp_config : option DhcpConfig) (dhcp_meta : Z → option DhcpMeta) (in_ : GuestDhcp4In) : Action * list Z :=
  match parse pkt with
  | None => (Pass, pkt)
  | Some req =>
      let pkt := set_tail (Z.to_nat REPLY_LEN) pkt in
      let '(ok, pkt) := write pkt req (d_guest_ipv4 in_) (d_gateway_ipv4 in_) GW_MAC dhcp_config (dhcp_meta (d_ifindex in_)) in
      if ok then (Redirect (d_ifindex in_), pkt) else (Pass, pkt)
  end.

(** ** The classifier of a guest's interface *)

(** What [tc_guest_tx] does next: send the frame back, leave it to the stack, hand it to
    the NAT64 program, or go on to DHCP and the overlay. *)
Inductive TcStep := TcRedirect (ifindex : Z) | TcOk | TcNat64 | TcOn.

(** The resolution and discovery part of [tc_guest_tx] for an interface that has its
    record, on a frame whose bytes are all readable.  A solicited router
    advertisement is longer than the solicitation: the frame first gets its length,
    cut or filled with zeros, by [bpf_skb_change_tail]; [resized] is whether the
    kernel did. *)
Definition tc_guest_gateway (pkt : list Z) (in_ : GuestArpNdIn) (dhcp_config : option DhcpConfig) (resized : bool) : TcStep * list Z :=
  match read_u16_be pkt 12 with
  | None => (TcOk, pkt)
  | Some ethertype =>
      if ethertype =? ETH_P_ARP then
        let '(ok, pkt) := arp_reply pkt (an_gateway_ipv4 in_) GW_MAC in
        (if ok then TcRedirect (an_ifindex in_) else TcOk, pkt)
      else if ethertype =? ETH_P_IPV6 then
        if match read_array 16 pkt (ETH_LEN + 24) with Some dst => is_nat64_addr dst | None => false end then (TcNat64, pkt)
        else let '(ok, pkt) := nd_reply pkt (an_gateway_ipv6 in_) GW_MAC in
             if ok then (TcRedirect (an_ifindex in_), pkt)
             else if bool_decide (read_u8 pkt (ETH_LEN + 6) = Some IPPROTO_ICMPV6) && bool_decide (read_u8 pkt (ETH_LEN + IPV6_LEN) = Some ND_RS) then
               let mtu := match dhcp_config with Some c => cfg_mtu c | None => 1500 - ENCAP_OVERHEAD_V6 end in
               if resized then
                 let '(ok, pkt) := ra_reply (set_tail (Z.to_nat RA_LEN) pkt) (an_gateway_ipv6 in_) GW_MAC mtu in
                 (if ok then TcRedirect (an_ifindex in_) else TcOk, pkt)
               else (TcOk, pkt)
             else (TcOn, pkt)
      else (TcOn, pkt)
  end.

End guest_local.
