(* ===== verification/GuestLocalTheorems.v ===== *)
(** * The responders a guest talks to: theorems

    The frames the gateway sends back are well formed, carry what they should, and have
    valid checksums; everything else is passed on as it came. *)

From S2P Require Import Prelude FwClass FwClassFacts Packet PacketFacts Conntrack Nat Nat64 Datapath Checksum GuestLocal.
Import fwclass packet nat64 datapath guest_local.

Open Scope Z_scope.

(** ** Writes in sequence *)

(** A write stays within the first [n] bytes. *)
Definition fit (n : nat) (w : Z * list Z) : bool := (Z.to_nat w.1 + length w.2 <=? n)%nat.

(** The byte a sequence of writes leaves at an index. *)
Definition put (i : nat) (acc : option Z) (w : Z * list Z) : option Z :=
  if (Z.to_nat w.1 <=? i)%nat then match w.2 !! (i - Z.to_nat w.1)%nat with Some b => Some b | None => acc end else acc.

Definition written (ws : list (Z * list Z)) (i : nat) : option Z := foldl (put i) None ws.

Lemma writes_length ws pkt : length (writes ws pkt) = length pkt.
Proof. revert pkt. induction ws as [|w ws IH]; intros pkt; [done|]. cbn. unfold writes in IH. rewrite IH. apply write__length. Qed.

Lemma writes_app ws1 ws2 pkt : writes (ws1 ++ ws2) pkt = writes ws2 (writes ws1 pkt).
Proof. apply foldl_app. Qed.

Lemma writes_bytes ws pkt : bytes_ok pkt → Forall (λ w, bytes_ok w.2) ws → bytes_ok (writes ws pkt).
Proof. intros Hp Hw. revert pkt Hp. induction Hw as [|w ws Hb _ IH]; intros pkt Hp; [done|]. apply IH. by apply write__bytes_ok. Qed.

Lemma put_lookup w pkt i : fit (length pkt) w = true → write_ w.1 w.2 pkt !! i = match put i None w with Some b => Some b | None => pkt !! i end.
Proof.
  unfold fit, put. intros Hf%Nat.leb_le. rewrite write__splice by done. destruct (Z.to_nat w.1 <=? i)%nat eqn:E.
  - apply Nat.leb_le in E. destruct (w.2 !! (i - Z.to_nat w.1)%nat) as [b|] eqn:Eb.
    + apply lookup_lt_Some in Eb as Hl. rewrite splice_lookup_in by lia. done.
    + apply lookup_ge_None in Eb. by apply splice_lookup_out; [|lia].
  - apply Nat.leb_gt in E. by apply splice_lookup_out; [|lia].
Qed.

Lemma put_acc i acc w : put i acc w = match put i None w with Some b => Some b | None => acc end.
Proof. unfold put. destruct (_ <=? _)%nat; [|done]. by destruct (_ !! _). Qed.

Lemma writes_lookup ws pkt i : forallb (fit (length pkt)) ws = true → writes ws pkt !! i = match written ws i with Some b => Some b | None => pkt !! i end.
Proof.
  assert (Hgen : ∀ ws acc, foldl (put i) acc ws = match written ws i with Some b => Some b | None => acc end).
  { intros ws0. unfold written. induction ws0 as [|w ws0 IH] using rev_ind; intros acc; [done|]. rewrite !foldl_app. cbn. rewrite (put_acc i (foldl _ acc _)), (put_acc i (foldl _ None _)), IH. by destruct (put i None w). }
  revert pkt. induction ws as [|w ws IH]; intros pkt Hf; [done|]. cbn in Hf. apply andb_true_iff in Hf as [Hw Hf]. change (writes (w :: ws) pkt) with (writes ws (write_ w.1 w.2 pkt)). rewrite IH by (by rewrite write__length). rewrite put_lookup by done.
  change (written (w :: ws) i) with (foldl (put i) (put i None w) ws). rewrite Hgen. by destruct (written ws i).
Qed.

Section fields.
Context (ws : list (Z * list Z)) (pkt : list Z) (n : nat).
Context (Hfit : forallb (fit n) ws = true) (Hlen : (n ≤ length pkt)%nat).

Lemma fits : forallb (fit (length pkt)) ws = true.
Proof. rewrite forallb_forall in Hfit |- *. intros w Hw. specialize (Hfit w Hw). unfold fit in *. apply Nat.leb_le in Hfit. apply Nat.leb_le. lia. Qed.

(** A field that is written whole. *)
Lemma writes_field o l : (o + length l ≤ n)%nat → written ws <$> seq o (length l) = Some <$> l → slice o (length l) (writes ws pkt) = l.
Proof.
  intros Ho Hw. apply list_eq. intros j. destruct (decide (j < length l)%nat) as [Hj|Hj]; [|rewrite !lookup_ge_None_2; [done|lia|rewrite slice_length by (rewrite writes_length; lia); lia]].
  rewrite slice_lookup, writes_lookup by (done || apply fits). assert (Hj' : (written ws <$> seq o (length l)) !! j = (Some <$> l) !! j) by (by rewrite Hw). rewrite !list_lookup_fmap, lookup_seq_lt in Hj' by done. cbn in Hj'.
  destruct (l !! j) as [b|] eqn:Eb; [|apply lookup_ge_None in Eb; lia]. cbn in Hj'. injection Hj' as ->. done.
Qed.

(** A field that is not written. *)
Lemma writes_keep o m : (o + m ≤ n)%nat → written ws <$> seq o m = replicate m None → slice o m (writes ws pkt) = slice o m pkt.
Proof.
  intros Ho Hw. apply list_eq. intros j. destruct (decide (j < m)%nat) as [Hj|Hj]; [|rewrite !lookup_ge_None_2; [done|rewrite slice_length; lia|rewrite slice_length; rewrite ?writes_length; lia]].
  rewrite !slice_lookup, writes_lookup by (done || apply fits). assert (Hj' : (written ws <$> seq o m) !! j = replicate m None !! j) by (by rewrite Hw). rewrite list_lookup_fmap, lookup_seq_lt, lookup_replicate_2 in Hj' by done. cbn in Hj'. injection Hj' as ->. done.
Qed.

(** What lies behind is not touched. *)
Lemma writes_rest : drop n (writes ws pkt) = drop n pkt.
Proof.
  apply list_eq. intros j. rewrite !lookup_drop, writes_lookup by apply fits. assert (Hn : written ws (n + j) = None); [|by rewrite Hn].
  unfold written. rewrite forallb_forall in Hfit. clear Hlen. induction ws as [|w l IH] using rev_ind; [done|]. rewrite foldl_app. cbn. rewrite IH by (intros w' Hw'; apply Hfit, in_or_app; by left). specialize (Hfit w ltac:(apply in_or_app; right; by left)). unfold fit in Hfit. apply Nat.leb_le in Hfit.
  unfold put. destruct (_ <=? _)%nat eqn:E; [|done]. apply Nat.leb_le in E. rewrite lookup_ge_None_2 by lia. done.
Qed.

End fields.

(** A list of known length is its bytes. *)
Tactic Notation "explode" ident(l) integer(n) := do n (destruct l as [|? l]; [discriminate|]); destruct l; [|discriminate].

(** ** Address resolution *)

(** A request for the gateway's address. *)
Definition arp_request (gw pkt : list Z) : Prop :=
  gw ≠ zeros 4 ∧ (42 ≤ length pkt)%nat ∧ be_at 12 pkt = ETH_P_ARP ∧ be_at 20 pkt = 1 ∧ slice 38 4 pkt = gw.

(** The answer: to the sender, from the gateway, as a reply that the gateway's address is
    at [mac]; the kinds and sizes of the addresses, and what follows, are as they came. *)
Record arp_answer (gw mac pkt pkt' : list Z) : Prop := mkArpAnswer {
  aa_length : length pkt' = length pkt;
  aa_eth : slice 0 12 pkt' = slice 22 6 pkt ++ mac;
  aa_kinds : slice 12 8 pkt' = slice 12 8 pkt;
  aa_op : slice 20 2 pkt' = [0; 2];
  aa_sender : slice 22 10 pkt' = mac ++ gw;
  aa_target : slice 32 10 pkt' = slice 22 10 pkt;
  aa_rest : drop 42 pkt' = drop 42 pkt
}.

Lemma slice_app o m n l : slice o m l ++ slice (o + m) n l = slice o (m + n) l.
Proof. unfold slice. rewrite <- drop_drop, <- (take_drop m (take (m + n) (drop o l))), take_take, Nat.min_l by lia. f_equal. rewrite skipn_firstn_comm. f_equal. lia. Qed.

Lemma arp_writes_spec gw mac sm spa pkt :
  length gw = 4%nat → length mac = 6%nat → length sm = 6%nat → length spa = 4%nat → (42 ≤ length pkt)%nat →
  let pkt' := writes (arp_writes gw mac sm spa) pkt in
  slice 0 12 pkt' = sm ++ mac ∧ slice 12 8 pkt' = slice 12 8 pkt ∧ slice 20 2 pkt' = [0; 2] ∧ slice 22 10 pkt' = mac ++ gw ∧ slice 32 10 pkt' = sm ++ spa ∧ drop 42 pkt' = drop 42 pkt.
Proof.
  intros Hg Hm Hs Hp Hl. explode gw 4. explode mac 6. explode sm 6. explode spa 4. set (ws := arp_writes _ _ _ _). assert (Hf : forallb (fit 42) ws = true) by reflexivity. cbn zeta. split_and!.
  - apply (writes_field _ _ 42 Hf Hl 0 [_; _; _; _; _; _; _; _; _; _; _; _]); [cbn; lia|reflexivity].
  - apply (writes_keep _ _ 42 Hf Hl 12 8); [lia|reflexivity].
  - apply (writes_field _ _ 42 Hf Hl 20 [0; 2]); [cbn; lia|reflexivity].
  - apply (writes_field _ _ 42 Hf Hl 22 [_; _; _; _; _; _; _; _; _; _]); [cbn; lia|reflexivity].
  - apply (writes_field _ _ 42 Hf Hl 32 [_; _; _; _; _; _; _; _; _; _]); [cbn; lia|reflexivity].
  - by apply (writes_rest _ _ 42 Hf Hl).
Qed.

Lemma arp_reply_spec pkt gw mac :
  length gw = 4%nat → length mac = 6%nat →
  (arp_request gw pkt ∧ ∃ pkt', arp_reply pkt gw mac = (true, pkt') ∧ arp_answer gw mac pkt pkt') ∨ (¬ arp_request gw pkt ∧ arp_reply pkt gw mac = (false, pkt)).
Proof.
  intros Hg Hm. unfold arp_reply, arp_request. change (ETH_LEN + ARP_LEN - 2) with 40. change (ETH_LEN + 6) with 20. change (ETH_LEN + 24) with 38. change (ETH_LEN + 8) with 22. change (ETH_LEN + 14) with 28. case_bool_decide as Hz; [right; split; [by intros (? & _)|done]|].
  destruct (decide (42 ≤ length pkt)%nat) as [Hl|Hl]; [|right; split; [by intros (_ & ? & _)|]; rewrite bool_decide_true; [done|]; apply read_array_None; lia].
  rewrite bool_decide_false by (rewrite read_array_Some by lia; done). rewrite !read_u16_be_at, !read_array_Some by lia. change (Z.to_nat 12) with 12%nat. change (Z.to_nat 20) with 20%nat. change (Z.to_nat 38) with 38%nat. change (Z.to_nat 22) with 22%nat. change (Z.to_nat 28) with 28%nat.
  destruct (Z.eqb_spec (be_at 12 pkt) ETH_P_ARP) as [H1|H1]; cbn [negb]; [|right; split; [by intros (_ & _ & ? & _)|done]]. destruct (Z.eqb_spec (be_at 20 pkt) 1) as [H2|H2]; cbn [negb]; [|right; split; [by intros (_ & _ & _ & ? & _)|done]].
  case_bool_decide as H3; cbn [negb]; [|right; split; [by intros (_ & _ & _ & _ & ?)|done]]. left. split; [done|]. eexists. split; [done|].
  destruct (arp_writes_spec gw mac (slice 22 6 pkt) (slice 28 4 pkt) pkt) as (E1 & E2 & E3 & E4 & E5 & E6); [done|done|apply slice_length; lia|apply slice_length; lia|done|].
  split; try done; [apply writes_length|]. rewrite E5. apply (slice_app 22 6 4).
Qed.

(** ** The checksum of a message *)

Lemma sum16_words l n : bytes_ok l → length l = (2 * n)%nat → sum16 l ≤ 65535 * Z.of_nat n.
Proof.
  revert l. induction n as [|n IH]; intros l Hb Hl; [by destruct l|]. destruct l as [|a [|b l]]; [discriminate|cbn in Hl; lia|]. apply Forall_cons in Hb as [Ha [Hb' Hb]%Forall_cons]. specialize (IH l Hb ltac:(cbn in Hl; lia)). change (sum16 (a :: b :: l)) with (a * 256 + b + sum16 l). lia.
Qed.

Lemma add_word_spec pkt off sum : bytes_ok pkt → 0 ≤ off → (Z.to_nat off + 2 ≤ length pkt)%nat → 0 ≤ sum → sum + 65535 < 2 ^ 32 →
  add_word pkt off sum = sum + sum16 (slice (Z.to_nat off) 2 pkt).
Proof.
  intros Hb Ho Hl Hs Hm. unfold add_word. rewrite read_array_Some by done. rewrite be_slice, sum16_be_at by done. apply u32_small. pose proof (be_at_range (Z.to_nat off) pkt Hb). lia.
Qed.

(** A loop over the words of a region. *)
Lemma words_spec pkt off n sum : bytes_ok pkt → 0 ≤ off → (Z.to_nat off + 2 * n ≤ length pkt)%nat → 0 ≤ sum → sum + 65535 * (Z.of_nat n) < 2 ^ 32 →
  foldl (fun sum i => add_word pkt (off + 2 * Z.of_nat i) sum) sum (seq 0 n) = sum + sum16 (slice (Z.to_nat off) (2 * n) pkt).
Proof.
  intros Hb Ho. induction n as [|n IH]; intros Hl Hs Hm; [change (sum = sum + 0); lia|]. rewrite seq_S, foldl_app. cbn [foldl]. rewrite IH by lia. assert (Hslice : (Z.to_nat off + 2 * n ≤ length pkt)%nat) by lia. destruct (slice_ok _ _ _ Hb Hslice) as [Hok Hlen].
  assert (H2 : sum16 (slice (Z.to_nat off) (2 * n) pkt) ≤ 65535 * Z.of_nat n) by apply (sum16_words _ n Hok Hlen). pose proof (sum16_nonneg _ Hok). rewrite add_word_spec by (done || lia).
  replace (2 * S n)%nat with (2 * n + 2)%nat by lia. rewrite <- slice_app, sum16_app by (rewrite Hlen, Nat.even_mul; done). replace (Z.to_nat (off + 2 * Z.of_nat (0 + n))) with (Z.to_nat off + 2 * n)%nat by lia. lia.
Qed.

Lemma pseudo_spec pkt : bytes_ok pkt → (86 ≤ length pkt)%nat → pseudo_sum pkt ETH_LEN = sum16 (slice 22 32 pkt) + 90.
Proof.
  intros Hb Hl. unfold pseudo_sum. change (ETH_LEN + 24) with 38. change (ETH_LEN + 8) with 22.
  assert (Hloop : ∀ n, (n ≤ 8)%nat → foldl (fun sum i => add_word pkt (38 + 2 * Z.of_nat i) (add_word pkt (22 + 2 * Z.of_nat i) sum)) 0 (seq 0 n) = sum16 (slice 22 (2 * n) pkt) + sum16 (slice 38 (2 * n) pkt)).
  { induction n as [|n IH]; intros Hn; [done|]. rewrite seq_S, foldl_app. cbn [foldl]. rewrite IH by lia. destruct (slice_ok 22 (2 * n) pkt Hb ltac:(lia)) as [Ha Hla], (slice_ok 38 (2 * n) pkt Hb ltac:(lia)) as [Hc Hlc]. pose proof (sum16_words _ n Ha Hla). pose proof (sum16_words _ n Hc Hlc). pose proof (sum16_nonneg _ Ha). pose proof (sum16_nonneg _ Hc).
    destruct (slice_ok (Z.to_nat (22 + 2 * Z.of_nat (0 + n))) 2 pkt Hb ltac:(lia)) as [Hd Hld]. pose proof (sum16_words _ 1 Hd Hld). pose proof (sum16_nonneg _ Hd).
    rewrite (add_word_spec pkt (22 + _)) by (done || lia). rewrite add_word_spec by (done || lia). replace (2 * S n)%nat with (2 * n + 2)%nat by lia. rewrite <- !slice_app, !sum16_app by (rewrite ?Hla, ?Hlc, Nat.even_mul; done).
    replace (Z.to_nat (22 + 2 * Z.of_nat (0 + n))) with (22 + 2 * n)%nat by lia. replace (Z.to_nat (38 + 2 * Z.of_nat (0 + n))) with (38 + 2 * n)%nat by lia. lia. }
  rewrite Hloop by lia. change (2 * 8)%nat with 16%nat. destruct (slice_ok 22 16 pkt Hb ltac:(lia)) as [Ha Hla], (slice_ok 38 16 pkt Hb ltac:(lia)) as [Hc Hlc]. pose proof (sum16_words _ 8 Ha Hla). pose proof (sum16_words _ 8 Hc Hlc). pose proof (sum16_nonneg _ Ha). pose proof (sum16_nonneg _ Hc).
  change (slice 22 32 pkt) with (slice 22 (16 + 16) pkt). rewrite <- slice_app, sum16_app by (by rewrite Hla). change (22 + 16)%nat with 38%nat. rewrite (u32_small (_ + 32)) by lia. rewrite u32_small by (unfold IPPROTO_ICMPV6; lia). unfold IPPROTO_ICMPV6. lia.
Qed.

(** A frame with the checksum field cleared verifies once sealed. *)
Lemma seal_spec pkt : bytes_ok pkt → (86 ≤ length pkt)%nat → slice 56 2 pkt = [0; 0] →
  length (seal pkt) = length pkt ∧ bytes_ok (seal pkt) ∧
  verifies (sum16 (slice 22 32 (seal pkt)) + 90 + sum16 (slice 54 32 (seal pkt))) ∧
  (∀ o n, (o + n ≤ 56 ∨ 58 ≤ o)%nat → slice o n (seal pkt) = slice o n pkt) ∧ drop 86 (seal pkt) = drop 86 pkt.
Proof.
  intros Hb Hl Hz. unfold seal. change (ETH_LEN + IPV6_LEN + 2) with 56. change (ETH_LEN + IPV6_LEN) with 54. set (S := sum16 (slice 22 32 pkt) + 90 + sum16 (slice 54 32 pkt)).
  destruct (slice_ok 22 32 pkt Hb ltac:(lia)) as [Ha Hla], (slice_ok 54 32 pkt Hb ltac:(lia)) as [Hc Hlc]. pose proof (sum16_words _ 16 Ha Hla). pose proof (sum16_words _ 16 Hc Hlc). pose proof (sum16_nonneg _ Ha). pose proof (sum16_nonneg _ Hc).
  assert (Hck : csum16 (pseudo_sum pkt ETH_LEN) pkt 54 32 = fold_core S).
  { unfold csum16. change (32 / 2)%nat with 16%nat. rewrite pseudo_spec by done. rewrite words_spec by (done || lia). done. }
  rewrite Hck. set (ck := fold_core S). destruct (fold_spec S) as (Hr & Hd & Hf0); [unfold S; lia|]. assert (Eck : ck = 65535 - fold S) by (unfold ck; rewrite fold_core_spec by (unfold S; lia); done). destruct (be16_bytes ck) as [Hbb Hbl].
  rewrite write__splice by (rewrite Hbl; lia). change (Z.to_nat 56) with 56%nat. assert (Hin : (56 + length (be16 ck) ≤ length pkt)%nat) by (rewrite Hbl; lia). split_and!.
  - by apply splice_length.
  - by apply splice_bytes_ok.
  - rewrite slice_splice_out by (done || (rewrite ?Hbl; lia)). rewrite slice_splice_in by (rewrite ?Hbl; lia). change (56 - 54)%nat with 2%nat. rewrite (sum16_splice (slice 54 32 pkt) 2 (be16 ck)); [|rewrite Hlc, Hbl; lia|done|by rewrite Hbl].
    rewrite Hbl, slice_slice by lia. change (54 + 2)%nat with 56%nat. rewrite Hz, sum16_be16 by lia. cbn [sum16]. replace (sum16 (slice 22 32 pkt) + 90 + (sum16 (slice 54 32 pkt) - (0 * 256 + 0 + 0) + ck)) with (S + ck) by (unfold S; lia). split; [unfold S; lia|]. rewrite Eck. replace (S + (65535 - fold S)) with ((S - fold S) + 65535) by lia. apply Z.divide_add_r; [done|by exists 1].
  - intros o n Ho. apply slice_splice_out; [done|rewrite Hbl; lia].
  - unfold splice. rewrite Hbl. rewrite drop_app_ge by (rewrite length_take; lia). rewrite length_take, Nat.min_l by lia. rewrite drop_app_ge by (rewrite Hbl; lia). rewrite Hbl, drop_drop. f_equal.
Qed.

(** ** Neighbour and router solicitations *)

(** A message of one type to a gateway that has an address. *)
Definition solicitation (type : Z) (gw pkt : list Z) : Prop :=
  gw ≠ zeros 16 ∧ (86 ≤ length pkt)%nat ∧ be_at 12 pkt = ETH_P_IPV6 ∧ pkt !! 20%nat = Some IPPROTO_ICMPV6 ∧ pkt !! 54%nat = Some type.

(** The answer: to the sender, from the gateway, hop limit 255; a message of type and code
    [head] and of body [body], whose checksum is valid. *)
Record nd_answer (gw mac head body pkt pkt' : list Z) : Prop := mkNdAnswer {
  na_length : length pkt' = length pkt;
  na_eth : slice 0 18 pkt' = slice 6 6 pkt ++ mac ++ slice 12 6 pkt;
  na_ip : slice 18 36 pkt' = [0; 32; IPPROTO_ICMPV6; 255] ++ gw ++ slice 22 16 pkt;
  na_head : slice 54 2 pkt' = head;
  na_body : slice 58 28 pkt' = body;
  na_checksum : verifies (sum16 (slice 22 32 pkt') + 90 + sum16 (slice 54 32 pkt'));
  na_rest : drop 86 pkt' = drop 86 pkt
}.

(** A target, and where it is; a default router that hands out addresses, at a link-layer
    address, and the MTU. *)
Definition advertised_target (gw mac : list Z) : list Z := [96; 0; 0; 0] ++ gw ++ [2; 1] ++ mac.
Definition advertised_router (mac : list Z) (mtu : Z) : list Z := [64; 128; 7; 8; 0; 0; 0; 0; 0; 0; 0; 0] ++ [1; 1] ++ mac ++ [5; 1; 0; 0] ++ be32 mtu.

Lemma slice_1_lookup (pkt : list Z) i b : pkt !! i = Some b → slice i 1 pkt = [b].
Proof. intros Hi. unfold slice. by rewrite (drop_S _ _ _ Hi). Qed.

(** The frame before it is sealed. *)
Record unsealed (gw mac head body pkt pkt' : list Z) : Prop := mkUnsealed {
  us_length : length pkt' = length pkt;
  us_eth : slice 0 12 pkt' = slice 6 6 pkt ++ mac;
  us_kept : slice 12 6 pkt' = slice 12 6 pkt;
  us_ip : slice 18 36 pkt' = [0; 32; IPPROTO_ICMPV6; 255] ++ gw ++ slice 22 16 pkt;
  us_head : slice 54 4 pkt' = head ++ [0; 0];
  us_body : slice 58 28 pkt' = body;
  us_rest : drop 86 pkt' = drop 86 pkt
}.

Lemma sealed gw mac head body pkt pkt' : (86 ≤ length pkt)%nat → length head = 2%nat → bytes_ok pkt' → unsealed gw mac head body pkt pkt' → nd_answer gw mac head body pkt (seal pkt').
Proof.
  intros Hl Hh Hb [H1 H2 H3 H4 H5 H6 H7]. destruct (seal_spec pkt') as (S1 & S2 & S3 & S4 & S5); [done|lia| |].
  { change 56%nat with (54 + 2)%nat. rewrite <- (slice_slice 2 2 54 4) by lia. rewrite H5. explode head 2. done. }
  split; [congruence| | | | |done|congruence].
  - rewrite S4 by lia. change 18%nat with (12 + 6)%nat. rewrite <- slice_app, H2, <- app_assoc. by do 2 f_equal.
  - rewrite S4 by lia. done.
  - rewrite S4 by lia. rewrite <- (Nat.add_0_r 54), <- (slice_slice 0 2 54 4) by lia. rewrite H5. explode head 2. done.
  - rewrite S4 by lia. done.
Qed.

Lemma na_writes_spec gw mac rm rs pkt :
  length gw = 16%nat → length mac = 6%nat → length rm = 6%nat → length rs = 16%nat → (86 ≤ length pkt)%nat → pkt !! 20%nat = Some IPPROTO_ICMPV6 → slice 62 16 pkt = gw →
  rm = slice 6 6 pkt → rs = slice 22 16 pkt → unsealed gw mac [ND_NA; 0] (advertised_target gw mac) pkt (writes (na_writes gw mac rm rs) pkt).
Proof.
  intros Hg Hm Hr Hs Hl H20 Ht Erm Ers. explode gw 16. explode mac 6. explode rm 6. explode rs 16. set (ws := na_writes _ _ _ _). assert (Hf : forallb (fit 86) ws = true) by reflexivity. split.
  - apply writes_length.
  - rewrite <- Erm. apply (writes_field _ _ 86 Hf Hl 0 [_; _; _; _; _; _; _; _; _; _; _; _]); [cbn; lia|reflexivity].
  - apply (writes_keep _ _ 86 Hf Hl 12 6); [lia|reflexivity].
  - rewrite <- Ers. assert (E1 : slice 18 2 (writes ws pkt) = [0; 32]) by (apply (writes_field _ _ 86 Hf Hl 18 [_; _]); [cbn; lia|reflexivity]). assert (E2 : slice 20 1 (writes ws pkt) = [IPPROTO_ICMPV6]) by (rewrite (writes_keep _ _ 86 Hf Hl 20 1); [by apply slice_1_lookup|lia|reflexivity]).
    change 36%nat with (2 + (1 + 33))%nat. rewrite <- !slice_app, E1. change (18 + 2)%nat with 20%nat. rewrite E2. change [0; 32; IPPROTO_ICMPV6; 255] with ([0; 32] ++ [IPPROTO_ICMPV6] ++ [255]). rewrite <- !app_assoc. f_equal. f_equal.
    apply (writes_field _ _ 86 Hf Hl 21 [_; _; _; _; _; _; _; _; _; _; _; _; _; _; _; _; _; _; _; _; _; _; _; _; _; _; _; _; _; _; _; _; _]); [cbn; lia|reflexivity].
  - apply (writes_field _ _ 86 Hf Hl 54 [_; _; _; _]); [cbn; lia|reflexivity].
  - assert (E1 : slice 58 4 (writes ws pkt) = [96; 0; 0; 0]) by (apply (writes_field _ _ 86 Hf Hl 58 [_; _; _; _]); [cbn; lia|reflexivity]). assert (E2 : slice 62 16 (writes ws pkt) = slice 62 16 pkt) by (apply (writes_keep _ _ 86 Hf Hl 62 16); [lia|reflexivity]).
    change 28%nat with (4 + (16 + 8))%nat. rewrite <- (slice_app 58 4 (16 + 8)), E1. change (58 + 4)%nat with 62%nat. rewrite <- (slice_app 62 16 8), E2, Ht. unfold advertised_target. f_equal. f_equal. apply (writes_field _ _ 86 Hf Hl 78 [_; _; _; _; _; _; _; _]); [cbn; lia|reflexivity].
  - by apply (writes_rest _ _ 86 Hf Hl).
Qed.

Lemma ra_writes_spec gw mac rm rs mtu pkt :
  length gw = 16%nat → length mac = 6%nat → length rm = 6%nat → length rs = 16%nat → (86 ≤ length pkt)%nat →
  rm = slice 6 6 pkt → rs = slice 22 16 pkt → unsealed gw mac [ND_RA; 0] (advertised_router mac mtu) pkt (writes (ra_writes gw mac rm rs mtu) pkt).
Proof.
  intros Hg Hm Hr Hs Hl Erm Ers. explode gw 16. explode mac 6. explode rm 6. explode rs 16. set (ws := ra_writes _ _ _ _ _). assert (Hf : forallb (fit 86) ws = true) by reflexivity. split.
  - apply writes_length.
  - rewrite <- Erm. apply (writes_field _ _ 86 Hf Hl 0 [_; _; _; _; _; _; _; _; _; _; _; _]); [cbn; lia|reflexivity].
  - apply (writes_keep _ _ 86 Hf Hl 12 6); [lia|reflexivity].
  - rewrite <- Ers. apply (writes_field _ _ 86 Hf Hl 18 [_; _; _; _; _; _; _; _; _; _; _; _; _; _; _; _; _; _; _; _; _; _; _; _; _; _; _; _; _; _; _; _; _; _; _; _]); [cbn; lia|reflexivity].
  - apply (writes_field _ _ 86 Hf Hl 54 [_; _; _; _]); [cbn; lia|reflexivity].
  - apply (writes_field _ _ 86 Hf Hl 58 [_; _; _; _; _; _; _; _; _; _; _; _; _; _; _; _; _; _; _; _; _; _; _; _; _; _; _; _]); [cbn; lia|reflexivity].
  - by apply (writes_rest _ _ 86 Hf Hl).
Qed.

(** ** Bytes *)

Lemma zeros_bytes n : bytes_ok (zeros n).
Proof. apply Forall_replicate. lia. Qed.

Lemma u8_byte v : 0 ≤ u8 v < 256.
Proof. apply Z.mod_pos_bound. lia. Qed.

Lemma be32_bytes v : bytes_ok (be32 v).
Proof. unfold be32. repeat (apply Forall_cons; split; [apply u8_byte|]). by apply Forall_nil. Qed.

(** Every list that is written is one of bytes. *)
Ltac all_bytes :=
  repeat first [apply Forall_nil; done | apply Forall_cons; split];
  cbn [snd fst]; unfold bytes_ok;
  repeat first [assumption | apply zeros_bytes | apply be32_bytes | apply be16_bytes | apply Forall_app; split | apply Forall_nil; done | apply Forall_cons; split | apply u8_byte | by cbv; split | lia].

Lemma na_bytes gw mac rm rs : bytes_ok gw → bytes_ok mac → bytes_ok rm → bytes_ok rs → Forall (λ w, bytes_ok w.2) (na_writes gw mac rm rs).
Proof. intros. unfold na_writes. all_bytes. Qed.

Lemma ra_bytes gw mac rm rs mtu : bytes_ok gw → bytes_ok mac → bytes_ok rm → bytes_ok rs → Forall (λ w, bytes_ok w.2) (ra_writes gw mac rm rs mtu).
Proof. intros. unfold ra_writes. all_bytes. Qed.

Lemma arp_bytes gw mac sm spa : bytes_ok gw → bytes_ok mac → bytes_ok sm → bytes_ok spa → Forall (λ w, bytes_ok w.2) (arp_writes gw mac sm spa).
Proof. intros. unfold arp_writes. all_bytes. Qed.

(** ** The responders *)

Section responders.
Context (gw mac pkt : list Z).
Context (Hgw : length gw = 16%nat) (Hmac : length mac = 6%nat) (Hgb : bytes_ok gw) (Hmb : bytes_ok mac) (Hpb : bytes_ok pkt).

(** What both responders read of a frame that is long enough. *)
Lemma reads : (86 ≤ length pkt)%nat →
  read_array 6 pkt 6 = Some (slice 6 6 pkt) ∧ read_array 16 pkt (ETH_LEN + 8) = Some (slice 22 16 pkt) ∧ read_array 16 pkt (ETH_LEN + IPV6_LEN + 8) = Some (slice 62 16 pkt) ∧
  read_u16_be pkt 12 = Some (be_at 12 pkt) ∧ bytes_ok (slice 6 6 pkt) ∧ length (slice 6 6 pkt) = 6%nat ∧ bytes_ok (slice 22 16 pkt) ∧ length (slice 22 16 pkt) = 16%nat.
Proof.
  intros Hl. change (ETH_LEN + 8) with 22. change (ETH_LEN + IPV6_LEN + 8) with 62. rewrite !read_array_Some by lia. rewrite read_u16_be_at by lia. destruct (slice_ok 6 6 pkt Hpb ltac:(lia)), (slice_ok 22 16 pkt Hpb ltac:(lia)). done.
Qed.

Lemma nd_reply_spec :
  (solicitation ND_NS gw pkt ∧ slice 62 16 pkt = gw ∧ ∃ pkt', nd_reply pkt gw mac = (true, pkt') ∧ nd_answer gw mac [ND_NA; 0] (advertised_target gw mac) pkt pkt' ∧ bytes_ok pkt') ∨
  (¬ (solicitation ND_NS gw pkt ∧ slice 62 16 pkt = gw) ∧ nd_reply pkt gw mac = (false, pkt)).
Proof.
  unfold nd_reply, solicitation, read_u8. change (ETH_LEN + IPV6_LEN + 32 - 2) with 84. change (Z.to_nat (ETH_LEN + 6)) with 20%nat. change (Z.to_nat (ETH_LEN + IPV6_LEN)) with 54%nat. case_bool_decide as Hz; [right; split; [by intros [(? & _) _]|done]|].
  destruct (decide (86 ≤ length pkt)%nat) as [Hl|Hl]; [|right; split; [by intros [(_ & ? & _) _]|]; rewrite bool_decide_true; [done|]; apply read_array_None; lia]. rewrite bool_decide_false by (rewrite read_array_Some by lia; done).
  destruct (reads Hl) as (-> & -> & -> & -> & Hb1 & Hl1 & Hb2 & Hl2). destruct (Z.eqb_spec (be_at 12 pkt) ETH_P_IPV6) as [H1|H1]; cbn [negb]; [|right; split; [by intros [(_ & _ & ? & _) _]|done]].
  case_bool_decide as H2; cbn [negb]; [|right; split; [by intros [(_ & _ & _ & ? & _) _]|done]]. case_bool_decide as H3; cbn [negb]; [|right; split; [by intros [(_ & _ & _ & _ & ?) _]|done]]. case_bool_decide as H4; cbn [negb]; [|right; split; [by intros [_ ?]|done]].
  left. split; [done|]. split; [done|]. eexists. split; [done|]. assert (Hwb : bytes_ok (writes (na_writes gw mac (slice 6 6 pkt) (slice 22 16 pkt)) pkt)) by (apply writes_bytes; [done|by apply na_bytes]).
  assert (Hans : nd_answer gw mac [ND_NA; 0] (advertised_target gw mac) pkt (seal (writes (na_writes gw mac (slice 6 6 pkt) (slice 22 16 pkt)) pkt))) by (apply sealed; [done|done|done|by apply na_writes_spec]). split; [done|]. unfold seal. apply write__bytes_ok; [done|apply be16_bytes].
Qed.

Lemma ra_reply_spec mtu :
  (solicitation ND_RS gw pkt ∧ ∃ pkt', ra_reply pkt gw mac mtu = (true, pkt') ∧ nd_answer gw mac [ND_RA; 0] (advertised_router mac mtu) pkt pkt' ∧ bytes_ok pkt') ∨
  (¬ solicitation ND_RS gw pkt ∧ ra_reply pkt gw mac mtu = (false, pkt)).
Proof.
  unfold ra_reply, solicitation, read_u8. change (RA_LEN - 2) with 84. change (Z.to_nat (ETH_LEN + 6)) with 20%nat. change (Z.to_nat (ETH_LEN + IPV6_LEN)) with 54%nat. case_bool_decide as Hz; [right; split; [by intros (? & _)|done]|].
  destruct (decide (86 ≤ length pkt)%nat) as [Hl|Hl]; [|right; split; [by intros (_ & ? & _)|]; rewrite bool_decide_true; [done|]; apply read_array_None; lia]. rewrite bool_decide_false by (rewrite read_array_Some by lia; done).
  destruct (reads Hl) as (-> & -> & _ & -> & Hb1 & Hl1 & Hb2 & Hl2). case_bool_decide as H1; cbn [negb]; [injection H1 as H1|right; split; [intros (_ & _ & E & _); by rewrite E in H1|done]].
  case_bool_decide as H2; cbn [negb]; [|right; split; [by intros (_ & _ & _ & ? & _)|done]]. case_bool_decide as H3; cbn [negb]; [|right; split; [by intros (_ & _ & _ & _ & ?)|done]].
  left. split; [done|]. eexists. split; [done|]. assert (Hwb : bytes_ok (writes (ra_writes gw mac (slice 6 6 pkt) (slice 22 16 pkt) mtu) pkt)) by (apply writes_bytes; [done|by apply ra_bytes]).
  assert (Hans : nd_answer gw mac [ND_RA; 0] (advertised_router mac mtu) pkt (seal (writes (ra_writes gw mac (slice 6 6 pkt) (slice 22 16 pkt) mtu) pkt))) by (apply sealed; [done|done|done|by apply ra_writes_spec]). split; [done|]. unfold seal. apply write__bytes_ok; [done|apply be16_bytes].
Qed.

End responders.

(** ** DHCP options *)

(** Options as they are on the wire: codes with lengths and values, padding anywhere
    between them, and the end. *)
Inductive encodes : list (Z * list Z) → list Z → Prop :=
| encodes_end : encodes [] [OPT_END]
| encodes_pad os l : encodes os l → encodes os (OPT_PAD :: l)
| encodes_opt c v os l : c ≠ OPT_PAD → c ≠ OPT_END → encodes os l → encodes ((c, v) :: os) (c :: Z.of_nat (length v) :: v ++ l).

(** The wire says one thing. *)
Lemma encodes_det os l os' r r' l' : encodes os l → encodes os' l' → l ++ r = l' ++ r' → os = os' ∧ l = l'.
Proof.
  intros He. revert os' l'. induction He as [|os l He IH|c v os l Hp Hn He IH]; intros os' l' He' Heq; destruct He' as [|os2 l2 He2|c2 v2 os2 l2 Hp2 Hn2 He2]; cbn [app] in Heq; apply (inj2 (::)) in Heq as [Hc Heq]; try done; try (by subst c); try (by subst c2).
  - destruct (IH _ _ He2 Heq) as [-> ->]. done.
  - subst c2. apply (inj2 (::)) in Heq as [Hlen Heq]. rewrite <- !app_assoc in Heq. apply Nat2Z.inj in Hlen. apply app_inj_1 in Heq as [-> Heq]; [|done]. destruct (IH _ _ He2 Heq) as [-> ->]. done.
Qed.

(** The message type: the last byte of the last option that has it. *)
Definition message_type (m : Z) (os : list (Z * list Z)) : Z := foldl (fun m o => if o.1 =? OPT_MESSAGE_TYPE then default m (last o.2) else m) m os.

(** The scan over a list. *)
Fixpoint scan_list (l : list Z) (s : Scan) : Scan :=
  match l with
  | [] => s
  | b :: l => match scan_byte s b with None => s | Some s => scan_list l s end
  end.

Lemma scan_take n pkt off s : 0 ≤ off → scan n pkt off s = scan_list (take n (drop (Z.to_nat off) pkt)) s.
Proof.
  revert off s. induction n as [|n IH]; intros off s Ho; [done|]. cbn [scan]. unfold read_u8. destruct (pkt !! Z.to_nat off) as [b|] eqn:E.
  - rewrite (drop_S _ _ _ E). cbn [take scan_list]. destruct (scan_byte s b) as [s'|]; [|done]. rewrite IH by lia. by replace (Z.to_nat (off + 1)) with (S (Z.to_nat off)) by lia.
  - rewrite drop_ge by (by apply lookup_ge_None). by rewrite take_nil.
Qed.

Lemma scan_value v l m b : v ≠ [] → scan_list (v ++ l) (mkScan m InValue (Z.of_nat (length v)) b) = scan_list l (mkScan (if b then default m (last v) else m) ExpectCode 0 b).
Proof.
  revert m. induction v as [|x v IH]; intros m Hv; [done|]. cbn [app scan_list scan_byte sm_state msg_type sm_remain sm_is_msgtype]. replace (Z.of_nat (length (x :: v)) - 1) with (Z.of_nat (length v)) by (cbn [length]; lia). destruct v as [|y v].
  - cbn. by destruct b.
  - rewrite (proj2 (Z.eqb_neq _ 0)) by (cbn [length]; lia). rewrite (proj2 (Z.eqb_neq _ 1)) by (cbn [length]; lia). rewrite andb_false_r, IH by done. done.
Qed.

(** The scan finds the type in anything well formed. *)
Lemma scan_encodes os e rest m r b : encodes os e → msg_type (scan_list (e ++ rest) (mkScan m ExpectCode r b)) = message_type m os.
Proof.
  intros He. revert m r b. induction He as [|os l He IH|c v os l Hp Hn He IH]; intros m r b; [done| |].
  - cbn [app scan_list scan_byte sm_state]. rewrite Z.eqb_refl. apply IH.
  - cbn [app scan_list scan_byte sm_state]. rewrite (proj2 (Z.eqb_neq c _)), (proj2 (Z.eqb_neq c OPT_END)) by done. cbn [scan_byte sm_state msg_type sm_remain sm_is_msgtype]. rewrite <- app_assoc. destruct v as [|x v].
    + cbn [length Z.of_nat Z.eqb app]. rewrite IH. unfold message_type. cbn. by destruct (c =? OPT_MESSAGE_TYPE).
    + rewrite (proj2 (Z.eqb_neq _ 0)) by (cbn [length]; lia). rewrite scan_value by done. rewrite IH. done.
Qed.

(** ** A DHCP request *)

(** A frame to the DHCP server: Ethernet, IPv4 without options, UDP, the magic cookie. *)
Definition to_server (pkt : list Z) : Prop :=
  (282 ≤ length pkt)%nat ∧ be_at 12 pkt = ETH_P_IP ∧ Z.land (pkt !!! 14%nat) 15 = 5 ∧ pkt !!! 23%nat = IPPROTO_UDP ∧ be_at 36 pkt = 67 ∧ of_be32 (slice 278 4 pkt) = DHCP_MAGIC.

Lemma read_u8_total pkt off : (Z.to_nat off < length pkt)%nat → read_u8 pkt off = Some (pkt !!! Z.to_nat off).
Proof. intros Hl. unfold read_u8. by apply list_lookup_lookup_total_lt. Qed.

Lemma dhcp_parse_spec pkt :
  match parse pkt with
  | Some req => to_server pkt ∧ ∃ m, m = msg_type (scan OPTS_SCAN_BYTES pkt F_OPTS (mkScan 0 ExpectCode 0 false)) ∧ (m = DHCP_MSG_DISCOVER ∨ m = DHCP_MSG_REQUEST) ∧
      req = mkRequest (if m =? DHCP_MSG_DISCOVER then DHCP_MSG_OFFER else DHCP_MSG_ACK) (slice 6 6 pkt) (slice 46 8 pkt)
  | None => ¬ (to_server pkt ∧ ∃ m, m = msg_type (scan OPTS_SCAN_BYTES pkt F_OPTS (mkScan 0 ExpectCode 0 false)) ∧ (m = DHCP_MSG_DISCOVER ∨ m = DHCP_MSG_REQUEST))
  end.
Proof.
  unfold parse, to_server. set (m := msg_type _). change (F_BOOTP + BOOTP_MAGIC_OFF) with 278. change (F_BOOTP + 4) with 46. change (ETH_LEN + 22) with 36. change (ETH_LEN + 9) with 23. change ETH_LEN with 14.
  destruct (decide (282 ≤ length pkt)%nat) as [Hl|Hl]; [|rewrite (read_array_None 4 pkt 278) by lia; by intros [(? & _) _]].
  rewrite !read_array_Some, !read_u16_be_at, !read_u8_total by lia. change (Z.to_nat 278) with 278%nat. change (Z.to_nat 12) with 12%nat. change (Z.to_nat 14) with 14%nat. change (Z.to_nat 23) with 23%nat. change (Z.to_nat 36) with 36%nat. change (Z.to_nat 6) with 6%nat. change (Z.to_nat 46) with 46%nat. cbn [mbind option_bind].
  destruct (Z.eqb_spec (be_at 12 pkt) ETH_P_IP) as [H1|H1]; cbn [negb orb]; [|by intros [(_ & ? & _) _]]. destruct (Z.eqb_spec (Z.land (pkt !!! 14%nat) 15) 5) as [H2|H2]; cbn [negb orb]; [|by intros [(_ & _ & ? & _) _]].
  destruct (Z.eqb_spec (pkt !!! 23%nat) IPPROTO_UDP) as [H3|H3]; cbn [negb orb]; [|by intros [(_ & _ & _ & ? & _) _]]. destruct (Z.eqb_spec (be_at 36 pkt) 67) as [H4|H4]; cbn [negb orb]; [|by intros [(_ & _ & _ & _ & ? & _) _]]. destruct (Z.eqb_spec (of_be32 (slice 278 4 pkt)) DHCP_MAGIC) as [H5|H5]; cbn [negb]; [|by intros [(_ & _ & _ & _ & _ & ?) _]].
  destruct (Z.eqb_spec m DHCP_MSG_DISCOVER) as [H6|H6]; [|destruct (Z.eqb_spec m DHCP_MSG_REQUEST) as [H7|H7]]; cbn [negb andb].
  - split; [done|]. exists m. rewrite H6. split_and!; try done. by left.
  - split; [done|]. exists m. rewrite H7. split_and!; try done. by right.
  - intros (_ & m' & -> & [?|?]); done.
Qed.

(** ** Slots of options *)

Lemma splice_nil pkt o : splice pkt o [] = pkt.
Proof. unfold splice. cbn. rewrite Nat.add_0_r. apply take_drop. Qed.

Lemma splice_snoc pkt o a b : (o + length a + length b ≤ length pkt)%nat → splice (splice pkt o a) (o + length a) b = splice pkt o (a ++ b).
Proof.
  intros Hl. apply list_eq. intros i. destruct (decide (o + length a ≤ i < o + length a + length b)%nat) as [Hi|Hi].
  - rewrite splice_lookup_in by (rewrite ?splice_length; lia). rewrite splice_lookup_in by (rewrite ?length_app; lia). rewrite lookup_app_r by lia. f_equal. lia.
  - rewrite splice_lookup_out by (rewrite ?splice_length; lia). destruct (decide (o ≤ i < o + length a)%nat) as [Ha|Ha].
    + rewrite !splice_lookup_in by (rewrite ?length_app; lia). by rewrite lookup_app_l by lia.
    + rewrite !splice_lookup_out by (rewrite ?length_app; lia). done.
Qed.

Lemma concat_length_const {A} m (l : list (list A)) : (∀ x, x ∈ l → length x = m) → length (concat l) = (m * length l)%nat.
Proof. induction l as [|x l IH]; intros Hl; [cbn; lia|]. cbn. rewrite length_app, IH by (intros y Hy; apply Hl; by right). rewrite (Hl x) by left. lia. Qed.

(** Pieces of one size, one behind the other. *)
Lemma writes_seq off m (f : nat → list Z) n pkt : 0 ≤ off → (∀ j, (j < n)%nat → length (f j) = m) → (Z.to_nat off + m * n ≤ length pkt)%nat →
  writes ((fun j => (off + Z.of_nat j * Z.of_nat m, f j)) <$> seq 0 n) pkt = splice pkt (Z.to_nat off) (concat (f <$> seq 0 n)).
Proof.
  intros Ho. induction n as [|n IH]; intros Hf Hl; [symmetry; apply splice_nil|]. rewrite seq_S, !fmap_app, writes_app, IH, concat_app by (intros; try apply Hf; lia). cbn [fmap list_fmap writes foldl concat fst snd]. rewrite app_nil_r.
  assert (Hc : length (concat (f <$> seq 0 n)) = (m * n)%nat). { rewrite (concat_length_const m), length_fmap, length_seq; [done|]. intros x (j & -> & Hj%elem_of_seq)%list_elem_of_fmap. apply Hf. lia. }
  rewrite write__splice by (rewrite splice_length, Hf; lia). replace (Z.to_nat (off + Z.of_nat (0 + n) * Z.of_nat m)) with (Z.to_nat off + length (concat (f <$> seq 0 n)))%nat by lia. apply splice_snoc. rewrite Hc, (Hf (0 + n)%nat) by lia. lia.
Qed.

Lemma filter_none {A} (f : A → bool) l : (∀ x, x ∈ l → f x = false) → List.filter f l = [].
Proof. induction l as [|x l IH]; intros Hf; [done|]. cbn. rewrite (Hf x) by left. apply IH. intros y Hy. apply Hf. by right. Qed.

Lemma seq_below (n : Z) max : 0 ≤ n ≤ Z.of_nat max → List.filter (fun j => Z.of_nat j <? n) (seq 0 max) = seq 0 (Z.to_nat n).
Proof.
  intros Hn. replace max with (Z.to_nat n + (max - Z.to_nat n))%nat by lia. rewrite seq_app, List.filter_app, List.forallb_filter_id, filter_none; [apply app_nil_r| |].
  - intros x [Hx _]%elem_of_seq. apply Z.ltb_ge. lia.
  - apply forallb_forall. intros x Hx%in_seq. apply Z.ltb_lt. lia.
Qed.

Lemma lookups_take {A} `{Inhabited A} (l : list A) n : (n ≤ length l)%nat → (fun j => l !!! j) <$> seq 0 n = take n l.
Proof.
  intros Hn. apply list_eq. intros i. rewrite list_lookup_fmap. destruct (decide (i < n)%nat) as [Hi|Hi].
  - rewrite lookup_seq_lt, lookup_take_lt by done. cbn. symmetry. apply list_lookup_lookup_total_lt. lia.
  - rewrite lookup_seq_ge, lookup_take_ge by lia. done.
Qed.

(** The writes of a slot: cleared, then a code, a length and a value. *)
Lemma slot_spec o z c len X pkt : (2 + length X ≤ z)%nat → (o + z ≤ length pkt)%nat →
  slice o z (splice (splice (splice pkt o (zeros z)) o [c; len]) (o + 2) X) = [c; len] ++ X ++ zeros (z - 2 - length X).
Proof.
  intros Hx Hl. assert (Hz : length (zeros z) = z) by apply length_replicate. set (p1 := splice pkt o (zeros z)). assert (L1 : length p1 = length pkt) by (apply splice_length; lia). set (p2 := splice p1 o [c; len]). assert (L2 : length p2 = length pkt) by (rewrite <- L1; apply splice_length; cbn; lia).
  rewrite (slice_splice_in p2 (o + 2) X o z) by lia. unfold p2. rewrite (slice_splice_in p1 o [c; len] o z) by (cbn [length]; lia). assert (Hs : slice o z p1 = zeros z) by (unfold p1; rewrite <- Hz at 1; apply slice_splice_same; lia). rewrite Hs, Nat.sub_diag. replace (o + 2 - o)%nat with 2%nat by lia.
  destruct z as [|[|z]]; [lia|lia|]. unfold splice. cbn [take app length Nat.add drop zeros replicate]. rewrite take_0, !drop_0, drop_replicate. cbn [app]. unfold zeros. by replace (S (S z) - 2 - length X)%nat with (z - length X)%nat by lia.
Qed.

(** ** The reply *)

(** Configurations as the maps hold them. *)
Definition config_ok (c : DhcpConfig) : Prop := 0 ≤ cfg_mtu c < 65536 ∧ 0 ≤ dns4_len c < 256 ∧ length (dns4 c) = MAX_DNS ∧ Forall (λ a, length a = 4%nat ∧ bytes_ok a) (dns4 c).
Definition meta_ok (d : DhcpMeta) : Prop := 0 ≤ hostname_len d < 256 ∧ length (hostname d) = MAX_HOSTNAME ∧ bytes_ok (hostname d).
Definition if_some {A : Type} (P : A → Prop) (o : option A) : Prop := ∀ a, o = Some a → P a.

(** What the configuration gives a guest. *)
Definition given_mtu (cfg : option DhcpConfig) : Z := match cfg with Some c => cfg_mtu c | None => 1500 - ENCAP_OVERHEAD_V6 end.
Definition given_dns (cfg : option DhcpConfig) : list Z := match cfg with Some c => concat (take (Z.to_nat (dns4_len c)) (dns4 c)) | None => [] end.
Definition given_name (dm : option DhcpMeta) : list Z := match dm with Some d => take (Z.to_nat (hostname_len d)) (hostname d) | None => [] end.

(** A slot of [z] bytes with an option, or cleared. *)
Definition slot (z : nat) (c : Z) (v : list Z) : list Z := if bool_decide (v = []) then zeros z else [c; Z.of_nat (length v)] ++ v ++ zeros (z - 2 - length v).

Lemma slot_cleared o z pkt : (o + z ≤ length pkt)%nat → slice o z (splice pkt o (zeros z)) = zeros z.
Proof. intros Hl. assert (Hz : length (zeros z) = z) by apply length_replicate. rewrite <- Hz at 1. apply slice_splice_same. lia. Qed.

(** Clearing a slot, and filling it where there is something to fill in. *)
Lemma slot_writes o z c len m n (f : nat → list Z) pkt : 0 ≤ o → (0 < m)%nat → (∀ j, (j < n)%nat → length (f j) = m) → (2 + m * n ≤ z)%nat → (Z.to_nat o + z ≤ length pkt)%nat → len = Z.of_nat (m * n) →
  slice (Z.to_nat o) z (writes ((o, zeros z) :: if (0 <? n)%nat then (o, [c; len]) :: ((fun j => (o + 2 + Z.of_nat j * Z.of_nat m, f j)) <$> seq 0 n) else []) pkt) = slot z c (concat (f <$> seq 0 n)).
Proof.
  intros Ho Hm Hf Hz Hl ->. assert (Hzl : length (zeros z) = z) by apply length_replicate. assert (Hx : length (concat (f <$> seq 0 n)) = (m * n)%nat). { rewrite (concat_length_const m), length_fmap, length_seq; [done|]. intros x (j & -> & Hj%elem_of_seq)%list_elem_of_fmap. apply Hf. lia. }
  set (p1 := splice pkt (Z.to_nat o) (zeros z)). assert (L1 : length p1 = length pkt) by (apply splice_length; lia). assert (Hcl : ∀ ws, writes ((o, zeros z) :: ws) pkt = writes ws p1) by (intros ws; unfold p1; rewrite <- write__splice by lia; done). rewrite Hcl. unfold slot. destruct (0 <? n)%nat eqn:En.
  - apply Nat.ltb_lt in En. rewrite bool_decide_false by (intros E; rewrite E in Hx; cbn in Hx; nia). set (p2 := splice p1 (Z.to_nat o) [c; Z.of_nat (m * n)]). assert (L2 : length p2 = length pkt) by (rewrite <- L1; apply splice_length; cbn [length]; lia).
    assert (Hop : ∀ ws, writes ((o, [c; Z.of_nat (m * n)]) :: ws) p1 = writes ws p2) by (intros ws; unfold p2; rewrite <- write__splice by (cbn [length]; lia); done). rewrite Hop. rewrite writes_seq by (done || lia). replace (Z.to_nat (o + 2)) with (Z.to_nat o + 2)%nat by lia. unfold p2, p1. rewrite slot_spec, Hx by (rewrite ?Hx; lia). done.
  - apply Nat.ltb_ge in En. assert (n = 0)%nat as -> by lia. rewrite bool_decide_true by done. apply slot_cleared. lia.
Qed.

Lemma take_min {A} (l : list A) (n : Z) : 0 ≤ n → take (Z.to_nat n) l = take (Z.to_nat (Z.min n (Z.of_nat (length l)))) l.
Proof. intros Hn. destruct (Z.le_gt_cases n (Z.of_nat (length l))); [by rewrite Z.min_l by lia|]. rewrite Z.min_r by lia. rewrite !take_ge by lia. done. Qed.

Lemma if_below (n : Z) {A} (a b : A) : 0 ≤ n → (if 0 <? n then a else b) = if (0 <? Z.to_nat n)%nat then a else b.
Proof. intros Hn. destruct (Z.ltb_spec 0 n), (Nat.ltb_spec 0 (Z.to_nat n)); done || lia. Qed.

Lemma dns_slot cfg pkt : if_some config_ok cfg → (428 ≤ length pkt)%nat → slice 327 34 (writes (dns_writes cfg) pkt) = slot 34 OPT_DNS (given_dns cfg).
Proof.
  intros Hc Hl. unfold dns_writes, given_dns. change (F_OPTS + O_DNS) with 327. destruct cfg as [c|]; [|apply (slot_writes 327 34 OPT_DNS 0 4 0 (λ _, [])); done || lia]. destruct (Hc c eq_refl) as (_ & Hlen & Hn & Ha).
  set (n := Z.min (dns4_len c) (Z.of_nat MAX_DNS)). assert (Hn8 : 0 ≤ n ≤ 8) by (unfold n, MAX_DNS; lia). rewrite seq_below by (unfold MAX_DNS; lia). rewrite if_below by lia. rewrite take_min, Hn by lia. fold n. rewrite <- (lookups_take (dns4 c)) by (rewrite Hn; unfold MAX_DNS; lia).
  apply (slot_writes 327 34 OPT_DNS _ 4); try lia.
  - intros j Hj. rewrite Forall_forall in Ha. apply (Ha (dns4 c !!! j)). apply list_elem_of_lookup_total_2. rewrite Hn. unfold MAX_DNS. lia.
  - unfold u8. rewrite Z.mod_small; lia.
Qed.

Lemma hostname_slot dm pkt : if_some meta_ok dm → (428 ≤ length pkt)%nat → slice 361 66 (writes (hostname_writes dm) pkt) = slot 66 OPT_HOSTNAME (given_name dm).
Proof.
  intros Hc Hl. unfold hostname_writes, given_name. change (F_OPTS + O_HOSTNAME) with 361. destruct dm as [d|]; [|apply (slot_writes 361 66 OPT_HOSTNAME 0 1 0 (λ _, [])); done || lia]. destruct (Hc d eq_refl) as (Hlen & Hn & _).
  set (n := Z.min (hostname_len d) (Z.of_nat MAX_HOSTNAME)). assert (Hn8 : 0 ≤ n ≤ 64) by (unfold n, MAX_HOSTNAME; lia). rewrite seq_below by (unfold MAX_HOSTNAME; lia). rewrite if_below by lia. rewrite take_min, Hn by lia. fold n.
  assert (Hcat : take (Z.to_nat n) (hostname d) = concat ((fun k => [hostname d !!! k]) <$> seq 0 (Z.to_nat n))). { rewrite <- (lookups_take (hostname d)) by (rewrite Hn; unfold MAX_HOSTNAME; lia). generalize (seq 0 (Z.to_nat n)). induction l as [|x l IH]; [done|]. cbn. by rewrite IH. } rewrite Hcat.
  rewrite (list_fmap_ext (fun k => (361 + 2 + Z.of_nat k, [hostname d !!! k])) (fun k => (361 + 2 + Z.of_nat k * Z.of_nat 1, [hostname d !!! k]))) by (intros i k _; f_equal; lia).
  apply (slot_writes 361 66 OPT_HOSTNAME _ 1 _ (fun k => [hostname d !!! k])); try lia; [done|]. unfold u8. rewrite Z.mod_small; lia.
Qed.

(** Writes within a window leave the rest. *)
Definition within (a b : nat) (w : Z * list Z) : Prop := (a ≤ Z.to_nat w.1)%nat ∧ (Z.to_nat w.1 + length w.2 ≤ b)%nat.

Lemma writes_outside a b ws pkt o m : Forall (within a b) ws → (b ≤ length pkt)%nat → (o + m ≤ a ∨ b ≤ o)%nat → slice o m (writes ws pkt) = slice o m pkt.
Proof.
  intros Hw. revert pkt. induction Hw as [|w ws [H1 H2] _ IH]; intros pkt Hl Ho; [done|]. change (writes (w :: ws) pkt) with (writes ws (write_ w.1 w.2 pkt)). rewrite IH by (rewrite ?write__length; done). rewrite write__splice by lia. apply slice_splice_out; lia.
Qed.

Lemma dns_within cfg : if_some config_ok cfg → Forall (within 327 361) (dns_writes cfg).
Proof.
  intros Hc. unfold dns_writes. change (F_OPTS + O_DNS) with 327. apply Forall_cons. split; [by vm_compute; lia|]. destruct cfg as [c|]; [|by constructor]. destruct (Hc c eq_refl) as (_ & Hlen & Hn & Ha). case_match; [|by constructor]. apply Forall_cons. split; [split; cbn; lia|].
  apply Forall_fmap, Forall_forall. intros j Hj. apply list_elem_of_In, filter_In in Hj as [Hj%in_seq _]. rewrite Forall_forall in Ha. assert (Hl4 : length (dns4 c !!! j) = 4%nat) by (apply (Ha (dns4 c !!! j)), list_elem_of_lookup_total_2; rewrite Hn; unfold MAX_DNS in *; lia). unfold MAX_DNS in Hj. split; cbn [fst snd]; lia.
Qed.

Lemma hostname_within dm : Forall (within 361 427) (hostname_writes dm).
Proof.
  unfold hostname_writes. change (F_OPTS + O_HOSTNAME) with 361. apply Forall_cons. split; [by vm_compute; lia|]. destruct dm as [d|]; [|by constructor]. case_match; [|by constructor]. apply Forall_cons. split; [split; cbn; lia|].
  apply Forall_fmap, Forall_forall. intros j Hj. apply list_elem_of_In, filter_In in Hj as [Hj%in_seq _]. unfold MAX_HOSTNAME in Hj. split; cbn [fst snd length]; lia.
Qed.

(** *** The IPv4 header *)

Lemma add_be16_spec s hi lo : 0 ≤ hi < 256 → 0 ≤ lo < 256 → 0 ≤ s → s + 65535 < 2 ^ 32 → add_be16 s hi lo = s + (hi * 256 + lo).
Proof. intros Hh Hl Hs Hm. unfold add_be16. rewrite Z.shiftl_mul_pow2 by lia. rewrite (lor_low hi 8 lo) by lia. apply u32_small. lia. Qed.

(** The header with its checksum. *)
Definition sealed_header (vihl tos : Z) (gw : list Z) : list Z :=
  take 10 (ip_header vihl tos gw) ++ be16 (fold_core (header_sum (ip_header vihl tos gw))) ++ drop 12 (ip_header vihl tos gw).

Lemma header_verifies vihl tos gw : 0 ≤ vihl < 256 → 0 ≤ tos < 256 → length gw = 4%nat → bytes_ok gw → verifies (sum16 (sealed_header vihl tos gw)).
Proof.
  intros Hv Ht Hl Hb. explode gw 4. repeat (apply Forall_cons in Hb as [? Hb]). assert (Eh : ip_header vihl tos [z; z0; z1; z2] = [vihl; tos; 1; 158; 0; 0; 0; 0; 64; 17; 0; 0; z; z0; z1; z2; 255; 255; 255; 255]) by done. unfold sealed_header. rewrite Eh. set (h := [vihl; _; _; _; _; _; _; _; _; _; _; _; _; _; _; _; _; _; _; _]). set (S := vihl * 256 + tos + (1 * 256 + 158) + (64 * 256 + 17) + (z * 256 + z0) + (z1 * 256 + z2) + 65535 + 65535).
  assert (HS : header_sum h = S). { unfold header_sum, h. cbn [foldl lookup_total list_lookup_total]. repeat match goal with |- context [add_be16 ?s ?a ?b] => lazymatch s with context [add_be16 _ _ _] => fail | _ => rewrite (add_be16_spec s a b) by lia end end. unfold S. lia. }
  rewrite HS. set (ck := fold_core S). assert (HSr : 0 ≤ S < 2 ^ 32) by (unfold S; lia). destruct (fold_spec S HSr) as (Hr & Hd & _). assert (Eck : ck = 65535 - fold S) by (unfold ck; rewrite fold_core_spec by done; done).
  rewrite sum16_app by done. rewrite sum16_app by (by rewrite (proj2 (be16_bytes ck))). rewrite sum16_be16 by lia.
  assert (E : sum16 (take 10 h) + (ck + sum16 (drop 12 h)) = S + ck). { unfold h, S. cbn [take drop sum16]. lia. }
  rewrite E, Eck. assert (HS0 : 0 < S) by (unfold S; lia). split; [lia|]. replace (S + (65535 - fold S)) with ((S - fold S) + 65535) by lia. apply Z.divide_add_r; [done|by exists 1].
Qed.

(** *** The frame *)

(** The options of a lease. *)
Definition lease_options (rt : Z) (gw : list Z) (cfg : option DhcpConfig) (dm : option DhcpMeta) : list (Z * list Z) :=
  [(OPT_MESSAGE_TYPE, [rt]); (OPT_LEASE_TIME, [255; 255; 255; 255]); (OPT_SERVER_ID, gw); (OPT_CLASSLESS_ROUTE, [16; 169; 254; 0; 0; 0; 0; 0] ++ gw); (OPT_SUBNET_MASK, [255; 255; 255; 255])] ++
  (if given_mtu cfg =? 0 then [] else [(OPT_MTU, be16 (given_mtu cfg))]) ++
  (if bool_decide (given_dns cfg = []) then [] else [(OPT_DNS, given_dns cfg)]) ++
  (if bool_decide (given_name dm = []) then [] else [(OPT_HOSTNAME, given_name dm)]).

(** The reply to a request: a broadcast from the gateway to the client's port, with valid
    header checksum, that gives the guest its address and the options of its lease. *)
Record dhcp_reply (req : Dhcpv4Request) (guest gw : list Z) (cfg : option DhcpConfig) (dm : option DhcpMeta) (pkt pkt' : list Z) : Prop := mkReply {
  dr_length : length pkt' = 428%nat;
  dr_eth : slice 0 14 pkt' = client_mac req ++ GW_MAC ++ [8; 0];
  dr_ip : slice 14 20 pkt' = sealed_header (pkt !!! 14%nat) (pkt !!! 15%nat) gw;
  dr_checksum : verifies (sum16 (slice 14 20 pkt'));
  dr_udp : slice 34 8 pkt' = [0; 67; 0; 68; 1; 138; 0; 0];
  dr_op : slice 42 1 pkt' = [2];
  dr_xid : slice 46 8 pkt' = xid_secs_flags req;
  dr_addresses : slice 58 18 pkt' = guest ++ gw ++ gw ++ client_mac req;
  dr_magic : slice 278 4 pkt' = slice 278 4 pkt;
  dr_options : encodes (lease_options (reply_type req) gw cfg dm) (slice 282 146 pkt')
}.

Lemma encodes_zeros n os l : encodes os l → encodes os (zeros n ++ l).
Proof. intros He. induction n as [|n IH]; [done|]. exact (encodes_pad _ _ IH). Qed.

Lemma encodes_slot z c v os l : c ≠ OPT_PAD → c ≠ OPT_END → encodes os l → encodes ((if bool_decide (v = []) then [] else [(c, v)]) ++ os) (slot z c v ++ l).
Proof.
  intros Hp Hn He. unfold slot. case_bool_decide; [by apply encodes_zeros|]. rewrite <- !app_assoc. apply (encodes_opt c v os (zeros (z - 2 - length v) ++ l)); [done|done|]. by apply encodes_zeros.
Qed.

(** The first options, which have fixed places. *)
Definition fixed_options (rt : Z) (gw : list Z) (mtu : Z) : list Z :=
  [OPT_MESSAGE_TYPE; 1; rt; OPT_LEASE_TIME; 4; 255; 255; 255; 255; OPT_SERVER_ID; 4] ++ gw ++ [OPT_CLASSLESS_ROUTE; 12; 16; 169; 254; 0; 0; 0; 0; 0] ++ gw ++ [OPT_SUBNET_MASK; 4; 255; 255; 255; 255] ++
  (if mtu =? 0 then zeros 4 else [OPT_MTU; 2] ++ be16 mtu) ++ zeros 6.

Lemma options_encoded rt gw cfg dm : length gw = 4%nat →
  encodes (lease_options rt gw cfg dm) (fixed_options rt gw (given_mtu cfg) ++ slot 34 OPT_DNS (given_dns cfg) ++ slot 66 OPT_HOSTNAME (given_name dm) ++ [OPT_END]).
Proof.
  intros Hg. explode gw 4. unfold fixed_options, lease_options. assert (Hrest : encodes ((if bool_decide (given_dns cfg = []) then [] else [(OPT_DNS, given_dns cfg)]) ++ (if bool_decide (given_name dm = []) then [] else [(OPT_HOSTNAME, given_name dm)])) (slot 34 OPT_DNS (given_dns cfg) ++ slot 66 OPT_HOSTNAME (given_name dm) ++ [OPT_END])).
  { apply encodes_slot; [done|done|]. rewrite <- (app_nil_r (if bool_decide (given_name dm = []) then _ else _)). apply encodes_slot; [done|done|constructor]. }
  revert Hrest. generalize (slot 34 OPT_DNS (given_dns cfg) ++ slot 66 OPT_HOSTNAME (given_name dm) ++ [OPT_END]). intros l Hrest. apply (encodes_opt _ [rt]); [done|done|]. apply (encodes_opt _ [255; 255; 255; 255]); [done|done|]. apply (encodes_opt _ [z; z0; z1; z2]); [done|done|]. apply (encodes_opt _ [16; 169; 254; 0; 0; 0; 0; 0; z; z0; z1; z2]); [done|done|]. apply (encodes_opt _ [255; 255; 255; 255]); [done|done|].
  destruct (given_mtu cfg =? 0); [exact (encodes_zeros 4 _ _ (encodes_zeros 6 _ _ Hrest))|]. apply (encodes_opt _ (be16 (given_mtu cfg)) _ (zeros 6 ++ l)); [done|done|]. by apply (encodes_zeros 6).
Qed.

(** The writes before and after the slots. *)
Lemma first_writes req guest gw mtu pkt : length (client_mac req) = 6%nat → length (xid_secs_flags req) = 8%nat → length guest = 4%nat → length gw = 4%nat → (428 ≤ length pkt)%nat →
  let q := writes (bootp_writes req guest gw ++ option_writes req gw mtu) pkt in
  slice 14 2 q = slice 14 2 pkt ∧ slice 42 1 q = [2] ∧ slice 46 8 q = xid_secs_flags req ∧ slice 58 18 q = guest ++ gw ++ gw ++ client_mac req ∧ slice 278 4 q = slice 278 4 pkt ∧ slice 282 45 q = fixed_options (reply_type req) gw mtu.
Proof.
  destruct req as [rt mac xid]. cbn [client_mac xid_secs_flags reply_type]. intros Hm Hx Hg Hw Hl. explode mac 6. explode xid 8. explode guest 4. explode gw 4. cbn zeta. unfold fixed_options, option_writes. destruct (mtu =? 0) eqn:Emtu; cbn [negb].
  all: set (ws := _ ++ _); assert (Hf : forallb (fit 428) ws = true) by reflexivity; split_and!.
  all: try (apply (writes_keep _ _ 428 Hf Hl); [lia|reflexivity]).
  all: first [apply (writes_field _ _ 428 Hf Hl 42 [_]) | apply (writes_field _ _ 428 Hf Hl 46 [_; _; _; _; _; _; _; _]) | apply (writes_field _ _ 428 Hf Hl 58 [_; _; _; _; _; _; _; _; _; _; _; _; _; _; _; _; _; _]) |
    apply (writes_field _ _ 428 Hf Hl 282 [_; _; _; _; _; _; _; _; _; _; _; _; _; _; _; _; _; _; _; _; _; _; _; _; _; _; _; _; _; _; _; _; _; _; _; _; _; _; _; _; _; _; _; _; _])]; [cbn; lia|reflexivity].
Qed.

Lemma last_writes mac vihl tos gw pkt : length mac = 6%nat → length gw = 4%nat → (428 ≤ length pkt)%nat →
  let q := writes ([(F_OPTS + OPT_BLOCK_MAX - 1, [OPT_END]); (0, mac); (6, GW_MAC); (12, be16 ETH_P_IP)] ++ header_writes vihl tos gw) pkt in
  slice 0 14 q = mac ++ GW_MAC ++ [8; 0] ∧ slice 14 20 q = sealed_header vihl tos gw ∧ slice 34 8 q = [0; 67; 0; 68; 1; 138; 0; 0] ∧ slice 427 1 q = [OPT_END] ∧ ∀ o m, (42 ≤ o)%nat → (o + m ≤ 427)%nat → slice o m q = slice o m pkt.
Proof.
  intros Hm Hg Hl. explode mac 6. explode gw 4. cbn zeta. unfold header_writes, sealed_header. set (ck := be16 (fold_core _)). assert (Hck : ∃ c1 c2, ck = [c1; c2]) by (by do 2 eexists). destruct Hck as (c1 & c2 & Eck). rewrite Eck. clearbody ck. clear Eck.
  set (ws := _ ++ _). assert (Hf : forallb (fit 428) ws = true) by reflexivity. split_and!.
  - apply (writes_field _ _ 428 Hf Hl 0 [_; _; _; _; _; _; _; _; _; _; _; _; _; _]); [cbn; lia|reflexivity].
  - apply (writes_field _ _ 428 Hf Hl 14 [_; _; _; _; _; _; _; _; _; _; _; _; _; _; _; _; _; _; _; _]); [cbn; lia|reflexivity].
  - apply (writes_field _ _ 428 Hf Hl 34 [_; _; _; _; _; _; _; _]); [cbn; lia|reflexivity].
  - apply (writes_field _ _ 428 Hf Hl 427 [_]); [cbn; lia|reflexivity].
  - intros o m Ho Hom. assert (Hk : slice 42 385 (writes ws pkt) = slice 42 385 pkt) by (apply (writes_keep _ _ 428 Hf Hl); [lia|reflexivity]). replace o with (42 + (o - 42))%nat by lia. rewrite <- !(slice_slice (o - 42) m 42 385) by lia. by rewrite Hk.
Qed.

Lemma slice_2_lookups (p q : list Z) i : slice i 2 p = slice i 2 q → p !!! i = q !!! i ∧ p !!! S i = q !!! S i.
Proof.
  intros E. split; [rewrite <- (Nat.add_0_r i)|rewrite <- (Nat.add_1_r i)]; rewrite <- !(slice_total i 2) by lia; by rewrite E.
Qed.

Lemma eth_writes mac pkt : length mac = 6%nat → (428 ≤ length pkt)%nat → slice 14 2 (writes [(F_OPTS + OPT_BLOCK_MAX - 1, [OPT_END]); (0, mac); (6, GW_MAC); (12, be16 ETH_P_IP)] pkt) = slice 14 2 pkt.
Proof. intros Hm Hl. explode mac 6. set (ws := [_; _; _; _]). assert (Hf : forallb (fit 428) ws = true) by reflexivity. apply (writes_keep _ _ 428 Hf Hl); [lia|reflexivity]. Qed.

Lemma write_spec req guest gw cfg dm pkt : length pkt = 428%nat → bytes_ok pkt → length (client_mac req) = 6%nat → length (xid_secs_flags req) = 8%nat → length guest = 4%nat → length gw = 4%nat → bytes_ok gw → if_some config_ok cfg → if_some meta_ok dm →
  ∃ pkt', write pkt req guest gw GW_MAC cfg dm = (true, pkt') ∧ dhcp_reply req guest gw cfg dm pkt pkt'.
Proof.
  intros Hl Hb Hm Hx Hgu Hgw Hgb Hc Hd. unfold write. cbv zeta. change (REPLY_LEN - 1) with 427. rewrite bool_decide_false by (rewrite read_array_Some by lia; done). change (match cfg with Some c => cfg_mtu c | None => 1500 - ENCAP_OVERHEAD_V6 end) with (given_mtu cfg). rewrite <- (writes_app (bootp_writes req guest gw) (option_writes req gw (given_mtu cfg))).
  destruct (first_writes req guest gw (given_mtu cfg) pkt Hm Hx Hgu Hgw ltac:(lia)) as (A1 & A2 & A3 & A4 & A5 & A6). set (qa := writes (_ ++ _) pkt) in *. assert (La : length qa = 428%nat) by (unfold qa; by rewrite writes_length).
  set (qd := writes (dns_writes cfg) qa). assert (Ld : length qd = 428%nat) by (unfold qd; by rewrite writes_length). set (qh := writes (hostname_writes dm) qd). assert (Lh : length qh = 428%nat) by (unfold qh; by rewrite writes_length).
  assert (Hout : ∀ o m, (o + m ≤ 327)%nat → slice o m qh = slice o m qa). { intros o m Ho. unfold qh. rewrite (writes_outside 361 427) by (apply hostname_within || lia). unfold qd. apply (writes_outside 327 361); [by apply dns_within|lia|lia]. }
  assert (Hdns : slice 327 34 qh = slot 34 OPT_DNS (given_dns cfg)). { unfold qh. rewrite (writes_outside 361 427) by (apply hostname_within || lia). apply dns_slot; [done|lia]. }
  assert (Hname : slice 361 66 qh = slot 66 OPT_HOSTNAME (given_name dm)) by (apply hostname_slot; [done|lia]). clearbody qh.
  destruct (slice_2_lookups (writes [(F_OPTS + OPT_BLOCK_MAX - 1, [OPT_END]); (0, client_mac req); (6, GW_MAC); (12, be16 ETH_P_IP)] qh) pkt 14) as [E1 E2]; [rewrite eth_writes by lia; by rewrite Hout by lia|].
  rewrite !read_u8_total by (rewrite writes_length, Lh; vm_compute; lia). change (Z.to_nat ETH_LEN) with 14%nat. change (Z.to_nat (ETH_LEN + 1)) with 15%nat. rewrite E1, E2. cbn [default]. rewrite <- writes_app.
  destruct (last_writes (client_mac req) (pkt !!! 14%nat) (pkt !!! 15%nat) gw qh Hm Hgw ltac:(lia)) as (C1 & C2 & C3 & C4 & C5). eexists. split; [done|]. set (q := writes (_ ++ _) qh) in *. split; try done.
  - unfold q. by rewrite writes_length.
  - rewrite C2. apply header_verifies; [by apply bytes_ok_lookup|by apply bytes_ok_lookup|done|done].
  - rewrite C5, Hout by lia. done.
  - rewrite C5, Hout by lia. done.
  - rewrite C5, Hout by lia. done.
  - rewrite C5, Hout by lia. done.
  - change 146%nat with (45 + (34 + (66 + 1)))%nat. rewrite <- (slice_app 282 45), <- (slice_app 327 34), <- (slice_app 361 66), !C5, Hout, A6, Hdns, Hname by lia. change (361 + 66)%nat with 427%nat. rewrite C4. by apply options_encoded.
Qed.

(** The frame once it has the length of a reply. *)
Lemma set_tail_ok n pkt : bytes_ok pkt → length (set_tail n pkt) = n ∧ bytes_ok (set_tail n pkt) ∧ ∀ i, (i < n)%nat → (i < length pkt)%nat → set_tail n pkt !! i = pkt !! i.
Proof.
  intros Hb. unfold set_tail. split_and!.
  - rewrite length_app, length_take, length_replicate. lia.
  - apply Forall_app. split; [by apply Forall_take|apply zeros_bytes].
  - intros i Hn Hi. rewrite lookup_app_l by (rewrite length_take; lia). apply lookup_take_lt. lia.
Qed.

Lemma set_tail_spec pkt : bytes_ok pkt → length (set_tail 428 pkt) = 428%nat ∧ bytes_ok (set_tail 428 pkt) ∧ ∀ o m, (o + m ≤ 282)%nat → (282 ≤ length pkt)%nat → slice o m (set_tail 428 pkt) = slice o m pkt.
Proof.
  intros Hb. destruct (set_tail_ok 428 pkt Hb) as (Hl & Ht & Hi). split_and!; [done..|]. intros o m Ho Hlen. apply list_eq. intros i.
  destruct (decide (i < m)%nat) as [Him|Him]; [|unfold slice; rewrite !lookup_take_ge by lia; done]. rewrite !slice_lookup by done. apply Hi; lia.
Qed.

(** A router solicitation, of any length. *)
Definition router_solicitation (pkt : list Z) : Prop := be_at 12 pkt = ETH_P_IPV6 ∧ pkt !! 20%nat = Some IPPROTO_ICMPV6 ∧ pkt !! 54%nat = Some ND_RS.

(** A frame the NAT64 program gets. *)
Definition to_nat64 (pkt : list Z) : Prop := be_at 12 pkt = ETH_P_IPV6 ∧ (54 ≤ length pkt)%nat ∧ slice 38 12 pkt = NAT64_PFX.

(** Once it has the length of the advertisement it is answered. *)
Lemma resized_solicitation gw pkt : bytes_ok pkt → gw ≠ zeros 16 → router_solicitation pkt → solicitation ND_RS gw (set_tail 86 pkt).
Proof.
  intros Hb Hg (H1 & H2 & H3). destruct (set_tail_ok 86 pkt Hb) as (Hl & _ & Hi). pose proof (lookup_lt_Some _ _ _ H3) as Hlen.
  assert (Ht : ∀ i, (i < 55)%nat → set_tail 86 pkt !!! i = pkt !!! i) by (intros i Hi'; rewrite !list_lookup_total_alt, Hi by lia; done).
  split_and!; [done|lia| |by rewrite Hi by lia|by rewrite Hi by lia]. unfold be_at in *. by rewrite !Ht by lia.
Qed.

(** ** Claims *)

(** The addresses of the gateway as an interface has them. *)
Definition arp_nd_ok (in_ : GuestArpNdIn) : Prop := length (an_gateway_ipv4 in_) = 4%nat ∧ bytes_ok (an_gateway_ipv4 in_) ∧ length (an_gateway_ipv6 in_) = 16%nat ∧ bytes_ok (an_gateway_ipv6 in_).
Definition dhcp_in_ok (in_ : GuestDhcp4In) : Prop := length (d_guest_ipv4 in_) = 4%nat ∧ bytes_ok (d_guest_ipv4 in_) ∧ length (d_gateway_ipv4 in_) = 4%nat ∧ bytes_ok (d_gateway_ipv4 in_).

Lemma GW_MAC_ok : length GW_MAC = 6%nat ∧ bytes_ok GW_MAC.
Proof. split; [done|]. unfold GW_MAC. repeat (apply Forall_cons; split; [lia|]). by apply Forall_nil. Qed.

(** The three paths of the classifier. *)
Lemma tc_arp pkt in_ cfg resized : (42 ≤ length pkt)%nat → be_at 12 pkt = ETH_P_ARP →
  tc_guest_gateway pkt in_ cfg resized = let '(ok, p) := arp_reply pkt (an_gateway_ipv4 in_) GW_MAC in (if ok then TcRedirect (an_ifindex in_) else TcOk, p).
Proof. intros Hl He. unfold tc_guest_gateway. rewrite read_u16_be_at by lia. change (Z.to_nat 12) with 12%nat. by rewrite He. Qed.

Lemma nat64_peek pkt :
  match read_array 16 pkt (ETH_LEN + 24) with Some dst => is_nat64_addr dst | None => false end = true ↔ (54 ≤ length pkt)%nat ∧ slice 38 12 pkt = NAT64_PFX.
Proof.
  change (ETH_LEN + 24) with 38. destruct (decide (54 ≤ length pkt)%nat) as [Hl|Hl].
  - rewrite read_array_Some by lia. unfold is_nat64_addr, slice. rewrite take_take. change (Z.to_nat 38) with 38%nat. change (12 `min` 16)%nat with 12%nat. rewrite bool_decide_eq_true. tauto.
  - rewrite read_array_None by lia. naive_solver.
Qed.

Lemma tc_ipv6 pkt in_ cfg resized : (14 ≤ length pkt)%nat → be_at 12 pkt = ETH_P_IPV6 → ¬ to_nat64 pkt →
  tc_guest_gateway pkt in_ cfg resized =
  let '(ok, p) := nd_reply pkt (an_gateway_ipv6 in_) GW_MAC in
  if ok then (TcRedirect (an_ifindex in_), p)
  else if bool_decide (p !! 20%nat = Some IPPROTO_ICMPV6) && bool_decide (p !! 54%nat = Some ND_RS) then
    if resized then let '(ok, q) := ra_reply (set_tail 86 p) (an_gateway_ipv6 in_) GW_MAC (given_mtu cfg) in (if ok then TcRedirect (an_ifindex in_) else TcOk, q)
    else (TcOk, p)
  else (TcOn, p).
Proof.
  intros Hl He Hn. unfold tc_guest_gateway. rewrite read_u16_be_at by lia. change (Z.to_nat 12) with 12%nat. rewrite He. change (ETH_P_IPV6 =? ETH_P_ARP) with false. rewrite Z.eqb_refl.
  destruct (match read_array 16 pkt (ETH_LEN + 24) with Some _ => _ | None => _ end) eqn:E; [|done]. destruct Hn. by apply nat64_peek in E as [? ?].
Qed.

Lemma tc_other pkt in_ cfg resized :
  to_nat64 pkt ∨ (arp_reply pkt (an_gateway_ipv4 in_) GW_MAC = (false, pkt) ∧ nd_reply pkt (an_gateway_ipv6 in_) GW_MAC = (false, pkt) ∧ ¬ router_solicitation pkt) →
  (tc_guest_gateway pkt in_ cfg resized).2 = pkt ∧ ∀ i, (tc_guest_gateway pkt in_ cfg resized).1 ≠ TcRedirect i.
Proof.
  intros H. destruct (decide (14 ≤ length pkt)%nat) as [Hl|Hl]; [|unfold tc_guest_gateway, read_u16_be; by rewrite read_array_None by lia].
  destruct (decide (be_at 12 pkt = ETH_P_IPV6)) as [E6|E6].
  - destruct (decide ((54 ≤ length pkt)%nat ∧ slice 38 12 pkt = NAT64_PFX)) as [Hn|Hn].
    + unfold tc_guest_gateway. rewrite read_u16_be_at by lia. change (Z.to_nat 12) with 12%nat. rewrite E6. apply nat64_peek in Hn. change (ETH_P_IPV6 =? ETH_P_ARP) with false. rewrite Z.eqb_refl. by rewrite Hn.
    + assert (H64 : ¬ to_nat64 pkt) by (intros (_ & ? & ?); by apply Hn). destruct H as [?|(_ & En & Hr)]; [done|].
      rewrite tc_ipv6, En by done. case_bool_decide as H1; [case_bool_decide as H2|]; try done. by destruct Hr.
  - unfold tc_guest_gateway. rewrite read_u16_be_at by lia. change (Z.to_nat 12) with 12%nat. destruct H as [(? & _)|(Ea & _ & _)]; [done|].
    destruct (be_at 12 pkt =? ETH_P_ARP); [by rewrite Ea|]. by destruct (Z.eqb_spec (be_at 12 pkt) ETH_P_IPV6).
Qed.

Lemma tc_router pkt in_ cfg resized : bytes_ok pkt → arp_nd_ok in_ → router_solicitation pkt → ¬ to_nat64 pkt →
  let gw6 := an_gateway_ipv6 in_ in
  if bool_decide (gw6 ≠ zeros 16) && resized
  then ∃ pkt', tc_guest_gateway pkt in_ cfg resized = (TcRedirect (an_ifindex in_), pkt') ∧ length pkt' = 86%nat ∧ nd_answer gw6 GW_MAC [ND_RA; 0] (advertised_router GW_MAC (given_mtu cfg)) (set_tail 86 pkt) pkt'
  else tc_guest_gateway pkt in_ cfg resized = (TcOk, if resized then set_tail 86 pkt else pkt).
Proof.
  intros Hb (_ & _ & H6l & H6b) Hr Hn. cbv zeta. destruct GW_MAC_ok as [Hml Hmb]. pose proof Hr as (H1 & H2 & H3).
  pose proof (lookup_lt_Some _ _ _ H3) as Hlen. destruct (set_tail_ok 86 pkt Hb) as (Tl & Tb & _).
  destruct (nd_reply_spec (an_gateway_ipv6 in_) GW_MAC pkt H6l Hml H6b Hmb Hb) as [((_ & _ & _ & _ & Hx) & _)|[_ En]]; [rewrite H3 in Hx; discriminate Hx|].
  rewrite tc_ipv6 by (done || lia). rewrite En, (bool_decide_true (pkt !! 20%nat = _)), (bool_decide_true (pkt !! 54%nat = _)) by done. cbn [andb]. destruct resized; [|by rewrite andb_false_r]. rewrite andb_true_r.
  destruct (ra_reply_spec (an_gateway_ipv6 in_) GW_MAC (set_tail 86 pkt) H6l Hml H6b Hmb Tb (given_mtu cfg)) as [((Hg & _) & p & E & Hp & _)|[Hs E]]; rewrite E.
  - rewrite bool_decide_true by done. exists p. split_and!; [done| |done]. by rewrite (na_length _ _ _ _ _ _ Hp).
  - rewrite bool_decide_false; [done|]. intros Hg. apply Hs. by apply resized_solicitation.
Qed.

(** C30. The gateway answers what is for it and nothing else, in the classifier of a
    guest's interface.  An ARP request for its IPv4 address goes back to the sender as
    the reply that says the address is at the gateway's link-layer address.  Of the IPv6
    frames that NAT64 does not get, a neighbour solicitation for its IPv6 address that
    is as long as the answer (86 bytes, so it carries its link-layer option) goes back as
    a solicited advertisement; a router solicitation of any length, where the gateway has
    an IPv6 address and the kernel gives the frame the length of the answer, goes back as
    the advertisement, 86 bytes, of a managed default router with the MTU; both from the
    gateway's address, with hop limit 255 and a checksum that is valid over the
    pseudo-header and the message.  Every other frame is not sent back and is as it came,
    except that a router solicitation that cannot be answered, left to the stack, may
    have the new length; and the handler of the pipeline agrees on ARP and neighbours. *)
Theorem gateway_answers (pkt : list Z) (in_ : GuestArpNdIn) (cfg : option DhcpConfig) (resized : bool) :
  bytes_ok pkt → arp_nd_ok in_ →
  let gw4 := an_gateway_ipv4 in_ in
  let gw6 := an_gateway_ipv6 in_ in
  let neighbour := solicitation ND_NS gw6 pkt ∧ slice 62 16 pkt = gw6 in
  let back := TcRedirect (an_ifindex in_) in
  let answer := tc_guest_gateway pkt in_ cfg resized in
  (arp_request gw4 pkt → ∃ pkt', answer = (back, pkt') ∧ arp_answer gw4 GW_MAC pkt pkt' ∧ process_guest_arp_nd pkt in_ = (Redirect (an_ifindex in_), pkt')) ∧
  (neighbour → ¬ to_nat64 pkt → ∃ pkt', answer = (back, pkt') ∧ nd_answer gw6 GW_MAC [ND_NA; 0] (advertised_target gw6 GW_MAC) pkt pkt' ∧
    process_guest_arp_nd pkt in_ = (Redirect (an_ifindex in_), pkt')) ∧
  (router_solicitation pkt → ¬ to_nat64 pkt →
    if bool_decide (gw6 ≠ zeros 16) && resized
    then ∃ pkt', answer = (back, pkt') ∧ length pkt' = 86%nat ∧ nd_answer gw6 GW_MAC [ND_RA; 0] (advertised_router GW_MAC (given_mtu cfg)) (set_tail 86 pkt) pkt'
    else answer = (TcOk, if resized then set_tail 86 pkt else pkt)) ∧
  (¬ arp_request gw4 pkt → to_nat64 pkt ∨ ¬ neighbour ∧ ¬ router_solicitation pkt → answer.2 = pkt ∧ ∀ i, answer.1 ≠ TcRedirect i) ∧
  (¬ arp_request gw4 pkt → ¬ neighbour → process_guest_arp_nd pkt in_ = (Pass, pkt)).
Proof.
  intros Hb Hin. pose proof Hin as (H4l & H4b & H6l & H6b). cbv zeta. set (gw4 := an_gateway_ipv4 in_) in *. set (gw6 := an_gateway_ipv6 in_) in *.
  destruct GW_MAC_ok as [Hml Hmb]. pose proof (nd_reply_spec gw6 GW_MAC pkt H6l Hml H6b Hmb Hb) as Hnd.
  pose proof (arp_reply_spec pkt gw4 GW_MAC H4l Hml) as Harp. pose proof (tc_other pkt in_ cfg resized) as Hother. fold gw4 gw6 in Hother.
  split_and!.
  - intros Ha. destruct Harp as [(_ & p & E & Hp)|[? _]]; [|done]. exists p. unfold process_guest_arp_nd. fold gw4. rewrite E.
    split_and!; [|done|done]. rewrite (tc_arp pkt in_ cfg resized) by (destruct Ha as (_ & ? & ? & _); done). fold gw4. by rewrite E.
  - intros [Hs Ht] Hn. destruct Hnd as [(_ & _ & p & E & Hp & _)|[Hx _]]; [|by destruct Hx]. exists p.
    rewrite (tc_ipv6 pkt in_ cfg resized) by (done || (destruct Hs as (_ & ? & ? & _); done || lia)). fold gw6. rewrite E. split_and!; [done..|].
    unfold process_guest_arp_nd. fold gw4 gw6. destruct Harp as [((_ & _ & Hx & _) & _)|[_ ->]]; [|by rewrite E].
    destruct Hs as (_ & _ & Hy & _). rewrite Hx in Hy. discriminate Hy.
  - intros Hr Hn. by apply tc_router.
  - intros Ha [Hn|[Hn Hr]]; [apply Hother; by left|]. destruct Harp as [[? _]|[_ Ea]]; [done|]. destruct Hnd as [(? & ? & _)|[_ En]]; [by destruct Hn|]. apply Hother. by right.
  - intros Ha Hn. unfold process_guest_arp_nd. fold gw4 gw6. destruct Harp as [[? _]|[_ ->]]; [done|]. by destruct Hnd as [(? & ? & _)|[_ ->]]; [destruct Hn|].
Qed.

(** A parsed request is answered. *)
Lemma dhcp_answers pkt cfg meta in_ req : bytes_ok pkt → dhcp_in_ok in_ → if_some config_ok cfg → (∀ i, if_some meta_ok (meta i)) → parse pkt = Some req →
  ∃ pkt', process_guest_dhcp4 pkt cfg meta in_ = (Redirect (d_ifindex in_), pkt') ∧ dhcp_reply req (d_guest_ipv4 in_) (d_gateway_ipv4 in_) cfg (meta (d_ifindex in_)) pkt pkt'.
Proof.
  intros Hb (Hg1 & Hg2 & Hw1 & Hw2) Hc Hm Hp. pose proof (dhcp_parse_spec pkt) as Hs. rewrite Hp in Hs. destruct Hs as ((Hl & _) & m & _ & _ & Hreq). destruct (set_tail_spec pkt Hb) as (Tl & Tb & Ts). unfold process_guest_dhcp4. rewrite Hp. change (Z.to_nat REPLY_LEN) with 428%nat.
  destruct (write_spec req (d_guest_ipv4 in_) (d_gateway_ipv4 in_) cfg (meta (d_ifindex in_)) (set_tail 428 pkt)) as (p & -> & [R1 R2 R3 R4 R5 R6 R7 R8 R9 R10]); try done; [subst req; apply slice_length; lia|subst req; apply slice_length; lia|].
  exists p. split; [done|]. destruct (slice_2_lookups (set_tail 428 pkt) pkt 14 (Ts 14%nat 2%nat ltac:(lia) Hl)) as [E1 E2]. rewrite E1, E2 in R3. rewrite (Ts 278%nat 4%nat) in R9 by lia. by split.
Qed.

(** C31. A guest gets its lease.  A frame to the DHCP server whose options are well formed
    and end within the 128 bytes that are scanned, and which is a DISCOVER or a REQUEST,
    goes back to the sender as an OFFER or an ACK of 428 bytes: a broadcast from the
    gateway with a valid header checksum, the transaction of the request, the guest's
    address, and options that decode to exactly those of its lease (server, routes, mask,
    and the MTU, name servers and host name that are configured).  A frame that is not to
    the server is passed on as it came, and so is one that is not answered. *)
Theorem dhcp_lease (pkt : list Z) (cfg : option DhcpConfig) (meta : Z → option DhcpMeta) (in_ : GuestDhcp4In) :
  bytes_ok pkt → dhcp_in_ok in_ → if_some config_ok cfg → (∀ i, if_some meta_ok (meta i)) →
  (∀ os e rest m, to_server pkt → drop 282 pkt = e ++ rest → encodes os e → (length e ≤ OPTS_SCAN_BYTES)%nat → message_type 0 os = m → m = DHCP_MSG_DISCOVER ∨ m = DHCP_MSG_REQUEST →
    ∃ pkt', process_guest_dhcp4 pkt cfg meta in_ = (Redirect (d_ifindex in_), pkt') ∧
      dhcp_reply (mkRequest (if m =? DHCP_MSG_DISCOVER then DHCP_MSG_OFFER else DHCP_MSG_ACK) (slice 6 6 pkt) (slice 46 8 pkt)) (d_guest_ipv4 in_) (d_gateway_ipv4 in_) cfg (meta (d_ifindex in_)) pkt pkt') ∧
  (¬ to_server pkt → process_guest_dhcp4 pkt cfg meta in_ = (Pass, pkt)) ∧
  (process_guest_dhcp4 pkt cfg meta in_ = (Pass, pkt) ∨ ∃ pkt', process_guest_dhcp4 pkt cfg meta in_ = (Redirect (d_ifindex in_), pkt')).
Proof.
  intros Hb Hin Hc Hm. pose proof (dhcp_parse_spec pkt) as Hs. split_and!.
  - intros os e rest m Hto Hd He Hlen Hmt Hmm. assert (Hscan : msg_type (scan OPTS_SCAN_BYTES pkt F_OPTS (mkScan 0 ExpectCode 0 false)) = m).
    { rewrite scan_take by (vm_compute; done). change (Z.to_nat F_OPTS) with 282%nat. rewrite Hd, take_app_ge by lia. by rewrite (scan_encodes os). }
    destruct (parse pkt) as [req|] eqn:Ep; [|destruct Hs; split; [done|]; by exists m]. destruct Hs as (_ & m' & Hm' & _ & Hreq). rewrite Hscan in Hm'. subst m'. rewrite <- Hreq. by apply dhcp_answers.
  - intros Hn. unfold process_guest_dhcp4. destruct (parse pkt) as [req|]; [by destruct Hs|done].
  - destruct (parse pkt) as [req|] eqn:Ep; [right|left; unfold process_guest_dhcp4; by rewrite Ep]. destruct (dhcp_answers pkt cfg meta in_ req Hb Hin Hc Hm Ep) as (p & E & _). by exists p.
Qed.

(** ** Frames *)
Module guest_example.

Definition guest_mac : list Z := [2; 0; 0; 0; 0; 9].
Definition gw4 : list Z := [169; 254; 0; 1].
Definition gw6 : list Z := [254; 128; 0; 0; 0; 0; 0; 0; 0; 0; 0; 0; 0; 0; 0; 1].
Definition guest4 : list Z := [10; 0; 0; 5].

Definition local_in : GuestArpNdIn := mkArpNdIn gw4 gw6 7.
Definition lease_in : GuestDhcp4In := mkDhcp4In guest4 gw4 7.

(** Who has the gateway's address? *)
Definition who_has : list Z := replicate 6 255 ++ guest_mac ++ [8; 6; 0; 1; 8; 0; 6; 4; 0; 1] ++ guest_mac ++ guest4 ++ zeros 6 ++ gw4.

(** A DISCOVER with a parameter request list. *)
Definition discover : list Z :=
  replicate 6 255 ++ guest_mac ++ [8; 0; 69; 0; 1; 24; 0; 0; 0; 0; 64; 17; 0; 0; 0; 0; 0; 0; 255; 255; 255; 255; 0; 68; 0; 67; 1; 4; 0; 0] ++
  [1; 1; 6; 0; 18; 52; 86; 120; 0; 0; 0; 0] ++ zeros 16 ++ guest_mac ++ zeros 202 ++ [99; 130; 83; 99] ++ [53; 1; 1; 55; 2; 1; 6; 255].

Definition config : option DhcpConfig := Some (mkDhcpConfig 1420 2 [[10; 0; 0; 2]; [10; 0; 0; 3]; zeros 4; zeros 4; zeros 4; zeros 4; zeros 4; zeros 4]).
Definition names (i : Z) : option DhcpMeta := if i =? 7 then Some (mkDhcpMeta ([100; 98] ++ zeros 62) 2) else None.

Ltac bytes := apply (bool_decide_unpack _); vm_compute; exact I.

Lemma local_ok : arp_nd_ok local_in.
Proof. split_and!; [reflexivity|bytes|reflexivity|bytes]. Qed.

Lemma lease_ok : dhcp_in_ok lease_in.
Proof. split_and!; [reflexivity|bytes|reflexivity|bytes]. Qed.

Lemma config_is_ok : if_some config_ok config.
Proof. intros c [= <-]. split_and!; [done|done|done|done|done|]. repeat (apply Forall_cons; split; [split; [done|bytes]|]). by apply Forall_nil. Qed.

Lemma names_ok i : if_some meta_ok (names i).
Proof. intros d. unfold names. destruct (i =? 7); [|done]. intros [= <-]. split_and!; [done|done|done|bytes]. Qed.

Lemma gateway_answers_witness : ∃ pkt', tc_guest_gateway who_has local_in config true = (TcRedirect 7, pkt') ∧ arp_answer gw4 GW_MAC who_has pkt'.
Proof.
  destruct (gateway_answers who_has local_in config true) as [Ha _]; [bytes|exact local_ok|].
  destruct Ha as (p & E & Hp & _); [split_and!; [discriminate|vm_compute; lia|vm_compute; reflexivity..]|]. by exists p.
Defined.

Lemma dhcp_lease_witness : ∃ pkt', process_guest_dhcp4 discover config names lease_in = (Redirect 7, pkt') ∧ encodes (lease_options DHCP_MSG_OFFER gw4 config (names 7)) (slice 282 146 pkt').
Proof.
  destruct (dhcp_lease discover config names lease_in) as [Hd _]; [bytes|exact lease_ok|exact config_is_ok|exact names_ok|].
  destruct (Hd [(53, [1]); (55, [1; 6])] [53; 1; 1; 55; 2; 1; 6; 255] [] 1) as (p & E & Hr).
  - split_and!; [vm_compute; lia|vm_compute; reflexivity..].
  - vm_compute. reflexivity.
  - apply (encodes_opt 53 [1]); [discriminate|discriminate|]. apply (encodes_opt 55 [1; 6]); [discriminate|discriminate|constructor].
  - vm_compute. lia.
  - reflexivity.
  - left. reflexivity.
  - exists p. split; [exact E|]. exact (dr_options _ _ _ _ _ _ _ Hr).
Defined.

End guest_example.
