(* ===== verification/Maglev.v ===== *)
(** * Maglev tables

    The lookup table of a load balancer ([flowplane-control/src/maglev.rs]): every
    backend walks its own permutation of the slots and takes the first free one, in
    turn, until no slot is free.  The two loops have no bound in the code; here they
    have fuel, [None] when it runs out, and it never does: the size is prime, so a
    permutation meets every slot.  Every slot gets a backend, and the numbers of slots
    of two backends differ by at most one. *)

From S2P Require Import Prelude FwClass Packet Conntrack Nat Meter Datapath.
Import fwclass packet datapath.

Open Scope Z_scope.

Module maglev.

Definition TABLE_SIZE : Z := 1021.
Definition MAX : Z := 2 ^ 32 - 1.

Definition fnv1a (bytes : list Z) (seed : Z) : Z := foldl (fun h b => u64 (Z.lxor h b * 1099511628211)) (Z.lxor 14695981039346656037 seed) bytes.

(** ** [build] *)

Record Fill := mkFill { table : list Z; next : list Z; filled : Z }.

(** [(offset[i] + next[i] * skip[i]) % m] on [usize] *)
Definition slot (m offset skip next : Z) : Z := u64 (offset + u64 (next * skip)) mod m.

(** The inner loop: how far the walk of a backend has come when it meets a free slot. *)
Fixpoint advance (fuel : nat) (m offset skip : Z) (t : list Z) (next : Z) : option Z :=
  match fuel with
  | O => None
  | S fuel => if t !!! Z.to_nat (slot m offset skip next) =? MAX then Some next else advance fuel m offset skip t (next + 1)
  end.

Definition place (m : Z) (offset skip : list Z) (i : nat) (st : Fill) : option Fill :=
  nx ← advance (Z.to_nat m) m (offset !!! i) (skip !!! i) (table st) (next st !!! i);
  let c := Z.to_nat (slot m (offset !!! i) (skip !!! i) nx) in
  Some (mkFill (<[c := u32 (Z.of_nat i)]> (table st)) (<[i := nx + 1]> (next st)) (filled st + 1)).

(** [for i in 0..n], left when the table is full. *)
Fixpoint round (m : Z) (offset skip : list Z) (idxs : list nat) (st : Fill) : option Fill :=
  match idxs with
  | [] => Some st
  | i :: idxs =>
      st ← place m offset skip i st;
      if filled st =? m then Some st else round m offset skip idxs st
  end.

(** [while filled < m] *)
Fixpoint fill (fuel : nat) (m : Z) (offset skip : list Z) (n : nat) (st : Fill) : option Fill :=
  if negb (filled st <? m) then Some st
  else match fuel with
       | O => None
       | S fuel => st ← round m offset skip (seq 0 n) st; fill fuel m offset skip n st
       end.

Definition offset_of (m : Z) (b : LbBackend) : Z := fnv1a (overlay_ip b) 1 mod m.
Definition skip_of (m : Z) (b : LbBackend) : Z := fnv1a (overlay_ip b) 2 mod (m - 1) + 1.

Definition build (backends : list LbBackend) : option (list Z) :=
  let n := length backends in
  let m := TABLE_SIZE in
  match n with
  | O => Some []
  | _ =>
      let st := mkFill (replicate (Z.to_nat m) MAX) (replicate n 0) 0 in
      table <$> fill (Z.to_nat m) m (offset_of m <$> backends) (skip_of m <$> backends) n st
  end.

End maglev.

Import maglev.

(** ** Counting slots *)

Definition cnt (x : Z) (t : list Z) : nat := length (filter (.= x) t).

Lemma cnt_cons x a t : cnt x (a :: t) = ((if decide (a = x) then 1 else 0) + cnt x t)%nat.
Proof. unfold cnt. rewrite filter_cons. by destruct (decide (a = x)). Qed.

Lemma cnt_insert x t c y : (c < length t)%nat → (cnt x (<[c := y]> t) + (if decide (t !!! c = x) then 1 else 0) = cnt x t + (if decide (y = x) then 1 else 0))%nat.
Proof.
  revert c. induction t as [|a t IH]; intros [|c] Hc; cbn in Hc; [lia|lia| |].
  - change (<[0%nat := y]> (a :: t)) with (y :: t). rewrite !cnt_cons. change ((a :: t) !!! 0%nat) with a. destruct (decide (a = x)), (decide (y = x)); lia.
  - change (<[S c := y]> (a :: t)) with (a :: <[c := y]> t). rewrite !cnt_cons. specialize (IH c ltac:(lia)). change ((a :: t) !!! S c) with (t !!! c).
    destruct (decide (a = x)), (decide (y = x)), (decide (t !!! c = x)); lia.
Qed.

Lemma cnt_replicate x n y : cnt x (replicate n y) = if decide (y = x) then n else 0%nat.
Proof. induction n as [|n IH]; [by destruct (decide _)|]. cbn [replicate]. rewrite cnt_cons, IH. destruct (decide (y = x)); lia. Qed.

Lemma cnt_pos x t : (0 < cnt x t)%nat → ∃ c, (c < length t)%nat ∧ t !!! c = x.
Proof.
  induction t as [|a t IH]; [cbn; lia|]. rewrite cnt_cons. destruct (decide (a = x)) as [->|].
  - intros _. exists 0%nat. split; [cbn; lia|done].
  - intros H. destruct (IH ltac:(lia)) as (c & Hc & Ht). exists (S c). split; [cbn; lia|done].
Qed.

Lemma cnt_zero x t : cnt x t = 0%nat → ∀ c, (c < length t)%nat → t !!! c ≠ x.
Proof.
  intros Hz c Hc E. assert (Hin : x ∈ filter (.= x) t).
  { apply list_elem_of_filter. split; [done|]. rewrite <- E. by apply list_elem_of_lookup_total_2. }
  unfold cnt in Hz. apply length_zero_iff_nil in Hz. rewrite Hz in Hin. by apply not_elem_of_nil in Hin.
Qed.

(** ** The walks *)

Section walks.
Context (m : Z) (Hm : 1 < m < 2 ^ 31) (Hcop : ∀ k, 1 ≤ k < m → Z.gcd k m = 1).

(** Nothing overflows. *)
Lemma slot_exact o k j : 0 ≤ o < m → 1 ≤ k < m → 0 ≤ j ≤ m → slot m o k j = (o + j * k) mod m.
Proof.
  intros Ho Hk Hj. unfold slot. assert (0 ≤ j * k) by nia. assert (j * k ≤ m * m) by nia. assert (m * m < 2 ^ 62) by nia. rewrite (u64_small (j * k)) by lia. rewrite u64_small by lia. done.
Qed.

Lemma slot_range o k j : 0 ≤ slot m o k j < m.
Proof. unfold slot. apply Z.mod_pos_bound. lia. Qed.

(** A walk of [m] steps meets every slot. *)
Lemma walk_surjective o k c : 0 ≤ o < m → 1 ≤ k < m → 0 ≤ c < m → ∃ j, 0 ≤ j < m ∧ slot m o k j = c.
Proof.
  intros Ho Hk Hc. destruct (Z.gcd_bezout k m 1 (Hcop k Hk)) as (u & v & Huv). set (j := ((c - o) * u) mod m).
  pose proof (Z.mod_pos_bound ((c - o) * u) m ltac:(lia)) as Hj. exists j. split; [done|]. rewrite slot_exact by (done || (unfold j; lia)).
  assert (Hd : (o + j * k) mod m = c mod m); [|by rewrite Hd, Z.mod_small].
  apply Z.cong_iff_0. apply Z.mod_divide; [lia|]. pose proof (Z.div_mod ((c - o) * u) m ltac:(lia)) as Hdm. fold j in Hdm.
  exists (- ((c - o) * v) - ((c - o) * u) / m * k). nia.
Qed.

(** The inner loop stops at the first free slot of the walk. *)
Lemma advance_spec fuel o k t nx j :
  nx ≤ j < nx + Z.of_nat fuel → t !!! Z.to_nat (slot m o k j) = MAX →
  ∃ nx', advance fuel m o k t nx = Some nx' ∧ nx ≤ nx' ≤ j ∧ t !!! Z.to_nat (slot m o k nx') = MAX ∧ ∀ i, nx ≤ i < nx' → t !!! Z.to_nat (slot m o k i) ≠ MAX.
Proof.
  revert nx. induction fuel as [|fuel IH]; intros nx Hj Ht; [lia|]. cbn [advance]. destruct (Z.eqb_spec (t !!! Z.to_nat (slot m o k nx)) MAX) as [E|E].
  - exists nx. split_and!; [done|lia|lia|done|]. intros; lia.
  - assert (nx ≠ j) by congruence. destruct (IH (nx + 1) ltac:(lia) Ht) as (nx' & Hp & Hr & Hfree & Hocc). exists nx'. split_and!; try done; try lia.
    intros i Hi. destruct (decide (i = nx)) as [->|]; [done|]. apply Hocc. lia.
Qed.

(** ** The loop *)

Context (offset skip : list Z) (n : nat) (Hn : (0 < n)%nat) (HnM : Z.of_nat n ≤ MAX).
Context (Hoff : ∀ i, (i < n)%nat → 0 ≤ offset !!! i < m) (Hskip : ∀ i, (i < n)%nat → 1 ≤ skip !!! i < m).

(** After [r] rounds, and [j] backends of the next. *)
Record inv (r j : nat) (st : Fill) : Prop := mkInv {
  iv_len : length (table st) = Z.to_nat m ∧ length (next st) = n;
  iv_filled : filled st = Z.of_nat (r * n + j) ∧ (j ≤ n)%nat;
  iv_free : (cnt MAX (table st) + (r * n + j) = Z.to_nat m)%nat;
  iv_cnt : ∀ i, (i < n)%nat → cnt (Z.of_nat i) (table st) = if decide (i < j)%nat then S r else r;
  iv_valid : ∀ c, (c < Z.to_nat m)%nat → table st !!! c = MAX ∨ 0 ≤ table st !!! c < Z.of_nat n;
  iv_next : ∀ i, (i < n)%nat → 0 ≤ next st !!! i ≤ m ∧ ∀ k, 0 ≤ k < next st !!! i → table st !!! Z.to_nat (slot m (offset !!! i) (skip !!! i) k) ≠ MAX
}.

Lemma inv_init : inv 0 0 (mkFill (replicate (Z.to_nat m) MAX) (replicate n 0) 0).
Proof.
  split; cbn [table next filled].
  - by rewrite !length_replicate.
  - split; lia.
  - rewrite cnt_replicate. destruct (decide (MAX = MAX)); [lia|done].
  - intros i Hi. rewrite cnt_replicate. destruct (decide (MAX = Z.of_nat i)); [lia|]. by rewrite decide_False by lia.
  - intros c Hc. left. by apply lookup_total_replicate_2.
  - intros i Hi. rewrite lookup_total_replicate_2 by done. split; [lia|]. intros; lia.
Qed.

(** A next round starts. *)
Lemma inv_round r st : inv r n st → inv (S r) 0 st.
Proof.
  intros [H1 H2 H3 H4 H5 H6]. split; try done.
  - destruct H2 as [-> _]. split; [f_equal; lia|lia].
  - lia.
  - intros i Hi. rewrite H4 by done. by rewrite decide_True, decide_False by lia.
Qed.

Lemma place_spec r j st : inv r j st → (j < n)%nat → filled st < m → ∃ st', place m offset skip j st = Some st' ∧ inv r (S j) st'.
Proof.
  intros [[Hlt Hln] [Hf _] Hfree Hcnt Hval Hnext] Hj Hlt'. pose proof (Hoff j Hj) as Ho. pose proof (Hskip j Hj) as Hk. destruct (Hnext j Hj) as [Hnx Hocc].
  destruct (cnt_pos MAX (table st)) as (c & Hc & Htc); [lia|]. rewrite Hlt in Hc.
  destruct (walk_surjective _ _ (Z.of_nat c) Ho Hk ltac:(lia)) as (w & Hw & Hslot).
  assert (Hfr : table st !!! Z.to_nat (slot m (offset !!! j) (skip !!! j) w) = MAX) by (by rewrite Hslot, Nat2Z.id).
  assert (Hwn : next st !!! j ≤ w) by (destruct (decide (next st !!! j ≤ w)); [done|exfalso; apply (Hocc w); [lia|done]]).
  destruct (advance_spec (Z.to_nat m) (offset !!! j) (skip !!! j) (table st) (next st !!! j) w ltac:(lia) Hfr) as (nx & Hp & Hr & Hfn & Hon).
  unfold place. rewrite Hp. cbn [mbind option_bind]. eexists. split; [done|]. set (d := Z.to_nat (slot m (offset !!! j) (skip !!! j) nx)) in *.
  assert (Hd : (d < length (table st))%nat) by (unfold d; pose proof (slot_range (offset !!! j) (skip !!! j) nx); lia).
  assert (Hu : u32 (Z.of_nat j) = Z.of_nat j) by (apply u32_small; unfold MAX in HnM; lia). rewrite Hu. assert (HjM : Z.of_nat j ≠ MAX) by lia.
  split; cbn [table next filled].
  - by rewrite !length_insert.
  - split; lia.
  - pose proof (cnt_insert MAX (table st) d (Z.of_nat j) Hd) as Hci. rewrite Hfn in Hci. rewrite decide_True, decide_False in Hci by done. lia.
  - intros i Hi. pose proof (cnt_insert (Z.of_nat i) (table st) d (Z.of_nat j) Hd) as Hci. rewrite Hfn in Hci. rewrite (decide_False (P := MAX = Z.of_nat i)) in Hci by lia.
    rewrite (Hcnt i Hi) in Hci. destruct (decide (i = j)) as [->|].
    + rewrite (decide_True (P := Z.of_nat j = Z.of_nat j)) in Hci by done. rewrite decide_False in Hci by lia. rewrite decide_True by lia. lia.
    + rewrite (decide_False (P := Z.of_nat j = Z.of_nat i)) in Hci by lia. destruct (decide (i < j)%nat), (decide (i < S j)%nat); lia.
  - intros c' Hc'. destruct (decide (c' = d)) as [->|]; [rewrite list_lookup_total_insert_eq by done; right; lia|]. rewrite list_lookup_total_insert_ne by done. by apply Hval.
  - assert (Hstay : ∀ x, table st !!! x ≠ MAX → <[d := Z.of_nat j]> (table st) !!! x ≠ MAX).
    { intros x Hx. destruct (decide (x = d)) as [->|]; [by rewrite list_lookup_total_insert_eq|by rewrite list_lookup_total_insert_ne]. }
    intros i Hi. destruct (decide (i = j)) as [->|].
    + rewrite list_lookup_total_insert_eq by lia. split; [lia|]. intros k Hk'. destruct (decide (k = nx)) as [->|]; [fold d; by rewrite list_lookup_total_insert_eq|].
      apply Hstay. destruct (decide (k < next st !!! j)); [apply Hocc; lia|apply Hon; lia].
    + rewrite list_lookup_total_insert_ne by done. destruct (Hnext i Hi) as [? Hoc]. split; [done|]. intros k Hk'. by apply Hstay, Hoc.
Qed.

(** One round: to its end, or to a full table. *)
Lemma round_inv r j st k :
  inv r j st → (j + k = n)%nat → (filled st < m ∨ k = 0%nat) →
  ∃ st' j', round m offset skip (seq j k) st = Some st' ∧ inv r j' st' ∧ (j ≤ j')%nat ∧ (j' = n ∨ filled st' = m) ∧ filled st' ≤ m.
Proof.
  revert j st. induction k as [|k IH]; intros j st Hi Hjk Hf.
  - exists st, j. cbn. destruct Hi as [? [Hfl ?] Hfree ? ? ?]. split_and!; [done|done|lia|left; lia|lia].
  - cbn [seq round]. destruct Hf as [Hf|]; [|lia]. destruct (place_spec r j st Hi ltac:(lia) Hf) as (st1 & Hp & Hi1). rewrite Hp. cbn [mbind option_bind].
    destruct (iv_filled _ _ _ Hi1) as [Hf1 _]. pose proof (iv_free _ _ _ Hi1) as Hfr1. destruct (Z.eqb_spec (filled st1) m) as [E|E].
    + exists st1, (S j). split_and!; [done|done|lia|by right|lia].
    + destruct (IH (S j) st1 Hi1 ltac:(lia) ltac:(left; lia)) as (st' & j' & ? & ? & ? & ? & ?). exists st', j'. split_and!; try done. lia.
Qed.

(** The outer loop ends. *)
Lemma fill_spec fuel r st :
  inv r 0 st → filled st ≤ m → (Z.to_nat m - r * n ≤ fuel)%nat → ∃ st' r' j, fill fuel m offset skip n st = Some st' ∧ inv r' j st' ∧ filled st' = m.
Proof.
  revert r st. induction fuel as [|fuel IH]; intros r st Hi Hle Hfuel; cbn [fill]; destruct (Z.ltb_spec (filled st) m) as [Hlt|Hge]; cbn [negb].
  2,4: exists st, r, 0%nat; split_and!; [done|done|lia].
  - destruct (iv_filled _ _ _ Hi) as [Hf _]. lia.
  - destruct (round_inv r 0 st n Hi ltac:(lia) ltac:(by left)) as (st1 & j' & Hr & Hi1 & _ & Hend & Hle1). rewrite Hr. cbn [mbind option_bind].
    destruct (decide (filled st1 = m)) as [E|E].
    + exists st1, r, j'. destruct fuel; cbn [fill]; rewrite (proj2 (Z.ltb_ge (filled st1) m)) by lia; done.
    + destruct Hend as [->|]; [|done]. apply (IH (S r)); [by apply inv_round|done|lia].
Qed.

End walks.

(** ** [build] *)

(** The size is prime. *)
Lemma size_coprime k : 1 ≤ k < TABLE_SIZE → Z.gcd k TABLE_SIZE = 1.
Proof.
  intros Hk. assert (Hall : forallb (fun i => Z.gcd (Z.of_nat i) TABLE_SIZE =? 1) (seq 1 1020) = true) by (vm_compute; reflexivity).
  rewrite forallb_forall in Hall. specialize (Hall (Z.to_nat k)). rewrite Z2Nat.id in Hall by lia. apply Z.eqb_eq, Hall, in_seq. unfold TABLE_SIZE in Hk. lia.
Qed.

Lemma offset_range b : 0 ≤ offset_of TABLE_SIZE b < TABLE_SIZE.
Proof. by apply Z.mod_pos_bound. Qed.

Lemma skip_range b : 1 ≤ skip_of TABLE_SIZE b < TABLE_SIZE.
Proof. unfold skip_of. pose proof (Z.mod_pos_bound (fnv1a (overlay_ip b) 2) (TABLE_SIZE - 1) ltac:(done)). lia. Qed.

(** As many slots for each backend as for any other, or one more. *)
Lemma share n r j i : (i < n)%nat → (j ≤ n)%nat → let c := if decide (i < j)%nat then S r else r in c = ((r * n + j) / n)%nat ∨ c = S ((r * n + j) / n).
Proof.
  intros Hi Hj c. unfold c. destruct (decide (j = n)) as [->|].
  - rewrite decide_True by done. left. replace (r * n + n)%nat with (S r * n)%nat by lia. by rewrite Nat.div_mul by lia.
  - rewrite Nat.div_add_l by lia. rewrite (Nat.div_small j) by lia. destruct (decide (i < j)%nat); lia.
Qed.

Lemma all_mapped {A} (P : Z → Prop) (f : A → Z) l i : (∀ a, P (f a)) → (i < length l)%nat → P ((f <$> l) !!! i).
Proof. intros Hf Hi. apply Forall_lookup_total_1; [|by rewrite length_fmap]. apply Forall_fmap, Forall_true. intros a. apply Hf. Qed.

Lemma build_total bs :
  bs ≠ [] → Z.of_nat (length bs) ≤ MAX →
  ∃ t, build bs = Some t ∧ length t = Z.to_nat TABLE_SIZE ∧ (∀ c, (c < Z.to_nat TABLE_SIZE)%nat → 0 ≤ t !!! c < Z.of_nat (length bs)) ∧
       ∀ i, (i < length bs)%nat → let k := (Z.to_nat TABLE_SIZE / length bs)%nat in cnt (Z.of_nat i) t = k ∨ cnt (Z.of_nat i) t = S k.
Proof.
  intros Hne HM. assert (Hn : (0 < length bs)%nat) by (destruct bs; [done|cbn; lia]). unfold build. destruct (length bs) as [|n'] eqn:El; [lia|]. set (n := S n') in *.
  assert (Hoff : ∀ i, (i < n)%nat → 0 ≤ (offset_of TABLE_SIZE <$> bs) !!! i < TABLE_SIZE).
  { intros i Hi. apply (all_mapped (fun x => 0 ≤ x < TABLE_SIZE)); [apply offset_range|lia]. }
  assert (Hskip : ∀ i, (i < n)%nat → 1 ≤ (skip_of TABLE_SIZE <$> bs) !!! i < TABLE_SIZE).
  { intros i Hi. apply (all_mapped (fun x => 1 ≤ x < TABLE_SIZE)); [apply skip_range|lia]. }
  destruct (fill_spec TABLE_SIZE ltac:(done) size_coprime _ _ n Hn HM Hoff Hskip (Z.to_nat TABLE_SIZE) 0 _ (inv_init TABLE_SIZE ltac:(done) _ _ n Hn HM) ltac:(done) ltac:(lia)) as (st & r & j & -> & Hi & Hf).
  cbn [fmap option_fmap option_map]. eexists. split; [done|]. destruct Hi as [[Hlen _] [Hfl Hj] Hfree Hcnt Hval _]. split; [done|].
  assert (Hsum : (r * n + j = Z.to_nat TABLE_SIZE)%nat) by lia. split.
  - intros c Hc. destruct (Hval c Hc) as [E|]; [|done]. exfalso. apply (cnt_zero MAX (table st) ltac:(lia) c); [lia|done].
  - intros i Hi. rewrite (Hcnt i Hi), <- Hsum. by apply share.
Qed.

(** C35. The loops of [build] end: for every list of backends a Rust [u32] can index the
    table is built within the fuel, all 1021 slots hold the index of a backend, and
    the shares of the backends differ by at most one slot. *)
Theorem maglev_build_terminates (bs : list LbBackend) :
  bs ≠ [] → Z.of_nat (length bs) ≤ MAX →
  ∃ t, build bs = Some t ∧ length t = Z.to_nat TABLE_SIZE ∧ (∀ c, (c < Z.to_nat TABLE_SIZE)%nat → 0 ≤ t !!! c < Z.of_nat (length bs)) ∧
       ∀ i, (i < length bs)%nat → let k := (Z.to_nat TABLE_SIZE / length bs)%nat in cnt (Z.of_nat i) t = k ∨ cnt (Z.of_nat i) t = S k.
Proof. apply build_total. Qed.

Definition three_backends : list LbBackend := (fun i => mkBackend (replicate 15 0 ++ [i]) (replicate 15 0 ++ [i]) 7 0) <$> [1; 2; 3].

Lemma maglev_build_terminates_witness : ∃ t, build three_backends = Some t ∧ ∀ i, (i < 3)%nat → cnt (Z.of_nat i) t = 340%nat ∨ cnt (Z.of_nat i) t = 341%nat.
Proof.
  destruct (maglev_build_terminates three_backends) as (t & Hb & _ & _ & Hs).
  - discriminate.
  - vm_compute. discriminate.
  - exists t. split; [exact Hb|exact Hs].
Defined.
