(* ===== verification/LbControl.v ===== *)
(** * Load balancers of the control core

    The registration of load balancers, the change of their backends, and their
    adoption from the pinned maps after a restart ([flowplane-control/src/lb.rs],
    [shadow.rs]).  A load balancer has a service row for each of its ports, all pointing
    at its Maglev table, whose slots are whole backends.

    The maps are reached through the trait [MapWriter]: the class [LbWriter] has its
    calls for load balancers.  Every write and every read may fail.  Module [lbmem] is
    the in-memory writer of [mem.rs], module [lbaya] the writer over kernel maps
    ([flowplane/src/maps.rs]), whose system calls fail where an oracle says so. *)

From S2P Require Import Prelude Net FwClass FwControl Packet Conntrack Nat Meter Datapath FwPath Maglev.
Import netip fwclass datapath handlers maglev.

Open Scope Z_scope.

#[export] Instance LbBackend_eq_dec : EqDecision LbBackend.
Proof. solve_decision. Defined.

#[export] Instance LbValue_eq_dec : EqDecision LbValue.
Proof. solve_decision. Defined.

(** ** The maps *)

(** A service row is in the map of its family. *)
Inductive LbRowKey := RowV4 (k : LbKey) | RowV6 (k : LbKey).

#[export] Instance LbRowKey_eq_dec : EqDecision LbRowKey.
Proof. solve_decision. Defined.

(** What the datapath reads: [LB], [LB6] and [MAGLEV]. *)
Record LbMaps := mkLbMaps { rows4 : gmap LbKey LbValue; rows6 : gmap LbKey LbValue; slots : gmap (Z * Z) LbBackend }.

Definition row (m : LbMaps) (k : LbRowKey) : option LbValue := match k with RowV4 k => rows4 m !! k | RowV6 k => rows6 m !! k end.

Definition put_row (k : LbRowKey) (v : LbValue) (m : LbMaps) : LbMaps :=
  match k with RowV4 k => mkLbMaps (<[k := v]> (rows4 m)) (rows6 m) (slots m) | RowV6 k => mkLbMaps (rows4 m) (<[k := v]> (rows6 m)) (slots m) end.

Definition del_row (k : LbRowKey) (m : LbMaps) : LbMaps :=
  match k with RowV4 k => mkLbMaps (delete k (rows4 m)) (rows6 m) (slots m) | RowV6 k => mkLbMaps (rows4 m) (delete k (rows6 m)) (slots m) end.

Definition put_slot (k : Z * Z) (b : LbBackend) (m : LbMaps) : LbMaps := mkLbMaps (rows4 m) (rows6 m) (<[k := b]> (slots m)).
Definition del_slot (k : Z * Z) (m : LbMaps) : LbMaps := mkLbMaps (rows4 m) (rows6 m) (delete k (slots m)).

(** The calls of [MapWriter].  A call that can fail returns whether it succeeded;
    [maglev_get] returns nothing where it fails. *)
Class LbWriter (W : Type) := {
  lb_upsert : LbKey → LbValue → W → W * bool;
  lb_remove : LbKey → W → W * bool;
  lb6_upsert : LbKey → LbValue → W → W * bool;
  lb6_remove : LbKey → W → W * bool;
  maglev_upsert : Z * Z → LbBackend → W → W * bool;
  maglev_remove : Z * Z → W → W * bool;
  maglev_get : Z * Z → W → W * option (option LbBackend);
  lb_entries : W → W * Walk (LbKey * LbValue);
  lb6_entries : W → W * Walk (LbKey * LbValue);
  maglev_entries : W → W * Walk (Z * Z * LbBackend);
  underlay_upsert : list Z → UnderlayValue → W → W * bool;
  lb_maps : W → LbMaps
}.

(** What every writer keeps to: a call that succeeds changes its key and nothing else,
    one that fails changes nothing; a walk without an error lists the map. *)
Class LbWriterLaws (W : Type) `{LbWriter W} := {
  lb_upsert_spec k v w w' ok : lb_upsert k v w = (w', ok) → lb_maps w' = if ok : bool then put_row (RowV4 k) v (lb_maps w) else lb_maps w;
  lb6_upsert_spec k v w w' ok : lb6_upsert k v w = (w', ok) → lb_maps w' = if ok : bool then put_row (RowV6 k) v (lb_maps w) else lb_maps w;
  maglev_upsert_spec k b w w' ok : maglev_upsert k b w = (w', ok) → lb_maps w' = if ok : bool then put_slot k b (lb_maps w) else lb_maps w;
  lb_remove_spec k w w' ok : lb_remove k w = (w', ok) → lb_maps w' = lb_maps w ∨ lb_maps w' = del_row (RowV4 k) (lb_maps w);
  lb6_remove_spec k w w' ok : lb6_remove k w = (w', ok) → lb_maps w' = lb_maps w ∨ lb_maps w' = del_row (RowV6 k) (lb_maps w);
  maglev_remove_spec k w w' ok : maglev_remove k w = (w', ok) → lb_maps w' = lb_maps w ∨ lb_maps w' = del_slot k (lb_maps w);
  underlay_upsert_spec k v w w' ok : underlay_upsert k v w = (w', ok) → lb_maps w' = lb_maps w;
  maglev_get_spec k w w' r : maglev_get k w = (w', r) → lb_maps w' = lb_maps w ∧ ∀ x, r = Some x → x = slots (lb_maps w) !! k;
  lb_entries_spec w w' r : lb_entries w = (w', r) → lb_maps w' = lb_maps w ∧ (error r = false → entries r ≡ₚ map_to_list (rows4 (lb_maps w)));
  lb6_entries_spec w w' r : lb6_entries w = (w', r) → lb_maps w' = lb_maps w ∧ (error r = false → entries r ≡ₚ map_to_list (rows6 (lb_maps w)));
  maglev_entries_spec w w' r : maglev_entries w = (w', r) → lb_maps w' = lb_maps w ∧ (error r = false → entries r ≡ₚ map_to_list (slots (lb_maps w)))
}.

(** What the core relies on where it ignores an error: a removal leaves nothing. *)
Class LbWriterReliable (W : Type) `{LbWriter W} := {
  lb_remove_done k w w' ok : lb_remove k w = (w', ok) → lb_maps w' = del_row (RowV4 k) (lb_maps w);
  lb6_remove_done k w w' ok : lb6_remove k w = (w', ok) → lb_maps w' = del_row (RowV6 k) (lb_maps w);
  maglev_remove_done k w w' ok : maglev_remove k w = (w', ok) → lb_maps w' = del_slot k (lb_maps w)
}.

Module lbcontrol.

(** ** Data *)

Inductive LbIp := Ipv4 (a : list Z) | Ipv6 (a : list Z).

#[export] Instance LbIp_eq_dec : EqDecision LbIp.
Proof. solve_decision. Defined.

#[export] Program Instance LbIp_countable : Countable LbIp :=
  inj_countable (fun i => match i with Ipv4 a => inl a | Ipv6 a => inr a end) (fun s => Some match s with inl a => Ipv4 a | inr a => Ipv6 a end) _.
Next Obligation. by intros []. Qed.

Record LbEntry := mkLbEntry {
  e_vni : Z;
  e_ip : LbIp;
  lb_underlay : list Z;
  ports : list (Z * Z);
  e_table : Z;
  other_tables : list Z;
  backends : list LbBackend
}.

(** [LbRowKey::new], of a (port, proto) pair. *)
Definition row_key (ip : LbIp) (v : Z) (p : Z * Z) : LbRowKey :=
  match ip with
  | Ipv4 a => RowV4 (v, a, p.1, p.2)
  | Ipv6 a => RowV6 (v, a, p.1, p.2)
  end.

(** What a call refuses: the load balancer exists, no table id is left, no such load
    balancer, the target exists; a write of a map failed; a walk was cut short. *)
Inductive LbError := LbExists | IdsExhausted | UnknownLb | TargetExists | MapWrite | WalkCut.

(** [self.adopted_lbs.swap_remove(i)]: what is left. *)
Definition swap_remove {A : Type} (i : nat) (l : list A) : list A :=
  match last l with
  | None => []
  | Some x => take (length l - 1) (<[i := x]> l)
  end.

(** [str::parse::<IpAddr>], IPv4 before IPv6, where the bytes are text. *)
Definition parse_ip (id : string) : option LbIp :=
  match parseIPv4 (chars id) with
  | Some v => Some (Ipv4 (be_bytes 4 v))
  | None => gs ← parse6_groups (chars id); Some (Ipv6 (be_bytes 16 (of_groups gs)))
  end.

(** The orders of the sorted maps and of [sort_by_key]. *)
Fixpoint bytes_le (a b : list Z) : bool :=
  match a, b with
  | [], _ => true
  | _, [] => false
  | x :: a, y :: b => (x <? y) || ((x =? y) && bytes_le a b)
  end.

Definition ip_le (a b : LbIp) : bool :=
  match a, b with
  | Ipv4 _, Ipv6 _ => true
  | Ipv6 _, Ipv4 _ => false
  | Ipv4 x, Ipv4 y | Ipv6 x, Ipv6 y => bytes_le x y
  end.

Definition addr_le (a b : Z * LbIp) : bool := (a.1 <? b.1) || ((a.1 =? b.1) && ip_le a.2 b.2).

Definition pair_le (a b : Z * Z) : bool := (a.1 <? b.1) || ((a.1 =? b.1) && (a.2 <=? b.2)).

Definition sort_by {A : Type} (le : A → A → bool) (l : list A) : list A :=
  @merge_sort A (fun x y => le x y = true) (fun x y => decide (le x y = true)) l.

Section control.
Context {W : Type} `{LbWriter W}.

Record LbCore := mkLbCore {
  lw : W;
  lbs : gmap string LbEntry;
  adopted_lbs : list LbEntry;
  next_table_id : Z;
  unread_tables_below : Z
}.

Definition lb_new (w : W) : LbCore := mkLbCore w ∅ [] 1 0.

Definition set_lw (w : W) (c : LbCore) : LbCore := mkLbCore w (lbs c) (adopted_lbs c) (next_table_id c) (unread_tables_below c).
Definition set_lbs (m : gmap string LbEntry) (c : LbCore) : LbCore := mkLbCore (lw c) m (adopted_lbs c) (next_table_id c) (unread_tables_below c).
Definition set_adopted (l : list LbEntry) (c : LbCore) : LbCore := mkLbCore (lw c) (lbs c) l (next_table_id c) (unread_tables_below c).
Definition set_next (n : Z) (c : LbCore) : LbCore := mkLbCore (lw c) (lbs c) (adopted_lbs c) n (unread_tables_below c).

(** [self.lbs.values().chain(&self.adopted_lbs)] *)
Definition all_lbs (c : LbCore) : list LbEntry := (map_to_list (lbs c)).*2 ++ adopted_lbs c.

Definition vni_has_lb (v : Z) (c : LbCore) : bool := existsb (fun e => e_vni e =? v) (all_lbs c).

(** ** Rows and tables *)

Definition row_upsert (k : LbRowKey) (v : LbValue) (w : W) : W * bool :=
  match k with RowV4 k => lb_upsert k v w | RowV6 k => lb6_upsert k v w end.

Definition row_remove (k : LbRowKey) (w : W) : W * bool :=
  match k with RowV4 k => lb_remove k w | RowV6 k => lb6_remove k w end.

(** The errors are ignored. *)
Definition remove_rows (ks : list LbRowKey) (w : W) : W := foldl (fun w k => (row_remove k w).1) w ks.

Definition all_slots : list Z := Z.of_nat <$> seq 0 (Z.to_nat TABLE_SIZE).

Definition remove_slots (t : Z) (ss : list Z) (w : W) : W := foldl (fun w s => (maglev_remove (t, s) w).1) w ss.

Definition point_rows (ip : LbIp) (v : Z) (ps : list (Z * Z)) (t : Z) (w : W) : W :=
  foldl (fun w p => (row_upsert (row_key ip v p) (mkLbValue t TABLE_SIZE) w).1) w ps.

Definition table_in_use (t : Z) (c : LbCore) : bool :=
  existsb (fun e => (e_table e =? t) || bool_decide (t ∈ other_tables e)) (all_lbs c).

(** The slots, up to the first write that fails. *)
Fixpoint upsert_slots (t : Z) (l : list (Z * LbBackend)) (w : W) : W * bool :=
  match l with
  | [] => (w, true)
  | (s, b) :: l => let '(w, ok) := maglev_upsert (t, s) b w in if ok then upsert_slots t l w else (w, false)
  end.

Definition copy_table (sl : list (Z * LbBackend)) (c : LbCore) : LbCore * option Z :=
  let t := next_table_id c in
  if MAX <? t + 1 then (c, None)
  else let '(w, ok) := upsert_slots t sl (lw c) in
       if ok then (set_next (t + 1) (set_lw w c), Some t)
       else (set_lw (remove_slots t sl.*1 w) c, None).

(** The slots of [backends]' table.  [build] always yields one, all of whose indices
    are those of backends. *)
Definition table_slots (bs : list LbBackend) : list (Z * LbBackend) :=
  let t := default [] (build bs) in
  omap (fun '(s, bi) => b ← bs !! Z.to_nat bi; Some (s, b)) (zip (Z.of_nat <$> seq 0 (length t)) t).

Definition write_table (t : Z) (bs : list LbBackend) (w : W) : W * bool := upsert_slots t (table_slots bs) w.

(** ** Naming *)

Definition claim_lb (id : string) (c : LbCore) : LbCore * bool :=
  if decide (is_Some (lbs c !! id)) then (c, true)
  else match parse_ip id with
       | None => (c, false)
       | Some ip =>
           match List.filter (fun i => match adopted_lbs c !! i with Some e => bool_decide (e_ip e = ip) | None => false end) (seq 0 (length (adopted_lbs c))) with
           | [i] =>
               match adopted_lbs c !! i with
               | Some e => (set_lbs (<[id := e]> (lbs c)) (set_adopted (swap_remove i (adopted_lbs c)) c), true)
               | None => (c, false)
               end
           | _ => (c, false)
           end
       end.

(** ** Deletion *)

Definition clear_table (c : LbCore) (t : Z) : LbCore :=
  if (t <? unread_tables_below c) || table_in_use t c then c
  else set_lw (remove_slots t all_slots (lw c)) c.

Definition clear_lb (e : LbEntry) (c : LbCore) : LbCore :=
  let c := set_lw (remove_rows (row_key (e_ip e) (e_vni e) <$> ports e) (lw c)) c in
  foldl clear_table c (e_table e :: other_tables e).

Definition delete_lb (id : string) (c : LbCore) : LbCore * bool :=
  let '(c, found) := claim_lb id c in
  if negb found then (c, false)
  else match lbs c !! id with
       | None => (c, false)
       | Some e => (clear_lb e (set_lbs (delete id (lbs c)) c), true)
       end.

(** ** Creation *)

(** The rows, and those written: all of them, or those before the first failure. *)
Fixpoint write_rows (ks : list LbRowKey) (v : LbValue) (w : W) : W * list LbRowKey * bool :=
  match ks with
  | [] => (w, [], true)
  | k :: ks =>
      let '(w, ok) := row_upsert k v w in
      if ok then let '(w, written, ok) := write_rows ks v w in (w, k :: written, ok) else (w, [], false)
  end.

Definition same_addr (v : Z) (ip : LbIp) (e : LbEntry) : bool := (e_vni e =? v) && bool_decide (e_ip e = ip).

Definition create_lb (id : string) (v : Z) (ip : LbIp) (ul : list Z) (ps : list (Z * Z)) (c : LbCore) : LbCore * option LbError :=
  let '(c, found) := claim_lb id c in
  if found then (c, Some LbExists)
  else
    let t := next_table_id c in
    if MAX <? t + 1 then (c, Some IdsExhausted)
    else
      let stale := List.filter (same_addr v ip) (adopted_lbs c) in
      let c := set_adopted (List.filter (fun e => negb (same_addr v ip e)) (adopted_lbs c)) c in
      let c := foldl (fun c e => clear_lb e c) c stale in
      let '(w, written, ok) := write_rows (row_key ip v <$> ps) (mkLbValue t TABLE_SIZE) (lw c) in
      let '(w, ok) := if ok && negb (v =? 0) then underlay_upsert ul (mkUnderlay v 0 (replicate 6 0)) w else (w, ok) in
      if ok then (set_lbs (<[id := mkLbEntry v ip ul ps t [] []]> (lbs c)) (set_next (t + 1) (set_lw w c)), None)
      else (set_lw (remove_rows written w) c, Some MapWrite).

(** ** Backends *)

Definition same_backend (vtep ip : list Z) (b : LbBackend) : bool := bool_decide (node_vtep b = vtep) && bool_decide (overlay_ip b = ip).

Definition set_backends (bs : list LbBackend) (e : LbEntry) : LbEntry :=
  mkLbEntry (e_vni e) (e_ip e) (lb_underlay e) (ports e) (e_table e) (other_tables e) bs.

(** The entry holds the new backends whether or not the table could be written. *)
Definition add_lb_target (id : string) (b : LbBackend) (c : LbCore) : LbCore * option LbError :=
  let c := (claim_lb id c).1 in
  match lbs c !! id with
  | None => (c, Some UnknownLb)
  | Some e =>
      if existsb (same_backend (node_vtep b) (overlay_ip b)) (backends e) then (c, Some TargetExists)
      else
        let e := set_backends (backends e ++ [b]) e in
        let '(w, ok) := write_table (e_table e) (backends e) (lw c) in
        (set_lbs (<[id := e]> (lbs c)) (set_lw w c), if ok then None else Some MapWrite)
  end.

(** A zero overlay address stands for none given: the node alone selects. *)
Definition kept (vtep ip : list Z) (b : LbBackend) : bool :=
  if bool_decide (ip = replicate 16 0) then negb (bool_decide (node_vtep b = vtep)) else negb (same_backend vtep ip b).

Definition del_lb_target (id : string) (vtep ip : list Z) (c : LbCore) : LbCore * (LbError + bool) :=
  let c := (claim_lb id c).1 in
  match lbs c !! id with
  | None => (c, inl UnknownLb)
  | Some e =>
      let bs := List.filter (kept vtep ip) (backends e) in
      let c := set_lbs (<[id := set_backends bs e]> (lbs c)) c in
      if decide (length bs = length (backends e)) then (c, inr false)
      else match bs with
           | [] => (set_lw (remove_slots (e_table e) all_slots (lw c)) c, inr true)
           | _ => let '(w, ok) := write_table (e_table e) bs (lw c) in (set_lw w c, if ok then inr true else inl MapWrite)
           end
  end.

(** ** Adoption *)

(** The three walks, read again while one is cut short and a try is left. *)
Fixpoint read_walks (tries : nat) (w : W) : W * (Walk (LbKey * LbValue) * Walk (LbKey * LbValue) * Walk (Z * Z * LbBackend)) :=
  let '(w, w4) := lb_entries w in
  let '(w, w6) := lb6_entries w in
  let '(w, wm) := maglev_entries w in
  match tries with
  | S (S _ as tries) => if error w4 || error w6 || error wm then read_walks tries w else (w, (w4, w6, wm))
  | _ => (w, (w4, w6, wm))
  end.

Abbreviation RowsByTable := (gmap Z (list (Z * Z))).
Abbreviation Row := (Z * LbIp * Z * (Z * Z))%type.

(** One service row: the address, the table it points at, its port. *)
Definition row4 (kv : LbKey * LbValue) : Row := let '(v, a, port, p, val) := kv in (v, Ipv4 a, table_id val, (port, p)).
Definition row6 (kv : LbKey * LbValue) : Row := let '(v, a, port, p, val) := kv in (v, Ipv6 a, table_id val, (port, p)).

Definition add_row (rows : gmap (Z * LbIp) RowsByTable) (r : Row) : gmap (Z * LbIp) RowsByTable :=
  let '(lb, t, p) := r in
  let on := default ∅ (rows !! lb) in
  <[lb := <[t := default [] (on !! t) ++ [p]]> on]> rows.

Definition referenced_of (rows : gmap (Z * LbIp) RowsByTable) : gset Z := list_to_set ((map_to_list rows).*2 ≫= fun on => (map_to_list on).*1).

(** One table, slot by slot: the slots found, and whether a read failed. *)
Fixpoint read_slots (t : Z) (ss : list Z) (w : W) : W * list (Z * LbBackend) * bool :=
  match ss with
  | [] => (w, [], false)
  | s :: ss =>
      let '(w, r) := maglev_get (t, s) w in
      let '(w, l, err) := read_slots t ss w in
      match r with
      | Some (Some b) => (w, (s, b) :: l, err)
      | Some None => (w, l, err)
      | None => (w, l, true)
      end
  end.

Fixpoint read_tables (ts : list Z) (w : W) : W * gmap Z (list (Z * LbBackend)) * bool :=
  match ts with
  | [] => (w, ∅, false)
  | t :: ts =>
      let '(w, sl, err) := read_slots t all_slots w in
      let '(w, tables, err') := read_tables ts w in
      (w, <[t := sl]> tables, err || err')
  end.

(** The backends of a table, in the order their first slot comes up. *)
Definition distinct_backends (sl : list (Z * LbBackend)) : list LbBackend :=
  foldl (fun bs sb => if existsb (same_backend (node_vtep sb.2) (overlay_ip sb.2)) bs then bs else bs ++ [sb.2]) [] sl.

(** A main table first: one with backends, then the most rows, then the lowest id. *)
Definition main_le (tables : gmap Z (list (Z * LbBackend))) (a b : Z * list (Z * Z)) : bool :=
  let empty t := match default [] (tables !! t) with [] => true | _ => false end in
  match empty a.1, empty b.1 with
  | false, true => true
  | true, false => false
  | _, _ => (length b.2 <? length a.2)%nat || ((length b.2 =? length a.2)%nat && (a.1 <=? b.1))
  end.

(** What the loop over the load balancers carries: the core, the tables owned, the
    tables rows moved off. *)
Definition adopt_one (whole : bool) (tables : gmap Z (list (Z * LbBackend))) (st : LbCore * gset Z * list Z) (lb : Z * LbIp * RowsByTable)
    : LbCore * gset Z * list Z :=
  let '(c, owned, left_) := st in
  let '(v, ip, on) := lb in
  match sort_by (main_le tables) (map_to_list on) with
  | [] => (c, owned, left_)
  | (t, ps) :: its =>
      let sl := default [] (tables !! t) in
      let bs := distinct_backends sl in
      let all_ports := sort_by pair_le (ps ++ (its ≫= snd)) in
      let push c t other := set_adopted (adopted_lbs c ++ [mkLbEntry v ip (replicate 16 0) all_ports t other bs]) c in
      if whole then
        let '(c, t, owned) :=
          if decide (t ∈ owned) then
            match copy_table sl c with
            | (c, Some t') => (set_lw (point_rows ip v ps t' (lw c)) c, t', owned)
            | (c, None) => (c, t, owned)
            end
          else (c, t, {[t]} ∪ owned) in
        let '(w, whole_table) :=
          match bs with
          | [] => (lw c, false)
          | _ => if decide (length sl = Z.to_nat TABLE_SIZE) then (lw c, true) else write_table t bs (lw c)
          end in
        let c := set_lw w c in
        if whole_table then
          let c := set_lw (foldl (fun w it => point_rows ip v it.2 t w) (lw c) its) c in
          (push c t [], owned, left_ ++ its.*1)
        else (push c t its.*1, owned, left_)
      else (push c t its.*1, owned, left_)
  end.

Definition drop_left (c : LbCore) (t : Z) : LbCore := if table_in_use t c then c else set_lw (remove_slots t all_slots (lw c)) c.

Definition adopt_lbs (c : LbCore) : LbCore * (LbError + nat) :=
  let '(w, (w4, w6, wm)) := read_walks 3 (lw c) in
  let rows := foldl add_row ∅ ((row4 <$> entries w4) ++ (row6 <$> entries w6)) in
  let referenced := referenced_of rows in
  let '(w, tables, read_error) := read_tables (sort_by Z.leb (elements referenced)) w in
  let whole := negb (error w4 || error w6 || error wm || read_error) in
  let top := foldl Z.max 0 (elements referenced ++ ((fun kv => kv.1.1) <$> entries wm)) in
  let next := Z.max (next_table_id c) (Z.min MAX (top + 1)) in
  let '(next, unread) := if whole then (next, 0) else let n := Z.min MAX (next + 2 ^ 24) in (n, n) in
  let w := if whole then foldl (fun w kv => if decide (kv.1.1 ∈ referenced) then w else (maglev_remove kv.1 w).1) w (entries wm) else w in
  let c := mkLbCore w (lbs c) [] next unread in
  let '(c, _, left_) := foldl (adopt_one whole tables) (c, ∅, []) (sort_by (fun a b => addr_le a.1 b.1) (map_to_list rows)) in
  let c := foldl drop_left c left_ in
  (c, if whole then inr (length (adopted_lbs c)) else inl WalkCut).

End control.

Arguments LbCore : clear implicits.

End lbcontrol.

(** ** The in-memory writer *)

Module lbmem.

(** The fields of [MemMapWriter] for load balancers, the test knobs included. *)
Record MemLb := mkMemLb {
  m_lb : gmap LbKey LbValue;
  m_lb6 : gmap LbKey LbValue;
  m_maglev : gmap (Z * Z) LbBackend;
  m_maglev_upsert_fault : option Z;
  m_walk_cut : gmap string nat;
  m_underlay : gmap (list Z) UnderlayValue
}.

Definition set_lb (m : gmap LbKey LbValue) (w : MemLb) : MemLb := mkMemLb m (m_lb6 w) (m_maglev w) (m_maglev_upsert_fault w) (m_walk_cut w) (m_underlay w).
Definition set_lb6 (m : gmap LbKey LbValue) (w : MemLb) : MemLb := mkMemLb (m_lb w) m (m_maglev w) (m_maglev_upsert_fault w) (m_walk_cut w) (m_underlay w).
Definition set_maglev (m : gmap (Z * Z) LbBackend) (w : MemLb) : MemLb := mkMemLb (m_lb w) (m_lb6 w) m (m_maglev_upsert_fault w) (m_walk_cut w) (m_underlay w).

Definition mem_maglev_upsert (k : Z * Z) (b : LbBackend) (w : MemLb) : MemLb * bool :=
  if bool_decide (m_maglev_upsert_fault w = Some k.1) then (w, false) else (set_maglev (<[k := b]> (m_maglev w)) w, true).

Definition mem_walk {T : Type} (name : string) (all : list T) (w : MemLb) : MemLb * Walk T :=
  (w, match m_walk_cut w !! name with Some n => mkWalk (take n all) true | None => mkWalk all false end).

Definition mem_underlay_upsert (k : list Z) (v : UnderlayValue) (w : MemLb) : MemLb * bool :=
  (mkMemLb (m_lb w) (m_lb6 w) (m_maglev w) (m_maglev_upsert_fault w) (m_walk_cut w) (<[k := v]> (m_underlay w)), true).

#[global] Instance mem_LbWriter : LbWriter MemLb := {|
  lb_upsert k v w := (set_lb (<[k := v]> (m_lb w)) w, true);
  lb_remove k w := (set_lb (delete k (m_lb w)) w, true);
  lb6_upsert k v w := (set_lb6 (<[k := v]> (m_lb6 w)) w, true);
  lb6_remove k w := (set_lb6 (delete k (m_lb6 w)) w, true);
  maglev_upsert := mem_maglev_upsert;
  maglev_remove k w := (set_maglev (delete k (m_maglev w)) w, true);
  maglev_get k w := (w, Some (m_maglev w !! k));
  lb_entries w := mem_walk "LB" (map_to_list (m_lb w)) w;
  lb6_entries w := mem_walk "LB6" (map_to_list (m_lb6 w)) w;
  maglev_entries w := mem_walk "MAGLEV" (map_to_list (m_maglev w)) w;
  underlay_upsert := mem_underlay_upsert;
  lb_maps w := mkLbMaps (m_lb w) (m_lb6 w) (m_maglev w)
|}.

#[global] Instance mem_LbWriterLaws : LbWriterLaws MemLb.
Proof.
  split; cbn; unfold mem_maglev_upsert, mem_walk, mem_underlay_upsert; intros; repeat case_match; simplify_eq/=; auto.
  all: split; [done|]; by intros; simplify_eq.
Qed.

#[global] Instance mem_LbWriterReliable : LbWriterReliable MemLb.
Proof. split; cbn; intros; by simplify_eq. Qed.

Definition mem_empty : MemLb := mkMemLb ∅ ∅ ∅ None ∅ ∅.

End lbmem.

(** ** The kernel maps *)

Module lbaya.

(** The maps, and how many system calls were made. *)
Record KernelLb := mkKernelLb { k_maps : LbMaps; k_calls : nat }.

Section aya.
(** Whether the n-th system call fails. *)
Context (fault : nat → bool).

Definition syscall (w : KernelLb) : KernelLb * bool := (mkKernelLb (k_maps w) (S (k_calls w)), negb (fault (k_calls w))).

(** A write that, where it succeeds, has the effect [f]. *)
Definition attempt (f : LbMaps → LbMaps) (w : KernelLb) : KernelLb * bool :=
  let '(w, ok) := syscall w in if ok then (mkKernelLb (f (k_maps w)) (k_calls w), true) else (w, false).

(** Removing an absent key is an error of the kernel map. *)
Definition attempt_remove (present : bool) (f : LbMaps → LbMaps) (w : KernelLb) : KernelLb * bool :=
  if present then attempt f w else ((syscall w).1, false).

(** [walk]: an entry whose read fails is left out, and the error is kept. *)
Fixpoint walk {T : Type} (l : list T) (w : KernelLb) : KernelLb * Walk T :=
  match l with
  | [] => (w, mkWalk [] false)
  | e :: l =>
      let '(w, ok) := syscall w in
      let '(w, r) := walk l w in
      (w, if ok then mkWalk (e :: entries r) (error r) else mkWalk (entries r) true)
  end.

Definition get (k : Z * Z) (w : KernelLb) : KernelLb * option (option LbBackend) :=
  let '(w', ok) := syscall w in (w', if ok then Some (slots (k_maps w) !! k) else None).

#[export] Instance aya_LbWriter : LbWriter KernelLb := {|
  lb_upsert k v := attempt (put_row (RowV4 k) v);
  lb_remove k w := attempt_remove (bool_decide (is_Some (rows4 (k_maps w) !! k))) (del_row (RowV4 k)) w;
  lb6_upsert k v := attempt (put_row (RowV6 k) v);
  lb6_remove k w := attempt_remove (bool_decide (is_Some (rows6 (k_maps w) !! k))) (del_row (RowV6 k)) w;
  maglev_upsert k b := attempt (put_slot k b);
  maglev_remove k w := attempt_remove (bool_decide (is_Some (slots (k_maps w) !! k))) (del_slot k) w;
  maglev_get := get;
  lb_entries w := walk (map_to_list (rows4 (k_maps w))) w;
  lb6_entries w := walk (map_to_list (rows6 (k_maps w))) w;
  maglev_entries w := walk (map_to_list (slots (k_maps w))) w;
  underlay_upsert k v := syscall;
  lb_maps := k_maps
|}.

Lemma walk_spec {T : Type} (l : list T) w w' r : walk l w = (w', r) → k_maps w' = k_maps w ∧ (error r = false → entries r = l).
Proof.
  revert w w' r. induction l as [|e l IH]; intros w w' r; cbn [walk]; [by intros [= <- <-]|].
  unfold syscall. destruct (walk l (mkKernelLb (k_maps w) (S (k_calls w)))) as [w1 r1] eqn:E. apply IH in E as [E1 E2]. cbn in E1. intros [= <- <-]. split; [done|].
  destruct (negb (fault (k_calls w))); cbn; [intros Hr; by rewrite E2|done].
Qed.

#[export] Instance aya_LbWriterLaws : LbWriterLaws KernelLb.
Proof.
  split; cbn; unfold attempt_remove, attempt, syscall, get; intros.
  1-7: repeat case_match; simplify_eq/=; auto.
  - case_match; simplify_eq/=; (split; [done|]); by intros; simplify_eq.
  - apply walk_spec in H as [H1 H2]. split; [done|]. intros He. by rewrite H2.
  - apply walk_spec in H as [H1 H2]. split; [done|]. intros He. by rewrite H2.
  - apply walk_spec in H as [H1 H2]. split; [done|]. intros He. by rewrite H2.
Qed.

End aya.

End lbaya.
