(* ===== verification/LbControlFacts.v ===== *)
(** * Load balancers of the control core: lemmas

    What the writes of [LbControl] do to the maps, the slots of a Maglev table, and the
    invariant of rows, tables and entries ([lb_inv]) with the three changes it allows:
    a new table of an entry, an entry gone, an entry made. *)

From S2P Require Import Prelude FwClass FwControl Packet Conntrack Nat Meter Datapath Maglev LbControl.
Import fwclass datapath maglev lbcontrol.

Open Scope Z_scope.

(** ** The maps *)

Lemma row_put k v m k' : row (put_row k v m) k' = if decide (k = k') then Some v else row m k'.
Proof. destruct k as [k|k], k' as [k'|k']; cbn; try (by rewrite decide_False); destruct (decide _); simplify_eq; rewrite ?lookup_insert_eq, ?lookup_insert_ne by congruence; done. Qed.

Lemma row_del k m k' : row (del_row k m) k' = if decide (k = k') then None else row m k'.
Proof. destruct k as [k|k], k' as [k'|k']; cbn; try (by rewrite decide_False); destruct (decide _); simplify_eq; rewrite ?lookup_delete_eq, ?lookup_delete_ne by congruence; done. Qed.

Lemma slots_put_row k v m : slots (put_row k v m) = slots m.
Proof. by destruct k. Qed.

Lemma slots_del_row k m : slots (del_row k m) = slots m.
Proof. by destruct k. Qed.

Lemma row_put_slot k b m k' : row (put_slot k b m) k' = row m k'.
Proof. by destruct k'. Qed.

Lemma row_del_slot k m k' : row (del_slot k m) k' = row m k'.
Proof. by destruct k'. Qed.

Lemma row_key_inj ip v p ip' v' p' : row_key ip v p = row_key ip' v' p' → ip = ip' ∧ v = v' ∧ p = p'.
Proof. destruct ip, ip', p, p'; cbn; intros; by simplify_eq. Qed.

Section writer.
Context {W : Type} `{LbWriterLaws W} `{!LbWriterReliable W}.

Lemma row_upsert_maps k v (w w' : W) ok : row_upsert k v w = (w', ok) → lb_maps w' = if ok : bool then put_row k v (lb_maps w) else lb_maps w.
Proof. destruct k; [apply lb_upsert_spec|apply lb6_upsert_spec]. Qed.

Lemma row_remove_maps k (w : W) : lb_maps (row_remove k w).1 = del_row k (lb_maps w).
Proof. destruct k; cbn; [destruct (lb_remove k w) eqn:E; by eapply lb_remove_done|destruct (lb6_remove k w) eqn:E; by eapply lb6_remove_done]. Qed.

Lemma remove_rows_row ks (w : W) k : row (lb_maps (remove_rows ks w)) k = if decide (k ∈ ks) then None else row (lb_maps w) k.
Proof.
  revert w. induction ks as [|k0 ks IH]; intros w; [by rewrite decide_False by apply not_elem_of_nil|]. change (remove_rows (k0 :: ks) w) with (remove_rows ks (row_remove k0 w).1).
  rewrite IH, row_remove_maps, row_del. destruct (decide (k ∈ ks)); [by rewrite decide_True by (by right)|].
  destruct (decide (k0 = k)) as [->|]; [by rewrite decide_True by left|]. by rewrite decide_False by (by apply not_elem_of_cons).
Qed.

Lemma remove_rows_slots ks (w : W) : slots (lb_maps (remove_rows ks w)) = slots (lb_maps w).
Proof. revert w. induction ks as [|k ks IH]; intros w; [done|]. change (remove_rows (k :: ks) w) with (remove_rows ks (row_remove k w).1). by rewrite IH, row_remove_maps, slots_del_row. Qed.

Lemma remove_slots_maps t ss (w : W) : (∀ k, row (lb_maps (remove_slots t ss w)) k = row (lb_maps w) k) ∧
  ∀ t' s, slots (lb_maps (remove_slots t ss w)) !! (t', s) = if decide (t' = t ∧ s ∈ ss) then None else slots (lb_maps w) !! (t', s).
Proof.
  revert w. induction ss as [|s0 ss IH]; intros w.
  { split; [done|]. intros t' s. rewrite decide_False; [done|]. by intros [_ ?%not_elem_of_nil]. }
  change (remove_slots t (s0 :: ss) w) with (remove_slots t ss (maglev_remove (t, s0) w).1). destruct (maglev_remove (t, s0) w) as [w1 ok] eqn:E. cbn [fst].
  apply maglev_remove_done in E. destruct (IH w1) as [H1 H2]. split.
  - intros k. by rewrite H1, E, row_del_slot.
  - intros t' s. rewrite H2, E. cbn [slots del_slot]. destruct (decide (t' = t ∧ s ∈ ss)) as [[-> ?]|Hn]; [by rewrite decide_True by (split; [done|by right])|].
    destruct (decide (t' = t ∧ s = s0)) as [[-> ->]|Hn0]; [rewrite decide_True by (split; [done|left]); apply lookup_delete_eq|].
    rewrite decide_False; [apply lookup_delete_ne; naive_solver|]. intros [-> Hs]. apply elem_of_cons in Hs. naive_solver.
Qed.

Lemma all_slots_elem s : s ∈ all_slots ↔ 0 ≤ s < TABLE_SIZE.
Proof.
  unfold all_slots. rewrite list_elem_of_fmap. split.
  - intros (i & -> & Hi). apply elem_of_seq in Hi. lia.
  - intros Hs. exists (Z.to_nat s). split; [lia|]. apply elem_of_seq. lia.
Qed.

(** Writing slots: all of them, or none of another table. *)
Lemma upsert_slots_maps t l (w w' : W) : NoDup l.*1 → upsert_slots t l w = (w', true) →
  (∀ k, row (lb_maps w') k = row (lb_maps w) k) ∧
  (∀ s b, (s, b) ∈ l → slots (lb_maps w') !! (t, s) = Some b) ∧
  (∀ t' s, t' ≠ t ∨ s ∉ l.*1 → slots (lb_maps w') !! (t', s) = slots (lb_maps w) !! (t', s)).
Proof.
  revert w. induction l as [|[s b] l IH]; intros w Hd; cbn [upsert_slots].
  { intros [= <-]. split_and!; [done|by intros s b ?%not_elem_of_nil|done]. }
  destruct (maglev_upsert (t, s) b w) as [w1 ok] eqn:E. destruct ok; [|done]. apply maglev_upsert_spec in E. apply NoDup_cons in Hd as [Hs Hd].
  intros Hu. destruct (IH w1 Hd Hu) as (H1 & H2 & H3). split_and!.
  - intros k. by rewrite H1, E, row_put_slot.
  - intros s' b' [[= -> ->]|Hin]%elem_of_cons; [|by apply H2]. rewrite H3 by (by right). rewrite E. apply lookup_insert_eq.
  - cbn. intros t' s' Hn. rewrite not_elem_of_cons in Hn. rewrite H3 by naive_solver. rewrite E. apply lookup_insert_ne. naive_solver.
Qed.

Lemma write_rows_maps ks v (w w' : W) written ok : write_rows ks v w = (w', written, ok) →
  slots (lb_maps w') = slots (lb_maps w) ∧ written ⊆ ks ∧ (ok = true → written = ks) ∧ ∀ k, row (lb_maps w') k = if decide (k ∈ written) then Some v else row (lb_maps w) k.
Proof.
  revert w w' written ok. induction ks as [|k ks IH]; intros w w' written ok; cbn [write_rows].
  { intros [= <- <- <-]. split_and!; [done|done|done|]. intros k. by rewrite decide_False by apply not_elem_of_nil. }
  destruct (row_upsert k v w) as [w1 ok1] eqn:E. apply row_upsert_maps in E. destruct ok1.
  - destruct (write_rows ks v w1) as [[w2 wr] ok2] eqn:E2. apply IH in E2 as (H1 & H2 & H3 & H4). intros [= <- <- <-]. split_and!.
    + by rewrite H1, E, slots_put_row.
    + set_solver.
    + intros Hok. by rewrite H3.
    + intros k'. rewrite H4, E, row_put. destruct (decide (k' ∈ wr)); [by rewrite decide_True by (by right)|].
      destruct (decide (k = k')) as [->|]; [by rewrite decide_True by left|]. by rewrite decide_False by (by apply not_elem_of_cons).
  - intros [= <- <- <-]. rewrite E. split_and!; [done|set_solver|done|]. intros k'. by rewrite decide_False by apply not_elem_of_nil.
Qed.

End writer.

(** ** The slots of a table *)

Lemma slots_of_keys (bs : list LbBackend) ss t :
  length ss = length t → Forall (fun bi => is_Some (bs !! Z.to_nat bi)) t → (omap (fun '(s, bi) => b ← bs !! Z.to_nat bi; Some (s, b)) (zip ss t)).*1 = (ss : list Z).
Proof.
  revert t. induction ss as [|s ss IH]; intros [|bi t] Hl Hf; try done. apply Forall_cons in Hf as [[b Hb] Hf]. cbn. rewrite Hb. cbn. f_equal. apply IH; [|done]. by injection Hl.
Qed.

(** Every slot has a backend, every backend has a slot. *)
Lemma table_slots_spec bs : bs ≠ [] → Z.of_nat (length bs) ≤ MAX →
  (table_slots bs).*1 = all_slots ∧ (∀ s b, (s, b) ∈ table_slots bs → b ∈ bs) ∧
  ((length bs ≤ Z.to_nat TABLE_SIZE)%nat → ∀ b, b ∈ bs → ∃ s, (s, b) ∈ table_slots bs).
Proof.
  intros Hne HM. destruct (build_total bs Hne HM) as (t & Ht & Hlen & Hval & Hcnt). unfold table_slots. rewrite Ht. cbn [default from_option id].
  assert (Hin : ∀ c, (c < length t)%nat → is_Some (bs !! Z.to_nat (t !!! c))).
  { intros c Hc. rewrite Hlen in Hc. apply lookup_lt_is_Some. specialize (Hval c Hc). lia. }
  split_and!.
  - rewrite slots_of_keys; [by rewrite Hlen|by rewrite length_fmap, length_seq|]. apply Forall_lookup. intros c bi Hc. pose proof (lookup_lt_Some _ _ _ Hc). apply list_lookup_total_correct in Hc. subst bi. by apply Hin.
  - intros s b ((s', bi) & Hz & Hb)%list_elem_of_omap. destruct (bs !! Z.to_nat bi) eqn:E; [|done]. cbn in Hb. simplify_eq. by eapply list_elem_of_lookup_2.
  - intros Hle b Hb. apply list_elem_of_lookup in Hb as [i Hi]. pose proof (lookup_lt_Some _ _ _ Hi) as Hlt. specialize (Hcnt i Hlt). cbv zeta in Hcnt.
    assert (1 ≤ Z.to_nat TABLE_SIZE / length bs)%nat by (apply Nat.div_le_lower_bound; lia). destruct (cnt_pos (Z.of_nat i) t ltac:(lia)) as (c & Hc & Htc).
    exists (Z.of_nat c). apply list_elem_of_omap. exists (Z.of_nat c, Z.of_nat i). split; [|rewrite Nat2Z.id, Hi; done].
    apply list_elem_of_lookup. exists c. rewrite lookup_zip_with, list_lookup_fmap, lookup_seq_lt by done. cbn. rewrite (list_lookup_lookup_total_lt t c Hc), Htc. done.
Qed.

(** ** The invariant *)

Definition addr (e : LbEntry) : Z * LbIp := (e_vni e, e_ip e).
Definition bkey (b : LbBackend) : list Z * list Z := (node_vtep b, overlay_ip b).

(** The table hashes to these backends and to nothing else. *)
Record serves (m : LbMaps) (t : Z) (bs : list LbBackend) : Prop := mkServes {
  sv_only : ∀ s b, slots m !! (t, s) = Some b → 0 ≤ s < TABLE_SIZE ∧ b ∈ bs;
  sv_full : bs ≠ [] → ∀ s, 0 ≤ s < TABLE_SIZE → is_Some (slots m !! (t, s));
  sv_all : (length bs ≤ Z.to_nat TABLE_SIZE)%nat → ∀ b, b ∈ bs → ∃ s, slots m !! (t, s) = Some b
}.

Definition backends_ok (bs : list LbBackend) : Prop := NoDup (bkey <$> bs) ∧ Z.of_nat (length bs) ≤ MAX.

(** The maps hold exactly the rows and the tables of the entries [L], which have an
    address and a table each of their own. *)
Record lb_inv (m : LbMaps) (next : Z) (L : list LbEntry) : Prop := mkLbInv {
  li_addr : NoDup (addr <$> L);
  li_table : NoDup (e_table <$> L);
  li_other : ∀ e, e ∈ L → other_tables e = [];
  li_next : next ≤ MAX;
  li_id : ∀ e, e ∈ L → 0 ≤ e_table e < next;
  li_rows : ∀ k v, row m k = Some v ↔ ∃ e p, e ∈ L ∧ p ∈ ports e ∧ k = row_key (e_ip e) (e_vni e) p ∧ v = mkLbValue (e_table e) TABLE_SIZE;
  li_owned : ∀ t s, is_Some (slots m !! (t, s)) → t ∈ (e_table <$> L);
  li_serves : ∀ e, e ∈ L → serves m (e_table e) (backends e);
  li_backends : ∀ e, e ∈ L → backends_ok (backends e)
}.

Lemma lb_inv_perm m next L L' : L ≡ₚ L' → lb_inv m next L → lb_inv m next L'.
Proof.
  intros Hp [H1 H2 H3 H4 H5 H6 H7 H8 H9]. assert (Hin : ∀ e, e ∈ L' ↔ e ∈ L) by (intros e; by rewrite Hp). split; try done; try (intros e He; apply Hin in He; auto).
  - by rewrite <- Hp.
  - by rewrite <- Hp.
  - intros k v. rewrite H6. by setoid_rewrite Hin.
  - intros t s Hs. rewrite <- Hp. by eapply H7.
Qed.

#[export] Instance lb_inv_proper m next : Proper ((≡ₚ) ==> iff) (lb_inv m next).
Proof. intros L L' Hp. split; by apply lb_inv_perm. Qed.

Lemma lb_inv_head m next e L : lb_inv m next (e :: L) → (addr e ∉ (addr <$> L)) ∧ (e_table e ∉ (e_table <$> L)).
Proof. intros Hi. split; [pose proof (li_addr _ _ _ Hi) as Hn|pose proof (li_table _ _ _ Hi) as Hn]; by apply NoDup_cons in Hn as [? _]. Qed.

(** A row of an address that no entry has is in no map. *)
Lemma lb_inv_no_row m next L v ip p : lb_inv m next L → (v, ip) ∉ addr <$> L → row m (row_key ip v p) = None.
Proof.
  intros Hi Ha. destruct (row m (row_key ip v p)) as [x|] eqn:E; [|done]. apply (li_rows _ _ _ Hi) in E as (e & p' & He & _ & Hk & _). apply row_key_inj in Hk as (-> & -> & _).
  destruct Ha. apply (list_elem_of_fmap_2 addr _ _ He).
Qed.

Lemma serves_frame m m' t bs : (∀ s, slots m' !! (t, s) = slots m !! (t, s)) → serves m t bs → serves m' t bs.
Proof. intros Hs [H1 H2 H3]. split; intros *; [rewrite Hs; apply H1|intros Hne s; rewrite Hs; by apply H2|intros Hl b Hb; destruct (H3 Hl b Hb) as [s ?]; exists s; by rewrite Hs]. Qed.

Lemma inv_frame m m' next L : (∀ k, row m' k = row m k) → slots m' = slots m → lb_inv m next L → lb_inv m' next L.
Proof.
  intros Hr Hs [H1 H2 H3 H4 H5 H6 H7 H8 H9]. split; try done.
  - intros k v. by rewrite Hr.
  - intros t s. rewrite Hs. apply H7.
  - intros e He. eapply serves_frame; [|by apply H8]. intros s. by rewrite Hs.
Qed.

(** An entry gets a new table. *)
Lemma inv_table m m' next e L bs :
  lb_inv m next (e :: L) → (∀ k, row m' k = row m k) → (∀ t s, t ≠ e_table e → slots m' !! (t, s) = slots m !! (t, s)) →
  serves m' (e_table e) bs → backends_ok bs → lb_inv m' next (set_backends bs e :: L).
Proof.
  intros Hi Hrow Hslot Hsv Hbk. destruct (lb_inv_head _ _ _ _ Hi) as [_ Hnt]. destruct Hi as [H1 H2 H3 H4 H5 H6 H7 H8 H9]. split; try done.
  - intros e' [->|He']%elem_of_cons; [apply (H3 e); left|apply H3; by right].
  - intros e' [->|He']%elem_of_cons; [apply (H5 e); left|apply H5; by right].
  - intros k v. rewrite Hrow, H6. split; intros (e' & p & He' & Hp & Hk & Hv); (apply elem_of_cons in He' as [->|He']; [|exists e', p; split_and!; try done; by right]).
    + exists (set_backends bs e), p. split_and!; try done. left.
    + exists e, p. split_and!; try done. left.
  - intros t s Ht. destruct (decide (t = e_table e)) as [->|]; [left|]. rewrite Hslot in Ht by done. by apply (H7 t s).
  - intros e' [->|He']%elem_of_cons; [done|]. eapply serves_frame; [|apply H8; by right]. intros s. apply Hslot. intros Heq. apply Hnt. rewrite <- Heq. by apply list_elem_of_fmap_2.
  - intros e' [->|He']%elem_of_cons; [done|]. apply H9. by right.
Qed.

(** An entry goes, with its rows and its table. *)
Lemma inv_remove m m' next e L :
  lb_inv m next (e :: L) → (∀ k, row m' k = if decide (k ∈ row_key (e_ip e) (e_vni e) <$> ports e) then None else row m k) →
  (∀ t s, slots m' !! (t, s) = if decide (t = e_table e) then None else slots m !! (t, s)) → lb_inv m' next L.
Proof.
  intros Hi Hrow Hslot. destruct (lb_inv_head _ _ _ _ Hi) as [Hna Hnt]. destruct Hi as [H1 H2 H3 H4 H5 H6 H7 H8 H9]. split; try done; try (intros e' He'; (apply H3 || apply H5 || apply H9); by right).
  - by apply NoDup_cons in H1 as [_ ?].
  - by apply NoDup_cons in H2 as [_ ?].
  - intros k v. rewrite Hrow. destruct (decide (k ∈ _)) as [Hk|Hk].
    + split; [done|]. intros (e' & p & He' & _ & -> & _). exfalso. apply list_elem_of_fmap in Hk as (p' & Hk & _). apply row_key_inj in Hk as (Hip & Hv & _). apply Hna.
      assert (addr e = addr e') as -> by (unfold addr; congruence). by apply list_elem_of_fmap_2.
    + rewrite H6. split; intros (e' & p & He' & Hp & -> & Hv); [|exists e', p; split_and!; try done; by right].
      apply elem_of_cons in He' as [->|He']; [|by exists e', p]. destruct Hk. by apply list_elem_of_fmap_2.
  - intros t s Ht. rewrite Hslot in Ht. destruct (decide (t = e_table e)); [by destruct Ht|]. apply H7 in Ht. by apply elem_of_cons in Ht as [?|?].
  - intros e' He'. eapply serves_frame; [|apply H8; by right]. intros s. rewrite Hslot, decide_False; [done|]. intros Heq. apply Hnt. rewrite <- Heq. by apply list_elem_of_fmap_2.
Qed.

(** An entry is made, at an address of its own. *)
Lemma inv_create m m' next L v ip ul ps :
  lb_inv m next L → 0 ≤ next → next + 1 ≤ MAX → (v, ip) ∉ addr <$> L → slots m' = slots m →
  (∀ k, row m' k = if decide (k ∈ row_key ip v <$> ps) then Some (mkLbValue next TABLE_SIZE) else row m k) →
  lb_inv m' (next + 1) (mkLbEntry v ip ul ps next [] [] :: L).
Proof.
  intros Hi Hn0 HM Ha Hslot Hrow. pose proof (λ p, lb_inv_no_row _ _ _ v ip p Hi Ha) as Hno. destruct Hi as [H1 H2 H3 H4 H5 H6 H7 H8 H9].
  assert (Hnt : next ∉ e_table <$> L) by (intros (e & Heq & He)%list_elem_of_fmap; specialize (H5 e He); lia).
  split; try done; try (intros e' [->|He']%elem_of_cons; [done|by auto]).
  - by apply NoDup_cons.
  - by apply NoDup_cons.
  - intros e' [->|He']%elem_of_cons; [cbn; lia|]. specialize (H5 e' He'). lia.
  - intros k x. rewrite Hrow. destruct (decide (k ∈ _)) as [Hk|Hk].
    + split.
      * intros [= <-]. apply list_elem_of_fmap in Hk as (p & -> & Hp). eexists _, p. split_and!; [left|done|done|done].
      * intros (e' & p & He' & _ & -> & ->). apply elem_of_cons in He' as [->|He']; [done|]. apply list_elem_of_fmap in Hk as (p' & Hk & _). apply row_key_inj in Hk as (Hip & Hv & _).
        destruct Ha. assert ((v, ip) = addr e') as -> by (unfold addr; congruence). by apply list_elem_of_fmap_2.
    + rewrite H6. split; intros (e' & p & He' & Hp & -> & ->); [exists e', p; split_and!; try done; by right|].
      apply elem_of_cons in He' as [->|He']; [|by exists e', p]. destruct Hk. by apply list_elem_of_fmap_2.
  - intros t s Ht. rewrite Hslot in Ht. right. by apply (H7 t s).
  - intros e' [->|He']%elem_of_cons; [|eapply serves_frame; [|by apply H8]; intros s; by rewrite Hslot]. split; [|done|by intros _ b ?%not_elem_of_nil].
    intros s b Hb. rewrite Hslot in Hb. destruct Hnt. apply (H7 next s). by eexists.
  - intros e' [->|He']%elem_of_cons; [|by apply H9]. split; [apply NoDup_nil_2|done].
Qed.

(** ** Entries *)

Lemma values_replace (m : gmap string LbEntry) id e : (map_to_list (<[id := e]> m)).*2 ≡ₚ e :: (map_to_list (delete id m)).*2.
Proof. rewrite <- insert_delete_eq. rewrite map_to_list_insert by apply lookup_delete_eq. done. Qed.

Lemma values_delete (m : gmap string LbEntry) id e : m !! id = Some e → (map_to_list m).*2 ≡ₚ e :: (map_to_list (delete id m)).*2.
Proof. intros Hm. rewrite <- (insert_id m id e Hm) at 1. apply values_replace. Qed.

Lemma filter_split_perm {A : Type} (f : A → bool) l : l ≡ₚ List.filter f l ++ List.filter (fun x => negb (f x)) l.
Proof. induction l as [|x l IH]; [done|]. cbn. destruct (f x); cbn; [by rewrite <- IH|]. by rewrite <- Permutation_middle, <- IH. Qed.

Lemma swap_remove_perm {A : Type} (l : list A) i x : l !! i = Some x → l ≡ₚ x :: swap_remove i l.
Proof.
  intros Hi. unfold swap_remove. destruct (last l) as [y|] eqn:El; [|by apply last_None in El as ->]. apply last_Some in El as [l' ->].
  rewrite length_app. cbn [length]. replace (length l' + 1 - 1)%nat with (length l') by lia. destruct (decide (i = length l')) as [->|Hne].
  - rewrite lookup_app_r, Nat.sub_diag in Hi by done. injection Hi as <-. rewrite insert_app_r_alt, Nat.sub_diag by done. cbn. rewrite take_app_length. symmetry. apply Permutation_cons_append.
  - assert (i < length l')%nat by (apply lookup_lt_Some in Hi; rewrite length_app in Hi; cbn in Hi; lia). rewrite lookup_app_l in Hi by done. rewrite insert_app_l by done.
    rewrite take_app_length' by (by rewrite length_insert). rewrite <- (take_drop_middle l' i x Hi) at 1. rewrite insert_take_drop by done. solve_Permutation.
Qed.

Section core.
Context {W : Type} `{LbWriterLaws W} `{!LbWriterReliable W}.

Lemma claim_spec id (c c' : LbCore W) b : claim_lb id c = (c', b) →
  lw c' = lw c ∧ next_table_id c' = next_table_id c ∧ unread_tables_below c' = unread_tables_below c ∧ all_lbs c' ≡ₚ all_lbs c ∧
  (b = true → is_Some (lbs c' !! id)) ∧ (b = false → c' = c ∧ lbs c !! id = None).
Proof.
  unfold claim_lb. destruct (decide (is_Some (lbs c !! id))) as [Hs|Hs]; [by intros [= <- <-]|]. apply eq_None_not_Some in Hs. destruct (parse_ip id); [|by intros [= <- <-]].
  destruct (List.filter _ _) as [|i [|]]; [by intros [= <- <-]| |by intros [= <- <-]]. destruct (adopted_lbs c !! i) as [e|] eqn:Ei; [|by intros [= <- <-]]. intros [= <- <-].
  split_and!; try done. - unfold all_lbs. cbn [set_lbs set_adopted lbs adopted_lbs]. rewrite values_replace, delete_id by done. rewrite (swap_remove_perm _ _ _ Ei) at 2.
    by rewrite <- Permutation_middle. - intros _. cbn. by rewrite lookup_insert_eq.
Qed.

(** What the operations keep. *)
Definition core_inv (c : LbCore W) : Prop := lb_inv (lb_maps (lw c)) (next_table_id c) (all_lbs c) ∧ unread_tables_below c = 0 ∧ 0 ≤ next_table_id c.

Lemma claim_inv id (c c' : LbCore W) b : core_inv c → claim_lb id c = (c', b) → core_inv c'.
Proof. intros (Hi & Hu & Hn) Hc. apply claim_spec in Hc as (E1 & E2 & E3 & E4 & _). unfold core_inv. by rewrite E1, E2, E3, E4. Qed.

Lemma not_in_use t (c : LbCore W) : (∀ e, e ∈ all_lbs c → other_tables e = []) → t ∉ e_table <$> all_lbs c → table_in_use t c = false.
Proof.
  intros Ho Ht. apply not_true_iff_false. unfold table_in_use. rewrite existsb_exists. intros (e & He%list_elem_of_In & Hb). apply Ht.
  rewrite (Ho e He) in Hb. apply orb_true_iff in Hb as [<-%Z.eqb_eq|Hb%bool_decide_eq_true]; [by apply list_elem_of_fmap_2|by apply not_elem_of_nil in Hb].
Qed.

(** An entry that is in no list any more is cleared. *)
Lemma clear_inv e (c : LbCore W) L :
  lb_inv (lb_maps (lw c)) (next_table_id c) (e :: L) → unread_tables_below c = 0 → all_lbs c ⊆ L →
  ∃ w, clear_lb e c = set_lw w c ∧ lb_inv (lb_maps w) (next_table_id c) L.
Proof.
  intros Hi Hu Hsub. destruct (lb_inv_head _ _ _ _ Hi) as [_ Hnt]. unfold clear_lb. rewrite (li_other _ _ _ Hi e) by left. cbn [foldl]. unfold clear_table.
  set (c1 := set_lw _ c). assert (Hid : 0 ≤ e_table e) by (apply (li_id _ _ _ Hi); left).
  rewrite (not_in_use (e_table e) c1).
  2:{ intros e' He'. apply (li_other _ _ _ Hi). right. by apply Hsub. }
  2:{ intros (e' & Heq & He')%list_elem_of_fmap. apply Hnt. rewrite Heq. apply list_elem_of_fmap_2. by apply Hsub. }
  cbn [unread_tables_below c1 set_lw]. rewrite Hu, (proj2 (Z.ltb_ge _ _) Hid). cbn [orb]. eexists. split; [done|]. destruct (remove_slots_maps (e_table e) all_slots (lw c1)) as [Hr Hs].
  eapply inv_remove; [exact Hi| |].
  - intros k. rewrite Hr. cbn [lw c1 set_lw]. apply remove_rows_row.
  - intros t s. rewrite Hs. cbn [lw c1 set_lw]. rewrite remove_rows_slots. destruct (decide (t = e_table e)) as [->|]; [|by rewrite decide_False by naive_solver].
    destruct (decide (_ ∧ s ∈ all_slots)) as [|Hn]; [done|]. destruct (slots (lb_maps (lw c)) !! (e_table e, s)) as [b|] eqn:E; [|done]. exfalso. apply Hn. split; [done|].
    apply all_slots_elem. apply (sv_only _ _ _ (li_serves _ _ _ Hi e ltac:(left)) s b E).
Qed.

Lemma delete_inv id (c c' : LbCore W) b : core_inv c → delete_lb id c = (c', b) → core_inv c'.
Proof.
  intros Hc. unfold delete_lb. destruct (claim_lb id c) as [c1 found] eqn:E. pose proof (claim_inv _ _ _ _ Hc E) as (Hi & Hu & Hn). destruct found; [|by intros [= <- _]]. cbn [negb].
  destruct (lbs c1 !! id) as [e|] eqn:Ee; [|by intros [= <- _]]. intros [= <- _]. set (c2 := set_lbs _ c1). destruct (clear_inv e c2 (all_lbs c2)) as (w & -> & Hw); [|done|done|].
  - change (lb_inv (lb_maps (lw c1)) (next_table_id c1) (e :: all_lbs c2)). revert Hi. unfold all_lbs at 1. rewrite (values_delete _ _ _ Ee). done.
  - done.
Qed.

Lemma clear_all_inv L0 (c : LbCore W) :
  lb_inv (lb_maps (lw c)) (next_table_id c) (L0 ++ all_lbs c) → unread_tables_below c = 0 →
  ∃ w, foldl (fun c e => clear_lb e c) c L0 = set_lw w c ∧ lb_inv (lb_maps w) (next_table_id c) (all_lbs c).
Proof.
  revert c. induction L0 as [|e L0 IH]; intros c Hi Hu; [exists (lw c); split; [by destruct c|done]|]. cbn [foldl].
  destruct (clear_inv e c (L0 ++ all_lbs c) Hi Hu ltac:(set_solver)) as (w & -> & Hw). destruct (IH (set_lw w c) Hw Hu) as (w' & -> & Hw'). by exists w'.
Qed.

(** [create_lb], at an address no registered load balancer has. *)
Lemma create_inv id v ip ul ps (c c' : LbCore W) r :
  core_inv c → (∀ id' e, lbs c !! id' = Some e → id' ≠ id → addr e ≠ (v, ip)) → create_lb id v ip ul ps c = (c', r) → core_inv c'.
Proof.
  intros Hc Hfresh. unfold create_lb. destruct (claim_lb id c) as [c1 found] eqn:E. pose proof (claim_inv _ _ _ _ Hc E) as (Hi & Hu & Hn).
  destruct found; [by intros [= <- _]|]. apply claim_spec in E as (_ & _ & _ & _ & _ & E). destruct (E eq_refl) as [-> Hnone]. clear E.
  destruct (Z.ltb_spec MAX (next_table_id c + 1)); [by intros [= <- _]|]. set (stale := List.filter (same_addr v ip) (adopted_lbs c)). set (c2 := set_adopted _ c).
  assert (Hperm : all_lbs c ≡ₚ stale ++ all_lbs c2).
  { unfold all_lbs, stale. cbn [lbs adopted_lbs c2 set_adopted]. rewrite (filter_split_perm (same_addr v ip) (adopted_lbs c)) at 1. apply Permutation_app_swap_app. }
  destruct (clear_all_inv stale c2) as (w & -> & Hw); [revert Hi; by rewrite Hperm|done|]. set (c3 := set_lw w c2) in *.
  destruct (write_rows _ _ (lw c3)) as [[w1 written] ok] eqn:Ew. apply write_rows_maps in Ew as (Hs & Hsub & Hall & Hrow).
  destruct (if ok && negb (v =? 0) then _ else _) as [w2 ok2] eqn:Eu.
  assert (Hw2 : lb_maps w2 = lb_maps w1 ∧ (ok2 = true → ok = true)).
  { destruct (ok && negb (v =? 0)) eqn:Eb; [|by injection Eu as <- <-]. apply underlay_upsert_spec in Eu. split; [done|]. by apply andb_true_iff in Eb as [-> _]. }
  destruct Hw2 as [Hw2 Hok2].
  assert (Ha : (v, ip) ∉ addr <$> all_lbs c2).
  { intros (e & Heq & He)%list_elem_of_fmap. unfold all_lbs in He. apply elem_of_app in He as [He|He].
    - apply list_elem_of_fmap in He as ([id' e'] & -> & He). apply elem_of_map_to_list in He. cbn in *. apply (Hfresh id' e' He); [|done]. congruence.
    - apply list_elem_of_In, filter_In in He as [_ He]. unfold same_addr in He. injection Heq as -> ->. by rewrite Z.eqb_refl, bool_decide_true in He. }
  destruct ok2; intros [= <- _].
  - specialize (Hall (Hok2 eq_refl)) as ->. split_and!; [|done|cbn; lia].
    cbn [lw set_lbs set_next set_lw next_table_id]. unfold all_lbs. cbn [lbs adopted_lbs set_lbs set_next set_lw c3 c2 set_adopted]. rewrite values_replace, delete_id by done.
    apply (inv_create (lb_maps w) (lb_maps w2)); [done|done|lia|done|by rewrite Hw2|]. intros k. by rewrite Hw2, Hrow.
  - split_and!; [|done|done]. cbn [lw set_lw next_table_id c3 c2 set_adopted]. assert (Hsame : ∀ k, row (lb_maps (remove_rows written w2)) k = row (lb_maps w) k).
    { intros k. rewrite remove_rows_row, Hw2, Hrow. destruct (decide (k ∈ written)) as [Hk|]; [|done]. apply Hsub, list_elem_of_fmap in Hk as (p & -> & _). symmetry. by eapply lb_inv_no_row. }
    apply (inv_frame (lb_maps w)); [done|by rewrite remove_rows_slots, Hw2, Hs|done].
Qed.

(** ** Backends *)

Lemma written_serves t bs bs0 (w w' : W) :
  bs ≠ [] → backends_ok bs → serves (lb_maps w) t bs0 → write_table t bs w = (w', true) →
  (∀ k, row (lb_maps w') k = row (lb_maps w) k) ∧ (∀ t' s, t' ≠ t → slots (lb_maps w') !! (t', s) = slots (lb_maps w) !! (t', s)) ∧ serves (lb_maps w') t bs.
Proof.
  intros Hne [_ HM] Hold Hw. destruct (table_slots_spec bs Hne HM) as (Hk & Hin & Hall).
  assert (Hnd : NoDup (table_slots bs).*1) by (rewrite Hk; apply (NoDup_fmap_2 Z.of_nat), NoDup_seq).
  destruct (upsert_slots_maps t (table_slots bs) w w' Hnd Hw) as (Hr & Hs & Ho). split_and!; [done|intros t' s Ht; apply Ho; by left|]. rewrite Hk in Ho.
  assert (Hslot : ∀ s, 0 ≤ s < TABLE_SIZE → ∃ b, (s, b) ∈ table_slots bs).
  { intros s Hr'. apply all_slots_elem in Hr'. rewrite <- Hk in Hr'. apply list_elem_of_fmap in Hr' as ([s' b] & -> & Hb). by exists b. }
  split.
  - intros s b Hb. destruct (decide (s ∈ all_slots)) as [Hsl|Hsl].
    + apply all_slots_elem in Hsl. split; [done|]. destruct (Hslot s Hsl) as [b' Hb']. rewrite (Hs _ _ Hb') in Hb. injection Hb as <-. by eapply Hin.
    + rewrite Ho in Hb by (by right). exfalso. apply Hsl, all_slots_elem. by apply (sv_only _ _ _ Hold s b).
  - intros _ s Hs'. destruct (Hslot s Hs') as [b Hb]. rewrite (Hs _ _ Hb). by eexists.
  - intros Hl b Hb. destruct (Hall Hl b Hb) as [s Hsb]. exists s. by apply Hs.
Qed.

Lemma core_entry id e (c : LbCore W) : lbs c !! id = Some e → all_lbs c ≡ₚ e :: (map_to_list (delete id (lbs c))).*2 ++ adopted_lbs c.
Proof. intros He. unfold all_lbs. by rewrite (values_delete _ _ _ He). Qed.

(** The entry of an id gets backends and a table. *)
Lemma retable_inv id e bs w (c : LbCore W) :
  core_inv c → lbs c !! id = Some e → backends_ok bs → (∀ k, row (lb_maps w) k = row (lb_maps (lw c)) k) →
  (∀ t s, t ≠ e_table e → slots (lb_maps w) !! (t, s) = slots (lb_maps (lw c)) !! (t, s)) → serves (lb_maps w) (e_table e) bs →
  core_inv (set_lbs (<[id := set_backends bs e]> (lbs c)) (set_lw w c)).
Proof.
  intros (Hi & Hu & Hn) He Hb Hr Hs Hsv. split_and!; [|done|done]. cbn [lw set_lbs set_lw next_table_id]. unfold all_lbs. cbn [lbs adopted_lbs set_lbs set_lw].
  rewrite values_replace. rewrite (core_entry _ _ _ He) in Hi. by apply (inv_table (lb_maps (lw c))).
Qed.

Lemma add_inv id b (c c' : LbCore W) r :
  core_inv c → (∀ e, e ∈ all_lbs c → Z.of_nat (length (backends e)) < MAX) → add_lb_target id b c = (c', r) → r ≠ Some MapWrite → core_inv c'.
Proof.
  intros Hc Hlen. unfold add_lb_target. destruct (claim_lb id c) as [c1 found] eqn:E. pose proof (claim_inv _ _ _ _ Hc E) as Hc1. apply claim_spec in E as (_ & _ & _ & Hp & _).
  cbn [fst]. destruct (lbs c1 !! id) as [e|] eqn:Ee; [|by intros [= <- _]]. destruct (existsb _ _) eqn:Ex; [by intros [= <- _]|]. destruct (write_table _ _ _) as [w ok] eqn:Ew.
  intros [= <- <-]. destruct ok; [|done]. intros _. assert (He : e ∈ all_lbs c1) by (rewrite (core_entry _ _ _ Ee); left). pose proof (proj1 Hc1) as Hi.
  assert (Hb : backends_ok (backends e ++ [b])).
  { destruct (li_backends _ _ _ Hi e He) as [Hnd _]. split.
    - rewrite fmap_app. apply NoDup_app. split_and!; [done| |apply NoDup_singleton]. intros x Hx ->%list_elem_of_singleton. apply not_true_iff_false in Ex. apply Ex, existsb_exists.
      apply list_elem_of_fmap in Hx as (y & Hk & Hy). exists y. split; [by apply list_elem_of_In|]. unfold same_backend. injection Hk as -> ->. by rewrite !bool_decide_true.
    - rewrite length_app. cbn. rewrite Hp in He. specialize (Hlen e He). lia. }
  cbn [e_table backends set_backends] in *. assert (Hne : backends e ++ [b] ≠ []) by (by destruct (backends e)). destruct (written_serves _ _ _ _ _ Hne Hb (li_serves _ _ _ Hi e He) Ew) as (Hr & Hs & Hsv). by apply retable_inv.
Qed.

Lemma filter_length_eq {A : Type} (f : A → bool) l : length (List.filter f l) = length l → List.filter f l = l.
Proof. induction l as [|x l IH]; [done|]. cbn. pose proof (filter_length_le f l). destruct (f x); cbn; [intros [= ?]; by rewrite IH|lia]. Qed.

Lemma filter_backends_ok f bs : backends_ok bs → backends_ok (List.filter f bs).
Proof.
  intros [Hnd HM]. pose proof (filter_length_le f bs). split; [|lia]. clear H1 HM. induction bs as [|b bs IH]; [done|]. apply NoDup_cons in Hnd as [Hb Hnd]. cbn. destruct (f b); [|by apply IH].
  apply NoDup_cons. split; [|by apply IH]. intros (b' & Hk & Hb')%list_elem_of_fmap. apply Hb. rewrite Hk. apply list_elem_of_fmap_2. apply list_elem_of_In, filter_In in Hb' as [? _]. by apply list_elem_of_In.
Qed.

Lemma del_inv id vtep ip (c c' : LbCore W) r : core_inv c → del_lb_target id vtep ip c = (c', r) → r ≠ inl MapWrite → core_inv c'.
Proof.
  intros Hc. unfold del_lb_target. destruct (claim_lb id c) as [c1 found] eqn:E. pose proof (claim_inv _ _ _ _ Hc E) as Hc1. cbn [fst].
  destruct (lbs c1 !! id) as [e|] eqn:Ee; [|by intros [= <- _]]. set (bs := List.filter _ _). assert (He : e ∈ all_lbs c1) by (rewrite (core_entry _ _ _ Ee); left). pose proof (proj1 Hc1) as Hi.
  pose proof (filter_backends_ok (kept vtep ip) _ (li_backends _ _ _ Hi e He)) as Hb. fold bs in Hb. pose proof (li_serves _ _ _ Hi e He) as Hsv.
  destruct (decide (length bs = length (backends e))) as [Hl|Hl].
  { intros [= <- _] _. unfold bs. rewrite filter_length_eq by done. assert (set_backends (backends e) e = e) as -> by (by destruct e). rewrite insert_id by done. by destruct c1. }
  destruct bs as [|b bs'] eqn:Eb.
  - intros [= <- _] _. cbn [lw set_lbs]. destruct (remove_slots_maps (e_table e) all_slots (lw c1)) as [Hr Hs]. change (set_lw ?w (set_lbs ?m c1)) with (set_lbs m (set_lw w c1)).
    apply retable_inv; [done|done|done|done| |].
    + intros t s Ht. by rewrite Hs, decide_False by naive_solver.
    + split; [|done|by intros _ b ?%not_elem_of_nil]. intros s b Hsb. rewrite Hs in Hsb. destruct (decide _) as [|Hn]; [done|]. exfalso. apply Hn. split; [done|]. apply all_slots_elem. by apply (sv_only _ _ _ Hsv s b).
  - cbn [lw set_lbs]. destruct (write_table _ _ _) as [w ok] eqn:Ew. intros [= <- <-]. destruct ok; [|done]. intros _. change (set_lw w (set_lbs ?m c1)) with (set_lbs m (set_lw w c1)).
    destruct (written_serves (e_table e) (b :: bs') _ _ _ ltac:(done) Hb Hsv Ew) as (Hr & Hs & Hsv'). by apply retable_inv.
Qed.

End core.
