(* ===== verification/LbAdopt.v ===== *)
(** * Load balancers of the control core: adoption

    A restart loses everything but the pinned maps.  Where the walks read them whole,
    adoption finds the load balancers again: their addresses, ports, tables and
    the backends that hold a slot. *)

From S2P Require Import Prelude FwClass FwControl Packet Conntrack Nat Meter Datapath Maglev LbControl LbControlFacts.
Import fwclass datapath maglev lbcontrol.

Open Scope Z_scope.

(** ** Grouping the rows *)

(** The ports of an address on a table. *)
Definition ports_on (rows : gmap (Z * LbIp) (gmap Z (list (Z * Z)))) (a : Z * LbIp) (t : Z) : list (Z * Z) := default [] (default ∅ (rows !! a) !! t).

Lemma add_row_ports rows a t p a' t' : ports_on (add_row rows (a, t, p)) a' t' = if decide (a = a' ∧ t = t') then ports_on rows a t ++ [p] else ports_on rows a' t'.
Proof.
  unfold ports_on, add_row. destruct (decide (a = a')) as [->|Ha].
  - rewrite lookup_insert_eq. cbn [default from_option id]. destruct (decide (t = t')) as [->|Ht].
    + rewrite lookup_insert_eq, decide_True by done. done.
    + rewrite lookup_insert_ne, decide_False by naive_solver. done.
  - rewrite lookup_insert_ne, decide_False by naive_solver. done.
Qed.

(** No address without a table, no table without a port. *)
Definition rows_tight (rows : gmap (Z * LbIp) (gmap Z (list (Z * Z)))) : Prop := ∀ a on, rows !! a = Some on → on ≠ ∅ ∧ ∀ t l, on !! t = Some l → l ≠ [].

Lemma add_rows_spec R rows :
  rows_tight rows → rows_tight (foldl add_row rows R) ∧ ∀ a t p, p ∈ ports_on (foldl add_row rows R) a t ↔ p ∈ ports_on rows a t ∨ (a, t, p) ∈ R.
Proof.
  revert rows. induction R as [|[[a0 t0] p0] R IH]; intros rows Ht; cbn [foldl].
  { split; [done|]. intros a t p. split; [by left|]. by intros [?|?%not_elem_of_nil]. }
  destruct (IH (add_row rows (a0, t0, p0))) as [H1 H2].
  - intros a on. unfold add_row. destruct (decide (a0 = a)) as [->|Ha]; [|rewrite lookup_insert_ne by done; apply Ht]. rewrite lookup_insert_eq. intros [= <-]. split; [apply insert_non_empty|].
    intros t l Hl. apply lookup_insert_Some in Hl as [[_ <-]|[_ Hl]]; [by intros [_ ?]%app_eq_nil|]. destruct (rows !! a) as [on|] eqn:E; cbn in Hl; [by eapply (proj2 (Ht a on E))|by rewrite lookup_empty in Hl].
  - split; [done|]. intros a t p. rewrite H2, add_row_ports, elem_of_cons. destruct (decide _) as [[-> ->]|Hn]; [rewrite elem_of_app, list_elem_of_singleton|]; naive_solver.
Qed.

Lemma rows_empty_spec R : rows_tight (foldl add_row ∅ R) ∧ ∀ a t p, p ∈ ports_on (foldl add_row ∅ R) a t ↔ (a, t, p) ∈ R.
Proof.
  destruct (add_rows_spec R ∅) as [H1 H2]; [intros a on; by rewrite lookup_empty|]. split; [done|]. intros a t p. rewrite H2. unfold ports_on. rewrite lookup_empty. cbn. rewrite lookup_empty. cbn. rewrite elem_of_nil. naive_solver.
Qed.

Lemma tight_ports rows a on t : rows_tight rows → rows !! a = Some on → is_Some (on !! t) → ∃ p, p ∈ ports_on rows a t.
Proof.
  intros Ht Ha [l Hl]. destruct l as [|p l']; [by apply (proj2 (Ht a on Ha)) in Hl|]. exists p. unfold ports_on. rewrite Ha. cbn. rewrite Hl. left.
Qed.

Lemma referenced_elem rows t : t ∈ referenced_of rows ↔ ∃ a on, rows !! a = Some on ∧ is_Some (on !! t).
Proof.
  unfold referenced_of. rewrite elem_of_list_to_set, list_elem_of_bind. split.
  - intros (on & Ht & Hon). apply list_elem_of_fmap in Hon as ([a on'] & -> & Hon). apply elem_of_map_to_list in Hon. cbn in Ht. apply list_elem_of_fmap in Ht as ([t' l] & -> & Hl). apply elem_of_map_to_list in Hl.
    exists a, on'. split; [done|by eexists].
  - intros (a & on & Ha & [l Hl]). exists on. split; [apply list_elem_of_fmap; exists (t, l); split; [done|by apply elem_of_map_to_list]|].
    apply list_elem_of_fmap. exists (a, on). split; [done|by apply elem_of_map_to_list].
Qed.

(** ** Reading *)

(** The slots a table has. *)
Definition slots_of (m : LbMaps) (t : Z) (ss : list Z) : list (Z * LbBackend) := omap (fun s => b ← slots m !! (t, s); Some (s, b)) ss.

Lemma slots_of_elem m t ss s b : (s, b) ∈ slots_of m t ss ↔ s ∈ ss ∧ slots m !! (t, s) = Some b.
Proof.
  unfold slots_of. rewrite list_elem_of_omap. split.
  - intros (s' & Hs & Hb). destruct (slots m !! (t, s')) eqn:E; [|done]. cbn in Hb. by simplify_eq.
  - intros [Hs Hb]. exists s. rewrite Hb. done.
Qed.

Lemma slots_of_full m t ss : (∀ s, s ∈ ss → is_Some (slots m !! (t, s))) → length (slots_of m t ss) = length ss.
Proof.
  induction ss as [|s ss IH]; intros Hs; [done|]. destruct (Hs s ltac:(left)) as [b Hb]. unfold slots_of. cbn. rewrite Hb. cbn. f_equal. apply IH. intros s' ?. apply Hs. by right.
Qed.

(** The backends of a table are those of its slots, once each. *)
Lemma distinct_backends_spec sl :
  (∀ x y, x ∈ sl.*2 → y ∈ sl.*2 → bkey x = bkey y → x = y) → NoDup (bkey <$> distinct_backends sl) ∧ ∀ b, b ∈ distinct_backends sl ↔ b ∈ sl.*2.
Proof.
  unfold distinct_backends. assert (Hgen : ∀ bs0, NoDup (bkey <$> bs0) → (∀ x y, x ∈ bs0 ++ sl.*2 → y ∈ bs0 ++ sl.*2 → bkey x = bkey y → x = y) →
    let r := foldl (fun bs sb => if existsb (same_backend (node_vtep sb.2) (overlay_ip sb.2)) bs then bs else bs ++ [sb.2]) bs0 sl in
    NoDup (bkey <$> r) ∧ ∀ b, b ∈ r ↔ b ∈ bs0 ++ sl.*2).
  { induction sl as [|[s b0] sl IH]; intros bs0 Hnd Hinj; [by rewrite app_nil_r|]. cbn [foldl fmap list_fmap snd] in *. destruct (existsb _ bs0) eqn:Ex.
    - apply existsb_exists in Ex as (y & Hy%list_elem_of_In & Hs). unfold same_backend in Hs. apply andb_true_iff in Hs as [Hv%bool_decide_eq_true Ho%bool_decide_eq_true].
      assert (b0 = y) as <- by (apply Hinj; [set_solver|set_solver|unfold bkey; congruence]). destruct (IH bs0 Hnd) as [H1 H2]; [intros x z Hx Hz; apply Hinj; set_solver|].
      split; [done|]. intros b. rewrite H2. set_solver.
    - destruct (IH (bs0 ++ [b0])) as [H1 H2].
      + rewrite fmap_app. apply NoDup_app. split_and!; [done| |apply NoDup_singleton]. intros x Hx ->%list_elem_of_singleton. apply not_true_iff_false in Ex. apply Ex, existsb_exists.
        apply list_elem_of_fmap in Hx as (y & Hk & Hy). exists y. split; [by apply list_elem_of_In|]. unfold same_backend. injection Hk as -> ->. by rewrite !bool_decide_true.
      + intros x z Hx Hz. apply Hinj; set_solver.
      + split; [done|]. intros b. rewrite H2. set_solver. }
  intros Hinj. specialize (Hgen [] ltac:(apply NoDup_nil_2)). cbn in Hgen. apply Hgen, Hinj.
Qed.

(** ** What the maps of a consistent core say *)

Section consistent.
Context (m : LbMaps) (next : Z) (L : list LbEntry) (Hinv : lb_inv m next L).

Lemma same_entry e e' : e ∈ L → e' ∈ L → addr e = addr e' → e = e'.
Proof. apply NoDup_fmap_eq. apply Hinv. Qed.

Lemma rows_elem e4 e6 a t p :
  e4 ≡ₚ map_to_list (rows4 m) → e6 ≡ₚ map_to_list (rows6 m) →
  (a, t, p) ∈ (row4 <$> e4) ++ (row6 <$> e6) ↔ ∃ e, e ∈ L ∧ p ∈ ports e ∧ a = addr e ∧ t = e_table e.
Proof.
  intros H4 H6. rewrite H4, H6, elem_of_app, !list_elem_of_fmap. split.
  - intros [([[[[v x] port] pr] val] & Hr & Hk)|([[[[v x] port] pr] val] & Hr & Hk)]; apply elem_of_map_to_list in Hk; cbn in Hr; injection Hr as -> -> ->.
    + destruct (proj1 (li_rows _ _ _ Hinv (RowV4 (v, x, port, pr)) val) Hk) as (e & [q1 q2] & He & Hp & Hkey & ->). exists e. unfold addr. destruct (e_ip e); cbn in Hkey; [|done]. by simplify_eq.
    + destruct (proj1 (li_rows _ _ _ Hinv (RowV6 (v, x, port, pr)) val) Hk) as (e & [q1 q2] & He & Hp & Hkey & ->). exists e. unfold addr. destruct (e_ip e); cbn in Hkey; [done|]. by simplify_eq.
  - intros (e & He & Hp & -> & ->). pose proof (proj2 (li_rows _ _ _ Hinv (row_key (e_ip e) (e_vni e) p) (mkLbValue (e_table e) TABLE_SIZE))) as Hrow. specialize (Hrow ltac:(by exists e, p)).
    destruct p as [port pr]. unfold addr. destruct (e_ip e) as [x|x]; cbn in Hrow; [left|right]; eexists (e_vni e, x, port, pr, _); (split; [|by apply elem_of_map_to_list]); done.
Qed.

Context (R : list (Z * LbIp * Z * (Z * Z))) (HR : ∀ a t p, (a, t, p) ∈ R ↔ ∃ e, e ∈ L ∧ p ∈ ports e ∧ a = addr e ∧ t = e_table e).

Let rows := foldl add_row ∅ R.

(** An address with rows is an entry's, and they are on its table. *)
Lemma rows_entry a on : rows !! a = Some on → ∃ e l, e ∈ L ∧ a = addr e ∧ on = {[e_table e := l]} ∧ (∀ p, p ∈ l ↔ p ∈ ports e) ∧ ports e ≠ [].
Proof.
  intros Ha. destruct (rows_empty_spec R) as [Ht Hp]. fold rows in Ht, Hp. destruct (Ht a on Ha) as [Hne Hl]. apply map_choose in Hne as (t & l & Hon).
  destruct (tight_ports rows a on t Ht Ha ltac:(by eexists)) as [p Hp0]. apply Hp, HR in Hp0 as (e & He & Hpe & -> & ->). exists e, l. split_and!; [done|done| | |by destruct (ports e); [apply not_elem_of_nil in Hpe|]].
  - apply map_eq. intros t'. destruct (decide (t' = e_table e)) as [->|Hne]; [by rewrite lookup_singleton_eq|]. rewrite lookup_singleton_ne by done.
    apply eq_None_not_Some. intros Hs. destruct (tight_ports rows _ on t' Ht Ha Hs) as [p' Hp']. apply Hp, HR in Hp' as (e' & He' & _ & Hae & ->). by rewrite (same_entry e e' He He' Hae) in Hne.
  - intros q. specialize (Hp (addr e) (e_table e) q). unfold ports_on in Hp. rewrite Ha in Hp. cbn in Hp. rewrite Hon in Hp. cbn in Hp. rewrite Hp, HR. split; [|by intros ?; exists e].
    intros (e' & He' & Hq & Hae & _). by rewrite (same_entry e e' He He' Hae).
Qed.

Lemma entry_rows e : e ∈ L → ports e ≠ [] → is_Some (rows !! addr e).
Proof.
  intros He Hne. destruct (ports e) as [|p ps] eqn:Ep; [done|]. destruct (rows_empty_spec R) as [_ Hp]. fold rows in Hp. assert (Hin : p ∈ ports_on rows (addr e) (e_table e)) by (apply Hp, HR; exists e; rewrite Ep; split_and!; [done|left|done|done]).
  unfold ports_on in Hin. destruct (rows !! addr e); [by eexists|]. cbn in Hin. rewrite lookup_empty in Hin. by apply not_elem_of_nil in Hin.
Qed.

Lemma referenced_entry t : t ∈ referenced_of rows ↔ ∃ e, e ∈ L ∧ ports e ≠ [] ∧ e_table e = t.
Proof.
  rewrite referenced_elem. split.
  - intros (a & on & Ha & Hs). destruct (rows_entry a on Ha) as (e & l & He & _ & -> & _ & Hne). exists e. split_and!; [done|done|]. destruct Hs as [x Hx]. by apply lookup_singleton_Some in Hx as [? _].
  - intros (e & He & Hne & <-). destruct (entry_rows e He Hne) as [on Ha]. exists (addr e), on. split; [done|]. destruct (rows_entry _ _ Ha) as (e' & l & He' & Hae & -> & _). rewrite (same_entry e e' He He' Hae).
    rewrite lookup_singleton_eq. by eexists.
Qed.

(** A table has all its slots or none. *)
Lemma table_whole e : e ∈ L → let sl := slots_of m (e_table e) all_slots in
  (sl = [] ∨ length sl = Z.to_nat TABLE_SIZE) ∧ NoDup (bkey <$> distinct_backends sl) ∧ (∀ b, b ∈ distinct_backends sl ↔ ∃ s, slots m !! (e_table e, s) = Some b) ∧ (∀ b, b ∈ distinct_backends sl → b ∈ backends e).
Proof.
  intros He sl. pose proof (li_serves _ _ _ Hinv e He) as [Ho Hf Ha]. assert (Hsl : ∀ b, b ∈ sl.*2 ↔ ∃ s, slots m !! (e_table e, s) = Some b).
  { intros b. rewrite list_elem_of_fmap. split; [intros ([s b'] & -> & Hb); apply slots_of_elem in Hb as [_ ?]; by exists s|]. intros [s Hs]. exists (s, b). split; [done|]. apply slots_of_elem. split; [|done]. apply all_slots_elem. by apply (Ho s b). }
  assert (Hin : ∀ b, b ∈ sl.*2 → b ∈ backends e) by (intros b [s Hs]%Hsl; by apply (Ho s b)).
  destruct (distinct_backends_spec sl) as [Hnd Hd]. { intros x y Hx Hy. apply (NoDup_fmap_eq bkey (backends e)); [apply (li_backends _ _ _ Hinv e He)|by apply Hin|by apply Hin]. }
  split_and!; [|done|intros b; by rewrite Hd, Hsl|intros b; rewrite Hd; apply Hin].
  destruct (backends e) as [|b0 bs] eqn:Eb.
  - left. destruct sl as [|[s b] sl']; [done|]. exfalso. apply (not_elem_of_nil b), Hin. left.
  - right. unfold sl. rewrite slots_of_full; [done|]. intros s Hs%all_slots_elem. by apply Hf.
Qed.

End consistent.

Section adopt.
Context {W : Type} `{LbWriterLaws W} `{!LbWriterReliable W}.

Lemma read_walks_spec tries (w w' : W) w4 w6 wm : read_walks tries w = (w', (w4, w6, wm)) →
  lb_maps w' = lb_maps w ∧ (error w4 = false → entries w4 ≡ₚ map_to_list (rows4 (lb_maps w))) ∧
  (error w6 = false → entries w6 ≡ₚ map_to_list (rows6 (lb_maps w))) ∧ (error wm = false → entries wm ≡ₚ map_to_list (slots (lb_maps w))).
Proof.
  revert w. induction tries as [|tries IH]; intros w; cbn [read_walks]; destruct (lb_entries w) as [w1 r4] eqn:E4; destruct (lb6_entries w1) as [w2 r6] eqn:E6; destruct (maglev_entries w2) as [w3 rm] eqn:Em;
    apply lb_entries_spec in E4 as [F4 G4]; apply lb6_entries_spec in E6 as [F6 G6]; apply maglev_entries_spec in Em as [Fm Gm]; rewrite F6, F4 in Gm; rewrite F4 in G6.
  - intros [= <- <- <- <-]. split_and!; [congruence|done|done|done].
  - destruct tries as [|tries]; [|destruct (error r4 || error r6 || error rm)]; try (intros [= <- <- <- <-]; split_and!; [congruence|done|done|done]).
    intros Hr. apply IH in Hr. rewrite Fm, F6, F4 in Hr. done.
Qed.

Lemma read_slots_spec t ss (w w' : W) l err : read_slots t ss w = (w', l, err) → lb_maps w' = lb_maps w ∧ (err = false → l = slots_of (lb_maps w) t ss).
Proof.
  revert w w' l err. induction ss as [|s ss IH]; intros w w' l err; cbn [read_slots]; [by intros [= <- <- <-]|].
  destruct (maglev_get (t, s) w) as [w1 r] eqn:E. apply maglev_get_spec in E as [F G]. destruct (read_slots t ss w1) as [[w2 l2] err2] eqn:E2. apply IH in E2 as [F2 G2]. rewrite F in F2, G2.
  unfold slots_of in *. destruct r as [[b|]|]; intros [= <- <- <-]; (split; [done|]); [intros He..|done]; cbn; rewrite <- (G _ eq_refl); cbn; by rewrite G2.
Qed.

Lemma read_tables_spec ts (w w' : W) tables err : read_tables ts w = (w', tables, err) →
  lb_maps w' = lb_maps w ∧ (err = false → ∀ t, t ∈ ts → tables !! t = Some (slots_of (lb_maps w) t all_slots)).
Proof.
  revert w w' tables err. induction ts as [|t ts IH]; intros w w' tables err; cbn [read_tables]; [intros [= <- <- <-]; split; [done|by intros _ t ?%not_elem_of_nil]|].
  destruct (read_slots t all_slots w) as [[w1 sl] err1] eqn:E1. apply read_slots_spec in E1 as [F1 G1]. destruct (read_tables ts w1) as [[w2 tb] err2] eqn:E2. apply IH in E2 as [F2 G2]. rewrite F1 in F2, G2.
  intros [= <- <- <-]. split; [done|]. intros [He1 He2]%orb_false_iff t' Ht'. destruct (decide (t' = t)) as [->|Hne]; [by rewrite lookup_insert_eq, G1|].
  rewrite lookup_insert_ne by done. apply G2; [done|]. by apply elem_of_cons in Ht' as [?|?].
Qed.

(** Slots of tables no row points at go. *)
Lemma drop_orphans (ref : gset Z) l (w : W) :
  let w' := foldl (fun w kv => if decide (kv.1.1 ∈ ref) then w else (maglev_remove kv.1 w).1) w (l : list (Z * Z * LbBackend)) in
  (∀ k, row (lb_maps w') k = row (lb_maps w) k) ∧ ∀ k, slots (lb_maps w') !! k = if decide ((k.1 ∉ ref) ∧ k ∈ l.*1) then None else slots (lb_maps w) !! k.
Proof.
  revert w. induction l as [|[k0 b0] l IH]; intros w; cbn [foldl].
  { split; [done|]. intros k. rewrite decide_False; [done|]. by intros [_ ?%not_elem_of_nil]. }
  destruct (IH (if decide (k0.1 ∈ ref) then w else (maglev_remove k0 w).1)) as [H1 H2]. split.
  - intros k. cbn in H1. rewrite H1. cbn. destruct (decide (k0.1 ∈ ref)); [done|]. destruct (maglev_remove k0 w) as [w1 ok] eqn:E. apply maglev_remove_done in E. cbn. by rewrite E, row_del_slot.
  - intros k. cbn in H2 |- *. rewrite H2. clear H1 H2. destruct (decide ((k.1 ∉ ref) ∧ k ∈ l.*1)) as [Hk|Hk]; [by rewrite decide_True by set_solver|].
    destruct (decide (k0.1 ∈ ref)) as [Hr|Hr].
    + rewrite decide_False; [done|]. intros [Hn [->|?]%elem_of_cons]; [done|]. by apply Hk.
    + destruct (maglev_remove k0 w) as [w1 ok] eqn:E. apply maglev_remove_done in E. cbn. rewrite E. cbn. destruct (decide (k = k0)) as [->|Hne].
      * rewrite decide_True by set_solver. apply lookup_delete_eq.
      * rewrite decide_False by set_solver. by apply lookup_delete_ne.
Qed.

(** ** The loop *)

Lemma adopt_one_entry tables (c : LbCore W) owned v ip t l sl :
  tables !! t = Some sl → t ∉ owned → (sl = [] ∨ length sl = Z.to_nat TABLE_SIZE) →
  adopt_one true tables (c, owned, []) (v, ip, {[t := l]}) =
    (set_adopted (adopted_lbs c ++ [mkLbEntry v ip (replicate 16 0) (sort_by pair_le l) t [] (distinct_backends sl)]) c, {[t]} ∪ owned, []).
Proof.
  intros Ht Ho Hsl. unfold adopt_one. rewrite map_to_list_singleton. change (sort_by (main_le tables) [(t, l)]) with [(t, l)]. cbn [mbind list_bind fmap list_fmap foldl]. rewrite app_nil_r, Ht.
  cbn [default from_option id]. rewrite decide_False by done. destruct Hsl as [->|Hsl]; [by destruct c|]. rewrite decide_True by done. by destruct (distinct_backends sl); destruct c.
Qed.

(** What adoption finds of an entry. *)
Definition recovered (m : LbMaps) (e e' : LbEntry) : Prop :=
  addr e' = addr e ∧ e_table e' = e_table e ∧ other_tables e' = [] ∧ (∀ p, p ∈ ports e' ↔ p ∈ ports e) ∧ backends e' = distinct_backends (slots_of m (e_table e) all_slots).

Lemma adopt_all m next L tables items (c : LbCore W) owned :
  lb_inv m next L →
  (∀ x, x ∈ items → ∃ e l, e ∈ L ∧ x = (addr e, {[e_table e := l]}) ∧ (∀ p, p ∈ l ↔ p ∈ ports e) ∧ tables !! e_table e = Some (slots_of m (e_table e) all_slots) ∧ e_table e ∉ owned) →
  NoDup items.*1 →
  ∃ es owned', foldl (adopt_one true tables) (c, owned, []) items = (set_adopted (adopted_lbs c ++ es) c, owned', []) ∧ Forall2 (fun x e' => ∃ e, e ∈ L ∧ x.1 = addr e ∧ recovered m e e') items es.
Proof.
  intros Hinv. revert c owned. induction items as [|x items IH]; intros c owned Hx Hnd; cbn [foldl].
  { exists [], owned. split; [|done]. rewrite app_nil_r. by destruct c. }
  destruct (Hx x ltac:(left)) as (e & l & He & -> & Hl & Ht & Ho). destruct (table_whole _ _ _ Hinv e He) as (Hw & _). apply NoDup_cons in Hnd as [Hn Hnd]. cbn in Hn.
  change (addr e, {[e_table e := l]}) with (e_vni e, e_ip e, ({[e_table e := l]} : gmap Z (list (Z * Z)))). rewrite (adopt_one_entry _ _ _ _ _ _ _ _ Ht Ho Hw).
  set (e' := mkLbEntry _ _ _ _ _ _ _). set (c1 := set_adopted _ c). destruct (IH c1 ({[e_table e]} ∪ owned)) as (es & owned' & -> & Hes); [|done|].
  - intros y Hy. destruct (Hx y ltac:(by right)) as (e2 & l2 & He2 & -> & Hl2 & Ht2 & Ho2). exists e2, l2. split_and!; try done. intros [Heq%elem_of_singleton|?]%elem_of_union; [|done].
    assert (e2 = e) as -> by (eapply (NoDup_fmap_eq e_table L); [apply Hinv|done..]). apply Hn. apply list_elem_of_fmap. by exists (addr e, {[e_table e := l2]}).
  - exists (e' :: es), owned'. split; [cbn [c1 adopted_lbs set_adopted]; by rewrite <- app_assoc|]. constructor; [|done]. exists e. split_and!; [done|done|]. split_and!; try done.
    intros p. cbn. rewrite <- Hl. unfold sort_by. by rewrite merge_sort_Permutation.
Qed.

Lemma NoDup_fmap_via {A B C : Type} (f : A → B) (g : A → C) l : (∀ x y, x ∈ l → y ∈ l → f x = f y → g x = g y) → NoDup (g <$> l) → NoDup (f <$> l).
Proof.
  induction l as [|x l IH]; intros Hfg Hnd; [apply NoDup_nil_2|]. apply NoDup_cons in Hnd as [Hx Hnd]. apply NoDup_cons. split; [|apply IH; [|done]; intros y z Hy Hz; apply Hfg; by right].
  intros (y & Hf & Hy)%list_elem_of_fmap. apply Hx. rewrite (Hfg x y ltac:(left) ltac:(by right) Hf). by apply list_elem_of_fmap_2.
Qed.

(** The entries found keep the invariant, on maps without the tables no row is on. *)
Lemma recovered_inv m m' next next' L es :
  lb_inv m next L → next' ≤ MAX → NoDup (addr <$> es) → (∀ e', e' ∈ es → ∃ e, e ∈ L ∧ recovered m e e') → (∀ e, e ∈ L → ports e ≠ [] → ∃ e', e' ∈ es ∧ recovered m e e') →
  (∀ e', e' ∈ es → e_table e' < next') → (∀ k, row m' k = row m k) →
  (∀ t s, slots m' !! (t, s) = if decide (t ∈ (e_table <$> es)) then slots m !! (t, s) else None) → lb_inv m' next' es.
Proof.
  intros Hinv HM Hnd Hfrom Hto Hlt Hrow Hslot. assert (Htab : ∀ e', e' ∈ es → ∀ s, slots m' !! (e_table e', s) = slots m !! (e_table e', s)) by (intros e' He' s; by rewrite Hslot, decide_True by (by apply list_elem_of_fmap_2)).
  split; try done.
  - eapply NoDup_fmap_via; [|exact Hnd]. intros x y Hx Hy Ht. destruct (Hfrom x Hx) as (ex & Hex & Hax & Htx & _), (Hfrom y Hy) as (ey & Hey & Hay & Hty & _).
    rewrite Hax, Hay. f_equal. apply (NoDup_fmap_eq e_table L); [apply Hinv|done|done|congruence].
  - intros e' He'. by destruct (Hfrom e' He') as (e & _ & _ & _ & ? & _).
  - intros e' He'. split; [|by apply Hlt]. destruct (Hfrom e' He') as (e & He & _ & -> & _). apply (li_id _ _ _ Hinv e He).
  - intros k v. rewrite Hrow, (li_rows _ _ _ Hinv). split.
    + intros (e & p & He & Hp & -> & ->). destruct (Hto e He) as (e' & He' & Ha & Ht & _ & Hps & _); [intros E; rewrite E in Hp; by apply not_elem_of_nil in Hp|]. exists e', p. injection Ha as -> ->. rewrite Ht. split_and!; try done. by apply Hps.
    + intros (e' & p & He' & Hp & -> & ->). destruct (Hfrom e' He') as (e & He & Ha & Ht & _ & Hps & _). exists e, p. injection Ha as -> ->. rewrite Ht. split_and!; try done. by apply Hps.
  - intros t s Hs. rewrite Hslot in Hs. destruct (decide _); [done|by destruct Hs].
  - intros e' He'. destruct (Hfrom e' He') as (e & He & _ & Ht & _ & _ & Hb). apply (serves_frame m); [by apply Htab|]. rewrite Hb, Ht. destruct (table_whole _ _ _ Hinv e He) as (Hw & _ & Hd & _).
    split; [intros s b Hs; split; [by apply (sv_only _ _ _ (li_serves _ _ _ Hinv e He) s b)|apply Hd; by exists s]| |intros _ b Hb'; by apply Hd].
    intros Hne s Hs. apply (sv_full _ _ _ (li_serves _ _ _ Hinv e He)); [|done]. intros E. destruct (distinct_backends _) as [|b bs] eqn:Eb; [done|].
    destruct (proj1 (Hd b) ltac:(left)) as [s' Hs']. apply (sv_only _ _ _ (li_serves _ _ _ Hinv e He)) in Hs' as [_ Hs']. rewrite E in Hs'. by apply not_elem_of_nil in Hs'.
  - intros e' He'. destruct (Hfrom e' He') as (e & He & _ & _ & _ & _ & ->). destruct (table_whole _ _ _ Hinv e He) as (_ & Hnb & _ & Hin). split; [done|]. destruct (li_backends _ _ _ Hinv e He) as [_ HMe].
    assert (length (distinct_backends (slots_of m (e_table e) all_slots)) ≤ length (backends e))%nat; [|lia]. apply submseteq_length, NoDup_submseteq; [by eapply NoDup_fmap_1|done].
Qed.

Lemma Forall2_elem_r {A B : Type} (P : A → B → Prop) l k : Forall2 P l k → ∀ y, y ∈ k → ∃ x, x ∈ l ∧ P x y.
Proof. intros HP y (i & Hi)%list_elem_of_lookup. destruct (Forall2_lookup_r _ _ _ _ _ HP Hi) as (x & Hx & ?). exists x. split; [by eapply list_elem_of_lookup_2|done]. Qed.

Lemma Forall2_elem_l {A B : Type} (P : A → B → Prop) l k : Forall2 P l k → ∀ x, x ∈ l → ∃ y, y ∈ k ∧ P x y.
Proof. intros HP x (i & Hi)%list_elem_of_lookup. destruct (Forall2_lookup_l _ _ _ _ _ HP Hi) as (y & Hy & ?). exists y. split; [by eapply list_elem_of_lookup_2|done]. Qed.

Lemma foldl_max_ge l n : n ≤ foldl Z.max n l ∧ ∀ x, x ∈ l → x ≤ foldl Z.max n l.
Proof.
  revert n. induction l as [|x l IH]; intros n; [split; [done|by intros x ?%not_elem_of_nil]|]. cbn. destruct (IH (Z.max n x)) as [H1' H2']. split; [lia|].
  intros y [->|Hy]%elem_of_cons; [lia|by apply H2'].
Qed.

(** What the loop found is what the rows say. *)
Lemma found_entries m next L (Hinv : lb_inv m next L) R (HR : ∀ a t p, (a, t, p) ∈ R ↔ ∃ e, e ∈ L ∧ p ∈ ports e ∧ a = addr e ∧ t = e_table e) items es :
  items ≡ₚ map_to_list (foldl add_row ∅ R) → Forall2 (fun x e' => ∃ e, e ∈ L ∧ x.1 = addr e ∧ recovered m e e') items es →
  (∀ e', e' ∈ es → ∃ e, e ∈ L ∧ ports e ≠ [] ∧ recovered m e e') ∧ (∀ e, e ∈ L → ports e ≠ [] → ∃ e', e' ∈ es ∧ recovered m e e') ∧
  (∀ t, t ∈ (e_table <$> es) ↔ t ∈ referenced_of (foldl add_row ∅ R)) ∧ addr <$> es = items.*1.
Proof.
  intros Hitems Hes.
  assert (Hfrom : ∀ e', e' ∈ es → ∃ e, e ∈ L ∧ ports e ≠ [] ∧ recovered m e e').
  { intros e' He'. destruct (Forall2_elem_r _ _ _ Hes e' He') as ([a on] & Hx & e & He & Ha & Hr). cbn in Ha. subst a. rewrite Hitems in Hx. apply elem_of_map_to_list in Hx.
    destruct (rows_entry m _ L Hinv R HR _ on Hx) as (e2 & l & He2 & Ha & _ & _ & Hne). rewrite (same_entry m _ L Hinv e e2 He He2 Ha) in Hr. by exists e2. }
  assert (Hto : ∀ e, e ∈ L → ports e ≠ [] → ∃ e', e' ∈ es ∧ recovered m e e').
  { intros e He Hne. destruct (entry_rows L R HR e He Hne) as [on Hx]. assert (Hin : (addr e, on) ∈ items) by (rewrite Hitems; by apply elem_of_map_to_list).
    destruct (Forall2_elem_l _ _ _ Hes _ Hin) as (e' & He' & e2 & He2 & Ha & Hr). exists e'. split; [done|]. by rewrite (same_entry m _ L Hinv e e2 He He2 Ha). }
  assert (Htabs : ∀ t, t ∈ (e_table <$> es) ↔ t ∈ referenced_of (foldl add_row ∅ R)).
  { intros t. rewrite (referenced_entry m _ L Hinv R HR), list_elem_of_fmap. split.
    - intros (e' & -> & He'). destruct (Hfrom e' He') as (e & He & Hne & _ & Ht' & _). by exists e.
    - intros (e & He & Hne & <-). destruct (Hto e He Hne) as (e' & He' & _ & Ht' & _). by exists e'. }
  split_and!; [done|done|done|].
  clear -Hes. induction Hes as [|[a on] e' items es (e & _ & Ha & Hr) _ IH]; [done|]. cbn in *. rewrite IH. f_equal. rewrite Ha. apply Hr.
Qed.

(** A core that lost everything but the maps finds its load balancers. *)
Lemma lb_adopt_spec (c c' : LbCore W) n :
  core_inv c → adopt_lbs (lb_new (lw c)) = (c', inr n) →
  core_inv c' ∧ lbs c' = ∅ ∧ n = length (adopted_lbs c') ∧ (∀ k, row (lb_maps (lw c')) k = row (lb_maps (lw c)) k) ∧
  (∀ e' s, e' ∈ adopted_lbs c' → slots (lb_maps (lw c')) !! (e_table e', s) = slots (lb_maps (lw c)) !! (e_table e', s)) ∧
  (∀ e', e' ∈ adopted_lbs c' → ∃ e, e ∈ all_lbs c ∧ ports e ≠ [] ∧ recovered (lb_maps (lw c)) e e') ∧
  (∀ e, e ∈ all_lbs c → ports e ≠ [] → ∃ e', e' ∈ adopted_lbs c' ∧ recovered (lb_maps (lw c)) e e').
Proof.
  intros (Hinv & _ & Hn0). unfold adopt_lbs. change (lw (lb_new (lw c))) with (lw c). destruct (read_walks 3 (lw c)) as [w1 [[w4 w6] wm]] eqn:Ew. apply read_walks_spec in Ew as (M1 & R4 & R6 & Rm).
  set (R := (row4 <$> entries w4) ++ (row6 <$> entries w6)). set (rows := foldl add_row ∅ R). destruct (read_tables _ w1) as [[w2 tables] rerr] eqn:Et. apply read_tables_spec in Et as [M2 Ht]. rewrite M1 in M2, Ht.
  destruct (negb (error w4 || error w6 || error wm || rerr)) eqn:Eok; [|by destruct (foldl (adopt_one false tables) _ _) as [[? ?] ?]]. apply negb_true_iff in Eok. rewrite !orb_false_iff in Eok. destruct Eok as [[[E4 E6] Em] Er].
  specialize (R4 E4). specialize (R6 E6). specialize (Rm Em). specialize (Ht Er). set (m := lb_maps (lw c)) in *. set (L := all_lbs c) in *.
  assert (HR : ∀ a t p, (a, t, p) ∈ R ↔ ∃ e, e ∈ L ∧ p ∈ ports e ∧ a = addr e ∧ t = e_table e) by (intros a t p; by apply (rows_elem m (next_table_id c))).
  set (ref := referenced_of rows) in *. destruct (drop_orphans ref (entries wm) w2) as [D1 D2]. set (w3 := foldl _ w2 _) in *. rewrite M2 in D1, D2.
  set (top := foldl Z.max 0 _). set (next := Z.max _ (Z.min _ _)). set (c0 := mkLbCore _ _ _ _ _). set (items := sort_by _ (map_to_list rows)).
  assert (Hitems : items ≡ₚ map_to_list rows) by apply merge_sort_Permutation.
  destruct (adopt_all m (next_table_id c) L tables items c0 ∅ Hinv) as (es & owned & -> & Hes).
  { intros [a on] Hx. rewrite Hitems in Hx. apply elem_of_map_to_list in Hx. destruct (rows_entry m _ L Hinv R HR a on Hx) as (e & l & He & -> & -> & Hl & Hne). exists e, l. split_and!; [exact He|reflexivity|exact Hl| |apply not_elem_of_empty].
    apply Ht. unfold sort_by. rewrite merge_sort_Permutation. apply elem_of_elements, (referenced_entry m _ L Hinv R HR). by exists e. }
  { rewrite Hitems. apply NoDup_fst_map_to_list. }
  cbn [foldl app]. intros [= <- <-]. cbn [adopted_lbs set_adopted lbs c0 app lw lb_new].
  destruct (found_entries m _ L Hinv R HR items es Hitems Hes) as (Hfrom & Hto & Htabs & Haddr). fold rows ref in Htabs.
  assert (Htop : ∀ t, t ∈ ref → t ≤ top) by (intros t Ht'; apply foldl_max_ge, elem_of_app; left; by apply elem_of_elements).
  assert (Hnext : next ≤ MAX) by (unfold next; cbn [next_table_id lb_new]; unfold MAX; lia).
  split_and!; [|done|done|intros k; by rewrite D1| | |done].
  - split_and!; [|done|change (0 ≤ next); unfold next; cbn [next_table_id lb_new]; lia].
    change (lb_inv (lb_maps w3) next ((map_to_list (∅ : gmap string LbEntry)).*2 ++ es)). rewrite map_to_list_empty. cbn [fmap list_fmap app].
    apply (recovered_inv m _ (next_table_id c) _ L); [done|done|rewrite Haddr, Hitems; apply NoDup_fst_map_to_list|intros e' He'; destruct (Hfrom e' He') as (e & ? & _ & ?); by exists e|done| |done|].
    + intros e' He'. destruct (Hfrom e' He') as (e & He & _ & _ & Ht' & _). pose proof (Htop _ (proj1 (Htabs _) (list_elem_of_fmap_2 e_table _ _ He'))). pose proof (li_id _ _ _ Hinv e He). pose proof (li_next _ _ _ Hinv). change (e_table e' < next). unfold next. cbn [next_table_id lb_new]. lia.
    + intros t s. rewrite D2. cbn [fst]. destruct (decide (t ∈ (e_table <$> es))) as [Hin|Hin].
      * rewrite decide_False; [done|]. intros [Hn _]. by apply Hn, Htabs.
      * destruct (decide _) as [|Hd]; [done|]. destruct (slots m !! (t, s)) as [b|] eqn:Eb; [|done]. destruct Hd. cbn. split; [by rewrite <- Htabs|]. rewrite Rm. apply list_elem_of_fmap. exists (t, s, b). split; [done|by apply elem_of_map_to_list].
  - intros e' s He'. rewrite D2, decide_False; [done|]. intros [Hn _]. cbn in Hn. apply Hn, Htabs, list_elem_of_fmap_2. exact He'.
  - done.
Qed.

End adopt.
