(* ===== verification/LbControlTheorems.v ===== *)
(** * Load balancers of the control core: theorems

    Runs of the core, restarts included, against the maps the datapath reads. *)

From S2P Require Import Prelude Net FwClass FwControl Packet PacketFacts Conntrack Nat Nat64 Meter Datapath Maglev Sample LbControl LbControlFacts LbAdopt.
Import netip fwclass packet datapath maglev lbcontrol.

Open Scope Z_scope.

(** Writers whose reads succeed. *)
Class LbWriterReads (W : Type) `{LbWriter W} := {
  lb_entries_whole w : error (lb_entries w).2 = false;
  lb6_entries_whole w : error (lb6_entries w).2 = false;
  maglev_entries_whole w : error (maglev_entries w).2 = false;
  maglev_get_reads k w : is_Some (maglev_get k w).2
}.

Section steps.
Context {W : Type} `{LbWriterLaws W} `{!LbWriterReliable W}.

(** ** Runs *)

(** A call of the core, or a restart of the process.  A new load balancer is on an
    address no other registered one has, no load balancer has 2^32 backends, the table
    of a changed load balancer could be written, and a restart could read the maps. *)
Inductive lb_step : LbCore W → LbCore W → Prop :=
| step_create id v ip ul ps c c' r :
    (∀ id' e, lbs c !! id' = Some e → id' ≠ id → addr e ≠ (v, ip)) → create_lb id v ip ul ps c = (c', r) → lb_step c c'
| step_add id b c c' r :
    (∀ e, e ∈ all_lbs c → Z.of_nat (length (backends e)) < MAX) → add_lb_target id b c = (c', r) → r ≠ Some MapWrite → lb_step c c'
| step_del id vtep ip c c' r : del_lb_target id vtep ip c = (c', r) → r ≠ inl MapWrite → lb_step c c'
| step_delete id c c' r : delete_lb id c = (c', r) → lb_step c c'
| step_restart c c' n : adopt_lbs (lb_new (lw c)) = (c', inr n) → lb_step c c'.

Lemma lb_step_inv c c' : lb_step c c' → core_inv c → core_inv c'.
Proof. intros [] Hc; [by eapply create_inv|by eapply add_inv|by eapply del_inv|by eapply delete_inv|by eapply lb_adopt_spec]. Qed.

Lemma lb_new_inv (w : W) : lb_maps w = mkLbMaps ∅ ∅ ∅ → core_inv (lb_new w).
Proof.
  intros Hw. split_and!; [|done|done]. cbn. rewrite Hw. unfold all_lbs. cbn. rewrite map_to_list_empty. split; try (by intros e ?%not_elem_of_nil); try apply NoDup_nil_2; [done| |].
  - intros k v. split; [by destruct k|]. by intros (e & p & ?%not_elem_of_nil & _).
  - intros t s [b Hb]. cbn in Hb. by rewrite lookup_empty in Hb.
Qed.

Lemma lb_run_inv (w : W) c : lb_maps w = mkLbMaps ∅ ∅ ∅ → rtc lb_step (lb_new w) c → core_inv c.
Proof. intros Hw Hr. pose proof (lb_new_inv w Hw) as Hi. revert Hi. induction Hr as [|x y z Hs _ IH]; [done|]. intros Hi. apply IH. by eapply lb_step_inv. Qed.

(** ** What the datapath selects *)

(** The answer for a service is a backend of the load balancer that has it, and there
    is none only where no load balancer has it or the one that has it is empty. *)
Definition answers (c : LbCore W) (a : Z * LbIp) (p : Z * Z) (r : option LbBackend) : Prop :=
  match r with
  | Some b => ∃ e, e ∈ all_lbs c ∧ addr e = a ∧ p ∈ ports e ∧ b ∈ backends e
  | None => ∀ e, e ∈ all_lbs c → addr e = a → p ∈ ports e → backends e = []
  end.

Lemma select_answers c cfg v ip p h :
  core_inv c → maglev cfg = slots (lb_maps (lw c)) → answers c (v, ip) p (select cfg (row (lb_maps (lw c)) (row_key ip v p)) (Some h)).
Proof.
  intros (Hi & _ & _) Hm. unfold select. destruct (row _ _) as [val|] eqn:Er; cbn [mbind option_bind].
  - apply (li_rows _ _ _ Hi) in Er as (e & p' & He & Hp & Hk & ->). apply row_key_inj in Hk as (-> & -> & ->). cbn. rewrite Hm. pose proof (li_serves _ _ _ Hi e He) as Hs.
    destruct (slots _ !! _) as [b|] eqn:Eb; cbn.
    + exists e. split_and!; [done|done|done|]. by eapply sv_only.
    + intros e' He' Ha _. rewrite (same_entry _ _ _ Hi e' e He' He Ha). destruct (decide (backends e = [])) as [|Hne]; [done|].
      destruct (sv_full _ _ _ Hs Hne (h mod TABLE_SIZE)) as [b Hb]; [by apply Z.mod_pos_bound|]. unfold TABLE_SIZE in *. congruence.
  - cbn. intros e He [= <- <-] Hp. exfalso. assert (Hr : row (lb_maps (lw c)) (row_key (e_ip e) (e_vni e) p) = Some (mkLbValue (e_table e) TABLE_SIZE)) by (apply (li_rows _ _ _ Hi); by exists e, p). congruence.
Qed.

(** A table holds its backends, none lost, where there are no more than its slots. *)
Lemma recovered_backends c e :
  core_inv c → e ∈ all_lbs c → (length (backends e) ≤ Z.to_nat TABLE_SIZE)%nat → distinct_backends (slots_of (lb_maps (lw c)) (e_table e) all_slots) ≡ₚ backends e.
Proof.
  intros (Hi & _ & _) He Hlen. destruct (table_whole _ _ _ Hi e He) as (_ & Hnd & Hd & Hin). apply NoDup_Permutation; [by eapply NoDup_fmap_1|eapply NoDup_fmap_1, (li_backends _ _ _ Hi e He)|].
  intros b. split; [apply Hin|]. intros Hb. apply Hd. by apply (sv_all _ _ _ (li_serves _ _ _ Hi e He)).
Qed.

(** ** Reading *)

Context `{!LbWriterReads W}.

Lemma read_walks_whole tries (w : W) : match (read_walks tries w).2 with (w4, w6, wm) => error w4 || error w6 || error wm = false end.
Proof.
  destruct tries as [|tries]; cbn [read_walks]; destruct (lb_entries w) as [w1 r4] eqn:E4; destruct (lb6_entries w1) as [w2 r6] eqn:E6; destruct (maglev_entries w2) as [w3 rm] eqn:Em;
    pose proof (lb_entries_whole w) as H4; pose proof (lb6_entries_whole w1) as H6; pose proof (maglev_entries_whole w2) as Hm; rewrite E4 in H4; rewrite E6 in H6; rewrite Em in Hm; cbn in *; rewrite H4, H6, Hm; cbn.
  - done.
  - destruct tries; cbn; by rewrite ?H4, ?H6, ?Hm.
Qed.

Lemma read_slots_whole t ss (w : W) : (read_slots t ss w).2 = false.
Proof.
  revert w. induction ss as [|s ss IH]; intros w; [done|]. cbn [read_slots]. pose proof (maglev_get_reads (t, s) w) as Hr. destruct (maglev_get (t, s) w) as [w1 r]. destruct Hr as [x Hx]. cbn in Hx. subst r.
  specialize (IH w1). destruct (read_slots t ss w1) as [[w2 l] err]. by destruct x.
Qed.

Lemma read_tables_whole ts (w : W) : (read_tables ts w).2 = false.
Proof.
  revert w. induction ts as [|t ts IH]; intros w; [done|]. cbn [read_tables]. pose proof (read_slots_whole t all_slots w) as Hr. destruct (read_slots t all_slots w) as [[w1 sl] err].
  specialize (IH w1). destruct (read_tables ts w1) as [[w2 tb] err']. cbn in *. by rewrite Hr, IH.
Qed.

Lemma adopt_returns (c : LbCore W) : ∃ c' n, adopt_lbs c = (c', inr n).
Proof.
  unfold adopt_lbs. pose proof (read_walks_whole 3 (lw c)) as Hw. destruct (read_walks 3 (lw c)) as [w1 [[w4 w6] wm]]. cbn in Hw. rewrite Hw.
  set (ts := sort_by _ _). pose proof (read_tables_whole ts w1) as Ht. destruct (read_tables ts w1) as [[w2 tables] err]. cbn in Ht. rewrite Ht. cbn [negb orb].
  destruct (foldl (adopt_one true tables) _ _) as [[c1 owned] left_]. by eexists _, _.
Qed.

End steps.

(** ** Kernel maps without faults *)

Section kernel.
Import lbaya.

#[export] Instance aya_LbWriterReliable : @LbWriterReliable KernelLb (aya_LbWriter (fun _ => false)).
Proof.
  split; cbn; unfold attempt_remove, attempt, syscall, del_row, del_slot; intros k w w' ok; case_bool_decide as Hk; intros [= <- <-]; cbn; try done;
    destruct w as [[r4 r6 sl] n]; cbn in *; f_equal; symmetry; apply delete_id, eq_None_not_Some; done.
Qed.

Lemma walk_no_fault {T : Type} (l : list T) w : error (walk (fun _ => false) l w).2 = false.
Proof. revert w. induction l as [|e l IH]; intros w; [done|]. cbn. specialize (IH (mkKernelLb (k_maps w) (S (k_calls w)))). by destruct (walk _ l _). Qed.

#[export] Instance aya_LbWriterReads : @LbWriterReads KernelLb (aya_LbWriter (fun _ => false)).
Proof. split; cbn; intros; [apply walk_no_fault..|by eexists]. Qed.

End kernel.

(** ** The hash of an IPv6 flow *)

Lemma read_array_sub pkt off l k n : 0 ≤ off → (0 < n)%nat → (k + n ≤ length l)%nat → read_array (length l) pkt off = Some l → read_array n pkt (off + Z.of_nat k) = Some (slice k n l).
Proof.
  intros Ho Hn Hk Hr. apply read_array_inv in Hr as (Hl & Hb & _). rewrite read_array_Some by lia. f_equal. rewrite Hl. unfold slice. replace (length l) with (k + (length l - k))%nat by lia.
  rewrite <- take_drop_commute, take_take, drop_drop. f_equal; [lia|]. f_equal. lia.
Qed.

Lemma sixteen {A} (l : list A) : length l = 16%nat → ∃ a b c d e f g h i j k m n o p q, l = [a; b; c; d; e; f; g; h; i; j; k; m; n; o; p; q].
Proof. intros Hl. do 16 (destruct l as [|? l]; [done|]). destruct l; [|done]. by repeat eexists. Qed.

#[local] Opaque fnv_step fnv_u16.

Lemma fold_words (f : Z → Z → Z) h (src dst : list Z) :
  length src = 16%nat → length dst = 16%nat → let g (s d : list Z) := fun h i => f (f h (s !!! i)) (d !!! i) in
  foldl (g (slice 12 4 src) (slice 12 4 dst)) (foldl (g (slice 8 4 src) (slice 8 4 dst)) (foldl (g (slice 4 4 src) (slice 4 4 dst)) (foldl (g (slice 0 4 src) (slice 0 4 dst)) h (seq 0 4)) (seq 0 4)) (seq 0 4)) (seq 0 4)
  = foldl (g src dst) h (seq 0 16).
Proof.
  intros Ls Ld. destruct (sixteen src Ls) as (? & ? & ? & ? & ? & ? & ? & ? & ? & ? & ? & ? & ? & ? & ? & ? & ->), (sixteen dst Ld) as (? & ? & ? & ? & ? & ? & ? & ? & ? & ? & ? & ? & ? & ? & ? & ? & ->). reflexivity.
Qed.

(** Read in words from the packet, it is the hash of the two addresses. *)
Lemma hash_v6_at_hash pkt soff doff src dst sport dport p :
  0 ≤ soff → 0 ≤ doff → read_array 16 pkt soff = Some src → read_array 16 pkt doff = Some dst → hash_v6_at pkt soff doff sport dport p = Some (hash_v6 src dst sport dport p).
Proof.
  intros Hso Hdo Hs Hd. assert (length src = 16%nat ∧ length dst = 16%nat) as [Ls Ld] by (apply read_array_inv in Hs as (_ & _ & ?), Hd as (_ & _ & ?); done).
  assert (Hrs : ∀ k, (k + 4 ≤ 16)%nat → read_array 4 pkt (soff + Z.of_nat k) = Some (slice k 4 src)) by (intros k Hk; apply read_array_sub; [done|lia|lia|by rewrite Ls]).
  assert (Hrd : ∀ k, (k + 4 ≤ 16)%nat → read_array 4 pkt (doff + Z.of_nat k) = Some (slice k 4 dst)) by (intros k Hk; apply read_array_sub; [done|lia|lia|by rewrite Ld]).
  pose proof (Hrs 0%nat ltac:(lia)) as S0. pose proof (Hrd 0%nat ltac:(lia)) as D0. rewrite Z.add_0_r in S0, D0.
  unfold hash_v6_at, fold_addr_word. pose proof (Hrs 4%nat ltac:(lia)) as S1. pose proof (Hrd 4%nat ltac:(lia)) as D1. pose proof (Hrs 8%nat ltac:(lia)) as S2. pose proof (Hrd 8%nat ltac:(lia)) as D2.
  pose proof (Hrs 12%nat ltac:(lia)) as S3. pose proof (Hrd 12%nat ltac:(lia)) as D3. change (Z.of_nat 4) with 4 in S1, D1. change (Z.of_nat 8) with 8 in S2, D2. change (Z.of_nat 12) with 12 in S3, D3.
  rewrite S0, D0. cbn [mbind option_bind]. rewrite S1, D1. cbn [mbind option_bind]. rewrite S2, D2. cbn [mbind option_bind]. rewrite S3, D3. cbn [mbind option_bind]. unfold hash_v6.
  pose proof (fold_words fnv_step FNV_OFFSET src dst Ls Ld) as E. cbn beta zeta in E. rewrite E. reflexivity.
Qed.

(** ** Errors about balanced flows *)

(** An ICMP error that quotes a packet from [dst] back to [src]: the reply of the
    balanced address to the client. *)
Definition quotes4 (err : list Z) (off : Z) (src dst : list Z) (sport dport p : Z) : Prop :=
  (∃ b, read_u8 err off = Some b ∧ Z.land b 15 = 5) ∧ read_u8 err (off + 9) = Some 1 ∧ (∃ t, read_u8 err (off + 20) = Some t ∧ (t = 3 ∨ t = 11 ∨ t = 12)) ∧
  (∃ b, read_u8 err (off + 28) = Some b ∧ Z.land b 15 = 5) ∧ read_u8 err (off + 37) = Some p ∧ (p = 6 ∨ p = 17) ∧
  read_array 4 err (off + 40) = Some dst ∧ read_array 4 err (off + 44) = Some src ∧ read_u16_be err (off + 48) = Some dport ∧ read_u16_be err (off + 50) = Some sport.

Definition quotes6 (err : list Z) (off : Z) (src dst : list Z) (sport dport p : Z) : Prop :=
  read_u8 err (off + 6) = Some 58 ∧ (∃ t, read_u8 err (off + 40) = Some t ∧ 1 ≤ t ≤ 4) ∧ read_u8 err (off + 54) = Some p ∧ (p = 6 ∨ p = 17) ∧
  read_array 16 err (off + 56) = Some dst ∧ read_array 16 err (off + 72) = Some src ∧ read_u16_be err (off + 88) = Some dport ∧ read_u16_be err (off + 90) = Some sport.

Lemma icmp_error_select cfg err off v src dst sport dport p :
  quotes4 err off src dst sport dport p → lb_select_forward_icmp_error cfg err off v = select cfg (lb cfg !! (v, dst, dport, p)) (Some (hash5 src dst sport dport p)).
Proof.
  intros ((b & E1 & Hb) & E2 & (t & E3 & Ht) & (b' & E4 & Hb') & E5 & Hp & E6 & E7 & E8 & E9). unfold lb_select_forward_icmp_error.
  replace (off + 20 + 8) with (off + 28) by lia. replace (off + 28 + 9) with (off + 37) by lia. replace (off + 28 + 12) with (off + 40) by lia. replace (off + 28 + 16) with (off + 44) by lia.
  replace (off + 28 + 20) with (off + 48) by lia. replace (off + 48 + 2) with (off + 50) by lia.
  rewrite E1. cbn [mbind option_bind]. rewrite Hb. cbn [Z.eqb Pos.eqb negb]. rewrite E2. cbn [mbind option_bind Z.eqb Pos.eqb negb]. rewrite E3. cbn [mbind option_bind].
  replace (negb (t =? 3) && negb (t =? 11) && negb (t =? 12)) with false by (destruct Ht as [-> | [-> | ->]]; done). rewrite E4. cbn [mbind option_bind]. rewrite Hb'. cbn [Z.eqb Pos.eqb negb]. rewrite E5. cbn [mbind option_bind].
  replace (negb (p =? 6) && negb (p =? 17)) with false by (destruct Hp as [-> | ->]; done). rewrite E6, E7, E8, E9. done.
Qed.

Lemma icmp_error_select_v6 cfg err off v src dst sport dport p :
  0 ≤ off → quotes6 err off src dst sport dport p → lb_select_forward_icmp_error_v6 cfg err off v = select cfg (lb6 cfg !! (v, dst, dport, p)) (Some (hash_v6 src dst sport dport p)).
Proof.
  intros Ho (E1 & (t & E2 & Ht) & E3 & Hp & E4 & E5 & E6 & E7). unfold lb_select_forward_icmp_error_v6.
  replace (off + 40 + 8) with (off + 48) by lia. replace (off + 48 + 6) with (off + 54) by lia. replace (off + 48 + 8) with (off + 56) by lia. replace (off + 48 + 24) with (off + 72) by lia.
  replace (off + 48 + 40) with (off + 88) by lia. replace (off + 48 + 42) with (off + 90) by lia.
  rewrite E1. cbn [mbind option_bind Z.eqb Pos.eqb negb]. rewrite E2. cbn [mbind option_bind]. replace (negb (t =? 1) && negb (t =? 2) && negb (t =? 3) && negb (t =? 4)) with false by (assert (t = 1 ∨ t = 2 ∨ t = 3 ∨ t = 4) as [-> | [-> | [-> | ->]]] by lia; done).
  rewrite E3. cbn [mbind option_bind]. replace (negb (p =? 6) && negb (p =? 17)) with false by (destruct Hp as [-> | ->]; done). rewrite E4, E6, E7. cbn [mbind option_bind]. by rewrite (hash_v6_at_hash err _ _ src dst) by (done || lia).
Qed.

Lemma forward_select_v6 cfg pkt off v src dst sport dport p :
  0 ≤ off → read_array 16 pkt (off + 8) = Some src → read_array 16 pkt (off + 24) = Some dst → read_u8 pkt (off + 6) = Some p → p = 6 ∨ p = 17 →
  read_u16_be pkt (off + 40) = Some sport → read_u16_be pkt (off + 42) = Some dport →
  lb_select_forward_v6 cfg pkt off v = select cfg (lb6 cfg !! (v, dst, dport, p)) (Some (hash_v6 src dst sport dport p)).
Proof.
  intros Ho Hs Hd Hp Hpp Hsp Hdp. unfold lb_select_forward_v6. rewrite Hp. cbn [mbind option_bind]. replace (negb (p =? 6) && negb (p =? 17)) with false by (destruct Hpp as [-> | ->]; done).
  rewrite Hd, Hsp, Hdp. cbn [mbind option_bind]. by rewrite (hash_v6_at_hash pkt _ _ src dst) by (done || lia).
Qed.

(** ** Claims *)

Section claims.
Context {W : Type} `{LbWriterLaws W} `{!LbWriterReliable W}.

(** C13. Whatever calls and restarts led to a core, where no two load balancers were
    registered on one address and no write of a changed table or removal failed, the
    datapath answers a packet for a registered service with a backend of the load balancer
    that has the service, answers nothing only where that load balancer has no backends,
    and answers nothing for a service no load balancer has; in both families. *)
Theorem lb_run_serves (w : W) (c : LbCore W) (cfg : Config) :
  lb_maps w = mkLbMaps ∅ ∅ ∅ → rtc lb_step (lb_new w) c →
  lb cfg = rows4 (lb_maps (lw c)) → lb6 cfg = rows6 (lb_maps (lw c)) → maglev cfg = slots (lb_maps (lw c)) →
  ∀ pkt off v sport dport p, 0 ≤ off →
    (∀ src dst, read_array 4 pkt (off + 12) = Some src → read_array 4 pkt (off + 16) = Some dst → l4_ports pkt off = Some (p, sport, dport) →
      answers c (v, Ipv4 dst) (if p =? 1 then 0 else dport, p) (lb_select_forward cfg pkt off v)) ∧
    (∀ src dst, read_array 16 pkt (off + 8) = Some src → read_array 16 pkt (off + 24) = Some dst → read_u8 pkt (off + 6) = Some p → p = 6 ∨ p = 17 →
      read_u16_be pkt (off + 40) = Some sport → read_u16_be pkt (off + 42) = Some dport →
      answers c (v, Ipv6 dst) (dport, p) (lb_select_forward_v6 cfg pkt off v)).
Proof.
  intros Hw Hr H4 H6 Hm pkt off v sport dport p Ho. pose proof (lb_run_inv w c Hw Hr) as Hi. split.
  - intros src dst Hs Hd Hl. unfold lb_select_forward. rewrite Hd, Hs, Hl. cbn [mbind option_bind]. rewrite H4. by apply (select_answers c cfg v (Ipv4 dst) (_, p)).
  - intros src dst Hs Hd Hp Hpp Hsp Hdp. rewrite (forward_select_v6 cfg pkt off v src dst sport dport p) by done. rewrite H6. by apply (select_answers c cfg v (Ipv6 dst) (dport, p)).
Qed.

(** An ICMP error about a balanced flow reaches the backend the flow is on: where it
    quotes the balanced address's reply to a client, the relay selects what the client's
    own packets select, in both families and whatever the maps hold. *)
Theorem lb_error_backend (cfg : Config) pkt off err eoff v src dst sport dport p :
  0 ≤ off → 0 ≤ eoff →
  (read_array 4 pkt (off + 12) = Some src → read_array 4 pkt (off + 16) = Some dst → l4_ports pkt off = Some (p, sport, dport) →
   quotes4 err eoff src dst sport dport p → lb_select_forward_icmp_error cfg err eoff v = lb_select_forward cfg pkt off v) ∧
  (read_array 16 pkt (off + 8) = Some src → read_array 16 pkt (off + 24) = Some dst → read_u8 pkt (off + 6) = Some p →
   read_u16_be pkt (off + 40) = Some sport → read_u16_be pkt (off + 42) = Some dport →
   quotes6 err eoff src dst sport dport p → lb_select_forward_icmp_error_v6 cfg err eoff v = lb_select_forward_v6 cfg pkt off v).
Proof.
  intros Ho Heo. split.
  - intros Hs Hd Hl Hq. rewrite (icmp_error_select _ _ _ _ src dst sport dport p Hq). unfold lb_select_forward. rewrite Hd, Hs, Hl. cbn [mbind option_bind].
    destruct Hq as (_ & _ & _ & _ & _ & [-> | ->] & _); done.
  - intros Hs Hd Hp Hsp Hdp Hq. rewrite (icmp_error_select_v6 _ _ _ _ src dst sport dport p Heo Hq). symmetry. apply forward_select_v6; try done. apply Hq.
Qed.

(** C18. A restart loses nothing but backends without a slot: from the maps a run from
    empty maps leaves, where they can be read, adoption succeeds and finds every load
    balancer with a service again, its address, table and ports, and its backends if they
    are no more than the 1021 slots of a table (of more, some hold no slot, and those are
    not found again); it finds no other; and every service lookup selects what it
    selected before. *)
Theorem lb_restart_roundtrip `{!LbWriterReads W} (w : W) (c : LbCore W) :
  lb_maps w = mkLbMaps ∅ ∅ ∅ → rtc lb_step (lb_new w) c →
  ∃ c' n, adopt_lbs (lb_new (lw c)) = (c', inr n) ∧ n = length (adopted_lbs c') ∧ lbs c' = ∅ ∧
    (∀ e, e ∈ all_lbs c → ports e ≠ [] → ∃ e', e' ∈ adopted_lbs c' ∧ addr e' = addr e ∧ e_table e' = e_table e ∧ (∀ p, p ∈ ports e' ↔ p ∈ ports e) ∧
      ((length (backends e) ≤ Z.to_nat TABLE_SIZE)%nat → backends e' ≡ₚ backends e)) ∧
    (∀ e', e' ∈ adopted_lbs c' → e_table e' < next_table_id c' ∧ ∃ e, e ∈ all_lbs c ∧ ports e ≠ [] ∧ addr e = addr e') ∧
    ∀ cfg cfg' k h, maglev cfg = slots (lb_maps (lw c)) → maglev cfg' = slots (lb_maps (lw c')) →
      select cfg' (row (lb_maps (lw c')) k) h = select cfg (row (lb_maps (lw c)) k) h.
Proof.
  intros Hw Hr. pose proof (lb_run_inv w c Hw Hr) as Hi. destruct (adopt_returns (lb_new (lw c))) as (c' & n & Ha). exists c', n.
  destruct (lb_adopt_spec c c' n Hi Ha) as (Hi' & Hl & Hn & Hrow & Hslot & Hfrom & Hto). split_and!; try done.
  - intros e He Hp. destruct (Hto e He Hp) as (e' & He' & H1 & H2 & _ & H3 & Hb). exists e'. split_and!; try done. intros Hlen. rewrite Hb. by apply recovered_backends.
  - intros e' He'. split; [apply (li_id _ _ _ (proj1 Hi')); unfold all_lbs; rewrite Hl, map_to_list_empty; done|]. destruct (Hfrom e' He') as (e & He & Hp & Hae & _). by exists e.
  - intros cfg cfg' k h Hm Hm'. rewrite Hrow. unfold select. destruct (row (lb_maps (lw c)) k) as [val|] eqn:Ek; [|done]. cbn [mbind option_bind].
    apply (li_rows _ _ _ (proj1 Hi)) in Ek as (e & p & He & Hp & -> & ->). destruct (Hto e He) as (e' & He' & _ & Ht & _); [intros E; rewrite E in Hp; by apply not_elem_of_nil in Hp|].
    cbn. rewrite Hm, Hm', <- Ht. destruct h as [h|]; [|done]. cbn. by apply Hslot.
Qed.

End claims.

(** ** Examples *)

Module lb_example.
Import sample lbmem.

Definition vip : list Z := [203; 0; 113; 80].
Definition lb_id : string := "203.0.113.80".
Definition backend : LbBackend := mkBackend vtep (replicate 12 0 ++ guest) vpc 0.

(** A load balancer with a backend, on any writer. *)
Definition created {W : Type} `{LbWriter W} (w : W) : LbCore W := (create_lb lb_id vpc (Ipv4 vip) edge [(80, 6)] (lb_new w)).1.
Definition filled {W : Type} `{LbWriter W} (w : W) : LbCore W := (add_lb_target lb_id backend (created w)).1.

Definition with_lb (m : LbMaps) (c : Config) : Config :=
  mkConfig (local c) (underlay_map c) (rows4 m) (rows6 m) (slots m) (nats c) (nat_ips c) (nat_owners c) (nats6 c) (nat_ips6 c) (nat_owners6 c)
    (routes c) (routes6 c) (port_meta c) (ifaces c) (ifaces6 c) (floating_ips c) (fw c) (fw_epoch c).

Definition request : list Z := tcp server vip 40000 80 2.

Lemma surj {A B : Type} (p : A * B) : p = (p.1, p.2).
Proof. by destruct p. Qed.

Lemma filled_run {W : Type} `{LbWriter W} (w : W) :
  forallb (fun e => Z.of_nat (length (backends e)) <? MAX) (all_lbs (created w)) = true → (add_lb_target lb_id backend (created w)).2 ≠ Some MapWrite → rtc lb_step (lb_new w) (filled w).
Proof.
  intros Hl Hr. eapply rtc_l; [|eapply rtc_once].
  - eapply (step_create lb_id vpc (Ipv4 vip) edge [(80, 6)]); [intros id' e He; cbn in He; by rewrite lookup_empty in He|apply surj].
  - eapply (step_add lb_id backend); [intros e He%list_elem_of_In; apply Z.ltb_lt, (proj1 (forallb_forall _ _) Hl e He)|apply surj|exact Hr].
Qed.

Lemma lb_run_serves_witness :
  let c := filled mem_empty in let cf := with_lb (lb_maps (lw c)) cfg in
  answers c (vpc, Ipv4 vip) (80, 6) (lb_select_forward cf request nat64.ETH_LEN vpc) ∧ lb_select_forward cf request nat64.ETH_LEN vpc = Some backend.
Proof.
  split; [|vm_compute; reflexivity].
  refine (proj1 (lb_run_serves mem_empty (filled mem_empty) (with_lb (lb_maps (lw (filled mem_empty))) cfg) eq_refl _ eq_refl eq_refl eq_refl request nat64.ETH_LEN vpc 40000 80 6 _) server vip _ _ _).
  - apply filled_run; vm_compute; [reflexivity|discriminate].
  - vm_compute. discriminate.
  - vm_compute. reflexivity.
  - vm_compute. reflexivity.
  - vm_compute. reflexivity.
Defined.

Lemma lb_error_backend_witness :
  let err := eth ++ ([69; 0; 0; 56; 0; 0; 0; 0; 64; 1; 0; 0] ++ server ++ vip) ++ [3; 4; 0; 0; 0; 0; 5; 120] ++ ([69; 0; 0; 40; 0; 0; 0; 0; 64; 6; 0; 0] ++ vip ++ server) ++ be16 80 ++ be16 40000 in
  let cf := with_lb (lb_maps (lw (filled mem_empty))) cfg in
  lb_select_forward_icmp_error cf err nat64.ETH_LEN vpc = lb_select_forward cf request nat64.ETH_LEN vpc ∧ lb_select_forward cf request nat64.ETH_LEN vpc = Some backend.
Proof.
  split; [|vm_compute; reflexivity]. apply (proj1 (lb_error_backend (with_lb (lb_maps (lw (filled mem_empty))) cfg) request nat64.ETH_LEN _ nat64.ETH_LEN vpc server vip 40000 80 6 ltac:(done) ltac:(done))); [vm_compute; reflexivity..|].
  split_and!; try (by vm_compute); [by exists 69|exists 3; split; [by vm_compute|by left]|by exists 69|by left].
Defined.

Import lbaya.

(** The kernel maps of a fresh node. *)
Definition kernel_empty : KernelLb := mkKernelLb (mkLbMaps ∅ ∅ ∅) 0.

Lemma lb_restart_roundtrip_witness :
  let c := @filled _ (aya_LbWriter (fun _ => false)) kernel_empty in
  ∃ c' n, @adopt_lbs _ (aya_LbWriter (fun _ => false)) (lb_new (lw c)) = (c', inr n) ∧ ∃ e', e' ∈ adopted_lbs c' ∧ addr e' = (vpc, Ipv4 vip) ∧ backends e' ≡ₚ [backend].
Proof.
  destruct (@lb_restart_roundtrip _ (aya_LbWriter (fun _ => false)) (aya_LbWriterLaws (fun _ => false)) aya_LbWriterReliable aya_LbWriterReads kernel_empty (@filled _ (aya_LbWriter (fun _ => false)) kernel_empty) eq_refl) as (c' & n & Ha & _ & _ & Hall & _).
  - apply filled_run; vm_compute; [reflexivity|discriminate].
  - exists c', n. split; [exact Ha|]. destruct (Hall (mkLbEntry vpc (Ipv4 vip) edge [(80, 6)] 1 [] [backend])) as (e' & He' & Hadd & _ & _ & Hb).
    + apply list_elem_of_In. vm_compute. by left.
    + discriminate.
    + exists e'. split_and!; [exact He'|exact Hadd|apply Hb; vm_compute; lia].
Defined.

End lb_example.
