(* ===== verification/Interact.v ===== *)
(** * Programs that ask

    A controller is a sequence of calls to an API server, fence actuators and clocks, all
    of which answer as they like.  Such code is a program over an alphabet of events: an
    event is a call with its answer.  Nothing is assumed of the answers: a theorem on the
    traces of a program holds for every answer, every failure and every interleaving with
    the rest of the system.

    [safe] is a program logic on histories: which event may follow which history, and
    what holds of the history and the result at the end. *)

From S2P Require Import Prelude.

(** [Ask ev k]: make a call; the answer [x] makes the event [ev x], and the program goes
    on as [k x]. *)
Inductive prog (E A : Type) : Type :=
| Ret (a : A)
| Ask (X : Type) (ev : X → E) (k : X → prog E A).
Arguments Ret {_ _}.
Arguments Ask {_ _} _ _ _.

Fixpoint prog_bind {E A B : Type} (f : A → prog E B) (p : prog E A) : prog E B :=
  match p with
  | Ret a => f a
  | Ask X ev k => Ask X ev (fun x => prog_bind f (k x))
  end.

#[export] Instance prog_mbind E : MBind (prog E) := fun A B f p => prog_bind f p.
#[export] Instance prog_mret E : MRet (prog E) := fun A a => Ret a.

Definition ask {E X : Type} (ev : X → E) : prog E X := Ask X ev Ret.

(** [for _, x := range l { s = f(x, s) }] *)
Fixpoint each {E S X : Type} (f : X → S → prog E S) (l : list X) (s : S) : prog E S :=
  match l with
  | [] => mret s
  | x :: l => s ← f x s; each f l s
  end.

(** The events of a run that returns [a]. *)
Fixpoint traces {E A : Type} (p : prog E A) (tr : list E) (a : A) : Prop :=
  match p with
  | Ret b => tr = [] ∧ a = b
  | Ask X ev k => ∃ x tr', tr = ev x :: tr' ∧ traces (k x) tr' a
  end.

(** After the history [h], every event [e] of [p] is one [Φ] allows after what came
    before it, and [Q] holds of the whole history and the result. *)
Fixpoint safe {E A : Type} (Φ : list E → E → Prop) (h : list E) (p : prog E A) (Q : list E → A → Prop) : Prop :=
  match p with
  | Ret a => Q h a
  | Ask X ev k => ∀ x, Φ h (ev x) ∧ safe Φ (h ++ [ev x]) (k x) Q
  end.

Section rules.
Context {E : Type} (Φ : list E → E → Prop).

Lemma safe_mono {A} (p : prog E A) (Q Q' : list E → A → Prop) h : (∀ h' a, Q h' a → Q' h' a) → safe Φ h p Q → safe Φ h p Q'.
Proof. intros HQ. revert h. induction p as [a|X ev k IH]; intros h Hp; [by apply HQ|]. intros x. destruct (Hp x) as [H1 H2]. split; [done|by apply IH]. Qed.

Lemma safe_bind {A B} (p : prog E A) (f : A → prog E B) Q h : safe Φ h p (fun h' a => safe Φ h' (f a) Q) → safe Φ h (p ≫= f) Q.
Proof. revert h. induction p as [a|X ev k IH]; intros h Hp; [done|]. intros x. destruct (Hp x) as [H1 H2]. split; [done|by apply IH]. Qed.

Lemma safe_ask {X : Type} (ev : X → E) Q h : (∀ x, Φ h (ev x) ∧ Q (h ++ [ev x]) x) → safe Φ h (ask ev) Q.
Proof. done. Qed.

Lemma safe_ask_bind {X B : Type} (ev : X → E) (f : X → prog E B) Q h : (∀ x, Φ h (ev x) ∧ safe Φ (h ++ [ev x]) (f x) Q) → safe Φ h (ask ev ≫= f) Q.
Proof. intros Hx. by apply safe_bind, safe_ask. Qed.

(** A loop with an invariant of the history and the state. *)
Lemma safe_each {S X : Type} (f : X → S → prog E S) (I : list E → S → Prop) l s h Q :
  I h s → (∀ x s h, x ∈ l → I h s → safe Φ h (f x s) I) → (∀ h s, I h s → Q h s) → safe Φ h (each f l s) Q.
Proof.
  intros HI Hf HQ. revert s h HI. induction l as [|x l IH]; intros s h HI; [by apply HQ|]. apply safe_bind. eapply safe_mono, Hf; [|left|done].
  intros h' s' HI'. apply IH; [|done]. intros y s'' h'' Hy. apply Hf. by right.
Qed.

(** What the logic says of traces. *)
Lemma safe_traces {A} (p : prog E A) Q h tr a : safe Φ h p Q → traces p tr a → Q (h ++ tr) a ∧ ∀ pre e post, tr = pre ++ e :: post → Φ (h ++ pre) e.
Proof.
  revert h tr. induction p as [b|X ev k IH]; intros h tr Hs Ht.
  - destruct Ht as [-> ->]. rewrite app_nil_r. split; [done|]. intros pre e1 post Heq; by destruct pre.
  - destruct Ht as (x & tr' & -> & Ht). destruct (Hs x) as [H1 H2]. destruct (IH x _ _ H2 Ht) as [HQ HΦ]. rewrite <- app_assoc in HQ. split; [done|].
    intros pre e0 post Heq. destruct pre as [|e' pre]; cbn in Heq; injection Heq as <- Heq; [by rewrite app_nil_r|]. specialize (HΦ pre e0 post Heq). by rewrite <- app_assoc in HΦ.
Qed.

End rules.

(** Every step keeps the property, whatever the history. *)
Lemma safe_true {E A} (p : prog E A) Φ h : (∀ h e, Φ h e) → safe Φ h p (fun _ _ => True).
Proof. intros HΦ. revert h. induction p as [a|X ev k IH]; intros h; [done|]. intros x. split; [apply HΦ|apply IH]. Qed.

(** Every event is one [P] allows, whatever the answers. *)
Fixpoint asks {E A : Type} (P : E → Prop) (p : prog E A) : Prop :=
  match p with
  | Ret _ => True
  | Ask X ev k => ∀ x, P (ev x) ∧ asks P (k x)
  end.

Section asks.
Context {E : Type} (P : E → Prop).

Lemma asks_bind {A B} (p : prog E A) (f : A → prog E B) : asks P p → (∀ a, asks P (f a)) → asks P (p ≫= f).
Proof. intros Hp Hf. induction p as [a|X ev k IH]; [apply Hf|]. intros x. destruct (Hp x) as [H1 H2]. split; [done|by apply IH]. Qed.

Lemma asks_ask {X B : Type} (ev : X → E) (f : X → prog E B) : (∀ x, P (ev x)) → (∀ x, asks P (f x)) → asks P (ask ev ≫= f).
Proof. intros He Hf x. split; [apply He|apply Hf]. Qed.

Lemma asks_each {S X : Type} (f : X → S → prog E S) l s : (∀ x s, x ∈ l → asks P (f x s)) → asks P (each f l s).
Proof. revert s. induction l as [|x l IH]; intros s Hf; [done|]. apply asks_bind; [apply Hf; by left|]. intros s'. apply IH. intros y s'' Hy. apply Hf. by right. Qed.

(** The history grows by such events. *)
Lemma safe_asks {A} (p : prog E A) (Φ : list E → E → Prop) h : (∀ h e, P e → Φ h e) → asks P p → safe Φ h p (fun h' _ => ∃ t, h' = h ++ t ∧ Forall P t).
Proof.
  intros HΦ. revert h. induction p as [a|X ev k IH]; intros h Hp; [exists []; by rewrite app_nil_r|]. intros x. destruct (Hp x) as [H1 H2]. split; [by apply HΦ|].
  eapply safe_mono, IH, H2. intros h' _ (t & -> & Ht). exists (ev x :: t). rewrite <- app_assoc. split; [done|by constructor].
Qed.

End asks.

(** Some run exists: every call gets an answer. *)
Lemma traces_bind {E A B} (p : prog E A) (f : A → prog E B) tr1 tr2 a b : traces p tr1 a → traces (f a) tr2 b → traces (p ≫= f) (tr1 ++ tr2) b.
Proof.
  revert tr1. induction p as [a'|X ev k IH]; intros tr1 H1 H2; [destruct H1 as [-> ->]; done|]. destruct H1 as (x & tr' & -> & H1). exists x, (tr' ++ tr2). split; [done|]. by apply IH.
Qed.
