(* ===== verification/Dispatch.v ===== *)
(** * The dispatch: objects, calls, and the health of a pool

    What the controllers of the dispatch share ([dispatch/pkg]): the objects they read
    and write (the types of [api/platform], [api/compute] and [api/compiled], with the
    fields the controllers use), the calls they make as events of [Interact], and the
    phase of a pool as its broker's lease gives it ([dispatch/pkg/clusterpool]).

    Resource quantities are those of the Kubernetes API machinery, behind the class
    [Quantity]; so are status conditions, behind [Conditions].  A formatted message is a
    value with the data the text is made of; an error is its text. *)

From Stdlib Require Import SpecFloat.
From S2P Require Import Prelude Interact.

Open Scope Z_scope.

(** ** Resource quantities *)

Class Quantity (Q : Type) := {
  q_zero : Q;
  q_add : Q → Q → Q;
  q_cmp : Q → Q → comparison;
  q_float : Q → spec_float
}.

(** Quantities are exact numbers; the unit does not matter. *)
Class QuantityLaws (Q : Type) `{Quantity Q} := {
  q_value : Q → Z;
  q_value_zero : q_value q_zero = 0;
  q_value_add a b : q_value (q_add a b) = q_value a + q_value b;
  q_value_cmp a b : q_cmp a b = (q_value a ?= q_value b)
}.

Module dispatch.

(** ** Objects *)

(** Why no pool was found. *)
Inductive SchedReason := NoPoolFits | InvalidSelector (err : string).

(** Why a lost pool's workloads stay. *)
Inductive Why :=
  | NoReason
  | NoUnderlayPrefix (pool : string)
  | InvalidUnderlayPrefix (pool prefix : string)
  | NotACIDR (prefix : string)
  | OutsideAggregate (prefix : string) (outside : list string)
  | StorageUnconfirmed (prefix err : string)
  | NetworkUnconfirmed (prefix err : string)
  | NoTarget (r : SchedReason).

(** Why a fence is held. *)
Inductive Held :=
  | LookupFailed (prefix err : string)
  | NoReflector (prefix : string)
  | AskFailed (prefix err : string)
  | StillAnnounced (prefix routes : string).

Inductive Message :=
  | BoundTo (pool : string)
  | FailedOverTo (pool : string) (violated : bool)
  | Unschedulable (r : SchedReason)
  | BlockedBy (w : Why)
  | HeldBy (l : list Held)
  | NothingHeld
  | LeaseState (phase : string).

Inductive ConditionStatus := ConditionTrue | ConditionFalse.

Record Condition := mkCondition { c_type : string; c_status : ConditionStatus; c_reason : string; c_message : Message; c_generation : Z }.

Record Lease := mkLease { HolderIdentity : string; RenewTime : option Z }.

Record NodeDrainStatus := mkNodeDrain { nd_prefix : string; Drained : bool }.

Record ClusterPool {Q : Type} := mkPool {
  p_name : string;
  p_labels : gmap string string;
  p_generation : Z;
  UnderlayPrefix : string;
  Phase : string;
  p_conditions : list Condition;
  Allocatable : gmap string Q;
  p_lease : option Lease;
  NodePrefixes : list string;
  FencedPrefixes : list string;
  NodeDrain : list NodeDrainStatus
}.
Arguments ClusterPool : clear implicits.
Arguments mkPool {_}.

Record VirtualMachine {Q Sel : Type} := mkVM {
  vm_namespace : string;
  vm_name : string;
  vm_generation : Z;
  vm_cluster : string;
  vm_requests : gmap string Q;
  PoolSelector : option Sel;
  AntiAffinity : option string;
  vm_conditions : list Condition
}.
Arguments VirtualMachine : clear implicits.
Arguments mkVM {_ _}.

Record Container {Q : Type} := mkContainer { ct_namespace : string; ct_name : string; ct_cluster : string; ct_requests : gmap string Q }.
Arguments Container : clear implicits.
Arguments mkContainer {_}.

(** The compiled twin of a VM in its pool's namespace. *)
Record CompiledVM := mkCompiledVM { cv_namespace : string; cv_name : string; cv_cluster : string; cv_deleting : bool; Released : bool }.

(** The compiled twin of a network interface. *)
Record CompiledNIC := mkCompiledNIC { cn_namespace : string; cn_name : string; cn_annotations : gmap string string; cn_cluster : string; cn_vni : Z; OverlayIPs : list string }.

(** A host route in a VNI, and a node that announces one. *)
Record RouteKey := mkRouteKey { rk_vni : Z; rk_prefix : string }.

#[export] Instance RouteKey_eq_dec : EqDecision RouteKey.
Proof. solve_decision. Defined.

Record RouteHolding := mkHolding { rh_key : RouteKey; rh_origin : string; rh_nexthop : string }.

(** ** Calls *)

Inductive GetResult (A : Type) := Found (a : A) | NotFound | GetError (err : string).
Arguments Found {_}.
Arguments NotFound {_}.
Arguments GetError {_}.

(** A call of a controller, with its answer.  An error is [Some] text, or [inl].  A write
    that goes through has written what was read otherwise; a new specification of a VM
    comes back with its generation. *)
Inductive Event {Q Sel : Type} :=
  | ENow (t : Z)
  | EGetPool (name : string) (r : GetResult (ClusterPool Q))
  | EGetVM (ns name : string) (r : GetResult (VirtualMachine Q Sel))
  | EGetContainer (ns name : string) (r : GetResult (Container Q))
  | EListPools (r : string + list (ClusterPool Q))
  | EListVMs (r : string + list (VirtualMachine Q Sel))
  | EListContainers (r : string + list (Container Q))
  | EListTwins (ns : string) (r : string + list CompiledVM)
  | EListNICs (r : string + list CompiledNIC)
  | EUpdateVM (vm : VirtualMachine Q Sel) (r : string + Z)
  | EUpdateVMStatus (vm : VirtualMachine Q Sel) (err : option string)
  | EUpdateContainer (c : Container Q) (err : option string)
  | EUpdatePoolStatus (pool : ClusterPool Q) (err : option string)
  | EPatchTwin (orig twin : CompiledVM) (r : GetResult ())
  | EStorageFence (pool prefix : string) (err : option string)
  | EStorageRelease (pool prefix : string) (err : option string)
  | EFencedFor (prefix : string) (r : string + (string * bool))
  | ENetworkFence (prefix : string) (err : option string)
  | ENetworkRelease (prefix : string) (err : option string)
  | EAnnounced (prefix : string) (keys : list RouteKey) (r : string + list RouteHolding).
Arguments Event : clear implicits.

(** [ctrl.Result] and the error of a pass: the delay after which to run again. *)
Record Result := mkResult { RequeueAfter : Z; r_err : list string }.

Definition option_list {A : Type} (o : option A) : list A := match o with Some a => [a] | None => [] end.

(** [meta.SetStatusCondition], which says whether it changed anything, and
    [meta.IsStatusConditionTrue]. *)
Class Conditions := {
  SetStatusCondition : list Condition → Condition → list Condition * bool;
  IsStatusConditionTrue : list Condition → string → bool
}.

(** [client.IgnoreNotFound] *)
Definition ignore_not_found {A : Type} (r : GetResult A) : list string := match r with GetError e => [e] | _ => [] end.

(** ** The health of a pool *)

Definition PhaseReady : string := "Ready".
Definition PhaseUnknown : string := "Unknown".
Definition PhasePending : string := "Pending".

(** [Time.Sub] saturates. *)
Definition time_sub (a b : Z) : Z := Z.max (- 2 ^ 63) (Z.min (2 ^ 63 - 1) (a - b)).

Definition phaseFromLease (now : Z) (lease : option Lease) (healthStale : Z) : string :=
  match lease ≫= RenewTime with
  | None => PhasePending
  | Some t => if time_sub now t <=? healthStale then PhaseReady else PhaseUnknown
  end.

Definition set_conditions {Q : Type} (cs : list Condition) (p : ClusterPool Q) : ClusterPool Q :=
  mkPool (p_name p) (p_labels p) (p_generation p) (UnderlayPrefix p) (Phase p) cs (Allocatable p) (p_lease p) (NodePrefixes p) (FencedPrefixes p) (NodeDrain p).

Definition set_phase {Q : Type} (ph : string) (p : ClusterPool Q) : ClusterPool Q :=
  mkPool (p_name p) (p_labels p) (p_generation p) (UnderlayPrefix p) ph (p_conditions p) (Allocatable p) (p_lease p) (NodePrefixes p) (FencedPrefixes p) (NodeDrain p).

Definition Reachable {Q : Type} (pool : ClusterPool Q) (now healthStale : Z) : bool :=
  bool_decide (Phase pool = PhaseReady) && bool_decide (phaseFromLease now (p_lease pool) healthStale = PhaseReady).

Section health.
Context {Q Sel : Type} {cs : Conditions} (HealthStale : Z).

Definition health_condition (phase : string) (gen : Z) : Condition :=
  if bool_decide (phase = PhaseReady) then mkCondition "Ready" ConditionTrue "LeaseFresh" (LeaseState phase) gen
  else if bool_decide (phase = PhaseUnknown) then mkCondition "Ready" ConditionFalse "LeaseExpired" (LeaseState phase) gen
  else mkCondition "Ready" ConditionFalse "NoLease" (LeaseState phase) gen.

(** [clusterpool.Reconciler.Reconcile] *)
Definition Health_Reconcile (name : string) : prog (Event Q Sel) Result :=
  r ← ask (EGetPool name);
  match r with
  | Found pool =>
      now ← ask ENow;
      let phase := phaseFromLease now (p_lease pool) HealthStale in
      let changed := negb (bool_decide (Phase pool = phase)) in
      let pool := if changed then set_phase phase pool else pool in
      let '(conds, set) := SetStatusCondition (p_conditions pool) (health_condition phase (p_generation pool)) in
      let pool := set_conditions conds pool in
      if changed || set then
        err ← ask (EUpdatePoolStatus pool);
        match err with
        | Some e => mret (mkResult 0 [e])
        | None => mret (mkResult HealthStale [])
        end
      else mret (mkResult HealthStale [])
  | r => mret (mkResult 0 (ignore_not_found r))
  end.

End health.

End dispatch.
