(* ===== verification/Scheduler.v ===== *)
(** * Placement of workloads on pools

    The scheduler of the dispatch ([dispatch/pkg/scheduler]): which cluster pool a
    workload is bound to, for one workload and for the batch of a failover, and the
    controllers that bind.  Scores are binary64 numbers, with the operations of IEEE 754
    ([SpecFloat]). *)

From Stdlib Require Import SpecFloat.
From S2P Require Import Prelude Interact Dispatch.
Import dispatch.

Open Scope Z_scope.

Module scheduler.

Definition binary64_one : spec_float := SFone 53 1024.
Definition binary64_zero : spec_float := S754_zero false.

(** [Placement]: nothing placed and why, or the pool and the violation. *)
Abbreviation Placement := (SchedReason + (string * bool))%type.

Section schedule.
Context {ro : RangeOrder} {Q Sel : Type} `{Quantity Q}.
(** [metav1.LabelSelectorAsSelector] with [Selector.Matches]. *)
Context (as_selector : Sel → string + (gmap string string → bool)).

(** ** One workload *)

Fixpoint fit_loop (l : list (string * Q)) (allocatable used : gmap string Q) (minFree : spec_float) : option spec_float :=
  match l with
  | [] => Some minFree
  | (name, q) :: l =>
      capq ← allocatable !! name;
      let need := q_add (default q_zero (used !! name)) q in
      match q_cmp need capq with
      | Gt => None
      | _ =>
          let capv := q_float capq in
          let needv := q_float need in
          let free := if SFltb binary64_zero capv then SFdiv 53 1024 (SFsub 53 1024 capv needv) capv else binary64_one in
          fit_loop l allocatable used (if SFltb free minFree then free else minFree)
      end
  end.

(** Nothing where the workload does not fit. *)
Definition fitScore (req allocatable used : gmap string Q) : option spec_float := fit_loop (range_map req) allocatable used binary64_one.

Record cand := mkCand { cand_name : string; cand_score : spec_float }.

(** [cands[i] < cands[j]]: the higher score, then the lower name. *)
Definition cand_less (a b : cand) : bool :=
  if negb (SFeqb (cand_score a) (cand_score b)) then SFltb (cand_score b) (cand_score a)
  else negb (String.leb (cand_name b) (cand_name a)).

Definition cand_le (a b : cand) : Prop := cand_less b a = false.

#[export] Instance cand_le_dec : RelDecision cand_le.
Proof. intros a b. unfold cand_le. apply _. Defined.

Definition candidate (req : gmap string Q) (sel : option (gmap string string → bool)) (allocated : gmap string (gmap string Q)) (p : ClusterPool Q) : option cand :=
  if negb (bool_decide (Phase p = "Ready")) then None
  else if match sel with Some f => negb (f (p_labels p)) | None => false end then None
  else score ← fitScore req (Allocatable p) (default ∅ (allocated !! p_name p)); Some (mkCand (p_name p) score).

Definition ScheduleWorkload (req : gmap string Q) (poolSelector : option Sel) (pools : list (ClusterPool Q)) (allocated : gmap string (gmap string Q)) : SchedReason + string :=
  match (match poolSelector with None => inr None | Some s => match as_selector s with inl e => inl e | inr f => inr (Some f) end end) with
  | inl e => inl (InvalidSelector e)
  | inr sel =>
      match merge_sort cand_le (omap (candidate req sel allocated) pools) with
      | [] => inl NoPoolFits
      | c :: _ => inr (cand_name c)
      end
  end.

Definition Schedule (vm : VirtualMachine Q Sel) (pools : list (ClusterPool Q)) (allocated : gmap string (gmap string Q)) : SchedReason + string :=
  ScheduleWorkload (vm_requests vm) (PoolSelector vm) pools allocated.

(** ** A batch *)

(** The pool, and whether the group is already there. *)
Definition ScheduleAntiAffine (vm : VirtualMachine Q Sel) (pools : list (ClusterPool Q)) (allocated : gmap string (gmap string Q)) (occupancy : gmap string (gset string))
    : SchedReason + (string * bool) :=
  let group := default "" (AntiAffinity vm) in
  let plain violated := match Schedule vm pools allocated with inr name => inr (name, violated) | inl e => inl e end in
  if bool_decide (group = "") then plain false
  else
    let clean := List.filter (fun p => negb (bool_decide (group ∈ default ∅ (occupancy !! p_name p)))) pools in
    match Schedule vm clean allocated with
    | inr name => inr (name, false)
    | inl _ => plain true
    end.

Definition commit (req cur : gmap string Q) : gmap string Q :=
  foldl (fun cur rq => <[rq.1 := q_add (default q_zero (cur !! rq.1)) rq.2]> cur) cur (range_map req).

Definition occupy (vm : VirtualMachine Q Sel) (name : string) (occupancy : gmap string (gset string)) : gmap string (gset string) :=
  match AntiAffinity vm with
  | Some g => if bool_decide (g = "") then occupancy else <[name := {[g]} ∪ default ∅ (occupancy !! name)]> occupancy
  | None => occupancy
  end.

Fixpoint batch_loop (vms : list (VirtualMachine Q Sel)) (pools : list (ClusterPool Q)) (allocated : gmap string (gmap string Q)) (occupancy : gmap string (gset string)) : list Placement :=
  match vms with
  | [] => []
  | vm :: vms =>
      let pl := ScheduleAntiAffine vm pools allocated occupancy in
      pl :: match pl with
            | inl _ => batch_loop vms pools allocated occupancy
            | inr (name, _) => batch_loop vms pools (<[name := commit (vm_requests vm) (default ∅ (allocated !! name))]> allocated) (occupy vm name occupancy)
            end
  end.

Definition ScheduleBatch (vms : list (VirtualMachine Q Sel)) (pools : list (ClusterPool Q)) : list Placement := batch_loop vms pools ∅ ∅.

(** ** What is bound *)

Definition addAllocation (out : gmap string (gmap string Q)) (pool : string) (req : gmap string Q) : gmap string (gmap string Q) :=
  if bool_decide (pool = "") then out else <[pool := commit req (default ∅ (out !! pool))]> out.

Definition allocatedOf (vms : list (VirtualMachine Q Sel)) (cts : list (Container Q)) : gmap string (gmap string Q) :=
  foldl (fun out c => addAllocation out (ct_cluster c) (ct_requests c)) (foldl (fun out v => addAllocation out (vm_cluster v) (vm_requests v)) ∅ vms) cts.

(** ** The controllers *)

Context {cs : Conditions}.

Definition bind_vm (pool : string) (vm : VirtualMachine Q Sel) : VirtualMachine Q Sel :=
  mkVM (vm_namespace vm) (vm_name vm) (vm_generation vm) pool (vm_requests vm) (PoolSelector vm) (AntiAffinity vm) (vm_conditions vm).

Definition set_generation (gen : Z) (vm : VirtualMachine Q Sel) : VirtualMachine Q Sel :=
  mkVM (vm_namespace vm) (vm_name vm) gen (vm_cluster vm) (vm_requests vm) (PoolSelector vm) (AntiAffinity vm) (vm_conditions vm).

Definition vm_condition (c : Condition) (vm : VirtualMachine Q Sel) : VirtualMachine Q Sel :=
  mkVM (vm_namespace vm) (vm_name vm) (vm_generation vm) (vm_cluster vm) (vm_requests vm) (PoolSelector vm) (AntiAffinity vm) (SetStatusCondition (vm_conditions vm) c).1.

Definition allocatedByPool : prog (Event Q Sel) (string + gmap string (gmap string Q)) :=
  vms ← ask EListVMs;
  match vms with
  | inl e => mret (inl e)
  | inr vms =>
      cts ← ask EListContainers;
      match cts with
      | inl e => mret (inl e)
      | inr cts => mret (inr (allocatedOf vms cts))
      end
  end.

(** [scheduler.Reconciler.Reconcile] *)
Definition Scheduler_Reconcile (ns name : string) : prog (Event Q Sel) Result :=
  r ← ask (EGetVM ns name);
  match r with
  | Found vm =>
      if negb (bool_decide (vm_cluster vm = "")) then mret (mkResult 0 [])
      else
        pools ← ask EListPools;
        match pools with
        | inl e => mret (mkResult 0 [e])
        | inr pools =>
            allocated ← allocatedByPool;
            match allocated with
            | inl e => mret (mkResult 0 [e])
            | inr allocated =>
                match Schedule vm pools allocated with
                | inl reason =>
                    err ← ask (EUpdateVMStatus (vm_condition (mkCondition "Scheduled" ConditionFalse "Unschedulable" (Unschedulable reason) (vm_generation vm)) vm));
                    mret (mkResult 0 (option_list err))
                | inr pool =>
                    let vm := bind_vm pool vm in
                    stored ← ask (EUpdateVM vm);
                    match stored with
                    | inl e => mret (mkResult 0 [e])
                    | inr gen =>
                        let vm := set_generation gen vm in
                        err ← ask (EUpdateVMStatus (vm_condition (mkCondition "Scheduled" ConditionTrue "Bound" (BoundTo pool) (vm_generation vm)) vm));
                        mret (mkResult 0 (option_list err))
                    end
                end
            end
        end
  | r => mret (mkResult 0 (ignore_not_found r))
  end.

(** [scheduler.ContainerReconciler.Reconcile]: a container has no selector and no
    conditions. *)
Definition Container_Reconcile (ns name : string) : prog (Event Q Sel) Result :=
  r ← ask (EGetContainer ns name);
  match r with
  | Found c =>
      if negb (bool_decide (ct_cluster c = "")) then mret (mkResult 0 [])
      else
        pools ← ask EListPools;
        match pools with
        | inl e => mret (mkResult 0 [e])
        | inr pools =>
            allocated ← allocatedByPool;
            match allocated with
            | inl e => mret (mkResult 0 [e])
            | inr allocated =>
                match ScheduleWorkload (ct_requests c) None pools allocated with
                | inl _ => mret (mkResult 0 [])
                | inr pool =>
                    err ← ask (EUpdateContainer (mkContainer (ct_namespace c) (ct_name c) pool (ct_requests c)));
                    mret (mkResult 0 (option_list err))
                end
            end
        end
  | r => mret (mkResult 0 (ignore_not_found r))
  end.

End schedule.

End scheduler.
