(* ===== verification/SchedulerTheorems.v ===== *)
(** * Placement of workloads on pools: theorems

    The pool found is a best one, and a batch commits no pool beyond what it has. *)

From Stdlib Require Import SpecFloat.
From S2P Require Import Prelude Interact Dispatch Scheduler.
Import dispatch scheduler.

Open Scope Z_scope.

(** ** The order of scores *)

Definition not_nan (f : spec_float) : Prop := f ≠ S754_nan.

(** Numbers by sign class, exponent and mantissa. *)
Definition fkey (f : spec_float) : Z * Z * Z :=
  match f with
  | S754_infinity true => (-2, 0, 0)
  | S754_finite true m e => (-1, - e, - Z.pos m)
  | S754_zero _ | S754_nan => (0, 0, 0)
  | S754_finite false m e => (1, e, Z.pos m)
  | S754_infinity false => (2, 0, 0)
  end.

Definition klt (a b : Z * Z * Z) : Prop := a.1.1 < b.1.1 ∨ a.1.1 = b.1.1 ∧ (a.1.2 < b.1.2 ∨ a.1.2 = b.1.2 ∧ a.2 < b.2).

Lemma klt_cases a b : klt a b ∨ a = b ∨ klt b a.
Proof. destruct a as [[a1 a2] a3], b as [[b1 b2] b3]. unfold klt. cbn. destruct (decide (a1 = b1)) as [->|], (decide (a2 = b2)) as [->|], (decide (a3 = b3)) as [->|]; lia || auto. Qed.

Lemma klt_trans a b c : klt a b → klt b c → klt a c.
Proof. unfold klt. lia. Qed.

Lemma klt_irrefl a : ¬ klt a a.
Proof. unfold klt. lia. Qed.

Lemma SFltb_key a b : not_nan a → not_nan b → SFltb a b = true ↔ klt (fkey a) (fkey b).
Proof.
  unfold not_nan, SFltb, klt. destruct a as [sa|sa| |sa ma ea], b as [sb|sb| |sb mb eb]; intros Ha Hb; try done; try (destruct sa); try (destruct sb); cbn; try (split; [done|lia]); try (split; [lia|done]).
  - change (Pos.compare_cont Eq ma mb) with (ma ?= mb)%positive. destruct (Z.compare_spec ea eb) as [->|?|?]; [|split; [done|lia]|split; [lia|done]].
    destruct (Pos.compare_spec ma mb) as [->|?|?]; cbn; split; try done; try lia.
  - change (Pos.compare_cont Eq ma mb) with (ma ?= mb)%positive. destruct (Z.compare_spec ea eb) as [->|?|?]; [|split; [lia|done]|split; [done|lia]].
    destruct (Pos.compare_spec ma mb) as [->|?|?]; cbn; split; try done; try lia.
Qed.

Lemma SFeqb_key a b : not_nan a → not_nan b → SFeqb a b = true ↔ fkey a = fkey b.
Proof.
  unfold not_nan, SFeqb. destruct a as [sa|sa| |sa ma ea], b as [sb|sb| |sb mb eb]; intros Ha Hb; try done; try (destruct sa); try (destruct sb); cbn; try (by split).
  - change (Pos.compare_cont Eq ma mb) with (ma ?= mb)%positive. destruct (Z.compare_spec ea eb) as [->|?|?]; [|split; [done|intros [= ? ?]; lia]..].
    destruct (Pos.compare_spec ma mb) as [->|?|?]; cbn; split; try done; intros [= ?]; lia.
  - change (Pos.compare_cont Eq ma mb) with (ma ?= mb)%positive. destruct (Z.compare_spec ea eb) as [->|?|?]; [|split; [done|intros [= ? ?]; lia]..].
    destruct (Pos.compare_spec ma mb) as [->|?|?]; cbn; split; try done; intros [= ?]; lia.
Qed.

(** ** The order of candidates *)

Definition scored (c : cand) : Prop := not_nan (cand_score c).

Lemma cand_le_key a b : scored a → scored b → cand_le a b ↔ klt (fkey (cand_score b)) (fkey (cand_score a)) ∨ fkey (cand_score a) = fkey (cand_score b) ∧ String.leb (cand_name a) (cand_name b) = true.
Proof.
  unfold scored, cand_le, cand_less. intros Ha Hb. pose proof (SFeqb_key _ _ Hb Ha) as He. pose proof (SFltb_key _ _ Ha Hb) as Hl. destruct (SFeqb (cand_score b) (cand_score a)); cbn [negb].
  - assert (E : fkey (cand_score b) = fkey (cand_score a)) by (by apply He). rewrite E. destruct (String.leb _ _); cbn; split; try done; [by right|]. intros [?%klt_irrefl|[_ ?]]; done.
  - destruct (klt_cases (fkey (cand_score a)) (fkey (cand_score b))) as [Hk|[Hk|Hk]].
    + rewrite (proj2 Hl Hk). split; [done|]. intros [Hk'|[Hk' _]]; exfalso; [by eapply klt_irrefl, klt_trans|rewrite Hk' in Hk; by eapply klt_irrefl].
    + symmetry in Hk. by apply He in Hk.
    + split; [by left|]. intros _. apply not_true_iff_false. intros Hc%Hl. by eapply klt_irrefl, klt_trans.
Qed.

Lemma cand_le_trans a b c : scored a → scored b → scored c → cand_le a b → cand_le b c → cand_le a c.
Proof.
  intros Ha Hb Hc Hab Hbc. apply (cand_le_key a b Ha Hb) in Hab. apply (cand_le_key b c Hb Hc) in Hbc. apply (cand_le_key a c Ha Hc).
  destruct Hab as [Hab|[Eab Nab]], Hbc as [Hbc|[Ebc Nbc]].
  - left. by eapply klt_trans.
  - left. by rewrite <- Ebc.
  - left. by rewrite Eab.
  - right. split; [congruence|]. apply Is_true_true. eapply (transitivity (R := String.le)); unfold String.le; apply Is_true_true; eassumption.
Qed.

Lemma SFcompare_swap a b : SFcompare b a = CompOpp <$> SFcompare a b.
Proof.
  destruct a as [|s| |s m e], b as [|s'| |s' m' e']; try (by destruct s); try (by destruct s'); try (by destruct s, s'); try done.
  destruct s, s'; try done; cbn; change (Pos.compare_cont Eq m m') with (m ?= m')%positive; change (Pos.compare_cont Eq m' m) with (m' ?= m)%positive;
    rewrite (Z.compare_antisym e e'), (Pos.compare_antisym m m'); destruct (e ?= e'), (m ?= m')%positive; done.
Qed.

#[export] Instance cand_le_total : Total cand_le.
Proof.
  intros a b. unfold cand_le, cand_less, SFeqb, SFltb. rewrite (SFcompare_swap (cand_score a) (cand_score b)). destruct (SFcompare (cand_score a) (cand_score b)) as [[]|]; cbn; auto.
  destruct (String.leb_total (cand_name a) (cand_name b)) as [-> | ->]; auto.
Qed.

Lemma sorted_head_min {A} (R : A → A → Prop) (P : A → Prop) x l :
  (∀ a b c, P a → P b → P c → R a b → R b c → R a c) → Sorted R (x :: l) → Forall P (x :: l) → ∀ y, y ∈ l → R x y.
Proof.
  intros Ht. revert x. induction l as [|z l IH]; intros x Hs Hp y Hy; [by apply not_elem_of_nil in Hy|]. apply Sorted_inv in Hs as [Hs Hh]. apply HdRel_inv in Hh. apply Forall_cons in Hp as [Hx Hp].
  apply elem_of_cons in Hy as [->|Hy]; [done|]. pose proof (IH z Hs Hp y Hy) as Hzy. rewrite Forall_forall in Hp. apply (Ht x z y); [done|apply Hp; left|apply Hp; by right|done|done].
Qed.

Section fit.
Context {ro : RangeOrder} {Q Sel : Type} `{QuantityLaws Q}.

(** ** Fit *)

(** What the request leaves of a resource is not negative. *)
Definition fits (allocatable used : gmap string Q) (rq : string * Q) : Prop :=
  ∃ cap, allocatable !! rq.1 = Some cap ∧ q_value (default q_zero (used !! rq.1)) + q_value rq.2 ≤ q_value cap.

Lemma q_cmp_le a b : q_cmp a b ≠ Gt ↔ q_value a ≤ q_value b.
Proof. rewrite q_value_cmp. done. Qed.

Lemma fit_loop_spec l allocatable used m :
  (∀ s, fit_loop l allocatable used m = Some s → Forall (fits allocatable used) l ∧ (not_nan m → not_nan s)) ∧
  (Forall (fits allocatable used) l → is_Some (fit_loop l allocatable used m)).
Proof.
  revert m. induction l as [|[r q] l IH]; intros m; cbn [fit_loop]; [split; [by intros s [= <-]|by eexists]|].
  destruct (allocatable !! r) as [cap|] eqn:Ec; cbn [mbind option_bind].
  - set (need := q_add _ q). pose proof (q_cmp_le need cap) as Hle. unfold need in Hle at 2. rewrite q_value_add in Hle.
    set (free := if SFltb binary64_zero _ then _ else _). set (m' := if SFltb free m then free else m).
    assert (Hm' : not_nan m → not_nan m'). { unfold m'. destruct (SFltb free m) eqn:E; [|done]. intros _ ->. done. }
    destruct (IH m') as [IH1 IH2]. split.
    + intros s. destruct (q_cmp need cap); [| |done]; intros Hs; (destruct (IH1 s Hs) as [Hl Hn]; split; [apply Forall_cons; split; [exists cap; split; [done|by apply Hle]|done]|auto]).
    + intros [(cap' & Hc & Hv) Hl]%Forall_cons. cbn in Hc, Hv. rewrite Ec in Hc. injection Hc as <-. apply Hle in Hv. destruct (q_cmp need cap); [by apply IH2..|done].
  - split; [done|]. intros [(cap & Hc & _) _]%Forall_cons. cbn in Hc. by rewrite Ec in Hc.
Qed.

(** Every resource asked for is there and has room. *)
Definition fits_all (req allocatable used : gmap string Q) : Prop := ∀ r q, req !! r = Some q → fits allocatable used (r, q).

Lemma range_elem (req : gmap string Q) r q : (r, q) ∈ range_map req ↔ req !! r = Some q.
Proof. by rewrite range_map_perm, elem_of_map_to_list. Qed.

Lemma fitScore_spec req allocatable used :
  (∀ s, fitScore req allocatable used = Some s → fits_all req allocatable used ∧ not_nan s) ∧ (fits_all req allocatable used → is_Some (fitScore req allocatable used)).
Proof.
  destruct (fit_loop_spec (range_map req) allocatable used binary64_one) as [H1 H2]. split.
  - intros s Hs. destruct (H1 s Hs) as [Hl Hn]. split; [|by apply Hn]. intros r q Hr. rewrite Forall_forall in Hl. by apply Hl, range_elem.
  - intros Hf. apply H2, Forall_forall. intros [r q] Hr. by apply Hf, range_elem.
Qed.

(** ** Candidates *)

(** A pool the workload may go to. *)
Definition admits (req : gmap string Q) (sel : option (gmap string string → bool)) (allocated : gmap string (gmap string Q)) (p : ClusterPool Q) : Prop :=
  Phase p = PhaseReady ∧ (∀ f, sel = Some f → f (p_labels p) = true) ∧ fits_all req (Allocatable p) (default ∅ (allocated !! p_name p)).

Lemma candidate_spec req sel allocated p :
  (∀ c, candidate req sel allocated p = Some c → admits req sel allocated p ∧ scored c ∧ cand_name c = p_name p ∧ fitScore req (Allocatable p) (default ∅ (allocated !! p_name p)) = Some (cand_score c)) ∧
  (admits req sel allocated p → is_Some (candidate req sel allocated p)).
Proof.
  unfold candidate, admits. destruct (fitScore_spec req (Allocatable p) (default ∅ (allocated !! p_name p))) as [H1 H2]. split.
  - intros c. case_bool_decide as Hr; [|done]. cbn [negb]. destruct (match sel with Some f => negb (f (p_labels p)) | None => false end) eqn:Es; [done|].
    destruct (fitScore _ _ _) as [s|] eqn:Ef; [|done]. cbn. intros [= <-]. destruct (H1 s eq_refl) as [Hf Hn]. split_and!; try done. intros f ->. by apply negb_false_iff in Es.
  - intros (Hr & Hs & Hf). rewrite bool_decide_true by done. cbn [negb]. destruct (H2 Hf) as [s ->]. destruct sel as [f|]; [rewrite (Hs f eq_refl)|]; cbn; by eexists.
Qed.

Context (as_selector : Sel → string + (gmap string string → bool)).

(** The selector a workload's [poolSelector] stands for. *)
Definition selects (ps : option Sel) (sel : option (gmap string string → bool)) : Prop :=
  match ps with None => sel = None | Some s => ∃ f, as_selector s = inr f ∧ sel = Some f end.

Lemma workload_sorted req ps sel pools allocated : selects ps sel →
  ScheduleWorkload as_selector req ps pools allocated = match merge_sort cand_le (omap (candidate req sel allocated) pools) with [] => inl NoPoolFits | c :: _ => inr (cand_name c) end.
Proof. unfold ScheduleWorkload, selects. destruct ps as [s|]; [intros (f & -> & ->)|intros ->]; done. Qed.

Lemma workload_selects req ps pools allocated n : ScheduleWorkload as_selector req ps pools allocated = inr n → ∃ sel, selects ps sel.
Proof. unfold ScheduleWorkload, selects. destruct ps as [s|]; [|by exists None]. destruct (as_selector s) as [e|f]; [done|]. intros _. by exists (Some f), f. Qed.

Lemma workload_spec req ps sel pools allocated : selects ps sel →
  (∀ n, ScheduleWorkload as_selector req ps pools allocated = inr n → ∃ p s, p ∈ pools ∧ p_name p = n ∧ admits req sel allocated p ∧ fitScore req (Allocatable p) (default ∅ (allocated !! n)) = Some s ∧
     ∀ p' s', p' ∈ pools → admits req sel allocated p' → fitScore req (Allocatable p') (default ∅ (allocated !! p_name p')) = Some s' →
       SFltb s s' = false ∧ (SFeqb s s' = true → String.leb n (p_name p') = true)) ∧
  (∀ r, ScheduleWorkload as_selector req ps pools allocated = inl r → ∀ p, p ∈ pools → ¬ admits req sel allocated p).
Proof.
  intros Hsel. rewrite (workload_sorted _ _ _ _ _ Hsel). set (cands := omap _ _).
  assert (Hc : ∀ c, c ∈ merge_sort cand_le cands → ∃ p, p ∈ pools ∧ admits req sel allocated p ∧ scored c ∧ cand_name c = p_name p ∧ fitScore req (Allocatable p) (default ∅ (allocated !! p_name p)) = Some (cand_score c)).
  { intros c Hc. rewrite merge_sort_Permutation in Hc. apply list_elem_of_omap in Hc as (p & Hp & Hc). exists p. destruct (candidate_spec req sel allocated p) as [H1' _]. by destruct (H1' c Hc) as (? & ? & ? & ?). }
  assert (Hp : ∀ p, p ∈ pools → admits req sel allocated p → ∃ c, c ∈ merge_sort cand_le cands ∧ candidate req sel allocated p = Some c).
  { intros p Hp Ha. destruct (candidate_spec req sel allocated p) as [_ H2']. destruct (H2' Ha) as [c Hc']. exists c. split; [|done]. rewrite merge_sort_Permutation. apply list_elem_of_omap. by exists p. }
  pose proof (Sorted_merge_sort cand_le cands) as Hsort. destruct (merge_sort cand_le cands) as [|c cs'] eqn:E; split; try done.
  - intros r _ p Hin Ha. destruct (Hp p Hin Ha) as (c & ?%not_elem_of_nil & _). done.
  - intros n [= <-]. destruct (Hc c ltac:(left)) as (p & Hin & Ha & Hs & Hn & Hf). exists p, (cand_score c). rewrite Hn. split_and!; try done.
    intros p' s' Hin' Ha' Hf'. destruct (Hp p' Hin' Ha') as (c' & Hc' & Hcand). destruct (candidate_spec req sel allocated p') as [H1' _]. destruct (H1' c' Hcand) as (_ & Hs' & Hn' & Hf''). rewrite Hf' in Hf''. injection Hf'' as ->.
    assert (Hle : cand_le c c').
    { apply elem_of_cons in Hc' as [->|Hc']; [destruct (total cand_le c c); done|]. eapply (sorted_head_min cand_le scored); [apply cand_le_trans|done| |done]. apply Forall_forall. intros x Hx. by destruct (Hc x Hx) as (? & _ & _ & ? & _). }
    apply (cand_le_key _ _ Hs Hs') in Hle. split.
    + apply not_true_iff_false. intros Hl%(SFltb_key _ _ Hs Hs'). destruct Hle as [Hle|[Hle _]]; [by eapply klt_irrefl, klt_trans|rewrite Hle in Hl; by eapply klt_irrefl].
    + intros He%(SFeqb_key _ _ Hs Hs'). rewrite <- Hn, <- Hn'. destruct Hle as [Hle|[_ Hle]]; [rewrite He in Hle; by apply klt_irrefl in Hle|done].
Qed.

(** ** What a batch commits *)

Lemma commit_list (l : list (string * Q)) (cur : gmap string Q) r : NoDup l.*1 →
  foldl (fun cur rq => <[rq.1 := q_add (default q_zero (cur !! rq.1)) rq.2]> cur) cur l !! r =
    match (list_to_map l : gmap string Q) !! r with Some q => Some (q_add (default q_zero (cur !! r)) q) | None => cur !! r end.
Proof.
  revert cur. induction l as [|[r0 q0] l IH]; intros cur Hnd; cbn; [by rewrite lookup_empty|]. apply NoDup_cons in Hnd as [Hr0 Hnd]. rewrite IH by done. cbn. destruct (decide (r = r0)) as [->|Hne].
  - rewrite lookup_insert_eq, (not_elem_of_list_to_map_1 l r0 Hr0). by rewrite lookup_insert_eq.
  - by rewrite !lookup_insert_ne by done.
Qed.

Lemma commit_value (req cur : gmap string Q) r :
  q_value (default q_zero (commit req cur !! r)) = q_value (default q_zero (cur !! r)) + q_value (default q_zero (req !! r)).
Proof.
  unfold commit. rewrite commit_list by (rewrite range_map_perm; apply NoDup_fst_map_to_list).
  rewrite (list_to_map_proper (range_map req) (map_to_list req)), list_to_map_to_list by (done || apply range_map_perm || (rewrite range_map_perm; apply NoDup_fst_map_to_list)).
  destruct (req !! r) as [q|]; cbn; [by rewrite q_value_add|rewrite q_value_zero; lia].
Qed.

(** The VMs placed on a pool, and what they ask of a resource together. *)
Definition placed_on (n : string) (x : VirtualMachine Q Sel * Placement) : bool := match x.2 with inr (m, _) => bool_decide (m = n) | inl _ => false end.

Definition load (n r : string) (l : list (VirtualMachine Q Sel * Placement)) : Z :=
  foldr (fun x acc => (if placed_on n x then q_value (default q_zero (vm_requests x.1 !! r)) else 0) + acc) 0 l.

Lemma load_cons n r x l : load n r (x :: l) = (if placed_on n x then q_value (default q_zero (vm_requests x.1 !! r)) else 0) + load n r l.
Proof. done. Qed.

Lemma load_nothing n r l : (∀ x q, x ∈ l → placed_on n x = true → vm_requests x.1 !! r = Some q → False) → load n r l = 0.
Proof.
  induction l as [|x l IH]; intros Hx; [done|]. rewrite load_cons, IH by (intros y q Hy; apply Hx; by right). destruct (placed_on n x) eqn:E; [|done].
  destruct (vm_requests x.1 !! r) as [q|] eqn:Er; [exfalso; by eapply (Hx x q); [left|..]|]. cbn. rewrite q_value_zero. done.
Qed.

Lemma anti_affine_spec vm pools allocated occupancy n violated :
  ScheduleAntiAffine as_selector vm pools allocated occupancy = inr (n, violated) →
  (∃ p sel, p ∈ pools ∧ p_name p = n ∧ selects (PoolSelector vm) sel ∧ admits (vm_requests vm) sel allocated p) ∧
  (violated = false → ∀ g, AntiAffinity vm = Some g → g ≠ "" → g ∉ default ∅ (occupancy !! n)).
Proof.
  assert (Hsch : ∀ ps, Schedule as_selector vm ps allocated = inr n → ∃ p sel, p ∈ ps ∧ p_name p = n ∧ selects (PoolSelector vm) sel ∧ admits (vm_requests vm) sel allocated p).
  { intros ps Hs. unfold Schedule in Hs. destruct (workload_selects _ _ _ _ _ Hs) as [sel Hsel]. destruct (proj1 (workload_spec _ _ _ ps allocated Hsel) n Hs) as (p & s & Hp & Hn & Ha & _). by exists p, sel. }
  unfold ScheduleAntiAffine. case_bool_decide as Hg.
  - destruct (Schedule as_selector vm pools allocated) as [e|m] eqn:E; [done|]. intros [= <- <-]. split; [by apply Hsch|]. intros _ g Ha. by rewrite Ha in Hg.
  - set (clean := List.filter _ _). destruct (Schedule as_selector vm clean allocated) as [e|m] eqn:E.
    + destruct (Schedule as_selector vm pools allocated) as [e'|m'] eqn:E'; [done|]. intros [= <- <-]. split; [by apply Hsch|done].
    + intros [= <- <-]. destruct (Hsch clean E) as (p & sel & Hp & Hn & Hsel & Ha). apply list_elem_of_In, filter_In in Hp as [Hp Hc]. apply list_elem_of_In in Hp. split; [by exists p, sel|].
      intros _ g Hg' _. rewrite Hg' in Hc. cbn in Hc. apply negb_true_iff, bool_decide_eq_false in Hc. by rewrite <- Hn.
Qed.

Lemma batch_load vms pools allocated occupancy p r :
  NoDup (p_name <$> pools) → p ∈ pools →
  let l := zip vms (batch_loop as_selector vms pools allocated occupancy) in
  (∃ x q, x ∈ l ∧ placed_on (p_name p) x = true ∧ vm_requests x.1 !! r = Some q) →
  ∃ cap, Allocatable p !! r = Some cap ∧ q_value (default q_zero (default ∅ (allocated !! p_name p) !! r)) + load (p_name p) r l ≤ q_value cap.
Proof.
  intros Hnd Hp. revert allocated occupancy. induction vms as [|vm vms IH]; intros allocated occupancy l Hex; [destruct Hex as (x & q & ?%not_elem_of_nil & _); done|].
  unfold l in *. cbn [batch_loop] in *. destruct (ScheduleAntiAffine as_selector vm pools allocated occupancy) as [e|[n violated]] eqn:Es; cbn [zip zip_with] in *.
  - destruct (IH allocated occupancy) as (cap & Hc & Hle); [|by exists cap]. destruct Hex as (x & q & Hx & Hpl & Hq). exists x, q. split_and!; try done. apply elem_of_cons in Hx as [->|]; done.
  - rewrite load_cons. set (al := <[n := _]> allocated) in *. set (rest := zip vms _) in *. cbn [placed_on snd fst].
    destruct (anti_affine_spec _ _ _ _ _ _ Es) as [(p0 & sel & Hp0 & Hn0 & _ & _ & _ & Hfit) _].
    assert (Hal : q_value (default q_zero (default ∅ (al !! p_name p) !! r)) = q_value (default q_zero (default ∅ (allocated !! p_name p) !! r)) + if bool_decide (n = p_name p) then q_value (default q_zero (vm_requests vm !! r)) else 0).
    { unfold al. case_bool_decide as Hn; [subst n; rewrite Hn, lookup_insert_eq; cbn; apply commit_value|rewrite lookup_insert_ne by done; lia]. }
    destruct (decide (Exists (fun x => placed_on (p_name p) x = true ∧ is_Some (vm_requests x.1 !! r)) rest)) as [Hrest|Hrest].
    + apply Exists_exists in Hrest as (x & Hx & Hpl & [q Hq]). destruct (IH al (occupy vm n occupancy)) as (cap & Hc & Hle); [by exists x, q|]. exists cap. split; [done|]. fold rest in Hle. lia.
    + assert (Hnone : ∀ x q, x ∈ rest → placed_on (p_name p) x = true → vm_requests x.1 !! r = Some q → False) by (intros x q Hx Hpl Hq; apply Hrest, Exists_exists; exists x; split_and!; [done|done|by eexists]).
      rewrite (load_nothing _ _ rest Hnone). destruct Hex as (x & q & [->|Hx]%elem_of_cons & Hpl & Hq); [|exfalso; by eapply Hnone]. cbn in Hpl, Hq. apply bool_decide_eq_true in Hpl. rewrite bool_decide_true by done. rewrite Hq.
      assert (p0 = p) as -> by (eapply (NoDup_fmap_eq p_name pools); [done|done|done|congruence]). destruct (Hfit r q Hq) as (cap & Hc & Hle). exists cap. split; [done|]. cbn in Hle |- *. lia.
Qed.

(** A group is not placed twice on a pool without saying so. *)
Lemma batch_groups vms pools allocated occupancy :
  let l := zip vms (batch_loop as_selector vms pools allocated occupancy) in
  (∀ j vm n g, l !! j = Some (vm, inr (n, false)) → AntiAffinity vm = Some g → g ≠ "" → g ∉ default ∅ (occupancy !! n)) ∧
  (∀ i j vm vm' n v g, (i < j)%nat → l !! i = Some (vm, inr (n, v)) → l !! j = Some (vm', inr (n, false)) → AntiAffinity vm = Some g → AntiAffinity vm' = Some g → g ≠ "" → False).
Proof.
  revert allocated occupancy. induction vms as [|vm0 vms IH]; intros allocated occupancy l; [by split|].
  unfold l. cbn [batch_loop]. destruct (ScheduleAntiAffine as_selector vm0 pools allocated occupancy) as [e|[n0 v0]] eqn:Es; cbn [zip zip_with].
  - destruct (IH allocated occupancy) as [H1' H2']. split.
    + intros [|j] vm n g; cbn; [by intros [= <-]|apply H1'].
    + intros [|i] [|j] vm vm' n v g Hij; cbn; try lia; [by intros [= <-]|]. apply H2'. lia.
  - set (occ := occupy vm0 n0 occupancy). set (al := <[n0 := _]> allocated). destruct (IH al occ) as [H1' H2']. destruct (anti_affine_spec _ _ _ _ _ _ Es) as [_ Hocc].
    assert (Hsub : ∀ n, default ∅ (occupancy !! n) ⊆ default ∅ (occ !! n)).
    { intros n. unfold occ, occupy. destruct (AntiAffinity vm0) as [g0|]; [|done]. case_bool_decide; [done|]. destruct (decide (n0 = n)) as [->|]; [rewrite lookup_insert_eq; cbn; set_solver|by rewrite lookup_insert_ne]. }
    split.
    + intros [|j] vm n g; cbn; [intros [= <- <- ->] Hg Hne; by apply Hocc|]. intros Hj Hg Hne Hin. eapply (H1' j vm n g); [done..|]. by apply Hsub.
    + intros [|i] [|j] vm vm' n v g Hij; cbn; try lia; [|apply H2'; lia]. intros [= <- <- <-] Hj Hg Hg' Hne. eapply (H1' j vm' n0 g); [done..|].
      unfold occ, occupy. rewrite Hg. rewrite bool_decide_false by done. rewrite lookup_insert_eq. cbn. set_solver.
Qed.

(** What is placed is placed on a pool that is ready and that the workload selects. *)
Lemma batch_placed vms pools allocated occupancy vm n v :
  (vm, inr (n, v)) ∈ zip vms (batch_loop as_selector vms pools allocated occupancy) →
  vm ∈ vms ∧ ∃ p sel, p ∈ pools ∧ p_name p = n ∧ Phase p = PhaseReady ∧ selects (PoolSelector vm) sel ∧ ∀ f, sel = Some f → f (p_labels p) = true.
Proof.
  revert allocated occupancy. induction vms as [|vm0 vms IH]; intros allocated occupancy Hin; [by apply not_elem_of_nil in Hin|]. cbn [batch_loop] in Hin.
  destruct (ScheduleAntiAffine as_selector vm0 pools allocated occupancy) as [e|[n0 v0]] eqn:Es; cbn [zip zip_with] in Hin; apply elem_of_cons in Hin as [Hin|Hin].
  - done.
  - destruct (IH _ _ Hin) as [? ?]. split; [by right|done].
  - injection Hin as -> -> ->. split; [by left|]. destruct (anti_affine_spec _ _ _ _ _ _ Es) as [(p & sel & Hp & Hn & Hsel & Hr & Hl & _) _]. by exists p, sel.
  - destruct (IH _ _ Hin) as [? ?]. split; [by right|done].
Qed.

Lemma batch_length vms pools allocated occupancy : length (batch_loop as_selector vms pools allocated occupancy) = length vms.
Proof. revert allocated occupancy. induction vms as [|vm vms IH]; intros allocated occupancy; [done|]. cbn. f_equal. destruct (ScheduleAntiAffine _ _ _ _ _) as [e|[n v]]; apply IH. Qed.

(** ** Claims *)

(** C32. The pool a workload is bound to is Ready, matches the selector and has room for
    every resource asked for; no other such pool leaves a higher minimum free fraction,
    and none with the same has a lower name.  The scheduler gives up only where no pool
    will do. *)
Theorem schedule_best req ps sel pools allocated :
  selects ps sel →
  match ScheduleWorkload as_selector req ps pools allocated with
  | inr n => ∃ p s, p ∈ pools ∧ p_name p = n ∧ admits req sel allocated p ∧ fitScore req (Allocatable p) (default ∅ (allocated !! n)) = Some s ∧
      ∀ p' s', p' ∈ pools → admits req sel allocated p' → fitScore req (Allocatable p') (default ∅ (allocated !! p_name p')) = Some s' →
        SFltb s s' = false ∧ (SFeqb s s' = true → String.leb n (p_name p') = true)
  | inl r => r = NoPoolFits ∧ ∀ p, p ∈ pools → ¬ admits req sel allocated p
  end.
Proof.
  intros Hsel. destruct (workload_spec req ps sel pools allocated Hsel) as [H1' H2']. destruct (ScheduleWorkload as_selector req ps pools allocated) as [r|n] eqn:E; [|by apply H1'].
  split; [|by apply (H2' r)]. rewrite (workload_sorted _ _ _ _ _ Hsel) in E. destruct (merge_sort _ _); [by injection E|done].
Qed.

(** C33. A batch commits no pool beyond what it has: on every pool, what the VMs placed
    there ask of a resource is together no more than the pool's allocatable amount of it.
    And the VMs of one anti-affinity group share a pool only where the later one is
    reported as a violation. *)
Theorem batch_no_overcommit (vms : list (VirtualMachine Q Sel)) (pools : list (ClusterPool Q)) :
  NoDup (p_name <$> pools) →
  let l := zip vms (ScheduleBatch as_selector vms pools) in
  length l = length vms ∧
  (∀ p r x q, p ∈ pools → x ∈ l → placed_on (p_name p) x = true → vm_requests x.1 !! r = Some q → ∃ cap, Allocatable p !! r = Some cap ∧ load (p_name p) r l ≤ q_value cap) ∧
  (∀ i j vm vm' n v g, (i < j)%nat → l !! i = Some (vm, inr (n, v)) → l !! j = Some (vm', inr (n, false)) → AntiAffinity vm = Some g → AntiAffinity vm' = Some g → g = "").
Proof.
  intros Hnd l. split_and!.
  - unfold l, ScheduleBatch. rewrite length_zip_with, batch_length. lia.
  - intros p r x q Hp Hx Hpl Hq. destruct (batch_load vms pools ∅ ∅ p r Hnd Hp) as (cap & Hc & Hle); [by exists x, q|]. exists cap. split; [done|]. rewrite lookup_empty in Hle. cbn in Hle. rewrite lookup_empty in Hle. cbn in Hle. rewrite q_value_zero in Hle. done.
  - intros i j vm vm' n v g Hij Hi Hj Hg Hg'. destruct (decide (g = "")) as [|Hne]; [done|]. exfalso. destruct (batch_groups vms pools ∅ ∅) as [_ H2']. by eapply (H2' i j vm vm' n v g).
Qed.

End fit.

(** ** Example *)

Module scheduler_example.

(** Quantities in whole units. *)
#[local] Instance Z_Quantity : Quantity Z := {| q_zero := 0; q_add := Z.add; q_cmp := Z.compare; q_float z := binary_normalize 53 1024 z 0 false |}.

#[local] Instance Z_QuantityLaws : QuantityLaws Z.
Proof. by refine {| q_value := fun z => z |}. Defined.

#[local] Instance order : RangeOrder := canonical_order.

Definition pool (name : string) (cpu : Z) : ClusterPool Z := mkPool name ∅ 1 "" PhaseReady [] {[ "cpu" := cpu ]} None [] [] [].

Definition two_pools : list (ClusterPool Z) := [pool "a" 4000; pool "b" 8000].

Definition any_selector (s : ()) : string + (gmap string string → bool) := inr (fun _ => true).

Lemma schedule_best_witness : ∃ p, p ∈ two_pools ∧ p_name p = "b" ∧ admits {[ "cpu" := 1000 ]} None ∅ p.
Proof.
  pose proof (schedule_best any_selector {[ "cpu" := 1000 ]} None None two_pools ∅ eq_refl) as Hb. assert (E : ScheduleWorkload any_selector {[ "cpu" := 1000 ]} None two_pools ∅ = inr "b") by (vm_compute; reflexivity).
  rewrite E in Hb. destruct Hb as (p & s & Hp & Hn & Ha & _). exists p. split_and!; [exact Hp|exact Hn|exact Ha].
Defined.

Definition vm (name : string) (cpu : Z) : VirtualMachine Z () := mkVM "default" name 1 "lost" {[ "cpu" := cpu ]} None (Some "db") [].

Definition three_vms : list (VirtualMachine Z ()) := [vm "x" 3000; vm "y" 3000; vm "z" 3000].

Lemma batch_no_overcommit_witness :
  let l := zip three_vms (ScheduleBatch any_selector three_vms two_pools) in
  ScheduleBatch any_selector three_vms two_pools = [inr ("b", false); inr ("a", false); inr ("b", true)] ∧ load "b" "cpu" l ≤ 8000.
Proof.
  assert (E : ScheduleBatch any_selector three_vms two_pools = [inr ("b", false); inr ("a", false); inr ("b", true)]) by (vm_compute; reflexivity). split; [exact E|].
  destruct (batch_no_overcommit any_selector three_vms two_pools) as (_ & Hload & _).
  - apply (bool_decide_unpack (NoDup (p_name <$> two_pools))). vm_compute. exact I.
  - destruct (Hload (pool "b" 8000) "cpu" (vm "x" 3000, inr ("b", false)) 3000) as (cap & Hcap & Hle).
    + right. left.
    + rewrite E. left.
    + reflexivity.
    + reflexivity.
    + replace 8000 with (q_value cap); [exact Hle|]. vm_compute in Hcap. injection Hcap as <-. reflexivity.
Defined.

End scheduler_example.
