(* ===== verification/Fence.v ===== *)
(** * Fencing a lost pool

    The fence actuators of the dispatch ([dispatch/pkg/fence]) and the prefix they fence
    ([api/platform/clusterpool_validate.go]).  The storage fence is a [NetworkFence]
    object that csi-addons carries out on Ceph's blocklist; the network fence is a fence
    of the reflector.

    A call is a program over the calls to the API server ([FenceEvent]). *)

From S2P Require Import Prelude Net Wire Rib Queue Server Interact Dispatch.
Import netip dispatch.

Open Scope Z_scope.

Module fence.

(** ** The prefix *)

Inductive PrefixError := NotCIDR | MappedPrefix | HostBits (masked : string) | NotCanonical (canonical : string) | TooShort (min : Z).

Definition minUnderlayBitsV6 : Z := 32.
Definition minUnderlayBitsV4 : Z := 16.

Definition ValidateUnderlayPrefix (s : string) : list PrefixError :=
  if bool_decide (s = "") then []
  else match ParsePrefix s with
       | None => [NotCIDR]
       | Some p =>
           if Is4In6 (p_addr p) then [MappedPrefix]
           else if negb (bool_decide (Masked p = p)) then [HostBits (Prefix_String (Masked p))]
           else if negb (bool_decide (Prefix_String p = s)) then [NotCanonical (Prefix_String p)]
           else let minBits := if Is4 (p_addr p) then minUnderlayBitsV4 else minUnderlayBitsV6 in
                if p_bits p <? minBits then [TooShort minBits] else []
       end.

(** ** The object *)

(** A [NetworkFence] of csi-addons: labels, specification, status, and whether it is
    being deleted.  The identity tells it from one created later under its name. *)
Record NetworkFence := mkFence {
  nf_uid : Z;
  nf_labels : gmap string string;
  fenceState : string;
  nf_driver : string;
  nf_cidrs : list string;
  nf_secret : string * string;
  nf_parameters : gmap string string;
  nf_result : string;
  nf_message : string;
  nf_deleting : bool
}.

Definition FencedForPoolLabel : string := "ectobase.dev/fenced-for-pool".
Definition fenceSucceededMsg : string := "fencing operation successful".
Definition unfenceSucceededMsg : string := "unfencing operation successful".

(** [strings.NewReplacer(":", "-", "/", "--", ".", "-")] *)
Definition replace_char (c : ascii) : list ascii :=
  if bool_decide (c = ":"%char) then ["-"%char]
  else if bool_decide (c = "/"%char) then ["-"%char; "-"%char]
  else if bool_decide (c = "."%char) then ["-"%char]
  else [c].

Definition fenceName (prefix : string) : string := "ectobase-" +:+ string_of_list_ascii (chars prefix ≫= replace_char).

(** A call to the API server, with its answer.  An update carries the object as it was
    read and as it is written. *)
Inductive FenceEvent :=
  | FGet (name : string) (r : GetResult NetworkFence)
  | FCreate (name : string) (nf : NetworkFence) (err : option string)
  | FUpdate (name : string) (read nf : NetworkFence) (err : option string)
  | FDelete (name : string) (r : GetResult ()).

(** The outcome of a call: done, or why not. *)
Inductive FenceError :=
  | ApiError (err : string)
  | Created
  | BeingDeleted
  | HeldFor (pool : string)
  | UnfencePending (state result message : string)
  | Replacing
  | NotActive (result message : string)
  | SetUnfenced
  | UnfenceUnconfirmed (result message : string).

Section storage.
(** The CSI driver, the Ceph cluster and the provisioner's secret. *)
Context (driver clusterID : string) (secret : string * string).

Definition obj (pool prefix state : string) : NetworkFence :=
  mkFence 0 {[ FencedForPoolLabel := pool ]} state driver [prefix] secret (if bool_decide (clusterID = "") then ∅ else {[ "clusterID" := clusterID ]}) "" "" false.

Definition owner_of (nf : NetworkFence) : string := default "" (nf_labels nf !! FencedForPoolLabel).

Definition set_state (s : string) (nf : NetworkFence) : NetworkFence :=
  mkFence (nf_uid nf) (nf_labels nf) s (nf_driver nf) (nf_cidrs nf) (nf_secret nf) (nf_parameters nf) (nf_result nf) (nf_message nf) (nf_deleting nf).

Definition Fence (pool prefix : string) : prog FenceEvent (option FenceError) :=
  let name := fenceName prefix in
  r ← ask (FGet name);
  match r with
  | NotFound =>
      err ← ask (FCreate name (obj pool prefix "Fenced"));
      match err with Some e => mret (Some (ApiError e)) | None => mret (Some Created) end
  | GetError e => mret (Some (ApiError e))
  | Found cur =>
      if nf_deleting cur then mret (Some BeingDeleted)
      else if negb (bool_decide (owner_of cur = pool)) then mret (Some (HeldFor (owner_of cur)))
      else if negb (bool_decide (fenceState cur = "Fenced")) then
        if negb (bool_decide (nf_result cur = "Succeeded")) || negb (bool_decide (nf_message cur = unfenceSucceededMsg)) then
          mret (Some (UnfencePending (fenceState cur) (nf_result cur) (nf_message cur)))
        else
          r ← ask (FDelete name);
          match r with GetError e => mret (Some (ApiError e)) | _ => mret (Some Replacing) end
      else if negb (bool_decide (nf_result cur = "Succeeded")) || negb (bool_decide (nf_message cur = fenceSucceededMsg)) then
        mret (Some (NotActive (nf_result cur) (nf_message cur)))
      else mret None
  end.

Definition Release (pool prefix : string) : prog FenceEvent (option FenceError) :=
  let name := fenceName prefix in
  r ← ask (FGet name);
  match r with
  | NotFound => mret None
  | GetError e => mret (Some (ApiError e))
  | Found cur =>
      if negb (bool_decide (owner_of cur = pool)) then mret (Some (HeldFor (owner_of cur)))
      else if negb (bool_decide (fenceState cur = "Unfenced")) then
        err ← ask (FUpdate name cur (set_state "Unfenced" cur));
        match err with Some e => mret (Some (ApiError e)) | None => mret (Some SetUnfenced) end
      else if negb (bool_decide (nf_result cur = "Succeeded")) || negb (bool_decide (nf_message cur = unfenceSucceededMsg)) then
        mret (Some (UnfenceUnconfirmed (nf_result cur) (nf_message cur)))
      else
        r ← ask (FDelete name);
        match r with GetError e => mret (Some (ApiError e)) | _ => mret None end
  end.

(** The pool the fence is for, and whether there is one. *)
Definition FencedFor (prefix : string) : prog FenceEvent (string + (string * bool)) :=
  r ← ask (FGet (fenceName prefix));
  match r with
  | NotFound => mret (inr ("", false))
  | GetError e => mret (inl e)
  | Found cur => mret (inr (owner_of cur, true))
  end.

End storage.

(** ** The network fence *)

(** What becomes of a request to the reflector: it is answered, it is lost, or its answer
    is. *)
Inductive Rpc := RpcAnswered | RequestLost (err : string) | ReplyLost (err : string).

Definition reply_error (rpc : Rpc) : option string := match rpc with ReplyLost e => Some e | _ => None end.

Section network.
Context {ro : RangeOrder}.

Definition admin_call (rpc : Rpc) (call : RIB → Code + (RIB * list SinkOut)) (r : RIB) : RIB * list SinkOut * option string :=
  match rpc with
  | RequestLost e => (r, [], Some e)
  | _ => match call r with
         | inl _ => (r, [], Some "InvalidArgument")
         | inr (r', out) => (r', out, reply_error rpc)
         end
  end.

Definition Network_Fence (rpc : Rpc) (prefix : string) : RIB → RIB * list SinkOut * option string := admin_call rpc (Admin_SetFence prefix).
Definition Network_Release (rpc : Rpc) (prefix : string) : RIB → RIB * list SinkOut * option string := admin_call rpc (Admin_ClearFence prefix).

Definition to_bus (k : RouteKey) : routeKey := mkKey (dispatch.rk_vni k) (dispatch.rk_prefix k).
Definition of_bus (k : routeKey) : RouteKey := mkRouteKey (Rib.rk_vni k) (Rib.rk_prefix k).

(** The reply names holders; a key it lists without one is held by an unnamed node. *)
Definition Network_AnnouncedFrom (rpc : Rpc) (prefix : string) (keys : list RouteKey) (r : RIB) : string + list dispatch.RouteHolding :=
  match rpc with
  | RequestLost e | ReplyLost e => inl e
  | RpcAnswered =>
      match Admin_AnnouncedFrom prefix (to_bus <$> keys) r with
      | inl _ => inl "InvalidArgument"
      | inr (holdings, rep_keys) =>
          let held := (fun h => dispatch.mkHolding (of_bus (h_key h)) (h_origin h) (h_nexthop h)) <$> holdings in
          inr (held ++ ((fun k => dispatch.mkHolding k "" "") <$> List.filter (fun k => negb (bool_decide (k ∈ (rh_key <$> held)))) (of_bus <$> rep_keys)))
      end
  end.

End network.

End fence.
