(* ===== verification/FenceName.v ===== *)
(** * The names of fences

    A [NetworkFence] is found by the name of its prefix, in which the separators of the
    address are all the same character.  Two prefixes that admission accepts never have
    the same name. *)

From stdpp Require Import pretty.
From S2P Require Import Prelude Net FwPathFacts Interact Dispatch Fence.
Import netip dispatch fence.

Open Scope Z_scope.

(** A prefix a pool may declare. *)
Definition valid_prefix (s : string) : Prop := s ≠ "" ∧ ValidateUnderlayPrefix s = [].

(** A character of a number. *)
Definition plain (c : ascii) : bool := negb (bool_decide (c = "-"%char)) && negb (bool_decide (c = ":"%char)) && negb (bool_decide (c = "."%char)) && negb (bool_decide (c = "/"%char)).

Abbreviation dash := "-"%char.

Lemma plain_replace c : plain c = true → replace_char c = [c] ∧ c ≠ dash.
Proof. unfold plain, replace_char. rewrite !andb_true_iff, !negb_true_iff, !bool_decide_eq_false. intros [[[H1 H2] H3] H4]. by rewrite !bool_decide_false. Qed.

Lemma plain_not c : plain c = true → c ≠ dash ∧ c ≠ ":"%char ∧ c ≠ "."%char ∧ c ≠ "/"%char.
Proof. unfold plain. rewrite !andb_true_iff, !negb_true_iff, !bool_decide_eq_false. naive_solver. Qed.

(** ** Splitting at a separator *)

Lemma fields_app c cur l r : fields c cur (l ++ c :: r) = fields c cur l ++ fields c [] r.
Proof. revert cur. induction l as [|x l IH]; intros cur; cbn; [by rewrite decide_True|]. case_decide; [by rewrite IH|apply IH]. Qed.

Lemma fields_none c cur l : c ∉ l → fields c cur l = [rev cur ++ l].
Proof.
  revert cur. induction l as [|x l IH]; intros cur Hc; cbn; [by rewrite app_nil_r|]. apply not_elem_of_cons in Hc as [Hx Hc]. rewrite decide_False by done. rewrite IH by done. cbn. by rewrite <- app_assoc.
Qed.

Fixpoint join (c : ascii) (ws : list (list ascii)) : list ascii :=
  match ws with [] => [] | [w] => w | w :: ws => w ++ c :: join c ws end.

Lemma fields_ne c cur l : fields c cur l ≠ [].
Proof. revert cur. induction l as [|x l IH]; intros cur; cbn; [done|]. case_decide; [done|apply IH]. Qed.

Lemma join_fields c cur l : join c (fields c cur l) = rev cur ++ l.
Proof.
  revert cur. induction l as [|x l IH]; intros cur; cbn; [by rewrite app_nil_r|]. case_decide as Hx.
  - subst x. pose proof (fields_ne c [] l). specialize (IH []). destruct (fields c [] l) as [|w ws] eqn:E; [done|]. cbn [join] in *. by rewrite IH.
  - rewrite IH. cbn. by rewrite <- app_assoc.
Qed.

(** Text of numbers with one separator. *)
Definition text (c : ascii) (l : list ascii) : Prop := ∀ x, x ∈ l → plain x = true ∨ x = c.

Lemma text_cons c x l : text c (x :: l) ↔ (plain x = true ∨ x = c) ∧ text c l.
Proof. unfold text. setoid_rewrite elem_of_cons. naive_solver. Qed.

Lemma text_app c l r : text c (l ++ r) ↔ text c l ∧ text c r.
Proof. unfold text. setoid_rewrite elem_of_app. naive_solver. Qed.

Lemma fields_replaced c cur l : replace_char c = [dash] → text c l → fields dash cur (l ≫= replace_char) = fields c cur l.
Proof.
  intros Hc. revert cur. induction l as [|x l IH]; intros cur Ht; [done|]. apply text_cons in Ht as [Hx Ht]. cbn [mbind list_bind]. destruct (decide (x = c)) as [->|Hne].
  - rewrite Hc. cbn. rewrite (decide_True _ _ (eq_refl c)). by rewrite IH.
  - destruct Hx as [Hx|]; [|done]. destruct (plain_replace x Hx) as [-> Hd]. cbn. by rewrite !decide_False, IH.
Qed.

(** ** What the addresses look like *)

Lemma pretty_plain o : 0 ≤ o ≤ 255 → chars (pretty o) ≠ [] ∧ ∀ x, x ∈ chars (pretty o) → plain x = true.
Proof.
  intros Ho. assert (Hall : forallb (fun o => negb (bool_decide (chars (pretty o) = [])) && forallb plain (chars (pretty o))) (seqZ 0 256) = true) by (vm_compute; reflexivity).
  rewrite forallb_forall in Hall. specialize (Hall o). rewrite andb_true_iff, negb_true_iff, bool_decide_eq_false, forallb_forall in Hall.
  destruct Hall as [H1 H2]; [apply list_elem_of_In, elem_of_seqZ; lia|]. split; [done|]. intros x Hx. by apply H2, list_elem_of_In.
Qed.

Lemma chars_app a b : chars (a +:+ b) = chars a ++ chars b.
Proof. induction a as [|x a IH]; [done|]. change (chars (String x a +:+ b)) with (x :: chars (a +:+ b)). by rewrite IH. Qed.

Lemma chars_inj a b : chars a = chars b → a = b.
Proof. intros E. rewrite <- (string_of_list_ascii_of_string a), <- (string_of_list_ascii_of_string b). unfold chars in E. by rewrite E. Qed.

Lemma hex_char_plain v : 0 ≤ v < 16 → plain (hex_char v) = true.
Proof.
  intros Hv. assert (Hall : forallb (fun v => plain (hex_char v)) (seqZ 0 16) = true) by (vm_compute; reflexivity). rewrite forallb_forall in Hall. apply Hall, list_elem_of_In, elem_of_seqZ. lia.
Qed.

Lemma hex_group_plain g : chars (hex_group g) ≠ [] ∧ ∀ x, x ∈ chars (hex_group g) → plain x = true.
Proof.
  assert (Hd : ∀ z, 0 ≤ Z.land z 15 < 16) by (intros z; change 15 with (Z.ones 4); rewrite Z.land_ones by lia; apply Z.mod_pos_bound; lia).
  assert (Hbase : ∀ ds, ds ≠ [] → Forall (fun d => 0 ≤ d < 16) ds → (hex_char <$> ds) ≠ [] ∧ ∀ x, x ∈ hex_char <$> ds → plain x = true).
  { intros l Hne Hf. split; [by destruct l|]. intros x (d & -> & Hx)%list_elem_of_fmap. apply hex_char_plain. rewrite Forall_forall in Hf. by apply Hf. }
  unfold hex_group, chars. rewrite list_ascii_of_string_of_list_ascii. pose proof (Hd (Z.shiftr g 12)) as H1. pose proof (Hd (Z.shiftr g 8)) as H2. pose proof (Hd (Z.shiftr g 4)) as H3. pose proof (Hd g) as H4.
  revert H1 H2 H3 H4. generalize (Z.land (Z.shiftr g 12) 15) (Z.land (Z.shiftr g 8) 15) (Z.land (Z.shiftr g 4) 15) (Z.land g 15). intros a b c d Ha Hb Hc Hd'.
  repeat case_match; apply Hbase; try done; repeat constructor; lia.
Qed.

(** The separators of an address. *)
Inductive separator : ascii → Prop := sep_colon : separator ":"%char | sep_dot : separator "."%char.

Lemma separator_not_plain c : separator c → plain c = false.
Proof. by intros []. Qed.

(** A number is one field. *)
Lemma word_field c w : separator c → (∀ x, x ∈ w → plain x = true) → fields c [] w = [w].
Proof. intros Hc Hw. rewrite fields_none; [done|]. intros Hin. apply Hw in Hin. by rewrite separator_not_plain in Hin. Qed.

Lemma word_text c w : (∀ x, x ∈ w → plain x = true) → text c w.
Proof. intros Hw x Hx. left. by apply Hw. Qed.

Lemma dotted_spec v : text "."%char (chars (dotted v)) ∧ length (fields "."%char [] (chars (dotted v))) = 4%nat ∧ [] ∉ fields "."%char [] (chars (dotted v)).
Proof.
  assert (Ho : ∀ x, 0 ≤ Z.land x 255 ≤ 255) by (intros x; change (Z.land x 255) with (Z.land x (Z.ones 8)); rewrite (Z.land_ones x 8 ltac:(lia)); pose proof (Z.mod_pos_bound x (2 ^ 8) ltac:(lia)); lia).
  unfold dotted. rewrite !chars_app. change (chars ".") with ["."%char]. cbn [app].
  destruct (pretty_plain _ (Ho (Z.shiftr v 24))) as [N1 P1], (pretty_plain _ (Ho (Z.shiftr v 16))) as [N2 P2], (pretty_plain _ (Ho (Z.shiftr v 8))) as [N3 P3], (pretty_plain _ (Ho v)) as [N4 P4].
  split; [rewrite !text_app, !text_cons, !text_app, !text_cons, !text_app, !text_cons; split_and!; try (by right); by apply word_text|].
  rewrite !fields_app, !word_field by (apply sep_dot || assumption). cbn. split; [done|]. rewrite !not_elem_of_cons. split_and!; [by symmetry..|apply not_elem_of_nil].
Qed.

Lemma colon_join_chars l : chars (colon_join l) = join ":"%char (chars <$> l).
Proof. induction l as [|x [|y l] IH]; [done..|]. change (colon_join (x :: y :: l)) with (x +:+ ":" +:+ colon_join (y :: l)). rewrite chars_app. change (chars (":" +:+ colon_join (y :: l))) with (":"%char :: chars (colon_join (y :: l))). by rewrite IH. Qed.

Lemma join_text c ws : (∀ w x, w ∈ ws → x ∈ w → plain x = true) → text c (join c ws).
Proof.
  induction ws as [|w [|w' ws] IH]; intros Hw; cbn [join]; [by intros x ?%not_elem_of_nil|intros x Hx; left; eapply Hw; [left|done]|].
  apply text_app. split; [intros x Hx; left; eapply Hw; [left|done]|]. apply text_cons. split; [by right|]. apply IH. intros v x Hv. apply Hw. by right.
Qed.

Lemma fields_join c ws : separator c → ws ≠ [] → (∀ w x, w ∈ ws → x ∈ w → plain x = true) → fields c [] (join c ws) = ws.
Proof.
  intros Hc. induction ws as [|w [|w' ws] IH]; intros Hne Hw; [done| |].
  - cbn [join]. apply word_field; [done|]. intros x. apply Hw. left.
  - change (join c (w :: w' :: ws)) with (w ++ c :: join c (w' :: ws)). rewrite fields_app, word_field by (done || (intros x; apply Hw; left)). rewrite IH; [done|done|]. intros v x Hv. apply Hw. by right.
Qed.

(** Eight groups, or fewer with an empty field among them. *)
Lemma string6_spec v : text ":"%char (chars (string6 v)) ∧ (length (fields ":"%char [] (chars (string6 v))) = 8%nat ∨ [] ∈ fields ":"%char [] (chars (string6 v))).
Proof.
  assert (Hg : ∀ (gs : list Z) (w : list ascii) x, w ∈ chars <$> (hex_group <$> gs) → x ∈ w → plain x = true).
  { intros gs w x Hw Hx. apply list_elem_of_fmap in Hw as (h & -> & Hh). apply list_elem_of_fmap in Hh as (g & -> & _). by apply (proj2 (hex_group_plain g)). }
  unfold string6. destruct (best_run 0 (groups_of v) (0%nat, 0%nat)) as [start n]. case_decide.
  - rewrite colon_join_chars. split; [apply join_text, Hg|]. left. rewrite fields_join; [done|apply sep_colon|done|apply Hg].
  - rewrite !chars_app, !colon_join_chars. change (chars "::") with [":"%char; ":"%char]. split; [rewrite !text_app, !text_cons; split_and!; try (by right); [apply join_text, Hg|by intros x ?%not_elem_of_nil|apply join_text, Hg]|].
    right. cbn [app]. rewrite fields_app. apply elem_of_app. right. change (":"%char :: ?l) with ([] ++ ":"%char :: l). rewrite fields_app. apply elem_of_app. left. cbn. left.
Qed.

(** ** Names tell prefixes apart *)

(** The text of a valid prefix: an address of one family, and its length. *)
Lemma valid_prefix_text s : valid_prefix s →
  ∃ a d, chars s = a ++ "/"%char :: d ∧ (∀ x, x ∈ d → plain x = true) ∧
    ((text "."%char a ∧ length (fields "."%char [] a) = 4%nat ∧ [] ∉ fields "."%char [] a) ∨
     (text ":"%char a ∧ (length (fields ":"%char [] a) = 8%nat ∨ [] ∈ fields ":"%char [] a))).
Proof.
  unfold valid_prefix, ValidateUnderlayPrefix. intros [Hne Hv]. rewrite bool_decide_false in Hv by done. destruct (ParsePrefix s) as [p|] eqn:Ep; [|done]. destruct (Is4In6 (p_addr p)) eqn:E4; [done|].
  case_bool_decide; [|done]. cbn [negb] in Hv. case_bool_decide as Hs; [|done]. cbn [negb] in Hv.
  assert (Hp : 0 ≤ p_bits p ≤ 255 ∧ Zone (p_addr p) = "").
  { unfold ParsePrefix in Ep. destruct (cut_last _ _) as [[a b]|]; [|done]. cbn in Ep. destruct (ParseAddr _) as [ip|]; [|done]. cbn in Ep. case_decide as Hz; [done|]. destruct (decimal_strict b) as [bits|] eqn:Eb; [|done]. cbn in Ep.
    destruct (bits <=? BitLen ip) eqn:El; [|done]. injection Ep as <-. cbn. apply decimal_strict_spec in Eb as (_ & Hb & _). apply Z.leb_le in El. assert (BitLen ip ≤ 128) by (unfold BitLen; destruct (Is4 ip); lia). split; [lia|]. by destruct (decide (Zone ip = "")). }
  destruct Hp as [Hb Hz]. rewrite <- Hs. unfold Prefix_String. rewrite !chars_app. change (chars ("/" +:+ pretty (p_bits p))) with ("/"%char :: chars (pretty (p_bits p))). exists (chars (Addr_String (p_addr p))), (chars (pretty (p_bits p))).
  split_and!; [done|apply (pretty_plain _ Hb)|]. destruct (p_addr p) as [v|v z]; cbn [Addr_String].
  - left. apply dotted_spec.
  - right. rewrite E4. cbn in Hz. subst z. rewrite decide_True by done. rewrite chars_app. change (chars "") with (@nil ascii). rewrite app_nil_r. apply string6_spec.
Qed.

Lemma fenceName_inj s s' : valid_prefix s → valid_prefix s' → fenceName s = fenceName s' → s = s'.
Proof.
  intros Hv Hv' Hn. destruct (valid_prefix_text s Hv) as (a & d & Es & Hd & Ha), (valid_prefix_text s' Hv') as (a' & d' & Es' & Hd' & Ha').
  assert (Hrep : chars s ≫= replace_char = chars s' ≫= replace_char).
  { unfold fenceName in Hn. apply (f_equal chars) in Hn. rewrite !chars_app in Hn. apply app_inv_head in Hn. unfold chars at 1 3 in Hn. by rewrite !list_ascii_of_string_of_list_ascii in Hn. }
  assert (Hf : ∀ c a d, separator c → text c a → (∀ x, x ∈ d → plain x = true) → fields dash [] ((a ++ "/"%char :: d) ≫= replace_char) = fields c [] a ++ [[]; d]).
  { clear. intros c a d Hc Ht Hd. rewrite bind_app. cbn [mbind list_bind]. change (replace_char "/"%char) with [dash; dash]. cbn [app].
    rewrite fields_app, (fields_replaced c) by (done || by destruct Hc). f_equal. cbn [fields rev app]. rewrite decide_True by done. f_equal.
    rewrite (fields_replaced c); [by apply word_field|by destruct Hc|by apply word_text]. }
  apply chars_inj. rewrite Es, Es' in Hrep |- *. apply (f_equal (fields dash [])) in Hrep.
  destruct Ha as [(Ht & Hl & He)|(Ht & Hs)], Ha' as [(Ht' & Hl' & He')|(Ht' & Hs')];
    match type of Ht with text ?c _ => match type of Ht' with text ?c' _ => rewrite (Hf c a d ltac:(constructor) Ht Hd), (Hf c' a' d' ltac:(constructor) Ht' Hd') in Hrep end end; apply app_inj_2 in Hrep as [Hfa [= ->]]; try done.
  - f_equal. pose proof (join_fields "."%char [] a) as J. pose proof (join_fields "."%char [] a') as J'. rewrite Hfa in J. cbn in J, J'. congruence.
  - exfalso. rewrite Hfa in Hl, He. destruct Hs' as [Hs'|Hs']; [lia|done].
  - exfalso. rewrite <- Hfa in Hl', He'. destruct Hs as [Hs|Hs]; [lia|done].
  - f_equal. pose proof (join_fields ":"%char [] a) as J. pose proof (join_fields ":"%char [] a') as J'. rewrite Hfa in J. cbn in J, J'. congruence.
Qed.
