(* ===== verification/FenceSystem.v ===== *)
(** * Storage fences against the API server, csi-addons and Ceph

    The calls of the storage fencer run against an API server whose answers may be lost,
    and beside csi-addons, which carries out the objects' specifications on Ceph's
    blocklist in steps of its own: it reads an object, changes the blocklist, and reports
    one result, with no record of what the specification was.  [csi_step] has what
    csi-addons and the API server are documented to do; the environment is any relation
    within it. *)

From S2P Require Import Prelude Net Interact Dispatch Fence FenceName.
Import netip dispatch fence.

Open Scope Z_scope.

(** ** The world *)

(** An operation of csi-addons on an object: what it read, and whether the blocklist has
    been changed. *)
Record Op := mkOp { op_uid : Z; op_fence : bool; op_cidrs : list string; op_applied : bool }.

Record World := mkWorld { fences : gmap string NetworkFence; blocklist : gset string; running : gmap string Op; next_uid : Z }.

Definition set_status (result message : string) (c : NetworkFence) : NetworkFence :=
  mkFence (nf_uid c) (nf_labels c) (fenceState c) (nf_driver c) (nf_cidrs c) (nf_secret c) (nf_parameters c) result message (nf_deleting c).

Definition set_deleting (c : NetworkFence) : NetworkFence :=
  mkFence (nf_uid c) (nf_labels c) (fenceState c) (nf_driver c) (nf_cidrs c) (nf_secret c) (nf_parameters c) (nf_result c) (nf_message c) true.

Definition set_uid (u : Z) (c : NetworkFence) : NetworkFence :=
  mkFence u (nf_labels c) (fenceState c) (nf_driver c) (nf_cidrs c) (nf_secret c) (nf_parameters c) (nf_result c) (nf_message c) (nf_deleting c).

Definition put_fence (n : string) (c : NetworkFence) (w : World) : World := mkWorld (<[n := c]> (fences w)) (blocklist w) (running w) (next_uid w).
Definition drop_fence (n : string) (w : World) : World := mkWorld (delete n (fences w)) (blocklist w) (running w) (next_uid w).
Definition put_op (n : string) (o : Op) (w : World) : World := mkWorld (fences w) (blocklist w) (<[n := o]> (running w)) (next_uid w).
Definition drop_op (n : string) (w : World) : World := mkWorld (fences w) (blocklist w) (delete n (running w)) (next_uid w).

Definition apply_op (n : string) (o : Op) (w : World) : World :=
  mkWorld (fences w) (if op_fence o then blocklist w ∪ list_to_set (op_cidrs o) else blocklist w ∖ list_to_set (op_cidrs o))
    (<[n := mkOp (op_uid o) (op_fence o) (op_cidrs o) true]> (running w)) (next_uid w).

Definition op_message (o : Op) : string := if op_fence o then fenceSucceededMsg else unfenceSucceededMsg.

(** csi-addons: one operation at a time on an object; its success is reported on the
    object it read, its failure or its loss at any moment; an object being deleted is let
    go, without touching the blocklist. *)
Inductive csi_step : World → World → Prop :=
| csi_start w n c :
    fences w !! n = Some c → running w !! n = None → nf_deleting c = false →
    csi_step w (put_op n (mkOp (nf_uid c) (bool_decide (fenceState c = "Fenced")) (nf_cidrs c) false) w)
| csi_apply w n o : running w !! n = Some o → op_applied o = false → csi_step w (apply_op n o w)
| csi_report w n o c :
    running w !! n = Some o → op_applied o = true → fences w !! n = Some c → nf_uid c = op_uid o →
    csi_step w (drop_op n (put_fence n (set_status "Succeeded" (op_message o) c) w))
| csi_fail w n o c result message :
    running w !! n = Some o → result ≠ "Succeeded" → fences w !! n = Some c → nf_uid c = op_uid o →
    csi_step w (drop_op n (put_fence n (set_status result message c) w))
| csi_abandon w n o : running w !! n = Some o → csi_step w (drop_op n w)
| csi_finalize w n c : fences w !! n = Some c → nf_deleting c = true → running w !! n = None → csi_step w (drop_fence n w).

(** The API server: reads are of the stored object; an update goes through where the
    object is still the one that was read; an error may hide a write that went through. *)
Inductive api : World → FenceEvent → World → Prop :=
| api_get_found w n c : fences w !! n = Some c → api w (FGet n (Found c)) w
| api_get_none w n : fences w !! n = None → api w (FGet n NotFound) w
| api_get_error w n e : api w (FGet n (GetError e)) w
| api_create w n c err : fences w !! n = None → api w (FCreate n c err) (mkWorld (<[n := set_uid (next_uid w) c]> (fences w)) (blocklist w) (running w) (next_uid w + 1))
| api_create_error w n c e : api w (FCreate n c (Some e)) w
| api_update w n read c err : fences w !! n = Some read → api w (FUpdate n read c err) (put_fence n c w)
| api_update_error w n read c e : api w (FUpdate n read c (Some e)) w
| api_delete w n c r : fences w !! n = Some c → r ≠ NotFound → api w (FDelete n r) (put_fence n (set_deleting c) w)
| api_delete_now w n c r : fences w !! n = Some c → r ≠ NotFound → api w (FDelete n r) (drop_fence n w)
| api_delete_none w n : fences w !! n = None → api w (FDelete n NotFound) w
| api_delete_error w n e : api w (FDelete n (GetError e)) w.

(** ** Consistent worlds *)

(** The last thing reported is that the object's fence, or its unfence, succeeded. *)
Definition confirmed_fenced (c : NetworkFence) : Prop := fenceState c = "Fenced" ∧ nf_result c = "Succeeded" ∧ nf_message c = fenceSucceededMsg.
Definition confirmed_unfenced (c : NetworkFence) : Prop := fenceState c = "Unfenced" ∧ nf_result c = "Succeeded" ∧ nf_message c = unfenceSucceededMsg.

(** A fence op runs for the object there is, and nothing says unfenced. *)
Definition fence_op_ok (f : option NetworkFence) (bl : gset string) (o : Op) (p : string) : Prop :=
  ∃ c, f = Some c ∧ nf_uid c = op_uid o ∧ ¬ confirmed_unfenced c ∧ nf_deleting c = false ∧ (op_applied o = true → p ∈ bl).

(** An unfence op runs for an object to be unfenced, or for one that is gone and whose
    successor has nothing reported. *)
Definition unfence_op_ok (f : option NetworkFence) (bl : gset string) (o : Op) (p : string) : Prop :=
  (op_applied o = true → p ∉ bl) ∧ ∀ c, f = Some c → (nf_uid c = op_uid o ∧ fenceState c = "Unfenced") ∨ (nf_uid c ≠ op_uid o ∧ nf_result c ≠ "Succeeded").

(** What holds of a name: of its object, its running operation, and the blocklist. *)
Record name_inv (n : string) (f : option NetworkFence) (r : option Op) (bl : gset string) (next : Z) : Prop := mkNameInv {
  ni_cidr c : f = Some c → ∃ p, nf_cidrs c = [p] ∧ valid_prefix p ∧ fenceName p = n;
  ni_state c : f = Some c → fenceState c = "Fenced" ∨ fenceState c = "Unfenced";
  ni_msg c : f = Some c → fenceState c = "Fenced" → ¬ (nf_result c = "Succeeded" ∧ nf_message c = unfenceSucceededMsg);
  ni_uid c : f = Some c → nf_uid c < next;
  ni_run o : r = Some o → op_uid o < next ∧ ∃ p, op_cidrs o = [p] ∧ valid_prefix p ∧ fenceName p = n ∧ if op_fence o then fence_op_ok f bl o p else unfence_op_ok f bl o p;
  ni_fenced c p : f = Some c → nf_cidrs c = [p] → confirmed_fenced c → p ∈ bl;
  ni_unfenced c p : f = Some c → nf_cidrs c = [p] → confirmed_unfenced c → p ∉ bl;
  ni_gone c p : f = Some c → nf_cidrs c = [p] → nf_deleting c = true → fenceState c = "Unfenced" ∧ p ∉ bl;
  ni_none p : f = None → valid_prefix p → fenceName p = n → p ∉ bl
}.

Definition fence_inv (w : World) : Prop := ∀ n, name_inv n (fences w !! n) (running w !! n) (blocklist w) (next_uid w).

Lemma name_inv_frame n f r bl bl' next next' :
  (∀ p, valid_prefix p → fenceName p = n → p ∈ bl' ↔ p ∈ bl) → next ≤ next' → name_inv n f r bl next → name_inv n f r bl' next'.
Proof.
  intros Hbl Hnx [H1 H2 H3 H4 H5 H6 H7 H8 H9].
  assert (Hc : ∀ c p, f = Some c → nf_cidrs c = [p] → p ∈ bl' ↔ p ∈ bl) by (intros c p Hf Hp; destruct (H1 c Hf) as (q & Hq & ? & ?); rewrite Hq in Hp; injection Hp as ->; by apply Hbl).
  split; try done.
  - intros c Hf. specialize (H4 c Hf). lia.
  - intros o Ho. destruct (H5 o Ho) as (Hu & p & Hp & Hv & Hn & Hok). split; [lia|]. exists p. split_and!; try done. destruct (op_fence o).
    + destruct Hok as (c & ? & ? & ? & ? & Ha). exists c. split_and!; try done. intros E. apply Hbl; auto.
    + destruct Hok as [Ha Hs]. split; [|done]. intros E. rewrite Hbl by done. auto.
  - intros c p Hf Hp Hcf. rewrite (Hc c p) by done. eauto.
  - intros c p Hf Hp Hcf. rewrite (Hc c p) by done. eauto.
  - intros c p Hf Hp Hcf. rewrite (Hc c p) by done. eauto.
  - intros p Hf Hv Hn. rewrite Hbl by done. eauto.
Qed.

(** A change of one name, and of the blocklist at its prefix. *)
Lemma inv_at w w' n :
  fence_inv w → (∀ n', n' ≠ n → fences w' !! n' = fences w !! n' ∧ running w' !! n' = running w !! n') →
  (∀ p, fenceName p ≠ n → p ∈ blocklist w' ↔ p ∈ blocklist w) → next_uid w ≤ next_uid w' →
  name_inv n (fences w' !! n) (running w' !! n) (blocklist w') (next_uid w') → fence_inv w'.
Proof.
  intros Hi Hoth Hbl Hnx Hn n'. destruct (decide (n' = n)) as [->|Hne]; [done|]. destruct (Hoth n' Hne) as [-> ->]. eapply name_inv_frame; [|exact Hnx|apply Hi]. intros p _ <-. by apply Hbl.
Qed.

(** The object under a name is to be unfenced and its prefix is not blocked. *)
Definition spent (w : World) (n : string) : Prop :=
  ∀ c p, fences w !! n = Some c → nf_cidrs c = [p] → fenceState c = "Unfenced" ∧ (p ∉ blocklist w) ∧ ∀ o, running w !! n = Some o → op_fence o = false.

(** ** csi-addons *)

(** An unfence op excludes a confirmed fence. *)
Lemma unfence_op_excludes n c o bl next : name_inv n (Some c) (Some o) bl next → op_fence o = false → ¬ confirmed_fenced c.
Proof. intros Hi Ho (Hs & Hr & _). destruct (ni_run _ _ _ _ _ Hi o eq_refl) as (_ & p & _ & _ & _ & Hok). rewrite Ho in Hok. destruct Hok as [_ Hok]. destruct (Hok c eq_refl) as [[_ Hu]|[_ Hu]]; [by rewrite Hu in Hs|done]. Qed.

Lemma csi_start_inv n c bl next : name_inv n (Some c) None bl next → nf_deleting c = false →
  name_inv n (Some c) (Some (mkOp (nf_uid c) (bool_decide (fenceState c = "Fenced")) (nf_cidrs c) false)) bl next.
Proof.
  intros Hi Hd. pose proof Hi as [H1 H2 H3 H4 H5 H6 H7 H8 H9]. split; try done. intros o [= <-]. cbn. split; [by apply H4|]. destruct (H1 c eq_refl) as (p & Hp & Hv & Hn). exists p. split_and!; try done.
  case_bool_decide as Hs.
  - exists c. split_and!; try done. by intros (Hs' & _); rewrite Hs in Hs'.
  - split; [done|]. intros c' [= <-]. left. split; [done|]. destruct (H2 c eq_refl); done.
Qed.

Lemma csi_apply_inv n f o bl next : name_inv n f (Some o) bl next → op_applied o = false →
  name_inv n f (Some (mkOp (op_uid o) (op_fence o) (op_cidrs o) true)) (if op_fence o then bl ∪ list_to_set (op_cidrs o) else bl ∖ list_to_set (op_cidrs o)) next.
Proof.
  intros Hi Ha. pose proof Hi as [H1 H2 H3 H4 H5 H6 H7 H8 H9]. destruct (H5 o eq_refl) as (Hu & p & Hp & Hv & Hn & Hok).
  assert (Hsame : ∀ q, valid_prefix q → fenceName q = n → q = p) by (intros q Hq Hqn; apply fenceName_inj; [done|done|congruence]).
  assert (Hcp : ∀ c q, f = Some c → nf_cidrs c = [q] → q = p) by (intros c q Hf Hq; destruct (H1 c Hf) as (q' & Hq' & ? & ?); rewrite Hq' in Hq; injection Hq as ->; by apply Hsame).
  rewrite Hp. destruct (op_fence o) eqn:Eo.
  - destruct Hok as (c & -> & Huid & Hnu & Hdel & _). split; try done.
    + intros o' [= <-]. cbn. split; [done|]. exists p. split_and!; try done. exists c. split_and!; try done. set_solver.
    + intros c' q [= <-] Hq _. rewrite (Hcp c q eq_refl Hq). set_solver.
    + intros c' q [= <-] Hq Hcu. done.
    + intros c' q [= <-] Hq Hd. congruence.
  - destruct Hok as [_ Hok]. split; try done.
    + intros o' [= <-]. cbn. split; [done|]. exists p. split_and!; try done. split; [set_solver|done].
    + intros c q -> Hq Hcf. exfalso. by eapply unfence_op_excludes.
    + intros c q Hf Hq _. rewrite (Hcp c q Hf Hq). set_solver.
    + intros c q Hf Hq Hd. rewrite (Hcp c q Hf Hq). split; [by apply (H8 c q Hf Hq)|set_solver].
    + intros q Hf Hq Hqn. rewrite (Hsame q Hq Hqn). set_solver.
Qed.

Lemma csi_report_inv n c o bl next : name_inv n (Some c) (Some o) bl next → op_applied o = true → nf_uid c = op_uid o →
  name_inv n (Some (set_status "Succeeded" (op_message o) c)) None bl next.
Proof.
  intros Hi Ha Hu. pose proof Hi as [H1 H2 H3 H4 H5 H6 H7 H8 H9]. destruct (H5 o eq_refl) as (_ & p & Hp & Hv & Hn & Hok).
  assert (Hcp : ∀ q, nf_cidrs c = [q] → q = p) by (intros q Hq; destruct (H1 c eq_refl) as (q' & Hq' & ? & ?); rewrite Hq' in Hq; injection Hq as ->; apply fenceName_inj; [done|done|congruence]).
  unfold op_message. destruct (op_fence o).
  - destruct Hok as (c' & [= <-] & _ & _ & Hdel & Hin). split; try done.
    + intros c' [= <-]. apply (H1 c eq_refl).
    + intros c' [= <-]. apply (H2 c eq_refl).
    + intros c' [= <-] _ [_ ?]. done.
    + intros c' [= <-]. apply (H4 c eq_refl).
    + intros c' q [= <-] Hq _. rewrite (Hcp q Hq). auto.
    + intros c' q [= <-] _ (_ & _ & ?). done.
    + intros c' q [= <-] _ Hd. cbn in Hd. congruence.
  - destruct Hok as [Hout Hst]. destruct (Hst c eq_refl) as [[_ Hs]|[? _]]; [|done]. split; try done.
    + intros c' [= <-]. apply (H1 c eq_refl).
    + intros c' [= <-]. apply (H2 c eq_refl).
    + intros c' [= <-] Hs'. cbn in Hs'. by rewrite Hs in Hs'.
    + intros c' [= <-]. apply (H4 c eq_refl).
    + intros c' q [= <-] _ (Hs' & _). cbn in Hs'. by rewrite Hs in Hs'.
    + intros c' q [= <-] Hq _. rewrite (Hcp q Hq). auto.
    + intros c' q [= <-] Hq Hd. by apply (H8 c q eq_refl Hq).
Qed.

Lemma csi_fail_inv n c o bl next result message : name_inv n (Some c) (Some o) bl next → result ≠ "Succeeded" → name_inv n (Some (set_status result message c)) None bl next.
Proof.
  intros Hi Hr. pose proof Hi as [H1 H2 H3 H4 H5 H6 H7 H8 H9]. split; try done.
  - intros c' [= <-]. apply (H1 c eq_refl).
  - intros c' [= <-]. apply (H2 c eq_refl).
  - intros c' [= <-] _ [? _]. done.
  - intros c' [= <-]. apply (H4 c eq_refl).
  - intros c' q [= <-] _ (_ & ? & _). done.
  - intros c' q [= <-] _ (_ & ? & _). done.
  - intros c' q [= <-]. apply (H8 c q eq_refl).
Qed.

Lemma csi_step_inv w w' : csi_step w w' → fence_inv w → fence_inv w'.
Proof.
  intros Hs Hi. destruct Hs as [w n c Hf Hr Hd|w n o Hr Ha|w n o c Hr Ha Hf Hu|w n o c result message Hr Hres Hf Hu|w n o Hr|w n c Hf Hd Hr]; pose proof (Hi n) as Hn.
  - apply (inv_at w _ n); cbn; [done|intros n' Hne; by rewrite lookup_insert_ne|done|done|]. rewrite lookup_insert_eq, Hf. rewrite Hf, Hr in Hn. by apply csi_start_inv.
  - rewrite Hr in Hn. destruct (ni_run _ _ _ _ _ Hn o eq_refl) as (_ & p & Hp & _ & Hpn & _). apply (inv_at w _ n); cbn; [done|intros n' Hne; by rewrite lookup_insert_ne| |done|].
    + intros q Hq. rewrite Hp. assert (q ≠ p) by congruence. destruct (op_fence o); set_solver.
    + rewrite lookup_insert_eq. by apply csi_apply_inv.
  - apply (inv_at w _ n); cbn; [done|intros n' Hne; by rewrite lookup_insert_ne, lookup_delete_ne|done|done|]. rewrite lookup_insert_eq, lookup_delete_eq. rewrite Hf, Hr in Hn. by apply csi_report_inv.
  - apply (inv_at w _ n); cbn; [done|intros n' Hne; by rewrite lookup_insert_ne, lookup_delete_ne|done|done|]. rewrite lookup_insert_eq, lookup_delete_eq. rewrite Hf, Hr in Hn. by eapply csi_fail_inv.
  - apply (inv_at w _ n); cbn; [done|intros n' Hne; by rewrite lookup_delete_ne|done|done|]. rewrite lookup_delete_eq. destruct Hn as [H1 H2 H3 H4 H5 H6 H7 H8 H9]. by split.
  - apply (inv_at w _ n); cbn; [done|intros n' Hne; by rewrite lookup_delete_ne|done|done|]. rewrite lookup_delete_eq, Hr. destruct Hn as [H1 H2 H3 H4 H5 H6 H7 H8 H9]. split; try done.
    intros p _ Hv Hpn. destruct (H1 c Hf) as (q & Hq & Hqv & Hqn). assert (p = q) as -> by (apply fenceName_inj; [done|done|congruence]). by apply (H8 c q Hf Hq).
Qed.
