(* ===== verification/FenceTheorems.v ===== *)
(** * Storage fences: theorems

    What the storage fencer confirms is true of Ceph, whatever answers are lost and
    however csi-addons interleaves. *)

From S2P Require Import Prelude Net Interact Dispatch Fence FenceName FenceSystem.
Import netip dispatch fence.

Open Scope Z_scope.

(** ** What lasts *)

(** csi-addons keeps a spent object spent. *)
Lemma csi_step_spent w w' n : csi_step w w' → fence_inv w → spent w n → spent w' n.
Proof.
  intros Hst Hi Hsp. pose proof (Hi n) as Hn. destruct Hst as [w m c Hf Hr Hd|w m o Hr Ha|w m o c Hr Ha Hf Hu|w m o c result message Hr Hres Hf Hu|w m o Hr|w m c Hf Hd Hr]; intros c0 p; cbn; (destruct (decide (m = n)) as [->|Hne]; [rewrite ?lookup_insert_eq, ?lookup_delete_eq|rewrite ?lookup_insert_ne, ?lookup_delete_ne by done; try apply Hsp]).
  - intros Hf0 Hp. destruct (Hsp c0 p Hf0 Hp) as (Hs & Hb & _). split_and!; try done. rewrite Hf in Hf0. injection Hf0 as ->. intros o [= <-]. cbn. by rewrite Hs.
  - intros Hf0 Hp. destruct (Hsp c0 p Hf0 Hp) as (Hs & Hb & Ho). split_and!; try done; [|intros o' [= <-]; cbn; by apply Ho]. rewrite (Ho o Hr). set_solver.
  - intros Hf0 Hp. destruct (Hsp c0 p Hf0 Hp) as (Hs & Hb & Ho). split_and!; try done. destruct (Hi m) as [_ _ _ _ H5 _ _ _ _]. destruct (H5 o Hr) as (_ & q & Hq & _ & Hqn & _).
    destruct (ni_cidr _ _ _ _ _ Hn c0 Hf0) as (p' & Hp' & _ & Hpn). rewrite Hp' in Hp. injection Hp as ->. rewrite Hq. assert (p ≠ q) by congruence. destruct (op_fence o); set_solver.
  - intros [= <-] Hp. destruct (Hsp c p Hf Hp) as (Hs & Hb & _). done.
  - intros [= <-] Hp. destruct (Hsp c p Hf Hp) as (Hs & Hb & _). done.
  - intros Hf0 Hp. destruct (Hsp c0 p Hf0 Hp) as (Hs & Hb & _). done.
  - done.
Qed.

(** The pool's fence on a prefix is set. *)
Definition held (pool p : string) (w : World) : Prop :=
  ∃ c, fences w !! fenceName p = Some c ∧ nf_cidrs c = [p] ∧ fenceState c = "Fenced" ∧ owner_of c = pool ∧ p ∈ blocklist w ∧ ∀ o, running w !! fenceName p = Some o → op_fence o = true.

Lemma csi_step_held pool p w w' : csi_step w w' → fence_inv w → held pool p w → held pool p w'.
Proof.
  intros Hst Hi (c0 & Hf0 & Hp & Hs & Hown & Hin & Ho). pose proof (Hi (fenceName p)) as Hn.
  destruct Hst as [w m c Hf Hr Hd|w m o Hr Ha|w m o c Hr Ha Hf Hu|w m o c result message Hr Hres Hf Hu|w m o Hr|w m c Hf Hd Hr]; unfold held; cbn; (destruct (decide (m = fenceName p)) as [->|Hne]; [rewrite ?lookup_insert_eq, ?lookup_delete_eq|rewrite ?lookup_insert_ne, ?lookup_delete_ne by done]); try (exists c0; split_and!; done).
  - exists c0. split_and!; try done. rewrite Hf in Hf0. injection Hf0 as ->. intros o [= <-]. cbn. by rewrite Hs.
  - exists c0. rewrite (Ho o Hr). split_and!; try done; [set_solver|by intros o' [= <-]].
  - exists c0. split_and!; try done. destruct (Hi m) as [_ _ _ _ H5 _ _ _ _]. destruct (H5 o Hr) as (_ & q & Hq & _ & Hqn & _). rewrite Hq. assert (p ≠ q) by congruence. destruct (op_fence o); set_solver.
  - rewrite Hf in Hf0. injection Hf0 as ->. eexists. split_and!; done.
  - rewrite Hf in Hf0. injection Hf0 as ->. eexists. split_and!; done.
  - rewrite Hf in Hf0. injection Hf0 as ->. destruct (ni_gone _ _ _ _ _ Hn c0 p Hf Hp Hd) as [Hs' _]. by rewrite Hs in Hs'.
Qed.

(** ** The calls *)

(** A program against the API server, beside its environment. *)
Section calls.
Context (env : World → World → Prop) (env_documented : ∀ w w', env w w' → csi_step w w').
Context (driver clusterID : string) (secret : string * string).

Fixpoint exec {A : Type} (p : prog FenceEvent A) (w : World) (a : A) (w' : World) : Prop :=
  match p with
  | Ret b => a = b ∧ w' = w
  | Ask X ev k => ∃ x w1 w2, rtc env w w1 ∧ api w1 (ev x) w2 ∧ exec (k x) w2 a w'
  end.

Lemma env_inv w w' : rtc env w w' → fence_inv w → fence_inv w'.
Proof. induction 1 as [|x y z Hs _ IH]; [done|]. intros Hi. apply IH. by eapply csi_step_inv; [apply env_documented|]. Qed.

Lemma env_spent w w' n : rtc env w w' → fence_inv w → spent w n → spent w' n.
Proof. induction 1 as [|x y z Hs _ IH]; [done|]. intros Hi Hsp. apply IH; [by eapply csi_step_inv; [apply env_documented|]|by eapply csi_step_spent; [apply env_documented|..]]. Qed.

Lemma env_held pool p w w' : rtc env w w' → fence_inv w → held pool p w → held pool p w'.
Proof. induction 1 as [|x y z Hs _ IH]; [done|]. intros Hi Hh. apply IH; [by eapply csi_step_inv; [apply env_documented|]|by eapply csi_step_held; [apply env_documented|..]]. Qed.

(** The object under a name is confirmed unfenced: it is spent. *)
Lemma confirmed_spent w n c : fence_inv w → fences w !! n = Some c → confirmed_unfenced c → spent w n.
Proof.
  intros Hi Hf Hc c' p Hf' Hp. rewrite Hf in Hf'. injection Hf' as <-. pose proof (Hi n) as Hn. rewrite Hf in Hn. split_and!; [apply Hc|by eapply ni_unfenced|].
  intros o Ho. destruct (ni_run _ _ _ _ _ Hn o Ho) as (_ & q & _ & _ & _ & Hok). destruct (op_fence o); [|done]. destruct Hok as (c' & [= <-] & _ & Hnu & _). done.
Qed.

(** ** Writes *)

Lemma create_fence_inv w pool p : fence_inv w → valid_prefix p → fences w !! fenceName p = None →
  fence_inv (mkWorld (<[fenceName p := set_uid (next_uid w) (obj driver clusterID secret pool p "Fenced")]> (fences w)) (blocklist w) (running w) (next_uid w + 1)).
Proof.
  intros Hi Hv Hf. apply (inv_at w _ (fenceName p)); cbn; [done|intros n' Hne; by rewrite lookup_insert_ne|done|lia|]. rewrite lookup_insert_eq. pose proof (Hi (fenceName p)) as Hn. rewrite Hf in Hn. destruct Hn as [H1 H2 H3 H4 H5 H6 H7 H8 H9]. split; try done.
  - intros c [= <-]. by exists p.
  - intros c [= <-]. by left.
  - intros c [= <-] _ [? _]. done.
  - intros c [= <-]. cbn. lia.
  - intros o Ho. destruct (H5 o Ho) as (Hu & q & Hq & Hqv & Hqn & Hok). split; [lia|]. exists q. split_and!; try done. destruct (op_fence o); [by destruct Hok as (c & ? & _)|]. destruct Hok as [Ha _]. split; [done|].
    intros c [= <-]. right. cbn. split; [lia|done].
  - intros c q [= <-] _ (_ & ? & _). done.
  - intros c q [= <-] _ (? & _). done.
  - intros c q [= <-] _ Hd. done.
Qed.

Lemma unfence_inv w n c : fence_inv w → fences w !! n = Some c → fenceState c ≠ "Unfenced" → fence_inv (put_fence n (set_state "Unfenced" c) w).
Proof.
  intros Hi Hf Hs. apply (inv_at w _ n); cbn; [done|intros n' Hne; by rewrite lookup_insert_ne|done|done|]. rewrite lookup_insert_eq. pose proof (Hi n) as Hn. rewrite Hf in Hn. destruct Hn as [H1 H2 H3 H4 H5 H6 H7 H8 H9].
  assert (Hfs : fenceState c = "Fenced") by (by destruct (H2 c eq_refl)). specialize (H3 c eq_refl Hfs). split; try done.
  - intros c' [= <-]. apply (H1 c eq_refl).
  - intros c' [= <-]. by right.
  - intros c' [= <-] ?. done.
  - intros c' [= <-]. apply (H4 c eq_refl).
  - intros o Ho. destruct (H5 o Ho) as (Hu & q & Hq & Hqv & Hqn & Hok). split; [done|]. exists q. split_and!; try done. destruct (op_fence o).
    + destruct Hok as (c' & [= <-] & Huid & _ & Hdel & Ha). eexists. split_and!; [done|done| |done|done]. intros (_ & Hr & Hm). by apply H3.
    + destruct Hok as [Ha Hok]. split; [done|]. intros c' [= <-]. cbn. destruct (Hok c eq_refl) as [[_ ?]|?]; [done|by right].
  - intros c' q [= <-] _ (? & _). done.
  - intros c' q [= <-] _ (_ & Hr & Hm). by destruct H3.
  - intros c' q [= <-] Hq Hd. destruct (H8 c q eq_refl Hq Hd). done.
Qed.

Lemma delete_spent_inv w n c : fence_inv w → spent w n → fences w !! n = Some c → fence_inv (put_fence n (set_deleting c) w) ∧ fence_inv (drop_fence n w).
Proof.
  intros Hi Hsp Hf. pose proof (Hi n) as Hn. rewrite Hf in Hn. destruct Hn as [H1 H2 H3 H4 H5 H6 H7 H8 H9]. destruct (H1 c eq_refl) as (p & Hp & Hv & Hpn). destruct (Hsp c p Hf Hp) as (Hs & Hb & Ho). split.
  - apply (inv_at w _ n); cbn; [done|intros n' Hne; by rewrite lookup_insert_ne|done|done|]. rewrite lookup_insert_eq. split; try done.
    + intros c' [= <-]. apply (H1 c eq_refl).
    + intros c' [= <-]. apply (H2 c eq_refl).
    + intros c' [= <-]. apply (H3 c eq_refl).
    + intros c' [= <-]. apply (H4 c eq_refl).
    + intros o Hr. destruct (H5 o Hr) as (Hu & q & Hq & Hqv & Hqn & Hok). split; [done|]. exists q. split_and!; try done. rewrite (Ho o Hr) in Hok |- *. destruct Hok as [Ha Hok]. split; [done|]. intros c' [= <-]. apply (Hok c eq_refl).
    + intros c' q [= <-]. apply (H6 c q eq_refl).
    + intros c' q [= <-]. apply (H7 c q eq_refl).
    + intros c' q [= <-] Hq _. cbn in Hq. rewrite Hp in Hq. injection Hq as <-. done.
  - apply (inv_at w _ n); cbn; [done|intros n' Hne; by rewrite lookup_delete_ne|done|done|]. rewrite lookup_delete_eq. split; try done.
    + intros o Hr. destruct (H5 o Hr) as (Hu & q & Hq & Hqv & Hqn & Hok). split; [done|]. exists q. split_and!; try done. rewrite (Ho o Hr) in Hok |- *. by destruct Hok as [Ha _].
    + intros q _ Hqv Hqn. assert (q = p) as -> by (apply fenceName_inj; [done|done|congruence]). done.
Qed.

Lemma held_other pool p w w' : fences w' !! fenceName p = fences w !! fenceName p → blocklist w' = blocklist w → running w' = running w → held pool p w → held pool p w'.
Proof. intros Hf Hb Hr. unfold held. by rewrite Hf, Hb, Hr. Qed.

(** A spent object is not held. *)
Lemma held_not_spent pool p w : held pool p w → ¬ spent w (fenceName p).
Proof. intros (c & Hf & Hp & Hs & _) Hsp. destruct (Hsp c p Hf Hp) as [Hs' _]. by rewrite Hs in Hs'. Qed.

(** What the API server's answers say. *)
Lemma api_get w n r w' : api w (FGet n r) w' → w' = w ∧ match r with Found c => fences w !! n = Some c | NotFound => fences w !! n = None | GetError _ => True end.
Proof. by inversion 1; subst. Qed.

Lemma api_create_cases w n c err w' : api w (FCreate n c err) w' →
  w' = w ∨ (fences w !! n = None ∧ w' = mkWorld (<[n := set_uid (next_uid w) c]> (fences w)) (blocklist w) (running w) (next_uid w + 1)).
Proof. inversion 1; subst; auto. Qed.

Lemma api_update_cases w n read c err w' : api w (FUpdate n read c err) w' → w' = w ∨ (fences w !! n = Some read ∧ w' = put_fence n c w).
Proof. inversion 1; subst; auto. Qed.

Lemma api_delete_cases w n r w' : api w (FDelete n r) w' → w' = w ∨ ∃ c, fences w !! n = Some c ∧ (w' = put_fence n (set_deleting c) w ∨ w' = drop_fence n w).
Proof. inversion 1; subst; eauto. Qed.

(** Deleting a spent object. *)
Lemma delete_exec w w' n r : fence_inv w → spent w n → api w (FDelete n r) w' →
  fence_inv w' ∧ spent w' n ∧ ∀ pool p, held pool p w → held pool p w'.
Proof.
  intros Hi Hsp Ha. destruct (api_delete_cases _ _ _ _ Ha) as [->|(c & Hf & Hw)]; [done|]. destruct (delete_spent_inv _ _ _ Hi Hsp Hf) as [H1 H2]. destruct Hw as [->| ->]; (split_and!; [done| |]).
  - intros c' p. cbn. rewrite lookup_insert_eq. intros [= <-] Hp. by apply (Hsp c p).
  - intros pool p Hh. eapply held_other, Hh; [|done|done]. cbn. rewrite lookup_insert_ne; [done|]. intros ->. by apply held_not_spent in Hh.
  - intros c' p. cbn. by rewrite lookup_delete_eq.
  - intros pool p Hh. eapply held_other, Hh; [|done|done]. cbn. rewrite lookup_delete_ne; [done|]. intros ->. by apply held_not_spent in Hh.
Qed.

(** ** Fence *)

(** The object read says the fence is set: it is. *)
Lemma fenced_held w p c : fence_inv w → valid_prefix p → fences w !! fenceName p = Some c → confirmed_fenced c → held (owner_of c) p w.
Proof.
  intros Hi Hv Hf Hc. pose proof (Hi (fenceName p)) as Hn. rewrite Hf in Hn. destruct (ni_cidr _ _ _ _ _ Hn c eq_refl) as (q & Hq & Hqv & Hqn). assert (q = p) as -> by (by apply fenceName_inj).
  exists c. split_and!; [done|done|apply Hc|done|by eapply ni_fenced|]. intros o Ho. rewrite Ho in Hn. destruct (op_fence o) eqn:Eo; [done|]. exfalso. by eapply unfence_op_excludes.
Qed.

Lemma fence_exec pool p w r w' : fence_inv w → valid_prefix p → exec (Fence driver clusterID secret pool p) w r w' →
  fence_inv w' ∧ (r = None → held pool p w') ∧ ∀ pool' p', held pool' p' w → held pool' p' w'.
Proof.
  intros Hi Hv (g & w1 & w2 & He & Ha & Hx). apply api_get in Ha as [-> Hg]. cbn in Hx. pose proof (env_inv _ _ He Hi) as Hi1. assert (Hh1 : ∀ pool' p', held pool' p' w → held pool' p' w1) by (intros; by eapply env_held).
  destruct g as [c| |e]; [|destruct Hx as (err & w3 & w4 & He' & Ha & Hx)|by destruct Hx as [-> ->]].
  - destruct (nf_deleting c) eqn:Ed; [by destruct Hx as [-> ->]|]. case_bool_decide as Hown; cbn in Hx; [|by destruct Hx as [-> ->]]. case_bool_decide as Hst; cbn in Hx.
    + case_bool_decide as E1; case_bool_decide as E2; cbn in Hx; destruct Hx as [-> ->]; split_and!; try done. intros _. rewrite <- Hown. by apply fenced_held.
    + case_bool_decide as E1; case_bool_decide as E2; cbn in Hx; try (by destruct Hx as [-> ->]). destruct Hx as (d & w3 & w4 & He' & Ha & Hx).
      assert (Hsp : spent w1 (fenceName p)). { eapply confirmed_spent; [done|done|]. split_and!; try done. by destruct (ni_state _ _ _ _ _ (Hi1 (fenceName p)) c Hg). }
      destruct (delete_exec _ _ _ _ (env_inv _ _ He' Hi1) (env_spent _ _ _ He' Hi1 Hsp) Ha) as (H1 & _ & H2). assert (w' = w4 ∧ r ≠ None) as [-> Hr] by (by destruct d; destruct Hx as [-> ->]).
      split_and!; [done|done|]. intros pool' p' Hh. eapply H2, env_held; eauto.
  - pose proof (env_inv _ _ He' Hi1) as Hi3. assert (w' = w4 ∧ r ≠ None) as [-> Hr] by (by destruct err; destruct Hx as [-> ->]). assert (Hh3 : ∀ pool' p', held pool' p' w → held pool' p' w3) by (intros; eapply env_held; eauto).
    destruct (api_create_cases _ _ _ _ _ Ha) as [->|[Hf ->]]; [done|]. split_and!; [by apply create_fence_inv|done|]. intros pool' p' Hh%Hh3. eapply held_other, Hh; [|done|done]. cbn. rewrite lookup_insert_ne; [done|]. intros E. destruct Hh as (c & Hf' & _). congruence.
Qed.

(** ** Release *)

(** A spent name has no valid prefix blocked. *)
Lemma spent_unblocked w p : fence_inv w → spent w (fenceName p) → valid_prefix p → p ∉ blocklist w.
Proof.
  intros Hi Hsp Hv. destruct (fences w !! fenceName p) as [c|] eqn:E; [|by eapply (ni_none _ _ _ _ _ (Hi (fenceName p)))].
  destruct (ni_cidr _ _ _ _ _ (Hi (fenceName p)) c E) as (q & Hq & Hqv & Hqn). assert (q = p) as -> by (by apply fenceName_inj). by apply (Hsp c p).
Qed.

(** Another pool's object, or another name's, is not touched. *)
Lemma unfence_held pool p pool' p' w c : fences w !! fenceName p = Some c → owner_of c = pool → pool' ≠ pool ∨ fenceName p' ≠ fenceName p →
  held pool' p' w → held pool' p' (put_fence (fenceName p) (set_state "Unfenced" c) w).
Proof.
  intros Hf Ho Hd Hh. eapply held_other, Hh; [|done|done]. cbn. rewrite lookup_insert_ne; [done|]. intros E. destruct Hd as [Hd|Hd]; [|done]. destruct Hh as (c' & Hf' & _ & _ & Ho' & _). rewrite <- E in Hf'. congruence.
Qed.

Lemma release_exec pool p w r w' : fence_inv w → exec (Release pool p) w r w' →
  fence_inv w' ∧ (r = None → valid_prefix p → p ∉ blocklist w') ∧ ∀ pool' p', pool' ≠ pool ∨ fenceName p' ≠ fenceName p → held pool' p' w → held pool' p' w'.
Proof.
  intros Hi (g & w1 & w2 & He & Ha & Hx). apply api_get in Ha as [-> Hg]. cbn in Hx. pose proof (env_inv _ _ He Hi) as Hi1. assert (Hh1 : ∀ pool' p', held pool' p' w → held pool' p' w1) by (intros; by eapply env_held).
  destruct g as [c| |e]; [|destruct Hx as [-> ->]; split_and!; auto; intros _ Hv; by eapply (ni_none _ _ _ _ _ (Hi1 (fenceName p)))|by destruct Hx as [-> ->]; split_and!; auto].
  case_bool_decide as Hown; cbn in Hx; [|by destruct Hx as [-> ->]; split_and!; auto]. case_bool_decide as Hst; cbn in Hx.
  - case_bool_decide as E1; case_bool_decide as E2; cbn in Hx; try (by destruct Hx as [-> ->]; split_and!; auto). destruct Hx as (d & w3 & w4 & He' & Ha & Hx).
    assert (Hsp : spent w1 (fenceName p)) by (eapply confirmed_spent; done).
    destruct (delete_exec _ _ _ _ (env_inv _ _ He' Hi1) (env_spent _ _ _ He' Hi1 Hsp) Ha) as (H1 & Hsp' & H2). assert (w' = w4) as -> by (by destruct d; destruct Hx as [-> ->]).
    split_and!; [done|intros _; by apply spent_unblocked|]. intros pool' p' _ Hh. eapply H2, env_held; eauto.
  - destruct Hx as (err & w3 & w4 & He' & Ha & Hx). pose proof (env_inv _ _ He' Hi1) as Hi3. assert (w' = w4 ∧ r ≠ None) as [-> Hr] by (by destruct err; destruct Hx as [-> ->]). assert (Hh3 : ∀ pool' p', held pool' p' w → held pool' p' w3) by (intros; eapply env_held; eauto).
    destruct (api_update_cases _ _ _ _ _ _ Ha) as [->|[Hf ->]]; [by split_and!; auto|]. split_and!; [by apply unfence_inv|done|]. intros pool' p' Hd Hh%Hh3. by eapply unfence_held.
Qed.

Lemma look_exec p w r w' : exec (FencedFor p) w r w' → rtc env w w'.
Proof. intros (g & w1 & w2 & He & Ha & Hx). apply api_get in Ha as [-> _]. cbn in Hx. destruct g; by destruct Hx as [_ ->]. Qed.

(** ** What lasts across calls *)

Lemma spent_other n w w' : fences w' !! n = fences w !! n → blocklist w' = blocklist w → running w' = running w → spent w n → spent w' n.
Proof. intros Hf Hb Hr Hsp c p. rewrite Hf, Hb, Hr. apply Hsp. Qed.

Lemma delete_spent w w' m n r : spent w n → api w (FDelete m r) w' → spent w' n.
Proof.
  intros Hsp Ha. destruct (api_delete_cases _ _ _ _ Ha) as [->|(c & Hf & [->| ->])]; [done| |]; (destruct (decide (m = n)) as [->|Hne]; [|eapply spent_other, Hsp; cbn; [|done|done]]).
  - intros c' p. cbn. rewrite lookup_insert_eq. intros [= <-] Hp. by apply (Hsp c p).
  - by rewrite lookup_insert_ne.
  - intros c' p. cbn. by rewrite lookup_delete_eq.
  - by rewrite lookup_delete_ne.
Qed.

(** A fence under another name. *)
Lemma fence_spent pool p n w r w' : fence_inv w → fenceName p ≠ n → exec (Fence driver clusterID secret pool p) w r w' → spent w n → spent w' n.
Proof.
  intros Hi Hne (g & w1 & w2 & He & Ha & Hx) Hsp. apply api_get in Ha as [-> Hg]. cbn in Hx. pose proof (env_inv _ _ He Hi) as Hi1. apply (env_spent _ _ _ He Hi) in Hsp.
  destruct g as [c| |e]; [repeat (case_match; cbn in Hx; try by destruct Hx as [_ ->])|destruct Hx as (err & w3 & w4 & He' & Ha & Hx)|by destruct Hx as [_ ->]].
  - destruct Hx as (d & w3 & w4 & He' & Ha & Hx). apply (env_spent _ _ _ He' Hi1) in Hsp. assert (w' = w4) as -> by (by destruct d; destruct Hx as [_ ->]). by eapply delete_spent.
  - apply (env_spent _ _ _ He' Hi1) in Hsp. assert (w' = w4) as -> by (by destruct err; destruct Hx as [_ ->]). destruct (api_create_cases _ _ _ _ _ Ha) as [->|[Hf ->]]; [done|]. eapply spent_other, Hsp; cbn; [by rewrite lookup_insert_ne|done|done].
Qed.

Lemma release_spent pool p n w r w' : fence_inv w → exec (Release pool p) w r w' → spent w n → spent w' n.
Proof.
  intros Hi (g & w1 & w2 & He & Ha & Hx) Hsp. apply api_get in Ha as [-> Hg]. cbn in Hx. pose proof (env_inv _ _ He Hi) as Hi1. apply (env_spent _ _ _ He Hi) in Hsp.
  destruct g as [c| |e]; [|by destruct Hx as [_ ->]..]. case_match; cbn in Hx; [by destruct Hx as [_ ->]|]. case_bool_decide as Hst; cbn in Hx.
  - case_match; cbn in Hx; [by destruct Hx as [_ ->]|]. destruct Hx as (d & w3 & w4 & He' & Ha & Hx). apply (env_spent _ _ _ He' Hi1) in Hsp. assert (w' = w4) as -> by (by destruct d; destruct Hx as [_ ->]). by eapply delete_spent.
  - destruct Hx as (err & w3 & w4 & He' & Ha & Hx). apply (env_spent _ _ _ He' Hi1) in Hsp. assert (w' = w4) as -> by (by destruct err; destruct Hx as [_ ->]). destruct (api_update_cases _ _ _ _ _ _ Ha) as [->|[Hf ->]]; [done|].
    destruct (decide (fenceName p = n)) as [<-|Hne]; [|eapply spent_other, Hsp; cbn; [by rewrite lookup_insert_ne|done|done]]. pose proof (env_inv _ _ He' Hi1 (fenceName p)) as Hn. destruct (ni_cidr _ _ _ _ _ Hn c Hf) as (q & Hq & _). by destruct (Hsp c q Hf Hq).
Qed.

(** A release that is done leaves the name spent. *)
Lemma released_spent pool p w w' : fence_inv w → exec (Release pool p) w None w' → spent w' (fenceName p).
Proof.
  intros Hi (g & w1 & w2 & He & Ha & Hx). apply api_get in Ha as [-> Hg]. cbn in Hx. pose proof (env_inv _ _ He Hi) as Hi1.
  destruct g as [c| |e]; [|destruct Hx as [_ ->]; intros c q Hf; congruence|by destruct Hx]. case_match; cbn in Hx; [by destruct Hx|]. case_bool_decide as Hst; cbn in Hx.
  - case_bool_decide as E1; case_bool_decide as E2; cbn in Hx; try by destruct Hx. destruct Hx as (d & w3 & w4 & He' & Ha & Hx). assert (w' = w4) as -> by (by destruct d; destruct Hx as [_ ->]). eapply delete_spent, Ha. eapply env_spent, confirmed_spent; done.
  - destruct Hx as (err & w3 & w4 & He' & Ha & Hx). by destruct err; destruct Hx.
Qed.

(** ** Sequences of calls *)

(** A call to the fencer, with its answer. *)
Inductive Call :=
  | CallFence (pool p : string) (r : option FenceError)
  | CallRelease (pool p : string) (r : option FenceError)
  | CallFencedFor (p : string) (r : string + (string * bool)).

Definition call_exec (c : Call) (w w' : World) : Prop :=
  match c with
  | CallFence pool p r => exec (Fence driver clusterID secret pool p) w r w'
  | CallRelease pool p r => exec (Release pool p) w r w'
  | CallFencedFor p r => exec (FencedFor p) w r w'
  end.

(** A fence is asked for on a valid prefix. *)
Definition wf_call (c : Call) : Prop := match c with CallFence _ p _ => valid_prefix p | _ => True end.

Inductive calls_run : World → list Call → World → Prop :=
| calls_done w w' : rtc env w w' → calls_run w [] w'
| calls_next w c w1 cs w' : call_exec c w w1 → calls_run w1 cs w' → calls_run w (c :: cs) w'.

Definition releases (pool p : string) (c : Call) : Prop := match c with CallRelease pool' p' _ => pool' = pool ∧ fenceName p' = fenceName p | _ => False end.
Definition fence_of (p : string) (c : Call) : Prop := match c with CallFence _ p' _ => p' = p | _ => False end.

Lemma call_inv c w w' : call_exec c w w' → wf_call c → fence_inv w → fence_inv w'.
Proof. intros Hc Hv Hi. destruct c as [pool' q r|pool' q r|q r]; cbn in Hc; [by destruct (fence_exec _ _ _ _ _ Hi Hv Hc)|by destruct (release_exec _ _ _ _ _ Hi Hc)|]. apply look_exec in Hc. by eapply env_inv. Qed.

Lemma call_held c pool p w w' : call_exec c w w' → wf_call c → fence_inv w → ¬ releases pool p c → held pool p w → held pool p w'.
Proof.
  intros Hc Hv Hi Hn Hh. destruct c as [pool' q r|pool' q r|q r]; cbn in *.
  - destruct (fence_exec _ _ _ _ _ Hi Hv Hc) as (_ & _ & H). by apply H.
  - destruct (release_exec _ _ _ _ _ Hi Hc) as (_ & _ & H). apply H; [|done]. destruct (decide (pool = pool')) as [->|]; [|by left]. right. intros E. by apply Hn.
  - eapply env_held; [exact (look_exec _ _ _ _ Hc)|done|done].
Qed.

Lemma call_spent c p w w' : call_exec c w w' → wf_call c → fence_inv w → valid_prefix p → ¬ fence_of p c → spent w (fenceName p) → spent w' (fenceName p).
Proof.
  intros Hc Hq Hi Hv Hn Hsp. destruct c as [pool' q r|pool' q r|q r]; cbn in *.
  - eapply fence_spent; [exact Hi| |exact Hc|exact Hsp]. intros E. by apply Hn, fenceName_inj.
  - exact (release_spent _ _ _ _ _ _ Hi Hc Hsp).
  - eapply env_spent; [exact (look_exec _ _ _ _ Hc)|done|done].
Qed.

Lemma run_held pool p cs w w' : calls_run w cs w' → Forall wf_call cs → fence_inv w → Forall (λ c, ¬ releases pool p c) cs → held pool p w → held pool p w'.
Proof. induction 1 as [w w' He|w c w1 cs w' Hc _ IH]; intros Hwf Hi Hcs Hh; [by eapply env_held|]. apply Forall_cons in Hcs as [Hn Hcs], Hwf as [Hv Hwf]. apply IH; [done|by eapply call_inv|done|by eapply call_held]. Qed.

Lemma run_spent p cs w w' : calls_run w cs w' → Forall wf_call cs → fence_inv w → valid_prefix p → Forall (λ c, ¬ fence_of p c) cs → spent w (fenceName p) → spent w' (fenceName p) ∧ fence_inv w'.
Proof. induction 1 as [w w' He|w c w1 cs w' Hc _ IH]; intros Hwf Hi Hv Hcs Hh; [split; [by eapply env_spent|by eapply env_inv]|]. apply Forall_cons in Hcs as [Hn Hcs], Hwf as [Hq Hwf]. apply IH; [done|by eapply call_inv|done|done|by eapply call_spent]. Qed.

(** Runs in sequence. *)
Lemma run_env w w1 cs w' : rtc env w w1 → calls_run w1 cs w' → calls_run w cs w'.
Proof.
  intros He Hr. destruct Hr as [w1 w' He'|w1 c w2 cs w' Hc Hr]; [apply calls_done; by etrans|]. eapply calls_next, Hr.
  destruct c as [pool p r|pool p r|p r]; destruct Hc as (x & v1 & v2 & He' & Hx); exists x, v1, v2; (split; [by etrans|done]).
Qed.

Lemma calls_run_app w cs1 w1 cs2 w' : calls_run w cs1 w1 → calls_run w1 cs2 w' → calls_run w (cs1 ++ cs2) w'.
Proof. induction 1 as [w w1 He|w c w2 cs w1 Hc _ IH]; intros Hr; [by eapply run_env|]. eapply calls_next, IH; done. Qed.

(** The run up to a call. *)
Lemma run_split cs1 c cs2 w w' : calls_run w (cs1 ++ c :: cs2) w' → Forall wf_call (cs1 ++ c :: cs2) → fence_inv w → ∃ w1 w2, fence_inv w1 ∧ call_exec c w1 w2 ∧ fence_inv w2 ∧ calls_run w2 cs2 w' ∧ Forall wf_call cs2.
Proof.
  revert w. induction cs1 as [|c1 cs1 IH]; cbn; intros w Hr [Hv Hwf]%Forall_cons Hi; inversion Hr as [|? ? w1 ? ? Hc Hrest]; subst; [|by eapply IH; [| |eapply call_inv]]. exists w, w1. split_and!; try done. by eapply call_inv.
Qed.

(** A confirmed fence lasts. *)
Lemma fenced_run cs1 pool p cs2 w w' : fence_inv w → calls_run w (cs1 ++ CallFence pool p None :: cs2) w' → Forall wf_call (cs1 ++ CallFence pool p None :: cs2) →
  Forall (λ c, ¬ releases pool p c) cs2 → held pool p w'.
Proof.
  intros Hi Hr Hwf Hcs. assert (Hv : valid_prefix p) by (by apply Forall_app in Hwf as [_ [Hv _]%Forall_cons]). destruct (run_split _ _ _ _ _ Hr Hwf Hi) as (w1 & w2 & Hi1 & Hc & Hi2 & Hr2 & Hwf2).
  eapply run_held; [exact Hr2|exact Hwf2|exact Hi2|exact Hcs|]. destruct (fence_exec _ _ _ _ _ Hi1 Hv Hc) as (_ & H & _). by apply H.
Qed.

(** So does a confirmed release. *)
Lemma released_run cs1 pool p cs2 w w' : fence_inv w → calls_run w (cs1 ++ CallRelease pool p None :: cs2) w' → Forall wf_call (cs1 ++ CallRelease pool p None :: cs2) → valid_prefix p →
  Forall (λ c, ¬ fence_of p c) cs2 → p ∉ blocklist w'.
Proof.
  intros Hi Hr Hwf Hv Hcs. destruct (run_split _ _ _ _ _ Hr Hwf Hi) as (w1 & w2 & Hi1 & Hc & Hi2 & Hr2 & Hwf2).
  destruct (run_spent p cs2 w2 w') as [Hsp Hi']; [exact Hr2|exact Hwf2|exact Hi2|exact Hv|exact Hcs|exact (released_spent _ _ _ _ Hi1 Hc)|]. by apply spent_unblocked.
Qed.

End calls.

(** A world without fences of the dispatcher. *)
Definition unfenced (w : World) : Prop := fences w = ∅ ∧ running w = ∅ ∧ ∀ p, valid_prefix p → p ∉ blocklist w.

Lemma unfenced_inv w : unfenced w → fence_inv w.
Proof. intros (Hf & Hr & Hb) n. rewrite Hf, Hr, !lookup_empty. split; try done. intros p _ Hv _. by apply Hb. Qed.

(** C9. The storage fencer is sound whatever csi-addons does between and during its
    calls, and whatever answers of the API server are lost.  From a world with nothing
    fenced, once [Fence] has confirmed a pool's prefix, and until that pool releases it,
    Ceph blocks the prefix and the fence is recorded as the pool's.  Once [Release] has
    confirmed a prefix, and until somebody fences it again, Ceph does not block it. *)
Theorem storage_fence_sound (env : World → World → Prop) (driver clusterID : string) (secret : string * string) (w w' : World) (cs1 cs2 : list Call) (pool p : string) :
  (∀ w w', env w w' → csi_step w w') → unfenced w → Forall wf_call (cs1 ++ cs2) → valid_prefix p →
  (calls_run env driver clusterID secret w (cs1 ++ CallFence pool p None :: cs2) w' → Forall (λ c, ¬ releases pool p c) cs2 → held pool p w') ∧
  (calls_run env driver clusterID secret w (cs1 ++ CallRelease pool p None :: cs2) w' → Forall (λ c, ¬ fence_of p c) cs2 → p ∉ blocklist w').
Proof.
  intros Henv Hu [Hwf1 Hwf2]%Forall_app Hv. apply unfenced_inv in Hu. split; intros Hr Hcs.
  - eapply (fenced_run env Henv driver clusterID secret); [exact Hu|exact Hr| |exact Hcs]. apply Forall_app. split; [done|by apply Forall_cons].
  - eapply (released_run env Henv driver clusterID secret); [exact Hu|exact Hr| |exact Hv|exact Hcs]. apply Forall_app. split; [done|by apply Forall_cons].
Qed.

(** ** A run *)
Module fence_example.

Definition prefix : string := "fd00:b::/32".
Definition sys := calls_run csi_step "rbd.csi.ceph.com" "ceph" ("rook-ceph", "provisioner").

Definition idle : World := mkWorld ∅ ∅ ∅ 0.
Definition object (uid : Z) (state result message : string) : NetworkFence := set_status result message (set_uid uid (obj "rbd.csi.ceph.com" "ceph" ("rook-ceph", "provisioner") "west" prefix state)).
Definition world (c : NetworkFence) (bl : gset string) (r : gmap string Op) : World := mkWorld {[ fenceName prefix := c ]} bl r 1.

Lemma prefix_valid : valid_prefix prefix.
Proof. split; [done|by vm_compute]. Qed.

(** csi-addons carries out what the object says. *)
Lemma carried_out (state result message : string) (bl : gset string) :
  let o := mkOp 0 (bool_decide (state = "Fenced")) [prefix] true in
  rtc csi_step (world (object 0 state result message) bl ∅)
    (world (object 0 state "Succeeded" (op_message o)) (if op_fence o then bl ∪ {[ prefix ]} ∪ ∅ else bl ∖ ({[ prefix ]} ∪ ∅)) ∅).
Proof.
  intros o. set (w := world _ bl ∅). set (o0 := mkOp 0 (op_fence o) [prefix] false).
  eapply rtc_l; [apply (csi_start w (fenceName prefix) (object 0 state result message)); [apply lookup_singleton_eq|done|done]|].
  eapply rtc_l; [apply (csi_apply _ (fenceName prefix) o0); [apply lookup_insert_eq|done]|].
  eapply rtc_l; [eapply (csi_report _ (fenceName prefix) o (object 0 state result message)); [apply lookup_insert_eq|done|apply lookup_singleton_eq|done]|].
  unfold drop_op, put_fence, world; cbn. rewrite !insert_insert_eq, insert_singleton_eq, delete_insert_eq. cbn. case_bool_decide; rewrite ?(assoc_L (∪)); apply rtc_refl.
Qed.

Definition fenced : World := world (object 0 "Fenced" "Succeeded" fenceSucceededMsg) (∅ ∪ {[ prefix ]} ∪ ∅) ∅.
Definition unfencing : World := world (object 0 "Unfenced" "Succeeded" fenceSucceededMsg) (∅ ∪ {[ prefix ]} ∪ ∅) ∅.
Definition released : World := world (object 0 "Unfenced" "Succeeded" unfenceSucceededMsg) ((∅ ∪ {[ prefix ]} ∪ ∅) ∖ ({[ prefix ]} ∪ ∅)) ∅.

(** The fence is created, and the next call finds it set. *)
Lemma fence_run : sys idle [CallFence "west" prefix (Some Created); CallFence "west" prefix None] fenced.
Proof.
  eapply calls_next; [do 3 eexists; split_and!; [apply rtc_refl|by apply api_get_none|]; do 3 eexists; split_and!; [apply rtc_refl|by apply (api_create _ _ _ None)|done]|].
  eapply calls_next; [do 3 eexists; split_and!; [apply (carried_out "Fenced" "" "" ∅)|by apply api_get_found, lookup_singleton_eq|by split; vm_compute]|]. apply calls_done, rtc_refl.
Qed.

(** The fence is set to be released, and a later call finds it released. *)
Lemma release_run : calls_run csi_step "rbd.csi.ceph.com" "ceph" ("rook-ceph", "provisioner") fenced [CallRelease "west" prefix (Some SetUnfenced); CallRelease "west" prefix None] (drop_fence (fenceName prefix) released).
Proof.
  eapply calls_next with unfencing; [do 3 eexists; split_and!; [apply rtc_refl|by apply api_get_found, lookup_singleton_eq|]; do 3 eexists; split_and!; [apply rtc_refl|apply (api_update _ _ _ _ None), lookup_singleton_eq|split; [done|]; unfold put_fence, unfencing, world; cbn; by rewrite insert_singleton_eq]|].
  eapply calls_next; [do 3 eexists; split_and!; [apply (carried_out "Unfenced" "Succeeded" fenceSucceededMsg)|by apply api_get_found, lookup_singleton_eq|]; do 3 eexists; split_and!; [apply rtc_refl|eapply (api_delete_now _ _ _ (Found ())); [apply lookup_singleton_eq|discriminate]|by split]|]. apply calls_done, rtc_refl.
Qed.

Lemma storage_fence_sound_witness : held "west" prefix fenced ∧ prefix ∉ blocklist (drop_fence (fenceName prefix) released).
Proof.
  assert (Hu : unfenced idle) by (split_and!; [reflexivity|reflexivity|intros p _; apply not_elem_of_empty]). split.
  - apply (storage_fence_sound csi_step "rbd.csi.ceph.com" "ceph" ("rook-ceph", "provisioner") idle fenced [CallFence "west" prefix (Some Created)] [] "west" prefix (λ _ _ H, H) Hu ltac:(cbn [app]; repeat (first [apply Forall_nil_2 | apply Forall_cons_2; [first [exact prefix_valid | exact I]|]])) prefix_valid); [exact fence_run|constructor].
  - apply (storage_fence_sound csi_step "rbd.csi.ceph.com" "ceph" ("rook-ceph", "provisioner") idle _ [CallFence "west" prefix (Some Created); CallFence "west" prefix None; CallRelease "west" prefix (Some SetUnfenced)] [] "west" prefix (λ _ _ H, H) Hu ltac:(cbn [app]; repeat (first [apply Forall_nil_2 | apply Forall_cons_2; [first [exact prefix_valid | exact I]|]])) prefix_valid); [|constructor].
    exact (calls_run_app _ _ _ _ _ _ _ _ _ fence_run release_run).
Defined.

End fence_example.
