(* ===== verification/Failover.v ===== *)
(** * Failover of a lost pool

    The failover controller of the dispatch ([dispatch/pkg/failover]): when a pool is
    lost, its declared underlay prefix is fenced at the storage and at the route
    reflector, and only then are its virtual machines bound to other pools; when the pool
    is back, drained, and its prefix no longer announces addresses that moved, the fences
    are lifted.  A pass is a program over the calls of [Dispatch], for every answer. *)

From stdpp Require Import pretty.
From S2P Require Import Prelude Net Interact Dispatch Scheduler Fence.
Import netip dispatch scheduler fence.

Open Scope Z_scope.

#[export] Instance RouteKey_countable : Countable RouteKey.
Proof. apply (inj_countable' (fun k => (rk_vni k, rk_prefix k)) (fun p => mkRouteKey p.1 p.2)). by intros []. Defined.

Module failover.

Definition routeRecheck : Z := 5000000000.
Definition defaultHealthStale : Z := 30000000000.
Definition routeBatch : nat := 5000.
Definition ConditionFenceReleaseBlocked : string := "FenceReleaseBlocked".

Definition PoolNamespace (clusterName : string) : string := "pool-" +:+ clusterName.

(** ** The route gate *)

Definition SourceNamespaceAnnotation : string := "compiled.ectobase.dev/source-namespace".
Definition SourceNameAnnotation : string := "compiled.ectobase.dev/source-name".

(** [strings.TrimPrefix] *)
Definition TrimPrefix (s prefix : string) : string :=
  if String.prefix prefix s then String.substring (String.length prefix) (String.length s - String.length prefix) s else s.

Definition describeTwin (t : CompiledNIC) : string :=
  let src := default "" (cn_annotations t !! SourceNamespaceAnnotation) +:+ "/" +:+ default "" (cn_annotations t !! SourceNameAnnotation) in
  let src := if bool_decide (src = "/") then cn_namespace t +:+ "/" +:+ cn_name t else src in
  let pool := if bool_decide (cn_cluster t = "") then TrimPrefix (cn_namespace t) (PoolNamespace "") else cn_cluster t in
  "nic " +:+ src +:+ " on pool " +:+ pool.

Definition hostPrefix (ip : string) : option string :=
  match net.ParseIP ip with
  | None => None
  | Some parsed => match net.To4 parsed with Some _ => Some (ip +:+ "/32") | None => Some (ip +:+ "/128") end
  end.

(** The keys in the order they are met, and what each belongs to. *)
Definition place_ip (t : CompiledNIC) (acc : list RouteKey * gmap RouteKey string) (ip : string) : list RouteKey * gmap RouteKey string :=
  match hostPrefix ip with
  | None => acc
  | Some prefix =>
      let k := mkRouteKey (cn_vni t) prefix in
      match acc.2 !! k with
      | Some _ => acc
      | None => (acc.1 ++ [k], <[k := describeTwin t]> acc.2)
      end
  end.

Definition place_twin (here : string) (acc : list RouteKey * gmap RouteKey string) (t : CompiledNIC) : list RouteKey * gmap RouteKey string :=
  if bool_decide (cn_namespace t = here) || (cn_vni t <=? 0) then acc else foldl (place_ip t) acc (OverlayIPs t).

Definition describe_holding (owner : gmap RouteKey string) (h : RouteHolding) : string :=
  let node := if bool_decide (rh_origin h = "") then "an unnamed node" else rh_origin h in
  "vni " +:+ pretty (rk_vni (rh_key h)) +:+ " " +:+ rk_prefix (rh_key h) +:+ " from node " +:+ node +:+ " via " +:+ rh_nexthop h +:+ " (" +:+ default "" (owner !! rh_key h) +:+ ")".

Definition describeHeld (held : list RouteHolding) (owner : gmap RouteKey string) : string :=
  let shown := 5%nat in
  let parts := sort_strings (describe_holding owner <$> held) in
  let parts := if (shown <? length parts)%nat then take shown parts ++ ["and " +:+ pretty (length held - shown)%nat +:+ " more"] else parts in
  String.concat ", " parts.

(** [keys] cut into batches; every round takes at least one key, so [length keys] rounds
    are enough. *)
Fixpoint batches (rounds n : nat) (keys : list RouteKey) : list (list RouteKey) :=
  match rounds, keys with
  | O, _ | _, [] => []
  | S rounds, _ => take n keys :: batches rounds n (drop n keys)
  end.

(** ** What is lost, and what to fence *)

Section pools.
Context {Q : Type}.

Definition poolLost (pool : ClusterPool Q) (now threshold : Z) : bool :=
  if negb (bool_decide (Phase pool = PhaseUnknown)) then false
  else match p_lease pool ≫= RenewTime with
       | None => false
       | Some t => threshold <? time_sub now t
       end.

Definition inside (agg : Prefix) (p : string) : bool :=
  match ParsePrefix p with
  | Some np => (p_bits agg <=? p_bits np) && Contains agg (p_addr np)
  | None => false
  end.

Definition outside_of (agg : Prefix) (outside : list string) (p : string) : list string :=
  if inside agg p then outside
  else if negb (bool_decide (p = "")) && negb (bool_decide (p ∈ outside)) then outside ++ [p] else outside.

(** The targets, whether they cover the pool, and if not why. *)
Definition aggregateCoverage (pool : ClusterPool Q) (aggregate : string) : list string * bool * Why :=
  match ParsePrefix aggregate with
  | None => ([], false, NotACIDR aggregate)
  | Some agg =>
      match foldl (outside_of (Masked agg)) [] (NodePrefixes pool) with
      | [] => ([aggregate], true, NoReason)
      | outside => ([aggregate], false, OutsideAggregate aggregate outside)
      end
  end.

Definition fenceCoverage (pool : ClusterPool Q) : list string * bool * Why :=
  let p := UnderlayPrefix pool in
  if bool_decide (p = "") then ([], false, NoUnderlayPrefix (p_name pool))
  else match ValidateUnderlayPrefix p with
       | [] => aggregateCoverage pool p
       | _ => ([], false, InvalidUnderlayPrefix (p_name pool) p)
       end.

Definition set_fenced (l : list string) (p : ClusterPool Q) : ClusterPool Q :=
  mkPool (p_name p) (p_labels p) (p_generation p) (UnderlayPrefix p) (Phase p) (p_conditions p) (Allocatable p) (p_lease p) (NodePrefixes p) l (NodeDrain p).

Definition set_drain (l : list NodeDrainStatus) (p : ClusterPool Q) : ClusterPool Q :=
  mkPool (p_name p) (p_labels p) (p_generation p) (UnderlayPrefix p) (Phase p) (p_conditions p) (Allocatable p) (p_lease p) (NodePrefixes p) (FencedPrefixes p) l.

(** Reports whether the status changed. *)
Definition setReleaseBlocked {cs : Conditions} (pool : ClusterPool Q) (reason : string) (blocked : list Held) : ClusterPool Q * bool :=
  let set c := let '(l, changed) := SetStatusCondition (p_conditions pool) c in (set_conditions l pool, changed) in
  match blocked with
  | _ :: _ => set (mkCondition ConditionFenceReleaseBlocked ConditionTrue reason (HeldBy blocked) (p_generation pool))
  | [] =>
      if IsStatusConditionTrue (p_conditions pool) ConditionFenceReleaseBlocked
      then set (mkCondition ConditionFenceReleaseBlocked ConditionFalse "RoutesWithdrawn" NothingHeld (p_generation pool))
      else (pool, false)
  end.

End pools.

(** ** The pass *)

Section pass.
Context {ro : RangeOrder} {Q Sel : Type} `{Quantity Q} {cs : Conditions}.
Context (as_selector : Sel → string + (gmap string string → bool)).
(** The reconciler: whether there is a route reflector, and the thresholds. *)
Context (Routes : bool) (FailoverThreshold HealthStale : Z).

Abbreviation M := (prog (Event Q Sel)).

Definition placedElsewhere (lostPool : string) : M (string + (list RouteKey * gmap RouteKey string)) :=
  r ← ask EListNICs;
  match r with
  | inl e => mret (inl ("list compilednics: " +:+ e))
  | inr twins => mret (inr (foldl (place_twin (PoolNamespace lostPool)) ([], ∅) twins))
  end.

(** Ask batch by batch, up to the first that fails. *)
Fixpoint ask_batches (prefix : string) (l : list (list RouteKey)) (held : list RouteHolding) : M (string + list RouteHolding) :=
  match l with
  | [] => mret (inr held)
  | batch :: l =>
      r ← ask (EAnnounced prefix batch);
      match r with
      | inl e => mret (inl e)
      | inr hs => ask_batches prefix l (held ++ hs)
      end
  end.

(** Nothing, or the reason and what holds the release. *)
Definition routesGone (prefix : string) (keys : list RouteKey) (owner : gmap RouteKey string) : M (option (string * Held)) :=
  match keys with
  | [] => mret None
  | _ =>
      if negb Routes then mret (Some ("RouteCheckFailed", NoReflector prefix))
      else
        r ← ask_batches prefix (batches (length keys) routeBatch keys) [];
        match r with
        | inl e => mret (Some ("RouteCheckFailed", AskFailed prefix e))
        | inr [] => mret None
        | inr held => mret (Some ("RoutesStillAnnounced", StillAnnounced prefix (describeHeld held owner)))
        end
  end.

(** The fences of the pool, and those whose record cannot be read. *)
Definition ownFences (pool : ClusterPool Q) : M (list string * gset string) :=
  each (fun p '(own, unverified) =>
    r ← ask (EFencedFor p);
    match r with
    | inl _ => mret (own ++ [p], {[p]} ∪ unverified)
    | inr (holder, found) => if found && bool_decide (holder = p_name pool) then mret (own ++ [p], unverified) else mret (own, unverified)
    end) (FencedPrefixes pool) ([], ∅).

(** What remains fenced, what holds it, and the reason. *)
Record Releasing := mkReleasing { remain : list string; blocked : list Held; reason : string }.

Definition keep (p : string) (st : Releasing) : Releasing := mkReleasing (remain st ++ [p]) (blocked st) (reason st).

Definition release_one (pool : ClusterPool Q) (drained unverified : gset string) (lookup : string + (list RouteKey * gmap RouteKey string)) (p : string) (st : Releasing) : M Releasing :=
  if bool_decide (p ∉ drained) || bool_decide (p ∈ unverified) then mret (keep p st)
  else match lookup with
       | inl e => mret (mkReleasing (remain st ++ [p]) (blocked st ++ [LookupFailed p e]) "RouteCheckFailed")
       | inr (keys, owner) =>
           gone ← routesGone p keys owner;
           match gone with
           | Some (why, msg) => mret (mkReleasing (remain st ++ [p]) (blocked st ++ [msg]) (if bool_decide (reason st = "RouteCheckFailed") then reason st else why))
           | None =>
               err ← ask (ENetworkRelease p);
               match err with
               | Some _ => mret (keep p st)
               | None =>
                   err ← ask (EStorageRelease (p_name pool) p);
                   match err with Some _ => mret (keep p st) | None => mret st end
               end
           end
       end.

Definition drained_of (pool : ClusterPool Q) (reachable : bool) : gset string :=
  list_to_set (omap (fun d => if Drained d && reachable then Some (nd_prefix d) else None) (NodeDrain pool)).

(** The pool as it is written, whether a release waits on routes, and the error of the
    write. *)
Definition releaseDrained (pool : ClusterPool Q) (reachable : bool) : M (ClusterPool Q * bool * option string) :=
  '(own, unverified) ← ownFences pool;
  let drained := drained_of pool reachable in
  lookup ← (if existsb (fun p => bool_decide (p ∈ drained) && bool_decide (p ∉ unverified)) own then placedElsewhere (p_name pool) else mret (inr ([], ∅)));
  st ← each (release_one pool drained unverified lookup) own (mkReleasing [] [] "");
  let changed := negb (bool_decide (FencedPrefixes pool = remain st)) in
  let pool := if changed then set_fenced (remain st) pool else pool in
  let '(pool, set) := setReleaseBlocked pool (reason st) (blocked st) in
  let waiting := negb (bool_decide (blocked st = [])) in
  if negb (changed || set) then mret (pool, waiting, None)
  else err ← ask (EUpdatePoolStatus pool); mret (pool, waiting, err).

Definition forget (d : NodeDrainStatus) : NodeDrainStatus := mkNodeDrain (nd_prefix d) false.

Definition forgetDrain (pool : ClusterPool Q) : M (ClusterPool Q * option string) :=
  if negb (existsb Drained (NodeDrain pool)) then mret (pool, None)
  else
    let pool := set_drain (forget <$> NodeDrain pool) pool in
    err ← ask (EUpdatePoolStatus pool);
    mret (pool, option_map (fun e => "forget drain report of lost pool " +:+ p_name pool +:+ ": " +:+ e) err).

Definition add_fenced (l : list string) (p : string) : list string := if bool_decide (p ∈ l) then l else l ++ [p].

Definition setFencedPrefixes (pool : ClusterPool Q) (fenced : list string) : M (ClusterPool Q * option string) :=
  let pool := set_fenced (foldl add_fenced (FencedPrefixes pool) fenced) pool in
  err ← ask (EUpdatePoolStatus pool);
  mret (pool, err).

Definition block (vm : VirtualMachine Q Sel) (w : Why) : M (option string) :=
  ask (EUpdateVMStatus (vm_condition (mkCondition "FailoverBlocked" ConditionTrue "FenceUnconfirmed" (BlockedBy w) (vm_generation vm)) vm)).

(** Up to the first that cannot be written. *)
Fixpoint block_all (lostPool : string) (w : Why) (vms : list (VirtualMachine Q Sel)) : M (option string) :=
  match vms with
  | [] => mret None
  | vm :: vms =>
      if negb (bool_decide (vm_cluster vm = lostPool)) then block_all lostPool w vms
      else
        err ← block vm w;
        match err with Some e => mret (Some e) | None => block_all lostPool w vms end
  end.

Definition blockPoolVMs (lostPool : string) (w : Why) : M (list string) :=
  r ← ask EListVMs;
  match r with
  | inl e => mret ["list vms: " +:+ e]
  | inr vms => err ← block_all lostPool w vms; mret (option_list err)
  end.

Definition mark_released (t : CompiledVM) : CompiledVM := mkCompiledVM (cv_namespace t) (cv_name t) (cv_cluster t) (cv_deleting t) true.

Definition release_twin (twin : CompiledVM) (errs : list string) : M (list string) :=
  if negb (cv_deleting twin) || Released twin then mret errs
  else
    r ← ask (EPatchTwin twin (mark_released twin));
    match r with
    | GetError e => mret (errs ++ ["release " +:+ cv_namespace twin +:+ "/" +:+ cv_name twin +:+ ": " +:+ e])
    | _ => mret errs
    end.

Definition releaseFencedTwins (lostPool : string) : M (list string) :=
  r ← ask (EListTwins (PoolNamespace lostPool));
  match r with
  | inl e => mret ["list compiledvms of " +:+ lostPool +:+ ": " +:+ e]
  | inr twins => each release_twin twins []
  end.

Definition rebind_one (vp : VirtualMachine Q Sel * Placement) (errs : list string) : M (list string) :=
  let '(vm, pl) := vp in
  match pl with
  | inl why =>
      err ← block vm (NoTarget why);
      match err with Some e => mret (errs ++ ["block vm " +:+ vm_name vm +:+ ": " +:+ e]) | None => mret errs end
  | inr (pool, violated) =>
      let vm := bind_vm pool vm in
      r ← ask (EUpdateVM vm);
      match r with
      | inl e => mret (errs ++ ["rebind vm " +:+ vm_name vm +:+ ": " +:+ e])
      | inr gen =>
          let vm := set_generation gen vm in
          let vm := vm_condition (mkCondition "FailoverBlocked" ConditionFalse "FailedOver" (FailedOverTo pool violated) gen) vm in
          let vm := vm_condition (mkCondition "Scheduled" ConditionTrue "FailedOver" (BoundTo pool) gen) vm in
          err ← ask (EUpdateVMStatus vm);
          match err with Some e => mret (errs ++ ["status vm " +:+ vm_name vm +:+ ": " +:+ e]) | None => mret errs end
      end
  end.

Definition rebindPoolVMs (lostPool : string) : M (list string) :=
  r ← ask EListVMs;
  match r with
  | inl e => mret ["list vms: " +:+ e]
  | inr vms =>
      r ← ask EListPools;
      match r with
      | inl e => mret ["list pools: " +:+ e]
      | inr pools =>
          let candidates := List.filter (fun p => negb (bool_decide (p_name p = lostPool))) pools in
          let batch := List.filter (fun vm => bool_decide (vm_cluster vm = lostPool)) vms in
          each rebind_one (zip batch (ScheduleBatch as_selector batch candidates)) []
      end
  end.

(** Both fences on every target: all that is fenced, or what is and why not the rest. *)
Fixpoint fence_targets (pool : string) (targets fenced : list string) : M (list string * option Why) :=
  match targets with
  | [] => mret (fenced, None)
  | p :: targets =>
      err ← ask (EStorageFence pool p);
      match err with
      | Some e => mret (fenced, Some (StorageUnconfirmed p e))
      | None =>
          let fenced := fenced ++ [p] in
          err ← ask (ENetworkFence p);
          match err with
          | Some e => mret (fenced, Some (NetworkUnconfirmed p e))
          | None => fence_targets pool targets fenced
          end
      end
  end.

(** Block the pool's machines, and run again after the threshold. *)
Definition stay (pool : ClusterPool Q) (why : Why) : M Result :=
  errs ← blockPoolVMs (p_name pool) why;
  mret (mkResult FailoverThreshold errs).

Definition health_stale : Z := if HealthStale =? 0 then defaultHealthStale else HealthStale.

Definition fence_and_rebind (pool : ClusterPool Q) : M Result :=
  '(pool, err) ← forgetDrain pool;
  match err with
  | Some e => mret (mkResult 0 [e])
  | None =>
      let '(targets, complete, why) := fenceCoverage pool in
      match targets with
      | [] => stay pool why
      | _ =>
          '(fenced, failed) ← fence_targets (p_name pool) targets [];
          '(pool, err) ← setFencedPrefixes pool fenced;
          match failed, err, complete with
          | Some failed, _, _ => stay pool failed
          | None, Some e, _ => mret (mkResult 0 [e])
          | None, None, false => stay pool why
          | None, None, true =>
              releaseErr ← releaseFencedTwins (p_name pool);
              rebindErr ← rebindPoolVMs (p_name pool);
              mret (mkResult FailoverThreshold (releaseErr ++ rebindErr))
          end
      end
  end.

(** [failover.Reconciler.Reconcile] *)
Definition Reconcile (name : string) : M Result :=
  r ← ask (EGetPool name);
  match r with
  | Found pool =>
      now ← ask ENow;
      '(pool, waiting, err) ← releaseDrained pool (Reachable pool now health_stale);
      match err with
      | Some e => mret (mkResult 0 [e])
      | None =>
          now ← ask ENow;
          if negb (poolLost pool now FailoverThreshold) then mret (mkResult (if waiting : bool then routeRecheck else FailoverThreshold) [])
          else fence_and_rebind pool
      end
  | r => mret (mkResult 0 (ignore_not_found r))
  end.

End pass.

(** ** Wake-ups *)

Definition retiredTwin (t : CompiledVM) : bool := cv_deleting t.

Definition poolOfTwin (t : CompiledVM) : list string := if bool_decide (cv_cluster t = "") then [] else [cv_cluster t].

End failover.
