(* ===== verification/FailoverTheorems.v ===== *)
(** * Failover: theorems

    What a pass of the failover controller does, for every answer of the API server, the
    fence actuators, the route reflector and the clock, and what the passes do together
    with the storage fencer of [FenceTheorems]. *)

From S2P Require Import Prelude Net FirewallTheorems Interact Dispatch Scheduler SchedulerTheorems Fence FenceName FenceSystem FenceTheorems Failover.
Import netip dispatch scheduler fence failover.

Open Scope Z_scope.

(** ** The keys of the route gate *)

(** A route of a network interface compiled for another pool. *)
Definition elsewhere (here : string) (twins : list CompiledNIC) (k : RouteKey) : Prop :=
  ∃ t ip, t ∈ twins ∧ cn_namespace t ≠ here ∧ 0 < cn_vni t ∧ ip ∈ OverlayIPs t ∧ hostPrefix ip = Some (rk_prefix k) ∧ rk_vni k = cn_vni t.

(** The keys are those with an owner. *)
Definition keyed (acc : list RouteKey * gmap RouteKey string) : Prop := ∀ k, k ∈ acc.1 ↔ is_Some (acc.2 !! k).

Lemma place_ip_spec t acc ip : keyed acc →
  keyed (place_ip t acc ip) ∧ ∀ k, k ∈ (place_ip t acc ip).1 ↔ k ∈ acc.1 ∨ (hostPrefix ip = Some (rk_prefix k) ∧ rk_vni k = cn_vni t).
Proof.
  intros Hk. unfold place_ip. destruct (hostPrefix ip) as [pfx|]; [|naive_solver]. set (k0 := mkRouteKey (cn_vni t) pfx).
  assert (Hk0 : ∀ k : RouteKey, Some pfx = Some (rk_prefix k) ∧ rk_vni k = cn_vni t ↔ k = k0) by (intros [v q]; cbn; split; [intros [[= ->] ->]; done|by intros [= -> ->]]).
  destruct (acc.2 !! k0) as [d|] eqn:E.
  - split; [done|]. intros k. rewrite Hk0. split; [by left|]. intros [?| ->]; [done|]. apply Hk. by eexists.
  - split; intros k; cbn; rewrite elem_of_app, list_elem_of_singleton; [|by rewrite Hk0]. destruct (decide (k0 = k)) as [<-|Hne]; [rewrite lookup_insert_eq; split; [by eexists|by right]|]. rewrite lookup_insert_ne by done. rewrite <- (Hk k). naive_solver.
Qed.

Lemma place_ips_spec t ips acc : keyed acc →
  keyed (foldl (place_ip t) acc ips) ∧ ∀ k, k ∈ (foldl (place_ip t) acc ips).1 ↔ k ∈ acc.1 ∨ ∃ ip, ip ∈ ips ∧ hostPrefix ip = Some (rk_prefix k) ∧ rk_vni k = cn_vni t.
Proof.
  revert acc. induction ips as [|ip ips IH]; intros acc Hk; [cbn; split; [done|]; intros k; split; [by left|]; intros [?|(? & ?%not_elem_of_nil & _)]; done|].
  destruct (place_ip_spec t acc ip Hk) as [H1 H2]. destruct (IH _ H1) as [H3 H4]. split; [done|]. intros k. cbn [foldl]. rewrite H4, H2. setoid_rewrite elem_of_cons. naive_solver.
Qed.

Lemma elsewhere_cons here t twins k : elsewhere here (t :: twins) k ↔ elsewhere here [t] k ∨ elsewhere here twins k.
Proof.
  split.
  - intros (t' & ip & [->|Ht]%elem_of_cons & H); [left; exists t, ip; split; [by left|done]|right; by exists t', ip].
  - intros [(t' & ip & ->%list_elem_of_singleton & H)|(t' & ip & Ht & H)]; [exists t, ip; split; [by left|done]|exists t', ip; split; [by right|done]].
Qed.

Lemma placed_keys here twins acc : keyed acc →
  keyed (foldl (place_twin here) acc twins) ∧ ∀ k, k ∈ (foldl (place_twin here) acc twins).1 ↔ k ∈ acc.1 ∨ elsewhere here twins k.
Proof.
  revert acc. induction twins as [|t twins IH]; intros acc Hk; [split; [done|]; intros k; split; [by left|]; intros [?|(? & ? & ?%not_elem_of_nil & _)]; done|].
  assert (Hstep : keyed (place_twin here acc t) ∧ ∀ k, k ∈ (place_twin here acc t).1 ↔ k ∈ acc.1 ∨ elsewhere here [t] k).
  { unfold place_twin, elsewhere. setoid_rewrite list_elem_of_singleton. case_bool_decide as Hh; cbn; [split; [done|naive_solver]|]. destruct (cn_vni t <=? 0) eqn:Ev; [apply Z.leb_le in Ev; split; [done|]; naive_solver lia|]. apply Z.leb_gt in Ev.
    destruct (place_ips_spec t (OverlayIPs t) acc Hk) as [H1 H2]. split; [done|]. intros k. rewrite H2. naive_solver. }
  destruct Hstep as [H1 H2]. destruct (IH _ H1) as [H3 H4]. split; [done|]. intros k. cbn [foldl]. rewrite H4, H2, (elsewhere_cons here t twins k). tauto.
Qed.

Lemma batches_spec rounds n keys : (0 < n)%nat → (length keys ≤ rounds)%nat → concat (batches rounds n keys) = keys ∧ Forall (λ b, length b ≤ n)%nat (batches rounds n keys).
Proof.
  intros Hn. revert keys. induction rounds as [|r IH]; intros keys Hr; [destruct keys; [done|cbn in Hr; lia]|]. destruct keys as [|k keys]; [done|]. cbn [batches concat]. destruct (IH (drop n (k :: keys))) as [H1 H2]; [rewrite length_drop; cbn in *; lia|].
  rewrite H1, take_drop. split; [done|]. constructor; [rewrite length_take; lia|done].
Qed.

(** ** Coverage *)

(** The prefix a pool declares is one to fence, and holds all its nodes are known to have. *)
Definition covered {Q} (pool : ClusterPool Q) : Prop :=
  valid_prefix (UnderlayPrefix pool) ∧
  ∃ agg, ParsePrefix (UnderlayPrefix pool) = Some agg ∧ ∀ np, np ∈ NodePrefixes pool → np ≠ "" → ∃ n, ParsePrefix np = Some n ∧ ∀ a, Contains n a = true → Contains agg a = true.

Lemma valid_masked s agg : valid_prefix s → ParsePrefix s = Some agg → Masked agg = agg.
Proof.
  intros [Hne Hv] Hp. unfold ValidateUnderlayPrefix in Hv. rewrite bool_decide_false in Hv by done. rewrite Hp in Hv. destruct (Is4In6 _); [done|]. case_bool_decide; [done|]. done.
Qed.

(** A prefix is found outside, or all are inside. *)
Lemma outside_spec agg l acc : foldl (outside_of agg) acc l = [] → acc = [] ∧ ∀ np, np ∈ l → np ≠ "" → inside agg np = true.
Proof.
  revert acc. induction l as [|p l IH]; intros acc Hf; [split; [done|]; intros np ?%not_elem_of_nil; done|]. cbn in Hf. destruct (IH _ Hf) as [Ho Hl]. unfold outside_of in Ho. destruct (inside agg p) eqn:Ei.
  - split; [done|]. intros np [->|?]%elem_of_cons Hne; [done|by apply Hl].
  - destruct (decide (p = "")) as [->|Hp]; [cbn in Ho; split; [done|]; intros np [->|?]%elem_of_cons Hne; [done|by apply Hl]|]. rewrite (bool_decide_false (p = "")) in Ho by done. cbn in Ho. case_bool_decide as Hin; cbn in Ho; [subst acc; by apply not_elem_of_nil in Hin|by destruct acc].
Qed.

Lemma coverage_spec {Q} (pool : ClusterPool Q) targets complete why : fenceCoverage pool = (targets, complete, why) →
  (∀ p, p ∈ targets → p = UnderlayPrefix pool ∧ valid_prefix p) ∧ (complete = true → targets = [UnderlayPrefix pool] ∧ covered pool).
Proof.
  unfold fenceCoverage. case_bool_decide as Hne; [intros [= <- <- <-]; split; [intros p ?%not_elem_of_nil|]; done|]. destruct (ValidateUnderlayPrefix (UnderlayPrefix pool)) as [|er ers] eqn:Ev; [|intros [= <- <- <-]; split; [intros p ?%not_elem_of_nil|]; done].
  assert (Hv : valid_prefix (UnderlayPrefix pool)) by done. unfold aggregateCoverage. destruct (ParsePrefix (UnderlayPrefix pool)) as [agg|] eqn:Ep; [|intros [= <- <- <-]; split; [intros p ?%not_elem_of_nil|]; done].
  destruct (foldl _ [] _) as [|o os] eqn:Ef; intros [= <- <- <-]; (split; [intros p ->%list_elem_of_singleton; done|]); [|done]. intros _. split; [done|]. split; [done|]. exists agg. split; [done|].
  intros np Hin Hnp. rewrite (valid_masked _ _ Hv Ep) in Ef. apply (proj2 (outside_spec _ _ _ Ef) np Hin) in Hnp. unfold inside in Hnp. destruct (ParsePrefix np) as [n|]; [|done]. exists n. split; [done|]. apply andb_true_iff in Hnp as [Hb Hc]. intros a. apply Contains_trans; [lia|done].
Qed.

(** ** One pass *)

Section pass.
Context {ro : RangeOrder} {Q Sel : Type} `{QuantityLaws Q} {cs : Conditions}.
Context (as_selector : Sel → string + (gmap string string → bool)).
Context (Routes : bool) (FailoverThreshold HealthStale : Z).
Context (name : string).

Abbreviation history := (list (Event Q Sel)).

Definition is_release (e : Event Q Sel) : Prop := match e with EStorageRelease _ _ _ | ENetworkRelease _ _ => True | _ => False end.

(** Neither a fence nor a release, and no workload moves. *)
Definition quiet (e : Event Q Sel) : Prop := match e with EStorageRelease _ _ _ | ENetworkRelease _ _ | EStorageFence _ _ _ | ENetworkFence _ _ | EUpdateVM _ _ => False | _ => True end.

(** The question about a batch of keys, answered with nothing. *)
Definition silent (p : string) (b : list RouteKey) : Event Q Sel := EAnnounced p b (inr []).

(** What lifting a fence of [pool] on [p] waits for, in this order: the pool was read
    and is reachable, with the prefix fenced and drained; the record says the fence is
    the pool's; and no route of an address placed elsewhere is held from the prefix. *)
Definition gate (pool : ClusterPool Q) (p : string) (h : history) : Prop :=
  ∃ now nics bs,
    [EGetPool name (Found pool); ENow now; EFencedFor p (inr (p_name pool, true)); EListNICs (inr nics)] ++ (silent p <$> bs) `sublist_of` h ∧
    Reachable pool now (health_stale HealthStale) = true ∧ p ∈ FencedPrefixes pool ∧ (∃ d, d ∈ NodeDrain pool ∧ nd_prefix d = p ∧ Drained d = true) ∧
    (∀ k, elsewhere (PoolNamespace (p_name pool)) nics k → k ∈ concat bs) ∧ Forall (λ b, length b ≤ routeBatch)%nat bs.

(** The pool was read, and then found lost; since then both fences on its prefix were
    confirmed, no fence was lifted, and the machines and pools were listed. *)
Definition fenced_off (pool : ClusterPool Q) (vms : list (VirtualMachine Q Sel)) (pools : list (ClusterPool Q)) (h : history) : Prop :=
  ∃ now h1 h2, h = h1 ++ [ENow now] ++ h2 ∧ EGetPool name (Found pool) ∈ h1 ∧ poolLost pool now FailoverThreshold = true ∧ covered pool ∧
    [EStorageFence (p_name pool) (UnderlayPrefix pool) None; ENetworkFence (UnderlayPrefix pool) None; EListVMs (inr vms); EListPools (inr pools)] `sublist_of` h2 ∧
    Forall (λ e, ¬ is_release e) h2.

(** The machine [vm] may be moved as it is. *)
Definition moved (vm : VirtualMachine Q Sel) (h : history) : Prop :=
  ∃ pool vms pools vm0 target sel, fenced_off pool vms pools h ∧ vm0 ∈ vms ∧ vm_cluster vm0 = p_name pool ∧ vm = bind_vm (p_name target) vm0 ∧
    target ∈ pools ∧ p_name target ≠ p_name pool ∧ Phase target = PhaseReady ∧ selects as_selector (PoolSelector vm0) sel ∧ ∀ f, sel = Some f → f (p_labels target) = true.

(** What each call needs of the calls before it. *)
Definition allowed (h : history) (e : Event Q Sel) : Prop :=
  match e with
  | ENetworkRelease p _ => ∃ pool, gate pool p h
  | EStorageRelease pl p _ => ∃ pool h', h = h' ++ [ENetworkRelease p None] ∧ gate pool p h' ∧ pl = p_name pool
  | EStorageFence pl p _ => ∃ pool now, [EGetPool name (Found pool); ENow now] `sublist_of` h ∧ poolLost pool now FailoverThreshold = true ∧ pl = p_name pool ∧ p = UnderlayPrefix pool ∧ valid_prefix p
  | EUpdateVM vm _ => moved vm h
  | _ => True
  end.

Lemma quiet_allowed h e : quiet e → allowed h e.
Proof. by destruct e. Qed.

(** What a program adds to the history. *)
Definition adds {A : Type} (h : history) (P : history → A → Prop) (h' : history) (a : A) : Prop := ∃ t, h' = h ++ t ∧ P t a.

(** ** Programs that are quiet *)

Ltac be_quiet := repeat first [apply asks_ask; [done|intros] | apply asks_bind; [|intros] | apply asks_each; intros | case_match | progress cbn [asks] | done].

Lemma block_quiet vm w : asks quiet (block vm w).
Proof. done. Qed.

Lemma blockPoolVMs_quiet n w : asks quiet (blockPoolVMs n w).
Proof.
  unfold blockPoolVMs. apply asks_ask; [done|]. intros [e|vms]; [done|]. apply asks_bind; [|done]. induction vms as [|vm vms IH]; [done|]. cbn [block_all]. case_match; [done|]. apply asks_bind; [apply block_quiet|]. by intros [e|].
Qed.

Lemma releaseFencedTwins_quiet n : asks quiet (releaseFencedTwins n).
Proof. unfold releaseFencedTwins, release_twin. be_quiet. Qed.

Lemma quiet_not_release e : quiet e → ¬ is_release e.
Proof. destruct e; cbn; tauto. Qed.

Lemma safe_quiet {A} (p : prog (Event Q Sel) A) h : asks quiet p → safe allowed h p (adds h (λ t _, Forall quiet t)).
Proof. intros Hp. eapply safe_mono, safe_asks, Hp; [|apply quiet_allowed]. by intros h' a (t & -> & Ht); exists t. Qed.

(** ** Releasing *)

Lemma ownFences_safe (pool : ClusterPool Q) h :
  safe allowed h (ownFences pool) (adds h (λ t '(own, unverified), ∀ p, p ∈ own → p ∈ FencedPrefixes pool ∧ (p ∉ unverified → EFencedFor p (inr (p_name pool, true)) ∈ t))).
Proof.
  unfold ownFences. eapply (safe_each _ _ (adds h (λ t '(own, unverified), ∀ p, p ∈ own → p ∈ FencedPrefixes pool ∧ (p ∉ unverified → EFencedFor p (inr (p_name pool, true)) ∈ t)))); [exists []; rewrite app_nil_r; split; [done|]; by intros p ?%not_elem_of_nil| |done].
  intros p [own unverified] h' Hin (t & -> & Hown). apply safe_ask_bind. intros r. split; [done|].
  assert (Hold : ∀ q, q ∈ own → q ∈ FencedPrefixes pool ∧ (q ∉ unverified → EFencedFor q (inr (p_name pool, true)) ∈ t ++ [EFencedFor p r])) by (intros q Hq; destruct (Hown q Hq) as [H1 H2]; split; [done|]; intros; apply elem_of_app; left; auto).
  destruct r as [e|[holder found]]; [|destruct (found && bool_decide (holder = p_name pool)) eqn:E]; eexists; (split; [by rewrite <- app_assoc|]); [| |exact Hold]; intros q [Hq| ->%list_elem_of_singleton]%elem_of_app.
  - destruct (Hold q Hq) as [H1 H2]. split; [done|]. intros Hn. apply H2. set_solver.
  - split; [done|]. set_solver.
  - by apply Hold.
  - split; [done|]. intros _. apply andb_true_iff in E as [-> E]. apply bool_decide_eq_true in E as ->. apply elem_of_app. right. by left.
Qed.

Lemma ask_batches_safe p l held h :
  safe allowed h (ask_batches p l held) (adds h (λ t r, r = inr [] → held = [] ∧ t = silent p <$> l)).
Proof.
  revert held h. induction l as [|b l IH]; intros held h; [exists []; rewrite app_nil_r; split; [done|]; by intros [= ->]|]. cbn [ask_batches]. apply safe_ask_bind. intros r. split; [done|]. destruct r as [e|hs]; [by exists [EAnnounced p b (inl e)]|].
  eapply safe_mono, IH. intros h' r (t & -> & Ht). exists (EAnnounced p b (inr hs) :: t). rewrite <- app_assoc. split; [done|]. intros Hr. destruct (Ht Hr) as [Hh ->]. apply app_eq_nil in Hh as [-> ->]. done.
Qed.

Lemma routesGone_safe p keys owner h :
  safe allowed h (routesGone Routes p keys owner) (adds h (λ t r, r = None → ∃ bs, t = silent p <$> bs ∧ concat bs = keys ∧ Forall (λ b, length b ≤ routeBatch)%nat bs)).
Proof.
  unfold routesGone. destruct keys as [|k keys]; [exists []; rewrite app_nil_r; split; [done|]; intros _; by exists []|]. destruct Routes; cbn [negb]; [|exists []; rewrite app_nil_r; by split].
  set (ks := k :: keys). apply safe_bind. eapply safe_mono, ask_batches_safe. intros h' r (t & -> & Ht). destruct r as [e|[|hd hs]]; exists t; (split; [done|]); [done| |done]. intros _. destruct (Ht eq_refl) as [_ ->]. destruct (batches_spec (length ks) routeBatch ks) as [H1 H2]; [unfold routeBatch; lia|done|]. eauto.
Qed.

(** What is known once the addresses placed elsewhere are. *)
Definition gate_base (pool : ClusterPool Q) (p : string) (keys : list RouteKey) (h : history) : Prop :=
  ∃ now nics, [EGetPool name (Found pool); ENow now; EFencedFor p (inr (p_name pool, true)); EListNICs (inr nics)] `sublist_of` h ∧
    Reachable pool now (health_stale HealthStale) = true ∧ p ∈ FencedPrefixes pool ∧ (∃ d, d ∈ NodeDrain pool ∧ nd_prefix d = p ∧ Drained d = true) ∧
    ∀ k, elsewhere (PoolNamespace (p_name pool)) nics k → k ∈ keys.

Lemma gate_base_app pool p keys h t : gate_base pool p keys h → gate_base pool p keys (h ++ t).
Proof. intros (now & nics & Hs & Hrest). exists now, nics. split; [by apply sublist_inserts_r|done]. Qed.

Lemma gate_open pool p keys bs h : gate_base pool p keys h → concat bs = keys → Forall (λ b, length b ≤ routeBatch)%nat bs → gate pool p (h ++ (silent p <$> bs)).
Proof. intros (now & nics & Hs & Hr & Hf & Hd & Hk) <- Hb. exists now, nics, bs. split_and!; try done. by apply sublist_app. Qed.

Lemma release_one_safe pool drained unverified lookup p st h :
  (p ∈ drained → p ∉ unverified → ∀ keys owner, lookup = inr (keys, owner) → gate_base pool p keys h) →
  safe allowed h (release_one Routes pool drained unverified lookup p st) (adds h (λ _ _, True)).
Proof.
  intros Hg. assert (Hnil : ∀ x : Releasing, adds h (λ _ _, True) h x) by (intros x; exists []; by rewrite app_nil_r). unfold release_one.
  destruct (bool_decide (p ∉ drained)) eqn:Ed; [apply Hnil|]. destruct (bool_decide (p ∈ unverified)) eqn:Eu; [apply Hnil|]. cbn [orb]. destruct lookup as [e|[keys owner]]; [apply Hnil|].
  apply bool_decide_eq_false in Ed, Eu. specialize (Hg ltac:(by destruct (decide (p ∈ drained))) Eu keys owner eq_refl). apply safe_bind. eapply safe_mono, routesGone_safe. intros h' r (t & -> & Ht). destruct r as [[why msg]|]; [by exists t|].
  destruct (Ht eq_refl) as (bs & -> & Hk & Hb). pose proof (gate_open _ _ _ _ _ Hg Hk Hb) as Hopen. apply safe_ask_bind. intros err. split; [by exists pool|]. destruct err as [e|]; [eexists; by rewrite <- app_assoc|].
  apply safe_ask_bind. intros err. split; [exists pool; eexists; by split_and!|]. destruct err as [e|]; eexists; rewrite <- !app_assoc; by split.
Qed.

(** A pool with the parts that say whether it is lost and what to fence. *)
Definition core (pool pool' : ClusterPool Q) : Prop :=
  p_name pool' = p_name pool ∧ UnderlayPrefix pool' = UnderlayPrefix pool ∧ Phase pool' = Phase pool ∧ p_lease pool' = p_lease pool ∧ NodePrefixes pool' = NodePrefixes pool.

Lemma setReleaseBlocked_core pool why l pool' b : setReleaseBlocked pool why l = (pool', b) → core pool pool'.
Proof. unfold setReleaseBlocked. destruct l; [case_match|]; try (destruct (SetStatusCondition _ _)); by intros [= <- <-]. Qed.

Lemma core_trans pool1 pool2 pool3 : core pool1 pool2 → core pool2 pool3 → core pool1 pool3.
Proof. unfold core. intros (-> & -> & -> & -> & ->). done. Qed.

Lemma drained_of_spec (pool : ClusterPool Q) reach p : p ∈ drained_of pool reach → reach = true ∧ ∃ d, d ∈ NodeDrain pool ∧ nd_prefix d = p ∧ Drained d = true.
Proof.
  unfold drained_of. rewrite elem_of_list_to_set, list_elem_of_omap. intros (d & Hd & Hp). destruct (Drained d) eqn:Ed, reach; cbn in Hp; try done. injection Hp as <-. split; [done|]. by exists d.
Qed.

(** The lookup, and what it is the basis of. *)
Definition looked_up (pool : ClusterPool Q) (drained unverified : gset string) (own : list string) (h : history) (lookup : string + (list RouteKey * gmap RouteKey string)) : Prop :=
  ∀ p, p ∈ own → p ∈ drained → p ∉ unverified → ∀ keys owner, lookup = inr (keys, owner) → gate_base pool p keys h.

Lemma lookup_safe pool now own unverified t :
  let h0 := [EGetPool name (Found pool); ENow now] in
  let drained := drained_of pool (Reachable pool now (health_stale HealthStale)) in
  (∀ p, p ∈ own → p ∈ FencedPrefixes pool ∧ (p ∉ unverified → EFencedFor p (inr (p_name pool, true)) ∈ t)) →
  safe allowed (h0 ++ t) (if existsb (fun p => bool_decide (p ∈ drained) && bool_decide (p ∉ unverified)) own then placedElsewhere (p_name pool) else mret (inr ([], ∅)))
    (adds (h0 ++ t) (λ t' lookup, looked_up pool drained unverified own (h0 ++ t ++ t') lookup)).
Proof.
  intros h0 drained Hown. destruct (existsb _ own) eqn:Ex.
  - unfold placedElsewhere. apply safe_ask_bind. intros [e|nics]; (split; [done|]); eexists; (split; [done|]); [done|]. intros p Hp Hd Hu keys owner [= Hk]. destruct (drained_of_spec _ _ _ Hd) as [Hr Hdr]. destruct (Hown p Hp) as [Hf Ht]. exists now, nics. split_and!; try done.
    + change [EGetPool name (Found pool); ENow now; EFencedFor p (inr (p_name pool, true)); EListNICs (inr nics)] with (h0 ++ [EFencedFor p (inr (p_name pool, true))] ++ [EListNICs (inr nics)]). apply sublist_app, sublist_app; [done| |done]. apply singleton_sublist_l. auto.
    + intros k Hel. change keys with (fst (keys, owner)). rewrite <- Hk. apply (proj2 (placed_keys (PoolNamespace (p_name pool)) nics ([], ∅) ltac:(intros ?; cbn; rewrite lookup_empty, elem_of_nil; split; [done|by intros [? ?]]))). by right.
  - exists []. rewrite app_nil_r. split; [done|]. intros p Hp Hd Hu. exfalso. assert (existsb (fun p => bool_decide (p ∈ drained) && bool_decide (p ∉ unverified)) own = true) as Hx; [|congruence]. apply existsb_exists. exists p. split; [by apply list_elem_of_In|]. by rewrite !bool_decide_true.
Qed.

Lemma releaseDrained_safe pool now :
  let h0 := [EGetPool name (Found pool); ENow now] in
  safe allowed h0 (releaseDrained Routes pool (Reachable pool now (health_stale HealthStale))) (adds h0 (λ _ '(pool', _, _), core pool pool')).
Proof.
  intros h0. unfold releaseDrained. apply safe_bind. eapply safe_mono, ownFences_safe. intros h1 [own unverified] (t1 & -> & Hown). apply safe_bind. eapply safe_mono, (lookup_safe pool now own unverified t1 Hown). intros h2 lookup (t2 & -> & Hl).
  set (drained := drained_of _ _) in *. apply safe_bind. eapply (safe_each _ _ (adds ((h0 ++ t1) ++ t2) (λ _ _, True))); [exists []; by rewrite app_nil_r| |].
  - intros p st h Hp (t & -> & _). eapply safe_mono, release_one_safe; [intros h' x (t' & -> & _); eexists; by rewrite <- !app_assoc|]. intros Hd Hu keys owner ->. apply gate_base_app. rewrite <- app_assoc. by eapply Hl.
  - intros h st (t3 & -> & _). destruct (setReleaseBlocked _ _ _) as [pool' set] eqn:Es. apply setReleaseBlocked_core in Es. assert (Hc : core pool pool') by (eapply core_trans, Es; by case_match). rewrite <- !app_assoc. destruct (negb (_ || _)); [exists (t1 ++ t2 ++ t3); split; [done|exact Hc]|]. apply safe_ask_bind. intros err. split; [done|]. exists (t1 ++ t2 ++ t3 ++ [EUpdatePoolStatus pool' err]). split; [by rewrite <- !app_assoc|exact Hc].
Qed.

(** ** Fencing and moving *)

Lemma poolLost_core (pool pool' : ClusterPool Q) now : core pool pool' → poolLost pool' now FailoverThreshold = poolLost pool now FailoverThreshold.
Proof. unfold poolLost. by intros (_ & _ & -> & -> & _). Qed.

Lemma covered_core (pool pool' : ClusterPool Q) : core pool pool' → covered pool' → covered pool.
Proof. unfold covered. by intros (_ & -> & _ & _ & ->). Qed.

Lemma fence_targets_safe pl targets fenced h :
  (∀ p t err, p ∈ targets → allowed (h ++ t) (EStorageFence pl p err)) →
  safe allowed h (fence_targets pl targets fenced) (adds h (λ t '(_, failed), Forall (λ e, ¬ is_release e) t ∧ (failed = None → t = targets ≫= λ p, [EStorageFence pl p None; ENetworkFence p None]))).
Proof.
  revert fenced h. induction targets as [|p targets IH]; intros fenced h Hal; [exists []; by rewrite app_nil_r|]. cbn [fence_targets]. apply safe_ask_bind. intros err. split; [rewrite <- (app_nil_r h); apply Hal; by left|].
  destruct err as [e|]; [exists [EStorageFence pl p (Some e)]; split_and!; [done|by repeat constructor; intros []|done]|]. apply safe_ask_bind. intros err. split; [done|].
  destruct err as [e|]; [exists [EStorageFence pl p None; ENetworkFence p (Some e)]; split_and!; [by rewrite <- app_assoc|by repeat constructor; intros []|done]|].
  eapply safe_mono, IH; [|intros q t err Hq; rewrite <- !app_assoc; apply Hal; by right]. intros h' [fd failed] (t & -> & Hr & Ht). exists ([EStorageFence pl p None; ENetworkFence p None] ++ t). rewrite <- !app_assoc. split_and!; [done| |intros Hf; by rewrite (Ht Hf)].
  constructor; [by intros []|]. constructor; [by intros []|done].
Qed.

(** The history since the pool was found lost. *)
Lemma fenced_off_app pool vms pools h t : Forall (λ e, ¬ is_release e) t → fenced_off pool vms pools h → fenced_off pool vms pools (h ++ t).
Proof.
  intros Ht (now & h1 & h2 & -> & Hg & Hl & Hc & Hs & Hr). exists now, h1, (h2 ++ t). rewrite <- !app_assoc. split_and!; try done; [by apply sublist_inserts_r|by apply Forall_app].
Qed.

Lemma rebind_one_safe pool vms pools vm pl errs h :
  let batch := List.filter (fun vm => bool_decide (vm_cluster vm = p_name pool)) vms in
  let candidates := List.filter (fun p => negb (bool_decide (p_name p = p_name pool))) pools in
  fenced_off pool vms pools h → (vm, pl) ∈ zip batch (ScheduleBatch as_selector batch candidates) →
  safe allowed h (rebind_one (vm, pl) errs) (adds h (λ t _, Forall (λ e, ¬ is_release e) t)).
Proof.
  intros batch candidates Hf Hin. unfold rebind_one. destruct pl as [why|[n violated]].
  - apply safe_ask_bind. intros err. split; [done|]. destruct err; eexists; (split; [done|]); constructor; try done; by intros [].
  - apply safe_ask_bind. intros r. split.
    + destruct (batch_placed as_selector _ _ _ _ _ _ _ Hin) as (Hvm & p & sel & Hp & Hn & Hready & Hsel & Hlab). apply list_elem_of_In, filter_In in Hvm as [Hvm Hcl], Hp as [Hp Hne]. apply bool_decide_eq_true in Hcl. apply negb_true_iff, bool_decide_eq_false in Hne. apply list_elem_of_In in Hvm, Hp.
      exists pool, vms, pools, vm, p, sel. rewrite Hn in *. split_and!; try done.
    + destruct r as [e|gen]; [exists [EUpdateVM (bind_vm n vm) (inl e)]; split; [done|]; by constructor; [intros []|]|]. apply safe_ask_bind. intros err. split; [done|].
      destruct err; eexists; (split; [by rewrite <- app_assoc|]); by repeat constructor; intros [].
Qed.

Lemma rebindPoolVMs_safe pool h :
  (∀ vms pools, fenced_off pool vms pools (h ++ [EListVMs (inr vms); EListPools (inr pools)])) →
  safe allowed h (rebindPoolVMs as_selector (p_name pool)) (λ _ _, True).
Proof.
  intros Hf. unfold rebindPoolVMs. apply safe_ask_bind. intros [e|vms]; (split; [done|]); [done|]. apply safe_ask_bind. intros [e|pools]; (split; [done|]); [done|]. rewrite <- app_assoc. specialize (Hf vms pools).
  eapply (safe_each _ _ (λ h' _, fenced_off pool vms pools h')); [exact Hf| |done]. intros [vm pl] errs h' Hin Hh'. eapply safe_mono, rebind_one_safe; [|exact Hh'|exact Hin]. intros h'' errs' (t & -> & Ht). by apply fenced_off_app.
Qed.

Lemma stay_safe (pool : ClusterPool Q) why h : safe allowed h (stay FailoverThreshold pool why) (λ _ _, True).
Proof. unfold stay. apply safe_bind. eapply safe_mono, safe_quiet, blockPoolVMs_quiet. done. Qed.

Lemma forgetDrain_safe pool h : safe allowed h (forgetDrain pool) (adds h (λ t '(pool', _), Forall (λ e, ¬ is_release e) t ∧ core pool pool')).
Proof.
  unfold forgetDrain. destruct (negb _); [exists []; by rewrite app_nil_r|]. apply safe_ask_bind. intros err. split; [done|]. eexists. split_and!; [done| |done]. by repeat constructor; intros [].
Qed.

Lemma setFencedPrefixes_safe pool l h : safe allowed h (setFencedPrefixes pool l) (adds h (λ t '(pool', _), Forall (λ e, ¬ is_release e) t ∧ core pool pool')).
Proof. apply safe_ask_bind. intros err. split; [done|]. eexists. split_and!; [done| |done]. by repeat constructor; intros []. Qed.

(** The pool that was read, as it was found lost. *)
Lemma fence_and_rebind_safe pool0 pool now h1 :
  EGetPool name (Found pool0) ∈ h1 → core pool0 pool → poolLost pool now FailoverThreshold = true →
  safe allowed (h1 ++ [ENow now]) (fence_and_rebind as_selector FailoverThreshold pool) (λ _ _, True).
Proof.
  intros Hget Hcore Hlost. rewrite (poolLost_core _ _ _ Hcore) in Hlost. unfold fence_and_rebind. apply safe_bind. eapply safe_mono, forgetDrain_safe. intros h' [pool1 err] (t1 & -> & Ht1 & Hc1%(core_trans _ _ _ Hcore)). destruct err as [e|]; [done|].
  destruct (fenceCoverage pool1) as [[targets complete] why] eqn:Ecov. destruct (coverage_spec _ _ _ _ Ecov) as [Htg Hcomp]. assert (Hpre : [EGetPool name (Found pool0); ENow now] `sublist_of` h1 ++ [ENow now]) by (apply (sublist_app [_] _ [_]); [by apply singleton_sublist_l|done]). destruct Hc1 as (Hn & Hu & Hrest).
  destruct targets as [|tg tgs] eqn:Etg; [apply stay_safe|]. rewrite <- Etg in *. clear Etg tg tgs. apply safe_bind. eapply safe_mono, fence_targets_safe; cycle 1.
  { intros p t err Hp. destruct (Htg p Hp) as [-> Hv]. exists pool0, now. split_and!; try done. by do 2 apply sublist_inserts_r. }
  intros h' [fenced failed] (t2 & -> & Ht2 & Hall). apply safe_bind. eapply safe_mono, setFencedPrefixes_safe. intros h' [pool2 err] (t3 & -> & Ht3 & Hn2 & _). destruct failed as [f|]; [apply stay_safe|]. destruct err as [e|]; [done|]. destruct complete; [|apply stay_safe].
  destruct (Hcomp eq_refl) as [-> Hcov]. rewrite (Hall eq_refl) in *. clear Hall. apply safe_bind. eapply safe_mono, safe_quiet, releaseFencedTwins_quiet. intros h' errs (t4 & -> & Ht4). apply safe_bind. eapply safe_mono; [done|]. rewrite Hn2, Hn. apply rebindPoolVMs_safe.
  intros vms pools. exists now, h1, (t1 ++ [EStorageFence (p_name pool0) (UnderlayPrefix pool0) None; ENetworkFence (UnderlayPrefix pool0) None] ++ t3 ++ t4 ++ [EListVMs (inr vms); EListPools (inr pools)]). rewrite Hu. rewrite <- !app_assoc. split_and!; try done.
  - by apply (covered_core pool0 pool1).
  - apply sublist_inserts_l. apply (sublist_app [_;_] _ [_;_]); [done|]. by do 2 apply sublist_inserts_l.
  - repeat (apply Forall_app; split); try done; [by repeat constructor; intros []| |by repeat constructor; intros []]. eapply Forall_impl; [exact Ht4|apply quiet_not_release].
Qed.

Lemma Reconcile_safe : safe allowed [] (Reconcile as_selector Routes FailoverThreshold HealthStale name) (λ _ _, True).
Proof.
  unfold Reconcile. apply safe_ask_bind. intros r. split; [done|]. destruct r as [pool| |e]; [|done..]. apply safe_ask_bind. intros now. split; [done|]. apply safe_bind. eapply safe_mono, releaseDrained_safe. intros h' [[pool' waiting] err] (t & -> & Hcore). destruct err as [e|]; [done|].
  apply safe_ask_bind. intros now'. split; [done|]. destruct (poolLost pool' now' FailoverThreshold) eqn:El; cbn [negb]; [|done]. eapply fence_and_rebind_safe; [|done|done]. by left.
Qed.

(** ** Claims *)

(** C6. A workload leaves its pool only behind both fences.  In every pass, whatever the
    answers, an update of a virtual machine's specification comes after: the pool was
    read and found lost; its declared prefix is valid and holds every node prefix its
    broker reported, address by address; the storage fence on it was confirmed for this
    pool, then the network fence; and since the pool was found lost no fence was lifted.
    The machine was bound to that pool, and goes to another one that is ready and that
    its selector admits; nothing else of it changes. *)
Theorem rebind_fenced tr res pre vm r post :
  traces (Reconcile as_selector Routes FailoverThreshold HealthStale name) tr res → tr = pre ++ EUpdateVM vm r :: post → moved vm pre.
Proof. intros Ht Hp. exact (proj2 (safe_traces _ _ _ _ _ _ Reconcile_safe Ht) pre _ post Hp). Qed.

(** C8. A fence is lifted only when it is safe, and the storage fence last.  In every
    pass, whatever the answers, the network fence is lifted only after: the pool was read
    and is reachable on a fresh lease, with the prefix recorded as fenced and reported
    drained; the storage fencer's own record says the fence is this pool's; and the
    reflector, asked about every address placed on another pool, in batches of at most
    5000 keys, held none of them from the prefix.  The storage fence is lifted right
    after the network fence was confirmed lifted, and never otherwise. *)
Theorem release_gated tr res :
  traces (Reconcile as_selector Routes FailoverThreshold HealthStale name) tr res →
  (∀ pre p err post, tr = pre ++ ENetworkRelease p err :: post → ∃ pool, gate pool p pre) ∧
  (∀ pre pl p err post, tr = pre ++ EStorageRelease pl p err :: post → ∃ pool h, pre = h ++ [ENetworkRelease p None] ∧ gate pool p h ∧ pl = p_name pool).
Proof.
  intros Ht. pose proof (proj2 (safe_traces _ _ _ _ _ _ Reconcile_safe Ht)) as Hall. split.
  - intros pre p err post Hp. exact (Hall _ _ _ Hp).
  - intros pre pl p err post Hp. exact (Hall _ _ _ Hp).
Qed.

End pass.

(** ** Passes and the storage *)

Section system.
Context {ro : RangeOrder} {Q Sel : Type} `{QuantityLaws Q} {cs : Conditions}.
Context (as_selector : Sel → string + (gmap string string → bool)).
Context (Routes : bool) (FailoverThreshold HealthStale : Z).

(** The controller runs pass after pass, for any pools, and may stop in the middle of
    one. *)
Inductive passes : list (Event Q Sel) → Prop :=
| passes_none : passes []
| passes_next tr name t full res : passes tr → traces (Reconcile as_selector Routes FailoverThreshold HealthStale name) full res → t `prefix_of` full → passes (tr ++ t).

(** Every call of a pass is one the pass allows after its calls so far. *)
Lemma passes_allowed tr pre e post : passes tr → tr = pre ++ e :: post →
  ∃ name tr0 pre', pre = tr0 ++ pre' ∧ allowed as_selector FailoverThreshold HealthStale name pre' e.
Proof.
  intros Hp. revert pre e post. induction Hp as [|tr name t full res Hp IH Hf [rest ->]]; intros pre e post Heq; [by destruct pre|].
  apply app_eq_inv in Heq as [(k & -> & Hk)|(k & -> & Hk)].
  - destruct k as [|e' k]; cbn in Hk; [|injection Hk as -> Hk; by eapply IH]. exists name, (pre ++ []), []. rewrite !app_nil_r. split; [done|]. rewrite <- Hk in Hf. exact (proj2 (safe_traces _ _ _ _ _ _ (Reconcile_safe _ _ _ _ _) Hf) [] e (post ++ rest) eq_refl).
  - exists name, tr, k. split; [done|]. refine (proj2 (safe_traces _ _ _ _ _ _ (Reconcile_safe _ _ _ _ _) Hf) k e (post ++ rest) _). by rewrite Hk, <- app_assoc.
Qed.

(** A call of the controller to the storage fencer, as the fencer sees it. *)
Definition is_storage (e : Event Q Sel) : bool := match e with EStorageFence _ _ _ | EStorageRelease _ _ _ | EFencedFor _ _ => true | _ => false end.

Definition of_call (text : FenceError → string) (c : Call) : Event Q Sel :=
  match c with
  | CallFence pool p r => EStorageFence pool p (text <$> r)
  | CallRelease pool p r => EStorageRelease pool p (text <$> r)
  | CallFencedFor p r => EFencedFor p r
  end.

Lemma of_call_elem text h calls c : List.filter is_storage h = of_call text <$> calls → c ∈ calls → of_call text c ∈ h.
Proof. intros Hf Hc. apply (list_elem_of_fmap_2 (of_call text)) in Hc. rewrite <- Hf in Hc. apply list_elem_of_In, filter_In in Hc as [Hc _]. by apply list_elem_of_In. Qed.

Lemma of_call_split text h1 pool p h2 calls :
  List.filter is_storage (h1 ++ EStorageFence pool p None :: h2) = of_call text <$> calls →
  ∃ cs1 cs2, calls = cs1 ++ CallFence pool p None :: cs2 ∧ List.filter is_storage h2 = of_call text <$> cs2.
Proof.
  rewrite List.filter_app. cbn. intros Heq. symmetry in Heq. apply fmap_app_inv in Heq as (cs1 & cs2 & _ & Heq & ->). destruct cs2 as [|c cs2]; [done|]. cbn in Heq. injection Heq as Hc Hcs. exists cs1, cs2. split; [|done].
  destruct c as [pool' p' r|pool' p' r|p' r]; try done. cbn in Hc. by destruct r; injection Hc as <- <-.
Qed.

(** C4. Failover moves a machine only once its pool cannot write.  Take any sequence of passes of the failover
    controller, some cut short, over any pools, where what the storage fencer answers is
    what its code gives against the API server, beside csi-addons and with answers lost.
    Whenever a virtual machine is bound away from a pool, Ceph blocks, at that moment,
    the whole prefix the pool declares, which holds every node prefix its broker
    reported, and the fence is recorded as that pool's. *)
Theorem failover_storage_safe (env : World → World → Prop) (driver clusterID : string) (secret : string * string) (text : FenceError → string)
    (tr pre post : list (Event Q Sel)) (vm : VirtualMachine Q Sel) (r : string + Z) (calls : list Call) (w w' : World) :
  (∀ w w', env w w' → csi_step w w') → unfenced w →
  passes tr → tr = pre ++ EUpdateVM vm r :: post →
  List.filter is_storage pre = of_call text <$> calls → calls_run env driver clusterID secret w calls w' →
  ∃ (pool : ClusterPool Q) (vm0 : VirtualMachine Q Sel), vm_cluster vm0 = p_name pool ∧ vm = bind_vm (vm_cluster vm) vm0 ∧ vm_cluster vm ≠ p_name pool ∧
    covered pool ∧ held (p_name pool) (UnderlayPrefix pool) w'.
Proof.
  intros Henv Hu Hp Htr Hcalls Hrun. destruct (passes_allowed _ _ _ _ Hp Htr) as (name & tr0 & pre' & -> & (pool & vms & pools & vm0 & target & sel & Hoff & _ & Hcl & -> & _ & Hne & _)).
  destruct Hoff as (now & h1 & h2 & -> & _ & _ & Hcov & Hsub & Hrel). exists pool, vm0. split_and!; try done.
  apply sublist_cons_l in Hsub as (a & b & -> & _). apply Forall_app in Hrel as [_ [_ Hrel]%Forall_cons].
  assert (Hwf : Forall wf_call calls).
  { apply Forall_forall. intros c Hc. pose proof (of_call_elem _ _ _ _ Hcalls Hc) as He. destruct c as [pl p err|pl p err|p err]; try done. apply list_elem_of_split in He as (l1 & l2 & He). subst tr. rewrite He, <- app_assoc in Hp. destruct (passes_allowed _ _ _ _ Hp eq_refl) as (n & ? & ? & _ & (? & ? & _ & _ & _ & _ & Hv)). exact Hv. }
  assert (Hcut : tr0 ++ h1 ++ [ENow now] ++ a ++ EStorageFence (p_name pool) (UnderlayPrefix pool) None :: b = (tr0 ++ h1 ++ [ENow now] ++ a) ++ EStorageFence (p_name pool) (UnderlayPrefix pool) None :: b) by (by rewrite <- !app_assoc). rewrite Hcut in Hcalls.
  destruct (of_call_split _ _ _ _ _ _ Hcalls) as (cs1 & cs2 & -> & Hcs2). eapply (fenced_run env Henv driver clusterID secret); [by apply unfenced_inv|exact Hrun|exact Hwf|].
  apply Forall_forall. intros c Hc. pose proof (of_call_elem _ _ _ _ Hcs2 Hc) as He. rewrite Forall_forall in Hrel. apply Hrel in He. destruct c as [pl p err|pl p err|p err]; cbn in *; tauto.
Qed.

End system.

(** ** Runs *)
Module failover_example.

#[local] Instance Z_Quantity : Quantity Z := {| q_zero := 0; q_add := Z.add; q_cmp := Z.compare; q_float z := SpecFloat.binary_normalize 53 1024 z 0 false |}.

#[local] Instance Z_QuantityLaws : QuantityLaws Z.
Proof. by refine {| q_value := fun z => z |}. Defined.

#[local] Instance order : RangeOrder := canonical_order.

(** Conditions as a list of the ones set. *)
#[local] Instance conditions : Conditions := {| SetStatusCondition l c := (l ++ [c], true); IsStatusConditionTrue l t := false |}.

Definition any_selector (s : ()) : string + (gmap string string → bool) := inr (fun _ => true).

Definition second : Z := 1000000000.
Definition prefix : string := fence_example.prefix.

Abbreviation pass := (Reconcile (Q := Z) any_selector true (300 * second) 0).

(** ** A pool is lost *)

Definition lost : ClusterPool Z := mkPool "west" ∅ 1 prefix PhaseUnknown [] ∅ (Some (mkLease "broker" (Some 0))) ["fd00:b:1::/64"] [] [].
Definition east : ClusterPool Z := mkPool "east" ∅ 1 "" PhaseReady [] {[ "cpu" := 8000 ]} None [] [] [].
Definition vm : VirtualMachine Z () := mkVM "default" "db" 1 "west" {[ "cpu" := 1000 ]} None None [].

(** The fence is asked for, and not confirmed yet. *)
Definition first_pass : list (Event Z ()) :=
  [EGetPool "west" (Found lost); ENow (400 * second); ENow (400 * second); EStorageFence "west" prefix (Some "created"); EUpdatePoolStatus lost None;
   EListVMs (inr [vm]); EUpdateVMStatus (vm_condition (mkCondition "FailoverBlocked" ConditionTrue "FenceUnconfirmed" (BlockedBy (StorageUnconfirmed prefix "created")) 1) vm) None].

Definition before_move : list (Event Z ()) :=
  [EGetPool "west" (Found lost); ENow (700 * second); ENow (700 * second); EStorageFence "west" prefix None; ENetworkFence prefix None; EUpdatePoolStatus (set_fenced [prefix] lost) None;
   EListTwins "pool-west" (inr []); EListVMs (inr [vm]); EListPools (inr [lost; east])].

Definition vm_moved : VirtualMachine Z () := bind_vm "east" vm.

Definition vm_marked : VirtualMachine Z () :=
  vm_condition (mkCondition "Scheduled" ConditionTrue "FailedOver" (BoundTo "east") 2) (vm_condition (mkCondition "FailoverBlocked" ConditionFalse "FailedOver" (FailedOverTo "east" false) 2) (set_generation 2 vm_moved)).

Definition second_pass : list (Event Z ()) := before_move ++ [EUpdateVM vm_moved (inr 2); EUpdateVMStatus vm_marked None].

Definition move : list (Event Z ()) := [EListVMs (inr [vm]); EListPools (inr [lost; east]); EUpdateVM vm_moved (inr 2); EUpdateVMStatus vm_marked None].

Ltac run := repeat (lazy head; eexists; eexists; split; [reflexivity|]).

Lemma first_runs : traces (pass "west") first_pass (mkResult (300 * second) []).
Proof. run. lazy head. split; reflexivity. Qed.

Definition batch := List.filter (fun vm => bool_decide (vm_cluster vm = "west")) [vm].
Definition candidates := List.filter (fun p => negb (bool_decide (p_name p = "west"))) [lost; east].

Lemma placements : ScheduleBatch any_selector batch candidates = [inr ("east", false)].
Proof. vm_compute. reflexivity. Qed.

Lemma move_runs : traces (rebindPoolVMs any_selector "west") move [].
Proof.
  exists (inr [vm]), (tail move). split; [reflexivity|]. exists (inr [lost; east]), (tail (tail move)). split; [reflexivity|]. change (traces (each rebind_one (zip batch (ScheduleBatch any_selector batch candidates)) []) (tail (tail move)) []). rewrite placements. run. lazy head. split; reflexivity.
Qed.

#[local] Opaque rebindPoolVMs.

Lemma second_runs : traces (pass "west") second_pass (mkResult (300 * second) []).
Proof. do 7 (lazy head; eexists; eexists; split; [reflexivity|]). exact (traces_bind (rebindPoolVMs any_selector "west") (fun errs => mret (mkResult (300 * second) ([] ++ errs))) move [] [] _ move_runs (conj eq_refl eq_refl)). Qed.

Lemma rebind_fenced_witness : moved any_selector (300 * second) "west" vm_moved before_move.
Proof. exact (rebind_fenced any_selector true (300 * second) 0 "west" second_pass _ before_move vm_moved (inr 2) [EUpdateVMStatus vm_marked None] second_runs eq_refl). Defined.

(** ** The two passes and the storage *)

Definition text (e : FenceError) : string := match e with Created => "created" | _ => "held" end.

Lemma two_passes : passes any_selector true (300 * second) 0 (first_pass ++ second_pass).
Proof. apply (passes_next _ _ _ _ first_pass "west" second_pass second_pass (mkResult (300 * second) [])); [|exact second_runs|done]. apply (passes_next _ _ _ _ [] "west" first_pass first_pass (mkResult (300 * second) [])); [constructor|exact first_runs|done]. Qed.

Lemma failover_storage_safe_witness :
  ∃ (pool : ClusterPool Z) (vm0 : VirtualMachine Z ()), vm_cluster vm0 = p_name pool ∧ vm_moved = bind_vm "east" vm0 ∧ "east" ≠ p_name pool ∧ covered pool ∧ held (p_name pool) (UnderlayPrefix pool) fence_example.fenced.
Proof.
  refine (failover_storage_safe any_selector true (300 * second) 0 csi_step "rbd.csi.ceph.com" "ceph" ("rook-ceph", "provisioner") text (first_pass ++ second_pass) (first_pass ++ before_move) [EUpdateVMStatus vm_marked None] vm_moved (inr 2)
    [CallFence "west" prefix (Some Created); CallFence "west" prefix None] fence_example.idle fence_example.fenced (λ _ _ H, H) _ two_passes eq_refl eq_refl fence_example.fence_run).
  split_and!; [reflexivity|reflexivity|intros p _; apply not_elem_of_empty].
Defined.

(** ** The pool is back *)

Definition back : ClusterPool Z := mkPool "west" ∅ 1 prefix PhaseReady [] ∅ (Some (mkLease "broker" (Some (990 * second)))) ["fd00:b:1::/64"] [prefix] [mkNodeDrain prefix true].
Definition nic : CompiledNIC := mkCompiledNIC "pool-east" "db-nic" ∅ "east" 7 ["10.0.0.5"].

Definition before_release : list (Event Z ()) :=
  [EGetPool "west" (Found back); ENow (1000 * second); EFencedFor prefix (inr ("west", true)); EListNICs (inr [nic]); EAnnounced prefix [mkRouteKey 7 "10.0.0.5/32"] (inr []); ENetworkRelease prefix None].

Definition release_pass : list (Event Z ()) := before_release ++ [EStorageRelease "west" prefix None; EUpdatePoolStatus (set_fenced [] back) None; ENow (1000 * second)].

Lemma release_runs : traces (pass "west") release_pass (mkResult (300 * second) []).
Proof. run. lazy head. split; reflexivity. Qed.

Lemma release_gated_witness : ∃ pool h, before_release = h ++ [ENetworkRelease prefix None] ∧ gate 0 "west" pool prefix h ∧ "west" = p_name pool.
Proof. exact (proj2 (release_gated any_selector true (300 * second) 0 "west" release_pass _ release_runs) before_release "west" prefix None [EUpdatePoolStatus (set_fenced [] back) None; ENow (1000 * second)] eq_refl). Defined.

End failover_example.
